(* ===== verification/_CoqProject ===== *)
-Q . S2P
Prelude.v
Bits.v
BinaryBasic.v
Search.v
MemoryFile.v
TimeStore.v
Nodes.v
Queue.v
Stack.v
InnerList.v
TriList.v
SerialBase.v
Serializer.v
Deserializer.v
DeserializerProofs.v
RoundTrip.v
FrameCommon.v
Handlers.v
Reactor.v
ReactorProofs.v
ReactorRun.v
ReactorTurn.v
ReactorTimer.v
ReactorLife.v
ReactorExample.v
StoreLock.v
Manager.v
ManagerProofs.v
ManagerObjects.v
ManagerRegister.v
ManagerVisit.v
ManagerStop.v
ManagerLife.v
ManagerExample.v
Scheduler.v
SchedulerProofs.v
SchedulerLife.v
MutualStore.v
SharedStore.v
SharedStoreProofs.v
SharedStoreLife.v
FileStore.v
FileStoreProofs.v
FileStoreLife.v
Packet.v
MessageReader.v
MessageWriter.v
MessageWriterProofs.v
Pool.v
PoolProofs.v
Connection.v
Service.v
ServiceProofs.v
ServiceLife.v
ServiceGiveBack.v
ServiceInvariant.v
ConnectionStop.v
ConnectionStopProofs.v
