(* ===== verification/Prelude.v ===== *)
(** * SolidFrame: a verification development

    SolidFrame is a C++ framework for asynchronous network programs. This library models its
    message passing stack (solid/frame/mpipc) from the service down to the bytes on the wire,
    the reactor that runs objects, events and timers (solid/frame), the serialization library
    (solid/serialization) and the containers and utilities (solid/utility) below them, and
    proves what makes them correct.

    ** How the parts of the program interact

    A program sends a message with [Service::sendMessage]. The service keeps one connection
    pool per recipient, found by name or by id; a pool queues the message until one of its
    connections polls it ([Service::pollPoolForUpdates]) and moves it to its own message
    writer. When the connection can send, the writer cuts the messages it has into packets,
    several messages interleaved in one packet, each serialized by its own serializer that
    stops at the end of the packet and goes on in the next. The peer's message reader cuts the
    received bytes back into packets and feeds each chunk to the deserializer of its message.
    A message is completed (its completion function is called) when it was sent, when its
    response arrived, when it was canceled, or when the connection or the pool stops.

    Objects live in reactors. A reactor is a thread that loops over four calls ([Reactor::run]):
    it takes over the objects and events that other threads have pushed and raised, registers
    the objects and posts the events, fires the timers that are due, and executes what is
    posted. An object stops by posting its stop twice, so that the events raised before reach it.

    A scheduler starts the threads of the reactors and chooses the one a new object goes to. The
    manager keeps the tables of services and objects: it gives an object its identifier, finds the
    object and the reactor of an identifier when an event is raised for it, and stops services by
    telling all their objects. Its tables are read without a lock while they grow: each is kept
    twice, readers count themselves in, and a writer prepares the version nobody reads.

    A shared store is an object that keeps other objects, which are used through pointers: by one
    user, by several, or only kept alive. Requests that cannot be served wait in the queue of their
    object; the event handler of the store serves them when pointers were dropped, and recycles
    objects nobody points to. A file store is a shared store of files: its controller finds files
    by path and creates temporary ones in storages of limited room.

    ** Which file models what (paths under src/)

    - Bits.v: solid/utility/common.hpp, src/utility.cpp, the integer part of algorithm.hpp.
    - BinaryBasic.v: solid/serialization/binarybasic.hpp and src/binarybasic.cpp.
    - Search.v: the search templates of solid/utility/algorithm.hpp.
    - MemoryFile.v: solid/utility/memoryfile.hpp and src/memoryfile.cpp.
    - Nodes.v, Queue.v, Stack.v: solid/utility/queue.hpp and stack.hpp; Nodes.v is the memory of
      nodes the two share.
    - TimeStore.v: solid/system/nanotime.hpp and .ipp, solid/frame/timestore.hpp.
    - InnerList.v: solid/utility/innerlist.hpp, several lists threaded through one vector.
      TriList.v has the theory of three such lists, which writer and pool share.
    - SerialBase.v, Serializer.v, Deserializer.v: solid/serialization/binary.hpp and
      src/binary.cpp, the two machines of callbacks; DeserializerProofs.v compares the
      deserializer with a reference parser, RoundTrip.v composes the two machines.
    - FrameCommon.v: the ids of solid/frame/common.hpp.
    - Handlers.v: completion handlers and timers, solid/frame/completion.hpp, timer.hpp, the
      tables for them of src/reactor.cpp. Reactor.v: src/reactor.cpp and src/object.cpp, down to
      [next], one call of the loop of [Reactor::run]. ReactorProofs.v has the invariant,
      ReactorRun.v the execution queue, ReactorTurn.v what is taken over from other threads,
      ReactorTimer.v the timers, ReactorLife.v the reactor as a state machine with the theorems,
      ReactorExample.v objects that act by programs, as witnesses and counterexamples.
    - StoreLock.v: the double-buffered tables of solid/frame/src/manager.cpp, every atomic access a
      step. Manager.v: src/manager.cpp with the parts of service.hpp, src/service.cpp,
      objectbase.hpp and src/object.cpp it uses. ManagerProofs.v has the invariant of the tables
      and the operations on one place, ManagerObjects.v what a new chunk does to it,
      ManagerRegister.v registering services and objects, ManagerVisit.v the visits,
      ManagerStop.v starting and stopping services, ManagerLife.v the manager as a state machine
      with the theorems, ManagerExample.v runs as witnesses and counterexamples.
    - Scheduler.v: solid/frame/src/schedulerbase.cpp and the worker of scheduler.hpp, with any
      number of callers; SchedulerProofs.v has the invariant, SchedulerLife.v the theorems and runs.
    - SharedStore.v: solid/frame/sharedstore.hpp and src/sharedstore.cpp; SharedStoreProofs.v adds
      the holders of pointers, the threads and the event handler, with the invariant,
      SharedStoreLife.v has the theorems and runs. MutualStore.v: solid/system/mutualstore.hpp and
      bits of convertors.hpp, the mutexes of its objects. FileStore.v: the controller of
      solid/frame/file/src/filestore.cpp; FileStoreProofs.v has its invariant, FileStoreLife.v the
      theorems, and runs of it under the shared store.
    - Packet.v: packet headers, message flags, the value part of the [Protocol] interface
      (solid/frame/mpipc: mpipcprotocol.hpp, mpipcprotocol_serialization_v1.hpp,
      mpipcmessage.hpp, src/mpipcutility.hpp, src/mpipcprotocol.cpp).
    - MessageReader.v: src/mpipcmessagereader.cpp.
    - MessageWriter.v, MessageWriterProofs.v: src/mpipcmessagewriter.cpp.
    - Pool.v, PoolProofs.v: [ConnectionPoolStub] of src/mpipcservice.cpp.
    - Connection.v: what src/mpipcconnection.cpp offers to the service.
    - Service.v: src/mpipcservice.cpp, the operations on pools; ServiceProofs.v (sending and
      polling), ServiceLife.v (creating, closing, recycling), ServiceGiveBack.v (messages that a
      connection gives back to its pool), ServiceInvariant.v (the service as a state machine).
    - ConnectionStop.v, ConnectionStopProofs.v: how a connection stops and completes its
      messages (src/mpipcconnection.cpp).

    Names of definitions are those of the source; a C++ overload has a suffix with its width
    or its argument.

    ** How the code is modelled

    - A [w]-bit integer is a [Z] whose wrap-around is written out with [wrap] (or [signed]: the count
      that [run] of the two serialization machines returns is an [int]).
    - An operation that changes an object takes it and returns the changed one. What several
      objects share (a vector that carries three lists, the heap the deserializer fills, the
      service's pools) is passed explicitly, so aliased accesses see each other's changes.
    - Undefined behaviour (an access outside a buffer or vector, a null pointer) is a value:
      [None], or [Undef] in the type [res] below, next to [Done]. An exception that the
      code throws, or an error it returns, is a value of its own. That an operation returns
      [Done] therefore says that it terminates without undefined behaviour.
    - Loops that are not structural take fuel, and running out of fuel is a value too
      ([NoFuel], or [None]), so it cannot be mistaken for a result. The fuel is chosen by the
      function that starts the loop: the searches get the length of the range, the reader one
      unit per byte of its buffer plus one (every turn consumes at least a byte), the writer
      [fill_fuel] (every turn writes a byte, drops a message or brings the current one nearer
      to the front), the poll of a pool the length of its queue, the serializer and
      deserializer machines the weight of their stack of callbacks, the loops of a memory file
      one unit per byte, the destructors of queue and stack the number of nodes in memory, the loop
      over the chunks of a service the number of chunks. The
      loop of [TimeStore::pop] gets its fuel from the caller, since a callback can keep it going;
      [timers_fire] says how much is enough. Theorems on these loops have [Done] or [Some] as conclusion:
      the fuel is enough.
    - Interfaces of the program are type classes: [ProtocolValues], [ReaderEnv], [WriterEnv],
      [MessageState], [WriterConfiguration], [ServiceEnv], [ConnectionEnv], [InnerNode], [ReactorEnv],
      [ManagerEnv]. Their
      contracts (what a serializer promises the writer, for instance) are hypotheses of the
      theorems that need them; each such theorem has a witness with a concrete instance.
    - The operations of the service run under a mutex, those of a connection in the thread of
      its reactor. Each is one atomic step; interleavings are sequences of steps. The calls of
      other threads to a reactor (push, raise, stop) come between the four calls of its loop,
      the only points where its thread takes the mutex. An operation of the manager is a step, but
      for [unregisterObject], which is two, and for the waits of [stopService] and [stop]; what its
      unlocked reads rely on is in StoreLock.v, where a step is one atomic access. In the scheduler
      a step is a critical section or an unlocked access. In the shared store an operation under the
      mutex of an object, or of the store, is a step, and the event handler goes one object at a
      time. Who waits for a condition variable may
      look again at any time: lost wake-ups are not modelled. A weak exchange may fail for no reason.
    - Unique numbers and counters of the reactor, of the places of the manager and of the users of a
      shared object are unbounded;
      the invalid index of the reactor is [None].
    - Assertions are taken as disabled, memory allocation as successful.

    ** What the theorems show

    - Serialization: the bytes do not depend on how buffers are cut ([serializer_chunk_invariant],
      [deserializer_chunk_invariant], the latter for arbitrary bytes), and reading gives back what
      was written ([serialization_roundtrip]). Buffers are shorter than 2^31 bytes; what is read back
      is within the limits of the reading side, which are narrower ([string_limit_asymmetry]).
    - Packets and messages: headers round trip; the reader cuts a stream at its packets however
      it is chunked ([read_packets], [reader_chunk_invariant]), as long as no keep-alive is among
      them ([keepalive_overreads]), always terminates, and bounds the number of open messages; the writer keeps its three lists consistent, accepts and cancels
      as its limits say, stays in its buffer, and completes each message once
      ([write_correct], [enqueue_correct], [cancel_correct]), as long as no request is canceled
      between being queued and started ([cancel_queued_request_undefined]).
    - Service: a pool refines a queue of messages ([pool_refines_queue]); a send fails with the
      error of the first failing guard or appends the message ([doSendMessage_correct]); a poll
      moves the messages sent to the connection and the longest admissible prefix of the queue to the
      writer ([poll_correct]); closing a pool and stopping its last connection complete every
      message once ([close_correct], [stop_completes_all]; the name of the pool has to be gone:
      [resolve_failure_keeps_name]); every state reachable by sends, closes, accepts, polls and
      connections that stop and leave is well formed ([service_invariant]).
    - Reactor: in every reachable state the tables agree and nothing undefined happens
      ([reactor_safe]); events reach an object in order, none twice ([events_in_order]), and in
      the next round ([round_delivers]); a stop lets them arrive first ([stop_protocol]),
      unless it comes from the function of a timer ([timer_stop_loses_event]); due timers fire once
      ([timers_fire]). Objects destroy no timer, and make none after they asked to be stopped.
    - Manager: whatever services and objects do, and when the manager itself is stopped and started,
      every operation is defined and the tables agree ([manager_safe]); the table of objects is a map from identifiers to objects
      ([objects_refine]), and an identifier never reaches another object ([old_id_safe]); events for
      all objects of a service reach each of them once ([notify_all_once]); stopping tells each
      object and lets no new one in ([stop_service_tells], [stop_wait_exact],
      [manager_stop_tells]). A table that is being written is not read ([store_exclusive]), readers
      miss nothing ([reader_sees]) and writers get their turn when readers release what they acquire
      ([writer_progress]). This holds while
      no service is unregistered; after that it does not ([service_index_shared],
      [freed_chunk_undefined]).
    - Scheduler: threads are started, told and joined once ([scheduler_safe]), reactors are there
      while it runs and the least loaded one is chosen ([scheduler_ready]), and stopping waits for
      nothing but reactors that are told to stop and have objects or work left ([scheduler_stops]).
    - Shared store: a unique pointer excludes all other users and an object with a pointer is not
      recycled, if the controller gives up only pointers it holds; nothing undefined happens with
      indices below 512 ([shared_exclusive]); requests are served in order and none is forgotten,
      while shared pointers are requested for objects in use ([waiters_served]). A controller that
      gives up pointers of others takes their objects away ([forged_cleared]), and an index is given
      out once for each dropped pointer ([index_given_twice]). To lock all its mutexes locks each once
      ([visit_all_once]), but not all of them are there ([mutex_missing]). File store: temporary files
      stay within the capacity of their storage, with ids and names of their own, and paths and
      objects are paired while the store gives no index twice ([file_controller_safe]); a path is
      found in a storage of the longest prefix only ([found_storage_longest]), and looking for it may
      run out of the vector ([find_runs_off]); under the shared store a temporary file can be taken
      away from its user ([temp_taken_away]).
    - Containers: queue, stack and intrusive list refine lists, down to the memory they allocate
      ([queue_refines_list], [queue_front_stays], [stack_refines_list],
      [inner_list_refines_deque]); a memory file refines a list of bytes with a cursor
      ([memory_file_refines]).
    - Utilities: cross integers, bit counts and searches against their references.
    - Places where the code does something else than it means to are theorems as well, with a
      concrete input, next to the theorem that states under which condition the code is right.

    ** What is not modelled

    - Of the serializer: streams, containers, arrays, bitsets, polymorphic pointers and user
      callbacks. Of the connection: receiving and sending on the socket, the handshake states
      and the address parsing.
    - The listener and the configuration's defaults, the aio reactor, sockets and TLS: these wrap
      system calls. The parts the service needs of them are parameters.
    - Of the shared store: the recycled memory of the wait stubs, which is a list, and the class
      [Pointer], which is the list of the pointers held. Of the file store: [doDeliverTemp], which is
      never called, the devices behind the files and the streams over them.
    - Of the manager: the mutexes of chunks and services (an operation holds them from its first
      access on) and the functions that return them.
    - Of the reactor: exceptions of an allocation, and the error values a context carries.
    - Debug output, devices, socket addresses, type erasure (any, event, dynamic types) and
      everything under ._retired_, examples and tutorials.

    ** What would come next

    The send path of a connection with the poll as completion callback of the
    writer; the containers and pointers of the serializer. *)

From stdpp Require Export prelude.
From Stdlib Require Export ZArith Lia.

#[global] Open Scope Z_scope.

(** ** Machine integers

    A [w]-bit unsigned integer is a [Z] in [0 .. 2^w - 1]; the arithmetic of the
    source wraps, and the wrap is written out with [wrap]. *)

Definition wrap (w v : Z) : Z := v mod 2 ^ w.

Definition in_range (w v : Z) : Prop := 0 <= v < 2 ^ w.

(** The conversion to a signed integer. *)
Definition signed (w v : Z) : Z :=
  if wrap w v <? 2 ^ (w - 1) then wrap w v else wrap w v - 2 ^ w.

(** [size_t] is 64 bits wide. *)
Definition size_bits : Z := 64.

(** solid/utility/common.hpp: [InvalidIndex] and [InvalidSize] convert to the
    largest value of the integer type they are compared with. *)
Definition InvalidIndex (w : Z) : Z := 2 ^ w - 1.
Definition InvalidSize (w : Z) : Z := 2 ^ w - 1.

Definition is_invalid_index (w i : Z) : bool := i =? InvalidIndex w.
Definition is_valid_index (w i : Z) : bool := negb (i =? InvalidIndex w).

(** ** Arithmetic lemmas *)

Lemma pow2_pos (w : Z) : 0 <= w -> 0 < 2 ^ w.
Proof. intros; apply Z.pow_pos_nonneg; lia. Qed.

Lemma wrap_range (w v : Z) : 0 <= w -> in_range w (wrap w v).
Proof. intros; apply Z.mod_pos_bound, pow2_pos; lia. Qed.

Lemma wrap_small (w v : Z) : in_range w v -> wrap w v = v.
Proof. apply Z.mod_small. Qed.

Lemma signed_small (w v : Z) : 0 < w -> - 2 ^ (w - 1) <= v < 2 ^ (w - 1) -> signed w v = v.
Proof.
  intros Hw Hv. assert (2 ^ w = 2 * 2 ^ (w - 1)) as E.
  { rewrite <- Z.pow_succ_r by lia. f_equal. lia. }
  unfold signed, wrap. destruct (decide (0 <= v)).
  - rewrite Z.mod_small by lia. destruct (Z.ltb_spec v (2 ^ (w - 1))); lia.
  - assert (v mod 2 ^ w = v + 2 ^ w) as ->.
    { rewrite <- (Z.mod_add v 1) by lia. rewrite Z.mod_small; lia. }
    destruct (Z.ltb_spec (v + 2 ^ w) (2 ^ (w - 1))); lia.
Qed.

Lemma testbit_wrap (w v i : Z) :
  0 <= w -> 0 <= i -> Z.testbit (wrap w v) i = (i <? w) && Z.testbit v i.
Proof.
  intros. unfold wrap. rewrite <- Z.land_ones by lia.
  rewrite Z.land_spec, Z.testbit_ones_nonneg by lia. apply andb_comm.
Qed.

Lemma testbit_high (w v i : Z) : in_range w v -> w <= i -> Z.testbit v i = false.
Proof.
  intros [H0 H1] Hi. destruct (decide (w < 0)) as [Hw|Hw].
  { rewrite Z.pow_neg_r in H1 by lia. lia. }
  destruct (decide (v = 0)) as [->|]; [apply Z.testbit_0_l|].
  apply Z.bits_above_log2; [lia|].
  assert (Z.log2 v < w); [|lia]. apply Z.log2_lt_pow2; lia.
Qed.

Lemma in_range_of_bits (w v : Z) :
  0 <= w -> 0 <= v -> (forall i, w <= i -> Z.testbit v i = false) -> in_range w v.
Proof.
  intros Hw Hv Hb. split; [done|].
  destruct (decide (v = 0)) as [->|]; [by apply pow2_pos|].
  apply Z.log2_lt_pow2; [lia|].
  destruct (decide (Z.log2 v < w)) as [|Hn]; [done|].
  specialize (Hb (Z.log2 v)). rewrite Z.bit_log2 in Hb by lia. discriminate Hb. lia.
Qed.

Lemma lor_range (w a b : Z) : 0 <= w -> in_range w a -> in_range w b -> in_range w (Z.lor a b).
Proof.
  intros Hw Ha Hb. apply in_range_of_bits; [done| |].
  - apply Z.lor_nonneg; unfold in_range in *; lia.
  - intros i Hi. rewrite Z.lor_spec, (testbit_high w a), (testbit_high w b) by done. done.
Qed.

Lemma shiftr_range (w v k : Z) : 0 <= k -> in_range w v -> in_range w (Z.shiftr v k).
Proof.
  intros Hk [H0 H1]. rewrite Z.shiftr_div_pow2 by lia.
  assert (0 < 2 ^ k) by (by apply pow2_pos). split; [by apply Z.div_pos|].
  apply Z.le_lt_trans with v; [|done]. apply Z.div_le_upper_bound; nia.
Qed.

Lemma shiftr_range_sub (w v k : Z) :
  0 <= k <= w -> in_range w v -> in_range (w - k) (Z.shiftr v k).
Proof.
  intros Hk [H0 H1]. rewrite Z.shiftr_div_pow2 by lia.
  assert (0 < 2 ^ k) by (apply pow2_pos; lia). split; [by apply Z.div_pos|].
  apply Z.div_lt_upper_bound; [done|]. rewrite <- Z.pow_add_r by lia.
  by replace (k + (w - k)) with w by lia.
Qed.

Lemma in_range_mono (w w' v : Z) : 0 <= w <= w' -> in_range w v -> in_range w' v.
Proof.
  intros Hw [H0 H1]. split; [done|].
  apply Z.lt_le_trans with (2 ^ w); [done|]. apply Z.pow_le_mono_r; lia.
Qed.

(** ** Automation *)

Create Rewrite HintDb bits.
#[export] Hint Rewrite Z.lor_spec Z.land_spec Z.lxor_spec Z.testbit_0_l
  andb_false_r andb_true_r andb_false_l andb_true_l orb_false_r orb_false_l orb_true_r
  orb_true_l : bits.
#[export] Hint Rewrite Z.shiftr_spec Z.shiftl_spec testbit_wrap using lia : bits.

(** Bitwise equality: compare all bits, push [Z.testbit] through the operations. *)
Ltac bitwise i :=
  apply Z.bits_inj'; intros i ?; autorewrite with bits.

(** Destructs the boolean comparisons on [Z] of the goal, with their meaning. *)
Ltac case_Z :=
  repeat match goal with
  | |- context [?a =? ?b] => destruct (Z.eqb_spec a b)
  | |- context [?a <? ?b] => destruct (Z.ltb_spec a b)
  | |- context [?a <=? ?b] => destruct (Z.leb_spec a b)
  end.

(** Rewrites the comparisons of the goal that the context decides. *)
Ltac decide_Z :=
  repeat match goal with
  | |- context [?a =? ?b] =>
      first [ rewrite (proj2 (Z.eqb_eq a b)) by lia | rewrite (proj2 (Z.eqb_neq a b)) by lia ]
  | |- context [?a <=? ?b] =>
      first [ rewrite (proj2 (Z.leb_le a b)) by lia | rewrite (proj2 (Z.leb_gt a b)) by lia ]
  | |- context [?a <? ?b] =>
      first [ rewrite (proj2 (Z.ltb_lt a b)) by lia | rewrite (proj2 (Z.ltb_ge a b)) by lia ]
  end.

(** Shift distributes over a disjoint or: [lo | hi << k = lo + hi * 2^k]. *)
Lemma lor_shiftl_add (k lo hi : Z) :
  0 <= k -> in_range k lo -> Z.lor lo (Z.shiftl hi k) = lo + hi * 2 ^ k.
Proof.
  intros Hk Hlo. rewrite <- Z.shiftl_mul_pow2 by done.
  symmetry. rewrite Z.add_nocarry_lxor.
  - bitwise i. destruct (Z.ltb_spec i k).
    + rewrite (Z.testbit_neg_r hi) by lia. by destruct (Z.testbit lo i).
    + rewrite (testbit_high k lo) by (done || lia). by destruct (Z.testbit hi _).
  - bitwise i. destruct (Z.ltb_spec i k).
    + rewrite (Z.testbit_neg_r hi) by lia. apply andb_false_r.
    + by rewrite (testbit_high k lo) by (done || lia).
Qed.

Lemma land_ones_wrap (v k : Z) : 0 <= k -> Z.land v (Z.ones k) = wrap k v.
Proof. intros. by rewrite Z.land_ones. Qed.

(** ** Outcomes

    [Undef] is an access outside a buffer, a vector or a queue, or through a null pointer;
    [NoFuel] says that the fuel of a loop did not last, which is shown not to happen. *)
Inductive res (A : Type) : Type :=
  | Done (a : A)
  | Undef
  | NoFuel.
Arguments Done {A} a.
Arguments Undef {A}.
Arguments NoFuel {A}.

Definition res_bind {A B : Type} (m : res A) (f : A -> res B) : res B :=
  match m with Done a => f a | Undef => Undef | NoFuel => NoFuel end.

Definition of_option {A : Type} (m : option A) : res A :=
  match m with Some a => Done a | None => Undef end.

Declare Scope res_scope.
Delimit Scope res_scope with res.
Notation "'let!' x := m 'in' k" := (res_bind m (fun x => k))
  (at level 10, x pattern, m at level 100, k at level 200) : res_scope.

Lemma res_bind_done {A B : Type} (m : res A) (f : A -> res B) b :
  res_bind m f = Done b <-> exists a, m = Done a /\ f a = Done b.
Proof.
  destruct m; cbn; split; [eauto|by intros (a' & [= ->] & ?)|done|by intros (? & ? & _)|done|].
  by intros (? & ? & _).
Qed.

Lemma of_option_done {A : Type} (m : option A) a : of_option m = Done a <-> m = Some a.
Proof. destruct m; cbn; split; congruence. Qed.

Lemma res_bind_total {A B : Type} (m : res A) (f : A -> res B) :
  m <> NoFuel -> (forall a, m = Done a -> f a <> NoFuel) -> res_bind m f <> NoFuel.
Proof. destruct m; cbn; auto. Qed.

Lemma of_option_total {A : Type} (m : option A) : of_option m <> NoFuel.
Proof. by destruct m. Qed.

(** Proves that loop-free code does not run out of fuel. *)
Create HintDb total.
#[export] Hint Resolve of_option_total : total.

Ltac total :=
  repeat (first
    [ discriminate
    | solve [eauto with total]
    | apply res_bind_total; [|intros ? _]
    | case_match ]).

(** ** Vectors

    Indexing a vector outside its bounds is undefined. *)
Definition vec_get {A : Type} (v : list A) (i : Z) : res A :=
  if decide (0 <= i < Z.of_nat (length v)) then of_option (v !! Z.to_nat i) else Undef.

Definition vec_set {A : Type} (v : list A) (i : Z) (x : A) : res (list A) :=
  if decide (0 <= i < Z.of_nat (length v)) then Done (<[Z.to_nat i := x]> v) else Undef.

Lemma vec_get_done {A : Type} (v : list A) (i : Z) x :
  vec_get v i = Done x <-> 0 <= i /\ v !! Z.to_nat i = Some x.
Proof.
  unfold vec_get. case_decide as H; rewrite ?of_option_done; [tauto|].
  split; [discriminate|]. intros [? E%lookup_lt_Some]. lia.
Qed.

Lemma vec_get_in {A : Type} (v : list A) (i : Z) :
  0 <= i < Z.of_nat (length v) -> exists x, vec_get v i = Done x /\ v !! Z.to_nat i = Some x.
Proof.
  intros Hi. destruct (lookup_lt_is_Some_2 v (Z.to_nat i)) as [x Hx]; [lia|].
  exists x. split; [apply vec_get_done; split; [lia|done]|done].
Qed.

Lemma vec_set_done {A : Type} (v : list A) (i : Z) x :
  0 <= i < Z.of_nat (length v) -> vec_set v i x = Done (<[Z.to_nat i := x]> v).
Proof. intros. unfold vec_set. by rewrite decide_True by lia. Qed.
