(* ===== verification/Bits.v ===== *)
(** * Bit utilities

    solid/utility/common.hpp, solid/utility/src/utility.cpp and the integer part of
    solid/utility/algorithm.hpp: bit counting by table, leading zeros, padding, bit
    reversal, serial-number comparison, and the values that carry their own bit count
    (the "crc" of the wire format). One definition per C++ overload. *)

From S2P Require Import Prelude.

Module Bits.

(** ** Tables (utility.cpp) *)

Definition reverted_chars : list Z := [
  0x00; 0x80; 0x40; 0xc0; 0x20; 0xa0; 0x60; 0xe0; 0x10; 0x90; 0x50; 0xd0; 0x30; 0xb0; 0x70; 0xf0;
  0x08; 0x88; 0x48; 0xc8; 0x28; 0xa8; 0x68; 0xe8; 0x18; 0x98; 0x58; 0xd8; 0x38; 0xb8; 0x78; 0xf8;
  0x04; 0x84; 0x44; 0xc4; 0x24; 0xa4; 0x64; 0xe4; 0x14; 0x94; 0x54; 0xd4; 0x34; 0xb4; 0x74; 0xf4;
  0x0c; 0x8c; 0x4c; 0xcc; 0x2c; 0xac; 0x6c; 0xec; 0x1c; 0x9c; 0x5c; 0xdc; 0x3c; 0xbc; 0x7c; 0xfc;
  0x02; 0x82; 0x42; 0xc2; 0x22; 0xa2; 0x62; 0xe2; 0x12; 0x92; 0x52; 0xd2; 0x32; 0xb2; 0x72; 0xf2;
  0x0a; 0x8a; 0x4a; 0xca; 0x2a; 0xaa; 0x6a; 0xea; 0x1a; 0x9a; 0x5a; 0xda; 0x3a; 0xba; 0x7a; 0xfa;
  0x06; 0x86; 0x46; 0xc6; 0x26; 0xa6; 0x66; 0xe6; 0x16; 0x96; 0x56; 0xd6; 0x36; 0xb6; 0x76; 0xf6;
  0x0e; 0x8e; 0x4e; 0xce; 0x2e; 0xae; 0x6e; 0xee; 0x1e; 0x9e; 0x5e; 0xde; 0x3e; 0xbe; 0x7e; 0xfe;
  0x01; 0x81; 0x41; 0xc1; 0x21; 0xa1; 0x61; 0xe1; 0x11; 0x91; 0x51; 0xd1; 0x31; 0xb1; 0x71; 0xf1;
  0x09; 0x89; 0x49; 0xc9; 0x29; 0xa9; 0x69; 0xe9; 0x19; 0x99; 0x59; 0xd9; 0x39; 0xb9; 0x79; 0xf9;
  0x05; 0x85; 0x45; 0xc5; 0x25; 0xa5; 0x65; 0xe5; 0x15; 0x95; 0x55; 0xd5; 0x35; 0xb5; 0x75; 0xf5;
  0x0d; 0x8d; 0x4d; 0xcd; 0x2d; 0xad; 0x6d; 0xed; 0x1d; 0x9d; 0x5d; 0xdd; 0x3d; 0xbd; 0x7d; 0xfd;
  0x03; 0x83; 0x43; 0xc3; 0x23; 0xa3; 0x63; 0xe3; 0x13; 0x93; 0x53; 0xd3; 0x33; 0xb3; 0x73; 0xf3;
  0x0b; 0x8b; 0x4b; 0xcb; 0x2b; 0xab; 0x6b; 0xeb; 0x1b; 0x9b; 0x5b; 0xdb; 0x3b; 0xbb; 0x7b; 0xfb;
  0x07; 0x87; 0x47; 0xc7; 0x27; 0xa7; 0x67; 0xe7; 0x17; 0x97; 0x57; 0xd7; 0x37; 0xb7; 0x77; 0xf7;
  0x0f; 0x8f; 0x4f; 0xcf; 0x2f; 0xaf; 0x6f; 0xef; 0x1f; 0x9f; 0x5f; 0xdf; 0x3f; 0xbf; 0x7f; 0xff].

(** The table [cnts] of [bit_count(uint8_t)]. *)
Definition cnts : list Z := [
  0; 1; 1; 2; 1; 2; 2; 3; 1; 2; 2; 3; 2; 3; 3; 4;
  1; 2; 2; 3; 2; 3; 3; 4; 2; 3; 3; 4; 3; 4; 4; 5;
  1; 2; 2; 3; 2; 3; 3; 4; 2; 3; 3; 4; 3; 4; 4; 5;
  2; 3; 3; 4; 3; 4; 4; 5; 3; 4; 4; 5; 4; 5; 5; 6;
  1; 2; 2; 3; 2; 3; 3; 4; 2; 3; 3; 4; 3; 4; 4; 5;
  2; 3; 3; 4; 3; 4; 4; 5; 3; 4; 4; 5; 4; 5; 5; 6;
  2; 3; 3; 4; 3; 4; 4; 5; 3; 4; 4; 5; 4; 5; 5; 6;
  3; 4; 4; 5; 4; 5; 5; 6; 4; 5; 5; 6; 5; 6; 6; 7;
  1; 2; 2; 3; 2; 3; 3; 4; 2; 3; 3; 4; 3; 4; 4; 5;
  2; 3; 3; 4; 3; 4; 4; 5; 3; 4; 4; 5; 4; 5; 5; 6;
  2; 3; 3; 4; 3; 4; 4; 5; 3; 4; 4; 5; 4; 5; 5; 6;
  3; 4; 4; 5; 4; 5; 5; 6; 4; 5; 5; 6; 5; 6; 6; 7;
  2; 3; 3; 4; 3; 4; 4; 5; 3; 4; 4; 5; 4; 5; 5; 6;
  3; 4; 4; 5; 4; 5; 5; 6; 4; 5; 5; 6; 5; 6; 6; 7;
  3; 4; 4; 5; 4; 5; 5; 6; 4; 5; 5; 6; 5; 6; 6; 7;
  4; 5; 5; 6; 5; 6; 6; 7; 5; 6; 6; 7; 6; 7; 7; 8].

(** ** [bit_count] (utility.cpp) *)

Definition bit_count8 (v : Z) : Z := default 0 (cnts !! Z.to_nat v).

Definition bit_count16 (v : Z) : Z :=
  bit_count8 (wrap 8 (Z.land v 0xff)) + bit_count8 (wrap 8 (Z.shiftr v 8)).

Definition bit_count32 (v : Z) : Z :=
  bit_count8 (wrap 8 (Z.land v 0xff)) +
  bit_count8 (wrap 8 (Z.land (Z.shiftr v 8) 0xff)) +
  bit_count8 (wrap 8 (Z.land (Z.shiftr v 16) 0xff)) +
  bit_count8 (wrap 8 (Z.land (Z.shiftr v 24) 0xff)).

Definition bit_count64 (v : Z) : Z :=
  bit_count32 (wrap 32 (Z.land v 0xffffffff)) + bit_count32 (wrap 32 (Z.shiftr v 32)).

(** ** [leading_zero_count] (common.hpp) *)

(** [x = x | (x >> k)], the step every overload repeats. *)
Definition smear (x k : Z) : Z := Z.lor x (Z.shiftr x k).

Definition lnot (w x : Z) : Z := wrap w (Z.lnot x).

Definition leading_zero_count64 (x : Z) : Z :=
  let x := smear x 1 in
  let x := smear x 2 in
  let x := smear x 4 in
  let x := smear x 8 in
  let x := smear x 16 in
  let x := smear x 32 in
  bit_count64 (lnot 64 x).

Definition leading_zero_count32 (x : Z) : Z :=
  let x := smear x 1 in
  let x := smear x 2 in
  let x := smear x 4 in
  let x := smear x 8 in
  let x := smear x 16 in
  bit_count32 (lnot 32 x).

Definition leading_zero_count16 (x : Z) : Z :=
  let x := smear x 1 in
  let x := smear x 2 in
  let x := smear x 4 in
  let x := smear x 8 in
  bit_count16 (lnot 16 x).

Definition leading_zero_count8 (x : Z) : Z :=
  let x := smear x 1 in
  let x := smear x 2 in
  let x := smear x 4 in
  bit_count8 (lnot 8 x).

(** ** Padding (common.hpp) *)

Definition padded_size (sz pad : Z) : Z :=
  let pad := (wrap 64 (pad - sz mod pad)) mod pad in
  wrap 64 (sz + pad).

Definition fast_padded_size (sz bitpad : Z) : Z :=
  let padv := Z.shiftl 1 bitpad in
  let padmsk := wrap 64 (padv - 1) in
  let pad := Z.land (wrap 64 (padv - Z.land sz padmsk)) padmsk in
  wrap 64 (sz + pad).

(** ** Serial-number comparison (common.hpp) *)

Definition overflow_safe_less32 (u1 u2 : Z) : bool :=
  if u1 <? u2 then wrap 32 (u2 - u1) <=? wrap 32 (0xffffffff / 2)
  else wrap 32 (0xffffffff / 2) <? wrap 32 (u1 - u2).

Definition overflow_safe_less64 (u1 u2 : Z) : bool :=
  if u1 <? u2 then wrap 64 (u2 - u1) <=? wrap 64 (-1) / 2
  else wrap 64 (-1) / 2 <? wrap 64 (u1 - u2).

Definition overflow_safe_max32 (u1 u2 : Z) : Z :=
  if overflow_safe_less32 u1 u2 then u2 else u1.

Definition overflow_safe_max64 (u1 u2 : Z) : Z :=
  if overflow_safe_less64 u1 u2 then u2 else u1.

(** The template [circular_distance<T>] at a [w]-bit unsigned [T]. *)
Definition circular_distance (w v piv max : Z) : Z :=
  if piv <=? v then wrap w (v - piv) else wrap w (max - piv + v).

(** ** Packing and bit reversal (common.hpp) *)

Definition pack (v1 v2 : Z) : Z :=
  let v := v2 in
  let v := wrap 32 (Z.shiftl v 16) in
  Z.lor v v1.

Definition unpack (v : Z) : Z * Z :=
  (wrap 16 (Z.land v 0xffff), wrap 16 (Z.land (Z.shiftr v 16) 0xffff)).

Definition revert8 (v : Z) : Z := default 0 (reverted_chars !! Z.to_nat v).

Definition bit_revert32 (v : Z) : Z :=
  let r := wrap 32 (Z.shiftl (revert8 (Z.land v 0xff)) 24) in
  let r := Z.lor r (wrap 32 (Z.shiftl (revert8 (Z.land (Z.shiftr v 8) 0xff)) 16)) in
  let r := Z.lor r (wrap 32 (Z.shiftl (revert8 (Z.land (Z.shiftr v 16) 0xff)) 8)) in
  Z.lor r (wrap 32 (Z.shiftl (revert8 (Z.land (Z.shiftr v 24) 0xff)) 0)).

Definition bit_revert64 (v : Z) : Z :=
  let r := wrap 64 (Z.shiftl (revert8 (Z.land v 0xff)) 56) in
  let r := Z.lor r (wrap 64 (Z.shiftl (revert8 (Z.land (Z.shiftr v 8) 0xff)) 48)) in
  let r := Z.lor r (wrap 64 (Z.shiftl (revert8 (Z.land (Z.shiftr v 16) 0xff)) 40)) in
  let r := Z.lor r (wrap 64 (Z.shiftl (revert8 (Z.land (Z.shiftr v 24) 0xff)) 32)) in
  let r := Z.lor r (wrap 64 (Z.shiftl (revert8 (Z.land (Z.shiftr v 32) 0xff)) 24)) in
  let r := Z.lor r (wrap 64 (Z.shiftl (revert8 (Z.land (Z.shiftr v 40) 0xff)) 16)) in
  let r := Z.lor r (wrap 64 (Z.shiftl (revert8 (Z.land (Z.shiftr v 48) 0xff)) 8)) in
  Z.lor r (wrap 64 (Z.shiftl (revert8 (Z.land (Z.shiftr v 56) 0xff)) 0)).

(** ** Values with their bit count (algorithm.hpp)

    [compute_value_with_crc] returns the value left in [_to] when it answers [true];
    [check_value_with_crc] always writes [_to] and answers whether the count fits. *)

Definition compute_value_with_crc64 (from : Z) : option Z :=
  if from <? Z.shiftl 1 58
  then Some (Z.lor (bit_count64 from) (wrap 64 (Z.shiftl from 6))) else None.

Definition check_value_with_crc64 (v : Z) : Z * bool :=
  let to := Z.shiftr v 6 in
  (to, bit_count64 to =? Z.land v (Z.shiftl 1 6 - 1)).

Definition max_value_without_crc_64 : Z := wrap 64 (Z.shiftl 1 58 - 1).

Definition compute_value_with_crc32 (from : Z) : option Z :=
  if from <? Z.shiftl 1 27
  then Some (wrap 32 (Z.lor (bit_count32 from) (wrap 32 (Z.shiftl from 5)))) else None.

Definition check_value_with_crc32 (v : Z) : Z * bool :=
  let to := Z.shiftr v 5 in
  (to, bit_count32 to =? Z.land v (Z.shiftl 1 5 - 1)).

Definition max_value_without_crc_32 : Z := wrap 32 (Z.shiftl 1 27 - 1).

Definition compute_value_with_crc16 (from : Z) : option Z :=
  if from <? Z.shiftl 1 12
  then Some (wrap 16 (Z.lor (bit_count16 from) (Z.shiftl from 4))) else None.

Definition check_value_with_crc16 (v : Z) : Z * bool :=
  let to := Z.shiftr v 4 in
  (to, bit_count16 to =? Z.land v (Z.shiftl 1 4 - 1)).

Definition max_value_without_crc_16 : Z := wrap 16 (Z.shiftl 1 12 - 1).

Definition compute_value_with_crc8 (from : Z) : option Z :=
  if from <? Z.shiftl 1 5
  then Some (wrap 8 (Z.lor (bit_count8 from) (Z.shiftl from 3))) else None.

Definition check_value_with_crc8 (v : Z) : Z * bool :=
  let to := Z.shiftr v 3 in
  (to, bit_count8 to =? Z.land v (Z.shiftl 1 3 - 1)).

Definition max_value_without_crc_8 : Z := wrap 8 (Z.shiftl 1 5 - 1).

(** ** Significant bits and bytes (algorithm.hpp) *)

Definition max_bit_count8 (v : Z) : Z := wrap 64 (8 - leading_zero_count8 v).
Definition max_padded_bit_cout8 (v : Z) : Z := fast_padded_size (max_bit_count8 v) 3.
Definition max_padded_byte_cout8 (v : Z) : Z := Z.shiftr (max_padded_bit_cout8 v) 3.

Definition max_bit_count16 (v : Z) : Z := wrap 64 (16 - leading_zero_count16 v).
Definition max_padded_bit_cout16 (v : Z) : Z := fast_padded_size (max_bit_count16 v) 3.
Definition max_padded_byte_cout16 (v : Z) : Z := Z.shiftr (max_padded_bit_cout16 v) 3.

Definition max_bit_count32 (v : Z) : Z := wrap 64 (32 - leading_zero_count32 v).
Definition max_padded_bit_cout32 (v : Z) : Z := fast_padded_size (max_bit_count32 v) 3.
Definition max_padded_byte_cout32 (v : Z) : Z := Z.shiftr (max_padded_bit_cout32 v) 3.

Definition max_bit_count64 (v : Z) : Z := wrap 64 (64 - leading_zero_count64 v).
Definition max_padded_bit_cout64 (v : Z) : Z := fast_padded_size (max_bit_count64 v) 3.
Definition max_padded_byte_cout64 (v : Z) : Z := Z.shiftr (max_padded_bit_cout64 v) 3.

(** ** Specifications *)

(** The number of ones among the [n] low bits. *)
Fixpoint popcount (n : nat) (v : Z) : Z :=
  match n with
  | O => 0
  | S n' => Z.b2z (Z.testbit v 0) + popcount n' (Z.shiftr v 1)
  end.

(** The number of significant bits. *)
Definition sig_bits (v : Z) : Z := if v =? 0 then 0 else Z.log2 v + 1.

(** The number of significant bytes. *)
Definition sig_bytes (v : Z) : Z := (sig_bits v + 7) / 8.

(** ** Exhaustive reasoning on bytes *)

Lemma byte_forall (P : Z -> bool) :
  forallb (fun n => P (Z.of_nat n)) (seq 0 256) = true ->
  forall v, in_range 8 v -> P v = true.
Proof.
  intros H v [H0 H1]. rewrite forallb_forall in H.
  rewrite <- (Z2Nat.id v) by done. apply H, in_seq. lia.
Qed.

(** ** [popcount] *)

Lemma popcount_ext (n : nat) (v v' : Z) :
  (forall i, 0 <= i < Z.of_nat n -> Z.testbit v i = Z.testbit v' i) ->
  popcount n v = popcount n v'.
Proof.
  revert v v'; induction n as [|n IH]; intros v v' H; cbn [popcount]; [done|].
  f_equal; [f_equal; apply H; lia|]. apply IH; intros i Hi.
  rewrite !Z.shiftr_spec by lia. apply H; lia.
Qed.

Lemma popcount_app (a b : nat) (v : Z) :
  popcount (a + b) v = popcount a v + popcount b (Z.shiftr v (Z.of_nat a)).
Proof.
  revert v; induction a as [|a IH]; intros v; [by rewrite Z.shiftr_0_r|].
  cbn [popcount Nat.add]. rewrite IH, Z.shiftr_shiftr by lia.
  replace (1 + Z.of_nat a) with (Z.of_nat (S a)) by lia. lia.
Qed.

Lemma popcount_bound (n : nat) (v : Z) : 0 <= popcount n v <= Z.of_nat n.
Proof.
  revert v; induction n as [|n IH]; intros v; cbn [popcount]; [lia|].
  specialize (IH (Z.shiftr v 1)). destruct (Z.testbit v 0); cbn [Z.b2z]; lia.
Qed.

Lemma popcount_const (n : nat) (v : Z) (b : bool) :
  (forall i, 0 <= i < Z.of_nat n -> Z.testbit v i = b) ->
  popcount n v = Z.of_nat n * Z.b2z b.
Proof.
  revert v; induction n as [|n IH]; intros v H; cbn [popcount]; [lia|].
  rewrite (H 0) by lia. rewrite (IH (Z.shiftr v 1)); [destruct b; cbn [Z.b2z]; lia|].
  intros i Hi. rewrite Z.shiftr_spec by lia. apply H; lia.
Qed.

(** Flipping one bit changes the count by exactly one. *)
Lemma popcount_flip (n : nat) (v k : Z) :
  0 <= k < Z.of_nat n ->
  popcount n (Z.lxor v (2 ^ k)) = popcount n v + (1 - 2 * Z.b2z (Z.testbit v k)).
Proof.
  revert v k; induction n as [|n IH]; intros v k Hk; [lia|]. cbn [popcount].
  rewrite Z.lxor_spec, Z.shiftr_lxor. destruct (decide (k = 0)) as [->|].
  - rewrite (popcount_ext n _ (Z.shiftr v 1)).
    + change (Z.testbit (2 ^ 0) 0) with true.
      destruct (Z.testbit v 0); cbn [xorb Z.b2z]; lia.
    + intros i Hi. rewrite Z.lxor_spec, (Z.shiftr_spec (2 ^ 0)) by lia.
      rewrite Z.pow2_bits_false by lia. apply xorb_false_r.
  - rewrite Z.pow2_bits_false by lia. rewrite xorb_false_r.
    rewrite Z.shiftr_div_pow2 with (a := 2 ^ k) by lia.
    rewrite <- Z.pow_sub_r by lia. rewrite (IH (Z.shiftr v 1) (k - 1)) by lia.
    rewrite Z.shiftr_spec by lia. replace (k - 1 + 1) with k by lia. lia.
Qed.

(** ** [bit_count] is [popcount] *)

Lemma bit_count8_spec (v : Z) : in_range 8 v -> bit_count8 v = popcount 8 v.
Proof.
  intros H. apply Z.eqb_eq.
  apply (byte_forall (fun v => bit_count8 v =? popcount 8 v)); [by vm_compute|done].
Qed.

Lemma bit_count8_low (v : Z) : bit_count8 (wrap 8 v) = popcount 8 v.
Proof.
  rewrite bit_count8_spec by (by apply wrap_range). apply popcount_ext.
  intros i Hi. rewrite testbit_wrap by lia. by case_Z; [|lia].
Qed.

Lemma bit_count8_land (v : Z) : bit_count8 (wrap 8 (Z.land v 0xff)) = popcount 8 v.
Proof.
  change 0xff with (Z.ones 8). rewrite land_ones_wrap by lia. rewrite wrap_small by (by apply wrap_range).
  apply bit_count8_low.
Qed.

Lemma bit_count16_spec (v : Z) : bit_count16 v = popcount 16 v.
Proof.
  unfold bit_count16. rewrite bit_count8_land, bit_count8_low.
  by rewrite (popcount_app 8 8).
Qed.

Lemma bit_count32_spec (v : Z) : bit_count32 v = popcount 32 v.
Proof.
  unfold bit_count32. rewrite !bit_count8_land.
  by rewrite (popcount_app 24 8), (popcount_app 16 8), (popcount_app 8 8).
Qed.

Lemma bit_count64_spec (v : Z) : bit_count64 v = popcount 64 v.
Proof.
  unfold bit_count64. rewrite !bit_count32_spec, (popcount_app 32 32).
  change 0xffffffff with (Z.ones 32). rewrite land_ones_wrap by lia.
  f_equal; apply popcount_ext; intros i Hi; autorewrite with bits; case_Z; done || lia.
Qed.

#[export] Hint Rewrite bit_count16_spec bit_count32_spec bit_count64_spec : bits.

(** ** [leading_zero_count] *)

(** After shifts [1, 2, .., 2^(m-1)] the [2^m] bits from the highest one of [x] down
    are set, and no higher bit is. *)
Definition smeared (n m x : Z) : Prop :=
  0 <= x /\ (forall i, n < i -> Z.testbit x i = false) /\
  (forall i, 0 <= i -> n - m < i <= n -> Z.testbit x i = true).

Lemma smeared_init (x : Z) : 0 < x -> smeared (Z.log2 x) 1 x.
Proof.
  intros Hx. split; [lia|]. split; intros i Hi.
  - apply Z.bits_above_log2; lia.
  - intros ?. replace i with (Z.log2 x) by lia. by apply Z.bit_log2.
Qed.

Lemma smeared_step (n m x : Z) : 0 <= m -> smeared n m x -> smeared n (m + m) (smear x m).
Proof.
  intros Hm (H0 & Hhi & Hlo). unfold smear. split; [|split].
  - apply Z.lor_nonneg. split; [done|]. by apply Z.shiftr_nonneg.
  - intros i Hi. destruct (decide (i < 0)); [by apply Z.testbit_neg_r; lia|].
    rewrite Z.lor_spec, Z.shiftr_spec, !Hhi by lia. done.
  - intros i Hi Hni. rewrite Z.lor_spec, Z.shiftr_spec by lia.
    destruct (decide (n - m < i)) as [|]; [by rewrite Hlo by lia|].
    rewrite (Hlo (i + m)) by lia. apply orb_true_r.
Qed.

Lemma popcount_lnot_smeared (w : nat) (n m x : Z) :
  0 <= n < Z.of_nat w -> n < m -> smeared n m x ->
  popcount w (lnot (Z.of_nat w) x) = Z.of_nat w - (n + 1).
Proof.
  intros Hn Hm (H0 & Hhi & Hlo).
  replace w with (Z.to_nat (n + 1) + (w - Z.to_nat (n + 1)))%nat at 1 by lia.
  rewrite popcount_app, (popcount_const _ _ false), (popcount_const _ _ true).
  - cbn [Z.b2z]. lia.
  - intros i Hi. rewrite Z.shiftr_spec by lia. unfold lnot.
    rewrite testbit_wrap, Z.lnot_spec, Hhi by lia. case_Z; [done|lia].
  - intros i Hi. unfold lnot. rewrite testbit_wrap, Z.lnot_spec, Hlo by lia.
    apply andb_false_r.
Qed.

Lemma log2_range (w v : Z) : 0 < v -> in_range w v -> 0 <= Z.log2 v < w.
Proof. intros Hv [_ H]. split; [apply Z.log2_nonneg|]. by apply Z.log2_lt_pow2. Qed.

Ltac lzc_solve x :=
  unfold sig_bits; case_Z; [subst; by vm_compute|];
  assert (0 < x) as Hpos by (unfold in_range in *; lia);
  pose proof (log2_range _ x Hpos ltac:(eassumption));
  pose proof (smeared_init x Hpos).

Ltac smear_steps :=
  repeat match goal with
  | |- smeared _ _ (smear _ ?k) => apply (smeared_step _ k); [lia|]
  end.

Lemma leading_zero_count8_spec (x : Z) :
  in_range 8 x -> leading_zero_count8 x = 8 - sig_bits x.
Proof.
  intros Hx. unfold leading_zero_count8. lzc_solve x.
  rewrite bit_count8_spec by (by apply wrap_range).
  apply (popcount_lnot_smeared 8 _ 8); [lia..|]. by smear_steps.
Qed.

Lemma leading_zero_count16_spec (x : Z) :
  in_range 16 x -> leading_zero_count16 x = 16 - sig_bits x.
Proof.
  intros Hx. unfold leading_zero_count16. lzc_solve x. rewrite bit_count16_spec.
  apply (popcount_lnot_smeared 16 _ 16); [lia..|]. by smear_steps.
Qed.

Lemma leading_zero_count32_spec (x : Z) :
  in_range 32 x -> leading_zero_count32 x = 32 - sig_bits x.
Proof.
  intros Hx. unfold leading_zero_count32. lzc_solve x. rewrite bit_count32_spec.
  apply (popcount_lnot_smeared 32 _ 32); [lia..|]. by smear_steps.
Qed.

Lemma leading_zero_count64_spec (x : Z) :
  in_range 64 x -> leading_zero_count64 x = 64 - sig_bits x.
Proof.
  intros Hx. unfold leading_zero_count64. lzc_solve x. rewrite bit_count64_spec.
  apply (popcount_lnot_smeared 64 _ 64); [lia..|]. by smear_steps.
Qed.

(** ** Padding *)

(** The least multiple of [p] that is at least [sz]. *)
Definition round_up (sz p : Z) : Z := (sz + (p - 1)) / p * p.

Lemma round_up_pad (sz p : Z) : 0 < p -> sz + (p - sz mod p) mod p = round_up sz p.
Proof.
  intros Hp. unfold round_up.
  pose proof (Z.mod_pos_bound sz p Hp) as Hm.
  pose proof (Z.div_mod sz p ltac:(lia)) as Hd.
  destruct (decide (sz mod p = 0)) as [E|E].
  - rewrite E, Z.sub_0_r, Z_mod_same_full.
    replace (sz + (p - 1)) with ((p - 1) + sz / p * p) by nia.
    rewrite Z.div_add, Z.div_small by lia. nia.
  - rewrite (Z.mod_small (p - sz mod p)) by lia.
    replace (sz + (p - 1)) with ((sz mod p - 1) + (sz / p + 1) * p) by nia.
    rewrite Z.div_add, Z.div_small by lia. nia.
Qed.

Lemma padded_size_spec (sz p : Z) :
  0 <= sz -> 0 < p -> sz + p < 2 ^ 64 -> padded_size sz p = round_up sz p.
Proof.
  intros Hs Hp Hb. unfold padded_size.
  pose proof (Z.mod_pos_bound sz p Hp).
  rewrite (wrap_small 64 (p - sz mod p)) by (unfold in_range; lia).
  pose proof (Z.mod_pos_bound (p - sz mod p) p Hp).
  rewrite (wrap_small 64 (sz + _)) by (unfold in_range; lia). by apply round_up_pad.
Qed.

Lemma fast_padded_size_spec (sz b : Z) :
  0 <= sz -> 0 <= b < 31 -> sz + 2 ^ b < 2 ^ 64 ->
  fast_padded_size sz b = round_up sz (2 ^ b).
Proof.
  intros Hs Hb Hw. unfold fast_padded_size.
  assert (0 < 2 ^ b) by (apply pow2_pos; lia).
  rewrite Z.shiftl_mul_pow2, Z.mul_1_l by lia.
  rewrite (wrap_small 64 (2 ^ b - 1)) by (unfold in_range; lia).
  replace (2 ^ b - 1) with (Z.ones b) by (rewrite Z.ones_equiv; lia).
  rewrite !Z.land_ones by lia.
  pose proof (Z.mod_pos_bound sz (2 ^ b) ltac:(done)).
  rewrite (wrap_small 64 (2 ^ b - _)) by (unfold in_range; lia).
  pose proof (Z.mod_pos_bound (2 ^ b - sz mod 2 ^ b) (2 ^ b) ltac:(done)).
  rewrite wrap_small by (unfold in_range; lia). by apply round_up_pad.
Qed.

(** ** Significant bytes *)

Lemma sig_bits_range (w v : Z) : 0 <= w -> in_range w v -> 0 <= sig_bits v <= w.
Proof.
  intros Hw H. unfold sig_bits. case_Z; [lia|].
  pose proof (log2_range w v ltac:(unfold in_range in *; lia) H). lia.
Qed.

Lemma sig_bits_bound (v : Z) : 0 <= v -> v < 2 ^ sig_bits v.
Proof.
  intros H. unfold sig_bits. case_Z; [subst; done|].
  apply Z.log2_spec. lia.
Qed.

Lemma sig_bits_least (v n : Z) : 0 <= n -> in_range n v -> sig_bits v <= n.
Proof. intros Hn H. by apply (sig_bits_range n v). Qed.

Lemma sig_bytes_bound (v : Z) : 0 <= v -> v < 2 ^ (8 * sig_bytes v).
Proof.
  intros H. apply Z.lt_le_trans with (2 ^ sig_bits v); [by apply sig_bits_bound|].
  apply Z.pow_le_mono_r; [lia|]. unfold sig_bytes.
  pose proof (Z.div_mod (sig_bits v + 7) 8). pose proof (Z.mod_pos_bound (sig_bits v + 7) 8).
  lia.
Qed.

Lemma sig_bytes_least (v n : Z) : 0 <= n -> in_range (8 * n) v -> sig_bytes v <= n.
Proof.
  intros Hn H. unfold sig_bytes. pose proof (sig_bits_least v (8 * n) ltac:(lia) H).
  apply Z.lt_succ_r. apply Z.div_lt_upper_bound; lia.
Qed.

Lemma sig_bytes_nonneg (v : Z) : 0 <= sig_bytes v.
Proof.
  unfold sig_bytes. apply Z.div_pos; [|lia]. unfold sig_bits.
  case_Z; [lia|]. pose proof (Z.log2_nonneg v). lia.
Qed.

(** The code pads the bit count to a multiple of 8 and shifts. *)
Lemma padded_bytes (n v : Z) :
  0 <= n <= 64 -> in_range n v ->
  Z.shiftr (fast_padded_size (wrap 64 (n - (n - sig_bits v))) 3) 3 = sig_bytes v.
Proof.
  intros Hn H. pose proof (sig_bits_range n v ltac:(lia) H).
  replace (n - (n - sig_bits v)) with (sig_bits v) by lia.
  rewrite wrap_small by (unfold in_range; lia).
  rewrite fast_padded_size_spec by lia.
  rewrite Z.shiftr_div_pow2 by lia. unfold round_up. by rewrite Z.div_mul by done.
Qed.

Lemma max_padded_byte_cout8_spec (v : Z) : in_range 8 v -> max_padded_byte_cout8 v = sig_bytes v.
Proof.
  intros H. unfold max_padded_byte_cout8, max_padded_bit_cout8, max_bit_count8.
  rewrite leading_zero_count8_spec by done. by apply padded_bytes.
Qed.

Lemma max_padded_byte_cout16_spec (v : Z) :
  in_range 16 v -> max_padded_byte_cout16 v = sig_bytes v.
Proof.
  intros H. unfold max_padded_byte_cout16, max_padded_bit_cout16, max_bit_count16.
  rewrite leading_zero_count16_spec by done. by apply padded_bytes.
Qed.

Lemma max_padded_byte_cout32_spec (v : Z) :
  in_range 32 v -> max_padded_byte_cout32 v = sig_bytes v.
Proof.
  intros H. unfold max_padded_byte_cout32, max_padded_bit_cout32, max_bit_count32.
  rewrite leading_zero_count32_spec by done. by apply padded_bytes.
Qed.

Lemma max_padded_byte_cout64_spec (v : Z) :
  in_range 64 v -> max_padded_byte_cout64 v = sig_bytes v.
Proof.
  intros H. unfold max_padded_byte_cout64, max_padded_bit_cout64, max_bit_count64.
  rewrite leading_zero_count64_spec by done. by apply padded_bytes.
Qed.

(** ** Values with their bit count: the interface

    What the wire format relies on, for a [w]-bit word whose [k] low bits hold the
    bit count. The four overloads are its instances; the theorems are proved against
    the interface once. *)

Class CrcCodec (w k : Z) := {
  crc_compute : Z -> option Z;
  crc_check : Z -> Z * bool;
  crc_width : 0 < k < w;
  crc_fits : w - k < 2 ^ k;
  crc_compute_spec v :
    0 <= v ->
    crc_compute v =
      if v <? 2 ^ (w - k) then Some (popcount (Z.to_nat w) v + v * 2 ^ k) else None;
  crc_check_spec v :
    in_range w v ->
    crc_check v = (v / 2 ^ k, popcount (Z.to_nat w) (v / 2 ^ k) =? v mod 2 ^ k)
}.

(** The count of a value of [n] bits does not depend on how many higher bits are looked at. *)
Lemma popcount_narrow (n m : nat) (v : Z) :
  (n <= m)%nat -> in_range (Z.of_nat n) v -> popcount m v = popcount n v.
Proof.
  intros Hnm Hv. replace m with (n + (m - n))%nat by lia.
  rewrite popcount_app, (popcount_const (m - n) _ false); [cbn; lia|].
  intros i Hi. rewrite Z.shiftr_spec by lia. apply (testbit_high (Z.of_nat n)); [done|lia].
Qed.

(** What every [compute_value_with_crc] computes, from its bit operations. *)
Lemma crc_word (w k v : Z) :
  0 < k < w -> w - k < 2 ^ k -> in_range (w - k) v ->
  in_range w (popcount (Z.to_nat w) v + v * 2 ^ k) /\
  Z.lor (popcount (Z.to_nat w) v) (Z.shiftl v k) = popcount (Z.to_nat w) v + v * 2 ^ k.
Proof.
  intros Hk Hf Hv.
  rewrite (popcount_narrow (Z.to_nat (w - k)) _ v) by (try rewrite Z2Nat.id; lia || done).
  pose proof (popcount_bound (Z.to_nat (w - k)) v) as Hb. rewrite Z2Nat.id in Hb by lia.
  split.
  - destruct Hv as [Hv0 Hv1]. assert (0 < 2 ^ k) by (apply pow2_pos; lia).
    split; [nia|]. replace (2 ^ w) with (2 ^ (w - k) * 2 ^ k); [nia|].
    rewrite <- Z.pow_add_r by lia. f_equal; lia.
  - apply lor_shiftl_add; [lia|]. unfold in_range; lia.
Qed.

Lemma crc_mask (k v : Z) : 0 <= k -> Z.land v (Z.shiftl 1 k - 1) = v mod 2 ^ k.
Proof.
  intros. rewrite Z.shiftl_mul_pow2, Z.mul_1_l by lia.
  rewrite Z.sub_1_r, <- Z.ones_equiv. by apply Z.land_ones.
Qed.

#[export] Instance crc8 : CrcCodec 8 3.
Proof.
  refine {| crc_compute := compute_value_with_crc8; crc_check := check_value_with_crc8 |};
    [done|done| |].
  - intros v Hv. unfold compute_value_with_crc8. change (Z.shiftl 1 5) with (2 ^ (8 - 3)).
    case_Z; [|done]. destruct (crc_word 8 3 v) as [? E]; [done|done|unfold in_range; lia|].
    rewrite bit_count8_spec by (unfold in_range; lia).
    change (Z.to_nat 8) with 8%nat in *. by rewrite E, wrap_small.
  - intros v Hv. unfold check_value_with_crc8. rewrite crc_mask, Z.shiftr_div_pow2 by lia.
    rewrite bit_count8_spec; [done|]. rewrite <- Z.shiftr_div_pow2 by lia.
    by apply shiftr_range.
Defined.

#[export] Instance crc16 : CrcCodec 16 4.
Proof.
  refine {| crc_compute := compute_value_with_crc16; crc_check := check_value_with_crc16 |};
    [done|done| |].
  - intros v Hv. unfold compute_value_with_crc16. change (Z.shiftl 1 12) with (2 ^ (16 - 4)).
    case_Z; [|done]. destruct (crc_word 16 4 v) as [? E]; [done|done|unfold in_range; lia|].
    rewrite bit_count16_spec. change (Z.to_nat 16) with 16%nat in *. by rewrite E, wrap_small.
  - intros v Hv. unfold check_value_with_crc16.
    by rewrite crc_mask, Z.shiftr_div_pow2, bit_count16_spec by lia.
Defined.

#[export] Instance crc32 : CrcCodec 32 5.
Proof.
  refine {| crc_compute := compute_value_with_crc32; crc_check := check_value_with_crc32 |};
    [done|done| |].
  - intros v Hv. unfold compute_value_with_crc32. change (Z.shiftl 1 27) with (2 ^ (32 - 5)).
    case_Z; [|done]. destruct (crc_word 32 5 v) as [? E]; [done|done|unfold in_range; lia|].
    rewrite bit_count32_spec. change (Z.to_nat 32) with 32%nat in *.
    rewrite (wrap_small 32 (Z.shiftl v 5)); [by rewrite E, wrap_small|].
    rewrite Z.shiftl_mul_pow2 by lia. unfold in_range; lia.
  - intros v Hv. unfold check_value_with_crc32.
    by rewrite crc_mask, Z.shiftr_div_pow2, bit_count32_spec by lia.
Defined.

#[export] Instance crc64 : CrcCodec 64 6.
Proof.
  refine {| crc_compute := compute_value_with_crc64; crc_check := check_value_with_crc64 |};
    [done|done| |].
  - intros v Hv. unfold compute_value_with_crc64. change (Z.shiftl 1 58) with (2 ^ (64 - 6)).
    case_Z; [|done]. destruct (crc_word 64 6 v) as [? E]; [done|done|unfold in_range; lia|].
    rewrite bit_count64_spec. change (Z.to_nat 64) with 64%nat in *.
    rewrite (wrap_small 64 (Z.shiftl v 6)); [by rewrite E|].
    rewrite Z.shiftl_mul_pow2 by lia. unfold in_range; lia.
  - intros v Hv. unfold check_value_with_crc64.
    by rewrite crc_mask, Z.shiftr_div_pow2, bit_count64_spec by lia.
Defined.

Section CrcTheory.
Context {w k : Z} `{C : CrcCodec w k}.

Lemma crc_compute_inv (v c : Z) :
  0 <= v -> crc_compute v = Some c ->
  in_range (w - k) v /\ in_range w c /\
  Z.shiftr c k = v /\ c mod 2 ^ k = popcount (Z.to_nat w) v.
Proof.
  intros Hv. rewrite crc_compute_spec by done. case_Z; [|done]. intros [= <-].
  assert (in_range (w - k) v) as Hr by (unfold in_range; lia).
  pose proof crc_width as Hk. pose proof crc_fits as Hf.
  split; [done|]. split; [by apply crc_word|].
  assert (0 <= popcount (Z.to_nat w) v < 2 ^ k).
  { rewrite (popcount_narrow (Z.to_nat (w - k))) by (try rewrite Z2Nat.id; lia || done).
    pose proof (popcount_bound (Z.to_nat (w - k)) v). lia. }
  rewrite Z.shiftr_div_pow2, Z.div_add, Z_mod_plus_full by lia.
  by rewrite Z.div_small, Z.mod_small by lia.
Qed.

Lemma crc_roundtrip (v : Z) :
  in_range (w - k) v ->
  exists c, crc_compute v = Some c /\ in_range w c /\ crc_check c = (v, true).
Proof.
  intros [H0 H1]. pose proof crc_width.
  exists (popcount (Z.to_nat w) v + v * 2 ^ k).
  assert (crc_compute v = Some (popcount (Z.to_nat w) v + v * 2 ^ k)) as E.
  { rewrite crc_compute_spec by done. case_Z; [done|lia]. }
  split; [done|]. destruct (crc_compute_inv _ _ H0 E) as (_ & Hw & Hs & Hm).
  split; [done|]. rewrite crc_check_spec, <- Z.shiftr_div_pow2, Hs, Hm by (done || lia).
  by rewrite Z.eqb_refl.
Qed.

Lemma lxor_pow2_mod (c j : Z) :
  0 <= j -> 0 <= k ->
  Z.lxor c (2 ^ j) mod 2 ^ k = if j <? k then Z.lxor (c mod 2 ^ k) (2 ^ j) else c mod 2 ^ k.
Proof.
  intros Hj Hk0. rewrite <- !Z.land_ones by lia.
  destruct (Z.ltb_spec j k); apply Z.bits_inj'; intros i Hi;
    rewrite ?Z.lxor_spec, ?Z.land_spec, ?Z.lxor_spec, ?Z.testbit_ones_nonneg by lia.
  - destruct (Z.ltb_spec i k); [by rewrite !andb_true_r|].
    rewrite !andb_false_r, Z.pow2_bits_false by lia. done.
  - destruct (Z.ltb_spec i k); [|by rewrite !andb_false_r].
    rewrite Z.pow2_bits_false by lia. by rewrite xorb_false_r.
Qed.

Lemma crc_single_bit (v c j : Z) :
  0 <= v -> crc_compute v = Some c -> 0 <= j < w ->
  snd (crc_check (Z.lxor c (2 ^ j))) = false.
Proof.
  intros Hv E Hj. pose proof crc_width as Hk.
  destruct (crc_compute_inv _ _ Hv E) as (Hr & Hw & Hs & Hm).
  assert (in_range w (Z.lxor c (2 ^ j))) as Hx.
  { apply in_range_of_bits; [lia| |].
    - apply Z.lxor_nonneg. split; intros; [apply Z.pow_nonneg; lia|]. apply Hw.
    - intros i Hi. rewrite Z.lxor_spec, (testbit_high w c), Z.pow2_bits_false by (done || lia).
      done. }
  rewrite crc_check_spec by done. cbn [snd]. apply Z.eqb_neq.
  rewrite <- Z.shiftr_div_pow2, Z.shiftr_lxor, Hs by lia.
  rewrite lxor_pow2_mod, Hm by lia. case_Z.
  - replace (Z.shiftr (2 ^ j) k) with 0.
    2: { rewrite Z.shiftr_div_pow2 by lia. rewrite Z.div_small; [done|].
         split; [apply Z.pow_nonneg; lia|]. apply Z.pow_lt_mono_r; lia. }
    rewrite Z.lxor_0_r. intros F.
    assert (Z.testbit (Z.lxor (popcount (Z.to_nat w) v) (2 ^ j)) j =
            Z.testbit (popcount (Z.to_nat w) v) j) as G by (by rewrite <- F).
    rewrite Z.lxor_spec, Z.pow2_bits_true in G by lia. by destruct (Z.testbit _ j).
  - rewrite Z.shiftr_div_pow2, <- Z.pow_sub_r by lia.
    rewrite popcount_flip by (rewrite Z2Nat.id; lia).
    destruct (Z.testbit v (j - k)); cbn [Z.b2z]; lia.
Qed.

End CrcTheory.

(** ** Bit reversal *)

Lemma revert8_spec (v i : Z) :
  in_range 8 v -> 0 <= i < 8 -> Z.testbit (revert8 v) i = Z.testbit v (7 - i).
Proof.
  intros Hv Hi.
  assert (forallb (fun i => eqb (Z.testbit (revert8 v) (Z.of_nat i))
                              (Z.testbit v (7 - Z.of_nat i))) (seq 0 8) = true) as H.
  { apply (byte_forall (fun v => forallb (fun i => eqb (Z.testbit (revert8 v) (Z.of_nat i))
      (Z.testbit v (7 - Z.of_nat i))) (seq 0 8))); [by vm_compute|done]. }
  rewrite forallb_forall in H. specialize (H (Z.to_nat i)).
  rewrite Z2Nat.id in H by lia. apply eqb_prop, H, in_seq. lia.
Qed.

Lemma revert8_range (v : Z) : in_range 8 v -> in_range 8 (revert8 v).
Proof.
  intros Hv. pose proof (byte_forall
    (fun v => (0 <=? revert8 v) && (revert8 v <? 256)) ltac:(by vm_compute) v Hv) as H.
  apply andb_true_iff in H as [H0 H1]. unfold in_range. change (2 ^ 8) with 256. lia.
Qed.

(** One byte of the result: bits [8 s .. 8 s + 7] come from byte [b] of the input. *)
Lemma revert_byte (w v b s i : Z) :
  0 <= b -> 0 <= s -> s + 8 <= w -> 0 <= i ->
  Z.testbit (wrap w (Z.shiftl (revert8 (Z.land (Z.shiftr v b) 0xff)) s)) i =
  (s <=? i) && (i <? s + 8) && Z.testbit v (b + (7 - (i - s))).
Proof.
  intros Hb Hs Hw Hi. change 0xff with (Z.ones 8). rewrite land_ones_wrap by lia.
  rewrite testbit_wrap, Z.shiftl_spec by lia.
  assert (in_range 8 (wrap 8 (Z.shiftr v b))) as Hr by (by apply wrap_range).
  destruct (Z.leb_spec s i); cbn [andb].
  2: { rewrite Z.testbit_neg_r by lia. apply andb_false_r. }
  destruct (Z.ltb_spec i (s + 8)); cbn [andb].
  - rewrite revert8_spec by (done || lia). rewrite testbit_wrap by lia.
    rewrite Z.shiftr_spec by lia. case_Z; try lia. cbn [andb]. f_equal; lia.
  - rewrite (testbit_high 8) by (apply revert8_range || lia; done). apply andb_false_r.
Qed.

Lemma revert8_shift0 (v : Z) : Z.land v 0xff = Z.land (Z.shiftr v 0) 0xff.
Proof. by rewrite Z.shiftr_0_r. Qed.

Lemma bit_revert32_spec (v i : Z) :
  0 <= i < 32 -> Z.testbit (bit_revert32 v) i = Z.testbit v (31 - i).
Proof.
  intros Hi. unfold bit_revert32. rewrite (revert8_shift0 v).
  rewrite !Z.lor_spec, !revert_byte by lia.
  case_Z; try lia; cbn [andb orb]; rewrite ?orb_false_r; f_equal; lia.
Qed.

Lemma bit_revert64_spec (v i : Z) :
  0 <= i < 64 -> Z.testbit (bit_revert64 v) i = Z.testbit v (63 - i).
Proof.
  intros Hi. unfold bit_revert64. rewrite (revert8_shift0 v).
  rewrite !Z.lor_spec, !revert_byte by lia.
  assert (0 <= i / 8 < 8 /\ i = 8 * (i / 8) + i mod 8 /\ 0 <= i mod 8 < 8) as (Hq & Hi8 & Hm)
    by (pose proof (Z.mod_pos_bound i 8); pose proof (Z.div_mod i 8); lia).
  destruct (decide (i / 8 = 0)), (decide (i / 8 = 1)), (decide (i / 8 = 2)),
    (decide (i / 8 = 3)), (decide (i / 8 = 4)), (decide (i / 8 = 5)), (decide (i / 8 = 6));
    try lia; decide_Z; cbn [andb orb]; rewrite ?orb_false_r; f_equal; lia.
Qed.

Lemma bit_revert32_range (v : Z) : in_range 32 (bit_revert32 v).
Proof. unfold bit_revert32. repeat apply lor_range; try apply wrap_range; lia. Qed.

Lemma bit_revert64_range (v : Z) : in_range 64 (bit_revert64 v).
Proof. unfold bit_revert64. repeat apply lor_range; try apply wrap_range; lia. Qed.

(** ** Packing *)

Lemma unpack_pack (v1 v2 : Z) :
  in_range 16 v1 -> in_range 16 v2 -> unpack (pack v1 v2) = (v1, v2).
Proof.
  intros H1 H2. unfold unpack, pack. change 0xffff with (Z.ones 16).
  rewrite !land_ones_wrap by lia. f_equal; bitwise i.
  - destruct (Z.ltb_spec i 16); cbn [andb].
    + rewrite (Z.testbit_neg_r v2) by lia. by rewrite andb_false_r.
    + by rewrite (testbit_high 16) by (done || lia).
  - destruct (Z.ltb_spec i 16); cbn [andb].
    + rewrite (testbit_high 16 v1) by (done || lia). decide_Z.
      rewrite orb_false_r. cbn [andb]. f_equal; lia.
    + by rewrite (testbit_high 16 v2) by (done || lia).
Qed.

(** ** Serial-number comparison *)

Definition serial_less (w u1 u2 : Z) : Prop :=
  0 < wrap w (u2 - u1) < 2 ^ (w - 1) \/ (wrap w (u2 - u1) = 2 ^ (w - 1) /\ u2 < u1).

Lemma wrap_sub (w a b : Z) :
  0 <= w -> in_range w a -> in_range w b ->
  wrap w (a - b) = if b <=? a then a - b else a - b + 2 ^ w.
Proof.
  intros Hw Ha Hb. unfold in_range in *. case_Z; [apply wrap_small; unfold in_range; lia|].
  unfold wrap. rewrite <- (Z_mod_plus_full (a - b) 1). rewrite Z.mul_1_l.
  apply Z.mod_small; lia.
Qed.

Lemma overflow_safe_less32_spec (u1 u2 : Z) :
  in_range 32 u1 -> in_range 32 u2 ->
  overflow_safe_less32 u1 u2 = true <-> serial_less 32 u1 u2.
Proof.
  intros H1 H2. unfold overflow_safe_less32, serial_less.
  rewrite !wrap_sub by (done || lia). change (wrap 32 (4294967295 / 2)) with (2 ^ 31 - 1).
  change (2 ^ (32 - 1)) with (2 ^ 31). unfold in_range in *.
  destruct (Z.leb_spec u1 u2), (Z.leb_spec u2 u1); case_Z; split; (done || lia).
Qed.

Lemma overflow_safe_less64_spec (u1 u2 : Z) :
  in_range 64 u1 -> in_range 64 u2 ->
  overflow_safe_less64 u1 u2 = true <-> serial_less 64 u1 u2.
Proof.
  intros H1 H2. unfold overflow_safe_less64, serial_less.
  rewrite !wrap_sub by (done || lia). change (wrap 64 (-1) / 2) with (2 ^ 63 - 1).
  change (2 ^ (64 - 1)) with (2 ^ 63). unfold in_range in *.
  destruct (Z.leb_spec u1 u2), (Z.leb_spec u2 u1); case_Z; split; (done || lia).
Qed.

Lemma serial_less_trichotomy (w u1 u2 : Z) :
  1 <= w -> in_range w u1 -> in_range w u2 -> u1 <> u2 ->
  serial_less w u1 u2 <-> ~ serial_less w u2 u1.
Proof.
  intros Hw H1 H2 Hne. unfold serial_less. rewrite !wrap_sub by (done || lia).
  assert (2 ^ w = 2 * 2 ^ (w - 1)) by (rewrite <- Z.pow_succ_r by lia; f_equal; lia).
  unfold in_range in *. case_Z; lia.
Qed.

(** ** Properties *)

(** The table-driven [bit_count] overloads count the ones of their argument, for
    every value of their width. *)
Theorem bit_count_is_popcount (v : Z) :
  (in_range 8 v -> bit_count8 v = popcount 8 v) /\
  (in_range 16 v -> bit_count16 v = popcount 16 v) /\
  (in_range 32 v -> bit_count32 v = popcount 32 v) /\
  (in_range 64 v -> bit_count64 v = popcount 64 v).
Proof.
  auto using bit_count8_spec, bit_count16_spec, bit_count32_spec, bit_count64_spec.
Qed.

(** [max_padded_byte_cout] is the number of bytes the value needs: it fits in that
    many bytes, and in no smaller number, for each of the four widths. *)
Theorem byte_count_minimal (w : Z) (bytes : Z -> Z) (v : Z) :
  In (w, bytes) [(8, max_padded_byte_cout8); (16, max_padded_byte_cout16);
                 (32, max_padded_byte_cout32); (64, max_padded_byte_cout64)] ->
  in_range w v ->
  0 <= bytes v <= w / 8 /\ v < 2 ^ (8 * bytes v) /\
  (forall n, 0 <= n -> v < 2 ^ (8 * n) -> bytes v <= n).
Proof.
  intros Hin Hv.
  assert (bytes v = sig_bytes v /\ 0 <= w / 8 /\ w = 8 * (w / 8)) as (-> & Hw0 & Hw).
  { destruct Hin as [[= <- <-]|[[= <- <-]|[[= <- <-]|[[= <- <-]|[]]]]]; (split; [|done]);
      auto using max_padded_byte_cout8_spec, max_padded_byte_cout16_spec,
        max_padded_byte_cout32_spec, max_padded_byte_cout64_spec. }
  split; [split; [apply sig_bytes_nonneg|apply sig_bytes_least; [done|by rewrite <- Hw]]|].
  split; [apply sig_bytes_bound, Hv|].
  intros n Hn Hlt. apply sig_bytes_least; [done|]. split; [apply Hv|done].
Qed.

Lemma byte_count_minimal_witness :
  in_range 32 65536 /\ max_padded_byte_cout32 65536 <= 3.
Proof.
  split; [split; by vm_compute|].
  apply (byte_count_minimal 32 max_padded_byte_cout32 65536); [by right; right; left| |lia|done].
  split; by vm_compute.
Defined.

(** Every value below the documented maximum survives [compute_value_with_crc]
    followed by [check_value_with_crc], and every larger value is refused, at each width. *)
Theorem crc_roundtrip_all (v : Z) :
  0 <= v ->
  (if v <=? max_value_without_crc_64
   then exists c, compute_value_with_crc64 v = Some c /\ check_value_with_crc64 c = (v, true)
   else compute_value_with_crc64 v = None) /\
  (if v <=? max_value_without_crc_32
   then exists c, compute_value_with_crc32 v = Some c /\ check_value_with_crc32 c = (v, true)
   else compute_value_with_crc32 v = None) /\
  (if v <=? max_value_without_crc_16
   then exists c, compute_value_with_crc16 v = Some c /\ check_value_with_crc16 c = (v, true)
   else compute_value_with_crc16 v = None) /\
  (if v <=? max_value_without_crc_8
   then exists c, compute_value_with_crc8 v = Some c /\ check_value_with_crc8 c = (v, true)
   else compute_value_with_crc8 v = None).
Proof.
  intros Hv.
  change max_value_without_crc_64 with (2 ^ 58 - 1).
  change max_value_without_crc_32 with (2 ^ 27 - 1).
  change max_value_without_crc_16 with (2 ^ 12 - 1).
  change max_value_without_crc_8 with (2 ^ 5 - 1).
  assert (forall (w k : Z) (C : CrcCodec w k),
    if v <=? 2 ^ (w - k) - 1
    then exists c, crc_compute v = Some c /\ crc_check c = (v, true)
    else crc_compute v = None) as H.
  { intros w k C. case_Z.
    - destruct (crc_roundtrip v) as (c & ? & _ & ?); [unfold in_range; lia|eauto].
    - rewrite crc_compute_spec by done. by decide_Z. }
  split; [apply (H _ _ crc64)|split; [apply (H _ _ crc32)|split;
    [apply (H _ _ crc16)|apply (H _ _ crc8)]]].
Qed.

Lemma crc_roundtrip_all_witness :
  exists c, compute_value_with_crc16 4095 = Some c /\ check_value_with_crc16 c = (4095, true).
Proof.
  exact (proj1 (proj2 (proj2 (crc_roundtrip_all 4095 ltac:(lia))))).
Defined.

(** A value stored with its bit count detects any single flipped bit, whether the bit
    belongs to the value or to the count, at each width. *)
Theorem crc_detects_single_bit (v c j : Z) :
  0 <= v -> 0 <= j ->
  (compute_value_with_crc64 v = Some c -> j < 64 ->
   snd (check_value_with_crc64 (Z.lxor c (2 ^ j))) = false) /\
  (compute_value_with_crc32 v = Some c -> j < 32 ->
   snd (check_value_with_crc32 (Z.lxor c (2 ^ j))) = false) /\
  (compute_value_with_crc16 v = Some c -> j < 16 ->
   snd (check_value_with_crc16 (Z.lxor c (2 ^ j))) = false) /\
  (compute_value_with_crc8 v = Some c -> j < 8 ->
   snd (check_value_with_crc8 (Z.lxor c (2 ^ j))) = false).
Proof.
  intros Hv Hj.
  repeat split; intros E Hlt; [apply (crc_single_bit (C := crc64) v)|
    apply (crc_single_bit (C := crc32) v)|apply (crc_single_bit (C := crc16) v)|
    apply (crc_single_bit (C := crc8) v)]; done || lia.
Qed.

Lemma crc_detects_single_bit_witness :
  snd (check_value_with_crc16 (Z.lxor 65288 (2 ^ 3))) = false.
Proof.
  apply (proj1 (proj2 (proj2 (crc_detects_single_bit 4080 65288 3 ltac:(lia) ltac:(lia)))));
    [vm_compute; reflexivity|lia].
Defined.

(** [overflow_safe_less] is serial-number comparison: [u1] precedes [u2] when the
    wrapped distance from [u1] to [u2] is below half the range, and two distinct counters
    are always ordered one way and not the other, across the wrap too. *)
Theorem overflow_safe_less_serial (u1 u2 : Z) :
  (in_range 32 u1 -> in_range 32 u2 ->
   (overflow_safe_less32 u1 u2 = true <-> serial_less 32 u1 u2) /\
   (u1 <> u2 -> overflow_safe_less32 u1 u2 = negb (overflow_safe_less32 u2 u1))) /\
  (in_range 64 u1 -> in_range 64 u2 ->
   (overflow_safe_less64 u1 u2 = true <-> serial_less 64 u1 u2) /\
   (u1 <> u2 -> overflow_safe_less64 u1 u2 = negb (overflow_safe_less64 u2 u1))).
Proof.
  split; intros H1 H2.
  - split; [by apply overflow_safe_less32_spec|]. intros Hne.
    apply eq_true_iff_eq. rewrite negb_true_iff, <- not_true_iff_false.
    rewrite !overflow_safe_less32_spec by done. by apply serial_less_trichotomy.
  - split; [by apply overflow_safe_less64_spec|]. intros Hne.
    apply eq_true_iff_eq. rewrite negb_true_iff, <- not_true_iff_false.
    rewrite !overflow_safe_less64_spec by done. by apply serial_less_trichotomy.
Qed.

Lemma overflow_safe_less_serial_witness :
  overflow_safe_less32 4294967295 0 = negb (overflow_safe_less32 0 4294967295).
Proof.
  apply (proj1 (overflow_safe_less_serial 4294967295 0)); [split; lia|split; lia|lia].
Defined.

End Bits.
