(* ===== verification/BinaryBasic.v ===== *)
(** * Integers on the wire

    solid/serialization/binarybasic.hpp and solid/serialization/src/binarybasic.cpp:
    the fixed-width big-endian [store]/[load] and the width-independent ("cross")
    integers: a header byte that holds the number of significant bytes with its bit
    count, then those bytes, least significant first.

    A store function is modelled by the bytes it writes from [_pd] on together with the
    offset of the pointer it returns ([None] is [nullptr]); a load function reads the
    list of bytes that are readable at [_ps]. *)

From S2P Require Import Prelude Bits.
Import Bits.

Module BinaryBasic.

(** The outcome of a load: the value with the offset of the returned pointer, [nullptr],
    or a read past the readable bytes. *)
Inductive loaded : Type :=
  | Loaded (v adv : Z)
  | LoadNull
  | LoadOverrun.

(** ** Fixed width, big-endian (binarybasic.hpp) *)

Definition store8 (v : Z) : list Z := [v].

Definition store16 (v : Z) : list Z :=
  [wrap 8 (Z.land (Z.shiftr v 8) 0xff); wrap 8 (Z.land v 0xff)].

Definition store32 (v : Z) : list Z :=
  store16 (wrap 16 (Z.shiftr v 16)) ++ store16 (wrap 16 (Z.land v 0xffff)).

Definition store64 (v : Z) : list Z :=
  store32 (wrap 32 (Z.shiftr v 32)) ++ store32 (wrap 32 (Z.land v 0xffffffff)).

(** The loads return the value and the bytes after it, [None] past the readable bytes. *)
Definition load8 (ps : list Z) : option (Z * list Z) :=
  match ps with b :: ps => Some (b, ps) | [] => None end.

Definition load16 (ps : list Z) : option (Z * list Z) :=
  match ps with
  | b0 :: b1 :: ps =>
      let v := b0 in
      let v := wrap 16 (Z.shiftl v 8) in
      Some (Z.lor v b1, ps)
  | _ => None
  end.

Definition load32 (ps : list Z) : option (Z * list Z) :=
  '(upper, ps) ← load16 ps;
  '(lower, ps) ← load16 ps;
  let v := wrap 32 (Z.shiftl upper 16) in
  Some (Z.lor v lower, ps).

Definition load64 (ps : list Z) : option (Z * list Z) :=
  '(upper, ps) ← load32 ps;
  '(lower, ps) ← load32 ps;
  let v := wrap 64 (Z.shiftl upper 32) in
  Some (Z.lor v lower, ps).

(** ** Cross integers (binarybasic.hpp, binarybasic.cpp) *)

(** [crossSize] of a pointer: the size announced by the header byte, [-1] if it is corrupt. *)
Definition crossSizeAt (ps : list Z) : option Z :=
  match ps with
  | [] => None
  | h :: _ =>
      let '(v, ok) := check_value_with_crc8 h in
      Some (if ok then wrap 64 (v + 1) else wrap 64 (-1))
  end.

Definition crossSize8 (v : Z) : Z := max_padded_byte_cout8 v + 1.
Definition crossSize16 (v : Z) : Z := max_padded_byte_cout16 v + 1.
Definition crossSize32 (v : Z) : Z := max_padded_byte_cout32 v + 1.
Definition crossSize64 (v : Z) : Z := max_padded_byte_cout64 v + 1.

(** The unrolled writes of a [switch] case: [n] times "write [_v & 0xff]; [_v >>= 8]". *)
Fixpoint put_bytes (n : nat) (v : Z) : list Z :=
  match n with
  | O => []
  | S n => Z.land v 0xff :: put_bytes n (Z.shiftr v 8)
  end.

(** The unrolled reads of a [switch] case: [_val |= ps[i] << 8 * i], at width [w]. *)
Fixpoint get_bytes (w : Z) (n : nat) (shift acc : Z) (ps : list Z) : option Z :=
  match n with
  | O => Some acc
  | S n =>
      match ps with
      | [] => None
      | b :: ps => get_bytes w n (shift + 8) (Z.lor acc (wrap w (Z.shiftl b shift))) ps
      end
  end.

Definition crossStore8 (v : Z) : option (list Z * Z) :=
  let sz := max_padded_byte_cout8 v in
  match compute_value_with_crc8 (wrap 8 sz) with
  | Some h => Some (h :: (if sz =? 0 then [] else [v]), sz + 1)
  | None => None
  end.

Definition crossStore16 (v : Z) : option (list Z * Z) :=
  let sz := max_padded_byte_cout16 v in
  match compute_value_with_crc8 (wrap 8 sz) with
  | Some h =>
      match sz with
      | 0 => Some (h :: put_bytes 0 v, sz + 1)
      | 1 => Some (h :: put_bytes 1 v, sz + 1)
      | 2 => Some (h :: put_bytes 2 v, sz + 1)
      | _ => None
      end
  | None => None
  end.

Definition crossStore32 (v : Z) : option (list Z * Z) :=
  let sz := max_padded_byte_cout32 v in
  match compute_value_with_crc8 (wrap 8 sz) with
  | Some h =>
      match sz with
      | 0 => Some (h :: put_bytes 0 v, sz + 1)
      | 1 => Some (h :: put_bytes 1 v, sz + 1)
      | 2 => Some (h :: put_bytes 2 v, sz + 1)
      | 3 => Some (h :: put_bytes 3 v, sz + 1)
      | 4 => Some (h :: put_bytes 4 v, sz + 1)
      | _ => None
      end
  | None => None
  end.

Definition crossStore64 (v : Z) : option (list Z * Z) :=
  let sz := max_padded_byte_cout64 v in
  match compute_value_with_crc8 (wrap 8 sz) with
  | Some h =>
      match sz with
      | 0 => Some (h :: put_bytes 0 v, sz + 1)
      | 1 => Some (h :: put_bytes 1 v, sz + 1)
      | 2 => Some (h :: put_bytes 2 v, sz + 1)
      | 3 => Some (h :: put_bytes 3 v, sz + 1)
      | 4 => Some (h :: put_bytes 4 v, sz + 1)
      | 5 => Some (h :: put_bytes 5 v, sz + 1)
      | 6 => Some (h :: put_bytes 6 v, sz + 1)
      | 7 => Some (h :: put_bytes 7 v, sz + 1)
      | 8 => Some (h :: put_bytes 8 v, sz + 1)
      | _ => None
      end
  | None => None
  end.

(** One [switch] case of a [crossLoad]: [n] bytes after the header. *)
Definition load_case (w sz : Z) (n : nat) (ps : list Z) : loaded :=
  match get_bytes w n 0 0 ps with
  | Some v => Loaded v (sz + 1)
  | None => LoadOverrun
  end.

Definition crossLoad8 (ps : list Z) : loaded :=
  match ps with
  | [] => LoadOverrun
  | h :: ps =>
      let '(sz, ok) := check_value_with_crc8 h in
      if ok then
        match sz with
        | 0 => load_case 8 sz 0 ps
        | 1 => load_case 8 sz 1 ps
        | _ => LoadNull
        end
      else LoadNull
  end.

Definition crossLoad16 (ps : list Z) : loaded :=
  match ps with
  | [] => LoadOverrun
  | h :: ps =>
      let '(sz, ok) := check_value_with_crc8 h in
      if ok then
        match sz with
        | 0 => load_case 16 sz 0 ps
        | 1 => load_case 16 sz 1 ps
        | 2 => load_case 16 sz 2 ps
        | _ => LoadNull
        end
      else LoadNull
  end.

Definition crossLoad32 (ps : list Z) : loaded :=
  match ps with
  | [] => LoadOverrun
  | h :: ps =>
      let '(sz, ok) := check_value_with_crc8 h in
      if ok then
        match sz with
        | 0 => load_case 32 sz 0 ps
        | 1 => load_case 32 sz 1 ps
        | 2 => load_case 32 sz 2 ps
        | 3 => load_case 32 sz 3 ps
        | 4 => load_case 32 sz 4 ps
        | _ => LoadNull
        end
      else LoadNull
  end.

Definition crossLoad64 (ps : list Z) : loaded :=
  match ps with
  | [] => LoadOverrun
  | h :: ps =>
      let '(sz, ok) := check_value_with_crc8 h in
      if ok then
        match sz with
        | 0 => load_case 64 sz 0 ps
        | 1 => load_case 64 sz 1 ps
        | 2 => load_case 64 sz 2 ps
        | 3 => load_case 64 sz 3 ps
        | 4 => load_case 64 sz 4 ps
        | 5 => load_case 64 sz 5 ps
        | 6 => load_case 64 sz 6 ps
        | 7 => load_case 64 sz 7 ps
        | 8 => load_case 64 sz 8 ps
        | _ => LoadNull
        end
      else LoadNull
  end.

(** ** Bytes *)

Definition is_bytes (bs : list Z) : Prop := Forall (in_range 8) bs.

Lemma land_byte (v : Z) : Z.land v 0xff = wrap 8 v.
Proof. change 0xff with (Z.ones 8). by apply land_ones_wrap. Qed.

Lemma length_put_bytes (n : nat) (v : Z) : length (put_bytes n v) = n.
Proof. revert v; induction n as [|n IH]; intros v; cbn [put_bytes length]; by rewrite ?IH. Qed.

Lemma put_bytes_is_bytes (n : nat) (v : Z) : is_bytes (put_bytes n v).
Proof.
  revert v; induction n as [|n IH]; intros v; constructor; [|apply IH].
  rewrite land_byte. by apply wrap_range.
Qed.

(** Reading back [n] bytes gives the value modulo [2^(8 n)]. *)
Lemma get_put_bytes (w : Z) (n : nat) (s acc v : Z) (rest : list Z) :
  0 <= s -> s + 8 * Z.of_nat n <= w ->
  get_bytes w n s acc (put_bytes n v ++ rest) =
  Some (Z.lor acc (Z.shiftl (wrap (8 * Z.of_nat n) v) s)).
Proof.
  revert s acc v; induction n as [|n IH]; intros s acc v Hs Hw; cbn [put_bytes get_bytes app].
  - change (8 * Z.of_nat 0) with 0. unfold wrap. rewrite Z.mod_1_r, Z.shiftl_0_l.
    by rewrite Z.lor_0_r.
  - rewrite land_byte, IH by lia. f_equal. rewrite <- Z.lor_assoc. f_equal. bitwise i.
    destruct (Z.ltb_spec i s).
    { rewrite !Z.testbit_neg_r by lia. by rewrite !andb_false_r. }
    rewrite (testbit_wrap 8 v), (testbit_wrap (8 * Z.of_nat (S n)) v) by lia.
    destruct (Z.ltb_spec (i - s) 8).
    + rewrite (Z.testbit_neg_r _ (i - (s + 8))) by lia. decide_Z. by rewrite orb_false_r.
    + rewrite testbit_wrap, Z.shiftr_spec by lia. rewrite andb_false_r.
      replace (i - (s + 8) + 8) with (i - s) by lia.
      destruct (Z.ltb_spec (i - s) (8 * Z.of_nat (S n))); decide_Z; done.
Qed.

Lemma get_bytes_short (w : Z) (n : nat) (s acc : Z) (ps : list Z) :
  (length ps < n)%nat -> get_bytes w n s acc ps = None.
Proof.
  revert s acc ps; induction n as [|n IH]; intros s acc [|b ps] H; simpl in *; try done || lia.
  apply IH. lia.
Qed.

Lemma get_bytes_range (w : Z) (n : nat) (s acc v : Z) (ps : list Z) :
  0 <= w -> in_range w acc -> get_bytes w n s acc ps = Some v -> in_range w v.
Proof.
  intros Hw. revert s acc ps; induction n as [|n IH]; intros s acc [|b ps] Ha; simpl;
    try (by intros [= <-]); try done.
  apply IH, lor_range; [done|done|]. by apply wrap_range.
Qed.

(** ** The cross encoding *)

(** The header byte and the significant bytes. *)
Definition enc_cross (v : Z) : list Z :=
  match compute_value_with_crc8 (sig_bytes v) with
  | Some h => h :: put_bytes (Z.to_nat (sig_bytes v)) v
  | None => []
  end.

Lemma sig_bytes_le (w v : Z) : 0 <= w -> in_range (8 * w) v -> 0 <= sig_bytes v <= w.
Proof. split; [apply sig_bytes_nonneg|by apply sig_bytes_least]. Qed.

Lemma cross_header (v : Z) :
  in_range 64 v ->
  exists h, compute_value_with_crc8 (sig_bytes v) = Some h /\ in_range 8 h /\
            check_value_with_crc8 h = (sig_bytes v, true).
Proof.
  intros Hv. apply (crc_roundtrip (C := crc8)).
  pose proof (sig_bytes_le 8 v ltac:(lia) Hv). unfold in_range. lia.
Qed.

Lemma enc_cross_eq (v : Z) :
  in_range 64 v ->
  exists h, compute_value_with_crc8 (sig_bytes v) = Some h /\ in_range 8 h /\
    check_value_with_crc8 h = (sig_bytes v, true) /\
    enc_cross v = h :: put_bytes (Z.to_nat (sig_bytes v)) v.
Proof.
  intros Hv. destruct (cross_header v Hv) as (h & E & Hh & Hc).
  exists h. unfold enc_cross. by rewrite E.
Qed.

Lemma length_enc_cross (v : Z) :
  in_range 64 v -> Z.of_nat (length (enc_cross v)) = sig_bytes v + 1.
Proof.
  intros Hv. destruct (enc_cross_eq v Hv) as (h & _ & _ & _ & ->).
  cbn [length]. rewrite length_put_bytes. pose proof (sig_bytes_nonneg v). lia.
Qed.

Lemma enc_cross_is_bytes (v : Z) : in_range 64 v -> is_bytes (enc_cross v).
Proof.
  intros Hv. destruct (enc_cross_eq v Hv) as (h & _ & Hh & _ & ->).
  constructor; [done|apply put_bytes_is_bytes].
Qed.

Lemma enc_cross_nonempty (v : Z) : in_range 64 v -> enc_cross v <> [].
Proof. intros Hv E. apply length_enc_cross in Hv as H. rewrite E in H.
  pose proof (sig_bytes_nonneg v). simpl in H. lia. Qed.

(** Case analysis on a small non-negative integer, for the [switch] statements. *)
Ltac switch_cases z :=
  let H := fresh in
  assert (z = 0 \/ z = 1 \/ z = 2 \/ z = 3 \/ z = 4 \/ z = 5 \/ z = 6 \/ z = 7 \/ z = 8) as H
    by lia; destruct_or! H; rewrite ?H in *; try lia.

Lemma crossStore8_spec (v : Z) :
  in_range 8 v -> crossStore8 v = Some (enc_cross v, sig_bytes v + 1).
Proof.
  intros Hv. pose proof (in_range_mono 8 64 v ltac:(lia) Hv) as Hv64.
  destruct (enc_cross_eq v Hv64) as (h & E & _ & _ & ->).
  unfold crossStore8. rewrite max_padded_byte_cout8_spec by done.
  pose proof (sig_bytes_le 1 v ltac:(lia) Hv) as Hs.
  rewrite wrap_small, E by (unfold in_range; lia). do 2 f_equal. f_equal.
  switch_cases (sig_bytes v); [done|]. change (Z.to_nat 1) with 1%nat. cbn [put_bytes Z.eqb].
  by rewrite land_byte, wrap_small.
Qed.

Lemma crossStore16_spec (v : Z) :
  in_range 16 v -> crossStore16 v = Some (enc_cross v, sig_bytes v + 1).
Proof.
  intros Hv. pose proof (in_range_mono 16 64 v ltac:(lia) Hv) as Hv64.
  destruct (enc_cross_eq v Hv64) as (h & E & _ & _ & ->).
  unfold crossStore16. rewrite max_padded_byte_cout16_spec by done.
  pose proof (sig_bytes_le 2 v ltac:(lia) Hv) as Hs.
  rewrite wrap_small, E by (unfold in_range; lia). switch_cases (sig_bytes v); done.
Qed.

Lemma crossStore32_spec (v : Z) :
  in_range 32 v -> crossStore32 v = Some (enc_cross v, sig_bytes v + 1).
Proof.
  intros Hv. pose proof (in_range_mono 32 64 v ltac:(lia) Hv) as Hv64.
  destruct (enc_cross_eq v Hv64) as (h & E & _ & _ & ->).
  unfold crossStore32. rewrite max_padded_byte_cout32_spec by done.
  pose proof (sig_bytes_le 4 v ltac:(lia) Hv) as Hs.
  rewrite wrap_small, E by (unfold in_range; lia). switch_cases (sig_bytes v); done.
Qed.

Lemma crossStore64_spec (v : Z) :
  in_range 64 v -> crossStore64 v = Some (enc_cross v, sig_bytes v + 1).
Proof.
  intros Hv. destruct (enc_cross_eq v Hv) as (h & E & _ & _ & ->).
  unfold crossStore64. rewrite max_padded_byte_cout64_spec by done.
  pose proof (sig_bytes_le 8 v ltac:(lia) Hv) as Hs.
  rewrite wrap_small, E by (unfold in_range; lia). switch_cases (sig_bytes v); done.
Qed.

(** ** Loading a cross integer *)

Lemma load_case_spec (w v sz : Z) (n : nat) (rest : list Z) :
  0 <= v -> 8 * Z.of_nat n <= w -> sig_bytes v = Z.of_nat n ->
  load_case w sz n (put_bytes n v ++ rest) = Loaded v (sz + 1).
Proof.
  intros Hv Hn Hs. unfold load_case. rewrite get_put_bytes by lia.
  rewrite Z.lor_0_l, Z.shiftl_0_r, wrap_small; [done|]. split; [done|].
  rewrite <- Hs. by apply sig_bytes_bound.
Qed.

(** The value fits in [w] bits exactly when its bytes do. *)
Lemma fits_bytes (w v : Z) : 0 <= w -> 0 <= v -> v < 2 ^ (8 * w) <-> sig_bytes v <= w.
Proof.
  intros Hw Hv. split; intros H; [by apply sig_bytes_least|].
  apply Z.lt_le_trans with (2 ^ (8 * sig_bytes v)); [by apply sig_bytes_bound|].
  apply Z.pow_le_mono_r; lia.
Qed.

Ltac cross_load v n :=
  intros Hv; destruct (enc_cross_eq v Hv) as (h & _ & _ & Hc & ->);
  cbn [app crossLoad8 crossLoad16 crossLoad32 crossLoad64];
  rewrite Hc; pose proof (sig_bytes_le 8 v ltac:(lia) Hv) as Hs;
  pose proof (fits_bytes n v ltac:(lia) ltac:(apply Hv)) as Hf; rewrite ?Z.mul_1_r in Hf;
  case_Z; switch_cases (sig_bytes v); try done;
  match goal with E : sig_bytes v = _ |- _ => rewrite ?E end;
  (apply load_case_spec; [apply Hv|lia|lia]).

Lemma crossLoad8_spec (v : Z) (rest : list Z) :
  in_range 64 v ->
  crossLoad8 (enc_cross v ++ rest) =
  if v <? 2 ^ 8 then Loaded v (sig_bytes v + 1) else LoadNull.
Proof. cross_load v 1. Qed.

Lemma crossLoad16_spec (v : Z) (rest : list Z) :
  in_range 64 v ->
  crossLoad16 (enc_cross v ++ rest) =
  if v <? 2 ^ 16 then Loaded v (sig_bytes v + 1) else LoadNull.
Proof. cross_load v 2. Qed.

Lemma crossLoad32_spec (v : Z) (rest : list Z) :
  in_range 64 v ->
  crossLoad32 (enc_cross v ++ rest) =
  if v <? 2 ^ 32 then Loaded v (sig_bytes v + 1) else LoadNull.
Proof. cross_load v 4. Qed.

Lemma crossLoad64_spec (v : Z) (rest : list Z) :
  in_range 64 v ->
  crossLoad64 (enc_cross v ++ rest) =
  if v <? 2 ^ 64 then Loaded v (sig_bytes v + 1) else LoadNull.
Proof. cross_load v 8. Qed.

(** ** Arbitrary input *)

(** What a successful load guarantees: the value is in range, the pointer stays within the
    readable bytes and advances as the header says. *)
Definition sound_load (w : Z) (ps : list Z) (r : loaded) : Prop :=
  match r with
  | Loaded v adv =>
      in_range w v /\ 1 <= adv <= Z.of_nat (length ps) /\ adv <= w / 8 + 1 /\
      crossSizeAt ps = Some adv
  | LoadNull => True
  | LoadOverrun => forall n, crossSizeAt ps = Some n -> Z.of_nat (length ps) < n
  end.

Lemma load_case_sound (w h sz : Z) (n : nat) (ps : list Z) :
  0 <= w -> check_value_with_crc8 h = (sz, true) -> sz = Z.of_nat n -> sz <= w / 8 -> sz <= 8 ->
  sound_load w (h :: ps) (load_case w sz n ps).
Proof.
  intros Hw Hc Hsz Hle H8. unfold load_case.
  assert (crossSizeAt (h :: ps) = Some (sz + 1)) as Hcs.
  { unfold crossSizeAt. rewrite Hc. f_equal. apply wrap_small. unfold in_range. lia. }
  destruct (get_bytes w n 0 0 ps) as [v|] eqn:E; cbn [sound_load].
  - split.
    { eapply get_bytes_range; [done| |done]. split; [lia|]. by apply pow2_pos. }
    split; [|split; [lia|done]]. split; [lia|]. cbn [length].
    destruct (decide (length ps < n)%nat); [|lia]. by rewrite get_bytes_short in E.
  - intros m. rewrite Hcs. intros [= <-]. cbn [length].
    destruct (decide (length ps < n)%nat) as [|Hge]; [lia|]. exfalso.
    clear -E Hge. revert E Hge. generalize 0 at 2. generalize 0.
    revert ps; induction n as [|n IH]; intros [|b ps] s acc E Hge; simpl in *; try done || lia.
    eapply IH; [done|lia].
Qed.

Lemma check8_range (h sz : Z) (ok : bool) :
  in_range 8 h -> check_value_with_crc8 h = (sz, ok) -> 0 <= sz < 32.
Proof.
  unfold check_value_with_crc8. intros Hh [= <- _].
  pose proof (shiftr_range_sub 8 h 3 ltac:(lia) Hh). done.
Qed.

Ltac cross_sound :=
  let h := fresh "h" in let Hh := fresh in let Hc := fresh in let sz := fresh "sz" in
  intros Hb; match goal with |- sound_load _ ?ps _ => destruct ps as [|h ?] end;
  [intros n; done|]; apply Forall_cons in Hb as [Hh _];
  cbn [crossLoad8 crossLoad16 crossLoad32 crossLoad64];
  destruct (check_value_with_crc8 h) as [sz []] eqn:Hc; [|done];
  pose proof (check8_range _ _ _ Hh Hc);
  destruct (decide (sz <= 8));
  [switch_cases sz; try done;
   (apply load_case_sound; [lia|done|lia|vm_compute; congruence|lia])
  |let p := fresh "p" in destruct sz as [|p|p]; [lia| |lia];
   do 5 (try destruct p as [p|p|]); (done || lia)].

Lemma crossLoad8_sound (ps : list Z) : is_bytes ps -> sound_load 8 ps (crossLoad8 ps).
Proof. cross_sound. Qed.
Lemma crossLoad16_sound (ps : list Z) : is_bytes ps -> sound_load 16 ps (crossLoad16 ps).
Proof. cross_sound. Qed.
Lemma crossLoad32_sound (ps : list Z) : is_bytes ps -> sound_load 32 ps (crossLoad32 ps).
Proof. cross_sound. Qed.
Lemma crossLoad64_sound (ps : list Z) : is_bytes ps -> sound_load 64 ps (crossLoad64 ps).
Proof. cross_sound. Qed.

(** ** Fixed width *)

Lemma load_store16 (v : Z) (rest : list Z) :
  in_range 16 v -> load16 (store16 v ++ rest) = Some (v, rest).
Proof.
  intros Hv. unfold store16, load16. cbn [app]. do 2 f_equal. rewrite !land_byte. bitwise i.
  destruct (Z.ltb_spec i 8).
  - rewrite (Z.testbit_neg_r _ (i - 8)) by lia. decide_Z. done.
  - rewrite !testbit_wrap, Z.shiftr_spec by lia. replace (i - 8 + 8) with i by lia.
    destruct (Z.ltb_spec i 16); decide_Z; cbn [andb orb]; rewrite ?orb_false_r; [done|].
    symmetry. apply (testbit_high 16); [done|lia].
Qed.

(** Joining two halves of [w] bits. *)
Lemma join_halves (w v : Z) :
  0 <= w -> in_range (2 * w) v ->
  Z.lor (wrap (2 * w) (Z.shiftl (wrap w (Z.shiftr v w)) w)) (wrap w v) = v.
Proof.
  intros Hw Hv. bitwise i. destruct (Z.ltb_spec i w).
  - rewrite (Z.testbit_neg_r _ (i - w)) by lia. by rewrite andb_false_r.
  - rewrite testbit_wrap, Z.shiftr_spec by lia. replace (i - w + w) with i by lia.
    cbn [andb]. rewrite orb_false_r.
    destruct (Z.ltb_spec i (2 * w)); decide_Z; [done|].
    symmetry. by apply (testbit_high (2 * w)).
Qed.

Lemma load_store32 (v : Z) (rest : list Z) :
  in_range 32 v -> load32 (store32 v ++ rest) = Some (v, rest).
Proof.
  intros Hv. unfold store32, load32. rewrite <- app_assoc.
  rewrite load_store16 by (by apply wrap_range). cbn [mbind option_bind].
  rewrite load_store16 by (by apply wrap_range). cbn [mbind option_bind].
  change 0xffff with (Z.ones 16). rewrite land_ones_wrap by lia.
  rewrite (wrap_small 16 (wrap 16 v)) by (by apply wrap_range).
  by rewrite (join_halves 16).
Qed.

Lemma load_store64 (v : Z) (rest : list Z) :
  in_range 64 v -> load64 (store64 v ++ rest) = Some (v, rest).
Proof.
  intros Hv. unfold store64, load64. rewrite <- app_assoc.
  rewrite load_store32 by (by apply wrap_range). cbn [mbind option_bind].
  rewrite load_store32 by (by apply wrap_range). cbn [mbind option_bind].
  change 0xffffffff with (Z.ones 32). rewrite land_ones_wrap by lia.
  rewrite (wrap_small 32 (wrap 32 v)) by (by apply wrap_range).
  by rewrite (join_halves 32).
Qed.

(** ** Properties *)

Definition cross_stores : list (Z * (Z -> option (list Z * Z)) * (Z -> Z)) :=
  [(8, crossStore8, crossSize8); (16, crossStore16, crossSize16);
   (32, crossStore32, crossSize32); (64, crossStore64, crossSize64)].

Definition cross_loads : list (Z * (list Z -> loaded)) :=
  [(8, crossLoad8); (16, crossLoad16); (32, crossLoad32); (64, crossLoad64)].

Lemma cross_stores_spec (w : Z) store size (v : Z) :
  In (w, store, size) cross_stores -> in_range w v ->
  0 <= w <= 64 /\ store v = Some (enc_cross v, sig_bytes v + 1) /\ size v = sig_bytes v + 1.
Proof.
  intros [[= <- <- <-]|[[= <- <- <-]|[[= <- <- <-]|[[= <- <- <-]|[]]]]] Hv; (split; [done|]).
  - split; [by apply crossStore8_spec|]. unfold crossSize8. by rewrite max_padded_byte_cout8_spec.
  - split; [by apply crossStore16_spec|].
    unfold crossSize16. by rewrite max_padded_byte_cout16_spec.
  - split; [by apply crossStore32_spec|].
    unfold crossSize32. by rewrite max_padded_byte_cout32_spec.
  - split; [by apply crossStore64_spec|].
    unfold crossSize64. by rewrite max_padded_byte_cout64_spec.
Qed.

Lemma cross_loads_spec (w : Z) load (v : Z) (rest : list Z) :
  In (w, load) cross_loads -> in_range 64 v ->
  load (enc_cross v ++ rest) = if v <? 2 ^ w then Loaded v (sig_bytes v + 1) else LoadNull.
Proof.
  intros [[= <- <-]|[[= <- <-]|[[= <- <-]|[[= <- <-]|[]]]]] Hv;
    auto using crossLoad8_spec, crossLoad16_spec, crossLoad32_spec, crossLoad64_spec.
Qed.

(** The fixed-width integers round trip: [load] of what [store] wrote gives the value
    back and leaves the following bytes, for 16, 32 and 64 bits. *)
Theorem fixed_width_roundtrip (v : Z) (rest : list Z) :
  (in_range 8 v -> load8 (store8 v ++ rest) = Some (v, rest)) /\
  (in_range 16 v -> load16 (store16 v ++ rest) = Some (v, rest)) /\
  (in_range 32 v -> load32 (store32 v ++ rest) = Some (v, rest)) /\
  (in_range 64 v -> load64 (store64 v ++ rest) = Some (v, rest)).
Proof. auto using load_store16, load_store32, load_store64. Qed.

(** C36: a cross integer stored from any of the four widths and loaded at any of the four
    gives the same value back when it fits the width it is loaded at, and [nullptr] when
    it does not; the pointers returned by store and load and [crossSize] all agree with
    the number of bytes written, which never exceeds nine. *)
Theorem cross_roundtrip (w1 w2 : Z) store size load (v : Z) (rest : list Z) :
  In (w1, store, size) cross_stores -> In (w2, load) cross_loads -> in_range w1 v ->
  exists bs, store v = Some (bs, Z.of_nat (length bs)) /\ is_bytes bs /\
    size v = Z.of_nat (length bs) /\ crossSizeAt (bs ++ rest) = Some (size v) /\
    size v <= 9 /\
    load (bs ++ rest) = if v <? 2 ^ w2 then Loaded v (size v) else LoadNull.
Proof.
  intros Hst Hld Hv. destruct (cross_stores_spec _ _ _ _ Hst Hv) as (Hw & -> & ->).
  assert (in_range 64 v) as Hv64 by (by apply (in_range_mono w1)).
  exists (enc_cross v). rewrite length_enc_cross by done.
  pose proof (sig_bytes_le 8 v ltac:(lia) Hv64) as Hs.
  split; [done|]. split; [by apply enc_cross_is_bytes|]. split; [done|].
  split; [|split; [lia|by apply cross_loads_spec]].
  destruct (enc_cross_eq v Hv64) as (h & _ & _ & Hc & ->). cbn [app crossSizeAt].
  rewrite Hc. f_equal. apply wrap_small. unfold in_range. lia.
Qed.

Lemma cross_roundtrip_witness :
  exists bs, crossStore64 70000 = Some (bs, Z.of_nat (length bs)) /\
             crossLoad16 (bs ++ [1; 2]) = LoadNull.
Proof.
  destruct (cross_roundtrip 64 16 crossStore64 crossSize64 crossLoad16 70000 [1; 2])
    as (bs & H & _ & _ & _ & _ & L).
  - by right; right; right; left.
  - by right; left.
  - split; by vm_compute.
  - exists bs. split; [exact H|]. rewrite L. reflexivity.
Defined.

(** C38: on arbitrary bytes [crossLoad] is safe: a value it returns is in range for the
    width, the pointer stays inside the readable bytes and equals [crossSize] of the
    header; it would read past the end only when fewer bytes than [crossSize] announces
    are readable, which is what the callers test first. *)
Theorem crossLoad_safe (w : Z) load (ps : list Z) :
  In (w, load) cross_loads -> is_bytes ps -> sound_load w ps (load ps).
Proof.
  intros [[= <- <-]|[[= <- <-]|[[= <- <-]|[[= <- <-]|[]]]]] Hb;
    auto using crossLoad8_sound, crossLoad16_sound, crossLoad32_sound, crossLoad64_sound.
Qed.

Lemma crossLoad_safe_witness : sound_load 32 [17; 255] (crossLoad32 [17; 255]).
Proof.
  apply (crossLoad_safe 32 crossLoad32 [17; 255]); [by right; right; left|].
  repeat constructor; by vm_compute.
Defined.

End BinaryBasic.
