(* ===== verification/Search.v ===== *)
(** * Searching

    The template algorithms of solid/utility/algorithm.hpp: [binary_search],
    [binary_search_first], [binary_search_last] and [find_cmp].

    The random-access range is a list with positions in [nat]; a read outside it gives
    [None], and so does running out of fuel, so that a result [Some _] means the C++ loop
    ended without leaving the range. *)

From Stdlib Require Import Sorted.
From S2P Require Import Prelude.

#[local] Open Scope nat_scope.

Module Search.

Section Search.
Context {A K : Type} (cmp : A -> K -> Z).

(** ** The algorithms *)

(** The [while] loop of [binary_search], one unit of fuel per iteration. *)
Fixpoint binary_search_loop (fuel : nat) (v : list A) (beg from to : nat) (k : K)
    : option (bool * nat) :=
  match fuel with
  | O => None
  | S fuel =>
      if from <? to then
        let midpos := Nat.div2 (to - from) in
        x ← v !! (from + midpos);
        let r := cmp x k in
        if (r =? 0)%Z then Some (true, from - beg + midpos)
        else if (r <? 0)%Z then binary_search_loop fuel v beg (from + (midpos + 1)) to k
        else binary_search_loop fuel v beg from (from + midpos) k
      else Some (false, from - beg)
  end.

(** The range shrinks at each iteration, so [to - from + 1] iterations are enough. *)
Definition binary_search (v : list A) (from to : nat) (k : K) : option (bool * nat) :=
  binary_search_loop (S (to - from)) v from from to k.

Fixpoint binary_search_first_loop (fuel : nat) (v : list A) (from : nat) (k : K)
    (p : bool * nat) : option (bool * nat) :=
  match fuel with
  | O => None
  | S fuel =>
      if p.2 =? 0 then Some p
      else
        x ← v !! (from + p.2 - 1);
        if (cmp x k =? 0)%Z then
          p ← binary_search v from (from + p.2) k;
          binary_search_first_loop fuel v from k p
        else Some p
  end.

Definition binary_search_first (v : list A) (from to : nat) (k : K) : option (bool * nat) :=
  p ← binary_search v from to k;
  if negb p.1 then Some p else binary_search_first_loop (S p.2) v from k p.

(** The inner search of [binary_search_last] starts at [_from + p.second + 1], and its
    result is relative to that position. *)
Fixpoint binary_search_last_loop (fuel : nat) (v : list A) (from to : nat) (k : K)
    (p : bool * nat) : option (bool * nat) :=
  match fuel with
  | O => None
  | S fuel =>
      if p.2 =? to - from - 1 then Some p
      else
        x ← v !! (from + p.2 + 1);
        if (cmp x k =? 0)%Z then
          p ← binary_search v (from + p.2 + 1) to k;
          binary_search_last_loop fuel v from to k p
        else Some p
  end.

Definition binary_search_last (fuel : nat) (v : list A) (from to : nat) (k : K)
    : option (bool * nat) :=
  p ← binary_search v from to k;
  if negb p.1 then Some p else binary_search_last_loop fuel v from to k p.

(** ** Specification *)

(** The range is partitioned with respect to the key: first the elements below it, then
    the equal ones, then those above. A sorted range with a matching comparator is. *)
Definition partitioned (v : list A) (from to : nat) (k : K) : Prop :=
  to <= length v /\
  forall i j x y, from <= i -> i < j -> j < to -> v !! i = Some x -> v !! j = Some y ->
    (Z.sgn (cmp x k) <= Z.sgn (cmp y k))%Z.

Definition all_cmp (P : Z -> Prop) (v : list A) (from to : nat) (k : K) : Prop :=
  forall i x, from <= i < to -> v !! i = Some x -> P (cmp x k).

Lemma partitioned_sub (v : list A) (from to from' to' : nat) (k : K) :
  partitioned v from to k -> from <= from' -> to' <= to -> partitioned v from' to' k.
Proof.
  intros [Hl H] Hf Ht. split; [lia|]. intros i j x y ???. apply H; lia.
Qed.

Lemma div2_lt (n : nat) : 0 < n -> Nat.div2 n < n.
Proof. intros. apply Nat.lt_div2. lia. Qed.

Lemma binary_search_loop_spec (fuel : nat) (v : list A) (beg from to from0 to0 : nat) (k : K) :
  to - from < fuel -> partitioned v from0 to0 k -> beg <= from -> from0 <= from -> from <= to ->
  to <= to0 ->
  all_cmp (fun r => r < 0)%Z v from0 from k -> all_cmp (fun r => 0 < r)%Z v to to0 k ->
  exists b pos, binary_search_loop fuel v beg from to k = Some (b, pos) /\
    from <= beg + pos <= to /\
    if b then beg + pos < to /\ all_cmp (fun r => r = 0)%Z v (beg + pos) (beg + pos + 1) k
    else all_cmp (fun r => r < 0)%Z v from0 (beg + pos) k /\
         all_cmp (fun r => 0 < r)%Z v (beg + pos) to0 k.
Proof.
  revert from to; induction fuel as [|fuel IH]; intros from to Hfuel Hp Hb Hf Hft Ht Hlo Hhi;
    [lia|]. cbn [binary_search_loop].
  destruct (Nat.ltb_spec from to) as [Hlt|Hge].
  2: { exists false, (from - beg). replace to with from in * by lia.
       replace (beg + (from - beg)) with from by lia. repeat split; auto; lia. }
  pose proof (div2_lt (to - from) ltac:(lia)) as Hd. set (m := Nat.div2 (to - from)) in *.
  destruct (lookup_lt_is_Some_2 v (from + m)) as [x Hx]; [destruct Hp; lia|].
  rewrite Hx. cbn [mbind option_bind].
  destruct (Z.eqb_spec (cmp x k) 0) as [E|E]; [|destruct (Z.ltb_spec (cmp x k) 0) as [L|L]].
  - exists true, (from - beg + m). replace (beg + (from - beg + m)) with (from + m) by lia.
    repeat split; try lia. intros i y Hi Hy. replace i with (from + m) in Hy by lia. congruence.
  - destruct (IH (from + (m + 1)) to) as (b & pos & HE & Hpos & Hres); auto; try lia.
    { intros i y Hi Hy. destruct (decide (i = from + m)) as [->|]; [congruence|].
      pose proof (proj2 Hp i (from + m) y x ltac:(lia) ltac:(lia) ltac:(lia) Hy Hx). lia. }
    exists b, pos. split; [done|]. split; [lia|done].
  - destruct (IH from (from + m)) as (b & pos & HE & Hpos & Hres); auto; try lia.
    { intros i y Hi Hy. destruct (decide (i = from + m)) as [->|]; [assert (x = y) by congruence; subst; lia|].
      pose proof (proj2 Hp (from + m) i x y ltac:(lia) ltac:(lia) ltac:(lia) Hx Hy). lia. }
    exists b, pos. split; [done|]. split; [lia|]. destruct b; [|done].
    split; [lia|apply Hres].
Qed.

(** What a search promises: [Some (true, pos)] points to an element equal to the key,
    [Some (false, pos)] is the position where it would be inserted. *)
Definition search_result (v : list A) (from to : nat) (k : K) (r : bool * nat) : Prop :=
  let pos := from + r.2 in
  pos <= to /\
  if r.1 then pos < to /\ all_cmp (fun r => r = 0)%Z v pos (pos + 1) k
  else all_cmp (fun r => r < 0)%Z v from pos k /\ all_cmp (fun r => 0 < r)%Z v pos to k.

Lemma binary_search_spec (v : list A) (from to : nat) (k : K) :
  from <= to -> partitioned v from to k ->
  exists r, binary_search v from to k = Some r /\ search_result v from to k r.
Proof.
  intros Hft Hp.
  destruct (binary_search_loop_spec (S (to - from)) v from from to from to k)
    as (b & pos & HE & Hpos & Hr); auto; try (intros ????; lia).
  exists (b, pos). split; [done|]. split; [cbn; lia|]. cbn. by destruct b.
Qed.

Lemma binary_search_first_loop_spec (fuel : nat) (v : list A) (from to : nat) (k : K) (pos : nat) :
  pos < fuel -> from <= to -> partitioned v from to k ->
  search_result v from to k (true, pos) ->
  exists pos', binary_search_first_loop fuel v from k (true, pos) = Some (true, pos') /\
    search_result v from to k (true, pos') /\ all_cmp (fun r => r < 0)%Z v from (from + pos') k.
Proof.
  revert pos; induction fuel as [|fuel IH]; intros pos Hfuel Hft Hp [Hpos [Hlt Heq]]; [lia|].
  cbn in Hpos, Hlt, Heq. cbn [binary_search_first_loop fst snd].
  destruct (Nat.eqb_spec pos 0) as [->|Hn].
  { exists 0. split; [done|]. split; [by split|]. intros ???; lia. }
  destruct (lookup_lt_is_Some_2 v (from + pos)) as [x Hx]; [destruct Hp; lia|].
  destruct (lookup_lt_is_Some_2 v (from + pos - 1)) as [y Hy]; [destruct Hp; lia|].
  rewrite Hy. cbn [mbind option_bind].
  assert (cmp x k = 0)%Z as Hx0 by (apply (Heq (from + pos) x); [lia|done]).
  assert (Z.sgn (cmp y k) <= Z.sgn (cmp x k))%Z as Hyx by (apply (proj2 Hp (from + pos - 1) (from + pos)); auto; lia).
  destruct (Z.eqb_spec (cmp y k) 0) as [E|E].
  - destruct (binary_search_spec v from (from + pos) k) as (r & HE & Hr); [lia|by apply (partitioned_sub _ from to); [|lia|lia]|].
    rewrite HE. cbn [mbind option_bind]. destruct r as [[] q].
    + destruct Hr as [Hq [Hq' Hqe]]. cbn in Hq, Hq', Hqe.
      apply IH; auto; [lia|]. split; [cbn; lia|]. cbn. split; [lia|done].
    + exfalso. destruct Hr as [Hq [Hl Hg]]. cbn in Hq, Hl, Hg.
      destruct (decide (from + pos - 1 < from + q)).
      * specialize (Hl (from + pos - 1) y ltac:(lia) Hy). cbv beta in Hl. lia.
      * specialize (Hg (from + pos - 1) y ltac:(lia) Hy). cbv beta in Hg. lia.
  - exists pos. split; [done|]. split; [by split|]. intros i z Hi Hz.
    destruct (decide (i = from + pos - 1)) as [->|]; [assert (y = z) by congruence; subst; lia|].
    pose proof (proj2 Hp i (from + pos - 1) z y ltac:(lia) ltac:(lia) ltac:(lia) Hz Hy). lia.
Qed.

(** ** Properties of the searches *)

(** [binary_search] terminates without leaving the range, and on a range partitioned by
    the key it either finds an equal element or returns the insertion point. *)
Theorem binary_search_correct (v : list A) (from to : nat) (k : K) :
  from <= to -> partitioned v from to k ->
  exists r, binary_search v from to k = Some r /\ search_result v from to k r.
Proof. apply binary_search_spec. Qed.

(** [binary_search_first] terminates and, when the key occurs, returns its first
    occurrence: the element is equal and every earlier one is below the key. *)
Theorem binary_search_first_correct (v : list A) (from to : nat) (k : K) :
  from <= to -> partitioned v from to k ->
  exists r, binary_search_first v from to k = Some r /\ search_result v from to k r /\
    all_cmp (fun r => r < 0)%Z v from (from + r.2) k.
Proof.
  intros Hft Hp. destruct (binary_search_spec v from to k Hft Hp) as ([[] pos] & E & Hr).
  - unfold binary_search_first. rewrite E. cbn [mbind option_bind negb fst snd].
    destruct (binary_search_first_loop_spec (S pos) v from to k pos) as (p' & -> & ? & ?);
      auto. by exists (true, p').
  - exists (false, pos). unfold binary_search_first. rewrite E. cbn [mbind option_bind negb fst snd].
    split; [done|]. split; [done|]. apply Hr.
Qed.

(** [binary_search_last] agrees with [binary_search] when the element after the one found
    is not equal to the key. *)
Lemma binary_search_last_unique (fuel : nat) (v : list A) (from to : nat) (k : K) (pos : nat) :
  binary_search v from to k = Some (true, pos) ->
  (forall x, v !! (from + pos + 1) = Some x -> cmp x k <> 0%Z) -> to <= length v ->
  from + pos < to -> binary_search_last (S fuel) v from to k = Some (true, pos).
Proof.
  intros E Hne Hl Hlt. unfold binary_search_last. rewrite E.
  cbn [mbind option_bind negb fst snd binary_search_last_loop].
  destruct (Nat.eqb_spec pos (to - from - 1)); [done|].
  destruct (lookup_lt_is_Some_2 v (from + pos + 1)) as [x Hx]; [lia|].
  rewrite Hx. cbn [mbind option_bind]. destruct (Z.eqb_spec (cmp x k) 0); [|done].
  by destruct (Hne x Hx).
Qed.

End Search.

(** ** The basic comparator *)

Definition binary_search_basic_comparator (k1 k2 : Z) : Z :=
  if (k1 <? k2)%Z then (-1)%Z else if (k2 <? k1)%Z then 1%Z else 0%Z.

Lemma basic_partitioned (v : list Z) (k : Z) :
  Sorted Z.le v -> partitioned binary_search_basic_comparator v 0 (length v) k.
Proof.
  intros Hs. split; [done|]. intros i j x y _ Hij Hj Hx Hy.
  assert (x <= y)%Z.
  { apply Sorted_StronglySorted in Hs; [|intros ???; lia]. clear Hj. revert i j Hij Hx Hy.
    induction Hs as [|a v Hs IH Ha]; intros [|i] [|j] Hij Hx Hy; simplify_eq/=; try lia.
    - rewrite Forall_lookup in Ha. by apply (Ha j).
    - apply (IH i j); auto. lia. }
  unfold binary_search_basic_comparator. case_Z; cbn; lia.
Qed.

Lemma binary_search_correct_witness :
  exists r, binary_search binary_search_basic_comparator [1; 4; 9]%Z 0 3 5%Z = Some r /\
            search_result binary_search_basic_comparator [1; 4; 9]%Z 0 3 5%Z r.
Proof.
  apply (binary_search_correct binary_search_basic_comparator [1; 4; 9]%Z 0 3 5%Z); [lia|].
  apply (basic_partitioned [1; 4; 9]%Z). repeat constructor; lia.
Defined.

Lemma binary_search_first_correct_witness :
  exists r, binary_search_first binary_search_basic_comparator [2; 4; 4; 4; 9]%Z 0 5 4%Z = Some r.
Proof.
  destruct (binary_search_first_correct binary_search_basic_comparator [2; 4; 4; 4; 9]%Z 0 5 4%Z)
    as (r & H & _); [lia| |exists r; exact H].
  apply (basic_partitioned [2; 4; 4; 4; 9]%Z). repeat constructor; lia.
Defined.

(** [binary_search_last] does not terminate on a range that holds the key three times:
    the inner search returns a position relative to its own start, which the loop then
    uses as a position in the whole range, and it cycles. No fuel is enough. *)
Theorem binary_search_last_diverges (fuel : nat) :
  binary_search_last binary_search_basic_comparator fuel [7; 7; 7]%Z 0 3 7%Z = None.
Proof.
  unfold binary_search_last. cbn [mbind option_bind].
  change (binary_search _ _ _ _ _) with (Some (true, 1)). cbn [negb fst].
  cut (forall p, p = 0 \/ p = 1 ->
    binary_search_last_loop binary_search_basic_comparator fuel [7; 7; 7]%Z 0 3 7%Z (true, p) = None).
  { intros H. apply H. auto. }
  induction fuel as [|fuel IH]; intros p [->| ->]; [done|done|apply (IH 1)|apply (IH 0)]; auto.
Qed.

(** ** [find_cmp] *)

Section FindCmp.
Context {A : Type} (cmp : A -> A -> bool).

(** [find_cmp] over a range of [n] elements (a template parameter of the source) that
    starts at [it]; the recursion halves [n]. *)
Fixpoint find_cmp (fuel : nat) (v : list A) (it n : nat) : option nat :=
  match fuel with
  | O => None
  | S fuel =>
      if n =? 1 then Some 0
      else if n =? 2 then
        x ← v !! it;
        y ← v !! (it + 1);
        Some (if cmp x y then 0 else 1)
      else
        off1 ← find_cmp fuel v it (n / 2);
        off2 ← find_cmp fuel v (it + n / 2) (n - n / 2);
        let off2 := off2 + n / 2 in
        x ← v !! (it + off1);
        y ← v !! (it + off2);
        Some (if cmp x y then off1 else off2)
  end.

Context (le : A -> A -> Prop) (le_refl : forall x, le x x)
  (le_trans : forall x y z, le x y -> le y z -> le x z)
  (cmp_true : forall x y, cmp x y = true -> le x y)
  (cmp_false : forall x y, cmp x y = false -> le y x).

Lemma find_cmp_spec (fuel : nat) (v : list A) (it n : nat) :
  n <= fuel -> 1 <= n -> it + n <= length v ->
  exists off x, find_cmp fuel v it n = Some off /\ off < n /\ v !! (it + off) = Some x /\
    forall j y, j < n -> v !! (it + j) = Some y -> le x y.
Proof using cmp_false cmp_true le_refl le_trans.
  revert it n; induction fuel as [|fuel IH]; intros it n Hf Hn Hl; [lia|]. cbn [find_cmp].
  destruct (Nat.eqb_spec n 1) as [->|H1].
  { destruct (lookup_lt_is_Some_2 v it) as [x Hx]; [lia|].
    exists 0, x. rewrite Nat.add_0_r. repeat split; auto. intros j y Hj Hy.
    replace (it + j) with it in Hy by lia. replace y with x by congruence. apply le_refl. }
  destruct (Nat.eqb_spec n 2) as [->|H2].
  - destruct (lookup_lt_is_Some_2 v it) as [x Hx]; [lia|].
    destruct (lookup_lt_is_Some_2 v (it + 1)) as [y Hy]; [lia|].
    rewrite Hx, Hy. cbn [mbind option_bind]. destruct (cmp x y) eqn:E;
      [exists 0, x; rewrite Nat.add_0_r|exists 1, y]; (repeat split; auto; try lia);
      intros j z Hj Hz; (assert (j = 0 \/ j = 1) as [->| ->] by lia);
      rewrite ?Nat.add_0_r in Hz; simplify_eq; auto.
  - assert (1 <= n / 2 /\ n / 2 < n) as [Hd1 Hd2].
    { split; [apply Nat.div_le_lower_bound|apply Nat.div_lt]; lia. }
    destruct (IH it (n / 2)) as (o1 & x & -> & Ho1 & Hx & Hmin1); [lia..|].
    destruct (IH (it + n / 2) (n - n / 2)) as (o2 & y & -> & Ho2 & Hy & Hmin2); [lia..|].
    cbn [mbind option_bind]. rewrite Hx.
    replace (it + (o2 + n / 2)) with (it + n / 2 + o2) by lia. rewrite Hy.
    cbn [mbind option_bind]. destruct (cmp x y) eqn:E;
      [exists o1, x|exists (o2 + n / 2), y; replace (it + (o2 + n / 2)) with (it + n / 2 + o2) by lia];
      (repeat split; auto; try lia); intros j z Hj Hz;
      (destruct (decide (j < n / 2)); [|assert (le y z) by
         (apply (Hmin2 (j - n / 2)); [lia|by replace (it + n / 2 + (j - n / 2)) with (it + j) by lia])]);
      eauto.
Qed.

End FindCmp.

(** [find_cmp] returns the position of a least element of the range, for every
    comparison on an integer key. *)
Theorem find_cmp_least (v : list Z) (n : nat) :
  1 <= n <= length v ->
  exists off x, find_cmp Z.ltb n v 0 n = Some off /\ off < n /\ v !! off = Some x /\
    forall j y, j < n -> v !! j = Some y -> (x <= y)%Z.
Proof.
  intros Hn. destruct (find_cmp_spec Z.ltb Z.le ltac:(lia) ltac:(lia) ltac:(lia) ltac:(lia) n v 0 n)
    as (off & x & H); [lia..|]. exists off, x. exact H.
Qed.

Lemma find_cmp_least_witness :
  exists off x, find_cmp Z.ltb 5 [8; 3; 6; 2; 7]%Z 0 5 = Some off /\ off < 5 /\
    [8; 3; 6; 2; 7]%Z !! off = Some x.
Proof.
  destruct (find_cmp_least [8; 3; 6; 2; 7]%Z 5) as (off & x & H1 & H2 & H3 & _); [cbn; lia|].
  by exists off, x.
Defined.

End Search.
