(* ===== verification/MemoryFile.v ===== *)
(** * Files in memory

    solid/utility/memoryfile.hpp and src/memoryfile.cpp: a file kept in buffers of equal size,
    allocated when they are first written to and found with [binary_search] (Search.v). The
    buffers come from [BasicAllocator]; what a new buffer holds is a parameter. A buffer belongs
    to one [Buffer], so the model keeps its bytes in place of the pointer. *)

From stdpp Require Import list sorting.
From S2P Require Import Prelude Search.
#[local] Set Warnings "-clear-no-such-hyp".
#[local] Set Default Proof Using "Type".
#[local] Open Scope res_scope.
#[local] Open Scope Z_scope.

Module MemoryFile.

Record Buffer := mkBuffer { idx : Z; data : list Z }.

Record MemoryFile := mkMemoryFile {
  cp : Z;
  sz : Z;
  off : Z;
  crtbuffidx : Z;
  bv : list Buffer
}.

Definition with_bv (f : MemoryFile) (v : list Buffer) : MemoryFile := mkMemoryFile (cp f) (sz f) (off f) (crtbuffidx f) v.
Definition with_crt (f : MemoryFile) (i : Z) : MemoryFile := mkMemoryFile (cp f) (sz f) (off f) i (bv f).
Definition with_sz (f : MemoryFile) (x : Z) : MemoryFile := mkMemoryFile (cp f) x (off f) (crtbuffidx f) (bv f).
Definition with_off (f : MemoryFile) (x : Z) : MemoryFile := mkMemoryFile (cp f) (sz f) x (crtbuffidx f) (bv f).

Inductive SeekRef := SeekBeg | SeekCur | SeekEnd.

(** [std::numeric_limits<int64_t>::max()] *)
Definition int64_max : Z := 2 ^ 63 - 1.

(** [BuffCmp] *)
Definition BuffCmp (_k1 : Buffer) (_k2 : Z) : Z :=
  if idx _k1 <? _k2 then -1 else if _k2 <? idx _k1 then 1 else 0.

(** ** The buffers as a map from indices to bytes *)

Fixpoint find_buf (v : list Buffer) (i : Z) : option (list Z) :=
  match v with
  | [] => None
  | b :: v => if idx b =? i then Some (data b) else find_buf v i
  end.

Lemma find_buf_app (l1 l2 : list Buffer) (i : Z) :
  find_buf (l1 ++ l2) i = match find_buf l1 i with Some d => Some d | None => find_buf l2 i end.
Proof. induction l1 as [|b l1 IH]; cbn; [done|]. by destruct (idx b =? i). Qed.

Lemma find_buf_none (v : list Buffer) (i : Z) : (i ∉ idx <$> v) -> find_buf v i = None.
Proof.
  induction v as [|b v IH]; cbn; [done|]. rewrite not_elem_of_cons. intros [??].
  destruct (Z.eqb_spec (idx b) i); [by subst|auto].
Qed.

Lemma find_buf_some (v : list Buffer) (i : Z) d : find_buf v i = Some d -> mkBuffer i d ∈ v.
Proof.
  induction v as [|[j x] v IH]; cbn; [done|]. destruct (Z.eqb_spec j i); intros E.
  - simplify_eq. left.
  - right. auto.
Qed.

Lemma sorted_split (l1 l2 : list Buffer) (b : Buffer) :
  StronglySorted Z.lt (idx <$> (l1 ++ b :: l2)) ->
  (forall x, x ∈ idx <$> l1 -> x < idx b) /\ (forall x, x ∈ idx <$> l2 -> idx b < x) /\
  StronglySorted Z.lt (idx <$> (l1 ++ l2)).
Proof.
  rewrite !fmap_app, fmap_cons. rewrite !StronglySorted_app, StronglySorted_cons, Forall_forall.
  set_solver.
Qed.

(** What is found after a buffer is replaced or inserted. *)
Lemma find_buf_mid (l1 l2 : list Buffer) (b : Buffer) (i : Z) :
  StronglySorted Z.lt (idx <$> (l1 ++ b :: l2)) ->
  find_buf (l1 ++ b :: l2) i = if i =? idx b then Some (data b) else find_buf (l1 ++ l2) i.
Proof.
  intros (H1 & H2 & _)%sorted_split. rewrite !find_buf_app. cbn [find_buf].
  destruct (Z.eqb_spec i (idx b)) as [->|Hn].
  - rewrite find_buf_none, Z.eqb_refl; [done|]. intros ?%H1. lia.
  - by rewrite (proj2 (Z.eqb_neq (idx b) i)) by congruence.
Qed.

Lemma sorted_lookup (v : list Buffer) (i j : nat) x y :
  StronglySorted Z.lt (idx <$> v) -> (i < j)%nat -> v !! i = Some x -> v !! j = Some y -> idx x < idx y.
Proof.
  intros Hs Hij Hx Hy. rewrite <- (take_drop_middle v i x Hx) in Hs.
  apply sorted_split in Hs as (_ & H2 & _). apply H2, list_elem_of_fmap. exists y.
  split; [done|]. apply list_elem_of_lookup. exists (j - S i)%nat. rewrite lookup_drop.
  by replace (S i + (j - S i))%nat with j by lia.
Qed.

(** [bufsz] is the size of a buffer; [uninit] is what a new buffer holds. *)
Section Ops.
Context (bufsz : Z) (uninit : list Buffer -> list Z).

(** [BasicAllocator::computeCapacity], over [uint64_t] *)
Definition computeCapacity (_cp : Z) : Z := wrap 64 ((_cp / bufsz + 1) * bufsz).

Definition compute_capacity (_cp : Z) : Z :=
  if (_cp <=? 0) || (_cp =? int64_max) then int64_max
  else
    let _cp := signed 64 (computeCapacity _cp) in
    if (_cp <=? 0) || (_cp =? int64_max) then int64_max else _cp.

Definition MemoryFile_new (_cp : Z) : MemoryFile := mkMemoryFile (compute_capacity _cp) 0 0 (wrap 32 (-1)) [].

Definition size (f : MemoryFile) : Z := sz f.
Definition capacity (f : MemoryFile) : Z := cp f.

Definition doFindBuffer (f : MemoryFile) (_idx : Z) : res (bool * nat) :=
  of_option (Search.binary_search BuffCmp (bv f) 0 (length (bv f)) _idx).

Definition doLocateBuffer (f : MemoryFile) (_idx : Z) : res (MemoryFile * (bool * nat)) :=
  let n := length (bv f) in
  if match last (bv f) with None => true | Some b => idx b <? _idx end then
    Done (with_crt f (wrap 32 (Z.of_nat n)), (false, n))
  else
    let find :=
      let! pos := doFindBuffer f _idx in
      Done (with_crt f (wrap 32 (Z.of_nat pos.2)), pos) in
    if crtbuffidx f <? Z.of_nat n then
      let! b := vec_get (bv f) (crtbuffidx f) in
      if idx b =? _idx then Done (f, (true, Z.to_nat (crtbuffidx f)))
      else
        let nextidx := signed 32 (crtbuffidx f + 1) in
        if wrap 32 nextidx <? Z.of_nat n then
          let! b := vec_get (bv f) nextidx in
          if idx b =? _idx then
            let f := with_crt f (wrap 32 nextidx) in
            Done (f, (true, Z.to_nat (crtbuffidx f)))
          else find
        else find
    else find.

(** The buffer, or a null pointer. *)
Definition doGetBuffer (f : MemoryFile) (_idx : Z) : res (MemoryFile * option (list Z)) :=
  let! x := doLocateBuffer f _idx in
  let '(f, pos) := x in
  if pos.1 : bool then
    let! b := vec_get (bv f) (Z.of_nat pos.2) in
    Done (f, Some (data b))
  else Done (f, None).

(** The position of the buffer in [bv], or a null pointer; and [_created]. *)
Definition doCreateBuffer (f : MemoryFile) (_idx : Z) : res (MemoryFile * option nat * bool) :=
  let! x := doLocateBuffer f _idx in
  let '(f, pos) := x in
  if pos.1 : bool then Done (f, Some pos.2, false)
  else if cp f <? Z.of_nat (length (bv f)) * bufsz + bufsz then Done (f, None, false)
  else
    let b := mkBuffer _idx (uninit (bv f)) in
    Done (with_bv f (take pos.2 (bv f) ++ b :: drop pos.2 (bv f)), Some pos.2, true).

(** [memcpy] and [memset] on a buffer, and reading it *)
Definition splice (d : list Z) (at_ : Z) (x : list Z) : res (list Z) :=
  if bool_decide (0 <= at_ /\ at_ + Z.of_nat (length x) <= Z.of_nat (length d)) then
    Done (take (Z.to_nat at_) d ++ x ++ drop (Z.to_nat at_ + length x) d)
  else Undef.

Definition slice (d : list Z) (at_ n : Z) : res (list Z) :=
  if bool_decide (0 <= at_ /\ 0 <= n /\ at_ + n <= Z.of_nat (length d)) then
    Done (take (Z.to_nat n) (drop (Z.to_nat at_) d))
  else Undef.

Fixpoint read_loop (fuel : nat) (f : MemoryFile) (_bl buffidx buffoff rd : Z) (out : list Z) : res (MemoryFile * Z * list Z) :=
  if _bl =? 0 then Done (f, rd, out)
  else
    match fuel with
    | O => NoFuel
    | S fuel =>
        let! x := doGetBuffer f buffidx in
        let '(f, bf) := x in
        let tocopy := wrap 32 (bufsz - buffoff) in
        let tocopy := if _bl <? tocopy then _bl else tocopy in
        let! d :=
          match bf with
          | None => Done (replicate (Z.to_nat tocopy) 0)
          | Some bf => slice bf buffoff tocopy
          end in
        let rd := signed 32 (rd + tocopy) in
        let _bl := _bl - tocopy in
        read_loop fuel f _bl (if negb (_bl =? 0) then wrap 32 (buffidx + 1) else buffidx) 0 rd (out ++ d)
    end.

(** [read] at an offset: the result, and what is written to [_pb]. *)
Definition read_at (f : MemoryFile) (_bl _off : Z) : res (MemoryFile * Z * list Z) :=
  let buffidx := wrap 32 (Z.quot _off bufsz) in
  let buffoff := wrap 32 (Z.rem _off bufsz) in
  if sz f <=? _off then Done (f, -1, [])
  else
    let _bl := if sz f <? _off + _bl then wrap 32 (sz f - _off) else _bl in
    read_loop (Z.to_nat _bl) f _bl buffidx buffoff 0 [].

(** The copy of a turn of the loop of [write] to the buffer at [pos]. *)
Definition write_buffer (f : MemoryFile) (pos : nat) (created : bool) (buffoff tocopy : Z) (_pb : list Z) : res MemoryFile :=
  let! b := vec_get (bv f) (Z.of_nat pos) in
  let! d :=
    (if created then
       let! d := splice (data b) 0 (replicate (Z.to_nat buffoff) 0) in
       splice d (buffoff + tocopy) (replicate (Z.to_nat (wrap 32 (bufsz - buffoff - tocopy))) 0)
     else Done (data b)) in
  let! x := slice _pb 0 tocopy in
  let! d := splice d buffoff x in
  let! v := vec_set (bv f) (Z.of_nat pos) (mkBuffer (idx b) d) in
  Done (with_bv f v).

Fixpoint write_loop (fuel : nat) (f : MemoryFile) (_pb : list Z) (_bl buffidx buffoff wd : Z) : res (MemoryFile * Z * Z) :=
  if _bl =? 0 then Done (f, _bl, wd)
  else
    match fuel with
    | O => NoFuel
    | S fuel =>
        let! x := doCreateBuffer f buffidx in
        let '(f, bf, created) := x in
        match bf with
        | None => Done (f, _bl, wd)
        | Some pos =>
            let tocopy := wrap 32 (bufsz - buffoff) in
            let tocopy := if _bl <? tocopy then _bl else tocopy in
            let! f := write_buffer f pos created buffoff tocopy _pb in
            let wd := signed 32 (wd + tocopy) in
            let _bl := _bl - tocopy in
            write_loop fuel f (drop (Z.to_nat tocopy) _pb) _bl (if negb (_bl =? 0) then wrap 32 (buffidx + 1) else buffidx) 0 wd
        end
    end.

Definition write_at (f : MemoryFile) (_pb : list Z) (_bl _off : Z) : res (MemoryFile * Z) :=
  let buffidx := wrap 32 (Z.quot _off bufsz) in
  let buffoff := wrap 32 (Z.rem _off bufsz) in
  let! x := write_loop (Z.to_nat _bl) f _pb _bl buffidx buffoff 0 in
  let '(f, _bl, wd) := x in
  if negb (_bl =? 0) && (wd =? 0) then Done (f, -1)
  else Done (if sz f <? _off + wd then with_sz f (_off + wd) else f, wd).

(** [read] and [write] at the cursor *)
Definition read (f : MemoryFile) (_bl : Z) : res (MemoryFile * Z * list Z) :=
  let! x := read_at f _bl (off f) in
  let '(f, rv, d) := x in
  Done (if 0 <? rv then with_off f (off f + rv) else f, rv, d).

Definition write (f : MemoryFile) (_pb : list Z) (_bl : Z) : res (MemoryFile * Z) :=
  let! x := write_at f _pb _bl (off f) in
  let '(f, rv) := x in
  Done (if 0 <? rv then with_off f (off f + rv) else f, rv).

Definition seek (f : MemoryFile) (_pos : Z) (_ref : SeekRef) : MemoryFile * Z :=
  match _ref with
  | SeekBeg => if cp f <=? _pos then (f, -1) else (with_off f _pos, _pos)
  | SeekCur => if cp f <? off f + _pos then (f, -1) else (with_off f (off f + _pos), off f + _pos)
  | SeekEnd => if cp f <? sz f + _pos then (f, -1) else (with_off f (sz f + _pos), sz f + _pos)
  end.

Definition truncate (f : MemoryFile) (_len : Z) : MemoryFile * Z :=
  (mkMemoryFile (cp f) 0 0 (wrap 32 (-1)) [], -1).


(** ** The file as bytes *)

(** The byte at a position: a buffer never written holds zeros. *)
Definition byte_at (f : MemoryFile) (p : Z) : Z :=
  match find_buf (bv f) (p / bufsz) with
  | Some d => d !!! Z.to_nat (p mod bufsz)
  | None => 0
  end.

Definition content (f : MemoryFile) : list Z := byte_at f <$> seqZ 0 (sz f).

(** Indices stay below [2^31], where [int nextidx] does not overflow. *)
Definition max_idx : Z := 2 ^ 31.

Record bwf (f : MemoryFile) : Prop := {
  bwf_sorted : StronglySorted Z.lt (idx <$> bv f);
  bwf_buf : Forall (fun b => 0 <= idx b < max_idx /\ Z.of_nat (length (data b)) = bufsz) (bv f);
  bwf_crt : 0 <= crtbuffidx f < 2 ^ 32;
  bwf_cap : Z.of_nat (length (bv f)) * bufsz <= cp f
}.

Lemma bwf_lookup (f : MemoryFile) (j : nat) x :
  bwf f -> bv f !! j = Some x -> Z.of_nat j <= idx x < max_idx /\ Z.of_nat (length (data x)) = bufsz.
Proof.
  intros Hw. revert x. induction j as [|j IH]; intros x Hx;
    pose proof (Forall_lookup_1 _ _ _ _ (bwf_buf f Hw) Hx) as Hb; cbv beta in Hb; [lia|].
  destruct (lookup_lt_is_Some_2 (bv f) j) as [y Hy]; [apply lookup_lt_Some in Hx; lia|].
  specialize (IH y Hy). pose proof (sorted_lookup _ j (S j) y x (bwf_sorted f Hw) ltac:(lia) Hy Hx). lia.
Qed.

Lemma bwf_length (f : MemoryFile) : bwf f -> Z.of_nat (length (bv f)) <= max_idx.
Proof.
  intros Hw. destruct (decide (length (bv f) = 0)%nat) as [E|E]; [rewrite E; unfold max_idx; lia|].
  destruct (lookup_lt_is_Some_2 (bv f) (length (bv f) - 1)) as [y Hy]; [lia|].
  pose proof (bwf_lookup f _ y Hw Hy). lia.
Qed.

Lemma bwf_partitioned (f : MemoryFile) (i : Z) :
  bwf f -> Search.partitioned BuffCmp (bv f) 0 (length (bv f)) i.
Proof.
  intros Hw. split; [done|]. intros j k x y _ Hjk _ Hx Hy.
  pose proof (sorted_lookup _ j k x y (bwf_sorted f Hw) Hjk Hx Hy). unfold BuffCmp.
  repeat (case_match; rewrite ?Z.ltb_lt, ?Z.ltb_ge in *); lia.
Qed.

Lemma bwf_with_crt (f : MemoryFile) (i : Z) : bwf f -> 0 <= i < 2 ^ 32 -> bwf (with_crt f i).
Proof. intros []; by split. Qed.

(** ** Locating a buffer *)

(** The buffer of index [i] is at [pos], or it would have to be inserted there. *)
Definition located (v : list Buffer) (i : Z) (r : bool * nat) : Prop :=
  if r.1 then exists b, v !! r.2 = Some b /\ idx b = i
  else (r.2 <= length v)%nat /\ (forall x, x ∈ take r.2 v -> idx x < i) /\ (forall x, x ∈ drop r.2 v -> i < idx x).

Lemma doFindBuffer_spec (f : MemoryFile) (i : Z) :
  bwf f -> exists r, doFindBuffer f i = Done r /\ located (bv f) i r /\ (r.2 <= length (bv f))%nat.
Proof.
  intros Hw. unfold doFindBuffer.
  destruct (Search.binary_search_spec BuffCmp (bv f) 0 (length (bv f)) i) as ([b pos] & -> & Hr);
    [lia|by apply bwf_partitioned|].
  exists (b, pos). split; [done|]. destruct Hr as [Hp Hr]. cbn in Hp, Hr. split; [|done].
  unfold located, Search.all_cmp, BuffCmp in *. destruct b; cbn [fst snd] in *.
  - destruct Hr as [Hlt Hr]. destruct (lookup_lt_is_Some_2 (bv f) pos Hlt) as [x Hx]. exists x. split; [done|].
    specialize (Hr pos x ltac:(lia) Hx). repeat (case_match; rewrite ?Z.ltb_lt, ?Z.ltb_ge in *); lia.
  - destruct Hr as [Hl Hg]. split; [done|]. split; intros x (j & Hx)%list_elem_of_lookup.
    + pose proof (lookup_lt_Some _ _ _ Hx) as Hj. rewrite length_take in Hj.
      rewrite lookup_take_lt in Hx by lia. specialize (Hl j x ltac:(lia) Hx).
      repeat (case_match; rewrite ?Z.ltb_lt, ?Z.ltb_ge in *); lia.
    + rewrite lookup_drop in Hx. pose proof (lookup_lt_Some _ _ _ Hx).
      specialize (Hg (pos + j)%nat x ltac:(lia) Hx).
      repeat (case_match; rewrite ?Z.ltb_lt, ?Z.ltb_ge in *); lia.
Qed.

(** The two guesses of [doLocateBuffer], and the search when they fail, agree with the map. *)
Lemma doLocateBuffer_spec (f : MemoryFile) (i : Z) :
  bwf f -> exists c r, doLocateBuffer f i = Done (with_crt f c, r) /\ 0 <= c < 2 ^ 32 /\ located (bv f) i r.
Proof.
  intros Hw. pose proof (bwf_length f Hw) as Hn. pose proof (bwf_crt f Hw) as Hc. unfold max_idx in Hn.
  assert (forall n, (n <= length (bv f))%nat -> wrap 32 (Z.of_nat n) = Z.of_nat n) as Hwr.
  { intros n ?. apply wrap_small. unfold in_range. lia. }
  assert (exists c r, (let! pos := doFindBuffer f i in Done (with_crt f (wrap 32 (Z.of_nat pos.2)), pos))
    = Done (with_crt f c, r) /\ 0 <= c < 2 ^ 32 /\ located (bv f) i r) as Hfind.
  { destruct (doFindBuffer_spec f i Hw) as (r & -> & Hr & Hl). cbn [res_bind].
    exists (wrap 32 (Z.of_nat r.2)), r. rewrite Hwr by done. split_and!; [done|lia..|done]. }
  unfold doLocateBuffer. destruct (last (bv f)) as [b|] eqn:El; [destruct (Z.ltb_spec (idx b) i) as [Hlt|Hge]|].
  - exists (wrap 32 (Z.of_nat (length (bv f)))), (false, length (bv f)). rewrite Hwr by done.
    split_and!; [done|lia..|]. unfold located; cbn. split; [done|]. rewrite take_ge, drop_ge by done.
    split; [|set_solver]. intros x (j & Hx)%list_elem_of_lookup. rewrite last_lookup in El.
    pose proof (lookup_lt_Some _ _ _ Hx). destruct (decide (j = pred (length (bv f)))) as [->|].
    + by assert (x = b) as -> by congruence.
    + pose proof (sorted_lookup _ j (pred (length (bv f))) x b (bwf_sorted f Hw) ltac:(lia) Hx El). lia.
  - destruct (Z.ltb_spec (crtbuffidx f) (Z.of_nat (length (bv f)))) as [Hlt|]; [|done].
    destruct (vec_get_in (bv f) (crtbuffidx f)) as (x & -> & Hx); [lia|]. cbn [res_bind].
    destruct (Z.eqb_spec (idx x) i) as [E|_].
    { exists (crtbuffidx f), (true, Z.to_nat (crtbuffidx f)). split_and!; [by destruct f|lia..|]. by exists x. }
    destruct (decide (crtbuffidx f + 1 < 2 ^ 31)) as [Hs|Hs].
    + rewrite signed_small by lia. rewrite wrap_small by (unfold in_range; lia).
      destruct (Z.ltb_spec (crtbuffidx f + 1) (Z.of_nat (length (bv f)))) as [Hlt'|]; [|done].
      destruct (vec_get_in (bv f) (crtbuffidx f + 1)) as (y & -> & Hy); [lia|]. cbn [res_bind].
      destruct (Z.eqb_spec (idx y) i) as [E|_]; [|done].
      exists (crtbuffidx f + 1), (true, Z.to_nat (crtbuffidx f + 1)). split_and!; [done|lia..|]. by exists y.
    + assert (crtbuffidx f + 1 = 2 ^ 31) as -> by lia. change (wrap 32 (signed 32 (2 ^ 31))) with (2 ^ 31).
      destruct (Z.ltb_spec (2 ^ 31) (Z.of_nat (length (bv f)))); [lia|done].
  - rewrite last_None in El. exists (wrap 32 (Z.of_nat (length (bv f)))), (false, length (bv f)).
    rewrite Hwr by done. split_and!; [done|lia..|]. rewrite El. unfold located; cbn. split; [done|]. set_solver.
Qed.

(** ** One buffer *)

Context (Hsz : 1 <= bufsz < 2 ^ 32) (Hun : forall v, Z.of_nat (length (uninit v)) = bufsz).

Lemma located_none (v : list Buffer) (i : Z) (pos : nat) : located v i (false, pos) -> (i ∉ idx <$> v).
Proof.
  intros (Hp & H1 & H2). cbn [snd] in *. rewrite <- (take_drop pos v), fmap_app.
  intros [(x & -> & ?%H1)%list_elem_of_fmap|(x & -> & ?%H2)%list_elem_of_fmap]%elem_of_app; lia.
Qed.

Lemma doGetBuffer_spec (f : MemoryFile) (i : Z) :
  bwf f -> exists c, doGetBuffer f i = Done (with_crt f c, find_buf (bv f) i) /\ 0 <= c < 2 ^ 32.
Proof.
  intros Hw. unfold doGetBuffer. destruct (doLocateBuffer_spec f i Hw) as (c & [[] pos] & -> & Hc & Hl);
    exists c; (split; [|done]); cbn [res_bind fst snd with_crt bv].
  - destruct Hl as (b & Hb & <-). cbn [snd] in Hb.
    rewrite (proj2 (vec_get_done (bv f) (Z.of_nat pos) b)) by (rewrite Nat2Z.id; auto with lia).
    cbn [res_bind]. do 2 f_equal. pose proof (bwf_sorted f Hw) as Hs.
    rewrite <- (take_drop_middle _ _ _ Hb) in Hs |- *. by rewrite find_buf_mid, Z.eqb_refl by done.
  - rewrite find_buf_none; [done|by eapply located_none].
Qed.

(** The outcome of [doCreateBuffer]: the capacity is used up, or the buffer is in place. *)
Definition created_at (f : MemoryFile) (i : Z) (r : MemoryFile * option nat * bool) : Prop :=
  let '(f', bf, created) := r in
  match bf with
  | None => bwf f' /\ (exists c, f' = with_crt f c) /\ cp f < (Z.of_nat (length (bv f)) + 1) * bufsz /\ (i ∉ idx <$> bv f)
  | Some pos => exists l1 d l2 c, pos = length l1 /\ f' = with_bv (with_crt f c) (l1 ++ mkBuffer i d :: l2) /\ bwf f' /\
      bv f = l1 ++ (if created then [] else [mkBuffer i d]) ++ l2 /\
      (created = true -> find_buf (bv f) i = None)
  end.

Lemma doCreateBuffer_spec (f : MemoryFile) (i : Z) :
  bwf f -> 0 <= i < max_idx -> exists r, doCreateBuffer f i = Done r /\ created_at f i r.
Proof using Hsz Hun.
  intros Hw Hi. unfold doCreateBuffer.
  destruct (doLocateBuffer_spec f i Hw) as (c & [[] pos] & -> & Hc & Hl);
    cbn [res_bind fst snd with_crt bv cp].
  - eexists; split; [reflexivity|]. destruct Hl as ([j d] & Hb & E). cbn in Hb, E. subst j. exists (take pos (bv f)), d, (drop (S pos) (bv f)), c.
    rewrite take_drop_middle by done. split_and!; [|done|by apply bwf_with_crt|by symmetry; apply take_drop_middle|done].
    rewrite length_take_le; [done|]. apply lookup_lt_Some in Hb. lia.
  - pose proof (located_none _ _ _ Hl) as Hni. destruct Hl as (Hp & H1 & H2). cbn [snd] in *.
    destruct (Z.ltb_spec (cp f) (Z.of_nat (length (bv f)) * bufsz + bufsz)); (eexists; split; [reflexivity|]).
    { split_and!; [by apply bwf_with_crt|by eexists|lia|done]. }
    assert (forall x, x ∈ idx <$> take pos (bv f) -> x < i) as H1'.
    { by intros x (y & -> & ?%H1)%list_elem_of_fmap. }
    assert (forall x, x ∈ idx <$> drop pos (bv f) -> i < x) as H2'.
    { by intros x (y & -> & ?%H2)%list_elem_of_fmap. }
    exists (take pos (bv f)), (uninit (bv f)), (drop pos (bv f)), c.
    rewrite length_take_le by done. split_and!; [done|done| |by symmetry; apply take_drop|].
    + destruct Hw as [Hs Hb _ Hcp]. rewrite <- (take_drop pos (bv f)) in Hs, Hb. rewrite fmap_app in Hs.
      apply StronglySorted_app in Hs as (H12 & Hs1 & Hs2). apply Forall_app in Hb as [Hb1 Hb2]. split.
      * cbn [bv with_bv]. rewrite fmap_app, fmap_cons, StronglySorted_app, StronglySorted_cons, Forall_forall.
        split_and!; [|done|done|done]. cbn [idx]. intros x y Hx [->|Hy]%elem_of_cons; auto.
      * cbn [bv with_bv]. apply Forall_app. split; [done|]. constructor; [|done]. by cbn [idx data].
      * done.
      * cbn [bv with_bv with_crt cp]. rewrite length_app, length_cons, length_take_le, length_drop by done.
        replace (pos + S (length (bv f) - pos))%nat with (S (length (bv f))) by lia. lia.
    + intros _. by apply find_buf_none.
Qed.

Lemma splice_spec (d x : list Z) (a : Z) :
  0 <= a -> a + Z.of_nat (length x) <= Z.of_nat (length d) ->
  exists d', splice d a x = Done d' /\ length d' = length d /\
    forall k, 0 <= k -> d' !!! Z.to_nat k =
      if decide (a <= k < a + Z.of_nat (length x)) then x !!! Z.to_nat (k - a) else d !!! Z.to_nat k.
Proof.
  intros Ha Hl. unfold splice. rewrite bool_decide_eq_true_2 by done. eexists; split; [done|]. split.
  { rewrite !length_app, length_take, length_drop. lia. }
  intros k Hk. case_decide as Hd; rewrite !list_lookup_total_alt; f_equal.
  - rewrite lookup_app_r by (rewrite length_take; lia). rewrite length_take, lookup_app_l by lia.
    f_equal. lia.
  - destruct (decide (k < a)).
    + rewrite lookup_app_l by (rewrite length_take; lia). by rewrite lookup_take_lt by lia.
    + rewrite lookup_app_r by (rewrite length_take; lia). rewrite length_take, lookup_app_r by lia.
      rewrite lookup_drop. f_equal. lia.
Qed.

Lemma replicate_zero (n : nat) (k : Z) : 0 <= k < Z.of_nat n -> replicate n 0 !!! Z.to_nat k = 0.
Proof. intros. apply lookup_total_replicate_2. lia. Qed.

Lemma slice_spec (d : list Z) (a n : Z) :
  0 <= a -> 0 <= n -> a + n <= Z.of_nat (length d) ->
  exists x, slice d a n = Done x /\ Z.of_nat (length x) = n /\
    forall k, 0 <= k < n -> x !!! Z.to_nat k = d !!! Z.to_nat (a + k).
Proof.
  intros. unfold slice. rewrite bool_decide_eq_true_2 by done. eexists; split; [done|]. split.
  { rewrite length_take, length_drop. lia. }
  intros k Hk. rewrite !list_lookup_total_alt, lookup_take_lt, lookup_drop by lia. do 2 f_equal. lia.
Qed.

(** ** Reading and writing within one buffer *)

(** The bytes of a buffer after [n] bytes of [pb] are copied to offset [o]. *)
Definition copied (d d' pb : list Z) (created : bool) (o n : Z) : Prop :=
  Z.of_nat (length d') = bufsz /\
  forall k, 0 <= k < bufsz -> d' !!! Z.to_nat k =
    if decide (o <= k < o + n) then pb !!! Z.to_nat (k - o) else if created then 0 else d !!! Z.to_nat k.

Lemma new_buffer_spec (d : list Z) (created : bool) (o n : Z) :
  Z.of_nat (length d) = bufsz -> 0 <= o -> 0 <= n -> o + n <= bufsz ->
  exists d', (if created then
       let! d := splice d 0 (replicate (Z.to_nat o) 0) in
       splice d (o + n) (replicate (Z.to_nat (wrap 32 (bufsz - o - n))) 0)
     else Done d) = Done d' /\ Z.of_nat (length d') = bufsz /\
    forall k, 0 <= k < bufsz -> ~ (o <= k < o + n) -> d' !!! Z.to_nat k = if created then 0 else d !!! Z.to_nat k.
Proof using Hsz.
  intros Hd Ho Hn Hon. destruct created; [|by exists d].
  destruct (splice_spec d (replicate (Z.to_nat o) 0) 0) as (d1 & -> & Hl1 & H1);
    [lia|rewrite length_replicate; lia|]. cbn [res_bind].
  rewrite wrap_small by (unfold in_range; lia).
  destruct (splice_spec d1 (replicate (Z.to_nat (bufsz - o - n)) 0) (o + n)) as (d2 & -> & Hl2 & H2);
    [lia|rewrite length_replicate; lia|].
  exists d2. split; [done|]. split; [lia|]. intros k Hk Hno. rewrite H2, length_replicate by lia.
  case_decide; [apply replicate_zero; lia|]. rewrite H1, length_replicate by lia.
  rewrite decide_True by lia. apply replicate_zero; lia.
Qed.

Lemma write_buffer_spec (f : MemoryFile) (l1 l2 : list Buffer) (i : Z) (d pb : list Z) (created : bool) (o n : Z) :
  bwf f -> bv f = l1 ++ mkBuffer i d :: l2 -> 0 <= o -> 0 <= n -> o + n <= bufsz -> n <= Z.of_nat (length pb) ->
  exists d', write_buffer f (length l1) created o n pb = Done (with_bv f (l1 ++ mkBuffer i d' :: l2)) /\
    copied d d' pb created o n /\ bwf (with_bv f (l1 ++ mkBuffer i d' :: l2)).
Proof using Hsz.
  intros [Hs Hb Hc Hcp] E Ho Hn Hon Hpb. rewrite E in *.
  assert (0 <= i < max_idx /\ Z.of_nat (length d) = bufsz) as [Hi Hd].
  { apply (Forall_inv (proj2 (proj1 (Forall_app _ l1 (mkBuffer i d :: l2)) Hb))). }
  unfold write_buffer. rewrite E. 
  rewrite (proj2 (vec_get_done _ (Z.of_nat (length l1)) (mkBuffer i d))) by (rewrite Nat2Z.id, list_lookup_middle by done; auto with lia).
  cbn [res_bind data idx].
  destruct (new_buffer_spec d created o n Hd Ho Hn Hon) as (d1 & -> & Hl1 & H1). cbn [res_bind].
  destruct (slice_spec pb 0 n) as (x & -> & Hx & Hxk); [lia..|]. cbn [res_bind].
  destruct (splice_spec d1 x o) as (d2 & -> & Hl2 & H2); [lia..|]. cbn [res_bind].
  rewrite vec_set_done by (rewrite length_app, length_cons; lia). cbn [res_bind].
  rewrite Nat2Z.id, insert_app_r_alt, Nat.sub_diag by lia. exists d2. split; [done|]. split.
  - split; [lia|]. intros k Hk. rewrite H2 by lia. rewrite Hx. case_decide; [|by apply H1]. by rewrite Hxk by lia.
  - split; cbn [bv with_bv crtbuffidx cp]; [|apply Forall_app in Hb as [? Hb]|done|].
    + by rewrite fmap_app, fmap_cons in *.
    + apply Forall_app. split; [done|]. apply Forall_cons in Hb as [_ ?]. constructor; [|done]. cbn. lia.
    + by rewrite length_app, length_cons in *.
Qed.

(** ** The loops *)

(** [n] bytes of [pb] are at position [p], and the other bytes are as they were. *)
Definition wrote (f f' : MemoryFile) (p : Z) (pb : list Z) (n : Z) : Prop :=
  forall q, 0 <= q ->
    byte_at f' q = if decide (p <= q < p + n) then pb !!! Z.to_nat (q - p) else byte_at f q.

Lemma wrote_buffer (f f' : MemoryFile) (l1 l2 : list Buffer) (i : Z) (d d' pb : list Z) (created : bool) (o n : Z) :
  bwf f -> bwf f' -> bv f = l1 ++ (if created then [] else [mkBuffer i d]) ++ l2 ->
  (created = true -> find_buf (bv f) i = None) -> bv f' = l1 ++ mkBuffer i d' :: l2 ->
  copied d d' pb created o n -> 0 <= o -> 0 <= n -> o + n <= bufsz ->
  wrote f f' (i * bufsz + o) pb n.
Proof using Hsz.
  intros Hw Hw' E Hf E' [_ Hc] Ho Hn Hon q Hq. unfold byte_at. rewrite E'.
  rewrite find_buf_mid by (rewrite <- E'; apply Hw'). cbn [idx data].
  pose proof (Z.div_mod q bufsz ltac:(lia)) as Hdm. pose proof (Z.mod_pos_bound q bufsz ltac:(lia)) as Hm.
  destruct (Z.eqb_spec (q / bufsz) i) as [Ei|Ei].
  - rewrite Hc by lia. subst i. destruct (decide (o <= q mod bufsz < o + n)).
    + rewrite decide_True by lia. do 2 f_equal. lia.
    + rewrite decide_False by lia. destruct created; [by rewrite Hf|].
      rewrite E. cbn [app]. rewrite find_buf_mid; [cbn [idx data]; by rewrite Z.eqb_refl|].
      cbn [app] in E. rewrite <- E. apply Hw.
  - rewrite decide_False by nia. rewrite E. destruct created; [done|]. cbn [app] in *.
    rewrite find_buf_mid by (rewrite <- E; apply Hw). cbn [idx]. by rewrite (proj2 (Z.eqb_neq _ _) Ei).
Qed.

(** What [write_loop] leaves unchanged. *)
Definition same_head (f f' : MemoryFile) : Prop := cp f' = cp f /\ sz f' = sz f /\ off f' = off f.

Lemma wrap_next (i : Z) : 0 <= i -> i < max_idx -> wrap 32 (i + 1) = i + 1.
Proof. intros. apply wrap_small. unfold in_range, max_idx in *. lia. Qed.

Lemma wrote_trans (f f1 f2 : MemoryFile) (p : Z) (pb : list Z) (n m : Z) :
  0 <= p -> 0 <= n -> 0 <= m -> n + m <= Z.of_nat (length pb) ->
  wrote f f1 p pb n -> wrote f1 f2 (p + n) (drop (Z.to_nat n) pb) m -> wrote f f2 p pb (n + m).
Proof.
  intros Hp Hn Hm Hl H1 H2 q Hq. rewrite H2 by done. case_decide.
  - rewrite decide_True by lia. rewrite !list_lookup_total_alt, lookup_drop. do 2 f_equal. lia.
  - rewrite H1 by done. repeat case_decide; done || lia.
Qed.

Lemma file_write_loop_spec (fuel : nat) (f : MemoryFile) (pb : list Z) (i o wd : Z) :
  let bl := Z.of_nat (length pb) in
  (length pb <= fuel)%nat -> bwf f -> 0 <= i -> 0 <= o < bufsz -> 0 <= wd -> wd + bl < 2 ^ 31 ->
  (bl <> 0 -> i * bufsz + o + bl <= max_idx * bufsz) ->
  exists f' n, write_loop fuel f pb bl i o wd = Done (f', bl - n, wd + n) /\ 0 <= n <= bl /\
    bwf f' /\ same_head f f' /\ wrote f f' (i * bufsz + o) pb n /\
    (forall j, j ∈ idx <$> bv f' -> j ∈ idx <$> bv f \/ 0 < n /\ j * bufsz < i * bufsz + o + n) /\
    (n < bl -> cp f < (Z.of_nat (length (bv f')) + 1) * bufsz /\
      exists j, 0 <= j /\ j * bufsz < i * bufsz + o + bl /\ (j ∉ idx <$> bv f')).
Proof using Hsz Hun.
  revert f pb i o wd. induction fuel as [|fuel IH]; intros f pb i o wd bl Hfu Hw Hi Ho Hwd Hov Hp.
  all: cbn [write_loop]; destruct (Z.eqb_spec bl 0) as [Hz|Hz]; [|try (exfalso; lia)].
  1,2: exists f, 0; rewrite Z.sub_0_r, Z.add_0_r; split_and!; try done; try lia;
    [intros q ?; by rewrite decide_False by lia|auto].
  specialize (Hp Hz). assert (i < max_idx) as Him by nia.
  destruct (doCreateBuffer_spec f i Hw (conj Hi Him)) as ([[f1 [pos|]] created] & -> & Hcr); cbn [res_bind].
  2: { destruct Hcr as (Hw1 & (c & ->) & Hcap & Hni). exists (with_crt f c), 0. rewrite Z.sub_0_r, Z.add_0_r.
       split_and!; try done; [lia..| |auto|].
       - intros q ?. by rewrite decide_False by lia.
       - intros _. split; [done|]. exists i. split_and!; [lia|lia|done]. }
  destruct Hcr as (l1 & d & l2 & c & -> & -> & Hw1 & E & Hnone).
  rewrite (wrap_small 32 (bufsz - o)) by (unfold in_range; lia).
  set (n := if bl <? bufsz - o then bl else bufsz - o).
  assert (0 < n /\ n <= bl /\ o + n <= bufsz /\ (n < bl -> o + n = bufsz)) as (Hn0 & Hnb & Hno & Hnx).
  { subst n. destruct (Z.ltb_spec bl (bufsz - o)); lia. }
  destruct (write_buffer_spec _ l1 l2 i d pb created o n Hw1 eq_refl ltac:(lia) ltac:(lia) Hno Hnb)
    as (d' & -> & Hcp & Hw2). cbn [res_bind].
  set (f2 := with_bv _ (l1 ++ mkBuffer i d' :: l2)) in *.
  assert (wrote f f2 (i * bufsz + o) pb n) as Hwr1.
  { apply (wrote_buffer f f2 l1 l2 i d d' pb created o n); try done; lia. }
  rewrite signed_small by lia.
  assert (bl - n = Z.of_nat (length (drop (Z.to_nat n) pb))) as Hbl by (rewrite length_drop; subst bl; lia).
  destruct (IH f2 (drop (Z.to_nat n) pb) (if negb (bl - n =? 0) then wrap 32 (i + 1) else i) 0 (wd + n))
    as (f' & m & E' & Hm & Hw' & Hsh & Hwr2 & Hidx & Hfull);
    [rewrite length_drop; lia|done|destruct (negb _); [by apply wrap_range|done]|lia|lia|rewrite <- Hbl; lia| |].
  { intros Hnz. rewrite (proj2 (Z.eqb_neq (bl - n) 0)) by lia. cbn [negb]. rewrite wrap_next by lia. lia. }
  assert ((if negb (bl - n =? 0) then wrap 32 (i + 1) else i) * bufsz + 0 <= i * bufsz + o + n) as Hle.
  { destruct (Z.eqb_spec (bl - n) 0); cbn [negb]; [lia|]. rewrite wrap_next by lia. lia. }
  rewrite Hbl in E' |- *. rewrite E', <- Hbl in *. exists f', (n + m).
  split; [do 2 f_equal; [f_equal|]; lia|]. split; [lia|]. split; [done|]. split; [done|]. split_and!.
  - apply (wrote_trans f f2); [lia..|done|]. destruct (decide (n = bl)) as [Heq|].
    + intros q ?. rewrite decide_False by lia. rewrite Hwr2 by done. by rewrite decide_False by lia.
    + rewrite (proj2 (Z.eqb_neq (bl - n) 0)) in Hwr2 by lia. cbn [negb] in Hwr2. rewrite wrap_next in Hwr2 by lia.
      by replace (i * bufsz + o + n) with ((i + 1) * bufsz + 0) by lia.
  - intros j [Hj|Hj]%Hidx; [|lia]. subst f2. cbn [bv with_bv] in Hj.
    rewrite fmap_app, fmap_cons in Hj. cbn [idx] in Hj. rewrite E, !fmap_app.
    apply elem_of_app in Hj as [?|[->|?]%elem_of_cons]; [left; set_solver|right; lia|left; set_solver].
  - intros Hs. destruct (Hfull ltac:(lia)) as (? & j & ? & ? & ?). split; [done|]. exists j. split_and!; [done|lia|done].
Qed.

Lemma fmap_seqZ_ext (g : Z -> Z) (d : list Z) (p n : Z) :
  Z.of_nat (length d) = n -> (forall k, 0 <= k < n -> d !!! Z.to_nat k = g (p + k)) -> d = g <$> seqZ p n.
Proof.
  intros Hl H. apply list_eq. intros j. rewrite list_lookup_fmap. destruct (decide (Z.of_nat j < n)) as [Hj|Hj].
  - rewrite lookup_seqZ_lt by lia. cbn. destruct (lookup_lt_is_Some_2 d j) as [x Hx]; [lia|].
    specialize (H (Z.of_nat j) ltac:(lia)). rewrite Nat2Z.id, (list_lookup_total_correct _ _ _ Hx) in H. congruence.
  - rewrite lookup_seqZ_ge by lia. apply lookup_ge_None_2. lia.
Qed.

(** What a turn of the loop of [read] copies. *)
Lemma chunk_spec (f : MemoryFile) (i o n : Z) :
  bwf f -> 0 <= o -> 0 <= n -> o + n <= bufsz ->
  match find_buf (bv f) i with
  | None => Done (replicate (Z.to_nat n) 0)
  | Some bf => slice bf o n
  end = Done (byte_at f <$> seqZ (i * bufsz + o) n).
Proof using Hsz.
  intros Hw Ho Hn Hon.
  assert (forall k, 0 <= k < n -> (i * bufsz + o + k) / bufsz = i /\ (i * bufsz + o + k) mod bufsz = o + k) as Hdm.
  { intros k Hk. rewrite <- Z.add_assoc, Z.add_comm, Z.div_add, Z.mod_add, Z.div_small, Z.mod_small by lia. lia. }
  destruct (find_buf (bv f) i) as [d|] eqn:E.
  - destruct (slice_spec d o n) as (x & -> & Hx & Hk); [lia..| |].
    { apply find_buf_some in E. pose proof (proj1 (Forall_forall _ _) (bwf_buf f Hw) _ E). cbn in *. lia. }
    f_equal. apply fmap_seqZ_ext; [done|]. intros k Hkn. rewrite Hk by done. unfold byte_at.
    destruct (Hdm k Hkn) as [-> ->]. by rewrite E.
  - f_equal. apply fmap_seqZ_ext; [rewrite length_replicate; lia|]. intros k Hkn. unfold byte_at.
    destruct (Hdm k Hkn) as [-> _]. rewrite E. apply replicate_zero. lia.
Qed.

Lemma read_loop_spec (fuel : nat) (f : MemoryFile) (bl i o rd : Z) (out : list Z) :
  0 <= bl <= Z.of_nat fuel -> bwf f -> 0 <= i -> 0 <= o < bufsz -> 0 <= rd -> rd + bl < 2 ^ 31 ->
  (bl <> 0 -> i * bufsz + o + bl <= max_idx * bufsz) ->
  exists c, read_loop fuel f bl i o rd out
      = Done (with_crt f c, rd + bl, out ++ (byte_at f <$> seqZ (i * bufsz + o) bl)) /\ 0 <= c < 2 ^ 32.
Proof using Hsz.
  revert f bl i o rd out. induction fuel as [|fuel IH]; intros f bl i o rd out Hfu Hw Hi Ho Hrd Hov Hp.
  all: cbn [read_loop]; destruct (Z.eqb_spec bl 0) as [Hz|Hz]; [|try (exfalso; lia)].
  1,2: exists (crtbuffidx f); subst bl; cbn [seqZ Z.to_nat seq fmap list_fmap];
    rewrite Z.add_0_r, app_nil_r; split; [by destruct f|apply Hw].
  specialize (Hp Hz). assert (i < max_idx) as Him by nia.
  destruct (doGetBuffer_spec f i Hw) as (c & -> & Hc). cbn [res_bind].
  rewrite (wrap_small 32 (bufsz - o)) by (unfold in_range; lia).
  set (n := if bl <? bufsz - o then bl else bufsz - o).
  assert (0 < n /\ n <= bl /\ o + n <= bufsz /\ (n < bl -> o + n = bufsz)) as (Hn0 & Hnb & Hno & Hnx).
  { subst n. destruct (Z.ltb_spec bl (bufsz - o)); lia. }
  rewrite chunk_spec by (done || lia). cbn [res_bind]. rewrite signed_small by lia.
  destruct (IH (with_crt f c) (bl - n) (if negb (bl - n =? 0) then wrap 32 (i + 1) else i) 0 (rd + n)
    (out ++ (byte_at f <$> seqZ (i * bufsz + o) n))) as (c' & -> & Hc');
    [lia|by apply bwf_with_crt|destruct (negb _); [by apply wrap_range|done]|lia|lia|lia| |].
  { intros Hnz. rewrite (proj2 (Z.eqb_neq (bl - n) 0)) by lia. cbn [negb]. rewrite wrap_next by lia. lia. }
  exists c'. split; [|done]. do 2 f_equal; [f_equal; lia|]. rewrite <- app_assoc. f_equal.
  replace (seqZ (i * bufsz + o) bl) with (seqZ (i * bufsz + o) (n + (bl - n))) by (f_equal; lia).
  rewrite seqZ_app, fmap_app by lia. f_equal. destruct (decide (n = bl)) as [->|].
  { by rewrite Z.sub_diag. }
  rewrite (proj2 (Z.eqb_neq (bl - n) 0)) by lia. cbn [negb]. rewrite wrap_next by lia.
  by replace (i * bufsz + o + n) with ((i + 1) * bufsz + 0) by lia.
Qed.

(** ** The invariant of a file *)

(** Nothing but zeros after the end, and no buffer past it. *)
Record mwf (f : MemoryFile) : Prop := {
  mwf_bwf : bwf f;
  mwf_sz : 0 <= sz f <= max_idx * bufsz;
  mwf_zero : forall q, sz f <= q -> byte_at f q = 0;
  mwf_idx : forall j, j ∈ idx <$> bv f -> j * bufsz < sz f
}.

Lemma mwf_cap_zero (c : Z) : 0 <= c -> mwf (mkMemoryFile c 0 0 (wrap 32 (-1)) []).
Proof using Hsz.
  intros Hc. assert (0 <= max_idx * bufsz) by (unfold max_idx; lia). split; cbn; [|lia|done|by intros j ?%elem_of_nil].
  split; cbn; [constructor|constructor|by apply wrap_range|lia].
Qed.

Lemma compute_capacity_pos (c : Z) : 0 < compute_capacity c.
Proof. unfold compute_capacity, int64_max. repeat (case_match; try lia). Qed.

Lemma mwf_with_crt (f : MemoryFile) (c : Z) : mwf f -> 0 <= c < 2 ^ 32 -> mwf (with_crt f c).
Proof. intros [] ?. by split; [apply bwf_with_crt|..]. Qed.

(** At most as many buffers as there are indices below a bound, and one less when one is missing. *)
Lemma buffers_below (f : MemoryFile) (j K : Z) :
  bwf f -> 0 <= j < K -> (j ∉ idx <$> bv f) -> (forall x, x ∈ idx <$> bv f -> x < K) ->
  Z.of_nat (length (bv f)) + 1 <= K.
Proof.
  intros Hw Hj Hni Hlt.
  assert (NoDup (idx <$> bv f)) as Hnd.
  { apply NoDup_alt. intros m n x Hm Hn.
    apply list_lookup_fmap_Some in Hm as (y & -> & Hy). apply list_lookup_fmap_Some in Hn as (z & E & Hz').
    destruct (lt_eq_lt_dec m n) as [[H|]|H]; [|done|].
    - pose proof (sorted_lookup _ m n y z (bwf_sorted f Hw) H Hy Hz'). lia.
    - pose proof (sorted_lookup _ n m z y (bwf_sorted f Hw) H Hz' Hy). lia. }
  assert (j :: (idx <$> bv f) ⊆+ seqZ 0 K) as Hsub%submseteq_length.
  { apply NoDup_submseteq; [by constructor|]. intros x. rewrite elem_of_cons, elem_of_seqZ.
    intros [->|Hx]; [lia|]. split; [|specialize (Hlt x Hx); lia].
    apply list_elem_of_fmap in Hx as (b & -> & Hb).
    pose proof (proj1 (Forall_forall _ _) (bwf_buf f Hw) _ Hb). cbn in *. lia. }
  rewrite length_cons, length_fmap, length_seqZ in Hsub. lia.
Qed.

(** ** Reading and writing at an offset *)

(** A list of bytes after [x] is written at [p]; the gap is filled with zeros. *)
Definition write_list (l : list Z) (p : Z) (x : list Z) : list Z :=
  take (Z.to_nat p) (l ++ replicate (Z.to_nat p - length l) 0) ++ x ++ drop (Z.to_nat p + length x) l.

Lemma length_content (f : MemoryFile) : length (content f) = Z.to_nat (sz f).
Proof. unfold content. by rewrite length_fmap, length_seqZ. Qed.

Lemma lookup_content (f : MemoryFile) (q : Z) : 0 <= q < sz f -> content f !! Z.to_nat q = Some (byte_at f q).
Proof.
  intros. unfold content. rewrite list_lookup_fmap, lookup_seqZ_lt by lia. cbn. do 2 f_equal. lia.
Qed.

Lemma wrote_content (f f' : MemoryFile) (p : Z) (pb : list Z) (n : Z) :
  mwf f -> 0 <= p -> 0 <= n <= Z.of_nat (length pb) -> wrote f f' p pb n -> sz f' = Z.max (sz f) (p + n) ->
  content f' = write_list (content f) p (take (Z.to_nat n) pb).
Proof.
  intros Hw Hp Hn Hwr Es. pose proof (mwf_sz f Hw). symmetry. apply fmap_seqZ_ext.
  { unfold write_list. rewrite !length_app, !length_take, length_drop, length_app, length_replicate, length_content, Es. lia. }
  intros q Hq. rewrite Z.add_0_l, Hwr, list_lookup_total_alt by lia. unfold write_list.
  assert (length (take (Z.to_nat p) (content f ++ replicate (Z.to_nat p - length (content f)) 0)) = Z.to_nat p) as Hl1.
  { rewrite length_take, length_app, length_replicate, length_content. lia. }
  assert (length (take (Z.to_nat n) pb) = Z.to_nat n) as Hl2 by (rewrite length_take; lia).
  destruct (decide (q < p)) as [Hqp|Hqp]; [|destruct (decide (q < p + n)) as [Hqn|Hqn]].
  - rewrite decide_False, lookup_app_l, lookup_take_lt by (rewrite ?Hl1; lia). destruct (decide (q < sz f)).
    + rewrite lookup_app_l, lookup_content by (rewrite ?length_content; lia). done.
    + rewrite lookup_app_r, lookup_replicate_2 by (rewrite length_content; lia). by rewrite (mwf_zero f Hw) by lia.
  - rewrite decide_True, lookup_app_r, Hl1, lookup_app_l, lookup_take_lt, list_lookup_total_alt by (rewrite ?Hl1, ?Hl2; lia).
    do 2 f_equal. lia.
  - rewrite decide_False, lookup_app_r, lookup_app_r, lookup_drop, Hl1, Hl2 by (rewrite ?Hl1, ?Hl2; lia).
    replace (Z.to_nat p + Z.to_nat n + (Z.to_nat q - Z.to_nat p - Z.to_nat n))%nat with (Z.to_nat q) by lia.
    by rewrite lookup_content by lia.
Qed.

Lemma content_slice (f : MemoryFile) (p n : Z) :
  0 <= p -> 0 <= n -> p < sz f ->
  take (Z.to_nat n) (drop (Z.to_nat p) (content f)) = byte_at f <$> seqZ p (Z.min n (sz f - p)).
Proof.
  intros Hp Hn Hps. apply fmap_seqZ_ext.
  { rewrite length_take, length_drop, length_content. lia. }
  intros k Hk. rewrite list_lookup_total_alt, lookup_take_lt, lookup_drop by lia.
  rewrite <- Z2Nat.inj_add, lookup_content by lia. done.
Qed.

Lemma quot_rem (p : Z) :
  0 <= p <= max_idx * bufsz ->
  let i := wrap 32 (Z.quot p bufsz) in let o := wrap 32 (Z.rem p bufsz) in
  0 <= i /\ 0 <= o < bufsz /\ i * bufsz + o = p.
Proof using Hsz.
  intros Hp i o. subst i o. rewrite Z.quot_div_nonneg, Z.rem_mod_nonneg by lia.
  pose proof (Z.div_mod p bufsz ltac:(lia)). pose proof (Z.mod_pos_bound p bufsz ltac:(lia)).
  pose proof (Z.div_pos p bufsz ltac:(lia) ltac:(lia)).
  assert (p / bufsz <= max_idx) by (apply Z.div_le_upper_bound; lia).
  rewrite !wrap_small by (unfold in_range, max_idx in *; lia). lia.
Qed.

(** [read] at an offset gives the bytes of the file there, as many as there are. *)
Lemma read_at_spec (f : MemoryFile) (bl p : Z) :
  mwf f -> 0 <= bl < 2 ^ 31 -> 0 <= p ->
  exists c, 0 <= c < 2 ^ 32 /\ read_at f bl p = Done (with_crt f c,
    if sz f <=? p then -1 else Z.min bl (sz f - p), take (Z.to_nat bl) (drop (Z.to_nat p) (content f))).
Proof using Hsz.
  intros Hw Hbl Hp. unfold read_at. destruct (Z.leb_spec (sz f) p) as [Hle|Hlt].
  - exists (crtbuffidx f). split; [apply (mwf_bwf f Hw)|]. rewrite drop_ge by (rewrite length_content; lia).
    rewrite take_nil. by destruct f.
  - pose proof (mwf_sz f Hw). destruct (quot_rem p) as (Hi & Ho & E); [lia|].
    assert ((if sz f <? p + bl then wrap 32 (sz f - p) else bl) = Z.min bl (sz f - p)) as ->.
    { destruct (Z.ltb_spec (sz f) (p + bl)); [rewrite wrap_small by (unfold in_range; lia)|]; lia. }
    destruct (read_loop_spec (Z.to_nat (Z.min bl (sz f - p))) f (Z.min bl (sz f - p)) _ _ 0 []
      ltac:(lia) (mwf_bwf f Hw) Hi Ho) as (c & -> & Hc); [lia..|].
    exists c. split; [done|]. rewrite Z.add_0_l, E. cbn [app]. by rewrite content_slice by lia.
Qed.

(** [write] at an offset puts a prefix of the bytes in the file; the prefix is empty, and the
    result [-1], or it is cut short only when the capacity is used up, which does not happen
    when the file fits in it. *)
Lemma write_at_spec (f : MemoryFile) (pb : list Z) (p : Z) :
  let bl := Z.of_nat (length pb) in
  mwf f -> bl < 2 ^ 31 -> 0 <= p -> p + bl <= max_idx * bufsz ->
  exists f' n, 0 <= n <= bl /\
    write_at f pb bl p = Done (f', if negb (bl =? 0) && (n =? 0) then -1 else n) /\
    mwf f' /\ cp f' = cp f /\ off f' = off f /\
    content f' = (if negb (bl =? 0) && (n =? 0) then content f else write_list (content f) p (take (Z.to_nat n) pb)) /\
    (Z.max (sz f) (p + bl) <= cp f / bufsz * bufsz -> n = bl).
Proof using Hsz Hun.
  intros bl Hw Hbl Hp Hmax. pose proof (mwf_sz f Hw) as Hs. destruct (quot_rem p) as (Hi & Ho & E); [lia|].
  unfold write_at. destruct (file_write_loop_spec (Z.to_nat bl) f pb _ _ 0 ltac:(lia) (mwf_bwf f Hw) Hi Ho)
    as (f1 & n & El & Hn & Hw1 & (Hcp & Hsz1 & Hoff) & Hwr & Hidx & Hfull); [lia..|].
  fold bl in El. rewrite El, E in *. cbn [res_bind]. rewrite Z.add_0_l. fold bl in Hn, Hfull |- *.
  assert (Z.max (sz f) (p + bl) <= cp f / bufsz * bufsz -> n = bl) as Hall.
  { intros Hfit. destruct (decide (n = bl)) as [|Hne]; [done|exfalso]. destruct (Hfull ltac:(lia)) as (Hc & j & Hj0 & Hj & Hni).
    pose proof (buffers_below f1 j (cp f / bufsz) Hw1) as Hb.
    assert (Z.of_nat (length (bv f1)) + 1 <= cp f / bufsz); [|pose proof (Z.mul_div_le (cp f) bufsz ltac:(lia)); nia].
    apply Hb; [nia|done|]. intros x [Hx|Hx]%Hidx; [apply (mwf_idx f Hw) in Hx|]; nia. }
  assert (negb (bl - n =? 0) && (n =? 0) = negb (bl =? 0) && (n =? 0)) as ->.
  { destruct (Z.eqb_spec n 0) as [->|]; [by rewrite Z.sub_0_r|by rewrite !andb_false_r]. }
  destruct (negb (bl =? 0) && (n =? 0)) eqn:Eb.
  - assert (n = 0) as En by (apply andb_true_iff in Eb as [_ ?%Z.eqb_eq]; done).
    assert (forall q, 0 <= q -> byte_at f1 q = byte_at f q) as Hsame.
    { intros q Hq. by rewrite Hwr, decide_False by lia. }
    exists f1, n. rewrite Eb. split; [lia|]. split; [done|]. split; [|split; [done|split; [done|split; [|done]]]].
    + split; [done|lia| |].
      * intros q Hq. rewrite Hsame by lia. apply (mwf_zero f Hw). lia.
      * intros j [Hj|Hj]%Hidx; [|lia]. rewrite Hsz1. by apply (mwf_idx f Hw).
    + unfold content. rewrite Hsz1. apply list_fmap_ext. intros k q Hk.
      apply lookup_seqZ in Hk. apply Hsame. lia.
  - set (f2 := if sz f1 <? p + n then with_sz f1 (p + n) else f1).
    assert (sz f2 = Z.max (sz f) (p + n)) as Hsz2.
    { subst f2. destruct (Z.ltb_spec (sz f1) (p + n)); cbn [sz with_sz]; lia. }
    assert (wrote f f2 p pb n) as Hwr2 by (subst f2; by destruct (sz f1 <? p + n)).
    exists f2, n. rewrite Eb. split; [done|]. split; [done|]. split_and!;
      [|subst f2; by destruct (sz f1 <? p + n)|subst f2; by destruct (sz f1 <? p + n)|by apply wrote_content|done].
    split; [|lia| |].
    + subst f2. destruct (sz f1 <? p + n); [|done]. by destruct Hw1; split.
    + intros q Hq. rewrite Hwr2 by lia. rewrite decide_False by lia. apply (mwf_zero f Hw). lia.
    + intros j Hj. assert (j ∈ idx <$> bv f1) as [Hx|Hx]%Hidx by (subst f2; by destruct (sz f1 <? p + n)).
      * apply (mwf_idx f Hw) in Hx. lia.
      * lia.
Qed.

(** ** A file as a list of bytes and a cursor *)

Record File := mkFile { bytes : list Z; cur : Z }.

Inductive Op :=
| OpReadAt (n p : Z)
| OpRead (n : Z)
| OpWriteAt (x : list Z) (p : Z)
| OpWrite (x : list Z)
| OpSeek (p : Z) (r : SeekRef)
| OpTruncate (len : Z).

Definition exec (f : MemoryFile) (o : Op) : res (MemoryFile * Z * list Z) :=
  match o with
  | OpReadAt n p => read_at f n p
  | OpRead n => read f n
  | OpWriteAt x p => let! r := write_at f x (Z.of_nat (length x)) p in Done (r, [])
  | OpWrite x => let! r := write f x (Z.of_nat (length x)) in Done (r, [])
  | OpSeek p r => Done (seek f p r, [])
  | OpTruncate len => Done (truncate f len, [])
  end.

Fixpoint run (f : MemoryFile) (os : list Op) : res (MemoryFile * list (Z * list Z)) :=
  match os with
  | [] => Done (f, [])
  | o :: os =>
      let! x := exec f o in
      let! y := run x.1.1 os in
      Done (y.1, (x.1.2, x.2) :: y.2)
  end.

(** A write to a list: all of it, a prefix, or nothing and [-1]; all of it when the file fits. *)
Definition written (cap : Z) (l : list Z) (p : Z) (x : list Z) (r : Z) (l' : list Z) : Prop :=
  (x <> [] /\ r = -1 /\ l' = l \/
   exists n, (n <= length x)%nat /\ (x <> [] -> n <> 0%nat) /\ r = Z.of_nat n /\ l' = write_list l p (take n x)) /\
  (Z.max (Z.of_nat (length l)) (p + Z.of_nat (length x)) <= cap / bufsz * bufsz -> r = Z.of_nat (length x)).

Definition target (s : File) (p : Z) (r : SeekRef) : Z :=
  match r with SeekBeg => p | SeekCur => cur s + p | SeekEnd => Z.of_nat (length (bytes s)) + p end.

Definition beyond (cap : Z) (q : Z) (r : SeekRef) : bool := match r with SeekBeg => cap <=? q | _ => cap <? q end.

Definition file_step (cap : Z) (s : File) (o : Op) (r : Z) (out : list Z) (s' : File) : Prop :=
  let reads n p := out = take (Z.to_nat n) (drop (Z.to_nat p) (bytes s)) /\
    r = (if Z.of_nat (length (bytes s)) <=? p then -1 else Z.of_nat (length out)) in
  match o with
  | OpReadAt n p => reads n p /\ s' = s
  | OpRead n => reads n (cur s) /\ s' = mkFile (bytes s) (cur s + Z.of_nat (length out))
  | OpWriteAt x p => out = [] /\ written cap (bytes s) p x r (bytes s') /\ cur s' = cur s
  | OpWrite x => out = [] /\ written cap (bytes s) (cur s) x r (bytes s') /\ cur s' = cur s + Z.max 0 r
  | OpSeek p ref => out = [] /\
      if beyond cap (target s p ref) ref then r = -1 /\ s' = s else r = target s p ref /\ s' = mkFile (bytes s) r
  | OpTruncate _ => out = [] /\ r = -1 /\ s' = mkFile [] 0
  end.

Fixpoint file_steps (cap : Z) (s : File) (os : list Op) (rs : list (Z * list Z)) (s' : File) : Prop :=
  match os, rs with
  | [], [] => s' = s
  | o :: os, (r, out) :: rs => exists s1, file_step cap s o r out s1 /\ file_steps cap s1 os rs s'
  | _, _ => False
  end.

(** What a caller has to respect: lengths that fit an [int], positions that are not negative and
    for which the index of a buffer fits an [int]. *)
Definition op_ok (s : File) (o : Op) : Prop :=
  match o with
  | OpReadAt n p => 0 <= n < 2 ^ 31 /\ 0 <= p
  | OpRead n => 0 <= n < 2 ^ 31
  | OpWriteAt x p => Z.of_nat (length x) < 2 ^ 31 /\ 0 <= p /\ p + Z.of_nat (length x) <= max_idx * bufsz
  | OpWrite x => Z.of_nat (length x) < 2 ^ 31 /\ cur s + Z.of_nat (length x) <= max_idx * bufsz
  | OpSeek p r => 0 <= target s p r
  | OpTruncate _ => True
  end.

Fixpoint file_ok (cap : Z) (s : File) (os : list Op) : Prop :=
  match os with
  | [] => True
  | o :: os => op_ok s o /\ forall r out s', file_step cap s o r out s' -> file_ok cap s' os
  end.

Definition abs (f : MemoryFile) : File := mkFile (content f) (off f).

Lemma written_at (f : MemoryFile) (x : list Z) (p : Z) :
  mwf f -> Z.of_nat (length x) < 2 ^ 31 -> 0 <= p -> p + Z.of_nat (length x) <= max_idx * bufsz ->
  exists f' r, write_at f x (Z.of_nat (length x)) p = Done (f', r) /\ mwf f' /\ cp f' = cp f /\ off f' = off f /\
    written (cp f) (content f) p x r (content f').
Proof using Hsz Hun.
  intros Hw Hl Hp Hm. destruct (write_at_spec f x p Hw Hl Hp Hm) as (f' & n & Hn & -> & Hw' & Hc & Ho & Hct & Hall).
  eexists f', _. split; [done|]. split_and!; [done..|]. split.
  - destruct (negb (Z.of_nat (length x) =? 0) && (n =? 0)) eqn:E.
    + left. split_and!; [|done|done]. intros ->. done.
    + right. exists (Z.to_nat n). split_and!; [lia| |lia|done].
      intros Hx ?. assert (n = 0) as -> by lia. rewrite andb_true_r, negb_false_iff, Z.eqb_eq in E.
      destruct x; [done|cbn in E; lia].
  - rewrite length_content. intros Hfit. pose proof (mwf_sz f Hw).
    rewrite Hall by lia. destruct (Z.eqb_spec (Z.of_nat (length x)) 0) as [->|]; done.
Qed.

Lemma exec_spec (f : MemoryFile) (o : Op) :
  mwf f -> 0 <= off f -> op_ok (abs f) o ->
  exists f' r out, exec f o = Done (f', r, out) /\ mwf f' /\ 0 <= off f' /\ cp f' = cp f /\
    file_step (cp f) (abs f) o r out (abs f').
Proof using Hsz Hun.
  intros Hw Hoff Hok. pose proof (mwf_sz f Hw) as Hs.
  assert (Z.of_nat (length (content f)) = sz f) as Hlen by (rewrite length_content; lia).
  assert (forall n p, 0 <= n < 2 ^ 31 -> 0 <= p -> (if sz f <=? p then -1 else Z.min n (sz f - p)) =
    if sz f <=? p then -1 else Z.of_nat (length (take (Z.to_nat n) (drop (Z.to_nat p) (content f))))) as Hres.
  { intros n p ??. rewrite length_take, length_drop. destruct (Z.leb_spec (sz f) p); lia. }
  destruct o as [n p|n|x p|x|p r|len]; cbn [op_ok exec file_step abs bytes cur] in *.
  - destruct Hok as [Hn Hp]. destruct (read_at_spec f n p Hw Hn Hp) as (c & Hc & ->). rewrite Hres by done.
    eexists _, _, _. split; [done|]. rewrite Hlen. split_and!; try done. by apply mwf_with_crt.
  - unfold read. destruct (read_at_spec f n (off f) Hw Hok Hoff) as (c & Hc & ->). cbn [res_bind].
    pose proof (mwf_with_crt f c Hw Hc) as Hw'. rewrite Hres by done. eexists _, _, _. split; [done|]. rewrite Hlen.
    set (d := take _ _). set (k := if sz f <=? off f then -1 else Z.of_nat (length d)).
    assert (Z.of_nat (length d) = Z.max 0 k) as Hk.
    { subst k d. rewrite length_take, length_drop. destruct (Z.leb_spec (sz f) (off f)); lia. }
    destruct (Z.ltb_spec 0 k); split_and!; try done.
    + by destruct Hw' as [[]]; split.
    + cbn. lia.
    + unfold abs; cbn [off with_off with_crt]. f_equal. rewrite Hk. f_equal. lia.
    + unfold abs; cbn [off with_off with_crt]. f_equal. lia.
  - destruct Hok as (Hl & Hp & Hm). destruct (written_at f x p Hw Hl Hp Hm) as (f' & r & -> & Hw' & Hc & Ho & Hwr).
    eexists f', r, []. split; [done|]. rewrite Ho. by split_and!.
  - destruct Hok as (Hl & Hm). unfold write.
    destruct (written_at f x (off f) Hw Hl Hoff Hm) as (f' & r & -> & Hw' & Hc & Ho & Hwr). cbn [res_bind].
    eexists _, r, []. split; [done|]. destruct (Z.ltb_spec 0 r); split_and!; try done; cbn [off with_off]; try lia.
    by destruct Hw' as [[]]; split.
  - eexists _, _, []. split; [apply f_equal, f_equal2; [apply surjective_pairing|done]|].
    destruct r; cbn [target beyond seek cur bytes abs] in *; rewrite ?Hlen in *;
      case_match; cbn [fst snd off with_off]; split_and!; try done; by destruct Hw as [[]]; split.
  - eexists _, _, []. split; [done|]. split_and!; try done. apply mwf_cap_zero.
    pose proof (bwf_cap f (mwf_bwf f Hw)). nia.
Qed.

Lemma file_run_spec (f : MemoryFile) (os : list Op) :
  mwf f -> 0 <= off f -> file_ok (cp f) (abs f) os ->
  exists f' rs, run f os = Done (f', rs) /\ mwf f' /\ file_steps (cp f) (abs f) os rs (abs f').
Proof using Hsz Hun.
  revert f. induction os as [|o os IH]; intros f Hw Ho Hok; [by exists f, []|].
  destruct Hok as [Hok Hnext]. destruct (exec_spec f o Hw Ho Hok) as (f1 & r & out & E & Hw1 & Ho1 & Hc & Hst).
  cbn [run]. rewrite E. cbn [res_bind fst snd]. rewrite <- Hc in *.
  destruct (IH f1 Hw1 Ho1 (Hnext _ _ _ Hst)) as (f' & rs & -> & Hw' & Hsts). cbn [res_bind fst snd].
  exists f', ((r, out) :: rs). split_and!; [done|done|]. by exists (abs f1).
Qed.

End Ops.

(** ** Properties *)

(** C28: a file in memory behaves as a list of bytes with a cursor: every sequence of reads, writes,
    seeks and truncations within the limits ends without leaving a buffer, its results are those of
    the list, a write cut short is a prefix of it, and a write is not cut short when the file fits
    in the capacity; the memory used never exceeds the capacity. *)
Theorem memory_file_refines (bufsz : Z) (uninit : list Buffer -> list Z) (c : Z) (os : list Op) :
  1 <= bufsz < 2 ^ 32 -> (forall v, Z.of_nat (length (uninit v)) = bufsz) ->
  file_ok bufsz (compute_capacity bufsz c) (mkFile [] 0) os ->
  exists f rs, run bufsz uninit (MemoryFile_new bufsz c) os = Done (f, rs) /\
    file_steps bufsz (compute_capacity bufsz c) (mkFile [] 0) os rs (abs bufsz f) /\
    Z.of_nat (length (bv f)) * bufsz <= cp f.
Proof.
  intros Hsz Hun Hok. destruct (file_run_spec bufsz uninit Hsz Hun (MemoryFile_new bufsz c) os) as (f & rs & E & Hw & Hst).
  - apply mwf_cap_zero; [done|]. pose proof (compute_capacity_pos bufsz c). lia.
  - done.
  - done.
  - exists f, rs. split; [done|]. split; [done|]. apply bwf_cap, mwf_bwf, Hw.
Qed.

(** A file of three buffers of four bytes: the write at 9 leaves the second one a hole; the write at
    16 is refused. *)
Definition some_ops : list Op :=
  [OpWrite [1; 2; 3]; OpWriteAt [7; 8; 9; 10] 9; OpSeek 1 SeekBeg; OpRead 100; OpWriteAt [5; 6] 15; OpWriteAt [1] 16; OpReadAt 4 13].

Definition stale (_ : list Buffer) : list Z := [170; 170; 170; 170].

Lemma memory_file_refines_witness :
  file_ok 4 12 (mkFile [] 0) some_ops /\
  (exists f, run 4 stale (MemoryFile_new 4 8) some_ops
    = Done (f, [(3, []); (4, []); (1, []); (12, [2; 3; 0; 0; 0; 0; 0; 0; 7; 8; 9; 10]); (1, []); (-1, []); (3, [0; 0; 5])])) /\
  exists f rs, run 4 stale (MemoryFile_new 4 8) some_ops = Done (f, rs) /\
    file_steps 4 (compute_capacity 4 8) (mkFile [] 0) some_ops rs (abs 4 f) /\ Z.of_nat (length (bv f)) * 4 <= cp f.
Proof.
  assert (file_ok 4 12 (mkFile [] 0) some_ops) as Hok.
  { unfold some_ops, max_idx. repeat (split; [cbn; unfold max_idx; lia|intros ? ? ? _]). exact I. }
  split; [exact Hok|]. split; [eexists; vm_compute; reflexivity|].
  apply (memory_file_refines 4 stale 8 some_ops); [lia|reflexivity|exact Hok].
Defined.

(** [seek] accepts a position before the start of the file (and returns it, -1, the value that
    reports an error); the next read takes bytes outside the first buffer. *)
Theorem seek_before_start (bufsz : Z) (f : MemoryFile) (d : list Z) (bl : Z) :
  2 <= bufsz < 2 ^ 31 -> mwf bufsz f -> find_buf (bv f) 0 = Some d -> 0 < bl < 2 ^ 31 ->
  seek f (-1) SeekBeg = (with_off f (-1), -1) /\ read bufsz (with_off f (-1)) bl = Undef.
Proof.
  intros Hsz Hw Hd Hbl. pose proof (mwf_bwf _ _ Hw) as Hb. pose proof (bwf_cap _ _ Hb) as Hcp.
  split. { unfold seek. destruct (Z.leb_spec (cp f) (-1)); [nia|done]. }
  assert (0 < sz f) as Hs.
  { assert (0 * bufsz < sz f); [|lia]. apply (mwf_idx _ _ Hw), list_elem_of_fmap.
    exists (mkBuffer 0 d). split; [done|]. by apply find_buf_some. }
  assert (bwf bufsz (with_off f (-1))) as Hb' by (by destruct Hb; split).
  unfold read, read_at. cbn [off sz with_off].
  replace (Z.quot (-1) bufsz) with 0 by (change (-1) with (- (1)); rewrite Z.quot_opp_l, Z.quot_small by lia; done).
  replace (Z.rem (-1) bufsz) with (-1) by (change (-1) with (- (1)); rewrite Z.rem_opp_l, Z.rem_small by lia; done).
  destruct (Z.leb_spec (sz f) (-1)); [lia|].
  assert (exists n, (if sz f <? -1 + bl then wrap 32 (sz f - -1) else bl) = n /\ 0 < n) as (n & -> & Hn).
  { destruct (Z.ltb_spec (sz f) (-1 + bl)); (eexists; split; [reflexivity|]); [|lia].
    rewrite wrap_small by (unfold in_range; lia). lia. }
  replace (Z.to_nat n) with (S (Z.to_nat n - 1)) by lia. cbn [read_loop].
  rewrite (proj2 (Z.eqb_neq n 0)) by lia. change (wrap 32 0) with 0. change (wrap 32 (-1)) with (2 ^ 32 - 1).
  destruct (doGetBuffer_spec bufsz (with_off f (-1)) 0 Hb') as (c & -> & _). cbn [res_bind bv with_off].
  rewrite Hd. unfold slice. rewrite bool_decide_eq_false_2; [done|]. intros (_ & H0 & H1).
  apply find_buf_some in Hd. pose proof (proj1 (Forall_forall _ _) (bwf_buf _ f Hb) _ Hd). cbn in *. lia.
Qed.

Lemma seek_before_start_witness :
  seek (mkMemoryFile 8 2 2 0 [mkBuffer 0 [1; 2; 0; 0]]) (-1) SeekBeg
    = (with_off (mkMemoryFile 8 2 2 0 [mkBuffer 0 [1; 2; 0; 0]]) (-1), -1) /\
  read 4 (with_off (mkMemoryFile 8 2 2 0 [mkBuffer 0 [1; 2; 0; 0]]) (-1)) 1 = Undef.
Proof.
  apply (seek_before_start 4 _ [1; 2; 0; 0]); [lia| |reflexivity|lia]. split; cbn.
  - split; cbn; [repeat constructor|repeat constructor; cbn; unfold max_idx; lia|lia|lia].
  - unfold max_idx. lia.
  - intros q Hq. unfold byte_at. cbn [bv find_buf idx data].
    destruct (Z.eqb_spec 0 (q / 4)) as [E|]; [|done].
    assert (q = 2 \/ q = 3) as [-> | ->]; [|done..]. pose proof (Z.div_mod q 4 ltac:(lia)).
    pose proof (Z.mod_pos_bound q 4 ltac:(lia)). lia.
  - intros j ->%list_elem_of_singleton. lia.
Defined.

End MemoryFile.
