(* ===== verification/TimeStore.v ===== *)
(** * Times and the timer store

    solid/system/nanotime.hpp and nanotime.ipp ([NanoTime]), and solid/frame/timestore.hpp
    ([TimeStore]), the unordered vector of timers of a reactor with the time of the next one. *)

From Stdlib Require Import Permutation.
From S2P Require Import Prelude.

#[local] Open Scope res_scope.

(** ** Times *)

Module NanoTime.

(** [timespec]: both members are signed. [seconds()] reads the first one as unsigned. *)
Record NanoTime := mkNanoTime { tv_sec : Z; tv_nsec : Z }.

#[export] Instance NanoTime_eq_dec : EqDecision NanoTime.
Proof. solve_decision. Defined.

Definition billion : Z := 1000000000.

Definition seconds (t : NanoTime) : Z := wrap 64 (tv_sec t).

Definition maximum : NanoTime := mkNanoTime (-1) (-1).

Definition set (_s _ns : Z) : NanoTime := mkNanoTime (signed 64 _s) _ns.

Definition isMax (t : NanoTime) : bool := tv_sec t =? -1.

(** The carry of the operators: [/] and [%] of C++ truncate. *)
Definition carry (sec nsec : Z) : NanoTime :=
  mkNanoTime (sec + Z.quot nsec billion) (Z.rem nsec billion).

Definition add (t : NanoTime) (_s _ns : Z) : NanoTime :=
  carry (signed 64 (tv_sec t + _s)) (tv_nsec t + _ns).

Definition sub (t : NanoTime) (_s _ns : Z) : NanoTime :=
  let nsec := tv_nsec t - _ns in
  mkNanoTime (signed 64 (tv_sec t - _s) - Z.quot nsec billion) (Z.rem nsec billion).

Definition add_msec (t : NanoTime) (_msec : Z) : NanoTime :=
  carry (tv_sec t + Z.quot _msec 1000) (tv_nsec t + Z.rem _msec 1000 * 1000000).

Definition plus_assign (t _ts : NanoTime) : NanoTime :=
  carry (signed 64 (tv_sec t + seconds _ts)) (tv_nsec t + tv_nsec _ts).

Definition minus_assign (t _ts : NanoTime) : NanoTime :=
  carry (signed 64 (tv_sec t - seconds _ts) - 1) ((tv_nsec t + billion) - tv_nsec _ts).

Definition minus (_ts1 _ts2 : NanoTime) : NanoTime :=
  let sec := tv_sec _ts1 - tv_sec _ts2 in
  let nsec := tv_nsec _ts1 - tv_nsec _ts2 in
  if nsec <? 0 then mkNanoTime (sec - 1) (billion + Z.rem nsec billion) else mkNanoTime sec nsec.

Definition ge (t _ts : NanoTime) : bool :=
  (seconds _ts <? seconds t) || ((seconds t =? seconds _ts) && (tv_nsec _ts <=? tv_nsec t)).

Definition gt (t _ts : NanoTime) : bool :=
  (seconds _ts <? seconds t) || ((seconds t =? seconds _ts) && (tv_nsec _ts <? tv_nsec t)).

Definition le (t _ts : NanoTime) : bool :=
  (seconds t <? seconds _ts) || ((seconds t =? seconds _ts) && (tv_nsec t <=? tv_nsec _ts)).

Definition lt (t _ts : NanoTime) : bool :=
  (seconds t <? seconds _ts) || ((seconds t =? seconds _ts) && (tv_nsec t <? tv_nsec _ts)).

Definition neq (t _ts : NanoTime) : bool :=
  negb (tv_sec t =? tv_sec _ts) || negb (tv_nsec t =? tv_nsec _ts).

Definition eqb (t _ts : NanoTime) : bool :=
  (tv_sec t =? tv_sec _ts) && (tv_nsec t =? tv_nsec _ts).

(** *** The order of times *)

Lemma lt_iff t u :
  lt t u = true <-> seconds t < seconds u \/ (seconds t = seconds u /\ tv_nsec t < tv_nsec u).
Proof. unfold lt. rewrite orb_true_iff, andb_true_iff, !Z.ltb_lt, Z.eqb_eq. lia. Qed.

Lemma lt_false_iff t u :
  lt t u = false <-> seconds u < seconds t \/ (seconds u = seconds t /\ tv_nsec u <= tv_nsec t).
Proof. rewrite <- not_true_iff_false, lt_iff. lia. Qed.

Lemma gt_lt t u : gt t u = lt u t.
Proof. unfold gt, lt. by rewrite (Z.eqb_sym (seconds t)). Qed.

Lemma le_lt t u : le t u = negb (lt u t).
Proof. unfold le, lt. case_Z; cbn; lia. Qed.

Lemma ge_lt t u : ge t u = negb (lt t u).
Proof. unfold ge, lt. case_Z; cbn; lia. Qed.

(** The order as a proposition: [t] is not after [u]. *)
Definition notafter (t u : NanoTime) : Prop := lt u t = false.

#[export] Instance notafter_preorder : PreOrder notafter.
Proof.
  split.
  - intros t. apply lt_false_iff. lia.
  - intros t u v. unfold notafter. rewrite !lt_false_iff. lia.
Qed.

Lemma lt_notafter t u : lt t u = true -> notafter t u.
Proof. unfold notafter. rewrite lt_iff, lt_false_iff. lia. Qed.

Lemma lt_notafter_trans t u v : lt t u = true -> notafter u v -> lt t v = true.
Proof. unfold notafter. rewrite !lt_iff, lt_false_iff. lia. Qed.

Lemma notafter_lt_trans t u v : notafter t u -> lt u v = true -> lt t v = true.
Proof. unfold notafter. rewrite !lt_iff, lt_false_iff. lia. Qed.

(** *** Arithmetic

    A time as the clocks give it. *)
Definition normal (t : NanoTime) : Prop := 0 <= tv_sec t < 2 ^ 62 /\ 0 <= tv_nsec t < billion.

Definition nanos (t : NanoTime) : Z := tv_sec t * billion + tv_nsec t.

Lemma seconds_normal t : normal t -> seconds t = tv_sec t.
Proof. intros [H _]. apply wrap_small. unfold in_range. lia. Qed.

Lemma carry_nanos sec nsec : 0 <= nsec ->
  nanos (carry sec nsec) = sec * billion + nsec /\ 0 <= tv_nsec (carry sec nsec) < billion.
Proof.
  intros Hn. unfold nanos, carry. cbn [tv_sec tv_nsec].
  rewrite Z.quot_div_nonneg, Z.rem_mod_nonneg by (unfold billion; lia).
  pose proof (Z.div_mod nsec billion ltac:(unfold billion; lia)).
  pose proof (Z.mod_pos_bound nsec billion ltac:(unfold billion; lia)). split; [|done]. lia.
Qed.

Lemma normal_nanos t : 0 <= nanos t < 2 ^ 62 * billion -> 0 <= tv_nsec t < billion -> normal t.
Proof. unfold normal, nanos, billion. lia. Qed.

Lemma lt_nanos t u : normal t -> normal u -> lt t u = true <-> nanos t < nanos u.
Proof.
  intros Ht Hu. rewrite lt_iff, !seconds_normal by done.
  destruct Ht as [_ Ht], Hu as [_ Hu]. unfold nanos, billion in *. lia.
Qed.

(** [+=] and [-=] of normal times are the arithmetic of their nanoseconds. *)
Lemma plus_assign_spec t u :
  normal t -> normal u -> nanos t + nanos u < 2 ^ 62 * billion ->
  normal (plus_assign t u) /\ nanos (plus_assign t u) = nanos t + nanos u.
Proof.
  intros Ht Hu Hs. pose proof Ht as [Hts Htn]. pose proof Hu as [Hus Hun].
  unfold plus_assign. rewrite seconds_normal, signed_small by (done || lia).
  destruct (carry_nanos (tv_sec t + tv_sec u) (tv_nsec t + tv_nsec u)) as [E R]; [lia|].
  assert (nanos t + nanos u = (tv_sec t + tv_sec u) * billion + (tv_nsec t + tv_nsec u)) as E1
    by (unfold nanos; lia).
  rewrite <- E1 in E. split; [|done]. apply normal_nanos; [|done]. rewrite E.
  unfold nanos, billion in *. lia.
Qed.

Lemma minus_assign_spec t u :
  normal t -> normal u -> nanos u <= nanos t ->
  normal (minus_assign t u) /\ nanos (minus_assign t u) = nanos t - nanos u.
Proof.
  intros Ht Hu Hs. pose proof Ht as [Hts Htn]. pose proof Hu as [Hus Hun].
  unfold minus_assign. rewrite seconds_normal, signed_small by (done || lia).
  destruct (carry_nanos (tv_sec t - tv_sec u - 1) (tv_nsec t + billion - tv_nsec u)) as [E R]; [lia|].
  assert (nanos t - nanos u = (tv_sec t - tv_sec u - 1) * billion + (tv_nsec t + billion - tv_nsec u)) as E1
    by (unfold nanos; lia).
  rewrite <- E1 in E. split; [|done]. apply normal_nanos; [|done]. rewrite E.
  unfold nanos, billion in *. lia.
Qed.

(** [-] gives the same as [-=]. *)
Lemma minus_spec t u :
  normal t -> normal u -> nanos u <= nanos t ->
  normal (minus t u) /\ nanos (minus t u) = nanos t - nanos u.
Proof.
  intros Ht Hu Hs. pose proof Ht as [Hts Htn]. pose proof Hu as [Hus Hun]. unfold minus.
  destruct (Z.ltb_spec (tv_nsec t - tv_nsec u) 0) as [Hl|Hl].
  - assert (Z.rem (tv_nsec t - tv_nsec u) billion = tv_nsec t - tv_nsec u) as ->.
    { replace (tv_nsec t - tv_nsec u) with (- (tv_nsec u - tv_nsec t)) by lia.
      rewrite Z.rem_opp_l by (unfold billion; lia). rewrite Z.rem_small by lia. lia. }
    unfold normal, nanos, billion in *. cbn [tv_sec tv_nsec]. lia.
  - unfold normal, nanos, billion in *. cbn [tv_sec tv_nsec]. lia.
Qed.

(** [sub] does not borrow: the result is not a time, where [-=] gives one. *)
Lemma sub_does_not_borrow :
  sub (mkNanoTime 5 0) 0 1 = mkNanoTime 5 (-1)
  /\ minus_assign (mkNanoTime 5 0) (mkNanoTime 0 1) = mkNanoTime 4 999999999.
Proof. split; reflexivity. Qed.

End NanoTime.

(** ** The store *)

Module TimeStore.
Import NanoTime.

(** The members: the pairs of time and value, and the time of the next timer. *)
Record TimeStore (V : Type) := mkTimeStore { tv : list (NanoTime * V); mint : NanoTime }.
Arguments mkTimeStore {V} _ _.
Arguments tv {V} _.
Arguments mint {V} _.

(** The store is a member of the object whose functions it calls back: the functions change
    the store, too. [S] is the state of that object. *)
Class StoreIn (S V : Type) := {
  get_store : S -> TimeStore V;
  put_store : TimeStore V -> S -> S;
  get_put x s : get_store (put_store x s) = x
}.

Section Ops.
Context {V : Type}.
Abbreviation store := (TimeStore V).

Definition TimeStore_new : store := mkTimeStore [] maximum.

Definition size (s : store) : Z := Z.of_nat (length (tv s)).

Definition next (s : store) : NanoTime := mint s.

Definition min_time (_rt mint : NanoTime) : NanoTime := if lt _rt mint then _rt else mint.

Definition push (s : store) (_rt : NanoTime) (_rv : V) : store * Z :=
  (mkTimeStore (tv s ++ [(_rt, _rv)]) (min_time _rt (mint s)), size s).

Definition change (s : store) (_idx : Z) (_rt : NanoTime) : res (store * V) :=
  let! e := vec_get (tv s) _idx in
  let! v := vec_set (tv s) _idx (_rt, e.2) in
  let! e := vec_get v _idx in
  Done (mkTimeStore v (min_time _rt (mint s)), e.2).

(** [tv[_idx] = tv.back(); tv.pop_back();] *)
Definition swap_remove (v : list (NanoTime * V)) (_idx : Z) : res (list (NanoTime * V)) :=
  let! b := of_option (last v) in
  let! v := vec_set v _idx b in
  Done (removelast v).

Context {S : Type} {SI : StoreIn S V}.

(** [pop] of a position; [_rf] is told which value moved. *)
Definition pop_at (s : S) (_idx : Z) (_rf : V -> Z -> Z -> S -> res S) : res S :=
  let oldidx := wrap 64 (size (get_store s) - 1) in
  let! v := swap_remove (tv (get_store s)) _idx in
  let s := put_store (mkTimeStore v (mint (get_store s))) s in
  if _idx <? Z.of_nat (length v) then
    let! e := vec_get v _idx in
    _rf e.2 _idx oldidx s
  else Done s.

(** The loop of [pop] of all timers up to [_rt]. Nothing bounds the number of turns: the
    function [_rf1] may push again. *)
Fixpoint pop_loop (fuel : nat) (s : S) (_rt : NanoTime) (_rf1 : Z -> V -> S -> res S)
    (_rf2 : V -> Z -> Z -> S -> res S) (i : Z) (crtmin : NanoTime) : res (S * NanoTime) :=
  match fuel with
  | O => NoFuel
  | Datatypes.S fuel =>
      if i <? size (get_store s) then
        let! rtp := vec_get (tv (get_store s)) i in
        if gt rtp.1 _rt then
          pop_loop fuel s _rt _rf1 _rf2 (i + 1) (min_time rtp.1 crtmin)
        else
          let! s := pop_at s i _rf2 in
          let! s := _rf1 i rtp.2 s in
          pop_loop fuel s _rt _rf1 _rf2 i crtmin
      else Done (s, crtmin)
  end.

Definition pop (fuel : nat) (s : S) (_rt : NanoTime) (_rf1 : Z -> V -> S -> res S)
    (_rf2 : V -> Z -> Z -> S -> res S) : res S :=
  let! x := pop_loop fuel s _rt _rf1 _rf2 0 maximum in
  let '(s, crtmin) := x in
  Done (put_store (mkTimeStore (tv (get_store s)) crtmin) s).

End Ops.

(** ** Positions and times *)

Section Proofs.
Context {V : Type}.
Abbreviation store := (TimeStore V).
Abbreviation entry := (NanoTime * V)%type.
Implicit Types (v : list entry) (e : entry) (t m : NanoTime).

Lemma swap_remove_spec v (n : nat) e :
  v !! n = Some e ->
  exists v', swap_remove v (Z.of_nat n) = Done v' /\ v ≡ₚ e :: v' /\ length v = S (length v')
    /\ take n v' = take n v
    /\ (forall j : nat, (j < length v')%nat -> v' !! j = if decide (j = n) then last v else v !! j).
Proof.
  intros He. assert (n < length v)%nat as Hn by (eapply lookup_lt_Some; eassumption).
  destruct (last v) as [b|] eqn:Hb; [|by apply last_None in Hb; subst].
  unfold swap_remove. rewrite Hb. cbn [of_option res_bind]. rewrite vec_set_done by lia.
  rewrite Nat2Z.id. cbn [res_bind]. eexists; split; [reflexivity|].
  apply last_Some in Hb as [u ->]. rewrite length_app in Hn. cbn in Hn.
  destruct (decide (n = length u)) as [->|Hne].
  - rewrite lookup_app_r, Nat.sub_diag in He by lia. injection He as <-.
    rewrite insert_app_r_alt, Nat.sub_diag by lia. cbn [insert list_insert]. rewrite removelast_last.
    split_and!; [symmetry; apply Permutation_cons_append|rewrite length_app; cbn; lia|by rewrite take_app_le by lia|].
    intros j Hj. rewrite decide_False by lia. by rewrite lookup_app_l by lia.
  - rewrite lookup_app_l in He by lia. rewrite insert_app_l by lia. rewrite removelast_last.
    split_and!.
    + rewrite <- (take_drop_middle u n e He) at 1.
      rewrite insert_take_drop by lia. solve_Permutation.
    + rewrite length_app, length_insert. cbn. lia.
    + rewrite take_insert_ge by lia. by rewrite take_app_le by lia.
    + rewrite length_insert. intros j Hj. case_decide as Hd.
      * subst j. by rewrite list_lookup_insert_eq by lia.
      * rewrite list_lookup_insert_ne by done. by rewrite lookup_app_l by lia.
Qed.

(** The time of the next timer is not after any timer of the store. *)
Definition early (s : store) : Prop := Forall (fun e => notafter (mint s) e.1) (tv s).

Lemma min_time_l t m : notafter (min_time t m) t.
Proof. unfold min_time. destruct (lt t m) eqn:E; [reflexivity|done]. Qed.

Lemma min_time_r t m : notafter (min_time t m) m.
Proof. unfold min_time. destruct (lt t m) eqn:E; [by apply lt_notafter|reflexivity]. Qed.

Lemma early_min (s : store) t v : Forall (fun e => notafter (mint s) e.1) v ->
  Forall (fun e => notafter (min_time t (mint s)) e.1) v.
Proof. intros H. eapply Forall_impl; [exact H|]. intros e He. cbn. etrans; [apply min_time_r|done]. Qed.

Lemma push_early (s : store) t (x : V) : early s -> early (push s t x).1.
Proof.
  intros H. unfold early, push. cbn [fst mint tv]. apply Forall_app. split; [by apply early_min|].
  constructor; [apply min_time_l|constructor].
Qed.

Lemma change_spec (s : store) (n : nat) t e :
  tv s !! n = Some e ->
  change s (Z.of_nat n) t = Done (mkTimeStore (<[n := (t, e.2)]> (tv s)) (min_time t (mint s)), e.2).
Proof.
  intros He. assert (n < length (tv s))%nat as Hn by (eapply lookup_lt_Some; eassumption).
  unfold change. rewrite (proj2 (vec_get_done (tv s) (Z.of_nat n) e)) by (rewrite Nat2Z.id; split; [lia|done]).
  cbn [res_bind]. rewrite vec_set_done by lia. cbn [res_bind]. rewrite Nat2Z.id.
  rewrite (proj2 (vec_get_done (<[n := (t, e.2)]> (tv s)) (Z.of_nat n) (t, e.2))); [done|].
  rewrite Nat2Z.id. split; [lia|]. by apply list_lookup_insert_eq.
Qed.

Lemma change_early (s : store) (n : nat) t e (s' : store) (x : V) :
  early s -> tv s !! n = Some e -> change s (Z.of_nat n) t = Done (s', x) -> early s' /\ x = e.2.
Proof.
  intros H He. rewrite (change_spec s n t e He). intros [= <- <-]. split; [|done].
  unfold early. cbn [mint tv]. apply Forall_insert; [by apply early_min|apply min_time_l].
Qed.

(** [m] is the least of the times of [v], or [maximum] when there are none below it. *)
Definition least (m : NanoTime) v : Prop :=
  Forall (fun e => notafter m e.1) v /\ (m = maximum \/ exists e, e ∈ v /\ e.1 = m).

Lemma least_nil : least maximum [].
Proof. split; [constructor|by left]. Qed.

Lemma least_snoc m v e : least m v -> least (min_time e.1 m) (v ++ [e]).
Proof.
  intros [H1 H2]. split.
  - apply Forall_app. split; [by apply (early_min (mkTimeStore v m))|].
    constructor; [apply min_time_l|constructor].
  - unfold min_time. destruct (lt e.1 m) eqn:E.
    + right. exists e. split; [set_solver|done].
    + destruct H2 as [->|(x & Hx & <-)]; [by left|right]. exists x. split; [set_solver|done].
Qed.

Lemma least_early (s : store) : least (mint s) (tv s) -> early s.
Proof. by intros [? _]. Qed.

#[global] Instance least_proper m : Proper (Permutation ==> iff) (least m).
Proof.
  intros v v' Hp. unfold least. rewrite Hp. split; intros [H1 H2]; (split; [done|]);
    (destruct H2 as [->|(e & He & <-)]; [by left|right; exists e; split; [|done]]).
  - by rewrite <- Hp.
  - by rewrite Hp.
Qed.

(** ** What [pop] does

    [_rt] is the current time; [later e] says that [e] is not due. *)

Section Pop.
Context {S : Type} {SI : StoreIn S V}.
Context (_rt : NanoTime) (_rf1 : Z -> V -> S -> res S) (_rf2 : V -> Z -> Z -> S -> res S).
Context (Inv : S -> Prop) (fired : S -> list V) (k : nat).

Definition later (e : entry) : Prop := lt _rt e.1 = true.

#[global] Instance later_dec e : Decision (later e).
Proof. unfold later. apply _. Defined.

(** The functions, for one due timer: it is fired, and it may push at most [k] timers that
    are not due. *)
Definition fires : Prop := forall (s : S) (n : nat) e,
  Inv s -> tv (get_store s) !! n = Some e -> ~ later e ->
  exists s' v' news,
    (let! s := pop_at s (Z.of_nat n) _rf2 in _rf1 (Z.of_nat n) e.2 s) = Done s'
    /\ swap_remove (tv (get_store s)) (Z.of_nat n) = Done v'
    /\ tv (get_store s') = v' ++ news /\ Forall later news /\ (length news <= k)%nat
    /\ fired s' = fired s ++ [e.2] /\ Inv s'.

(** One turn for a timer that is not due; [k + 1] turns and more for a due one, which pays for
    the timers it pushes. *)
Definition work (v : list entry) : nat := sum_list_with (fun e => if decide (later e) then 1 else Datatypes.S k)%nat v.

Lemma work_app v v' : work (v ++ v') = (work v + work v')%nat.
Proof. apply sum_list_with_app. Qed.

Lemma work_later v : Forall later v -> work v = length v.
Proof.
  induction 1 as [|e v He _ IH]; [done|]. unfold work in *. cbn. rewrite IH.
  by rewrite decide_True by done.
Qed.

#[local] Instance work_proper : Proper (Permutation ==> eq) work.
Proof. intros v v' Hp. unfold work. by rewrite Hp. Qed.

Definition dues v : list V := map snd (filter (fun e => ~ later e) v).

#[local] Instance dues_proper : Proper (Permutation ==> Permutation) dues.
Proof. intros v v' Hp. unfold dues. by rewrite Hp. Qed.

Lemma filter_later_all v : Forall later v -> filter later v = v /\ dues v = [].
Proof.
  intros H. unfold dues. induction H as [|e v He _ [IH1 IH2]]; [done|].
  rewrite !filter_cons, decide_True, (decide_False (P := ~ later e)) by (done || tauto). split; [by rewrite IH1|done].
Qed.

Lemma pop_loop_spec (fuel : nat) : fires -> forall (s : S) (n : nat) m,
  Inv s -> (n <= length (tv (get_store s)))%nat -> Forall later (take n (tv (get_store s))) ->
  least m (take n (tv (get_store s))) -> (work (drop n (tv (get_store s))) < fuel)%nat ->
  exists s' m' news fs,
    pop_loop fuel s _rt _rf1 _rf2 (Z.of_nat n) m = Done (s', m') /\ Inv s'
    /\ tv (get_store s') ≡ₚ filter later (tv (get_store s)) ++ news /\ Forall later news
    /\ fired s' = fired s ++ fs /\ fs ≡ₚ dues (tv (get_store s))
    /\ least m' (tv (get_store s')).
Proof using Type.
  intros Hf. induction fuel as [|fuel IH]; intros s n m Hi Hn Hl Hm Hw; [lia|]. cbn [pop_loop].
  unfold size. destruct (Z.ltb_spec (Z.of_nat n) (Z.of_nat (length (tv (get_store s))))) as [Hlt|Hge].
  2: { rewrite take_ge in Hl, Hm by lia. destruct (filter_later_all _ Hl) as [E1 E2].
       exists s, m, [], []. rewrite E1, E2, !app_nil_r. split_and!; try done. }
  destruct (vec_get_in (tv (get_store s)) (Z.of_nat n)) as (e & Eg & He); [lia|].
  rewrite Nat2Z.id in He. rewrite Eg. cbn [res_bind]. rewrite gt_lt.
  pose proof (drop_S _ _ _ He) as Hdr. rewrite Hdr in Hw. cbn [work] in Hw.
  change (e :: drop (Datatypes.S n) (tv (get_store s))) with ([e] ++ drop (Datatypes.S n) (tv (get_store s))) in Hw.
  rewrite work_app in Hw.
  destruct (lt _rt e.1) eqn:Ed.
  - (* not due *)
    assert (later e) as Hle by exact Ed.
    replace (Z.of_nat n + 1) with (Z.of_nat (Datatypes.S n)) by lia.
    rewrite work_later in Hw by (by constructor). cbn [length] in Hw.
    apply IH; [done|lia| | |lia]; rewrite (take_S_r _ _ _ He).
    + apply Forall_app. split; [done|by constructor].
    + by apply least_snoc.
  - (* due *)
    assert (~ later e) as Hle by (unfold later; congruence).
    destruct (Hf s n e Hi He Hle) as (s' & v' & news & E & Esw & Etv & Hnews & Hk & Hfi & Hi').
    destruct (pop_at s (Z.of_nat n) _rf2) as [s1| |]; cbn [res_bind] in E |- *; try done.
    rewrite E. cbn [res_bind].
    destruct (swap_remove_spec _ _ _ He) as (v1 & Esw1 & Hp & Hlen & Htk & _).
    rewrite Esw in Esw1. injection Esw1 as <-.
    assert (n <= length v')%nat as Hn' by lia.
    assert (take n (v' ++ news) = take n (tv (get_store s))) as Htk' by (by rewrite take_app_le by lia).
    assert (work (drop n v') = work (drop (Datatypes.S n) (tv (get_store s)))) as Hdrop.
    { assert (drop n (tv (get_store s)) ≡ₚ e :: drop n v') as Hpd.
      { apply (Permutation_app_inv_l (take n (tv (get_store s)))).
        rewrite take_drop. rewrite <- Permutation_middle. rewrite <- Htk at 1. by rewrite take_drop. }
      rewrite Hdr in Hpd. apply Permutation_cons_inv in Hpd. by rewrite Hpd. }
    destruct (IH s' n m) as (s2 & m2 & news2 & fs & E2 & Hi2 & Hp2 & Hn2 & Hf2 & Hfs & Hm2).
    { done. }
    { rewrite Etv, length_app. lia. }
    { by rewrite Etv, Htk'. }
    { by rewrite Etv, Htk'. }
    { rewrite Etv, drop_app_le by lia. rewrite work_app, Hdrop, (work_later news) by done.
      assert (work [e] = Datatypes.S k) as He1 by (unfold work; cbn; rewrite decide_False by done; lia). lia. }
    destruct (filter_later_all _ Hnews) as [F1 F2].
    exists s2, m2, (news ++ news2), (e.2 :: fs). split_and!; try done.
    + rewrite Hp2, Etv, filter_app, F1, Hp, filter_cons, decide_False by done. by rewrite <- app_assoc.
    + by apply Forall_app.
    + by rewrite Hf2, Hfi, <- app_assoc.
    + rewrite Hfs, Etv. unfold dues in *. rewrite filter_app, map_app, F2, app_nil_r, Hp, filter_cons.
      by rewrite decide_True by done.
Qed.

(** All timers that are due are fired, each once; the others and the pushed ones stay, and the
    time of the next timer is exact. *)
Lemma pop_spec (fuel : nat) (s : S) :
  fires -> (forall (x : store) (s : S), Inv s -> tv x = tv (get_store s) -> Inv (put_store x s)) ->
  (forall (x : store) (s : S), fired (put_store x s) = fired s) ->
  Inv s -> (work (tv (get_store s)) < fuel)%nat ->
  exists s' news fs, pop fuel s _rt _rf1 _rf2 = Done s' /\ Inv s'
    /\ tv (get_store s') ≡ₚ filter later (tv (get_store s)) ++ news /\ Forall later news
    /\ fired s' = fired s ++ fs /\ fs ≡ₚ dues (tv (get_store s))
    /\ least (mint (get_store s')) (tv (get_store s')).
Proof using Type.
  intros Hf Hput Hfp Hi Hw.
  destruct (pop_loop_spec fuel Hf s 0 maximum) as (s' & m' & news & fs & E & Hi' & Hp & Hn & Hfi & Hfs & Hm);
    [done|lia|constructor|apply least_nil|done|].
  unfold pop. change 0 with (Z.of_nat 0). rewrite E. cbn [res_bind].
  exists (put_store (mkTimeStore (tv (get_store s')) m') s'), news, fs.
  rewrite get_put, Hfp. cbn [tv mint]. split_and!; try done. by apply Hput.
Qed.

(** With functions that only keep [Inv]: [pop] may go on for ever, but it does nothing
    undefined, and keeps [Inv]. *)
Definition safe_fire : Prop := forall (s : S) (n : nat) e,
  Inv s -> tv (get_store s) !! n = Some e -> ~ later e ->
  exists s', (let! s := pop_at s (Z.of_nat n) _rf2 in _rf1 (Z.of_nat n) e.2 s) = Done s' /\ Inv s'.

Lemma pop_loop_safe (fuel : nat) : safe_fire -> forall (s : S) (n : nat) m, Inv s ->
  pop_loop fuel s _rt _rf1 _rf2 (Z.of_nat n) m = NoFuel
  \/ exists s' m', pop_loop fuel s _rt _rf1 _rf2 (Z.of_nat n) m = Done (s', m') /\ Inv s'.
Proof using Type.
  intros Hf. induction fuel as [|fuel IH]; intros s n m Hi; [by left|]. cbn [pop_loop]. unfold size.
  destruct (Z.ltb_spec (Z.of_nat n) (Z.of_nat (length (tv (get_store s))))) as [Hlt|Hge]; [|right; by exists s, m].
  destruct (vec_get_in (tv (get_store s)) (Z.of_nat n)) as (e & Eg & He); [lia|].
  rewrite Nat2Z.id in He. rewrite Eg. cbn [res_bind]. rewrite gt_lt. destruct (lt _rt e.1) eqn:Ed.
  - replace (Z.of_nat n + 1) with (Z.of_nat (Datatypes.S n)) by lia. by apply IH.
  - destruct (Hf s n e Hi He) as (s' & E & Hi'); [unfold later; congruence|].
    destruct (pop_at s (Z.of_nat n) _rf2) as [s1| |]; cbn [res_bind] in E |- *; try done. rewrite E. cbn [res_bind]. by apply IH.
Qed.

Lemma pop_safe (fuel : nat) (s : S) : safe_fire ->
  (forall (x : store) (s : S), Inv s -> tv x = tv (get_store s) -> Inv (put_store x s)) -> Inv s ->
  pop fuel s _rt _rf1 _rf2 = NoFuel \/ exists s', pop fuel s _rt _rf1 _rf2 = Done s' /\ Inv s'.
Proof using Type.
  intros Hf Hput Hi. unfold pop. change 0 with (Z.of_nat 0).
  destruct (pop_loop_safe fuel Hf s 0 maximum Hi) as [->|(s' & m' & -> & Hi')]; [by left|right]. cbn [res_bind]. eexists; split; [reflexivity|]. by apply Hput.
Qed.

End Pop.
End Proofs.
End TimeStore.
