(* ===== verification/Nodes.v ===== *)
(** * Node memory

    The memory below Queue (solid/utility/queue.hpp) and Stack (solid/utility/stack.hpp): nodes
    of [NodeSize] places for objects and a link to another node, allocated with [new] and given
    back with [delete]. A place is raw memory until an object is constructed in it. A pointer to
    an object is the address of a node and a position in it. *)

From stdpp Require Import gmap.
From S2P Require Import Prelude.
#[local] Open Scope res_scope.
#[local] Open Scope Z_scope.
#[local] Set Warnings "-clear-no-such-hyp".

Module Nodes.

Abbreviation NodeAddr := positive.
Abbreviation Ptr := (NodeAddr * Z)%type.

(** [BitsToCount(NBits)] and [BitsToMask(NBits)] *)
Definition NodeSize (NBits : Z) : Z := Z.land (Z.shiftl 1 NBits) (Z.lnot 1).
Definition NodeMask (NBits : Z) : Z := Z.shiftl 1 NBits - 1.

Section Memory.
Context {T : Type} (NBits : Z).

(** [Queue::Node] and [Stack::Node]; the link is [next] or [prev]. *)
Record Node := mkNode { link : option NodeAddr; data : list (option T) }.

Abbreviation Memory := (gmap NodeAddr Node).
Implicit Types (m : Memory).

Definition new_node (m : Memory) (l : option NodeAddr) : Memory * NodeAddr :=
  let a := fresh (dom m) in
  (<[a := mkNode l (replicate (Z.to_nat (NodeSize NBits)) None)]> m, a).

Definition delete_node (m : Memory) (a : NodeAddr) : res Memory :=
  let! _ := of_option (m !! a) in
  Done (delete a m).

Definition set_link (m : Memory) (a : NodeAddr) (l : option NodeAddr) : res Memory :=
  let! n := of_option (m !! a) in
  Done (<[a := mkNode l (data n)]> m).

(** [*p], [new(p) T(x)] and [p->~T()] *)
Definition deref (m : Memory) (p : Ptr) : res T :=
  let! n := of_option (m !! p.1) in
  let! x := vec_get (data n) p.2 in
  of_option x.

Definition put (m : Memory) (p : Ptr) (x : option T) : res Memory :=
  let! n := of_option (m !! p.1) in
  let! d := vec_set (data n) p.2 x in
  Done (<[p.1 := mkNode (link n) d]> m).

Definition construct (m : Memory) (p : Ptr) (x : T) : res Memory := put m p (Some x).

Definition destroy (m : Memory) (p : Ptr) : res Memory :=
  let! _ := deref m p in
  put m p None.

(** The node a pointer to its last (first) place belongs to: the pointer is moved back by the
    size of the node (of its link), which leads to a node only from that place. *)
Definition node_of_last (p : Ptr) : res NodeAddr := if p.2 =? NodeSize NBits - 1 then Done p.1 else Undef.
Definition node_of_first (p : Ptr) : res NodeAddr := if p.2 =? 0 then Done p.1 else Undef.

(** [while(ptn)]: the nodes of the cache are deleted. *)
Fixpoint free_nodes (fuel : nat) (m : Memory) (ptn : option NodeAddr) : res Memory :=
  match ptn with
  | None => Done m
  | Some a =>
      match fuel with
      | O => NoFuel
      | S fuel =>
          let! n := of_option (m !! a) in
          let! m := delete_node m a in
          free_nodes fuel m (link n)
      end
  end.

(** ** Nodes in a row *)

(** The links lead from [p] through the nodes [ns], to the end. *)
Fixpoint chain m (p : option NodeAddr) (ns : list NodeAddr) : Prop :=
  match ns with
  | [] => p = None
  | a :: ns => p = Some a /\ exists n, m !! a = Some n /\ chain m (link n) ns
  end.

(** The places of the nodes [ns], one node after the other. *)
Definition places m (ns : list NodeAddr) : list (option T) := concat (map (fun a => default [] (data <$> m !! a)) ns).

Definition sized m (ns : list NodeAddr) : Prop :=
  Forall (fun a => exists n, m !! a = Some n /\ length (data n) = Z.to_nat (NodeSize NBits)) ns.

(** The pointer to the [k]-th place. *)
Definition at_place (ns : list NodeAddr) (k : Z) : option Ptr :=
  (fun a => (a, k mod NodeSize NBits)) <$> ns !! Z.to_nat (k / NodeSize NBits).

(** With [NBits = 0] a node has no place; [1 << NBits] is an [int]. *)
Hypothesis bits : 1 <= NBits <= 30.

Lemma size_pow : NodeSize NBits = 2 ^ NBits.
Proof.
  unfold NodeSize. rewrite Z.shiftl_1_l. apply Z.bits_inj'. intros i Hi. rewrite Z.land_spec, Z.lnot_spec, Z.pow2_bits_eqb by lia.
  destruct (Z.eqb_spec NBits i) as [<-|]; [|done]. by rewrite (Z.bits_above_log2 1 NBits) by (cbn; lia).
Qed.

Lemma size_pos : 0 < NodeSize NBits.
Proof. rewrite size_pow. lia. Qed.

Lemma land_mask k : Z.land k (NodeMask NBits) = k mod NodeSize NBits.
Proof. rewrite size_pow, <- Z.land_ones by lia. f_equal. Qed.

Lemma nodes_frame m m' p ns : chain m p ns -> (forall a, a ∈ ns -> link <$> m' !! a = link <$> m !! a) -> chain m' p ns.
Proof using Type.
  revert p. induction ns as [|a ns IH]; intros p; [done|]. cbn. intros (-> & n & Hn & Hc) Hm. split; [done|].
  pose proof (Hm a ltac:(left)) as E. rewrite Hn in E. destruct (m' !! a) as [n'|]; [|done]. injection E as E. exists n'. split; [done|].
  rewrite E. apply IH; [done|]. intros b Hb. apply Hm. by right.
Qed.

Lemma chain_head m p ns : chain m p ns -> p = head ns.
Proof using Type. destruct ns; [done|by intros [-> _]]. Qed.

Lemma chain_snoc m p ns b a : chain m p (ns ++ [b]) -> NoDup (ns ++ [b]) -> a ∉ ns ++ [b] -> forall m',
  (forall c, c ∈ ns -> link <$> m' !! c = link <$> m !! c) -> link <$> m' !! b = Some (Some a) -> link <$> m' !! a = Some None ->
  chain m' p ((ns ++ [b]) ++ [a]).
Proof using Type.
  intros Hc Hnd Ha m' Hm Hb Hla. revert p Hc Hnd Ha Hm. induction ns as [|c ns IH]; intros p; cbn.
  - intros (-> & n & Hn & E) _ _ _. split; [done|]. destruct (m' !! b) as [nb|]; [|done]. injection Hb as Hb. exists nb. split; [done|]. rewrite Hb.
    split; [done|]. destruct (m' !! a) as [na|]; [|done]. injection Hla as Hla. by exists na.
  - intros (-> & n & Hn & Hc) [_ Hnd]%NoDup_cons Ha Hm. split; [done|]. pose proof (Hm c ltac:(left)) as E. rewrite Hn in E.
    destruct (m' !! c) as [nc|]; [|done]. injection E as E. exists nc. split; [done|]. rewrite E. apply IH; try done; [by intros ?; apply Ha; right|]. intros d Hd. apply Hm. by right.
Qed.

Lemma places_app m ns ns' : places m (ns ++ ns') = places m ns ++ places m ns'.
Proof using Type. unfold places. by rewrite map_app, concat_app. Qed.

Lemma places_frame m m' ns : (forall a, a ∈ ns -> data <$> m' !! a = data <$> m !! a) -> places m' ns = places m ns.
Proof using Type.
  induction ns as [|a ns IH]; intros H; [done|]. unfold places in *. cbn. rewrite (H a) by left. f_equal. apply IH. intros b Hb. apply H. by right.
Qed.

Lemma sized_frame m m' ns : sized m ns -> (forall a, a ∈ ns -> data <$> m' !! a = data <$> m !! a) -> sized m' ns.
Proof using Type.
  unfold sized. rewrite !Forall_forall. intros Hs H a Ha. destruct (Hs a Ha) as (n & Hn & Hl). pose proof (H a Ha) as E. rewrite Hn in E.
  destruct (m' !! a) as [n'|]; [|done]. injection E as E. exists n'. by rewrite E.
Qed.

Lemma sized_lookup m ns a : sized m ns -> a ∈ ns -> exists n, m !! a = Some n /\ length (data n) = Z.to_nat (NodeSize NBits).
Proof using Type. unfold sized. rewrite Forall_forall. auto. Qed.

Lemma places_length m ns : sized m ns -> Z.of_nat (length (places m ns)) = NodeSize NBits * Z.of_nat (length ns).
Proof.
  pose proof size_pos. induction 1 as [|a ns (n & Hn & Hl) _ IH]; [cbn; lia|]. unfold places in *. cbn [map concat]. rewrite length_app, Hn. cbn. lia.
Qed.

(** The [k]-th place is where [at_place] says. *)
Lemma places_lookup m ns (k : Z) : sized m ns -> 0 <= k < NodeSize NBits * Z.of_nat (length ns) ->
  exists a n, at_place ns k = Some (a, k mod NodeSize NBits) /\ ns !! Z.to_nat (k / NodeSize NBits) = Some a /\ m !! a = Some n
    /\ length (data n) = Z.to_nat (NodeSize NBits)
    /\ places m ns !! Z.to_nat k = data n !! Z.to_nat (k mod NodeSize NBits).
Proof.
  pose proof size_pos as Hs. intros Hsz. revert k. induction Hsz as [|a ns (n & Hn & Hl) Hsz IH]; intros k Hk; [cbn in Hk; lia|].
  unfold at_place. destruct (decide (k < NodeSize NBits)) as [Hlt|Hge].
  - rewrite (Z.div_small k), (Z.mod_small k) by lia. exists a, n. split_and!; try done.
    unfold places. cbn [map concat]. rewrite Hn. cbn. apply lookup_app_l. lia.
  - destruct (IH (k - NodeSize NBits)) as (b & n' & Eat & Hb & Hn' & Hl' & E); [cbn [length] in Hk; lia|].
    assert ((k - NodeSize NBits) / NodeSize NBits = k / NodeSize NBits - 1) as Ed.
    { replace (k - NodeSize NBits) with (k + -1 * NodeSize NBits) by lia. rewrite Z.div_add by lia. lia. }
    assert ((k - NodeSize NBits) mod NodeSize NBits = k mod NodeSize NBits) as Em.
    { replace (k - NodeSize NBits) with (k + -1 * NodeSize NBits) by lia. by rewrite Z.mod_add by lia. }
    assert (1 <= k / NodeSize NBits) as Hd by (apply Z.div_le_lower_bound; lia).
    rewrite Ed in Hb. rewrite Em in E. exists b, n'. replace (Z.to_nat (k / NodeSize NBits)) with (S (Z.to_nat (k / NodeSize NBits - 1))) by lia.
    change ((a :: ns) !! S (Z.to_nat (k / NodeSize NBits - 1))) with (ns !! Z.to_nat (k / NodeSize NBits - 1)). rewrite Hb. split_and!; try done. rewrite <- E. unfold places. cbn [map concat]. rewrite Hn. cbn.
    rewrite lookup_app_r by lia. f_equal. lia.
Qed.

Lemma insert_data m a n n' : m !! a = Some n -> link n' = link n ->
  (forall b, b <> a -> <[a := n']> m !! b = m !! b) /\ (forall b, link <$> <[a := n']> m !! b = link <$> m !! b).
Proof using Type.
  intros Hn El. split; intros b; [intros Hb; by rewrite lookup_insert_ne|].
  destruct (decide (a = b)) as [<-|]; [rewrite lookup_insert_eq, Hn; cbn; by rewrite El|by rewrite lookup_insert_ne].
Qed.

(** Writing to the [k]-th place changes that place only. *)
Lemma put_spec m ns (k : Z) x : sized m ns -> NoDup ns -> 0 <= k < NodeSize NBits * Z.of_nat (length ns) ->
  exists p m', at_place ns k = Some p /\ put m p x = Done m' /\ sized m' ns /\ places m' ns = <[Z.to_nat k := x]> (places m ns)
    /\ (forall b, b ∉ ns -> m' !! b = m !! b) /\ (forall b, link <$> m' !! b = link <$> m !! b) /\ dom m' = dom m.
Proof.
  pose proof size_pos as Hs. intros Hsz Hnd Hk. destruct (places_lookup m ns k Hsz Hk) as (a & n & Eat & Ha & Hn & Hl & _).
  pose proof (Z.mod_pos_bound k (NodeSize NBits) Hs) as Hm. set (n' := mkNode (link n) (<[Z.to_nat (k mod NodeSize NBits) := x]> (data n))).
  exists (a, k mod NodeSize NBits), (<[a := n']> m). destruct (insert_data m a n n' Hn eq_refl) as [Hother Hlink].
  split; [done|]. split; [|split_and!; try done].
  - unfold put. cbn [fst snd]. rewrite Hn. cbn [of_option res_bind]. by rewrite vec_set_done by lia.
  - unfold sized in *. rewrite Forall_forall in Hsz |- *. intros b Hb. destruct (decide (b = a)) as [->|]; [|rewrite Hother by done; by apply Hsz].
    rewrite lookup_insert_eq. exists n'. split; [done|]. cbn. by rewrite length_insert.
  - clear Eat. revert k Hk Ha Hm n' Hother Hlink. induction Hsz as [|b ns (nb & Hnb & Hlb) Hsz IH]; intros k Hk Ha Hm n' Hother Hlink; [cbn in Hk; lia|].
    apply NoDup_cons in Hnd as [Hb Hnd]. change (b :: ns) with ([b] ++ ns). rewrite !places_app.
    assert (forall m, places m [b] = default [] (data <$> m !! b)) as E1 by (intros; unfold places; cbn; by rewrite app_nil_r). rewrite !E1.
    destruct (decide (k < NodeSize NBits)) as [Hlt|Hge].
    + rewrite (Z.div_small k) in Ha by lia. injection Ha as ->. rewrite lookup_insert_eq. rewrite Hn in Hnb |- *. injection Hnb as <-. cbn.
      rewrite insert_app_l by lia. rewrite (Z.mod_small k) by lia. f_equal. apply places_frame. intros c Hc. rewrite Hother; [done|]. by intros ->.
    + assert ((k - NodeSize NBits) / NodeSize NBits = k / NodeSize NBits - 1) as Ed.
      { replace (k - NodeSize NBits) with (k + -1 * NodeSize NBits) by lia. rewrite Z.div_add by lia. lia. }
      assert ((k - NodeSize NBits) mod NodeSize NBits = k mod NodeSize NBits) as Em.
      { replace (k - NodeSize NBits) with (k + -1 * NodeSize NBits) by lia. by rewrite Z.mod_add by lia. }
      assert (1 <= k / NodeSize NBits) as Hd by (apply Z.div_le_lower_bound; lia).
      replace (Z.to_nat (k / NodeSize NBits)) with (S (Z.to_nat ((k - NodeSize NBits) / NodeSize NBits))) in Ha by lia. cbn in Ha.
      assert (b <> a) as Hba by (intros ->; apply Hb; by eapply list_elem_of_lookup_2). rewrite (Hother b Hba), Hnb. cbn.
      rewrite insert_app_r_alt by lia. f_equal. specialize (IH Hnd (k - NodeSize NBits)). rewrite Em in IH. cbn [length] in Hk.
      unfold n'. rewrite IH; try done; [f_equal; lia|lia].
  - intros b Hb. apply Hother. intros ->. apply Hb. by eapply list_elem_of_lookup_2.
  - rewrite dom_insert_L. assert (a ∈ dom m) by (by apply elem_of_dom). set_solver.
Qed.

Lemma deref_spec m ns (k : Z) x : sized m ns -> 0 <= k -> places m ns !! Z.to_nat k = Some (Some x) ->
  exists p, at_place ns k = Some p /\ deref m p = Done x.
Proof.
  intros Hsz Hk Hx. pose proof (places_length m ns Hsz) as Hlen. assert (0 <= k < NodeSize NBits * Z.of_nat (length ns)) as Hk'.
  { apply lookup_lt_Some in Hx. lia. }
  destruct (places_lookup m ns k Hsz Hk') as (a & n & Eat & _ & Hn & _ & E). eexists. split; [exact Eat|].
  unfold deref. cbn [fst snd]. rewrite Hn. cbn [of_option res_bind]. rewrite (proj2 (vec_get_done _ _ (Some x))); [done|].
  split; [apply Z.mod_pos_bound, size_pos|congruence].
Qed.

Lemma at_place_app ns ns' k : 0 <= k < NodeSize NBits * Z.of_nat (length ns) -> at_place (ns ++ ns') k = at_place ns k.
Proof.
  pose proof size_pos. intros Hk. unfold at_place. rewrite lookup_app_l; [done|].
  assert (k / NodeSize NBits < Z.of_nat (length ns)) by (apply Z.div_lt_upper_bound; lia). pose proof (Z.div_pos k (NodeSize NBits)). lia.
Qed.

Lemma at_place_cons a ns k : NodeSize NBits <= k -> at_place (a :: ns) k = at_place ns (k - NodeSize NBits).
Proof.
  pose proof size_pos. intros Hk. unfold at_place. replace (k - NodeSize NBits) with (k + -1 * NodeSize NBits) by lia. rewrite Z.div_add, Z.mod_add by lia.
  assert (1 <= k / NodeSize NBits) by (apply Z.div_le_lower_bound; lia).
  by replace (Z.to_nat (k / NodeSize NBits)) with (S (Z.to_nat (k / NodeSize NBits + -1))) by lia.
Qed.

(** Different places have different pointers. *)
Lemma at_place_inj ns k k' p : NoDup ns -> 0 <= k -> 0 <= k' -> at_place ns k = Some p -> at_place ns k' = Some p -> k = k'.
Proof.
  pose proof size_pos. intros Hnd Hk Hk'. unfold at_place.
  destruct (ns !! Z.to_nat (k / NodeSize NBits)) as [a|] eqn:E; [|done]. destruct (ns !! Z.to_nat (k' / NodeSize NBits)) as [a'|] eqn:E'; [|done].
  cbn. intros [= <-] [= -> Em]. assert (k / NodeSize NBits = k' / NodeSize NBits) as Ed.
  { pose proof (NoDup_lookup ns _ _ a Hnd E E'). pose proof (Z.div_pos k (NodeSize NBits)). pose proof (Z.div_pos k' (NodeSize NBits)). lia. }
  rewrite (Z.div_mod k (NodeSize NBits)), (Z.div_mod k' (NodeSize NBits)) by lia. by rewrite Ed, Em.
Qed.

Lemma new_node_spec m l : exists a, new_node m l = (<[a := mkNode l (replicate (Z.to_nat (NodeSize NBits)) None)]> m, a) /\ m !! a = None.
Proof using Type. eexists. split; [reflexivity|]. apply not_elem_of_dom, is_fresh. Qed.

Lemma node_link_spec m a n l : m !! a = Some n -> set_link m a l = Done (<[a := mkNode l (data n)]> m).
Proof using Type. intros Hn. unfold set_link. by rewrite Hn. Qed.

Lemma sized_app m ns ns' : sized m (ns ++ ns') <-> sized m ns /\ sized m ns'.
Proof using Type. apply Forall_app. Qed.

Lemma places_one m a n : m !! a = Some n -> places m [a] = data n.
Proof using Type. intros H. unfold places. cbn. rewrite H. cbn. apply app_nil_r. Qed.

(** The pointer to the place behind a full row. *)
Lemma at_place_new ns a : at_place (ns ++ [a]) (NodeSize NBits * Z.of_nat (length ns)) = Some (a, 0).
Proof.
  pose proof (size_pos). unfold at_place. rewrite Z.mul_comm, Z.div_mul, Z.mod_mul, Nat2Z.id by lia.
  by rewrite lookup_app_r, Nat.sub_diag by lia.
Qed.

Lemma at_place_last ns b : at_place (ns ++ [b]) (NodeSize NBits * Z.of_nat (length (ns ++ [b])) - 1) = Some (b, NodeSize NBits - 1).
Proof.
  pose proof (size_pos). rewrite length_app. cbn [length]. unfold at_place.
  replace (NodeSize NBits * Z.of_nat (length ns + 1) - 1) with ((NodeSize NBits - 1) + Z.of_nat (length ns) * NodeSize NBits) by lia.
  rewrite Z.div_add, Z.mod_add, Z.div_small, Z.mod_small, Z.add_0_l, Nat2Z.id by lia. by rewrite lookup_app_r, Nat.sub_diag by lia.
Qed.

Lemma last_node ns : match at_place ns (NodeSize NBits * Z.of_nat (length ns) - 1) with
    | Some p => let! a := node_of_last p in Done (Some a)
    | None => Done None
    end = Done (last ns).
Proof.
  destruct ns as [|b ns _] using rev_ind; [done|]. rewrite at_place_last. unfold node_of_last. cbn [fst snd]. rewrite Z.eqb_refl. cbn [res_bind].
  by rewrite last_snoc.
Qed.

(** Moving a pointer to the next place. *)
Lemma next_place ns k : 0 <= k -> (k + 1) mod NodeSize NBits <> 0 ->
  at_place ns (k + 1) = (fun p => (p.1, p.2 + 1)) <$> at_place ns k.
Proof.
  pose proof size_pos as HN. intros Hk Hm. unfold at_place. pose proof (Z.mod_pos_bound k (NodeSize NBits) HN).
  pose proof (Z.div_mod k (NodeSize NBits) ltac:(lia)) as Ek. assert (k mod NodeSize NBits <> NodeSize NBits - 1) as Hne.
  { intros E. apply Hm. replace (k + 1) with ((k / NodeSize NBits + 1) * NodeSize NBits) by lia. apply Z.mod_mul. lia. }
  assert ((k + 1) / NodeSize NBits = k / NodeSize NBits /\ (k + 1) mod NodeSize NBits = k mod NodeSize NBits + 1) as [E1 E2].
  { replace (k + 1) with ((k mod NodeSize NBits + 1) + (k / NodeSize NBits) * NodeSize NBits) by lia. rewrite Z.div_add, Z.mod_add, Z.div_small, Z.mod_small by lia. lia. }
  rewrite E1, E2. by destruct (ns !! Z.to_nat (k / NodeSize NBits)).
Qed.

Lemma free_nodes_spec cs : forall fuel m p, chain m p cs -> NoDup cs -> (length cs <= fuel)%nat ->
  exists m', free_nodes fuel m p = Done m' /\ (forall a, a ∈ cs -> m' !! a = None) /\ (forall a, a ∉ cs -> m' !! a = m !! a).
Proof using Type.
  induction cs as [|c cs IH]; intros fuel m p; cbn [chain].
  { intros -> _ _. exists m. split; [by destruct fuel|]. split; [intros a ?%not_elem_of_nil|]; done. }
  intros (-> & n & Hn & Hch) [Hc Hnd]%NoDup_cons Hf. cbn [length] in Hf. destruct fuel as [|fuel]; [lia|]. cbn [free_nodes]. unfold delete_node. rewrite Hn. cbn [of_option res_bind].
  destruct (IH fuel (delete c m) (link n)) as (m' & E & H1 & H2); [|done|lia|].
  { apply (nodes_frame m); [done|]. intros a Ha. rewrite lookup_delete_ne; [done|]. by intros ->. }
  exists m'. split; [done|]. split.
  - intros a [->|Ha]%elem_of_cons; [rewrite H2 by done; apply lookup_delete_eq|by apply H1].
  - intros a [Hne Ha]%not_elem_of_cons. rewrite H2 by done. by rewrite lookup_delete_ne.
Qed.

Lemma length_dom m ns : NoDup ns -> (forall a, a ∈ ns -> is_Some (m !! a)) -> (length ns <= base.size m)%nat.
Proof using Type.
  intros Hnd H. rewrite <- size_dom. replace (length ns) with (base.size (list_to_set (C := gset NodeAddr) ns)) by (by apply size_list_to_set).
  apply subseteq_size. intros a Ha. apply elem_of_dom, H. by apply elem_of_list_to_set in Ha.
Qed.

(** A node of the cache has raw places only. *)
Lemma raw_data m c n cs : sized m (c :: cs) -> Forall (fun x => x = None) (places m (c :: cs)) -> m !! c = Some n ->
  data n = replicate (Z.to_nat (NodeSize NBits)) None.
Proof using Type.
  intros Hs Hraw Hn. destruct (sized_lookup m _ c Hs) as (n' & Hn' & Hl); [left|]. assert (n' = n) as -> by congruence.
  change (c :: cs) with ([c] ++ cs) in Hraw. rewrite places_app, (places_one m c n Hn), Forall_app in Hraw. destruct Hraw as [Hraw _].
  rewrite <- Hl. clear -Hraw. induction Hraw as [|x d -> _ IH]; cbn; [done|by f_equal].
Qed.

(** Less than a node of raw places, and a multiple of the size of a node in use: there are none. *)
Lemma slack_zero (len : nat) used (k : nat) : NodeSize NBits * Z.of_nat len = used + Z.of_nat k -> Z.of_nat k < NodeSize NBits ->
  used mod NodeSize NBits = 0 -> k = 0%nat.
Proof.
  pose proof size_pos. intros E Hk Hm. rewrite (Z.div_mod used (NodeSize NBits)), Hm in E by lia. assert (Z.of_nat k mod NodeSize NBits = 0) as Ek; [|rewrite Z.mod_small in Ek; lia].
  replace (Z.of_nat k) with ((Z.of_nat len - used / NodeSize NBits) * NodeSize NBits) by lia. apply Z.mod_mul. lia.
Qed.

End Memory.
End Nodes.
