(* ===== verification/Queue.v ===== *)
(** * The queue

    solid/utility/queue.hpp: a queue in nodes (Nodes.v). Nodes that are used up go to a cache
    and are used again. It refines a list; objects stay where they were pushed until they are
    popped, which the reactor relies on: the function at the front of its queue runs while
    others are pushed. The counters are not bounded: they count objects in memory. *)

From stdpp Require Import gmap.
From S2P Require Import Prelude Nodes.
Import Nodes.
#[local] Open Scope res_scope.
#[local] Open Scope Z_scope.
#[local] Set Warnings "-clear-no-such-hyp".

Module Queue.

Record Queue := mkQueue {
  sz : Z;
  popsz : Z;
  pb : option Ptr;
  pf : option Ptr;
  ptn : option NodeAddr
}.

Definition Queue_new : Queue := mkQueue 0 0 None None None.

Definition with_pf (q : Queue) (x : option Ptr) : Queue := mkQueue (sz q) (popsz q) (pb q) x (ptn q).
Definition with_ptn (q : Queue) (x : option NodeAddr) : Queue := mkQueue (sz q) (popsz q) (pb q) (pf q) x.

(** The move constructor and the move assignment: what is left of the source is empty. The
    assignment does not look at what the target had. *)
Definition move (_rq : Queue) : Queue * Queue := (_rq, Queue_new).
Definition move_assign (q _rq : Queue) : Queue * Queue := (_rq, Queue_new).

Section Ops.
Context {T : Type} (NBits : Z).
Abbreviation Memory := (gmap NodeAddr (Node (T := T))).

Definition empty (q : Queue) : bool := sz q =? 0.
Definition size (q : Queue) : Z := sz q.

(** [++p] *)
Definition incr (p : option Ptr) : res Ptr :=
  let! p := of_option p in
  Done (p.1, p.2 + 1).

Definition pushNode (m : Memory) (q : Queue) (_p : option Ptr) : res (Memory * Queue * Ptr) :=
  let! pn := match _p with
             | Some p => let! a := node_of_last NBits p in Done (Some a)
             | None => Done None
             end in
  match ptn q with
  | Some tn =>
      let! n := of_option (m !! tn) in
      let q := with_ptn q (link n) in
      let! m := set_link m tn None in
      match pn with
      | Some pn =>
          let! m := set_link m pn (Some tn) in
          Done (m, q, (tn, 0))
      | None => Done (m, with_pf q (Some (tn, 0)), (tn, 0))
      end
  | None =>
      match pn with
      | Some pn =>
          let '(m, tn) := new_node NBits m None in
          let! m := set_link m pn (Some tn) in
          Done (m, q, (tn, 0))
      | None =>
          let '(m, pn) := new_node NBits m None in
          Done (m, with_pf q (Some (pn, 0)), (pn, 0))
      end
  end.

Definition push (m : Memory) (q : Queue) (_t : T) : res (Memory * Queue) :=
  let! x :=
    (if negb (Z.land (sz q + popsz q) (NodeMask NBits) =? 0) then
       let! p := incr (pb q) in Done (m, q, p)
     else pushNode m q (pb q)) in
  let '(m, q, p) := x in
  let q := mkQueue (sz q + 1) (popsz q) (Some p) (pf q) (ptn q) in
  let! m := construct m p _t in
  Done (m, q).

Definition back (m : Memory) (q : Queue) : res T :=
  let! p := of_option (pb q) in
  deref m p.

Definition front (m : Memory) (q : Queue) : res T :=
  let! p := of_option (pf q) in
  deref m p.

Definition popNode (m : Memory) (q : Queue) (_p : option Ptr) : res (Memory * Queue * option Ptr) :=
  let! p := of_option _p in
  let! pn := node_of_last NBits p in
  let! n := of_option (m !! pn) in
  let ppn := link n in
  let! m := set_link m pn (ptn q) in
  let q := with_ptn q (Some pn) in
  match ppn with
  | Some ppn => Done (m, q, Some (ppn, 0))
  | None => Done (m, mkQueue (sz q) (popsz q) None (pf q) (ptn q), None)
  end.

Definition pop (m : Memory) (q : Queue) : res (Memory * Queue) :=
  let! p := of_option (pf q) in
  let! m := destroy m p in
  let q := mkQueue (sz q - 1) (popsz q + 1) (pb q) (pf q) (ptn q) in
  if negb (Z.land (popsz q) (NodeMask NBits) =? 0) then
    let! p := incr (pf q) in
    Done (m, with_pf q (Some p))
  else
    let! x := popNode m q (pf q) in
    let '(m, q, p) := x in
    Done (m, mkQueue (sz q) 0 (pb q) p (ptn q)).

(** The destructor *)
Fixpoint pops (n : nat) (m : Memory) (q : Queue) : res (Memory * Queue) :=
  match n with
  | O => Done (m, q)
  | S n => let! x := pop m q in pops n x.1 x.2
  end.

Definition Queue_delete (m : Memory) (q : Queue) : res Memory :=
  let! x := pops (Z.to_nat (sz q)) m q in
  let '(m, q) := x in
  let! pn := match pf q with
             | Some p => if p.2 =? popsz q then Done (Some p.1) else Undef
             | None => Done None
             end in
  let! m := free_nodes (base.size m) m (ptn q) in
  match pn with
  | Some pn => delete_node m pn
  | None => Done m
  end.

(** ** What it stands for *)

Abbreviation N := (NodeSize NBits).
Implicit Types (m base : Memory) (q : Queue) (l : list (Ptr * T)).

(** The queue [q] holds the objects [l], each at its address, in the nodes [ns]; the last [k]
    places of these are raw. [cs] are the cached nodes. Beside the nodes of the queue, the memory
    is [base]. *)
Record rep_at base m q l (ns cs : list NodeAddr) (k : nat) : Prop := {
  rp_nodup : NoDup (ns ++ cs);
  rp_base : forall a, (a ∈ ns ++ cs -> base !! a = None) /\ (a ∉ ns ++ cs -> m !! a = base !! a);
  rp_sized : sized NBits m (ns ++ cs);
  rp_raw : Forall (fun x => x = None) (places m cs);
  rp_chain : chain m (head ns) ns;
  rp_cache : chain m (ptn q) cs;
  rp_popsz : 0 <= popsz q < N;
  rp_sz : sz q = Z.of_nat (length l);
  rp_places : places m ns = replicate (Z.to_nat (popsz q)) None ++ map (Some ∘ snd) l ++ replicate k None;
  rp_pf : pf q = at_place NBits ns (popsz q);
  rp_ptrs : forall (i : nat) p x, l !! i = Some (p, x) -> at_place NBits ns (popsz q + Z.of_nat i) = Some p
}.

Definition rep base m q l : Prop :=
  exists ns cs k, Z.of_nat k < N /\ rep_at base m q l ns cs k /\ pb q = at_place NBits ns (popsz q + sz q - 1).

Hypothesis bits : 1 <= NBits <= 30.

Lemma queue_rep_count base m q l ns cs k : rep_at base m q l ns cs k ->
  N * Z.of_nat (length ns) = popsz q + sz q + Z.of_nat k.
Proof.
  intros Hr. pose proof (proj1 (proj1 (sized_app NBits _ _ _) (rp_sized _ _ _ _ _ _ _ Hr))) as Hs. pose proof (places_length NBits bits m ns Hs) as H.
  rewrite (rp_places _ _ _ _ _ _ _ Hr), !length_app, length_map, !length_replicate in H. pose proof (rp_popsz _ _ _ _ _ _ _ Hr). rewrite (rp_sz _ _ _ _ _ _ _ Hr). lia.
Qed.

Lemma queue_rep_new m : rep m m Queue_new [].
Proof.
  pose proof (size_pos NBits bits). exists [], [], 0%nat. split; [done|]. split; [|done].
  constructor; try done; [by apply NoDup_nil|intros a; split; [intros ?%not_elem_of_nil|]; done|constructor].
Qed.

(** Constructing an object in the next raw place. *)
Lemma queue_write_spec base m q l ns cs k x : rep_at base m q l ns cs (S k) ->
  exists p m', at_place NBits ns (popsz q + sz q) = Some p /\ construct m p x = Done m'
    /\ rep_at base m' (mkQueue (sz q + 1) (popsz q) (Some p) (pf q) (ptn q)) (l ++ [(p, x)]) ns cs k.
Proof.
  intros Hr. pose proof (queue_rep_count _ _ _ _ _ _ _ Hr) as Hc. pose proof (size_pos NBits bits). destruct Hr as [H1 H2 H3 H3' H4 H5 H6 H7 H8 H9 H10].
  pose proof H3 as [Hs1 Hs2]%sized_app. pose proof H1 as (Hnd & Hdis & _)%NoDup_app.
  destruct (put_spec NBits bits m ns (popsz q + sz q) (Some x) Hs1 Hnd) as (p & m' & Ep & E & Hs' & Ep' & Hout & Hlink & _); [lia|].
  assert (forall a, a ∈ cs -> m' !! a = m !! a) as Hcs by (intros a Ha; apply Hout; intros Hn; by apply (Hdis a)).
  exists p, m'. split; [done|]. split; [exact E|]. constructor; cbn; try done.
  - intros a. split; [apply H2|]. intros Ha. rewrite Hout by set_solver. by apply H2.
  - apply sized_app. split; [done|]. apply (sized_frame NBits m); [done|]. intros a Ha. by rewrite Hcs.
  - rewrite (places_frame m); [done|]. intros a Ha. by rewrite Hcs.
  - apply (nodes_frame m); [done|]. intros a _. apply Hlink.
  - apply (nodes_frame m); [done|]. intros a _. apply Hlink.
  - rewrite length_app. cbn. lia.
  - rewrite Ep', H8, H7, map_app, <- app_assoc. rewrite insert_app_r_alt, length_replicate by (rewrite length_replicate; lia). f_equal.
    rewrite insert_app_r_alt, length_map by (rewrite length_map; lia). f_equal.
    by replace (_ - _)%nat with 0%nat by lia.
  - intros i p' x' [[_ Hi]|[-> [= <- <-]]]%lookup_snoc_Some; [by eapply H10|]. by rewrite <- H7.
Qed.

(** A node [a], from the cache or new, behind the others. *)
Lemma queue_rep_grown base m q l ns cs m' q' a cs' : rep_at base m q l ns cs 0 ->
  m' !! a = Some (mkNode None (replicate (Z.to_nat N) None)) ->
  (forall b, b ∈ ns -> data <$> m' !! b = data <$> m !! b) -> (forall b, b ∉ ns -> b <> a -> m' !! b = m !! b) ->
  chain m' (head (ns ++ [a])) (ns ++ [a]) -> (cs = a :: cs') \/ (cs = cs' /\ (a ∉ ns ++ cs) /\ base !! a = None) ->
  chain m (ptn q') cs' -> popsz q' = popsz q -> sz q' = sz q -> pf q' = at_place NBits (ns ++ [a]) (popsz q) ->
  rep_at base m' q' l (ns ++ [a]) cs' (Z.to_nat N).
Proof.
  intros Hr Ha Hdata Hout Hch Hcs Hptn Ep Es Epf. pose proof (queue_rep_count _ _ _ _ _ _ _ Hr) as Hc. pose proof (size_pos NBits bits).
  destruct Hr as [H1 H2 H3 H3' H4 H5 H6 H7 H8 H9 H10]. pose proof H3 as [Hs1 Hs2]%sized_app.
  assert (NoDup ((ns ++ [a]) ++ cs')) as Hnd.
  { destruct Hcs as [->|(<- & Hn & _)]; [by rewrite <- app_assoc|]. rewrite <- app_assoc. apply NoDup_app in H1 as (N1 & N2 & N3). apply NoDup_app.
    split_and!; [done|intros b Hb; specialize (N2 b Hb); set_solver|constructor; [set_solver|done]]. }
  assert (forall b, b ∈ cs' -> m' !! b = m !! b) as Hcs'.
  { intros b Hb. apply NoDup_app in Hnd as (_ & N2 & _). apply Hout; intros Hx; apply (N2 b); set_solver. }
  assert (sized NBits m cs' /\ Forall (fun x => x = None) (places m cs')) as [Hsz Hraw].
  { destruct Hcs as [->|(<- & _)]; [|done]. apply Forall_cons in Hs2 as [_ ?]. split; [done|]. change (a :: cs') with ([a] ++ cs') in H3'.
    rewrite places_app in H3'. by apply Forall_app in H3' as [_ ?]. }
  constructor; rewrite ?Ep, ?Es; try done.
  - intros b. split.
    + intros Hb. destruct Hcs as [->|(<- & Hn & Hb0)]; [apply H2; set_solver|]. destruct (decide (b = a)) as [->|]; [done|]. apply H2. set_solver.
    + intros Hb. rewrite Hout by set_solver. apply H2. destruct Hcs as [->|(<- & _)]; set_solver.
  - rewrite !sized_app. split; [split|].
    + apply (sized_frame NBits m); done.
    + constructor; [|constructor]. eexists. split; [exact Ha|]. cbn. by rewrite length_replicate.
    + apply (sized_frame NBits m); [done|]. intros b Hb. by rewrite Hcs'.
  - rewrite (places_frame m); [done|]. intros b Hb. by rewrite Hcs'.
  - apply (nodes_frame m); [done|]. intros b Hb. by rewrite Hcs'.
  - rewrite places_app, (places_frame m) by done. rewrite (places_one m' a _ Ha), H8. cbn [data replicate]. rewrite app_nil_r. by rewrite <- app_assoc.
  - intros i p x Hi. rewrite at_place_app; [by eapply H10|done|]. apply lookup_lt_Some in Hi. lia.
Qed.

(** The new node [a] is linked behind the last one. *)
Lemma link_last m m1 ns a : (forall b, b <> a -> m1 !! b = m !! b) -> m1 !! a = Some (mkNode None (replicate (Z.to_nat N) None)) -> a ∉ ns ->
  NoDup ns -> sized NBits m ns -> chain m (head ns) ns ->
  exists m2, match last ns with Some b => set_link m1 b (Some a) | None => Done m1 end = Done m2
    /\ m2 !! a = Some (mkNode None (replicate (Z.to_nat N) None)) /\ (forall b, b ∈ ns -> data <$> m2 !! b = data <$> m !! b)
    /\ (forall b, b ∉ ns -> b <> a -> m2 !! b = m !! b) /\ chain m2 (head (ns ++ [a])) (ns ++ [a]).
Proof using Type.
  intros Hm Ha Han Hnd Hsz Hch. destruct ns as [|b ns _] using rev_ind.
  - exists m1. split_and!; try done; [intros b ?%not_elem_of_nil; done|intros b _; apply Hm|]. split; [done|]. eexists. by split.
  - rewrite last_snoc. destruct (sized_lookup NBits m _ b Hsz) as (n & Hn & _); [apply elem_of_app; right; left|].
    apply not_elem_of_app in Han as [Han Hba]. assert (b <> a) as Hba' by (intros ->; apply Hba; left).
    assert (m1 !! b = Some n) as Hn1 by (by rewrite Hm). pose proof Hnd as (_ & Hnb & _)%NoDup_app.
    assert (forall c, c ∈ ns -> c <> b /\ c <> a) as Hc by (intros c Hc; split; [intros ->; by apply (Hnb b Hc); left|by intros ->]).
    exists (<[b := mkNode (Some a) (data n)]> m1). split_and!.
    + by apply node_link_spec.
    + by rewrite lookup_insert_ne.
    + intros c [Hcc| ->%list_elem_of_singleton]%elem_of_app; [|by rewrite lookup_insert_eq, Hn]. destruct (Hc c Hcc). rewrite lookup_insert_ne by done. by rewrite Hm.
    + intros c [_ Hcc]%not_elem_of_app Hca. rewrite lookup_insert_ne by (intros ->; apply Hcc; left). by apply Hm.
    + assert (head ((ns ++ [b]) ++ [a]) = head (ns ++ [b])) as -> by (by destruct ns). apply (chain_snoc m); try done.
      * apply not_elem_of_app. done.
      * intros c Hcc. destruct (Hc c Hcc). rewrite lookup_insert_ne by done. by rewrite Hm.
      * by rewrite lookup_insert_eq.
      * rewrite lookup_insert_ne by done. by rewrite Ha.
Qed.

Lemma queue_pushNode_spec base m q l ns cs : rep_at base m q l ns cs 0 -> pb q = at_place NBits ns (popsz q + sz q - 1) ->
  exists m' q' p a cs', pushNode m q (pb q) = Done (m', q', p) /\ rep_at base m' q' l (ns ++ [a]) cs' (Z.to_nat N)
    /\ at_place NBits (ns ++ [a]) (popsz q + sz q) = Some p /\ popsz q' = popsz q /\ sz q' = sz q.
Proof.
  intros Hr Hpb. pose proof (queue_rep_count _ _ _ _ _ _ _ Hr) as Hc. rewrite Z.add_0_r in Hc. rewrite <- Hc in Hpb |- *.
  pose proof Hr as [H1 H2 H3 H3' H4 H5 H6 H7 H8 H9 H10]. pose proof H1 as (Hnd & Hdis & Hndc)%NoDup_app. pose proof H3 as [Hs1 Hs2]%sized_app.
  pose proof (size_pos NBits bits) as HN.
  assert (forall a, (ns = [] -> Some (a, 0) = at_place NBits (ns ++ [a]) (popsz q)) /\ (ns <> [] -> pf q = at_place NBits (ns ++ [a]) (popsz q))) as Hpf.
  { intros a. split.
    - intros ->. cbn [length] in Hc. assert (popsz q = N * Z.of_nat (length (A := NodeAddr) [])) as -> by (cbn; lia). by rewrite at_place_new by done.
    - intros Hne. rewrite H9. symmetry. apply at_place_app; [done|]. destruct ns; [done|]. cbn [length]. lia. }
  unfold pushNode. rewrite Hpb, (last_node NBits bits). cbn [res_bind]. destruct cs as [|c cs].
  - cbn in H5. rewrite H5. destruct (new_node_spec NBits m None) as (a & E & Ha). rewrite E.
    assert (a ∉ ns) as Han by (intros Hin; destruct (sized_lookup NBits m ns a Hs1 Hin) as (? & ? & _); congruence).
    assert (base !! a = None) as Hb by (rewrite <- (proj2 (H2 a)); [done|by rewrite app_nil_r]). set (m1 := <[a := _]> m) in *.
    destruct (link_last m m1 ns a) as (m2 & E2 & A1 & A2 & A3 & A4); try done; [intros b Hb'; by apply lookup_insert_ne|by apply lookup_insert_eq|].
    destruct (last ns) as [b|] eqn:El.
    + rewrite E2. cbn [res_bind]. exists m2, q, (a, 0), a, []. rewrite at_place_new by done. split_and!; try done.
      apply (queue_rep_grown base m q l ns [] m2 q a []); try done; [right; by rewrite app_nil_r|apply Hpf; by intros ->].
    + apply last_None in El as ->. injection E2 as <-. exists m1, (with_pf q (Some (a, 0))), (a, 0), a, []. rewrite at_place_new by done. split_and!; try done.
      apply (queue_rep_grown base m q l [] [] m1 _ a []); try done; [by right|by apply Hpf].
  - destruct H5 as (Eptn & n & Hn & Hch). rewrite Eptn, Hn. cbn [of_option res_bind]. rewrite (node_link_spec m c n None Hn). cbn [res_bind].
    rewrite (raw_data NBits m c n cs Hs2 H3' Hn). set (m1 := <[c := _]> m). assert (c ∉ ns) as Hcn by (intros Hin; apply (Hdis c Hin); left).
    destruct (link_last m m1 ns c) as (m2 & E2 & A1 & A2 & A3 & A4); try done; [intros b Hb'; by apply lookup_insert_ne|by apply lookup_insert_eq|].
    destruct (last ns) as [b|] eqn:El.
    + rewrite E2. cbn [res_bind]. exists m2, (with_ptn q (link n)), (c, 0), c, cs. rewrite at_place_new by done. split_and!; try done.
      apply (queue_rep_grown base m q l ns (c :: cs) m2 _ c cs); try done; [by left|apply Hpf; by intros ->].
    + apply last_None in El as ->. injection E2 as <-. exists m1, (with_pf (with_ptn q (link n)) (Some (c, 0))), (c, 0), c, cs. rewrite at_place_new by done. split_and!; try done.
      apply (queue_rep_grown base m q l [] (c :: cs) m1 _ c cs); try done; [by left|by apply Hpf].
Qed.

Lemma queue_push_spec base m q l x : rep base m q l ->
  exists m' q' p, push m q x = Done (m', q') /\ rep base m' q' (l ++ [(p, x)]).
Proof.
  intros (ns & cs & k & Hk & Hr & Hpb). pose proof (queue_rep_count _ _ _ _ _ _ _ Hr) as Hc. pose proof (size_pos NBits bits) as HN.
  pose proof (rp_popsz _ _ _ _ _ _ _ Hr) as Hp. pose proof (rp_sz _ _ _ _ _ _ _ Hr) as Hsz. unfold push. rewrite land_mask by done.
  rewrite (Z.add_comm (sz q)). destruct (Z.eqb_spec ((popsz q + sz q) mod N) 0) as [Hm|Hm]; cbn [negb].
  - assert (k = 0%nat) as -> by (apply (slack_zero NBits bits (length ns) (popsz q + sz q)); [lia|done|done]).
    destruct (queue_pushNode_spec base m q l ns cs Hr Hpb) as (m1 & q1 & p & a & cs' & E & Hr1 & Ep & E1 & E2). rewrite E. cbn [res_bind].
    destruct (Z.to_nat N) as [|k] eqn:EN; [lia|]. destruct (queue_write_spec base m1 q1 l (ns ++ [a]) cs' k x Hr1) as (p' & m2 & Ep' & Ew & Hr2).
    rewrite E1, E2, Ep in Ep'. injection Ep' as <-. rewrite Ew. cbn [res_bind]. do 3 eexists. split; [reflexivity|].
    exists (ns ++ [a]), cs', k. split; [lia|]. split; [exact Hr2|]. cbn [popsz sz pb]. rewrite E1, E2, <- Ep. f_equal. lia.
  - assert (0 <= popsz q + sz q - 1) as H0 by (destruct (decide (popsz q + sz q = 0)) as [E|]; [rewrite E, Z.mod_0_l in Hm by lia; done|lia]).
    destruct k as [|k].
    { destruct Hm. replace (popsz q + sz q) with (Z.of_nat (length ns) * N) by lia. apply Z.mod_mul. lia. }
    destruct (queue_write_spec base m q l ns cs k x Hr) as (p & m' & Ep & Ew & Hr').
    destruct (places_lookup NBits bits m ns (popsz q + sz q - 1)) as (a & n & Eat & _); [exact (proj1 (proj1 (sized_app NBits _ _ _) (rp_sized _ _ _ _ _ _ _ Hr)))|lia|].
    pose proof (next_place NBits bits ns _ H0 ltac:(by replace (popsz q + sz q - 1 + 1) with (popsz q + sz q) by lia)) as Ei'.
    replace (popsz q + sz q - 1 + 1) with (popsz q + sz q) in Ei' by lia. rewrite Eat in Ei'. cbn in Ei'. rewrite Ei' in Ep. injection Ep as <-.
    rewrite Hpb, Eat. cbn [incr of_option res_bind fst snd]. rewrite Ew. cbn [res_bind]. do 3 eexists. split; [reflexivity|].
    exists ns, cs, k. split; [lia|]. split; [exact Hr'|]. cbn [popsz sz pb]. rewrite <- Ei'. f_equal. lia.
Qed.

(** The front object, and the state after it is destroyed. *)
Lemma queue_destroy_spec base m q p x l ns cs k : rep_at base m q ((p, x) :: l) ns cs k ->
  pf q = Some p /\ deref m p = Done x /\ exists m', destroy m p = Done m' /\ sized NBits m' (ns ++ cs) /\ Forall (fun x => x = None) (places m' cs)
    /\ (forall b, b ∉ ns -> m' !! b = m !! b) /\ (forall b, link <$> m' !! b = link <$> m !! b)
    /\ places m' ns = replicate (Z.to_nat (popsz q + 1)) None ++ map (Some ∘ snd) l ++ replicate k None.
Proof.
  intros Hr. pose proof (queue_rep_count _ _ _ _ _ _ _ Hr) as Hc. pose proof (size_pos NBits bits) as HN. destruct Hr as [H1 H2 H3 H3' H4 H5 H6 H7 H8 H9 H10].
  pose proof H3 as [Hs1 Hs2]%sized_app. pose proof H1 as (Hnd & Hdis & _)%NoDup_app. cbn [length] in H7.
  pose proof (H10 0%nat p x eq_refl) as Ep. rewrite Z.add_0_r in Ep.
  assert (places m ns !! Z.to_nat (popsz q) = Some (Some x)) as Hx by (rewrite H8, lookup_app_r, length_replicate, Nat.sub_diag by (rewrite length_replicate; lia); done).
  destruct (deref_spec NBits bits m ns (popsz q) x Hs1 ltac:(lia) Hx) as (p' & Ep' & Ed). assert (p' = p) as -> by congruence.
  destruct (put_spec NBits bits m ns (popsz q) None Hs1 Hnd) as (p' & m' & Ep2 & E & Hs' & Epl & Hout & Hlink & _); [lia|]. assert (p' = p) as -> by congruence.
  split; [congruence|]. split; [done|]. exists m'. unfold destroy. rewrite Ed. cbn [res_bind].
  assert (forall b, b ∈ cs -> m' !! b = m !! b) as Hcs by (intros b Hb; apply Hout; intros Hn; by apply (Hdis b)). split_and!; try done.
  - apply sized_app. split; [done|]. apply (sized_frame NBits m); [done|]. intros b Hb. by rewrite Hcs.
  - rewrite (places_frame m); [done|]. intros b Hb. by rewrite Hcs.
  - rewrite Epl, H8, insert_app_r_alt, length_replicate, Nat.sub_diag by (rewrite length_replicate; lia). cbn.
    replace (Z.to_nat (popsz q + 1)) with (Z.to_nat (popsz q) + 1)%nat by lia. rewrite replicate_add. by rewrite <- app_assoc.
Qed.

(** The first node is used up: it goes to the cache. *)
Lemma queue_popNode_spec base m m' q p x l a ns cs k : rep_at base m q ((p, x) :: l) (a :: ns) cs k -> popsz q + 1 = N ->
  Z.of_nat k < N -> pb q = at_place NBits (a :: ns) (popsz q + sz q - 1) ->
  sized NBits m' ((a :: ns) ++ cs) -> Forall (fun x => x = None) (places m' cs) ->
  (forall b, b ∉ a :: ns -> m' !! b = m !! b) -> (forall b, link <$> m' !! b = link <$> m !! b) ->
  places m' (a :: ns) = replicate (Z.to_nat N) None ++ map (Some ∘ snd) l ++ replicate k None ->
  exists m2 pb' pf', popNode m' (mkQueue (sz q - 1) (popsz q + 1) (pb q) (pf q) (ptn q)) (pf q)
      = Done (m2, mkQueue (sz q - 1) (popsz q + 1) pb' (pf q) (Some a), pf')
    /\ rep_at base m2 (mkQueue (sz q - 1) 0 pb' pf' (Some a)) l ns (a :: cs) k /\ pb' = at_place NBits ns (0 + (sz q - 1) - 1).
Proof.
  intros Hr Hpop Hk Hpb Hsz Hraw Hout Hlink Hpl. pose proof (queue_rep_count _ _ _ _ _ _ _ Hr) as Hc. pose proof (size_pos NBits bits) as HN.
  destruct Hr as [H1 H2 H3 H3' H4 H5 H6 H7 H8 H9 H10]. cbn [length] in H7, Hc.
  destruct (sized_lookup NBits m' _ a Hsz) as (n & Hn & Hl); [left|].
  assert (link n = head ns /\ chain m (head ns) ns) as [El Hch].
  { destruct H4 as (_ & n0 & Hn0 & Hch). pose proof (Hlink a) as E. rewrite Hn, Hn0 in E. injection E as E. rewrite E. rewrite <- (chain_head _ _ _ Hch). by split. }
  change (a :: ns) with ([a] ++ ns) in Hpl. rewrite places_app, (places_one m' a n Hn) in Hpl.
  apply app_inj_1 in Hpl as [Ed Epl]; [|by rewrite length_replicate].
  assert (pf q = Some (a, N - 1)) as Epf.
  { rewrite H9. replace (popsz q) with (N * Z.of_nat (length ([] ++ [a])) - 1) by (cbn; lia). change (a :: ns) with (([] ++ [a]) ++ ns).
    rewrite at_place_app; [apply (at_place_last NBits bits)|done|cbn; lia]. }
  set (m2 := <[a := mkNode (ptn q) (data n)]> m'). pose proof H1 as [Hna Hnd]%NoDup_cons. pose proof Hnd as (_ & Hdis & _)%NoDup_app.
  assert ((a ∉ ns) /\ (a ∉ cs)) as [Ha1 Ha2] by (by apply not_elem_of_app).
  assert (forall b, b <> a -> m2 !! b = m' !! b) as Hm2 by (intros b Hb; by apply lookup_insert_ne).
  assert (forall b, b ∈ ns ++ cs -> b <> a) as Hne by (intros b Hb ->; by apply Hna).
  assert (forall pb' pf', pf' = at_place NBits ns 0 -> rep_at base m2 (mkQueue (sz q - 1) 0 pb' pf' (Some a)) l ns (a :: cs) k) as Hrep.
  { intros pb' pf' Hpf'. constructor; cbn [sz popsz pf pb ptn]; try done.
    - by rewrite <- Permutation_middle.
    - intros b. rewrite <- Permutation_middle. split; [apply H2|]. intros Hb. rewrite Hm2 by (intros ->; apply Hb; left). rewrite Hout; [by apply H2|].
      intros Hin. apply Hb. by apply elem_of_cons in Hin as [->|?]; [left|right; apply elem_of_app; left].
    - apply sized_app in Hsz as [Hsz1 Hsz2]. apply Forall_cons in Hsz1 as [_ Hsz1]. apply sized_app. split.
      + apply (sized_frame NBits m'); [done|]. intros b Hb. rewrite Hm2; [done|]. apply Hne, elem_of_app. by left.
      + constructor; [exists (mkNode (ptn q) (data n)); split; [apply lookup_insert_eq|done]|]. apply (sized_frame NBits m'); [done|].
        intros b Hb. rewrite Hm2; [done|]. apply Hne, elem_of_app. by right.
    - change (a :: cs) with ([a] ++ cs). rewrite places_app, (places_one m2 a (mkNode (ptn q) (data n))) by apply lookup_insert_eq. cbn [data].
      apply Forall_app. split; [rewrite Ed; by apply Forall_replicate|]. rewrite (places_frame m'); [done|]. intros b Hb. rewrite Hm2; [done|]. apply Hne, elem_of_app. by right.
    - apply (nodes_frame m); [done|]. intros b Hb. rewrite Hm2; [apply Hlink|]. apply Hne, elem_of_app. by left.
    - split; [done|]. exists (mkNode (ptn q) (data n)). split; [by apply lookup_insert_eq|]. cbn. apply (nodes_frame m); [done|].
      intros b Hb. rewrite Hm2; [apply Hlink|]. apply Hne, elem_of_app. by right.
    - lia.
    - rewrite (places_frame m'); [done|]. intros b Hb. rewrite Hm2; [done|]. apply Hne, elem_of_app. by left.
    - intros i p' x' Hi. pose proof (H10 (S i) p' x' Hi) as E. rewrite at_place_cons in E by (try done; lia). rewrite <- E. f_equal. lia. }
  unfold popNode. rewrite Epf. cbn [of_option res_bind]. unfold node_of_last. cbn [fst snd]. rewrite Z.eqb_refl. cbn [res_bind]. rewrite Hn. cbn [of_option res_bind ptn].
  rewrite (node_link_spec m' a n _ Hn). cbn [res_bind]. fold m2. rewrite El. destruct ns as [|b ns]; cbn [head].
  - exists m2, None, None. split_and!; try done. by apply Hrep.
  - exists m2, (pb q), (Some (b, 0)). split_and!; [done|apply Hrep; unfold at_place; by rewrite Z.div_0_l, Z.mod_0_l by lia|].
    rewrite Hpb, at_place_cons; [f_equal; lia|done|]. cbn [length] in Hc. nia.
Qed.

Lemma queue_pop_spec base m q p x l : rep base m q ((p, x) :: l) ->
  front m q = Done x /\ pf q = Some p /\ exists m' q', pop m q = Done (m', q') /\ rep base m' q' l.
Proof.
  intros (ns & cs & k & Hk & Hr & Hpb). pose proof (queue_rep_count _ _ _ _ _ _ _ Hr) as Hc. pose proof (size_pos NBits bits) as HN.
  destruct (queue_destroy_spec base m q p x l ns cs k Hr) as (Epf & Ed & m' & E & Hsz & Hraw & Hout & Hlink & Hpl).
  pose proof Hr as [H1 H2 H3 H3' H4 H5 H6 H7 H8 H9 H10]. cbn [length] in H7. unfold front. rewrite Epf. cbn [of_option res_bind]. split; [done|]. split; [done|].
  unfold pop. rewrite Epf. cbn [of_option res_bind]. rewrite E. cbn [res_bind popsz]. rewrite land_mask by done.
  destruct (Z.eqb_spec ((popsz q + 1) mod N) 0) as [Hm|Hm]; cbn [negb].
  - assert (popsz q + 1 = N) as Hp by (destruct (decide (popsz q + 1 = N)); [done|rewrite Z.mod_small in Hm; lia]).
    destruct ns as [|a ns]; [cbn [length] in Hc; lia|]. rewrite Hp in Hpl.
    destruct (queue_popNode_spec base m m' q p x l a ns cs k Hr Hp Hk Hpb Hsz Hraw Hout Hlink Hpl) as (m2 & pb' & pf' & E2 & Hr2 & Hpb'). rewrite Epf in E2.
    cbn [pf]. rewrite E2. cbn [res_bind sz pb ptn]. do 2 eexists. split; [reflexivity|]. by exists ns, (a :: cs), k.
  - rewrite Epf in H9. symmetry in H9. pose proof (next_place NBits bits ns (popsz q) ltac:(lia) Hm) as Ei'. rewrite H9 in Ei'. cbn [pf incr of_option res_bind].
    do 2 eexists. split; [reflexivity|]. exists ns, cs, k. split; [done|]. cbn [popsz sz pb with_pf]. split; [|rewrite Hpb; f_equal; lia].
    constructor; cbn; try done.
    + intros a. split; [apply H2|]. intros Ha. rewrite Hout; [by apply H2|]. by intros ?; apply Ha, elem_of_app; left.
    + apply (nodes_frame m); [done|]. intros b _. apply Hlink.
    + apply (nodes_frame m); [done|]. intros b _. apply Hlink.
    + split; [lia|]. destruct (decide (popsz q + 1 = N)) as [Hx|]; [rewrite Hx, Z.mod_same in Hm by lia; done|lia].
    + lia.
    + intros i p' x' Hi. rewrite <- (H10 (S i) p' x' Hi). f_equal. lia.
Qed.

(** ** The destructor *)

Lemma queue_pops_spec base l : forall m q, rep base m q l -> exists m' q', pops (length l) m q = Done (m', q') /\ rep base m' q' [].
Proof.
  induction l as [|[p x] l IH]; intros m q Hr; [by exists m, q|]. destruct (queue_pop_spec base m q p x l Hr) as (_ & _ & m1 & q1 & E & Hr1).
  destruct (IH m1 q1 Hr1) as (m2 & q2 & E2 & Hr2). exists m2, q2. cbn [length pops]. rewrite E. cbn [res_bind fst snd]. by split.
Qed.

(** All nodes are given back, each once. *)
Lemma queue_delete_spec base m q l : rep base m q l -> Queue_delete m q = Done base.
Proof.
  intros Hr. pose proof (size_pos NBits bits) as HN. destruct (queue_pops_spec base l m q Hr) as (m1 & q1 & E & (ns & cs & k & Hk & Hr1 & _)).
  assert (sz q = Z.of_nat (length l)) as Esz by (destruct Hr as (? & ? & ? & _ & Hr & _); apply Hr).
  unfold Queue_delete. rewrite Esz, Nat2Z.id, E. cbn [res_bind].
  pose proof (queue_rep_count _ _ _ _ _ _ _ Hr1) as Hc. destruct Hr1 as [H1 H2 H3 H3' H4 H5 H6 H7 H8 H9 H10]. cbn [length] in H7.
  pose proof H1 as (Hnd1 & Hdis & Hnd2)%NoDup_app. pose proof H3 as [Hs1 Hs2]%sized_app.
  destruct (free_nodes_spec cs (base.size m1) m1 (ptn q1) H5 Hnd2) as (m2 & E2 & D1 & D2).
  { apply length_dom; [done|]. intros a Ha. destruct (sized_lookup NBits m1 cs a Hs2 Ha) as (n & ? & _). by exists n. }
  destruct ns as [|a [|b ns]].
  - rewrite H9. change (at_place NBits [] (popsz q1)) with (None (A := Ptr)). cbn [res_bind]. rewrite E2. cbn [res_bind]. assert (m2 = base) as ->; [|done]. apply map_eq. intros b.
    destruct (decide (b ∈ cs)) as [Hb|Hb]; [rewrite D1 by done; symmetry; by apply H2|rewrite D2 by done; by apply H2].
  - assert (pf q1 = Some (a, popsz q1)) as -> by (rewrite H9; unfold at_place; by rewrite Z.div_small, Z.mod_small by lia). cbn [fst snd]. rewrite Z.eqb_refl. cbn [res_bind].
    rewrite E2. cbn [res_bind]. unfold delete_node. destruct (sized_lookup NBits m1 [a] a Hs1) as (n & Hn & _); [left|].
    assert (a ∉ cs) as Hac by (apply (Hdis a); left). rewrite D2 by done. rewrite Hn. cbn [of_option res_bind]. assert (delete a m2 = base) as ->; [|done]. apply map_eq. intros b.
    destruct (decide (a = b)) as [<-|Hab]; [rewrite lookup_delete_eq; symmetry; apply H2; left|rewrite lookup_delete_ne by done].
    destruct (decide (b ∈ cs)) as [Hb|Hb]; [rewrite D1 by done; symmetry; apply H2; by right|rewrite D2 by done; apply H2].
    intros [->|?]%elem_of_cons; done.
  - cbn [length] in Hc. nia.
Qed.

(** ** Runs *)

Inductive op := Push (x : T) | Pop.

(** [Pop] reads the front object before. *)
Definition step (o : op) (m : Memory) (q : Queue) : res (Memory * Queue * list T) :=
  match o with
  | Push x => let! y := push m q x in Done (y.1, y.2, [])
  | Pop => let! x := front m q in let! y := pop m q in Done (y.1, y.2, [x])
  end.

Fixpoint run (os : list op) (m : Memory) (q : Queue) : res (Memory * Queue * list T) :=
  match os with
  | [] => Done (m, q, [])
  | o :: os =>
      let! y := step o m q in
      let! z := run os y.1.1 y.1.2 in
      Done (z.1.1, z.1.2, y.2 ++ z.2)
  end.

(** The same on a list; nothing may be popped from an empty one. *)
Fixpoint run_list (os : list op) (l : list T) : option (list T * list T) :=
  match os with
  | [] => Some (l, [])
  | Push x :: os => run_list os (l ++ [x])
  | Pop :: os =>
      match l with
      | [] => None
      | x :: l => (fun y => (y.1, x :: y.2)) <$> run_list os l
      end
  end.

Lemma queue_run_spec base os : forall m q l vals outs, rep base m q l -> run_list os (map snd l) = Some (vals, outs) ->
  exists m' q' l2, run os m q = Done (m', q', outs) /\ rep base m' q' l2 /\ map snd l2 = vals.
Proof.
  induction os as [|[x|] os IH]; intros m q l vals outs Hr; cbn [run_list run].
  - intros [= <- <-]. by exists m, q, l.
  - intros E. destruct (queue_push_spec base m q l x Hr) as (m1 & q1 & p & E1 & Hr1). unfold step. rewrite E1. cbn [res_bind fst snd].
    destruct (IH m1 q1 (l ++ [(p, x)]) vals outs Hr1) as (m2 & q2 & l2 & E2 & H); [by rewrite map_app|]. exists m2, q2, l2. rewrite E2. done.
  - destruct l as [|[p x] l]; [done|]. cbn [map snd]. destruct (run_list os (map snd l)) as [[l1 o1]|] eqn:E; [|done]. intros [= <- <-].
    destruct (queue_pop_spec base m q p x l Hr) as (Ef & _ & m1 & q1 & E1 & Hr1). unfold step. rewrite Ef. cbn [res_bind]. rewrite E1. cbn [res_bind fst snd].
    destruct (IH m1 q1 l l1 o1 Hr1 E) as (m2 & q2 & l2 & E2 & H). exists m2, q2, l2. rewrite E2. done.
Qed.

Lemma rep_back base m q l p x : rep base m q (l ++ [(p, x)]) -> back m q = Done x /\ pb q = Some p.
Proof.
  intros (ns & cs & k & Hk & Hr & Hpb). destruct Hr as [H1 H2 H3 H3' H4 H5 H6 H7 H8 H9 H10]. rewrite length_app in H7. cbn [length] in H7.
  pose proof H3 as [Hs1 _]%sized_app. pose proof (H10 (length l) p x ltac:(by apply list_lookup_middle)) as Ep.
  replace (popsz q + Z.of_nat (length l)) with (popsz q + sz q - 1) in Ep by lia.
  assert (places m ns !! Z.to_nat (popsz q + sz q - 1) = Some (Some x)) as Hx.
  { rewrite H8, map_app, lookup_app_r, length_replicate by (rewrite length_replicate; lia). rewrite <- app_assoc. cbn [map app].
    rewrite lookup_app_r, length_map by (rewrite length_map; lia). by replace (_ - _ - _)%nat with 0%nat by lia. }
  destruct (deref_spec NBits bits m ns (popsz q + sz q - 1) x Hs1 ltac:(lia) Hx) as (p' & Ep' & Ed). unfold back. rewrite Hpb, Ep. cbn [of_option res_bind]. split; [congruence|done].
Qed.

Lemma rep_deref base m q l i p x : rep base m q l -> l !! i = Some (p, x) -> deref m p = Done x.
Proof.
  intros (ns & cs & k & Hk & Hr & Hpb) Hi. destruct Hr as [H1 H2 H3 H3' H4 H5 H6 H7 H8 H9 H10]. pose proof H3 as [Hs1 _]%sized_app.
  pose proof (H10 i p x Hi) as Ep. assert (places m ns !! Z.to_nat (popsz q + Z.of_nat i) = Some (Some x)) as Hx.
  { rewrite H8, lookup_app_r, length_replicate by (rewrite length_replicate; lia). rewrite lookup_app_l by (rewrite length_map; apply lookup_lt_Some in Hi; lia).
    replace (_ - _)%nat with i by lia. change (map (Some ∘ snd) l) with ((Some ∘ snd) <$> l). rewrite list_lookup_fmap, Hi. done. }
  destruct (deref_spec NBits bits m ns (popsz q + Z.of_nat i) x Hs1 ltac:(lia) Hx) as (p' & Ep' & Ed). congruence.
Qed.

Lemma rep_size base m q l : rep base m q l -> size q = Z.of_nat (length l).
Proof using Type. intros (? & ? & ? & _ & Hr & _). apply Hr. Qed.

(** C30: Any sequence of pushes and pops gives what it gives on a list, and ends in a queue of that
    size; destroying it gives back exactly the memory that was allocated, nothing twice. *)
Theorem queue_refines_list os m vals outs : run_list os [] = Some (vals, outs) ->
  exists m' q, run os m Queue_new = Done (m', q, outs) /\ size q = Z.of_nat (length vals) /\ Queue_delete m' q = Done m.
Proof.
  intros E. destruct (queue_run_spec m os m Queue_new [] vals outs (queue_rep_new m) E) as (m' & q & l & E1 & Hr & <-).
  exists m', q. split; [done|]. split; [rewrite length_map; by eapply rep_size|by eapply queue_delete_spec].
Qed.

(** The pushes keep what is there, at its address. *)
Lemma pushes_spec base xs : forall m q l, rep base m q l ->
  exists m' q' l', run (map Push xs) m q = Done (m', q', []) /\ rep base m' q' (l ++ l') /\ map snd l' = xs.
Proof.
  induction xs as [|x xs IH]; intros m q l Hr; [exists m, q, []; by rewrite app_nil_r|].
  destruct (queue_push_spec base m q l x Hr) as (m1 & q1 & p & E1 & Hr1). destruct (IH m1 q1 (l ++ [(p, x)]) Hr1) as (m2 & q2 & l2 & E2 & Hr2 & El).
  exists m2, q2, ((p, x) :: l2). cbn [map run step]. rewrite E1. cbn [res_bind fst snd]. rewrite E2. split; [done|]. rewrite <- app_assoc in Hr2. split; [done|]. cbn. by rewrite El.
Qed.

(** Objects are not moved: while more objects are pushed, the front pointer and what it points
    to stay the same, and the last pushed object is the back. *)
Theorem queue_front_stays os m x vals outs m1 q1 xs : run_list os [] = Some (x :: vals, outs) ->
  run os m Queue_new = Done (m1, q1, outs) ->
  exists m2 q2, run (map Push xs) m1 q1 = Done (m2, q2, []) /\ pf q2 = pf q1 /\ is_Some (pf q1)
    /\ front m1 q1 = Done x /\ front m2 q2 = Done x /\ back m2 q2 = of_option (last (x :: vals ++ xs)).
Proof.
  intros E E1. destruct (queue_run_spec m os m Queue_new [] (x :: vals) outs (queue_rep_new m) E) as (m' & q & l & E1' & Hr & El).
  assert (m' = m1 /\ q = q1) as [-> ->] by (rewrite E1 in E1'; by injection E1'). destruct l as [|[p y] l]; [done|]. injection El as -> El.
  destruct (pushes_spec m xs m1 q1 _ Hr) as (m2 & q2 & l2 & E2 & Hr2 & El2). exists m2, q2.
  destruct (queue_pop_spec m m1 q1 p x l Hr) as (F1 & P1 & _). destruct (queue_pop_spec m m2 q2 p x (l ++ l2) Hr2) as (F2 & P2 & _).
  split_and!; [done|congruence|by exists p|done|done|]. assert (map snd (((p, x) :: l) ++ l2) = x :: vals ++ xs) as Em by (cbn; by rewrite map_app, El, El2).
  destruct (@exists_last _ (((p, x) :: l) ++ l2)) as (lz & [pz z] & Ez); [done|]. rewrite Ez in Em, Hr2. rewrite <- Em, map_app. cbn [map snd].
  rewrite last_snoc. cbn [of_option]. by destruct (rep_back m m2 q2 lz pz z Hr2).
Qed.

End Ops.

(** Nodes of two places. *)
Definition ops_example : list (op (T := Z)) := [Push 1; Push 2; Push 3; Pop; Pop; Push 4; Push 5; Pop].

Lemma queue_refines_list_witness : exists m' q, run 1 ops_example ∅ Queue_new = Done (m', q, [1; 2; 3]) /\ size q = 2
  /\ Queue_delete 1 m' q = Done ∅.
Proof. apply (queue_refines_list 1 ltac:(lia) ops_example ∅ [4; 5] [1; 2; 3]). reflexivity. Defined.

Definition after_example : gmap NodeAddr (Node (T := Z)) * Queue :=
  match run 1 ops_example ∅ Queue_new with Done x => x.1 | _ => (∅, Queue_new) end.

Lemma queue_front_stays_witness : exists m2 q2, run 1 (map Push [6; 7; 8]) after_example.1 after_example.2 = Done (m2, q2, [])
  /\ pf q2 = pf after_example.2 /\ is_Some (pf after_example.2) /\ front after_example.1 after_example.2 = Done 4 /\ front m2 q2 = Done 4
  /\ back m2 q2 = of_option (last (4 :: [5] ++ [6; 7; 8])).
Proof.
  apply (queue_front_stays 1 ltac:(lia) ops_example ∅ 4 [5] [1; 2; 3] after_example.1 after_example.2 [6; 7; 8]); [reflexivity|].
  vm_compute. reflexivity.
Defined.

(** The move assignment gives up the nodes of its target: with one object in it, they are still
    allocated when both queues are gone. *)
Definition leak : res (gmap NodeAddr (Node (T := Z))) :=
  let! x := push 1 ∅ Queue_new 1 in
  let '(q, rq) := move_assign x.2 Queue_new in
  let! m := Queue_delete 1 x.1 q in
  Queue_delete 1 m rq.

Lemma move_assign_leaks : exists m, leak = Done m /\ base.size m = 1%nat.
Proof. eexists. split; vm_compute; reflexivity. Qed.

End Queue.
