(* ===== verification/Stack.v ===== *)
(** * The stack

    solid/utility/stack.hpp: a stack in nodes (Nodes.v). Nodes that are used up go to a cache.
    It refines a list, its top first; objects stay where they were pushed. *)

From stdpp Require Import gmap.
From S2P Require Import Prelude Nodes.
Import Nodes.
#[local] Open Scope res_scope.
#[local] Open Scope Z_scope.
#[local] Set Warnings "-clear-no-such-hyp".

Module Stack.

Record Stack := mkStack { sz : Z; p : option Ptr; ptn : option NodeAddr }.

Definition Stack_new : Stack := mkStack 0 None None.

(** The move constructor and the move assignment, as for the queue. *)
Definition move (_rs : Stack) : Stack * Stack := (_rs, Stack_new).
Definition move_assign (s _rs : Stack) : Stack * Stack := (_rs, Stack_new).

Section Ops.
Context {T : Type} (NBits : Z).
Abbreviation Memory := (gmap NodeAddr (Node (T := T))).

Definition empty (s : Stack) : bool := sz s =? 0.
Definition size (s : Stack) : Z := sz s.

Definition pushNode (m : Memory) (s : Stack) (_p : option Ptr) : res (Memory * Stack * Ptr) :=
  let! pn := match _p with
             | Some p => let! a := node_of_last NBits p in Done (Some a)
             | None => Done None
             end in
  match ptn s with
  | Some c =>
      let! n := of_option (m !! c) in
      let s := mkStack (sz s) (p s) (link n) in
      let! m := set_link m c pn in
      Done (m, s, (c, 0))
  | None =>
      let '(m, a) := new_node NBits m pn in
      Done (m, s, (a, 0))
  end.

Definition push (m : Memory) (s : Stack) (_t : T) : res (Memory * Stack) :=
  let! x :=
    (if negb (Z.land (sz s) (NodeMask NBits) =? 0) then
       let! q := of_option (p s) in Done (m, s, (q.1, q.2 + 1))
     else pushNode m s (p s)) in
  let '(m, s, q) := x in
  let s := mkStack (sz s + 1) (Some q) (ptn s) in
  let! m := construct m q _t in
  Done (m, s).

Definition top (m : Memory) (s : Stack) : res T :=
  let! q := of_option (p s) in
  deref m q.

Definition popNode (m : Memory) (s : Stack) (_p : option Ptr) : res (Memory * Stack * option Ptr) :=
  let! q := of_option _p in
  let! pn := node_of_first q in
  let! n := of_option (m !! pn) in
  let ppn := link n in
  let! m := set_link m pn (ptn s) in
  let s := mkStack (sz s) (p s) (Some pn) in
  match ppn with
  | Some ppn => Done (m, s, Some (ppn, NodeSize NBits - 1))
  | None => Done (m, s, None)
  end.

Definition pop (m : Memory) (s : Stack) : res (Memory * Stack) :=
  let! q := of_option (p s) in
  let! m := destroy m q in
  let s := mkStack (sz s - 1) (p s) (ptn s) in
  if negb (Z.land (sz s) (NodeMask NBits) =? 0) then
    Done (m, mkStack (sz s) (Some (q.1, q.2 - 1)) (ptn s))
  else
    let! x := popNode m s (p s) in
    let '(m, s, q) := x in
    Done (m, mkStack (sz s) q (ptn s)).

(** The destructor *)
Fixpoint pops (n : nat) (m : Memory) (s : Stack) : res (Memory * Stack) :=
  match n with
  | O => Done (m, s)
  | S n => let! x := pop m s in pops n x.1 x.2
  end.

Definition Stack_delete (m : Memory) (s : Stack) : res Memory :=
  let! x := pops (Z.to_nat (sz s)) m s in
  free_nodes (base.size x.1) x.1 (ptn x.2).

(** ** What it stands for *)

Abbreviation N := (NodeSize NBits).
Implicit Types (m base : Memory) (s : Stack) (l : list (Ptr * T)).

(** The stack holds the objects [l], the oldest first, in the nodes [ns]; the last [k] places of
    these are raw. [cs] are the cached nodes; the rest of the memory is [base]. *)
Record rep_at base m s l (ns cs : list NodeAddr) (k : nat) : Prop := {
  rp_nodup : NoDup (ns ++ cs);
  rp_base : forall a, (a ∈ ns ++ cs -> base !! a = None) /\ (a ∉ ns ++ cs -> m !! a = base !! a);
  rp_sized : sized NBits m (ns ++ cs);
  rp_raw : Forall (fun x => x = None) (places m cs);
  rp_chain : chain m (last ns) (rev ns);
  rp_cache : chain m (ptn s) cs;
  rp_sz : sz s = Z.of_nat (length l);
  rp_places : places m ns = map (Some ∘ snd) l ++ replicate k None;
  rp_ptrs : forall (i : nat) q x, l !! i = Some (q, x) -> at_place NBits ns (Z.of_nat i) = Some q
}.

Definition rep base m s l : Prop :=
  exists ns cs k, Z.of_nat k < N /\ rep_at base m s l ns cs k /\ p s = at_place NBits ns (sz s - 1).

Hypothesis bits : 1 <= NBits <= 30.

Lemma stack_rep_count base m s l ns cs k : rep_at base m s l ns cs k -> N * Z.of_nat (length ns) = sz s + Z.of_nat k.
Proof.
  intros Hr. pose proof (proj1 (proj1 (sized_app NBits _ _ _) (rp_sized _ _ _ _ _ _ _ Hr))) as Hs. pose proof (places_length NBits bits m ns Hs) as H.
  rewrite (rp_places _ _ _ _ _ _ _ Hr), !length_app, length_map, !length_replicate in H. rewrite (rp_sz _ _ _ _ _ _ _ Hr). lia.
Qed.

Lemma stack_rep_new m : rep m m Stack_new [].
Proof.
  pose proof (size_pos NBits bits). exists [], [], 0%nat. split; [done|]. split; [|done].
  constructor; try done; [by apply NoDup_nil|intros a; split; [intros ?%not_elem_of_nil|]; done|constructor].
Qed.

(** Changing one place of the nodes. *)
Lemma place_spec base m s l ns cs k (i : Z) x : rep_at base m s l ns cs k -> 0 <= i < N * Z.of_nat (length ns) ->
  exists q m', at_place NBits ns i = Some q /\ put m q x = Done m' /\ sized NBits m' (ns ++ cs) /\ Forall (fun x => x = None) (places m' cs)
    /\ chain m' (last ns) (rev ns) /\ chain m' (ptn s) cs /\ (forall b, b ∉ ns -> m' !! b = m !! b)
    /\ places m' ns = <[Z.to_nat i := x]> (places m ns).
Proof.
  intros Hr Hi. destruct Hr as [H1 H2 H3 H3' H4 H5 H7 H8 H10]. pose proof H3 as [Hs1 Hs2]%sized_app. pose proof H1 as (Hnd & Hdis & _)%NoDup_app.
  destruct (put_spec NBits bits m ns i x Hs1 Hnd Hi) as (q & m' & Ep & E & Hs' & Epl & Hout & Hlink & _).
  assert (forall b, b ∈ cs -> m' !! b = m !! b) as Hcs by (intros b Hb; apply Hout; intros Hn; by apply (Hdis b)).
  exists q, m'. split_and!; try done.
  - apply sized_app. split; [done|]. apply (sized_frame NBits m); [done|]. intros b Hb. by rewrite Hcs.
  - rewrite (places_frame m); [done|]. intros b Hb. by rewrite Hcs.
  - apply (nodes_frame m); [done|]. intros b _. apply Hlink.
  - apply (nodes_frame m); [done|]. intros b _. apply Hlink.
Qed.

Lemma stack_write_spec base m s l ns cs k x : rep_at base m s l ns cs (S k) ->
  exists q m', at_place NBits ns (sz s) = Some q /\ construct m q x = Done m'
    /\ rep_at base m' (mkStack (sz s + 1) (Some q) (ptn s)) (l ++ [(q, x)]) ns cs k.
Proof.
  intros Hr. pose proof (stack_rep_count _ _ _ _ _ _ _ Hr) as Hc. pose proof (rp_sz _ _ _ _ _ _ _ Hr) as Hsz.
  destruct (place_spec _ _ _ _ _ _ _ (sz s) (Some x) Hr ltac:(lia)) as (q & m' & Ep & E & A1 & A2 & A3 & A4 & A5 & A6).
  destruct Hr as [H1 H2 H3 H3' H4 H5 H7 H8 H10]. exists q, m'. split; [done|]. split; [exact E|]. constructor; cbn [sz p ptn]; try done.
  - intros a. split; [apply H2|]. intros Ha. rewrite A5; [by apply H2|]. by intros ?; apply Ha, elem_of_app; left.
  - rewrite length_app. cbn. lia.
  - rewrite A6, H8, map_app, <- app_assoc. rewrite insert_app_r_alt, length_map by (rewrite length_map; lia). f_equal.
    by replace (_ - _)%nat with 0%nat by lia.
  - intros i q' x' [[_ Hi]|[-> [= <- <-]]]%lookup_snoc_Some; [by eapply H10|]. by rewrite <- H7.
Qed.

(** A node [a], from the cache or new, on top of the others. *)
Lemma stack_rep_grown base m s l ns cs m' s' a cs' : rep_at base m s l ns cs 0 ->
  m' !! a = Some (mkNode (last ns) (replicate (Z.to_nat N) None)) -> (forall b, b <> a -> m' !! b = m !! b) ->
  (cs = a :: cs') \/ (cs = cs' /\ (a ∉ ns ++ cs) /\ base !! a = None) -> chain m (ptn s') cs' -> sz s' = sz s ->
  rep_at base m' s' l (ns ++ [a]) cs' (Z.to_nat N).
Proof.
  intros Hr Ha Hout Hcs Hptn Es. pose proof (stack_rep_count _ _ _ _ _ _ _ Hr) as Hc. pose proof (size_pos NBits bits).
  destruct Hr as [H1 H2 H3 H3' H4 H5 H7 H8 H10]. pose proof H3 as [Hs1 Hs2]%sized_app.
  assert (NoDup ((ns ++ [a]) ++ cs')) as Hnd.
  { destruct Hcs as [->|(<- & Hn & _)]; [by rewrite <- app_assoc|]. rewrite <- app_assoc. apply NoDup_app in H1 as (N1 & N2 & N3). apply NoDup_app.
    split_and!; [done|intros b Hb; specialize (N2 b Hb); set_solver|constructor; [set_solver|done]]. }
  assert ((a ∉ ns) /\ (a ∉ cs')) as [Hans Hacs].
  { rewrite <- app_assoc in Hnd. apply NoDup_app in Hnd as (_ & N2 & N3). apply NoDup_cons in N3 as [? _]. split; [|done]. intros Hin. apply (N2 a Hin). left. }
  assert (sized NBits m cs' /\ Forall (fun x => x = None) (places m cs')) as [Hsz Hraw].
  { destruct Hcs as [->|(<- & _)]; [|done]. apply Forall_cons in Hs2 as [_ ?]. split; [done|]. change (a :: cs') with ([a] ++ cs') in H3'.
    rewrite places_app in H3'. by apply Forall_app in H3' as [_ ?]. }
  constructor; rewrite ?Es; try done.
  - intros b. split.
    + intros Hb. destruct Hcs as [->|(<- & Hn & Hb0)]; [apply H2; set_solver|]. destruct (decide (b = a)) as [->|]; [done|]. apply H2. set_solver.
    + intros Hb. rewrite Hout by set_solver. apply H2. destruct Hcs as [->|(<- & _)]; set_solver.
  - rewrite !sized_app. split; [split|].
    + apply (sized_frame NBits m); [done|]. intros b Hb. rewrite Hout; [done|]. by intros ->.
    + constructor; [|constructor]. eexists. split; [exact Ha|]. cbn. by rewrite length_replicate.
    + apply (sized_frame NBits m); [done|]. intros b Hb. rewrite Hout; [done|]. by intros ->.
  - rewrite (places_frame m); [done|]. intros b Hb. rewrite Hout; [done|]. by intros ->.
  - rewrite last_snoc, rev_app_distr. cbn [rev app]. split; [done|]. eexists. split; [exact Ha|]. cbn [link]. apply (nodes_frame m); [done|].
    intros b Hb. rewrite Hout; [done|]. intros ->. apply Hans. by apply list_elem_of_In, in_rev, list_elem_of_In.
  - apply (nodes_frame m); [done|]. intros b Hb. rewrite Hout; [done|]. by intros ->.
  - rewrite places_app, (places_frame m) by (intros b Hb; rewrite Hout; [done|by intros ->]). rewrite (places_one m' a _ Ha), H8. cbn [data replicate]. by rewrite app_nil_r.
  - intros i q x Hi. rewrite at_place_app; [by eapply H10|done|]. apply lookup_lt_Some in Hi. lia.
Qed.

Lemma stack_pushNode_spec base m s l ns cs : rep_at base m s l ns cs 0 -> p s = at_place NBits ns (sz s - 1) ->
  exists m' s' q a cs', pushNode m s (p s) = Done (m', s', q) /\ rep_at base m' s' l (ns ++ [a]) cs' (Z.to_nat N)
    /\ at_place NBits (ns ++ [a]) (sz s) = Some q /\ sz s' = sz s.
Proof.
  intros Hr Hp. pose proof (stack_rep_count _ _ _ _ _ _ _ Hr) as Hc. rewrite Z.add_0_r in Hc. rewrite <- Hc in Hp.
  pose proof Hr as [H1 H2 H3 H3' H4 H5 H7 H8 H10]. pose proof H3 as [Hs1 Hs2]%sized_app.
  unfold pushNode. rewrite Hp, (last_node NBits bits). cbn [res_bind]. rewrite <- Hc. destruct cs as [|c cs].
  - cbn in H5. rewrite H5. destruct (new_node_spec NBits m (last ns)) as (a & E & Ha). rewrite E.
    assert (a ∉ ns) as Han by (intros Hin; destruct (sized_lookup NBits m ns a Hs1 Hin) as (? & ? & _); congruence).
    assert (base !! a = None) as Hb by (rewrite <- (proj2 (H2 a)); [done|by rewrite app_nil_r]).
    eexists _, s, (a, 0), a, []. rewrite at_place_new by done. split_and!; try done. apply (stack_rep_grown base m s l ns []); try done; [apply lookup_insert_eq| |right; by rewrite app_nil_r].
    intros b Hb'. by apply lookup_insert_ne.
  - destruct H5 as (Eptn & n & Hn & Hch). rewrite Eptn, Hn. cbn [of_option res_bind]. rewrite (node_link_spec m c n _ Hn). cbn [res_bind].
    rewrite (raw_data NBits m c n cs Hs2 H3' Hn). eexists _, _, (c, 0), c, cs. rewrite at_place_new by done. split_and!; try done.
    apply (stack_rep_grown base m s l ns (c :: cs)); try done; [apply lookup_insert_eq| |by left]. intros b Hb'. by apply lookup_insert_ne.
Qed.

Lemma stack_push_spec base m s l x : rep base m s l -> exists m' s' q, push m s x = Done (m', s') /\ rep base m' s' (l ++ [(q, x)]).
Proof.
  intros (ns & cs & k & Hk & Hr & Hp). pose proof (stack_rep_count _ _ _ _ _ _ _ Hr) as Hc. pose proof (size_pos NBits bits) as HN.
  pose proof (rp_sz _ _ _ _ _ _ _ Hr) as Hsz. unfold push. rewrite land_mask by done. destruct (Z.eqb_spec (sz s mod N) 0) as [Hm|Hm]; cbn [negb].
  - assert (k = 0%nat) as -> by (pose proof (slack_zero NBits bits (length ns) (sz s) k); lia).
    destruct (stack_pushNode_spec base m s l ns cs Hr Hp) as (m1 & s1 & q & a & cs' & E & Hr1 & Ep & E2). rewrite E. cbn [res_bind].
    destruct (Z.to_nat N) as [|k] eqn:EN; [lia|]. destruct (stack_write_spec base m1 s1 l (ns ++ [a]) cs' k x Hr1) as (q' & m2 & Ep' & Ew & Hr2).
    rewrite E2, Ep in Ep'. injection Ep' as <-. rewrite Ew. cbn [res_bind]. do 3 eexists. split; [reflexivity|].
    exists (ns ++ [a]), cs', k. split; [lia|]. split; [exact Hr2|]. cbn [sz p]. rewrite E2, <- Ep. f_equal. lia.
  - assert (0 <= sz s - 1) as H0 by (destruct (decide (sz s = 0)) as [E|]; [rewrite E, Z.mod_0_l in Hm by lia; done|lia]).
    destruct k as [|k]; [destruct Hm; replace (sz s) with (Z.of_nat (length ns) * N) by lia; apply Z.mod_mul; lia|].
    destruct (stack_write_spec base m s l ns cs k x Hr) as (q & m' & Ep & Ew & Hr').
    destruct (places_lookup NBits bits m ns (sz s - 1)) as (a & n & Eat & _); [exact (proj1 (proj1 (sized_app NBits _ _ _) (rp_sized _ _ _ _ _ _ _ Hr)))|lia|].
    pose proof (next_place NBits bits ns (sz s - 1) H0 ltac:(by rewrite Z.sub_add)) as Ei'. rewrite Z.sub_add, Eat in Ei'. cbn in Ei'. rewrite Ei' in Ep. injection Ep as <-.
    rewrite Hp, Eat. cbn [of_option res_bind fst snd]. rewrite Ew. cbn [res_bind]. do 3 eexists. split; [reflexivity|].
    exists ns, cs, k. split; [lia|]. split; [exact Hr'|]. cbn [sz p]. rewrite <- Ei'. f_equal. lia.
Qed.

(** The top object, and the state after it is destroyed. *)
Lemma stack_destroy_spec base m s q x l ns cs k : rep_at base m s (l ++ [(q, x)]) ns cs k ->
  at_place NBits ns (sz s - 1) = Some q /\ deref m q = Done x /\ exists m', destroy m q = Done m' /\ rep_at base m' (mkStack (sz s - 1) (p s) (ptn s)) l ns cs (S k).
Proof.
  intros Hr. pose proof (stack_rep_count _ _ _ _ _ _ _ Hr) as Hc. pose proof (rp_sz _ _ _ _ _ _ _ Hr) as Hsz. rewrite length_app in Hsz. cbn [length] in Hsz.
  destruct (place_spec _ _ _ _ _ _ _ (sz s - 1) None Hr ltac:(lia)) as (q' & m' & Ep & E & A1 & A2 & A3 & A4 & A5 & A6).
  destruct Hr as [H1 H2 H3 H3' H4 H5 H7 H8 H10]. pose proof H3 as [Hs1 _]%sized_app.
  pose proof (H10 (length l) q x ltac:(by apply list_lookup_middle)) as Eq. replace (Z.of_nat (length l)) with (sz s - 1) in Eq by lia.
  assert (q' = q) as -> by congruence. assert (places m ns !! Z.to_nat (sz s - 1) = Some (Some x)) as Hx.
  { rewrite H8, map_app, <- app_assoc, lookup_app_r, length_map by (rewrite length_map; lia). cbn. by replace (_ - _)%nat with 0%nat by lia. }
  destruct (deref_spec NBits bits m ns (sz s - 1) x Hs1 ltac:(lia) Hx) as (q' & Eq' & Ed). assert (q' = q) as -> by congruence.
  split; [done|]. split; [done|]. exists m'. unfold destroy. rewrite Ed. cbn [res_bind]. split; [done|]. constructor; cbn [sz p ptn]; try done.
  - intros a. split; [apply H2|]. intros Ha. rewrite A5; [by apply H2|]. by intros ?; apply Ha, elem_of_app; left.
  - lia.
  - rewrite A6, H8, map_app, <- app_assoc. rewrite insert_app_r_alt, length_map by (rewrite length_map; lia). f_equal. cbn.
    by replace (_ - _)%nat with 0%nat by lia.
  - intros i q' x' Hi. apply (H10 i q' x'). by apply lookup_app_l_Some.
Qed.

(** The top node is used up: it goes to the cache. *)
Lemma stack_popNode_spec base m s l ns a cs : rep_at base m s l (ns ++ [a]) cs (Z.to_nat N) -> p s = Some (a, 0) ->
  exists m', popNode m s (p s) = Done (m', mkStack (sz s) (p s) (Some a), at_place NBits ns (sz s - 1))
    /\ rep_at base m' (mkStack (sz s) (at_place NBits ns (sz s - 1)) (Some a)) l ns (a :: cs) 0.
Proof.
  intros Hr Hp. pose proof (stack_rep_count _ _ _ _ _ _ _ Hr) as Hc. pose proof (size_pos NBits bits) as HN. rewrite length_app in Hc. cbn [length] in Hc.
  destruct Hr as [H1 H2 H3 H3' H4 H5 H7 H8 H10]. destruct (sized_lookup NBits m _ a H3) as (n & Hn & Hl); [apply elem_of_app; left; apply elem_of_app; right; left|].
  rewrite last_snoc, rev_app_distr in H4. cbn [rev app] in H4. destruct H4 as (_ & n0 & Hn0 & Hch). assert (n0 = n) as -> by congruence.
  assert (link n = last ns) as El.
  { pose proof (chain_head _ _ _ Hch) as E. rewrite E. clear. destruct ns as [|c ns _] using rev_ind; [done|]. by rewrite rev_app_distr, last_snoc. }
  rewrite places_app, (places_one m a n Hn) in H8. assert (Z.of_nat (length (places m ns)) = sz s) as Hpl.
  { rewrite !sized_app in H3. rewrite (places_length NBits bits) by apply H3. lia. }
  apply app_inj_1 in H8 as [Epl Ed]; [|rewrite length_map; lia]. rewrite <- app_assoc in H1. cbn [app] in H1.
  pose proof H1 as (Hnd & Hdis & [Hac Hndc]%NoDup_cons)%NoDup_app. assert (a ∉ ns) as Han by (intros Hin; apply (Hdis a Hin); left).
  set (m' := <[a := mkNode (ptn s) (data n)]> m). assert (forall b, b <> a -> m' !! b = m !! b) as Hm' by (intros b Hb; by apply lookup_insert_ne).
  assert ((forall b, b ∈ ns -> m' !! b = m !! b) /\ (forall b, b ∈ cs -> m' !! b = m !! b)) as [Hns Hcs] by (split; intros b Hb; apply Hm'; by intros ->).
  rewrite !sized_app in H3. destruct H3 as [[Hs1 _] Hs2]. exists m'. split.
  - unfold popNode. rewrite Hp. cbn [of_option res_bind]. unfold node_of_first. cbn [fst snd Z.eqb res_bind]. rewrite Hn. cbn [of_option res_bind ptn sz p].
    rewrite (node_link_spec m a n _ Hn). cbn [res_bind]. fold m'. rewrite El. replace (sz s - 1) with (N * Z.of_nat (length ns) - 1) by lia.
    destruct ns as [|c ns _] using rev_ind; [done|]. rewrite last_snoc. by rewrite at_place_last.
  - constructor; cbn [sz p ptn]; try done.
    + intros b. rewrite <- app_assoc in H2. cbn [app] in H2. split; [apply H2|]. intros Hb. rewrite Hm'; [by apply H2|]. intros ->. apply Hb, elem_of_app. right. left.
    + apply sized_app. split; [apply (sized_frame NBits m); [done|]; intros b Hb; by rewrite Hns|].
      constructor; [exists (mkNode (ptn s) (data n)); split; [apply lookup_insert_eq|done]|]. apply (sized_frame NBits m); [done|]. intros b Hb. by rewrite Hcs.
    + change (a :: cs) with ([a] ++ cs). rewrite places_app, (places_one m' a (mkNode (ptn s) (data n))) by apply lookup_insert_eq. cbn [data].
      apply Forall_app. split; [rewrite Ed; by apply Forall_replicate|]. rewrite (places_frame m); [done|]. intros b Hb. by rewrite Hcs.
    + rewrite <- El. apply (nodes_frame m); [done|]. intros b Hb. rewrite Hns; [done|]. by apply list_elem_of_In, in_rev, list_elem_of_In.
    + split; [done|]. exists (mkNode (ptn s) (data n)). split; [by apply lookup_insert_eq|]. cbn [link]. apply (nodes_frame m); [done|]. intros b Hb. by rewrite Hcs.
    + rewrite (places_frame m) by (intros b Hb; by rewrite Hns). cbn [replicate]. by rewrite app_nil_r.
    + intros i q x Hi. rewrite <- (H10 i q x Hi). symmetry. apply at_place_app; [done|]. apply lookup_lt_Some in Hi. lia.
Qed.

Lemma stack_pop_spec base m s q x l : rep base m s (l ++ [(q, x)]) ->
  top m s = Done x /\ p s = Some q /\ exists m' s', pop m s = Done (m', s') /\ rep base m' s' l.
Proof.
  intros (ns & cs & k & Hk & Hr & Hp). pose proof (stack_rep_count _ _ _ _ _ _ _ Hr) as Hc. pose proof (size_pos NBits bits) as HN.
  pose proof (rp_sz _ _ _ _ _ _ _ Hr) as Hsz. rewrite length_app in Hsz. cbn [length] in Hsz.
  destruct (stack_destroy_spec base m s q x l ns cs k Hr) as (Eq & Ed & m' & E & Hr'). rewrite Eq in Hp.
  unfold top. rewrite Hp. cbn [of_option res_bind]. split; [done|]. split; [done|]. unfold pop. rewrite Hp. cbn [of_option res_bind]. rewrite E. cbn [res_bind sz].
  rewrite land_mask by done. destruct (Z.eqb_spec ((sz s - 1) mod N) 0) as [Hm|Hm]; cbn [negb].
  - assert (S k = Z.to_nat N) as EN.
    { destruct (decide (Z.of_nat (S k) < N)) as [Hlt|]; [|lia]. pose proof (slack_zero NBits bits (length ns) (sz s - 1) (S k)). lia. }
    rewrite EN in Hr'. destruct ns as [|a ns _] using rev_ind; [cbn in Hc; lia|]. rewrite length_app in Hc. cbn [length] in Hc.
    assert (q = (a, 0)) as ->. { replace (sz s - 1) with (N * Z.of_nat (length ns)) in Eq by lia. rewrite at_place_new in Eq by done. by injection Eq. }
    rewrite Hp in Hr'. destruct (stack_popNode_spec base m' _ l ns a cs Hr') as (m2 & E2 & Hr2); [done|]. cbn [p sz] in E2, Hr2 |- *. rewrite E2. cbn [res_bind sz ptn].
    do 2 eexists. split; [reflexivity|]. exists ns, (a :: cs), 0%nat. split; [lia|]. by split.
  - do 2 eexists. split; [reflexivity|]. exists ns, cs, (S k). split.
    { destruct (decide (Z.of_nat (S k) = N)) as [Hx|]; [|lia]. destruct Hm. replace (sz s - 1) with ((Z.of_nat (length ns) - 1) * N) by lia. apply Z.mod_mul. lia. }
    split; [by destruct Hr'; constructor|]. cbn [p sz ptn]. assert (0 <= sz s - 1 - 1) as H0.
    { destruct (decide (sz s - 1 = 0)) as [Hx|]; [rewrite Hx, Z.mod_0_l in Hm by lia; done|lia]. }
    pose proof (next_place NBits bits ns (sz s - 1 - 1) H0 ltac:(by rewrite Z.sub_add)) as En. rewrite Z.sub_add, Eq in En.
    destruct (at_place NBits ns (sz s - 1 - 1)) as [[c i]|]; [|done]. cbn in En. injection En as ->. cbn. f_equal. f_equal. lia.
Qed.

(** ** The destructor and runs *)

Lemma stack_pops_spec base l : forall m s, rep base m s l -> exists m' s', pops (length l) m s = Done (m', s') /\ rep base m' s' [].
Proof.
  induction l as [|[q x] l IH] using rev_ind; intros m s Hr; [by exists m, s|]. destruct (stack_pop_spec base m s q x l Hr) as (_ & _ & m1 & s1 & E & Hr1).
  destruct (IH m1 s1 Hr1) as (m2 & s2 & E2 & Hr2). exists m2, s2. rewrite length_app, Nat.add_comm. cbn [length pops Nat.add]. rewrite E. cbn [res_bind fst snd]. by split.
Qed.

Lemma stack_delete_spec base m s l : rep base m s l -> Stack_delete m s = Done base.
Proof.
  intros Hr. pose proof (size_pos NBits bits) as HN. destruct (stack_pops_spec base l m s Hr) as (m1 & s1 & E & (ns & cs & k & Hk & Hr1 & _)).
  assert (sz s = Z.of_nat (length l)) as Esz by (destruct Hr as (? & ? & ? & _ & Hr & _); apply Hr).
  unfold Stack_delete. rewrite Esz, Nat2Z.id, E. cbn [res_bind fst snd].
  pose proof (stack_rep_count _ _ _ _ _ _ _ Hr1) as Hc. destruct Hr1 as [H1 H2 H3 H3' H4 H5 H7 H8 H10]. cbn [length] in H7.
  assert (ns = []) as -> by (destruct ns; [done|cbn [length] in Hc; nia]). cbn [app] in *.
  destruct (free_nodes_spec cs (base.size m1) m1 (ptn s1) H5 H1) as (m2 & E2 & D1 & D2).
  { apply length_dom; [done|]. intros a Ha. destruct (sized_lookup NBits m1 cs a H3 Ha) as (n & ? & _). by exists n. }
  rewrite E2. assert (m2 = base) as ->; [|done]. apply map_eq. intros b.
  destruct (decide (b ∈ cs)) as [Hb|Hb]; [rewrite D1 by done; symmetry; by apply H2|rewrite D2 by done; by apply H2].
Qed.

Inductive op := Push (x : T) | Pop.

(** [Pop] reads the top object before. *)
Definition step (o : op) (m : Memory) (s : Stack) : res (Memory * Stack * list T) :=
  match o with
  | Push x => let! y := push m s x in Done (y.1, y.2, [])
  | Pop => let! x := top m s in let! y := pop m s in Done (y.1, y.2, [x])
  end.

Fixpoint run (os : list op) (m : Memory) (s : Stack) : res (Memory * Stack * list T) :=
  match os with
  | [] => Done (m, s, [])
  | o :: os =>
      let! y := step o m s in
      let! z := run os y.1.1 y.1.2 in
      Done (z.1.1, z.1.2, y.2 ++ z.2)
  end.

(** The same on a list, its head the top. *)
Fixpoint run_list (os : list op) (l : list T) : option (list T * list T) :=
  match os with
  | [] => Some (l, [])
  | Push x :: os => run_list os (x :: l)
  | Pop :: os =>
      match l with
      | [] => None
      | x :: l => (fun y => (y.1, x :: y.2)) <$> run_list os l
      end
  end.

Lemma stack_run_spec base os : forall m s l vals outs, rep base m s l -> run_list os (rev (map snd l)) = Some (vals, outs) ->
  exists m' s' l2, run os m s = Done (m', s', outs) /\ rep base m' s' l2 /\ rev (map snd l2) = vals.
Proof.
  induction os as [|[x|] os IH]; intros m s l vals outs Hr; cbn [run_list run].
  - intros [= <- <-]. by exists m, s, l.
  - intros E. destruct (stack_push_spec base m s l x Hr) as (m1 & s1 & q & E1 & Hr1). unfold step. rewrite E1. cbn [res_bind fst snd].
    destruct (IH m1 s1 (l ++ [(q, x)]) vals outs Hr1) as (m2 & s2 & l2 & E2 & H); [by rewrite map_app, rev_app_distr|]. exists m2, s2, l2. rewrite E2. done.
  - destruct l as [|[q x] l _] using rev_ind; [done|]. rewrite map_app, rev_app_distr. cbn [map snd rev app].
    destruct (run_list os (rev (map snd l))) as [[l1 o1]|] eqn:E; [|done]. intros [= <- <-].
    destruct (stack_pop_spec base m s q x l Hr) as (Ef & _ & m1 & s1 & E1 & Hr1). unfold step. rewrite Ef. cbn [res_bind]. rewrite E1. cbn [res_bind fst snd].
    destruct (IH m1 s1 l l1 o1 Hr1 E) as (m2 & s2 & l2 & E2 & H). exists m2, s2, l2. rewrite E2. done.
Qed.

(** C40: Any sequence of pushes and pops gives what it gives on a list, and ends in a stack of that
    size; destroying it gives back exactly the memory that was allocated, nothing twice. *)
Theorem stack_refines_list os m vals outs : run_list os [] = Some (vals, outs) ->
  exists m' s, run os m Stack_new = Done (m', s, outs) /\ size s = Z.of_nat (length vals) /\ Stack_delete m' s = Done m.
Proof.
  intros E. destruct (stack_run_spec m os m Stack_new [] vals outs (stack_rep_new m) E) as (m' & s & l & E1 & Hr & <-).
  exists m', s. split; [done|]. split; [rewrite length_rev, length_map; by destruct Hr as (? & ? & ? & _ & Hr & _); apply Hr|by eapply stack_delete_spec].
Qed.

End Ops.

(** Nodes of two places. *)
Definition ops_example : list (op (T := Z)) := [Push 1; Push 2; Push 3; Pop; Pop; Push 4; Push 5; Push 6; Pop].

Lemma stack_refines_list_witness : exists m' s, run 1 ops_example ∅ Stack_new = Done (m', s, [3; 2; 6]) /\ size s = 3
  /\ Stack_delete 1 m' s = Done ∅.
Proof. apply (stack_refines_list 1 ltac:(lia) ops_example ∅ [5; 4; 1] [3; 2; 6]). reflexivity. Defined.

End Stack.
