(* ===== verification/InnerList.v ===== *)
(** * Intrusive lists over a vector

    solid/utility/innerlist.hpp: [InnerList<Vec, Link>] threads a doubly linked list
    through the elements of a vector; an element has an array of links, one per list it
    may be in. Several lists share the vector, so every operation takes the vector and
    returns the changed one.

    Indexes are [size_t] values with [InvalidIndex] for "none". An access outside the
    vector gives [None]. References into the vector are modelled by reading the vector
    again at each use, so that aliased links behave as in the source. *)

From S2P Require Import Prelude.

#[local] Set Warnings "-clear-no-such-hyp".

Module InnerList.

(** The invalid [size_t] index. *)
Definition nil_idx : Z := InvalidIndex size_bits.

Record InnerLink := mkLink { prev : Z; next : Z }.

Definition InnerLink_clear : InnerLink := mkLink nil_idx nil_idx.

(** The accessors [inner_link_accessor]/[inner_link_const_accessor] of a node type, with
    the laws of an array of links. *)
Class InnerNode (A : Type) := {
  node_link : nat -> A -> InnerLink;
  set_node_link : nat -> InnerLink -> A -> A;
  node_link_set L x a : node_link L (set_node_link L x a) = x;
  node_link_set_ne L L' x a : L <> L' -> node_link L' (set_node_link L x a) = node_link L' a
}.

Record InnerList := mkInnerList { size_ : Z; back_ : Z; front_ : Z }.

(** The constructor: an empty list. *)
Definition InnerList_new : InnerList := mkInnerList 0 nil_idx nil_idx.

Section Ops.
Context {A : Type} {HN : InnerNode A} (L : nat).

Definition at_idx (v : list A) (i : Z) : option A :=
  if decide (0 <= i) then v !! Z.to_nat i else None.

Definition link (v : list A) (i : Z) : option InnerLink := node_link L <$> at_idx v i.

(** [link(i) = x] *)
Definition set_link (v : list A) (i : Z) (x : InnerLink) : option (list A) :=
  a ← at_idx v i;
  Some (<[Z.to_nat i := set_node_link L x a]> v).

(** [link(i).prev = p] and [link(i).next = n] *)
Definition set_prev (v : list A) (i p : Z) : option (list A) :=
  l ← link v i;
  set_link v i (mkLink p (next l)).

Definition set_next (v : list A) (i n : Z) : option (list A) :=
  l ← link v i;
  set_link v i (mkLink (prev l) n).

Definition pushBack (v : list A) (l : InnerList) (i : Z) : option (list A * InnerList) :=
  v ← set_link v i (mkLink nil_idx (back_ l));
  if negb (back_ l =? nil_idx) then
    v ← set_prev v (back_ l) i;
    Some (v, mkInnerList (wrap 64 (size_ l + 1)) i (front_ l))
  else
    Some (v, mkInnerList (wrap 64 (size_ l + 1)) i i).

Definition pushFront (v : list A) (l : InnerList) (i : Z) : option (list A * InnerList) :=
  v ← set_link v i (mkLink (front_ l) nil_idx);
  if negb (front_ l =? nil_idx) then
    v ← set_next v (front_ l) i;
    Some (v, mkInnerList (wrap 64 (size_ l + 1)) (back_ l) i)
  else
    Some (v, mkInnerList (wrap 64 (size_ l + 1)) i i).

Definition frontIndex (l : InnerList) : Z := front_ l.
Definition backIndex (l : InnerList) : Z := back_ l.
Definition front (v : list A) (l : InnerList) : option A := at_idx v (front_ l).
Definition back (v : list A) (l : InnerList) : option A := at_idx v (back_ l).

Definition erase (v : list A) (l : InnerList) (i : Z) : option (list A * InnerList) :=
  crt ← link v i;
  '(v, bk) ← (if negb (prev crt =? nil_idx) then
                v ← set_next v (prev crt) (next crt);
                Some (v, back_ l)
              else Some (v, next crt));
  crt ← link v i;
  '(v, fr) ← (if negb (next crt =? nil_idx) then
                v ← set_prev v (next crt) (prev crt);
                Some (v, front_ l)
              else Some (v, prev crt));
  v ← set_link v i InnerLink_clear;
  Some (v, mkInnerList (wrap 64 (size_ l - 1)) bk fr).

Definition popFront (v : list A) (l : InnerList) : option (list A * InnerList * Z) :=
  let old_front := front_ l in
  '(v, l) ← erase v l (front_ l);
  Some (v, l, old_front).

Definition popBack (v : list A) (l : InnerList) : option (list A * InnerList * Z) :=
  let old_back := back_ l in
  '(v, l) ← erase v l (back_ l);
  Some (v, l, old_back).

Definition size (l : InnerList) : Z := size_ l.
Definition empty (l : InnerList) : bool := size_ l =? 0.

(** [forEach]: the visited indexes in order; the callback does not change the links. *)
Fixpoint forEach_loop (fuel : nat) (v : list A) (it : Z) : option (list Z) :=
  match fuel with
  | O => None
  | S fuel =>
      if negb (it =? nil_idx) then
        l ← link v it;
        rest ← forEach_loop fuel v (next l);
        Some (it :: rest)
      else Some []
  end.

Definition forEach (v : list A) (l : InnerList) : option (list Z) :=
  forEach_loop (S (length v)) v (back_ l).

Definition fastClear : InnerList := mkInnerList 0 nil_idx nil_idx.

Fixpoint clear_loop (fuel : nat) (v : list A) (l : InnerList) : option (list A * InnerList) :=
  match fuel with
  | O => None
  | S fuel =>
      if negb (size l =? 0) then
        '(v, l, _) ← popFront v l;
        clear_loop fuel v l
      else Some (v, l)
  end.

Definition clear (v : list A) (l : InnerList) : option (list A * InnerList) :=
  clear_loop (S (length v)) v l.

Definition previousIndex (v : list A) (i : Z) : option Z := prev <$> link v i.

Definition check (l : InnerList) : bool :=
  if (back_ l =? nil_idx) || (front_ l =? nil_idx) then back_ l =? front_ l else true.

Definition contains (v : list A) (l : InnerList) (i : Z) : option bool :=
  k ← link v i;
  Some (negb (prev k =? nil_idx) || negb (next k =? nil_idx) || (i =? front_ l)).

End Ops.

(** ** Representation

    The list of indexes a list holds, from front to back: the [next] links lead from an
    element to the one nearer the front, the [prev] links to the one nearer the back. *)

Section Theory.
Context {A : Type} {HN : InnerNode A} (L : nat).
Implicit Types (v : list A) (l : InnerList) (xs ys : list Z) (i j : Z).

(** A segment whose first element has [next = nx] and whose last has [prev = pv]. *)
Fixpoint chain v (nx : Z) xs (pv : Z) : Prop :=
  match xs with
  | [] => True
  | x :: xs' => link L v x = Some (mkLink (hd pv xs') nx) /\ chain v x xs' pv
  end.

Record repr v l xs : Prop := {
  repr_nodup : NoDup xs;
  repr_chain : chain v nil_idx xs nil_idx;
  repr_front : front_ l = hd nil_idx xs;
  repr_back : back_ l = List.last xs nil_idx;
  repr_size : size_ l = Z.of_nat (length xs)
}.

(** The vector is small enough for [InvalidIndex] not to be an index. *)
Definition small v : Prop := Z.of_nat (length v) < nil_idx.

Definition in_vec v i : Prop := 0 <= i < Z.of_nat (length v).

(** [v'] differs from [v] only in links with number [L]. *)
Definition same_but_links v v' : Prop :=
  forall (B : Type) (f : A -> B),
    (forall x a, f (set_node_link L x a) = f a) -> f <$> v' = f <$> v.

(** Links number [L] outside [xs] are untouched. *)
Definition link_frame xs v v' : Prop := forall j, j ∉ xs -> link L v' j = link L v j.

Lemma same_refl v : same_but_links v v.
Proof. done. Qed.

Lemma same_trans v1 v2 v3 :
  same_but_links v1 v2 -> same_but_links v2 v3 -> same_but_links v1 v3.
Proof. intros H1 H2 B f Hf. rewrite H2 by done. by apply H1. Qed.

Lemma same_length v v' : same_but_links v v' -> length v' = length v.
Proof.
  intros Hs. specialize (Hs unit (fun _ => tt) ltac:(done)).
  apply (f_equal length) in Hs. by rewrite !length_fmap in Hs.
Qed.

Lemma same_small v v' : same_but_links v v' -> small v -> small v'.
Proof. intros Hs. unfold small. by rewrite (same_length _ _ Hs). Qed.

Lemma same_in_vec v v' i : same_but_links v v' -> in_vec v i -> in_vec v' i.
Proof. intros Hs. unfold in_vec. by rewrite (same_length _ _ Hs). Qed.

Lemma frame_trans xs v1 v2 v3 : link_frame xs v1 v2 -> link_frame xs v2 v3 -> link_frame xs v1 v3.
Proof. intros H1 H2 j Hj. rewrite H2 by done. by apply H1. Qed.

Lemma frame_mono xs ys v v' : (forall x, x ∈ xs -> x ∈ ys) -> link_frame xs v v' -> link_frame ys v v'.
Proof. intros Hs Hf j Hj. apply Hf. auto. Qed.

(** *** Single link updates *)

Lemma at_idx_Some v i a :
  at_idx v i = Some a <-> 0 <= i /\ v !! Z.to_nat i = Some a.
Proof. unfold at_idx. case_decide; split; intros; destruct_and?; (done || lia || auto). Qed.

Lemma in_vec_at v i : in_vec v i -> exists a, at_idx v i = Some a.
Proof.
  intros [H0 H1]. destruct (lookup_lt_is_Some_2 v (Z.to_nat i)) as [a Ha]; [lia|].
  exists a. by apply at_idx_Some.
Qed.

Lemma link_in_vec v i x : link L v i = Some x -> in_vec v i.
Proof.
  unfold link. intros Hl. apply fmap_Some in Hl as (a & Ha & _).
  apply at_idx_Some in Ha as [? Ha]. apply lookup_lt_Some in Ha. unfold in_vec. lia.
Qed.

Lemma set_link_spec v i x :
  in_vec v i ->
  exists v', set_link L v i x = Some v' /\ same_but_links v v' /\ link_frame [i] v v' /\
             link L v' i = Some x.
Proof.
  intros Hi. destruct (in_vec_at v i Hi) as [a Ha]. unfold set_link. rewrite Ha.
  cbn [mbind option_bind]. eexists. split; [done|].
  apply at_idx_Some in Ha as [Hi0 Ha]. split; [|split].
  - intros B f Hf. rewrite list_fmap_insert, Hf. apply list_insert_id.
    by rewrite list_lookup_fmap, Ha.
  - intros j Hj. unfold link, at_idx. case_decide; [|done].
    rewrite list_lookup_insert_ne; [done|]. intros ?. apply Hj. apply list_elem_of_singleton. lia.
  - unfold link, at_idx. rewrite decide_True by done.
    rewrite list_lookup_insert_eq by (unfold in_vec in Hi; lia). cbn. by rewrite node_link_set.
Qed.

Lemma set_prev_spec v i lk p :
  link L v i = Some lk ->
  exists v', set_prev L v i p = Some v' /\ same_but_links v v' /\ link_frame [i] v v' /\
             link L v' i = Some (mkLink p (next lk)).
Proof.
  intros Hl. unfold set_prev. rewrite Hl. cbn [mbind option_bind].
  apply set_link_spec. by eapply link_in_vec.
Qed.

Lemma set_next_spec v i lk n :
  link L v i = Some lk ->
  exists v', set_next L v i n = Some v' /\ same_but_links v v' /\ link_frame [i] v v' /\
             link L v' i = Some (mkLink (prev lk) n).
Proof.
  intros Hl. unfold set_next. rewrite Hl. cbn [mbind option_bind].
  apply set_link_spec. by eapply link_in_vec.
Qed.

(** *** Segments *)

Lemma chain_app v nx xs ys pv :
  chain v nx (xs ++ ys) pv <-> chain v nx xs (hd pv ys) /\ chain v (List.last xs nx) ys pv.
Proof.
  revert nx; induction xs as [|x xs IH]; intros nx; [simpl; tauto|].
  cbn [app chain]. rewrite IH. destruct xs as [|x' xs]; cbn [app hd List.last]; [tauto|].
  assert (forall d d', List.last (x' :: xs) d = List.last (x' :: xs) d') as E.
  { clear. revert x'. induction xs as [|y xs IH]; intros x' d d'; [done|].
    cbn [List.last] in *. apply IH. }
  cbn [List.last] in E. rewrite (E nx x). tauto.
Qed.

Lemma chain_frame zs v v' nx xs pv :
  link_frame zs v v' -> (forall x, x ∈ xs -> x ∉ zs) -> chain v nx xs pv -> chain v' nx xs pv.
Proof.
  intros Hf. revert nx; induction xs as [|x xs IH]; intros nx Hd; [done|].
  cbn [chain]. intros [Hl Hc]. split; [|apply IH; [|done]].
  - rewrite Hf; [done|]. apply Hd. set_solver.
  - intros y Hy. apply Hd. set_solver.
Qed.

Lemma chain_in_vec v nx xs pv i : chain v nx xs pv -> i ∈ xs -> in_vec v i.
Proof.
  revert nx; induction xs as [|x xs IH]; intros nx; [set_solver|].
  cbn [chain]. intros [Hl Hc] Hi. apply elem_of_cons in Hi as [->|Hi]; [by eapply link_in_vec|eauto].
Qed.

Lemma chain_set_last v nx xs x pv pv' :
  NoDup (xs ++ [x]) -> chain v nx (xs ++ [x]) pv ->
  exists v', set_prev L v x pv' = Some v' /\ same_but_links v v' /\ link_frame [x] v v' /\
             chain v' nx (xs ++ [x]) pv'.
Proof.
  intros Hnd Hc. apply chain_app in Hc as [Hxs [Hx _]]. cbn [hd] in *.
  destruct (set_prev_spec v x _ pv' Hx) as (v' & HE & Hs & Hf & Hl).
  exists v'. repeat split; try done. apply chain_app. split; [|by split].
  apply (chain_frame [x] v); [done| |done]. apply NoDup_app in Hnd as (_ & Hd & _). done.
Qed.

Lemma chain_set_head v nx nx' y ys pv :
  NoDup (y :: ys) -> chain v nx (y :: ys) pv ->
  exists v', set_next L v y nx' = Some v' /\ same_but_links v v' /\ link_frame [y] v v' /\
             chain v' nx' (y :: ys) pv.
Proof.
  intros Hnd [Hy Hc]. destruct (set_next_spec v y _ nx' Hy) as (v' & HE & Hs & Hf & Hl).
  exists v'. repeat split; try done. apply (chain_frame [y] v); [done| |done].
  intros z Hz. apply NoDup_cons in Hnd as [Hn _]. set_solver.
Qed.

(** *** Facts about represented lists *)

Lemma repr_in_vec v l xs i : repr v l xs -> i ∈ xs -> in_vec v i.
Proof. intros Hr. eapply chain_in_vec, repr_chain, Hr. Qed.

Lemma in_vec_not_nil v i : small v -> in_vec v i -> i <> nil_idx.
Proof. unfold small, in_vec. lia. Qed.

Lemma in_vec_neqb v i : small v -> in_vec v i -> (i =? nil_idx) = false.
Proof. intros Hs Hi. apply Z.eqb_neq. by eapply in_vec_not_nil. Qed.

Lemma repr_neqb v l xs i : small v -> repr v l xs -> i ∈ xs -> (i =? nil_idx) = false.
Proof. intros Hs Hr Hi. apply (in_vec_neqb v); [done|]. by eapply repr_in_vec. Qed.

(** A duplicate-free list of indexes is not longer than the vector. *)
Lemma nodup_length v xs : NoDup xs -> (forall i, i ∈ xs -> in_vec v i) -> (length xs <= length v)%nat.
Proof.
  intros Hnd Hin.
  assert (NoDup (Z.to_nat <$> xs)) as Hnd'.
  { clear -Hnd Hin. induction xs as [|x xs IH]; [constructor|].
    apply NoDup_cons in Hnd as [Hx Hnd]. rewrite fmap_cons. apply NoDup_cons. split.
    - intros Hi. apply list_elem_of_fmap in Hi as (y & E & Hy).
      assert (x = y); [|by subst].
      destruct (Hin x ltac:(set_solver)), (Hin y ltac:(set_solver)). lia.
    - apply IH; [done|]. intros i Hi. apply Hin. set_solver. }
  rewrite <- (length_fmap Z.to_nat xs), <- (length_seq (length v) 0).
  apply submseteq_length, NoDup_submseteq; [done|].
  intros n Hn. apply list_elem_of_fmap in Hn as (i & -> & Hi). apply elem_of_seq.
  destruct (Hin i Hi). lia.
Qed.

Lemma nodup_length_lt v xs i :
  NoDup xs -> (forall j, j ∈ xs -> in_vec v j) -> in_vec v i -> i ∉ xs -> (length xs < length v)%nat.
Proof.
  intros Hnd Hin Hi Hni. pose proof (nodup_length v (i :: xs)) as Hl. cbn in Hl. apply Hl.
  - by apply NoDup_cons.
  - intros j Hj. apply elem_of_cons in Hj as [->|Hj]; auto.
Qed.

Lemma repr_empty v l : repr v l [] <-> l = InnerList_new.
Proof.
  split.
  - intros [_ _ Hf Hb Hs]. destruct l; cbn in *. by subst.
  - intros ->. by constructor; [constructor|..].
Qed.

Lemma repr_frame zs v v' l xs :
  link_frame zs v v' -> (forall x, x ∈ xs -> x ∉ zs) -> repr v l xs -> repr v' l xs.
Proof. intros Hf Hd [? Hc ???]. constructor; try done. by eapply chain_frame. Qed.

Lemma hd_app_ne (d : Z) (xs ys : list Z) : xs <> [] -> hd d (xs ++ ys) = hd d xs.
Proof. by destruct xs. Qed.

Lemma last_app1 (d x : Z) (xs : list Z) : List.last (xs ++ [x]) d = x.
Proof. apply List.last_last. Qed.

Lemma last_app_ne (d d' : Z) (xs ys : list Z) :
  ys <> [] -> List.last (xs ++ ys) d = List.last ys d'.
Proof.
  destruct (rev_ind (fun ys => ys = [] \/ exists zs z, ys = zs ++ [z])
    ltac:(by left) ltac:(right; eauto) ys) as [->|(zs & z & ->)]; [done|].
  intros _. by rewrite app_assoc, !List.last_last.
Qed.

Lemma list_snoc_cases (xs : list Z) : xs = [] \/ exists ys y, xs = ys ++ [y].
Proof. destruct xs as [|ys y] using rev_ind; [by left|right; eauto]. Qed.

(** *** Operations *)

Lemma pushBack_spec v l xs i :
  small v -> repr v l xs -> in_vec v i -> i ∉ xs ->
  exists v' l', pushBack L v l i = Some (v', l') /\ repr v' l' (xs ++ [i]) /\
    same_but_links v v' /\ link_frame (xs ++ [i]) v v'.
Proof.
  intros Hsm Hr Hi Hni.
  assert (Z.of_nat (length xs) + 1 < 2 ^ 64) as Hlen.
  { pose proof (nodup_length_lt v xs i (repr_nodup _ _ _ Hr) ltac:(by intros; eapply repr_in_vec) Hi Hni).
    unfold small, nil_idx, InvalidIndex, size_bits in Hsm. lia. }
  assert (NoDup (xs ++ [i])) as Hnd.
  { apply NoDup_app. split; [apply Hr|]. split; [|apply NoDup_singleton]. set_solver. }
  unfold pushBack. destruct (set_link_spec v i (mkLink nil_idx (back_ l)) Hi) as (v1 & -> & Hs1 & Hf1 & Hl1).
  cbn [mbind option_bind]. rewrite (repr_back _ _ _ Hr) in *.
  assert (chain v1 nil_idx xs nil_idx) as Hc1.
  { apply (chain_frame [i] v); [done|set_solver|apply Hr]. }
  rewrite (repr_size _ _ _ Hr), wrap_small by (unfold in_range; lia).
  destruct (list_snoc_cases xs) as [->|(ys & y & ->)].
  - cbn [List.last]. rewrite Z.eqb_refl. cbn [negb]. eexists _, _. split; [done|].
    split; [constructor; (done || by split)|]. by split.
  - rewrite last_app1 in *.
    rewrite (repr_neqb v l _ y Hsm Hr) by set_solver. cbn [negb].
    destruct (chain_set_last v1 nil_idx ys y nil_idx i) as (v2 & -> & Hs2 & Hf2 & Hc2);
      [by apply NoDup_app in Hnd as (? & _ & _)|done|].
    cbn [mbind option_bind]. eexists _, _. split; [done|]. split; [constructor; try done|split].
    + apply chain_app. split; [done|]. rewrite last_app1. split; [|done].
      rewrite Hf2; [done|]. set_solver.
    + cbn [front_]. rewrite (repr_front _ _ _ Hr). by rewrite (hd_app_ne _ (ys ++ [y])) by (by destruct ys).
    + by rewrite last_app1.
    + cbn [size_]. rewrite (length_app _ [i]). cbn. lia.
    + by eapply same_trans.
    + apply (frame_trans _ v v1); [apply (frame_mono [i]); [set_solver|done]|].
      apply (frame_mono [y]); [set_solver|done].
Qed.

Lemma pushFront_spec v l xs i :
  small v -> repr v l xs -> in_vec v i -> i ∉ xs ->
  exists v' l', pushFront L v l i = Some (v', l') /\ repr v' l' (i :: xs) /\
    same_but_links v v' /\ link_frame (i :: xs) v v'.
Proof.
  intros Hsm Hr Hi Hni.
  assert (Z.of_nat (length xs) + 1 < 2 ^ 64) as Hlen.
  { pose proof (nodup_length_lt v xs i (repr_nodup _ _ _ Hr) ltac:(by intros; eapply repr_in_vec) Hi Hni).
    unfold small, nil_idx, InvalidIndex, size_bits in Hsm. lia. }
  unfold pushFront. destruct (set_link_spec v i (mkLink (front_ l) nil_idx) Hi) as (v1 & -> & Hs1 & Hf1 & Hl1).
  cbn [mbind option_bind]. rewrite (repr_front _ _ _ Hr) in *.
  assert (chain v1 nil_idx xs nil_idx) as Hc1.
  { apply (chain_frame [i] v); [done|set_solver|apply Hr]. }
  pose proof (repr_nodup _ _ _ Hr) as Hnd0.
  rewrite (repr_size _ _ _ Hr), wrap_small by (unfold in_range; lia).
  destruct xs as [|y ys]; cbn [hd] in *.
  - rewrite Z.eqb_refl. cbn [negb]. eexists _, _. split; [done|].
    split; [constructor; (done || apply NoDup_singleton || by split)|]. by split.
  - rewrite (repr_neqb v l _ y Hsm Hr) by set_solver. cbn [negb].
    destruct (chain_set_head v1 nil_idx i y ys nil_idx) as (v2 & -> & Hs2 & Hf2 & Hc2); [done|done|].
    cbn [mbind option_bind]. eexists _, _. split; [done|]. split; [constructor; try done|split].
    + by apply NoDup_cons.
    + split; [|done]. rewrite Hf2; [done|]. set_solver.
    + cbn [back_]. rewrite (repr_back _ _ _ Hr). by cbn [List.last].
    + cbn [size_ length]. lia.
    + by eapply same_trans.
    + apply (frame_trans _ v v1); [apply (frame_mono [i]); [set_solver|done]|].
      apply (frame_mono [y]); [set_solver|done].
Qed.

(** First half of [erase]: the element after [i] towards the back, or [back_]. *)
Lemma erase_back_side v bk xs i ys :
  small v -> NoDup ys -> chain v i ys nil_idx -> bk = List.last (xs ++ i :: ys) nil_idx ->
  exists v', (if negb (hd nil_idx ys =? nil_idx)
      then v' ← set_next L v (hd nil_idx ys) (List.last xs nil_idx); Some (v', bk)
      else Some (v, List.last xs nil_idx)) = Some (v', List.last (xs ++ ys) nil_idx) /\
    same_but_links v v' /\ link_frame ys v v' /\ chain v' (List.last xs nil_idx) ys nil_idx.
Proof.
  intros Hsm Hnd Hc ->. destruct ys as [|y ys]; cbn [hd].
  - rewrite Z.eqb_refl, app_nil_r. cbn [negb]. by exists v.
  - rewrite (in_vec_neqb v y) by (try done; by eapply chain_in_vec; [|left]). cbn [negb].
    destruct (chain_set_head v i (List.last xs nil_idx) y ys nil_idx)
      as (v1 & -> & Hs & Hf & Hc1); [done|done|].
    cbn [mbind option_bind]. exists v1. split; [|split; [done|split; [|done]]].
    + by rewrite !(last_app_ne nil_idx nil_idx) by done.
    + apply (frame_mono [y]); [set_solver|done].
Qed.

(** Second half of [erase]: the element before [i] towards the front, or [front_]. *)
Lemma erase_front_side v fr xs i ys :
  small v -> NoDup xs -> chain v nil_idx xs i -> fr = hd nil_idx (xs ++ i :: ys) ->
  exists v', (if negb (List.last xs nil_idx =? nil_idx)
      then v' ← set_prev L v (List.last xs nil_idx) (hd nil_idx ys); Some (v', fr)
      else Some (v, hd nil_idx ys)) = Some (v', hd nil_idx (xs ++ ys)) /\
    same_but_links v v' /\ link_frame xs v v' /\ chain v' nil_idx xs (hd nil_idx ys).
Proof.
  intros Hsm Hnd Hc ->. destruct (list_snoc_cases xs) as [->|(zs & z & ->)].
  - cbn [List.last]. rewrite Z.eqb_refl. cbn [negb]. by exists v.
  - rewrite last_app1. rewrite (in_vec_neqb v z) by (try done; eapply chain_in_vec; set_solver).
    cbn [negb]. destruct (chain_set_last v nil_idx zs z i (hd nil_idx ys))
      as (v2 & -> & Hs & Hf & Hc2); [done|done|].
    cbn [mbind option_bind]. exists v2. split; [|split; [done|split; [|done]]].
    + by rewrite !(hd_app_ne _ (zs ++ [z])) by (by destruct zs).
    + apply (frame_mono [z]); [set_solver|done].
Qed.

(** Unlinking [i] between [xs] (nearer the front) and [ys] (nearer the back). *)
Lemma erase_spec v l xs i ys :
  small v -> repr v l (xs ++ i :: ys) ->
  exists v' l', erase L v l i = Some (v', l') /\ repr v' l' (xs ++ ys) /\
    same_but_links v v' /\ link_frame (xs ++ i :: ys) v v' /\
    link L v' i = Some InnerLink_clear.
Proof.
  intros Hsm Hr. pose proof (repr_nodup _ _ _ Hr) as Hnd.
  pose proof (repr_chain _ _ _ Hr) as Hc. apply chain_app in Hc as [Hcx [Hli Hcy]]. cbn [hd] in *.
  assert (in_vec v i) as Hi by (by eapply link_in_vec).
  apply NoDup_app in Hnd as (Hndx & Hdx & Hndiy). apply NoDup_cons in Hndiy as [Hniy Hndy].
  unfold erase. rewrite Hli. cbn [mbind option_bind prev next].
  destruct (erase_back_side v (back_ l) xs i ys) as (v1 & -> & Hs1 & Hf1 & Hc1);
    [done|done|done|apply Hr|].
  cbn [mbind option_bind]. rewrite (Hf1 i) by done. rewrite Hli. cbn [mbind option_bind prev next].
  destruct (erase_front_side v1 (front_ l) xs i ys) as (v2 & -> & Hs2 & Hf2 & Hc2);
    [by eapply same_small|done| |apply Hr|].
  { apply (chain_frame ys v); [done| |done]. intros x Hx Hy. apply (Hdx x Hx). set_solver. }
  cbn [mbind option_bind].
  destruct (set_link_spec v2 i InnerLink_clear) as (v3 & -> & Hs3 & Hf3 & Hl3);
    [by do 2 (eapply same_in_vec; [done|])|]. cbn [mbind option_bind].
  eexists _, _. split; [done|].
  split; [constructor; try done|split; [by do 2 (eapply same_trans; [done|])|split; [|done]]].
  - apply NoDup_app. split; [done|]. split; [|done].
    intros x Hx Hy. apply (Hdx x Hx). set_solver.
  - apply chain_app. split; apply (chain_frame [i] v2); try set_solver.
    apply (chain_frame xs v1); [done| |done]. intros y Hy Hx. apply (Hdx y Hx). set_solver.
  - cbn [size_]. rewrite (repr_size _ _ _ Hr), !length_app. cbn [length].
    assert (length (xs ++ i :: ys) <= length v)%nat as Hle
      by (apply nodup_length; [apply Hr|by intros; eapply repr_in_vec]).
    rewrite length_app in Hle. cbn [length] in Hle.
    unfold small, nil_idx, InvalidIndex, size_bits in Hsm.
    rewrite wrap_small by (unfold in_range; lia). lia.
  - intros j Hj. rewrite Hf3, Hf2, Hf1 by set_solver. done.
Qed.

Lemma popFront_spec v l i xs :
  small v -> repr v l (i :: xs) ->
  exists v' l', popFront L v l = Some (v', l', i) /\ repr v' l' xs /\
    same_but_links v v' /\ link_frame (i :: xs) v v' /\ link L v' i = Some InnerLink_clear.
Proof.
  intros Hsm Hr. destruct (erase_spec v l [] i xs Hsm Hr) as (v' & l' & E & H1 & H2 & H3 & H4).
  unfold popFront. rewrite (repr_front _ _ _ Hr). cbn [hd]. rewrite E. cbn [mbind option_bind]. eauto 10.
Qed.

Lemma popBack_spec v l i xs :
  small v -> repr v l (xs ++ [i]) ->
  exists v' l', popBack L v l = Some (v', l', i) /\ repr v' l' xs /\
    same_but_links v v' /\ link_frame (xs ++ [i]) v v' /\ link L v' i = Some InnerLink_clear.
Proof.
  intros Hsm Hr. destruct (erase_spec v l xs i [] Hsm Hr) as (v' & l' & E & H1 & H2 & H3 & H4).
  rewrite app_nil_r in H1. unfold popBack. rewrite (repr_back _ _ _ Hr), last_app1, E.
  cbn [mbind option_bind]. eauto 10.
Qed.

(** *** Traversal *)

Lemma forEach_loop_spec v l xs ys fuel :
  small v -> repr v l (xs ++ ys) -> (length xs < fuel)%nat ->
  forEach_loop L fuel v (List.last xs nil_idx) = Some (rev xs).
Proof.
  intros Hsm Hr. revert ys fuel Hr. induction xs as [|x xs IH] using rev_ind; intros ys fuel Hr Hf.
  - destruct fuel; [cbn in Hf; lia|]. cbn. by rewrite Z.eqb_refl.
  - rewrite length_app in Hf. cbn in Hf. destruct fuel as [|fuel]; [lia|].
    cbn [forEach_loop]. rewrite last_app1.
    rewrite (repr_neqb v l _ x Hsm Hr) by set_solver. cbn [negb].
    rewrite <- app_assoc in Hr. pose proof (repr_chain _ _ _ Hr) as Hc.
    apply chain_app in Hc as [_ [Hx _]]. rewrite Hx. cbn [mbind option_bind next].
    rewrite (IH (x :: ys)) by (done || lia). cbn [mbind option_bind]. by rewrite rev_unit.
Qed.

Lemma forEach_spec v l xs : small v -> repr v l xs -> forEach L v l = Some (rev xs).
Proof.
  intros Hsm Hr. unfold forEach. rewrite (repr_back _ _ _ Hr).
  apply (forEach_loop_spec v l xs []); [done|by rewrite app_nil_r|].
  assert (length xs <= length v)%nat; [|lia].
  apply nodup_length; [apply Hr|by intros; eapply repr_in_vec].
Qed.

Lemma clear_loop_spec v l xs fuel :
  small v -> repr v l xs -> (length xs < fuel)%nat ->
  exists v', clear_loop L fuel v l = Some (v', InnerList_new) /\ same_but_links v v' /\
    link_frame xs v v' /\ forall i, i ∈ xs -> link L v' i = Some InnerLink_clear.
Proof.
  intros Hsm. revert v l xs Hsm; induction fuel as [|fuel IH]; intros v l xs Hsm Hr Hf; [lia|].
  cbn [clear_loop]. unfold size. rewrite (repr_size _ _ _ Hr). destruct xs as [|x xs].
  - cbn [length Z.of_nat Z.eqb negb]. exists v. split; [|by split; [|split; [|set_solver]]].
    apply repr_empty in Hr. by subst.
  - cbn [length]. decide_Z. cbn [negb].
    destruct (popFront_spec v l x xs Hsm Hr) as (v1 & l1 & -> & Hr1 & Hs1 & Hf1 & Hl1).
    cbn [mbind option_bind].
    destruct (IH v1 l1 xs) as (v2 & -> & Hs2 & Hf2 & Hl2);
      [by eapply same_small|done|cbn in Hf; lia|].
    exists v2. split; [done|]. split; [by eapply same_trans|].
    pose proof (repr_nodup _ _ _ Hr) as [Hx _]%NoDup_cons. split.
    + intros j Hj. rewrite Hf2, Hf1 by set_solver. done.
    + intros i [->|Hi]%elem_of_cons; [|by apply Hl2]. by rewrite Hf2.
Qed.

Lemma contains_spec v l xs i :
  small v -> repr v l xs -> in_vec v i ->
  (i ∉ xs -> link L v i = Some InnerLink_clear) ->
  contains L v l i = Some (bool_decide (i ∈ xs)).
Proof.
  intros Hsm Hr Hi Hcl. unfold contains. rewrite (repr_front _ _ _ Hr).
  destruct (decide (i ∈ xs)) as [Hin|Hni].
  - rewrite bool_decide_eq_true_2 by done.
    apply list_elem_of_split in Hin as (zs & ys & ->). pose proof (repr_chain _ _ _ Hr) as Hc.
    apply chain_app in Hc as [_ [-> _]]. cbn [mbind option_bind prev next]. f_equal.
    destruct (list_snoc_cases zs) as [->|(ws & w & ->)].
    + cbn [app hd]. rewrite (Z.eqb_refl i). apply orb_true_r.
    + rewrite last_app1. rewrite (repr_neqb v l _ w Hsm Hr) by set_solver.
      cbn [negb]. by rewrite orb_true_r.
  - rewrite bool_decide_eq_false_2, Hcl by done. cbn [mbind option_bind prev next InnerLink_clear].
    rewrite !Z.eqb_refl. cbn [negb orb]. f_equal. destruct xs as [|x xs]; cbn [hd].
    + apply Z.eqb_neq. by eapply in_vec_not_nil.
    + apply Z.eqb_neq. set_solver.
Qed.

(** ** Refinement of a deque

    The operations of the class against a deque of indexes: the abstract step says when
    an operation is allowed and what it returns. *)

Inductive op := PushBack (i : Z) | PushFront (i : Z) | Erase (i : Z) | PopFront | PopBack.

Definition op_run v l (o : op) : option (list A * InnerList * Z) :=
  match o with
  | PushBack i => '(v, l) ← pushBack L v l i; Some (v, l, i)
  | PushFront i => '(v, l) ← pushFront L v l i; Some (v, l, i)
  | Erase i => '(v, l) ← erase L v l i; Some (v, l, i)
  | PopFront => popFront L v l
  | PopBack => popBack L v l
  end.

Fixpoint ops_run v l (os : list op) : option (list A * InnerList * list Z) :=
  match os with
  | [] => Some (v, l, [])
  | o :: os =>
      '(v, l, r) ← op_run v l o;
      '(v, l, rs) ← ops_run v l os;
      Some (v, l, r :: rs)
  end.

Inductive deque_step (n : nat) : list Z -> op -> list Z -> Z -> Prop :=
  | deque_push_back xs i : 0 <= i < Z.of_nat n -> i ∉ xs -> deque_step n xs (PushBack i) (xs ++ [i]) i
  | deque_push_front xs i : 0 <= i < Z.of_nat n -> i ∉ xs -> deque_step n xs (PushFront i) (i :: xs) i
  | deque_erase xs i ys : deque_step n (xs ++ i :: ys) (Erase i) (xs ++ ys) i
  | deque_pop_front i xs : deque_step n (i :: xs) PopFront xs i
  | deque_pop_back xs i : deque_step n (xs ++ [i]) PopBack xs i.

Inductive deque_steps (n : nat) : list Z -> list op -> list Z -> list Z -> Prop :=
  | deque_done xs : deque_steps n xs [] xs []
  | deque_more xs o ys r os zs rs :
      deque_step n xs o ys r -> deque_steps n ys os zs rs -> deque_steps n xs (o :: os) zs (r :: rs).

Lemma op_run_refines v l xs o ys r :
  small v -> repr v l xs -> deque_step (length v) xs o ys r ->
  exists v' l', op_run v l o = Some (v', l', r) /\ repr v' l' ys /\ same_but_links v v'.
Proof.
  intros Hsm Hr Hst. destruct Hst; cbn [op_run].
  - destruct (pushBack_spec v l xs i) as (v' & l' & -> & ? & ? & _); eauto.
  - destruct (pushFront_spec v l xs i) as (v' & l' & -> & ? & ? & _); eauto.
  - destruct (erase_spec v l xs i ys) as (v' & l' & -> & ? & ? & _); eauto.
  - destruct (popFront_spec v l i xs) as (v' & l' & -> & ? & ? & _); eauto.
  - destruct (popBack_spec v l i xs) as (v' & l' & -> & ? & ? & _); eauto.
Qed.

(** [InnerList] implements a deque of indexes: every sequence of pushes, erasures and
    pops the deque allows runs without an invalid access, returns the indexes the deque
    returns, leaves links that represent the resulting deque, and changes nothing in the
    vector but the links of this list. *)
Theorem inner_list_refines_deque v l xs os ys rs :
  small v -> repr v l xs -> deque_steps (length v) xs os ys rs ->
  exists v' l', ops_run v l os = Some (v', l', rs) /\ repr v' l' ys /\ same_but_links v v'.
Proof.
  intros Hsm Hr Hst. remember (length v) as n eqn:Hn. revert v l Hsm Hr Hn.
  induction Hst as [xs|xs o ys r os zs rs Hst Hsts IH]; intros v l Hsm Hr Hn; subst n.
  - exists v, l. by split.
  - destruct (op_run_refines v l xs o ys r Hsm Hr Hst) as (v1 & l1 & E1 & Hr1 & Hs1).
    destruct (IH v1 l1) as (v2 & l2 & E2 & Hr2 & Hs2);
      [by eapply same_small|done|by rewrite (same_length _ _ Hs1)|].
    exists v2, l2. cbn [ops_run]. rewrite E1. cbn [mbind option_bind]. rewrite E2.
    cbn [mbind option_bind]. split; [done|]. split; [done|]. by eapply same_trans.
Qed.

(** Traversal and clearing: [forEach] visits every element exactly once, from back to
    front, in a number of steps bounded by the vector; [clear] empties the list and resets
    the links of all its elements; [contains] answers membership when elements outside the
    list have cleared links. *)
Theorem inner_list_observers v l xs i :
  small v -> repr v l xs -> in_vec v i -> (i ∉ xs -> link L v i = Some InnerLink_clear) ->
  forEach L v l = Some (rev xs) /\ empty l = bool_decide (xs = []) /\ check l = true /\
  contains L v l i = Some (bool_decide (i ∈ xs)) /\
  exists v', clear L v l = Some (v', InnerList_new) /\
    forall j, j ∈ xs -> link L v' j = Some InnerLink_clear.
Proof.
  intros Hsm Hr Hi Hcl. split; [by apply forEach_spec|]. split; [|split; [|split]].
  - unfold empty. rewrite (repr_size _ _ _ Hr).
    destruct xs; case_bool_decide; try done; cbn [length]; by decide_Z.
  - unfold check. rewrite (repr_front _ _ _ Hr), (repr_back _ _ _ Hr).
    destruct xs as [|x xs]; [done|]. cbn [hd]. rewrite (repr_neqb v l _ x Hsm Hr) by set_solver.
    destruct (list_snoc_cases (x :: xs)) as [|(zs & z & E)]; [done|]. rewrite E, last_app1.
    by rewrite (repr_neqb v l _ z Hsm Hr) by (rewrite E; set_solver).
  - by apply contains_spec.
  - assert (length xs <= length v)%nat
      by (apply nodup_length; [apply Hr|by intros; eapply repr_in_vec]).
    destruct (clear_loop_spec v l xs (S (length v)) Hsm Hr) as (v' & HE & _ & _ & Hl); [lia|].
    by exists v'.
Qed.

End Theory.

(** A node as [InnerNode<Size>]: an array of links, in which links that were never set read
    as cleared. *)
Definition links_node := nat -> InnerLink.

#[export] Instance links_node_InnerNode : InnerNode links_node.
Proof.
  refine {| node_link L a := a L;
            set_node_link L x a := fun L' => if decide (L = L') then x else a L' |}.
  - intros L x a. by rewrite decide_True.
  - intros L L' x a HL. by rewrite decide_False.
Defined.

Definition fresh_nodes (n : nat) : list links_node := replicate n (fun _ => InnerLink_clear).

Lemma inner_list_refines_deque_witness :
  exists v' l', ops_run 0 (fresh_nodes 3) InnerList_new [PushBack 1; PushFront 2; PushBack 0; Erase 1; PopBack]
    = Some (v', l', [1; 2; 0; 1; 0]) /\ repr 0 v' l' [2].
Proof.
  destruct (inner_list_refines_deque 0 (fresh_nodes 3) InnerList_new []
    [PushBack 1; PushFront 2; PushBack 0; Erase 1; PopBack] [2] [1; 2; 0; 1; 0]) as (v' & l' & E & R & _).
  - done.
  - by apply repr_empty.
  - eapply deque_more; [by apply deque_push_back; [cbn; lia|set_solver]|].
    eapply deque_more; [by apply deque_push_front; [cbn; lia|set_solver]|].
    eapply deque_more; [by apply deque_push_back; [cbn; lia|set_solver]|].
    eapply deque_more; [by apply (deque_erase _ [2] 1 [0])|].
    eapply deque_more; [by apply (deque_pop_back _ [2] 0)|]. constructor.
  - by exists v', l'.
Defined.

Lemma inner_list_observers_witness :
  forEach 0 (fresh_nodes 2) InnerList_new = Some (rev []).
Proof.
  apply (inner_list_observers 0 (fresh_nodes 2) InnerList_new [] 1).
  - done.
  - by apply repr_empty.
  - done.
  - intros _. reflexivity.
Defined.

End InnerList.
