(* ===== verification/TriList.v ===== *)
(** * Three intrusive lists over one vector

    Both the writer of a connection and a connection pool thread three [InnerList]s through
    the stubs of one vector: two lists that share a link and are therefore disjoint (the
    stubs in use and the free stubs), and one list with a link of its own. This file has the
    representation of such a triple and what the list operations do to it. *)

From S2P Require Import Prelude InnerList.
Import InnerList.
#[local] Set Warnings "-clear-no-such-hyp".

Module TriList.

Section Tri.
Context {A : Type} {HN : InnerNode A} (LA LB : nat) (HL : LA <> LB).
Implicit Types (v : list A) (l lo lf lx : InnerList) (own free other xs ys : list Z) (i : Z).

(** [own] and [free] share the link [LA], [other] has the link [LB]. *)
Record tri v lo lf lx own free other : Prop := {
  tri_own : repr LA v lo own;
  tri_free : repr LA v lf free;
  tri_other : repr LB v lx other;
  tri_small : small v;
  tri_disj : forall i, i ∈ own -> i ∉ free;
  tri_detached : forall i, in_vec v i -> i ∉ own -> i ∉ free -> link LA v i = Some InnerLink_clear
}.

(** [v'] is [v] up to links. *)
Definition same_nodes v v' : Prop :=
  forall (B : Type) (f : A -> B), (forall L x a, f (set_node_link L x a) = f a) -> f <$> v' = f <$> v.

Lemma same_but_links_nodes L v v' : same_but_links L v v' -> same_nodes v v'.
Proof using Type. clear HL. intros Hs B f Hf. by apply Hs. Qed.

Lemma link_other L L' v v' j : same_but_links L v v' -> L <> L' -> link L' v' j = link L' v j.
Proof using Type.
  clear HL. intros Hs Hne.
  assert (E : node_link L' <$> v' = node_link L' <$> v).
  { apply Hs. intros x a. by apply node_link_set_ne. }
  unfold link, at_idx. case_decide; [|done]. by rewrite <- !list_lookup_fmap, E.
Qed.

Lemma repr_other L L' v v' l xs :
  same_but_links L v v' -> L <> L' -> repr L' v l xs -> repr L' v' l xs.
Proof using Type.
  clear HL. intros Hs Hne. apply (repr_frame L' []); [|by intros ? _ ?%not_elem_of_nil].
  intros j _. by apply (link_other L).
Qed.

Lemma same_in_vec_inv L v v' i : same_but_links L v v' -> in_vec v' i -> in_vec v i.
Proof using Type. clear HL. intros Hs. unfold in_vec. by rewrite (same_length L v v' Hs). Qed.

(** Closes the fields of [tri] after a list operation: for a link, a small vector, disjoint
    lists, and the unlinked nodes. *)
Ltac tri_field :=
  first [ done | by eapply repr_other; [eassumption|congruence|] | by eapply same_small | set_solver
        | eapply repr_frame; [eassumption| |done]; set_solver ].

Ltac tri_unlinked i :=
  let j := fresh "j" in let Hj := fresh "Hj" in intros j Hj ? ?;
  first
    [ erewrite link_other by (eassumption || congruence);
      match goal with H : forall _, in_vec _ _ -> _ |- _ => apply H end;
      [by eapply same_in_vec_inv|done|done]
    | destruct (decide (j = i)) as [->|];
      [ first [assumption|set_solver]
      | match goal with H : link_frame _ _ _ _ |- _ => rewrite H by set_solver end;
        match goal with H : forall _, in_vec _ _ -> _ |- _ => apply H end;
        [by eapply same_in_vec_inv|set_solver|set_solver] ] ].

(** Closes the specification of a list operation on [i] that runs by [E]. *)
Ltac list_op E i :=
  rewrite E; eexists _, _; split; [done|];
  split; [constructor; [tri_field|tri_field|tri_field|tri_field|tri_field|tri_unlinked i]
         |by eapply same_but_links_nodes].

Lemma own_pushBack v lo lf lx own free other i :
  tri v lo lf lx own free other -> in_vec v i -> i ∉ own -> i ∉ free ->
  exists v' l', pushBack LA v lo i = Some (v', l') /\ tri v' l' lf lx (own ++ [i]) free other /\ same_nodes v v'.
Proof using HL.
  intros [Ho Hf Hx Hs Hd Hu] Hi Hn Hn'.
  destruct (pushBack_spec LA v lo own i Hs Ho Hi Hn) as (v' & l' & E & ? & ? & ?). list_op E i.
Qed.

Lemma own_pushFront v lo lf lx own free other i :
  tri v lo lf lx own free other -> in_vec v i -> i ∉ own -> i ∉ free ->
  exists v' l', pushFront LA v lo i = Some (v', l') /\ tri v' l' lf lx (i :: own) free other /\ same_nodes v v'.
Proof using HL.
  intros [Ho Hf Hx Hs Hd Hu] Hi Hn Hn'.
  destruct (pushFront_spec LA v lo own i Hs Ho Hi Hn) as (v' & l' & E & ? & ? & ?). list_op E i.
Qed.

Lemma own_erase v lo lf lx xs i ys free other :
  tri v lo lf lx (xs ++ i :: ys) free other ->
  exists v' l', erase LA v lo i = Some (v', l') /\ tri v' l' lf lx (xs ++ ys) free other /\ same_nodes v v'.
Proof using HL.
  intros [Ho Hf Hx Hs Hd Hu].
  destruct (erase_spec LA v lo xs i ys Hs Ho) as (v' & l' & E & ? & ? & ? & ?). list_op E i.
Qed.

Lemma own_popFront v lo lf lx i own free other :
  tri v lo lf lx (i :: own) free other ->
  exists v' l', popFront LA v lo = Some (v', l', i) /\ tri v' l' lf lx own free other /\ same_nodes v v'.
Proof using HL.
  intros [Ho Hf Hx Hs Hd Hu].
  destruct (popFront_spec LA v lo i own Hs Ho) as (v' & l' & E & ? & ? & ? & ?). list_op E i.
Qed.

Lemma free_pushBack v lo lf lx own free other i :
  tri v lo lf lx own free other -> in_vec v i -> i ∉ own -> i ∉ free ->
  exists v' l', pushBack LA v lf i = Some (v', l') /\ tri v' lo l' lx own (free ++ [i]) other /\ same_nodes v v'.
Proof using HL.
  intros [Ho Hf Hx Hs Hd Hu] Hi Hn Hn'.
  destruct (pushBack_spec LA v lf free i Hs Hf Hi Hn') as (v' & l' & E & ? & ? & ?). list_op E i.
Qed.

Lemma free_pushFront v lo lf lx own free other i :
  tri v lo lf lx own free other -> in_vec v i -> i ∉ own -> i ∉ free ->
  exists v' l', pushFront LA v lf i = Some (v', l') /\ tri v' lo l' lx own (i :: free) other /\ same_nodes v v'.
Proof using HL.
  intros [Ho Hf Hx Hs Hd Hu] Hi Hn Hn'.
  destruct (pushFront_spec LA v lf free i Hs Hf Hi Hn') as (v' & l' & E & ? & ? & ?). list_op E i.
Qed.

Lemma free_popFront v lo lf lx own i free other :
  tri v lo lf lx own (i :: free) other ->
  exists v' l', popFront LA v lf = Some (v', l', i) /\ tri v' lo l' lx own free other /\ same_nodes v v'
    /\ link LA v' i = Some InnerLink_clear.
Proof using HL.
  intros [Ho Hf Hx Hs Hd Hu].
  destruct (popFront_spec LA v lf i free Hs Hf) as (v' & l' & E & ? & ? & ? & ?).
  rewrite E. eexists _, _. split; [done|]. split; [|split; [by eapply same_but_links_nodes|done]].
  constructor; [tri_field|tri_field|tri_field|tri_field|tri_field|tri_unlinked i].
Qed.

Lemma other_pushBack v lo lf lx own free other i :
  tri v lo lf lx own free other -> in_vec v i -> i ∉ other ->
  exists v' l', pushBack LB v lx i = Some (v', l') /\ tri v' lo lf l' own free (other ++ [i]) /\ same_nodes v v'.
Proof using HL.
  intros [Ho Hf Hx Hs Hd Hu] Hi Hn.
  destruct (pushBack_spec LB v lx other i Hs Hx Hi Hn) as (v' & l' & E & ? & ? & ?). list_op E i.
Qed.

Lemma other_pushFront v lo lf lx own free other i :
  tri v lo lf lx own free other -> in_vec v i -> i ∉ other ->
  exists v' l', pushFront LB v lx i = Some (v', l') /\ tri v' lo lf l' own free (i :: other) /\ same_nodes v v'.
Proof using HL.
  intros [Ho Hf Hx Hs Hd Hu] Hi Hn.
  destruct (pushFront_spec LB v lx other i Hs Hx Hi Hn) as (v' & l' & E & ? & ? & ?). list_op E i.
Qed.

Lemma other_erase v lo lf lx own free xs i ys :
  tri v lo lf lx own free (xs ++ i :: ys) ->
  exists v' l', erase LB v lx i = Some (v', l') /\ tri v' lo lf l' own free (xs ++ ys) /\ same_nodes v v'.
Proof using HL.
  intros [Ho Hf Hx Hs Hd Hu].
  destruct (erase_spec LB v lx xs i ys Hs Hx) as (v' & l' & E & ? & ? & ? & ?). list_op E i.
Qed.

(** *** Clearing a list *)

Lemma clear_spec L v l xs :
  small v -> repr L v l xs ->
  exists v', clear L v l = Some (v', InnerList_new) /\ same_but_links L v v'
    /\ link_frame L xs v v' /\ forall i, i ∈ xs -> link L v' i = Some InnerLink_clear.
Proof using Type.
  clear HL. intros Hs Hr. apply clear_loop_spec; [done|done|].
  assert (length xs <= length v)%nat; [|lia].
  apply nodup_length; [apply Hr|]. intros i Hi. by eapply repr_in_vec.
Qed.

Lemma repr_new L v : repr L v InnerList_new [].
Proof using Type. clear HL. by apply repr_empty. Qed.

Lemma own_clear v lo lf lx own free other :
  tri v lo lf lx own free other ->
  exists v', clear LA v lo = Some (v', InnerList_new) /\ tri v' InnerList_new lf lx [] free other /\ same_nodes v v'.
Proof using HL.
  intros [Ho Hf Hx Hs Hd Hu]. destruct (clear_spec LA v lo own Hs Ho) as (v' & -> & Hs' & Hf' & Hl').
  eexists. split; [done|]. split; [constructor|by eapply same_but_links_nodes]; try tri_field.
  - apply repr_new.
  - intros j Hj _ Hn. destruct (decide (j ∈ own)) as [?|?]; [by apply Hl'|]. rewrite Hf' by done.
    apply Hu; [by eapply same_in_vec_inv|done|done].
Qed.

Lemma free_clear v lo lf lx own free other :
  tri v lo lf lx own free other ->
  exists v', clear LA v lf = Some (v', InnerList_new) /\ tri v' lo InnerList_new lx own [] other /\ same_nodes v v'.
Proof using HL.
  intros [Ho Hf Hx Hs Hd Hu]. destruct (clear_spec LA v lf free Hs Hf) as (v' & -> & Hs' & Hf' & Hl').
  eexists. split; [done|]. split; [constructor|by eapply same_but_links_nodes]; try tri_field.
  - apply repr_new.
  - intros j Hj Hn _. destruct (decide (j ∈ free)) as [?|?]; [by apply Hl'|]. rewrite Hf' by done.
    apply Hu; [by eapply same_in_vec_inv|done|done].
Qed.

Lemma other_clear v lo lf lx own free other :
  tri v lo lf lx own free other ->
  exists v', clear LB v lx = Some (v', InnerList_new) /\ tri v' lo lf InnerList_new own free [] /\ same_nodes v v'.
Proof using HL.
  intros [Ho Hf Hx Hs Hd Hu]. destruct (clear_spec LB v lx other Hs Hx) as (v' & -> & Hs' & Hf' & Hl').
  eexists. split; [done|]. split; [constructor|by eapply same_but_links_nodes]; try tri_field.
  - apply repr_new.
  - tri_unlinked 0.
Qed.

(** *** Other changes of the vector *)

(** A change of a node that keeps its links. *)
Lemma tri_update v lo lf lx own free other i a a' :
  tri v lo lf lx own free other -> at_idx v i = Some a -> (forall L, node_link L a' = node_link L a) ->
  tri (<[Z.to_nat i := a']> v) lo lf lx own free other.
Proof using Type.
  clear HL. intros [Ho Hf Hx Hs Hd Hu] Ha Hlk. apply at_idx_Some in Ha as [Hi0 Ha].
  assert (Hl : forall L j, link L (<[Z.to_nat i := a']> v) j = link L v j).
  { intros L j. unfold link, at_idx. case_decide; [|done].
    destruct (decide (Z.to_nat i = Z.to_nat j)) as [E|E].
    - rewrite <- E, Ha, list_lookup_insert_eq by (by eapply lookup_lt_Some). cbn. by rewrite Hlk.
    - by rewrite list_lookup_insert_ne. }
  constructor;
    [eapply (repr_frame _ []); [|by intros ? _ ?%not_elem_of_nil|done]; by intros ? _ ..| |done|].
  - unfold small in *. by rewrite length_insert.
  - intros j Hj. rewrite Hl. apply Hu. unfold in_vec in *. by rewrite length_insert in Hj.
Qed.

Lemma link_app_l L v a j : in_vec v j -> link L (v ++ [a]) j = link L v j.
Proof using Type.
  clear HL. intros Hj. unfold link, at_idx, in_vec in *. rewrite !decide_True by lia.
  by rewrite lookup_app_l by lia.
Qed.

Lemma repr_grow L v l xs a : repr L v l xs -> repr L (v ++ [a]) l xs.
Proof using Type.
  clear HL. intros Hr. apply (repr_frame L [Z.of_nat (length v)] v); [| |done].
  - intros j Hj%not_elem_of_cons. destruct (decide (in_vec v j)) as [Hv|Hv]; [by apply link_app_l|].
    unfold link, at_idx, in_vec in *. case_decide; [|done].
    rewrite lookup_app_r by lia. rewrite !lookup_ge_None_2; [done|lia|cbn; lia].
  - intros x Hx. eapply repr_in_vec in Hx; [|done]. unfold in_vec in Hx.
    intros ->%list_elem_of_singleton. lia.
Qed.

(** A new node at the end of the vector. *)
Lemma tri_grow v lo lf lx own free other a :
  tri v lo lf lx own free other -> Z.of_nat (length v) + 1 < nil_idx ->
  node_link LA a = InnerLink_clear -> tri (v ++ [a]) lo lf lx own free other.
Proof using Type.
  clear HL. intros [Ho Hf Hx Hs Hd Hu] Hg Ha.
  constructor; [by apply repr_grow|by apply repr_grow|by apply repr_grow| |done|].
  - unfold small in *. rewrite length_app. cbn. lia.
  - intros j Hj Hn Hn'. destruct (decide (in_vec v j)) as [Hv|Hv].
    + rewrite link_app_l by done. by apply Hu.
    + unfold in_vec in *. rewrite length_app in Hj. cbn in Hj.
      assert (j = Z.of_nat (length v)) as -> by lia. unfold link, at_idx. rewrite decide_True by lia.
      rewrite lookup_app_r by lia. rewrite Nat2Z.id, Nat.sub_diag. cbn. by rewrite Ha.
Qed.

End Tri.

(** ** Lists of indexes *)

Lemma nodup_remove (xs ys : list Z) (i : Z) :
  NoDup (xs ++ i :: ys) -> (i ∉ xs ++ ys) /\ forall j, j <> i -> j ∈ xs ++ ys <-> j ∈ xs ++ i :: ys.
Proof.
  intros Hnd. apply NoDup_app in Hnd as (_ & Hx & [Hy _]%NoDup_cons). split.
  - intros [Hi|Hi]%elem_of_app; [|done]. apply (Hx i Hi). left.
  - intros j Hj. rewrite !elem_of_app, elem_of_cons. tauto.
Qed.

Lemma elem_of_snoc_ne (xs : list Z) (i j : Z) : j <> i -> j ∈ xs ++ [i] <-> j ∈ xs.
Proof. intros Hj. rewrite elem_of_app, list_elem_of_singleton. tauto. Qed.

Lemma at_idx_insert {D : Type} (v : list D) (i j : Z) (s : D) :
  0 <= i < Z.of_nat (length v) ->
  at_idx (<[Z.to_nat i := s]> v) j = if decide (i = j) then Some s else at_idx v j.
Proof.
  intros Hi. unfold at_idx. destruct (decide (i = j)) as [<-|Hne].
  - rewrite decide_True by lia. apply list_lookup_insert_eq. lia.
  - case_decide; [|done]. apply list_lookup_insert_ne. lia.
Qed.

Lemma at_idx_range {D : Type} (v : list D) (i : Z) s : at_idx v i = Some s -> 0 <= i < Z.of_nat (length v).
Proof. unfold at_idx. case_decide; [|done]. intros Hl%lookup_lt_Some. lia. Qed.

End TriList.
