(* ===== verification/SerialBase.v ===== *)
(** * What serializer and deserializer share

    solid/serialization/binary.hpp, class [Base] and [Limits]: return values of the
    callbacks, error codes, limits, and the objects that callbacks point to. *)

From S2P Require Import Prelude.

Module SerialBase.

Inductive ReturnValues := SuccessE | WaitE | FailureE | ContinueE.

(** [Base::Errors]; [ERR_NOERROR] is the [None] of an [option Errors]. *)
Inductive Errors :=
  | ERR_ARRAY_LIMIT | ERR_ARRAY_MAX_LIMIT
  | ERR_BITSET_SIZE
  | ERR_CONTAINER_LIMIT | ERR_CONTAINER_MAX_LIMIT
  | ERR_STREAM_LIMIT | ERR_STREAM_CHUNK_MAX_LIMIT | ERR_STREAM_SEEK | ERR_STREAM_READ
  | ERR_STREAM_WRITE | ERR_STREAM_SENDER
  | ERR_STRING_LIMIT | ERR_STRING_MAX_LIMIT
  | ERR_UTF8_LIMIT | ERR_UTF8_MAX_LIMIT
  | ERR_POINTER_UNKNOWN | ERR_REINIT | ERR_NO_TYPE_MAP | ERR_DESERIALIZE_VALUE
  | ERR_CROSS_VALUE_SMALL.

#[export] Instance Errors_eq_dec : EqDecision Errors.
Proof. solve_decision. Defined.

Record Limits := mkLimits { stringlimit : Z; containerlimit : Z; streamlimit : Z }.

Definition unlimited : Limits := mkLimits (InvalidSize 64) (InvalidSize 64) (InvalidSize 64).

(** What a data pointer can point to: the bytes of an object, an integer, a string, a
    [std::vector<bool>]. *)
Inductive obj :=
  | OBytes (bs : list Z)
  | OUint (v : Z)
  | OString (bs : list Z)
  | OBits (bs : list bool).

(** A pointer to an object with an offset, or to the first value of an entry of [estk]
    (counted from the bottom of that stack). *)
Inductive ptr := PNull | PObj (id : nat) (off : nat) | PEst (k : nat).

#[export] Instance ptr_eq_dec : EqDecision ptr.
Proof. solve_decision. Defined.

Definition ptr_add (p : ptr) (n : nat) : ptr :=
  match p with PObj id off => PObj id (off + n) | p => p end.

(** The bytes at the address of an object, for a string those of [data()], which is the
    [c_str()] with its terminating zero. *)
Definition obj_bytes (o : obj) : option (list Z) :=
  match o with OBytes bs => Some bs | OString bs => Some (bs ++ [0]) | _ => None end.

(** Bits packed eight to a byte, the first bit least significant. *)
Definition byte_of_bits (bits : list bool) : Z :=
  foldr (fun b r => Z.b2z b + 2 * r) 0 bits.

Fixpoint pack_bits (bits : list bool) : list Z :=
  match bits with
  | b0 :: b1 :: b2 :: b3 :: b4 :: b5 :: b6 :: b7 :: bits =>
      byte_of_bits [b0; b1; b2; b3; b4; b5; b6; b7] :: pack_bits bits
  | [] => []
  | bits => [byte_of_bits bits]
  end.

(** Membership in a list of constants. *)
Ltac in_list := apply (bool_decide_unpack _); vm_compute; exact I.

End SerialBase.
