(* ===== verification/Serializer.v ===== *)
(** * The binary serializer

    solid/serialization/src/binary.cpp and solid/serialization/binary.hpp, class
    [SerializerBase]: a stack of callbacks that is run against one buffer after another;
    a callback that does not fit the buffer returns [WaitE] and is resumed by the next
    [run]. Modelled are the callbacks for integers, booleans, raw binary, strings, bit
    vectors and cross integers, the limits, and the [run] loop.

    Objects that are being serialized live in a memory that the serializer only reads.
    The item name [FncData::n] is only used for debug output and is left out. *)

From S2P Require Import Prelude Bits BinaryBasic SerialBase.
Import Bits BinaryBasic SerialBase.

Module Serializer.

(** ** Data *)

Inductive fnc :=
  | StoreBinary (n : nat)
  | StoreInt (n : nat)
  | StoreBool
  | StoreString
  | StoreUtf8
  | StoreBitvec
  | StoreBitvecContinue
  | StoreCross (w : Z)
  | StoreCrossContinue
  | PopExtStack
  | SetStringLimit | SetStreamLimit | SetContainerLimit.

Record FncData := mkFnc { fd_f : fnc; fd_p : ptr; fd_s : Z }.

(** [fstk] has its top first, [estk] its bottom first. [out] is what was written in this
    [run] ([pb .. cpb]), [room] is [be - cpb], [null] says that [cpb] is [nullptr]. *)
Record Ser := mkSer {
  fstk : list FncData;
  estk : list Z;
  tmpstr : list Z;
  lmts : Limits;
  rdefaultlmts : Limits;
  err : option Errors;
  out : list Z;
  room : Z;
  null : bool
}.

Definition set_fstk (st : Ser) (x : list FncData) : Ser :=
  mkSer x (estk st) (tmpstr st) (lmts st) (rdefaultlmts st) (err st) (out st) (room st) (null st).
Definition set_estk (st : Ser) (x : list Z) : Ser :=
  mkSer (fstk st) x (tmpstr st) (lmts st) (rdefaultlmts st) (err st) (out st) (room st) (null st).
Definition set_tmpstr (st : Ser) (x : list Z) : Ser :=
  mkSer (fstk st) (estk st) x (lmts st) (rdefaultlmts st) (err st) (out st) (room st) (null st).
Definition set_lmts (st : Ser) (x : Limits) : Ser :=
  mkSer (fstk st) (estk st) (tmpstr st) x (rdefaultlmts st) (err st) (out st) (room st) (null st).
Definition set_err (st : Ser) (e : Errors) : Ser :=
  mkSer (fstk st) (estk st) (tmpstr st) (lmts st) (rdefaultlmts st) (Some e) (out st) (room st) (null st).

(** Writing bytes at [cpb] and moving it. *)
Definition emit (st : Ser) (bs : list Z) : Ser :=
  mkSer (fstk st) (estk st) (tmpstr st) (lmts st) (rdefaultlmts st) (err st)
    (out st ++ bs) (room st - Z.of_nat (length bs)) (null st).

Definition push (st : Ser) (fd : FncData) : Ser := set_fstk st (fd :: fstk st).
Definition resetLimits (st : Ser) : Ser := set_lmts st (rdefaultlmts st).

(** ** Reading the objects *)

Definition mem := nat -> option obj.

(** [n] bytes at [p]; [None] when they are not all inside the object. *)
Definition read_bytes (m : mem) (p : ptr) (n : nat) : option (list Z) :=
  match p with
  | PObj id off =>
      bs ← (m id ≫= obj_bytes);
      if decide (off + n <= length bs)%nat then Some (take n (drop off bs)) else None
  | _ => None
  end.

Definition read_uint (m : mem) (es : list Z) (p : ptr) : option Z :=
  match p with
  | PObj id 0 => match m id with Some (OUint v) => Some v | _ => None end
  | PEst k => es !! k
  | _ => None
  end.

Definition read_string (m : mem) (p : ptr) : option (list Z) :=
  match p with
  | PObj id 0 => match m id with Some (OString bs) => Some bs | _ => None end
  | _ => None
  end.

Definition read_bits (m : mem) (p : ptr) : option (list bool) :=
  match p with
  | PObj id 0 => match m id with Some (OBits bs) => Some bs | _ => None end
  | _ => None
  end.

(** ** Callbacks

    A callback gets the state with its own [FncData] on top of [fstk] ([fd], above
    [rest]) and returns the state with the stack it leaves; [None] is an invalid memory
    access. *)

Definition callback := mem -> Ser -> FncData -> list FncData -> option (ReturnValues * Ser).

(** Copy [n] bytes from [_rfd.p] and advance; then continue with callback [f], [s] bytes left. *)
Definition copy (m : mem) (st : Ser) (fd : FncData) (rest : list FncData)
    (n : nat) (f : fnc) (s : Z) (rv : ReturnValues) : option (ReturnValues * Ser) :=
  bs ← read_bytes m (fd_p fd) n;
  Some (rv, emit (set_fstk st (mkFnc f (ptr_add (fd_p fd) n) s :: rest)) bs).

Definition storeBinary0 : callback := fun m st fd rest =>
  if null st then Some (SuccessE, st) else
  let len := wrap 32 (room st) in
  let len := if fd_s fd <? len then wrap 32 (fd_s fd) else len in
  let s := fd_s fd - len in
  copy m st fd rest (Z.to_nat len) (fd_f fd) s (if s =? 0 then SuccessE else WaitE).

Definition storeBinary1 : callback := fun m st fd rest =>
  if null st then Some (SuccessE, st) else
  if negb (wrap 32 (room st) =? 0) then
    bs ← read_bytes m (fd_p fd) 1;
    Some (SuccessE, emit st bs)
  else Some (WaitE, st).

Definition storeBinary2 : callback := fun m st fd rest =>
  if null st then Some (SuccessE, st) else
  let len := wrap 32 (room st) in
  if 2 <=? len then
    bs ← read_bytes m (fd_p fd) 2;
    Some (SuccessE, emit st bs)
  else if 1 <=? len then copy m st fd rest 1 (StoreBinary 1) (fd_s fd) WaitE
  else Some (WaitE, st).

Definition storeBinary4 : callback := fun m st fd rest =>
  if null st then Some (SuccessE, st) else
  let len := wrap 32 (room st) in
  if 4 <=? len then
    bs ← read_bytes m (fd_p fd) 4;
    Some (SuccessE, emit st bs)
  else if 3 <=? len then copy m st fd rest 3 (StoreBinary 1) (fd_s fd) WaitE
  else if 2 <=? len then copy m st fd rest 2 (StoreBinary 2) (fd_s fd) WaitE
  else if 1 <=? len then copy m st fd rest 1 (StoreBinary 0) 3 WaitE
  else Some (WaitE, set_fstk st (mkFnc (StoreBinary 0) (fd_p fd) 4 :: rest)).

Definition storeBinary8 : callback := fun m st fd rest =>
  if null st then Some (SuccessE, st) else
  let len := wrap 32 (room st) in
  if 8 <=? len then
    bs ← read_bytes m (fd_p fd) 8;
    Some (SuccessE, emit st bs)
  else if 7 <=? len then copy m st fd rest 7 (StoreBinary 1) (fd_s fd) WaitE
  else if 6 <=? len then copy m st fd rest 6 (StoreBinary 2) (fd_s fd) WaitE
  else if 5 <=? len then copy m st fd rest 5 (StoreBinary 0) 3 WaitE
  else if 4 <=? len then copy m st fd rest 4 (StoreBinary 4) (fd_s fd) WaitE
  else if 3 <=? len then copy m st fd rest 3 (StoreBinary 0) 5 WaitE
  else if 2 <=? len then copy m st fd rest 2 (StoreBinary 0) 6 WaitE
  else if 1 <=? len then copy m st fd rest 1 (StoreBinary 0) 7 WaitE
  else Some (WaitE, set_fstk st (mkFnc (StoreBinary 0) (fd_p fd) 8 :: rest)).

Definition storeBinary (n : nat) : callback := fun m st fd rest =>
  match n with
  | 0%nat => storeBinary0 m st fd rest
  | 1%nat => storeBinary1 m st fd rest
  | 2%nat => storeBinary2 m st fd rest
  | 4%nat => storeBinary4 m st fd rest
  | 8%nat => storeBinary8 m st fd rest
  | _ => None
  end.

(** [store<intN_t>] and [store<uintN_t>]: set the size and the callback, then store. *)
Definition storeInt (n : nat) : callback := fun m st fd rest =>
  let fd := mkFnc (StoreBinary n) (fd_p fd) (Z.of_nat n) in
  storeBinary n m (set_fstk st (fd :: rest)) fd rest.

Definition storeBool : callback := fun m st fd rest =>
  if null st then Some (SuccessE, st) else
  if negb (wrap 32 (room st) =? 0) then
    bs ← read_bytes m (fd_p fd) 1;
    Some (SuccessE, emit st [if (default 0 (bs !! 0%nat)) =? 0 then 0 else 1])
  else Some (WaitE, st).

(** Pushing an [ExtendedData] and the pointer to its first value. *)
Definition push_est (st : Ser) (v : Z) : Ser * ptr :=
  (set_estk st (estk st ++ [v]), PEst (length (estk st))).

Definition storeString : callback := fun m st fd rest =>
  if null st then Some (SuccessE, st) else
  c ← read_string m (fd_p fd);
  let sz := Z.of_nat (length c) in
  if stringlimit (lmts st) <? sz then Some (FailureE, set_err st ERR_STRING_LIMIT)
  else
    match compute_value_with_crc64 sz with
    | None => Some (FailureE, set_err st ERR_STRING_MAX_LIMIT)
    | Some crcsz =>
        let '(st, pe) := push_est st crcsz in
        Some (ContinueE, set_fstk st
          (mkFnc (StoreCross 64) pe (InvalidSize 64) ::
           mkFnc PopExtStack PNull (InvalidSize 64) ::
           mkFnc (StoreBinary 0) (fd_p fd) sz :: rest))
    end.

(** [storeUtf8] does not test [cpb]. *)
Definition storeUtf8 : callback := fun m st fd rest =>
  if stringlimit (lmts st) <? wrap 64 (fd_s fd - 1) then Some (FailureE, set_err st ERR_UTF8_LIMIT)
  else if max_value_without_crc_32 <? wrap 64 (fd_s fd - 1)
  then Some (FailureE, set_err st ERR_UTF8_MAX_LIMIT)
  else Some (ContinueE, set_fstk st (mkFnc (StoreBinary 0) (fd_p fd) (fd_s fd) :: rest)).

Definition storeBitvec : callback := fun m st fd rest =>
  if null st then Some (SuccessE, st) else
  match fd_p fd with
  | PNull =>
      let '(st, pe) := push_est st (InvalidSize 64) in
      Some (ContinueE, set_fstk st
        (mkFnc (StoreCross 64) pe (InvalidSize 64) ::
         mkFnc PopExtStack PNull (InvalidSize 64) :: rest))
  | p =>
      c ← read_bits m p;
      let sz := Z.of_nat (length c) in
      if containerlimit (lmts st) <? sz then Some (FailureE, set_err st ERR_CONTAINER_LIMIT)
      else
        match compute_value_with_crc64 sz with
        | None => Some (FailureE, set_err st ERR_CONTAINER_MAX_LIMIT)
        | Some crcsz =>
            let '(st, pe) := push_est st crcsz in
            Some (ContinueE, set_fstk st
              (mkFnc (StoreCross 64) pe (InvalidSize 64) ::
               mkFnc PopExtStack PNull (InvalidSize 64) ::
               mkFnc StoreBitvecContinue p 0 :: rest))
        end
  end.

(** The [while] loop of [storeBitvecContinue] over the bits from position [_rfd.s] on:
    [cur] is the byte at [cpb], [bitoff] the bit to be written next. Returns the number
    of bits taken, the final [bitoff] and [cur], and the bytes passed by [cpb]. *)
Fixpoint bits_loop (bits : list bool) (room bitoff cur : Z) : Z * Z * Z * list Z :=
  match bits with
  | [] => (0, bitoff, cur, [])
  | b :: bits =>
      if room =? 0 then (0, bitoff, cur, [])
      else
        let cur := if bitoff =? 0 then 0 else cur in
        let cur := Z.lor cur (if b then Z.shiftl 1 bitoff else 0) in
        let bitoff := bitoff + 1 in
        if bitoff =? 8 then
          let '(n, bo, c, bytes) := bits_loop bits (room - 1) 0 cur in
          (n + 1, bo, c, cur :: bytes)
        else
          let '(n, bo, c, bytes) := bits_loop bits room bitoff cur in
          (n + 1, bo, c, bytes)
  end.

Definition storeBitvecContinue : callback := fun m st fd rest =>
  if null st then Some (SuccessE, st) else
  c ← read_bits m (fd_p fd);
  let '(n, bitoff, cur, bytes) := bits_loop (drop (Z.to_nat (fd_s fd)) c) (room st) 0 0 in
  let s := fd_s fd + n in
  let st := emit (set_fstk st (mkFnc (fd_f fd) (fd_p fd) s :: rest)) bytes in
  if s <? Z.of_nat (length c) then Some (WaitE, st)
  else if negb (bitoff =? 0) then Some (SuccessE, emit st [cur])
  else Some (SuccessE, st).

Definition storeCrossContinue : callback := fun m st fd rest =>
  if null st then Some (SuccessE, st) else
  let len := wrap 64 (room st) in
  let towrite := wrap 64 (Z.of_nat (length (tmpstr st)) - fd_s fd) in
  let towrite := if len <? towrite then len else towrite in
  let bs := take (Z.to_nat towrite) (drop (Z.to_nat (fd_s fd)) (tmpstr st)) in
  let s := fd_s fd + towrite in
  let st := emit (set_fstk st (mkFnc (fd_f fd) (fd_p fd) s :: rest)) bs in
  if s =? Z.of_nat (length (tmpstr st)) then Some (SuccessE, set_tmpstr st [])
  else Some (WaitE, st).

Definition crossStore (w v : Z) : option (list Z * Z) :=
  match w with
  | 8 => crossStore8 v | 16 => crossStore16 v | 32 => crossStore32 v | 64 => crossStore64 v
  | _ => None
  end.

Definition crossSize (w v : Z) : Z :=
  match w with
  | 8 => crossSize8 v | 16 => crossSize16 v | 32 => crossSize32 v | _ => crossSize64 v
  end.

(** [storeCross<uintW_t>]: directly into the buffer, or through [tmpstr] when it does not fit. *)
Definition storeCross (w : Z) : callback := fun m st fd rest =>
  if null st then Some (SuccessE, st) else
  v ← read_uint m (estk st) (fd_p fd);
  let len := if w =? 64 then wrap 32 (room st) else wrap 64 (room st) in
  let vsz := crossSize w v in
  '(bs, adv) ← crossStore w v;
  if vsz <=? len then Some (SuccessE, emit st bs)
  else
    let st := set_tmpstr st (take (Z.to_nat vsz) bs) in
    Some (WaitE, emit (set_fstk st (mkFnc StoreCrossContinue (fd_p fd) len :: rest))
                      (take (Z.to_nat len) (tmpstr st))).

Definition popExtStack : callback := fun m st fd rest =>
  match estk st with
  | [] => None
  | es => Some (SuccessE, set_estk st (removelast es))
  end.

Definition setStringLimit : callback := fun m st fd rest =>
  Some (SuccessE, set_lmts st (mkLimits (fd_s fd) (containerlimit (lmts st)) (streamlimit (lmts st)))).
Definition setStreamLimit : callback := fun m st fd rest =>
  Some (SuccessE, set_lmts st (mkLimits (stringlimit (lmts st)) (containerlimit (lmts st)) (fd_s fd))).
Definition setContainerLimit : callback := fun m st fd rest =>
  Some (SuccessE, set_lmts st (mkLimits (stringlimit (lmts st)) (fd_s fd) (streamlimit (lmts st)))).

(** The call through the function pointer [rfd.f]. *)
Definition call (m : mem) (st : Ser) (fd : FncData) (rest : list FncData)
    : option (ReturnValues * Ser) :=
  match fd_f fd with
  | StoreBinary n => storeBinary n m st fd rest
  | StoreInt n => storeInt n m st fd rest
  | StoreBool => storeBool m st fd rest
  | StoreString => storeString m st fd rest
  | StoreUtf8 => storeUtf8 m st fd rest
  | StoreBitvec => storeBitvec m st fd rest
  | StoreBitvecContinue => storeBitvecContinue m st fd rest
  | StoreCross w => storeCross w m st fd rest
  | StoreCrossContinue => storeCrossContinue m st fd rest
  | PopExtStack => popExtStack m st fd rest
  | SetStringLimit => setStringLimit m st fd rest
  | SetStreamLimit => setStreamLimit m st fd rest
  | SetContainerLimit => setContainerLimit m st fd rest
  end.

(** ** [run] *)

(** The loop: [Some (true, st)] leaves through [Done], [Some (false, st)] through a failure;
    [None] is an invalid access or the end of the fuel. *)
Fixpoint run_loop (fuel : nat) (m : mem) (st : Ser) : option (bool * Ser) :=
  match fuel with
  | O => None
  | S fuel =>
      match fstk st with
      | [] => Some (true, resetLimits st)
      | fd :: rest =>
          '(rv, st) ← call m st fd rest;
          match rv with
          | ContinueE => run_loop fuel m st
          | SuccessE => run_loop fuel m (set_fstk st (tail (fstk st)))
          | WaitE => Some (true, st)
          | FailureE => Some (false, resetLimits st)
          end
      end
  end.

(** [run(_pb, _bl)] with a buffer of [bl] bytes: the returned count, which is an [int] ([-1] on
    failure), the bytes written and the state. *)
Definition run (fuel : nat) (m : mem) (st : Ser) (bl : Z) : option (Z * list Z * Ser) :=
  let st := mkSer (fstk st) (estk st) (tmpstr st) (lmts st) (rdefaultlmts st) (err st) [] bl false in
  '(ok, st) ← run_loop fuel m st;
  Some (if (ok : bool) then signed 32 (Z.of_nat (length (out st))) else -1, out st, st).

(** [clear()]: [run(nullptr, 0, nullptr)]. *)
Definition clear (fuel : nat) (m : mem) (st : Ser) : option (bool * Ser) :=
  run_loop fuel m
    (mkSer (fstk st) (estk st) (tmpstr st) (lmts st) (rdefaultlmts st) (err st) [] 0 true).

Definition empty (st : Ser) : bool := match fstk st with [] => true | _ => false end.

(** ** The interface of [Serializer]: scheduling items *)

Definition doPushStringLimit (st : Ser) (v : Z) : Ser := push st (mkFnc SetStringLimit PNull v).
Definition doPushStreamLimit (st : Ser) (v : Z) : Ser := push st (mkFnc SetStreamLimit PNull v).
Definition doPushContainerLimit (st : Ser) (v : Z) : Ser :=
  push st (mkFnc SetContainerLimit PNull v).
Definition push_int (n : nat) (st : Ser) (id : nat) : Ser :=
  push st (mkFnc (StoreInt n) (PObj id 0) (InvalidSize 64)).
Definition push_bool (st : Ser) (id : nat) : Ser :=
  push st (mkFnc StoreBool (PObj id 0) (InvalidSize 64)).
Definition push_string (st : Ser) (id : nat) : Ser :=
  push st (mkFnc StoreString (PObj id 0) (InvalidSize 64)).
Definition push_bitvec (st : Ser) (id : nat) : Ser := push st (mkFnc StoreBitvec (PObj id 0) 0).
Definition pushBinary (st : Ser) (id : nat) (sz : Z) : Ser :=
  push st (mkFnc (StoreBinary 0) (PObj id 0) sz).
Definition pushUtf8 (st : Ser) (id : nat) (len : Z) : Ser :=
  push st (mkFnc StoreUtf8 (PObj id 0) (wrap 64 (len + 1))).
Definition pushCross (w : Z) (st : Ser) (id : nat) : Ser :=
  push st (mkFnc (StoreCross w) (PObj id 0) (InvalidSize 64)).

(** ** What a stack of callbacks stands for

    [denote] is the reference: the bytes that the scheduled items encode, up to the end of
    the stack or up to the item that exceeds a limit, with that error. [None] marks stacks
    that the interface never builds (dangling pointers, unbalanced [estk]). *)

Definition binary_size (n : nat) (s : Z) : Z := if (n =? 0)%nat then s else Z.of_nat n.

(** A length-prefixed item: the length with its bit count, then the bytes; or the error. *)
Definition enc_sized (limit n : Z) (bytes : list Z) (elim emax : Errors) : list Z * option Errors :=
  if limit <? n then ([], Some elim)
  else match compute_value_with_crc64 n with
       | Some v => (enc_cross v ++ bytes, None)
       | None => ([], Some emax)
       end.

Definition utf8_error (l : Limits) (s : Z) : option Errors :=
  if stringlimit l <? wrap 64 (s - 1) then Some ERR_UTF8_LIMIT
  else if max_value_without_crc_32 <? wrap 64 (s - 1) then Some ERR_UTF8_MAX_LIMIT
  else None.

(** The bytes or the error of one item, for the items that leave limits and [estk] alone. *)
Definition denote_item (m : mem) (l : Limits) (es tmp : list Z) (fd : FncData)
    : option (list Z * option Errors) :=
  let p := fd_p fd in let s := fd_s fd in
  match fd_f fd with
  | StoreBinary n =>
      if decide (n ∈ [0; 1; 2; 4; 8]%nat /\ in_range 64 s) then
        bs ← read_bytes m p (Z.to_nat (binary_size n s)); Some (bs, None)
      else None
  | StoreInt n =>
      if decide (n ∈ [1; 2; 4; 8]%nat) then bs ← read_bytes m p n; Some (bs, None) else None
  | StoreBool =>
      bs ← read_bytes m p 1; Some ([if default 0 (bs !! 0%nat) =? 0 then 0 else 1], None)
  | StoreString =>
      c ← read_string m p;
      if decide (in_range 64 (Z.of_nat (length c))) then
        Some (enc_sized (stringlimit l) (Z.of_nat (length c)) c ERR_STRING_LIMIT ERR_STRING_MAX_LIMIT)
      else None
  | StoreUtf8 =>
      if decide (in_range 64 s) then
        match utf8_error l s with
        | Some e => Some ([], Some e)
        | None => bs ← read_bytes m p (Z.to_nat s); Some (bs, None)
        end
      else None
  | StoreBitvec =>
      match p with
      | PNull => Some (enc_cross (InvalidSize 64), None)
      | p =>
          c ← read_bits m p;
          if decide (in_range 64 (Z.of_nat (length c))) then
            Some (enc_sized (containerlimit l) (Z.of_nat (length c)) (pack_bits c)
                    ERR_CONTAINER_LIMIT ERR_CONTAINER_MAX_LIMIT)
          else None
      end
  | StoreBitvecContinue =>
      c ← read_bits m p;
      if decide (0 <= s <= Z.of_nat (length c)) then Some (pack_bits (drop (Z.to_nat s) c), None)
      else None
  | StoreCross w =>
      v ← read_uint m es p;
      if decide (w ∈ [8; 16; 32; 64] /\ in_range w v) then Some (enc_cross v, None) else None
  | StoreCrossContinue =>
      if decide (0 <= s < Z.of_nat (length tmp) /\ Z.of_nat (length tmp) <= 9)
      then Some (drop (Z.to_nat s) tmp, None) else None
  | PopExtStack => match es with [] => None | _ => Some ([], None) end
  | SetStringLimit | SetStreamLimit | SetContainerLimit => Some ([], None)
  end.

Definition denote_limits (l : Limits) (fd : FncData) : Limits :=
  match fd_f fd with
  | SetStringLimit => mkLimits (fd_s fd) (containerlimit l) (streamlimit l)
  | SetStreamLimit => mkLimits (stringlimit l) (containerlimit l) (fd_s fd)
  | SetContainerLimit => mkLimits (stringlimit l) (fd_s fd) (streamlimit l)
  | _ => l
  end.

Definition denote_estk (es : list Z) (fd : FncData) : list Z :=
  match fd_f fd with PopExtStack => removelast es | _ => es end.

Fixpoint denote (m : mem) (l : Limits) (es tmp : list Z) (stk : list FncData)
    : option (list Z * option Errors) :=
  match stk with
  | [] => if decide (es = []) then Some ([], None) else None
  | fd :: rest =>
      '(bs, e) ← denote_item m l es tmp fd;
      match e with
      | Some e => Some (bs, Some e)
      | None =>
          '(r, e) ← denote m (denote_limits l fd) (denote_estk es fd) [] rest;
          Some (bs ++ r, e)
      end
  end.

Definition den (m : mem) (st : Ser) := denote m (lmts st) (estk st) (tmpstr st) (fstk st).

(** The callbacks still to be called, counting those that an item pushes. *)
Definition weight (fd : FncData) : nat :=
  match fd_f fd with StoreString | StoreBitvec => 4 | StoreUtf8 => 2 | _ => 1 end.
Definition stack_weight (stk : list FncData) : nat := sum_list_with weight stk.

(** ** Helper lemmas *)

Lemma read_bytes_length (m : mem) (p : ptr) (n : nat) (bs : list Z) :
  read_bytes m p n = Some bs -> length bs = n.
Proof.
  destruct p as [|id off|k]; cbn [read_bytes]; [done| |done].
  destruct (m id ≫= obj_bytes) as [os|]; cbn [mbind option_bind]; [|done].
  case_decide; [|done]. intros [= <-]. rewrite length_take, length_drop. lia.
Qed.

Lemma read_bytes_split (m : mem) (p : ptr) (n k : nat) (bs : list Z) :
  (k <= n)%nat -> read_bytes m p n = Some bs ->
  read_bytes m p k = Some (take k bs) /\ read_bytes m (ptr_add p k) (n - k) = Some (drop k bs).
Proof.
  intros Hk. destruct p as [|id off|j]; cbn [read_bytes ptr_add]; [done| |done].
  destruct (m id ≫= obj_bytes) as [os|]; cbn [mbind option_bind]; [|done].
  case_decide as Hn; [|done]. intros [= <-].
  rewrite !decide_True by lia. rewrite take_take, skipn_firstn_comm, drop_drop.
  by rewrite Nat.min_l by lia.
Qed.

(** The rest of a stack does not look at [tmpstr]. *)
Lemma denote_tmp (m : mem) (l : Limits) (es tmp : list Z) (stk : list FncData) x :
  denote m l es [] stk = Some x -> denote m l es tmp stk = Some x.
Proof.
  destruct stk as [|[f p s] rest]; cbn [denote]; [done|].
  destruct f; try done.
  unfold denote_item at 1. cbn [fd_f fd_p fd_s length].
  rewrite decide_False by lia. done.
Qed.

Lemma denote_cons (m : mem) (l : Limits) (es tmp : list Z) (fd : FncData) (rest : list FncData)
    (bs r : list Z) (e : option Errors) :
  denote_item m l es tmp fd = Some (bs, None) ->
  denote m (denote_limits l fd) (denote_estk es fd) [] rest = Some (r, e) ->
  denote m l es tmp (fd :: rest) = Some (bs ++ r, e).
Proof. intros Hi Hr. cbn [denote]. rewrite Hi. cbn [mbind option_bind]. by rewrite Hr. Qed.

Lemma bits_loop_cons (b : bool) (bits : list bool) (room bo cur : Z) :
  room <> 0 ->
  bits_loop (b :: bits) room bo cur =
  let cur := Z.lor (if bo =? 0 then 0 else cur) (if b then Z.shiftl 1 bo else 0) in
  if bo + 1 =? 8 then
    let '(n, bo, c, bytes) := bits_loop bits (room - 1) 0 cur in (n + 1, bo, c, cur :: bytes)
  else
    let '(n, bo, c, bytes) := bits_loop bits room (bo + 1) cur in (n + 1, bo, c, bytes).
Proof. intros H. cbn [bits_loop]. by destruct (Z.eqb_spec room 0). Qed.

(** [bits_loop] in a buffer of [k] bytes: all the bits when they fit, else [8 k] of them. *)
Lemma bits_loop_spec (k : nat) (bits : list bool) (cur : Z) :
  exists n bo c bytes, bits_loop bits (Z.of_nat k) 0 cur = (n, bo, c, bytes) /\
    if decide (length (pack_bits bits) <= k)%nat then
      n = Z.of_nat (length bits) /\ bytes ++ (if bo =? 0 then [] else [c]) = pack_bits bits
    else
      n = 8 * Z.of_nat k /\ n < Z.of_nat (length bits) /\ bytes = take k (pack_bits bits) /\
      pack_bits (drop (8 * k) bits) = drop k (pack_bits bits).
Proof.
  revert bits cur. induction k as [|k IH]; intros bits cur.
  { destruct bits as [|b bits]; [by exists 0, 0, cur, []|]. exists 0, 0, cur, [].
    split; [done|]. rewrite decide_False.
    - split; [done|]. split; [cbn [length]; lia|done].
    - do 8 (destruct bits as [|? bits]; [cbn; lia|]). cbn; lia. }
  assert (Z.of_nat (S k) <> 0) as Hk by lia.
  destruct bits as [|b0 [|b1 [|b2 [|b3 [|b4 [|b5 [|b6 [|b7 bits]]]]]]]];
    repeat rewrite (bits_loop_cons _ _ _ _ _ Hk); cbv zeta;
    repeat match goal with |- context [if ?a =? ?b then _ else _] =>
      let c := eval vm_compute in (a =? b) in change (a =? b) with c; cbv iota end;
    cbn [bits_loop].
  9: { replace (Z.of_nat (S k) - 1) with (Z.of_nat k) by lia.
    match goal with |- context [bits_loop bits (Z.of_nat k) 0 ?c] =>
      destruct (IH bits c) as (n & bo & c' & bytes & -> & H); set (cc := c) in * end.
    exists (n + 1 + 1 + 1 + 1 + 1 + 1 + 1 + 1), bo, c'. eexists. split; [reflexivity|].
    replace cc with (byte_of_bits [b0; b1; b2; b3; b4; b5; b6; b7])
      by (subst cc; clear; by destruct b0, b1, b2, b3, b4, b5, b6, b7).
    replace (8 * S k)%nat with (8 + 8 * k)%nat by lia.
    cbn [pack_bits length drop app Nat.add take].
    destruct (decide (length (pack_bits bits) <= k)%nat).
    - rewrite decide_True by lia. destruct H as [-> H]. split; [lia|]. by rewrite H.
    - rewrite decide_False by lia. destruct H as (-> & ? & -> & H).
      split; [lia|]. split; [lia|]. done. }
  { exists 0, 0, cur, []. done. }
  all: do 4 eexists; split; [reflexivity|]; rewrite decide_True by (cbn; lia);
    split; [done|];
    clear; repeat match goal with b : bool |- _ => destruct b end; reflexivity.
Qed.

(** ** One callback *)

(** [w] was written and nothing else of the run changed. *)
Definition emits (st st' : Ser) (w : list Z) : Prop :=
  out st' = out st ++ w /\ room st' = room st - Z.of_nat (length w) /\
  rdefaultlmts st' = rdefaultlmts st /\ null st' = null st.

(** What a callback does to a stack that stands for [bs] and [e]. *)
Inductive stepped (m : mem) (st : Ser) (bs : list Z) (e : option Errors)
    : ReturnValues -> Ser -> Prop :=
  | stepped_success st' w bs' :
      bs = w ++ bs' -> emits st st' w -> 0 <= room st' ->
      den m (set_fstk st' (tail (fstk st'))) = Some (bs', e) ->
      (stack_weight (tail (fstk st')) < stack_weight (fstk st))%nat ->
      stepped m st bs e SuccessE st'
  | stepped_continue st' :
      emits st st' [] -> den m st' = Some (bs, e) ->
      (stack_weight (fstk st') < stack_weight (fstk st))%nat ->
      stepped m st bs e ContinueE st'
  | stepped_wait st' w bs' :
      bs = w ++ bs' -> bs' <> [] -> emits st st' w -> room st' = 0 ->
      den m st' = Some (bs', e) -> fstk st' <> [] ->
      (stack_weight (fstk st') <= stack_weight (fstk st))%nat ->
      stepped m st bs e WaitE st'
  | stepped_failure st' err0 :
      bs = [] -> e = Some err0 -> err st' = Some err0 -> emits st st' [] -> fstk st' = fstk st ->
      stepped m st bs e FailureE st'.

Lemma emits_replace (st : Ser) (x : list FncData) : emits st (set_fstk st x) [].
Proof. unfold emits. cbn. rewrite app_nil_r. split_and!; done || lia. Qed.

Lemma set_fstk_id (st : Ser) (stk : list FncData) : fstk st = stk -> st = set_fstk st stk.
Proof. by intros <-; destruct st. Qed.

Lemma weight_pos (fd : FncData) : (0 < weight fd)%nat.
Proof. unfold weight. destruct (fd_f fd); lia. Qed.

Lemma stack_weight_cons (fd : FncData) (stk : list FncData) :
  stack_weight (fd :: stk) = (weight fd + stack_weight stk)%nat.
Proof. done. Qed.

Section step.
Context (m : mem) (st : Ser) (fd : FncData) (rest : list FncData)
  (bs : list Z) (e : option Errors).
Context (Hnull : null st = false) (Hroom : 0 <= room st < 2 ^ 32)
  (Hstk : fstk st = fd :: rest) (Hden : den m st = Some (bs, e)).

Definition called (r : option (ReturnValues * Ser)) : Prop :=
  exists rv st', r = Some (rv, st') /\ stepped m st bs e rv st'.

Lemma called_intro rv st' : stepped m st bs e rv st' -> called (Some (rv, st')).
Proof using Type. by exists rv, st'. Qed.

Lemma room_wrap32 : wrap 32 (room st) = room st.
Proof using Hroom. by apply wrap_small. Qed.
Lemma room_wrap64 : wrap 64 (room st) = room st.
Proof using Hroom. apply wrap_small. unfold in_range in *. lia. Qed.

Lemma den_item :
  exists w e', denote_item m (lmts st) (estk st) (tmpstr st) fd = Some (w, e') /\
    match e' with
    | Some _ => bs = w /\ e = e'
    | None => exists r,
        denote m (denote_limits (lmts st) fd) (denote_estk (estk st) fd) [] rest = Some (r, e) /\
        bs = w ++ r
    end.
Proof using Hden Hstk.
  revert Hden. unfold den. rewrite Hstk. cbn [denote].
  destruct (denote_item _ _ _ _ _) as [[w e']|]; cbn [mbind option_bind]; [|done].
  intros H. exists w, e'. split; [done|]. destruct e' as [e'|]; [by simplify_eq|].
  destruct (denote _ _ _ _ rest) as [[r e'']|]; cbn [mbind option_bind] in H; [|done].
  simplify_eq. by exists r.
Qed.

(** An item that is done. *)
Lemma step_done (w : list Z) (st' : Ser) (x : FncData) :
  denote_item m (lmts st) (estk st) (tmpstr st) fd = Some (w, None) ->
  emits st st' w -> Z.of_nat (length w) <= room st -> fstk st' = x :: rest ->
  lmts st' = denote_limits (lmts st) fd -> estk st' = denote_estk (estk st) fd ->
  stepped m st bs e SuccessE st'.
Proof using Hden Hstk.
  intros Hi He Hw Hf Hl Hes. destruct den_item as (w' & e' & Hi' & H).
  rewrite Hi in Hi'. simplify_eq. destruct H as (r & Hr & ->).
  eapply stepped_success; [done|exact He| | |].
  - destruct He as (_ & -> & _). lia.
  - unfold den. cbn. rewrite Hf, Hl, Hes. cbn [tail]. by apply denote_tmp.
  - rewrite Hf, Hstk, stack_weight_cons. cbn [tail]. pose proof (weight_pos fd). lia.
Qed.

(** An item that filled the buffer and has something left. *)
Lemma step_wait (w w' : list Z) (st' : Ser) (fd' : FncData) :
  denote_item m (lmts st) (estk st) (tmpstr st) fd = Some (w ++ w', None) ->
  emits st st' w -> room st' = 0 -> w' <> [] -> fstk st' = fd' :: rest ->
  lmts st' = lmts st -> estk st' = estk st -> weight fd' = 1%nat ->
  denote_item m (lmts st) (estk st) (tmpstr st') fd' = Some (w', None) ->
  denote_limits (lmts st) fd' = denote_limits (lmts st) fd ->
  denote_estk (estk st) fd' = denote_estk (estk st) fd ->
  stepped m st bs e WaitE st'.
Proof using Hden Hstk.
  intros Hi He Hr Hw' Hf Hl Hes Hwt Hi' Hl' Hes'. destruct den_item as (w0 & e' & Hi0 & H).
  rewrite Hi in Hi0. simplify_eq. destruct H as (r & Hr' & ->).
  eapply stepped_wait; [by rewrite <- app_assoc| |done|done| |by rewrite Hf|].
  3: { rewrite Hf, Hstk, !stack_weight_cons, Hwt. pose proof (weight_pos fd). lia. }
  - intros E. by apply app_nil in E as [? _].
  - unfold den. rewrite Hf, Hl, Hes. apply denote_cons; [done|]. by rewrite Hl', Hes'.
Qed.

(** An item that exceeds a limit. *)
Lemma step_error (err0 : Errors) :
  denote_item m (lmts st) (estk st) (tmpstr st) fd = Some ([], Some err0) ->
  stepped m st bs e FailureE (set_err st err0).
Proof using Hden Hstk.
  intros Hi. destruct den_item as (w & e' & Hi' & H). rewrite Hi in Hi'. simplify_eq.
  destruct H as [-> ->]. apply (stepped_failure _ _ _ _ _ err0); try done.
  unfold emits. cbn. rewrite app_nil_r. split_and!; done || lia.
Qed.

(** *** Raw binary *)

Section binary.
Context (total : nat) (w : list Z).
Context (Hread : read_bytes m (fd_p fd) total = Some w)
  (Hitem : denote_item m (lmts st) (estk st) (tmpstr st) fd = Some (w, None))
  (Hkl : forall l, denote_limits l fd = l) (Hke : forall es, denote_estk es fd = es).

Lemma binary_all (st0 : Ser) (x : FncData) :
  st0 = set_fstk st (x :: rest) -> Z.of_nat total <= room st ->
  called (bs ← read_bytes m (fd_p fd) total; Some (SuccessE, emit st0 bs)).
Proof using All.
  intros -> Hle. rewrite Hread. cbn [mbind option_bind]. apply called_intro.
  eapply (step_done w); [done|done| |reflexivity|by rewrite Hkl|by rewrite Hke].
  by rewrite (read_bytes_length _ _ _ _ Hread).
Qed.

Lemma binary_part (st0 : Ser) (fd0 : FncData) (n k : nat) (s : Z) :
  lmts st0 = lmts st -> estk st0 = estk st -> err st0 = err st -> emits st st0 [] ->
  fd_p fd0 = fd_p fd ->
  Z.of_nat n = room st -> (n < total)%nat -> (k ∈ [0; 1; 2; 4; 8]%nat) -> in_range 64 s ->
  binary_size k s = Z.of_nat (total - n) ->
  called (copy m st0 fd0 rest n (StoreBinary k) s WaitE).
Proof using All.
  intros Hl Hes Herr He Hp Hn Hlt Hk Hs Hsz. unfold copy. rewrite Hp.
  destruct (read_bytes_split _ _ total n _ ltac:(lia) Hread) as [-> Hd].
  cbn [mbind option_bind]. apply called_intro.
  pose proof (read_bytes_length _ _ _ _ Hread) as Hlen.
  destruct He as (Ho & Hro & Hrd & Hnl). rewrite app_nil_r in Ho. cbn [length] in Hro.
  eapply (step_wait (take n w) (drop n w)).
  - by rewrite take_drop.
  - unfold emits. cbn. rewrite Ho, Hro. split_and!; try done. lia.
  - cbn. rewrite length_take. lia.
  - intros E. apply (f_equal length) in E. rewrite length_drop in E. cbn in E. lia.
  - reflexivity.
  - done.
  - done.
  - done.
  - unfold denote_item. cbn [fd_f fd_p fd_s]. rewrite decide_True by done.
    by rewrite Hsz, Nat2Z.id, Hd.
  - by rewrite !Hkl.
  - by rewrite !Hke.
Qed.

(** The callbacks, for the data [fd0] that may already have replaced [fd]. *)
Section callbacks.
Context (k : nat) (fd0 : FncData).
Context (Hk : k ∈ [0; 1; 2; 4; 8]%nat) (Hs : in_range 64 (fd_s fd0))
  (Hsz : binary_size k (fd_s fd0) = Z.of_nat total)
  (Hf : fd_f fd0 = StoreBinary k) (Hp : fd_p fd0 = fd_p fd).

Lemma binary_zero (k' : nat) (s' : Z) :
  k' ∈ [0; 1; 2; 4; 8]%nat -> in_range 64 s' -> (0 < total)%nat -> room st = 0 ->
  binary_size k' s' = Z.of_nat total ->
  called (Some (WaitE, set_fstk st (mkFnc (StoreBinary k') (fd_p fd) s' :: rest))).
Proof using All.
  intros Hk' Hs' Hpos Hr0 Hsz'. apply called_intro.
  eapply (step_wait [] w).
  - done.
  - apply emits_replace.
  - done.
  - intros ->. apply read_bytes_length in Hread. cbn in Hread. lia.
  - reflexivity.
  - done.
  - done.
  - done.
  - unfold denote_item. cbn [fd_f fd_p fd_s]. rewrite decide_True by done.
    by rewrite Hsz', Nat2Z.id, Hread.
  - by rewrite !Hkl.
  - by rewrite !Hke.
Qed.

Lemma binary_copy (n k' : nat) (s' : Z) :
  Z.of_nat n = room st -> (n < total)%nat -> k' ∈ [0; 1; 2; 4; 8]%nat -> in_range 64 s' ->
  binary_size k' s' = Z.of_nat (total - n) ->
  called (copy m (set_fstk st (fd0 :: rest)) fd0 rest n (StoreBinary k') s' WaitE).
Proof using All.
  intros. apply binary_part; try done. apply emits_replace.
Qed.

Lemma binary_copy_all (f : fnc) (s' : Z) :
  Z.of_nat total <= room st ->
  called (copy m (set_fstk st (fd0 :: rest)) fd0 rest total f s' SuccessE).
Proof using All.
  intros Hle. unfold copy. rewrite Hp, Hread. cbn [mbind option_bind]. apply called_intro.
  eapply (step_done w); [done|done| |reflexivity|by rewrite Hkl|by rewrite Hke].
  by rewrite (read_bytes_length _ _ _ _ Hread).
Qed.

Lemma binary_store (n : nat) :
  total = n -> Z.of_nat n <= room st ->
  called (bs ← read_bytes m (fd_p fd0) n;
          Some (SuccessE, emit (set_fstk st (fd0 :: rest)) bs)).
Proof using All.
  intros <- Hle. rewrite Hp. by apply (binary_all _ fd0).
Qed.

Lemma fd0_eq : fd0 = mkFnc (StoreBinary k) (fd_p fd) (fd_s fd0).
Proof using All. destruct fd0; cbn in *; by subst. Qed.

Lemma storeBinary0_spec :
  k = 0%nat -> called (storeBinary0 m (set_fstk st (fd0 :: rest)) fd0 rest).
Proof using All.
  intros Hk0. unfold storeBinary0. cbn [null set_fstk room]. rewrite Hnull, room_wrap32.
  pose proof Hsz as Hsz'. unfold binary_size in Hsz'. rewrite Hk0 in Hsz'.
  cbn [Nat.eqb] in Hsz'. pose proof Hs as Hs'. unfold in_range in Hs'. destruct (Z.ltb_spec (fd_s fd0) (room st)) as [Hlt|Hge].
  - rewrite wrap_small by (unfold in_range; lia).
    rewrite (proj2 (Z.eqb_eq _ _)) by lia. rewrite Hsz', Nat2Z.id.
    apply binary_copy_all. lia.
  - destruct (Z.eqb_spec (fd_s fd0 - room st) 0) as [Hq|Hq].
    + replace (Z.to_nat (room st)) with total by lia. apply binary_copy_all. lia.
    + rewrite Hf. apply binary_copy; [lia|lia|done|unfold in_range; lia|].
      rewrite Hk0. unfold binary_size. cbn [Nat.eqb]. lia.
Qed.

Lemma storeBinary1_spec :
  k = 1%nat -> called (storeBinary1 m (set_fstk st (fd0 :: rest)) fd0 rest).
Proof using All.
  intros Hk1. assert (total = 1%nat) as Ht by (rewrite Hk1 in Hsz; cbn in Hsz; lia).
  unfold storeBinary1. cbn [null set_fstk room]. rewrite Hnull, room_wrap32.
  destruct (Z.eqb_spec (room st) 0); cbn [negb].
  - rewrite fd0_eq, Hk1. apply binary_zero; [in_list|done|lia|done|by rewrite Ht].
  - apply binary_store; [done|lia].
Qed.

Lemma storeBinary2_spec :
  k = 2%nat -> called (storeBinary2 m (set_fstk st (fd0 :: rest)) fd0 rest).
Proof using All.
  intros Hk2. assert (total = 2%nat) as Ht by (rewrite Hk2 in Hsz; cbn in Hsz; lia).
  unfold storeBinary2. cbn [null set_fstk room]. rewrite Hnull, room_wrap32. case_Z.
  - apply binary_store; [done|lia].
  - apply binary_copy; [lia|lia|in_list|done|by rewrite Ht].
  - rewrite fd0_eq, Hk2. apply binary_zero; [in_list|done|lia|lia|by rewrite Ht].
Qed.

Lemma storeBinary4_spec :
  k = 4%nat -> called (storeBinary4 m (set_fstk st (fd0 :: rest)) fd0 rest).
Proof using All.
  intros Hk4. assert (total = 4%nat) as Ht by (rewrite Hk4 in Hsz; cbn in Hsz; lia).
  unfold storeBinary4. cbn [null set_fstk room]. rewrite Hnull, room_wrap32. case_Z;
    first [apply binary_store; [done|lia]
          |apply binary_copy; [lia|lia|in_list|done|by rewrite Ht]
          |rewrite Hp; apply binary_zero; [in_list|done|lia|lia|by rewrite Ht]].
Qed.

Lemma storeBinary8_spec :
  k = 8%nat -> called (storeBinary8 m (set_fstk st (fd0 :: rest)) fd0 rest).
Proof using All.
  intros Hk8. assert (total = 8%nat) as Ht by (rewrite Hk8 in Hsz; cbn in Hsz; lia).
  unfold storeBinary8. cbn [null set_fstk room]. rewrite Hnull, room_wrap32. case_Z;
    first [apply binary_store; [done|lia]
          |apply binary_copy; [lia|lia|in_list|done|by rewrite Ht]
          |rewrite Hp; apply binary_zero; [in_list|done|lia|lia|by rewrite Ht]].
Qed.

Lemma storeBinary_spec : called (storeBinary k m (set_fstk st (fd0 :: rest)) fd0 rest).
Proof using All.
  pose proof storeBinary0_spec; pose proof storeBinary1_spec; pose proof storeBinary2_spec;
  pose proof storeBinary4_spec; pose proof storeBinary8_spec.
  pose proof Hk as Hk'. repeat rewrite ?elem_of_cons, ?elem_of_nil in Hk'.
  destruct_or! Hk'; rewrite Hk'; cbn [storeBinary]; auto.
Qed.
End callbacks.
End binary.

Lemma call_binary (n : nat) : fd_f fd = StoreBinary n -> called (storeBinary n m st fd rest).
Proof using All.
  intros Hf. destruct den_item as (w & e' & Hi & _). pose proof Hi as Hi'.
  unfold denote_item in Hi. rewrite Hf in Hi. case_decide as Hk; [|done].
  destruct Hk as [Hk Hs].
  destruct (read_bytes _ _ _) as [w'|] eqn:Hr; cbn [mbind option_bind] in Hi; [|done].
  simplify_eq. rewrite (set_fstk_id _ _ Hstk). eapply storeBinary_spec; try done.
  - unfold denote_limits. by rewrite Hf.
  - unfold denote_estk. by rewrite Hf.
  - rewrite Z2Nat.id; [done|]. unfold binary_size. unfold in_range in Hs. case_match; lia.
Qed.

Lemma call_int (n : nat) : fd_f fd = StoreInt n -> called (storeInt n m st fd rest).
Proof using All.
  intros Hf. destruct den_item as (w & e' & Hi & _). pose proof Hi as Hi'.
  unfold denote_item in Hi. rewrite Hf in Hi. case_decide as Hk; [|done].
  destruct (read_bytes _ _ _) as [w'|] eqn:Hr; cbn [mbind option_bind] in Hi; [|done].
  simplify_eq. unfold storeInt. eapply (storeBinary_spec n w); try done.
  - unfold denote_limits. by rewrite Hf.
  - unfold denote_estk. by rewrite Hf.
  - rewrite elem_of_cons. by right.
  - repeat rewrite ?elem_of_cons, ?elem_of_nil in Hk. cbn [fd_s]. by destruct_or! Hk; subst n.
  - unfold binary_size. cbn [fd_s]. case_match eqn:E; [|done].
    apply Nat.eqb_eq in E. by subst n.
Qed.

Lemma call_bool : fd_f fd = StoreBool -> called (storeBool m st fd rest).
Proof using All.
  intros Hf. destruct den_item as (w & e' & Hi & _). pose proof Hi as Hi'.
  unfold denote_item in Hi. rewrite Hf in Hi.
  destruct (read_bytes _ _ _) as [w'|] eqn:Hr; cbn [mbind option_bind] in Hi; [|done].
  simplify_eq. unfold storeBool. rewrite Hnull, room_wrap32.
  destruct (Z.eqb_spec (room st) 0); cbn [negb]; try apply called_intro.
  - eapply (step_wait [] _); [done| |done|done|done|done|done| |done|done|done].
    2: { unfold weight. by rewrite Hf. }
    rewrite (set_fstk_id _ _ Hstk) at 2. apply emits_replace.
  - rewrite Hr. cbn [mbind option_bind]. apply called_intro.
    eapply step_done; [done|done|cbn; lia|done| |];
      unfold denote_limits, denote_estk; by rewrite Hf.
Qed.

Lemma call_utf8 : fd_f fd = StoreUtf8 -> called (storeUtf8 m st fd rest).
Proof using All.
  intros Hf. destruct den_item as (w & e' & Hi & H). pose proof Hi as Hi'.
  unfold denote_item in Hi. rewrite Hf in Hi. case_decide as Hs; [|done].
  unfold storeUtf8. revert Hi. unfold utf8_error. intros Hi.
  destruct (stringlimit (lmts st) <? _).
  { simplify_eq. apply called_intro. by apply step_error. }
  destruct (max_value_without_crc_32 <? _).
  { simplify_eq. apply called_intro. by apply step_error. }
  destruct (read_bytes _ _ _) as [w'|] eqn:Hr; cbn [mbind option_bind] in Hi; [|done].
  simplify_eq. destruct H as (r & Hd & Hbs). apply called_intro, stepped_continue.
  - apply emits_replace.
  - unfold denote_limits, denote_estk in Hd. rewrite Hf in Hd.
    rewrite Hbs. apply denote_cons; [|done]. unfold denote_item. cbn [fd_f fd_p fd_s].
    rewrite decide_True by (split; [in_list|done]).
    unfold binary_size. cbn [Nat.eqb]. by rewrite Hr.
  - rewrite Hstk. cbn [fstk set_fstk]. rewrite !stack_weight_cons. unfold weight. rewrite Hf.
    cbn [fd_f]. lia.
Qed.

(** *** Length-prefixed items *)

(** The callbacks that write a cross integer held by [estk] and drop it again. *)
Lemma den_cross_est (v : Z) (stk : list FncData) (r : list Z) (e0 : option Errors) :
  in_range 64 v -> denote m (lmts st) (estk st) [] stk = Some (r, e0) ->
  den m (set_fstk (set_estk st (estk st ++ [v]))
           (mkFnc (StoreCross 64) (PEst (length (estk st))) (InvalidSize 64) ::
            mkFnc PopExtStack PNull (InvalidSize 64) :: stk)) = Some (enc_cross v ++ r, e0).
Proof using Type.
  intros Hv Hd. unfold den. cbn [lmts estk tmpstr fstk set_fstk set_estk].
  apply denote_cons.
  { unfold denote_item. cbn [fd_f fd_p fd_s read_uint].
    rewrite list_lookup_middle by done. cbn [mbind option_bind].
    by rewrite decide_True by (split; [in_list|done]). }
  apply (denote_cons _ _ _ _ _ _ [] r); unfold denote_estk; cbn [fd_f].
  - unfold denote_item. cbn [fd_f]. by destruct (estk st).
  - by rewrite removelast_last.
Qed.

Lemma step_sized (limit n : Z) (bytes w : list Z) (elim emax : Errors) (e' : option Errors)
    (fd2 : FncData) (r : option (ReturnValues * Ser)) :
  0 <= n -> enc_sized limit n bytes elim emax = (w, e') ->
  denote_item m (lmts st) (estk st) (tmpstr st) fd = Some (w, e') ->
  denote_item m (lmts st) (estk st) [] fd2 = Some (bytes, None) ->
  weight fd = 4%nat -> weight fd2 = 1%nat ->
  (forall l, denote_limits l fd = l) -> (forall es, denote_estk es fd = es) ->
  (forall l, denote_limits l fd2 = l) -> (forall es, denote_estk es fd2 = es) ->
  r = (if limit <? n then Some (FailureE, set_err st elim)
       else match compute_value_with_crc64 n with
            | None => Some (FailureE, set_err st emax)
            | Some crcsz =>
                let '(st, pe) := push_est st crcsz in
                Some (ContinueE, set_fstk st
                  (mkFnc (StoreCross 64) pe (InvalidSize 64) ::
                   mkFnc PopExtStack PNull (InvalidSize 64) :: fd2 :: rest))
            end) ->
  called r.
Proof using Hden Hstk.
  intros Hn Henc Hi Hi2 Hw Hw2 Hl He Hl2 He2 ->. unfold enc_sized in Henc.
  destruct (limit <? n).
  { simplify_eq. by apply called_intro, step_error. }
  destruct (compute_value_with_crc64 n) as [v|] eqn:Ev; simplify_eq.
  2: by apply called_intro, step_error.
  destruct (crc_compute_inv (C := crc64) n v Hn Ev) as (_ & Hv & _).
  destruct den_item as (w' & e'' & Hi' & H). rewrite Hi in Hi'. simplify_eq.
  destruct H as (r' & Hr & Hbs). rewrite Hl, He in Hr.
  apply called_intro, stepped_continue.
  - unfold emits. cbn. rewrite app_nil_r. split_and!; done || lia.
  - rewrite Hbs, <- app_assoc. apply den_cross_est; [done|]. apply denote_cons; [done|].
    by rewrite Hl2, He2.
  - rewrite Hstk. cbn [fstk set_fstk]. rewrite !stack_weight_cons, Hw, Hw2. cbn. lia.
Qed.

Lemma call_string : fd_f fd = StoreString -> called (storeString m st fd rest).
Proof using Hden Hstk Hnull.
  intros Hf. destruct den_item as (w & e' & Hi & _). pose proof Hi as Hi'.
  unfold denote_item in Hi. rewrite Hf in Hi. unfold storeString. rewrite Hnull.
  destruct (read_string m (fd_p fd)) as [c|] eqn:Hc; cbn [mbind option_bind] in *; [|done].
  case_decide as Hlen; [|done]. injection Hi as Hi.
  eapply step_sized with (fd2 := mkFnc (StoreBinary 0) (fd_p fd) (Z.of_nat (length c)));
    [|exact Hi|exact Hi'|..]; try done; try (unfold weight, denote_limits, denote_estk;
      by rewrite Hf); [lia|].
  unfold denote_item. cbn [fd_f fd_p fd_s]. rewrite decide_True by (split; [in_list|done]).
  unfold binary_size. cbn [Nat.eqb]. rewrite Nat2Z.id.
  destruct (fd_p fd) as [|id [|off]|]; cbn [read_string] in Hc; try done.
  cbn [read_bytes]. destruct (m id) as [[]|]; try done. simplify_eq. cbn.
  rewrite length_app, decide_True by lia. cbn. by rewrite drop_0, take_app_length.
Qed.

Lemma call_bitvec : fd_f fd = StoreBitvec -> called (storeBitvec m st fd rest).
Proof using Hden Hstk Hnull.
  intros Hf. destruct den_item as (w & e' & Hi & H). pose proof Hi as Hi'.
  unfold denote_item in Hi. rewrite Hf in Hi. unfold storeBitvec. rewrite Hnull.
  assert (forall l, denote_limits l fd = l) as Hl by (unfold denote_limits; by rewrite Hf).
  assert (forall es, denote_estk es fd = es) as He by (unfold denote_estk; by rewrite Hf).
  assert (weight fd = 4%nat) as Hw by (unfold weight; by rewrite Hf).
  destruct (decide (fd_p fd = PNull)) as [Hp|Hp].
  { rewrite Hp in *. simplify_eq. destruct H as (r & Hr & Hbs). rewrite Hl, He in Hr.
    apply called_intro, stepped_continue.
    - unfold emits. cbn. rewrite app_nil_r. split_and!; done || lia.
    - rewrite Hbs. by apply den_cross_est.
    - rewrite Hstk. cbn [fstk set_fstk]. rewrite !stack_weight_cons, Hw. cbn. lia. }
  destruct (fd_p fd) as [|id off|k]; [done| |done].
  destruct (read_bits m (PObj id off)) as [c|] eqn:Hc; cbn [mbind option_bind] in *; [|done].
  case_decide as Hlen; [|done]. injection Hi as Hi.
  eapply step_sized with (fd2 := mkFnc StoreBitvecContinue (PObj id off) 0);
    [|exact Hi|exact Hi'|..]; try done; [lia|].
  unfold denote_item. cbn [fd_f fd_p fd_s]. rewrite Hc. cbn [mbind option_bind].
  by rewrite decide_True by lia.
Qed.

(** *** Resumed items and cross integers *)

Lemma call_bitvec_continue :
  fd_f fd = StoreBitvecContinue -> called (storeBitvecContinue m st fd rest).
Proof using All.
  intros Hf. destruct den_item as (w & e' & Hi & _). pose proof Hi as Hi'.
  unfold denote_item in Hi. rewrite Hf in Hi. unfold storeBitvecContinue. rewrite Hnull.
  destruct (read_bits m (fd_p fd)) as [c|] eqn:Hc; cbn [mbind option_bind] in *; [|done].
  case_decide as Hs; [|done]. simplify_eq.
  destruct (bits_loop_spec (Z.to_nat (room st)) (drop (Z.to_nat (fd_s fd)) c) 0)
    as (n & bo & cur & bytes & E & H). rewrite Z2Nat.id in E by lia. rewrite E.
  assert (forall l, denote_limits l fd = l) as Hl by (unfold denote_limits; by rewrite Hf).
  assert (forall es, denote_estk es fd = es) as He by (unfold denote_estk; by rewrite Hf).
  destruct (decide (length (pack_bits (drop (Z.to_nat (fd_s fd)) c)) <= Z.to_nat (room st))%nat)
    as [Hfit|Hfit]; rewrite length_drop in H.
  - destruct H as [-> Hb]. rewrite (proj2 (Z.ltb_ge _ _)) by lia. rewrite <- Hb in Hi', Hfit.
    destruct (Z.eqb_spec bo 0); cbn [negb]; apply called_intro;
      (eapply (step_done _); [exact Hi'| |lia|reflexivity|by rewrite Hl|by rewrite He]);
      rewrite ?app_nil_r; [done|].
    unfold emits. cbn. rewrite length_app, <- app_assoc. split_and!; [done|cbn; lia|done|done].
  - destruct H as (-> & Hlt & -> & Hd). rewrite (proj2 (Z.ltb_lt _ _)) by lia.
    apply called_intro. set (k := Z.to_nat (room st)) in *.
    rewrite <- (take_drop k (pack_bits (drop (Z.to_nat (fd_s fd)) c))) in Hi'.
    eapply (step_wait _ _); [exact Hi'|done| | |reflexivity|done|done| | | |];
      try (unfold denote_limits, denote_estk, weight; cbn [fd_f]; by rewrite Hf).
    + cbn. rewrite length_take. lia.
    + intros Z. apply (f_equal length) in Z. rewrite length_drop in Z. cbn in Z. lia.
    + unfold denote_item. rewrite Hf. cbn [fd_f fd_p fd_s]. rewrite Hc. cbn [mbind option_bind].
      rewrite decide_True by lia. rewrite <- Hd, drop_drop. do 4 f_equal. lia.
Qed.

Lemma call_cross_continue :
  fd_f fd = StoreCrossContinue -> called (storeCrossContinue m st fd rest).
Proof using All.
  intros Hf. destruct den_item as (w & e' & Hi & _). pose proof Hi as Hi'.
  unfold denote_item in Hi. rewrite Hf in Hi. case_decide as Hs; [|done]. simplify_eq.
  unfold storeCrossContinue. rewrite Hnull, room_wrap64.
  rewrite (wrap_small 64) by (unfold in_range; lia).
  assert (forall l, denote_limits l fd = l) as Hl by (unfold denote_limits; by rewrite Hf).
  assert (forall es, denote_estk es fd = es) as He by (unfold denote_estk; by rewrite Hf).
  set (t := drop (Z.to_nat (fd_s fd)) (tmpstr st)) in *.
  assert (Z.of_nat (length t) = Z.of_nat (length (tmpstr st)) - fd_s fd) as Ht
    by (unfold t; rewrite length_drop; lia).
  cbn [tmpstr emit set_fstk]. destruct (Z.ltb_spec (room st) (Z.of_nat (length (tmpstr st)) - fd_s fd)).
  - rewrite (proj2 (Z.eqb_neq _ _)) by lia. apply called_intro.
    rewrite <- (take_drop (Z.to_nat (room st)) t) in Hi'.
    eapply (step_wait _ _); [exact Hi'|done| | |reflexivity|done|done| | | |];
      try (unfold denote_limits, denote_estk, weight; cbn [fd_f]; by rewrite Hf).
    + cbn. rewrite length_take. lia.
    + intros Z. apply (f_equal length) in Z. rewrite length_drop in Z. cbn in Z. lia.
    + unfold denote_item. rewrite Hf. cbn [fd_f fd_p fd_s tmpstr emit set_fstk].
      rewrite decide_True by lia. unfold t. rewrite drop_drop. do 4 f_equal. lia.
  - rewrite (proj2 (Z.eqb_eq _ _)) by lia. rewrite (take_ge t) by lia. apply called_intro.
    eapply (step_done _); [exact Hi'|done|lia|reflexivity|by rewrite Hl|by rewrite He].
Qed.

Lemma crossStore_spec (w v : Z) :
  w ∈ [8; 16; 32; 64] -> in_range w v ->
  crossStore w v = Some (enc_cross v, sig_bytes v + 1) /\ crossSize w v = sig_bytes v + 1.
Proof using Type.
  intros Hw Hv. repeat rewrite ?elem_of_cons, ?elem_of_nil in Hw. destruct_or! Hw; subst w.
  - apply (cross_stores_spec 8 crossStore8 crossSize8 v); [by left|done].
  - apply (cross_stores_spec 16 crossStore16 crossSize16 v); [by right; left|done].
  - apply (cross_stores_spec 32 crossStore32 crossSize32 v); [by do 2 right; left|done].
  - apply (cross_stores_spec 64 crossStore64 crossSize64 v); [by do 3 right; left|done].
Qed.

Lemma call_cross (k : Z) : fd_f fd = StoreCross k -> called (storeCross k m st fd rest).
Proof using All.
  intros Hf. destruct den_item as (w & e' & Hi & _). pose proof Hi as Hi'.
  unfold denote_item in Hi. rewrite Hf in Hi. unfold storeCross.
  destruct (read_uint m (estk st) (fd_p fd)) as [v|]; cbn [mbind option_bind] in *; [|done].
  case_decide as Hs; [|done]. destruct Hs as [Hk Hv]. simplify_eq.
  destruct (crossStore_spec k v Hk Hv) as [-> ->]. cbn [mbind option_bind].
  rewrite Hnull, room_wrap32, room_wrap64.
  replace (if k =? 64 then room st else room st) with (room st) by (by destruct (k =? 64)).
  assert (in_range 64 v) as Hv64.
  { apply (in_range_mono k); [|done]. repeat rewrite ?elem_of_cons, ?elem_of_nil in Hk. lia. }
  pose proof (length_enc_cross v Hv64) as Hlen.
  pose proof (sig_bytes_le 8 v ltac:(lia) Hv64) as Hs8.
  destruct (Z.leb_spec (sig_bytes v + 1) (room st)); apply called_intro.
  - eapply (step_done _); [exact Hi'|done|lia|exact Hstk| |];
      unfold denote_limits, denote_estk; by rewrite Hf.
  - rewrite (take_ge (enc_cross v)) by lia.
    rewrite <- (take_drop (Z.to_nat (room st)) (enc_cross v)) in Hi'.
    eapply (step_wait _ _); [exact Hi'|done| | |reflexivity|done|done|done| | |];
      cbn [tmpstr emit set_fstk set_tmpstr].
    + cbn. rewrite length_take. lia.
    + intros Z. apply (f_equal length) in Z. rewrite length_drop in Z. cbn in Z. lia.
    + unfold denote_item. cbn [fd_f fd_p fd_s tmpstr emit set_fstk].
      by rewrite decide_True by lia.
    + unfold denote_limits. by rewrite Hf.
    + unfold denote_estk. by rewrite Hf.
Qed.

Lemma emits_nothing (st' : Ser) :
  out st' = out st -> room st' = room st -> rdefaultlmts st' = rdefaultlmts st ->
  null st' = null st -> emits st st' [].
Proof using Type.
  intros Ho Hr Hd Hn. unfold emits. rewrite Ho, Hr, Hd, Hn, app_nil_r. cbn.
  split_and!; done || lia.
Qed.

Lemma call_pop : fd_f fd = PopExtStack -> called (popExtStack m st fd rest).
Proof using All.
  intros Hf. destruct den_item as (w & e' & Hi & _).
  assert (w = [] /\ e' = None /\ estk st <> []) as (-> & -> & Hne).
  { unfold denote_item in Hi. rewrite Hf in Hi. by destruct (estk st); simplify_eq. }
  unfold popExtStack. destruct (estk st) as [|x es] eqn:He; [done|]. rewrite <- He in Hi.
  apply called_intro. eapply (step_done []); [done|by apply emits_nothing|cbn; lia|exact Hstk| |];
    unfold denote_limits, denote_estk; rewrite Hf; [done|by rewrite He].
Qed.

Lemma call_spec : called (call m st fd rest).
Proof using All.
  unfold call. destruct (fd_f fd) as [| | | | | | | | | | | |] eqn:Hf;
    auto using call_binary, call_int, call_bool, call_string, call_utf8, call_bitvec,
      call_bitvec_continue, call_cross, call_cross_continue, call_pop.
  all: assert (denote_item m (lmts st) (estk st) (tmpstr st) fd = Some ([], None)) as Hi
      by (unfold denote_item; by rewrite Hf);
    apply called_intro;
    (eapply (step_done []); [done|by apply emits_nothing|cbn; lia|exact Hstk| |]);
    unfold denote_limits, denote_estk; by rewrite Hf.
Qed.
End step.

(** ** The loop *)

(** What the loop does to a stack that stands for [bs] and [e]: it writes as much as the
    buffer holds. When that is all, the stack is empty or the error has been met. *)
Definition ran (m : mem) (st : Ser) (bs : list Z) (e : option Errors) (ok : bool) (st' : Ser)
    : Prop :=
  rdefaultlmts st' = rdefaultlmts st /\ (stack_weight (fstk st') <= stack_weight (fstk st))%nat /\
  if Z.of_nat (length bs) <=? room st then
    out st' = out st ++ bs /\ lmts st' = rdefaultlmts st /\
    match e with
    | None => ok = true /\ fstk st' = [] /\ estk st' = []
    | Some e => ok = false /\ err st' = Some e
    end
  else
    ok = true /\ out st' = out st ++ take (Z.to_nat (room st)) bs /\ fstk st' <> [] /\
    den m st' = Some (drop (Z.to_nat (room st)) bs, e).

Lemma ran_step (m : mem) (st st1 st' : Ser) (w bs : list Z) (e : option Errors) (ok : bool) :
  emits st st1 w -> 0 <= room st1 -> (stack_weight (fstk st1) <= stack_weight (fstk st))%nat ->
  ran m st1 bs e ok st' -> ran m st (w ++ bs) e ok st'.
Proof.
  intros (Ho & Hr & Hd & _) Hroom Hw (Hd' & Hw' & H). split; [congruence|]. split; [lia|].
  rewrite Hr, Ho, Hd in H. rewrite length_app.
  destruct (Z.leb_spec (Z.of_nat (length bs)) (room st - Z.of_nat (length w))); case_Z; try lia.
  - by rewrite app_assoc.
  - destruct H as (Hok & Hout & Hne & Hden). rewrite take_app_ge, drop_app_ge by lia.
    replace (Z.to_nat (room st) - length w)%nat
      with (Z.to_nat (room st - Z.of_nat (length w))) by lia.
    rewrite Hden. split_and!; try done. by rewrite Hout, app_assoc.
Qed.

Lemma run_loop_spec (m : mem) (fuel : nat) (st : Ser) (bs : list Z) (e : option Errors) :
  null st = false -> 0 <= room st < 2 ^ 32 -> den m st = Some (bs, e) ->
  (stack_weight (fstk st) < fuel)%nat ->
  exists ok st', run_loop fuel m st = Some (ok, st') /\ ran m st bs e ok st'.
Proof.
  revert st bs. induction fuel as [|fuel IH]; intros st bs Hnull Hroom Hden Hfuel; [lia|].
  cbn [run_loop]. destruct (fstk st) as [|fd rest] eqn:Hstk.
  { unfold den in Hden. rewrite Hstk in Hden. cbn [denote] in Hden.
    case_decide as He; [|done]. simplify_eq. exists true. eexists. split; [reflexivity|].
    split; [done|]. split; [done|]. cbn [length]. rewrite (proj2 (Z.leb_le _ _)) by (cbn; lia).
    cbn. by rewrite app_nil_r. }
  destruct (call_spec m st fd rest bs e Hnull Hroom Hstk Hden) as (rv & st1 & -> & Hst).
  cbn [mbind option_bind]. rewrite <- Hstk in Hfuel.
  destruct Hst as [st1 w bs' -> Hem Hr1 Hd1 Hw|st1 Hem Hd1 Hw|st1 w bs' -> Hne Hem Hr1 Hd1 Hs Hw
                  |st1 e0 -> -> Herr Hem Hs]; pose proof Hem as (Ho & Hr & Hd & Hn).
  - destruct (IH (set_fstk st1 (tail (fstk st1))) bs') as (ok & st' & -> & Hran);
      [cbn; congruence|cbn [room set_fstk]; lia|done|cbn [fstk set_fstk]; lia|].
    exists ok, st'. split; [done|]. apply (ran_step m st (set_fstk st1 (tail (fstk st1)))); try done.
    cbn [fstk set_fstk]. lia.
  - destruct (IH st1 bs) as (ok & st' & -> & Hran); [congruence|cbn [length] in Hr; lia|done|lia|].
    exists ok, st'. split; [done|]. apply (ran_step m st st1 st' []); [done| |lia|done].
    cbn [length] in Hr. lia.
  - exists true, st1. split; [done|]. split; [done|]. split; [done|].
    assert (0 < length bs')%nat by (destruct bs'; cbn; [done|lia]).
    rewrite length_app, (proj2 (Z.leb_gt _ _)) by lia.
    rewrite take_app_length', drop_app_length' by lia. done.
  - exists false. eexists. split; [reflexivity|]. split; [done|]. split; [cbn; by rewrite Hs|].
    rewrite (proj2 (Z.leb_le _ _)) by (cbn; lia). cbn. by rewrite Ho, Hd.
Qed.

(** [run]: the count returned and the bytes written. *)
Lemma run_spec (m : mem) (fuel : nat) (st : Ser) (bl : Z) (bs : list Z) (e : option Errors) :
  in_range 31 bl -> den m st = Some (bs, e) -> (stack_weight (fstk st) < fuel)%nat ->
  exists r w st', run fuel m st bl = Some (r, w, st') /\
    w = take (Z.to_nat bl) bs /\ rdefaultlmts st' = rdefaultlmts st /\
    (stack_weight (fstk st') <= stack_weight (fstk st))%nat /\
    if Z.of_nat (length bs) <=? bl then
      lmts st' = rdefaultlmts st /\
      match e with
      | None => r = Z.of_nat (length bs) /\ fstk st' = [] /\ estk st' = []
      | Some e => r = -1 /\ err st' = Some e
      end
    else r = bl /\ fstk st' <> [] /\ den m st' = Some (drop (Z.to_nat bl) bs, e).
Proof.
  intros Hbl Hden Hfuel. unfold run.
  set (st0 := mkSer _ _ _ _ _ _ _ _ _).
  assert (in_range 32 (room st0)) as Hroom by (unfold in_range in *; cbn [room st0]; lia).
  destruct (run_loop_spec m fuel st0 bs e eq_refl Hroom Hden Hfuel) as (ok & st' & -> & Hd & Hw & H).
  cbn [mbind option_bind]. cbn [room st0 out rdefaultlmts app] in *.
  exists (if ok then signed 32 (Z.of_nat (length (out st'))) else -1), (out st'), st'.
  unfold in_range in Hbl. split; [done|].
  destruct (Z.leb_spec (Z.of_nat (length bs)) bl).
  - destruct H as (-> & Hl & H). rewrite (take_ge bs) by lia. split_and!; try done.
    destruct e; [by destruct H as [-> ->]|destruct H as (-> & -> & ->)].
    rewrite signed_small; [done|lia|cbn; lia].
  - destruct H as (-> & -> & Hne & Hden'). split_and!; try done.
    rewrite length_take, signed_small; cbn; lia.
Qed.

(** ** Items scheduled through the interface *)

Inductive item :=
  | ItInt (n id : nat)
  | ItBool (id : nat)
  | ItString (id : nat)
  | ItBitvec (id : nat)
  | ItBinary (id : nat) (sz : Z)
  | ItUtf8 (id : nat) (len : Z)
  | ItCross (w : Z) (id : nat)
  | ItStringLimit (v : Z)
  | ItStreamLimit (v : Z)
  | ItContainerLimit (v : Z).

Definition push_item (it : item) (st : Ser) : Ser :=
  match it with
  | ItInt n id => push_int n st id
  | ItBool id => push_bool st id
  | ItString id => push_string st id
  | ItBitvec id => push_bitvec st id
  | ItBinary id sz => pushBinary st id sz
  | ItUtf8 id len => pushUtf8 st id len
  | ItCross w id => pushCross w st id
  | ItStringLimit v => doPushStringLimit st v
  | ItStreamLimit v => doPushStreamLimit st v
  | ItContainerLimit v => doPushContainerLimit st v
  end.

(** The stack is last in, first out: what is to be written first is pushed last. *)
Definition push_items (its : list item) (st : Ser) : Ser := foldr push_item st its.

(** The object an item points to, as the encoding sees it; [None] when there is none. *)
Definition enc_item (m : mem) (l : Limits) (it : item) : option (list Z * option Errors) :=
  match it with
  | ItInt n id =>
      if decide (n ∈ [1; 2; 4; 8]%nat) then bs ← read_bytes m (PObj id 0) n; Some (bs, None) else None
  | ItBool id =>
      bs ← read_bytes m (PObj id 0) 1; Some ([if default 0 (bs !! 0%nat) =? 0 then 0 else 1], None)
  | ItString id =>
      c ← read_string m (PObj id 0);
      if decide (in_range 64 (Z.of_nat (length c))) then
        Some (enc_sized (stringlimit l) (Z.of_nat (length c)) c ERR_STRING_LIMIT ERR_STRING_MAX_LIMIT)
      else None
  | ItBitvec id =>
      c ← read_bits m (PObj id 0);
      if decide (in_range 64 (Z.of_nat (length c))) then
        Some (enc_sized (containerlimit l) (Z.of_nat (length c)) (pack_bits c)
                ERR_CONTAINER_LIMIT ERR_CONTAINER_MAX_LIMIT)
      else None
  | ItBinary id sz =>
      if decide (in_range 64 sz) then bs ← read_bytes m (PObj id 0) (Z.to_nat sz); Some (bs, None)
      else None
  | ItUtf8 id len =>
      if decide (0 <= len < 2 ^ 64 - 1) then
        if stringlimit l <? len then Some ([], Some ERR_UTF8_LIMIT)
        else if max_value_without_crc_32 <? len then Some ([], Some ERR_UTF8_MAX_LIMIT)
        else bs ← read_bytes m (PObj id 0) (Z.to_nat (len + 1)); Some (bs, None)
      else None
  | ItCross w id =>
      v ← read_uint m [] (PObj id 0);
      if decide (w ∈ [8; 16; 32; 64] /\ in_range w v) then Some (enc_cross v, None) else None
  | ItStringLimit _ | ItStreamLimit _ | ItContainerLimit _ => Some ([], None)
  end.

Definition item_limits (l : Limits) (it : item) : Limits :=
  match it with
  | ItStringLimit v => mkLimits v (containerlimit l) (streamlimit l)
  | ItStreamLimit v => mkLimits (stringlimit l) (containerlimit l) v
  | ItContainerLimit v => mkLimits (stringlimit l) v (streamlimit l)
  | _ => l
  end.

Fixpoint encode (m : mem) (l : Limits) (its : list item) : option (list Z * option Errors) :=
  match its with
  | [] => Some ([], None)
  | it :: its =>
      '(bs, e) ← enc_item m l it;
      match e with
      | Some e => Some (bs, Some e)
      | None => '(r, e) ← encode m (item_limits l it) its; Some (bs ++ r, e)
      end
  end.

Definition fresh (l : Limits) : Ser := mkSer [] [] [] l l None [] 0 false.

Definition item_fd (it : item) : FncData :=
  match it with
  | ItInt n id => mkFnc (StoreInt n) (PObj id 0) (InvalidSize 64)
  | ItBool id => mkFnc StoreBool (PObj id 0) (InvalidSize 64)
  | ItString id => mkFnc StoreString (PObj id 0) (InvalidSize 64)
  | ItBitvec id => mkFnc StoreBitvec (PObj id 0) 0
  | ItBinary id sz => mkFnc (StoreBinary 0) (PObj id 0) sz
  | ItUtf8 id len => mkFnc StoreUtf8 (PObj id 0) (wrap 64 (len + 1))
  | ItCross w id => mkFnc (StoreCross w) (PObj id 0) (InvalidSize 64)
  | ItStringLimit v => mkFnc SetStringLimit PNull v
  | ItStreamLimit v => mkFnc SetStreamLimit PNull v
  | ItContainerLimit v => mkFnc SetContainerLimit PNull v
  end.

Lemma push_items_fresh (its : list item) (l : Limits) :
  push_items its (fresh l) = set_fstk (fresh l) (map item_fd its).
Proof. induction its as [|it its IH]; [done|]. cbn. unfold push_items in IH. rewrite IH. by destruct it. Qed.

Lemma enc_item_denote (m : mem) (l : Limits) (it : item) x :
  enc_item m l it = Some x -> denote_item m l [] [] (item_fd it) = Some x.
Proof.
  destruct it; try done; unfold denote_item; cbn [enc_item item_fd fd_f fd_p fd_s].
  - case_decide; [|done]. rewrite decide_True by (split; [in_list|done]). done.
  - case_decide; [|done]. rewrite (wrap_small 64 (len + 1)) by (unfold in_range; lia).
    rewrite decide_True by (unfold in_range; lia). unfold utf8_error.
    replace (len + 1 - 1) with len by lia. rewrite (wrap_small 64 len) by (unfold in_range; lia).
    by destruct (stringlimit l <? len), (max_value_without_crc_32 <? len).
Qed.

Lemma encode_denote (m : mem) (l : Limits) (its : list item) x :
  encode m l its = Some x -> denote m l [] [] (map item_fd its) = Some x.
Proof.
  revert l x; induction its as [|it its IH]; intros l x; [done|]. cbn [encode map denote].
  destruct (enc_item m l it) as [[bs e]|] eqn:E; cbn [mbind option_bind]; [|done].
  rewrite (enc_item_denote _ _ _ _ E). cbn [mbind option_bind]. destruct e; [done|].
  replace (denote_estk [] (item_fd it)) with (@nil Z) by (by destruct it).
  replace (denote_limits l (item_fd it)) with (item_limits l it) by (by destruct it).
  destruct (encode m (item_limits l it) its) as [[r e]|] eqn:E'; cbn [mbind option_bind]; [|done].
  by rewrite (IH _ _ E').
Qed.

(** The caller's loop: [run] over the given buffers until the serializer is empty or fails. *)
Fixpoint run_all (fuel : nat) (m : mem) (st : Ser) (bls : list Z) : option (list Z * bool * Ser) :=
  match bls with
  | [] => Some ([], true, st)
  | bl :: bls =>
      '(r, w, st) ← run fuel m st bl;
      if r <? 0 then Some (w, false, st)
      else if empty st then Some (w, true, st)
      else '(ws, ok, st) ← run_all fuel m st bls; Some (w ++ ws, ok, st)
  end.

Definition sum_sizes (bls : list Z) : Z := foldr Z.add 0 bls.

Lemma sum_sizes_nonneg (bls : list Z) : Forall (in_range 31) bls -> 0 <= sum_sizes bls.
Proof.
  induction 1 as [|x l Hx _ IH]; cbn; [lia|]. unfold in_range in Hx. unfold sum_sizes in IH. lia.
Qed.

Lemma run_all_spec (m : mem) (fuel : nat) (st : Ser) (bls bs : list Z) (e : option Errors) :
  Forall (in_range 31) bls -> den m st = Some (bs, e) -> (stack_weight (fstk st) < fuel)%nat ->
  bls <> [] ->
  exists ok st', run_all fuel m st bls = Some (take (Z.to_nat (sum_sizes bls)) bs, ok, st') /\
    if Z.of_nat (length bs) <=? sum_sizes bls then
      match e with None => ok = true /\ fstk st' = [] | Some e => ok = false /\ err st' = Some e end
    else ok = true /\ den m st' = Some (drop (Z.to_nat (sum_sizes bls)) bs, e).
Proof.
  intros Hbls. revert st bs. induction Hbls as [|bl bls Hbl Hbls IH]; intros st bs Hden Hf Hne; [done|].
  cbn [run_all sum_sizes foldr]. fold (sum_sizes bls).
  pose proof (sum_sizes_nonneg bls Hbls) as Hsum.
  destruct (run_spec m fuel st bl bs e Hbl Hden Hf) as (r & w & st1 & -> & -> & Hd & Hw & H).
  cbn [mbind option_bind]. unfold in_range in Hbl.
  destruct (Z.leb_spec (Z.of_nat (length bs)) bl).
  { rewrite !(take_ge bs) by lia. rewrite (proj2 (Z.leb_le _ _)) by lia. destruct H as [_ H].
    destruct e as [e|].
    - destruct H as [-> He]. cbn. by eauto.
    - destruct H as (-> & He & _). rewrite (proj2 (Z.ltb_ge _ _)) by lia.
      unfold empty. rewrite He. exists true, st1. done. }
  destruct H as (-> & Hs & Hden'). rewrite (proj2 (Z.ltb_ge _ _)) by lia.
  replace (empty st1) with false by (unfold empty; by destruct (fstk st1)).
  destruct (decide (bls = [])) as [->|Hne'].
  { cbn [run_all mbind option_bind sum_sizes foldr]. rewrite app_nil_r, Z.add_0_r.
    rewrite (proj2 (Z.leb_gt _ _)) by lia. by eauto. }
  destruct (IH st1 (drop (Z.to_nat bl) bs) Hden' ltac:(lia) Hne') as (ok & st' & -> & H).
  cbn [mbind option_bind]. exists ok, st'. rewrite length_drop in H.
  replace (Z.to_nat (bl + sum_sizes bls)) with (Z.to_nat bl + Z.to_nat (sum_sizes bls))%nat by lia.
  rewrite drop_drop in H. split.
  - do 3 f_equal. by rewrite take_take_drop.
  - destruct (Z.leb_spec (Z.of_nat (length bs - Z.to_nat bl)) (sum_sizes bls));
      [rewrite (proj2 (Z.leb_le _ _)) by lia|rewrite (proj2 (Z.leb_gt _ _)) by lia]; done.
Qed.

(** ** [clear] *)

(** With a null buffer every callback is dropped, except that limits and [estk] are kept up. *)
Lemma call_null (m : mem) (st : Ser) (fd : FncData) (rest : list FncData) (w : list Z) :
  null st = true -> fstk st = fd :: rest ->
  denote_item m (lmts st) (estk st) (tmpstr st) fd = Some (w, None) ->
  exists rv st', call m st fd rest = Some (rv, st') /\ out st' = out st /\ null st' = true /\
    rdefaultlmts st' = rdefaultlmts st /\ lmts st' = denote_limits (lmts st) fd /\
    estk st' = denote_estk (estk st) fd /\
    (rv = SuccessE /\ tail (fstk st') = rest \/
     rv = ContinueE /\ weight fd = 2%nat /\
     fstk st' = mkFnc (StoreBinary 0) (fd_p fd) (fd_s fd) :: rest /\
     denote_item m (lmts st') (estk st') [] (mkFnc (StoreBinary 0) (fd_p fd) (fd_s fd)) = Some (w, None)).
Proof.
  intros Hn Hs Hi. unfold call, denote_limits, denote_estk, weight, denote_item in *.
  destruct (fd_f fd) as [n|n| | | | | |w'| | | | |].
  1,2: case_decide as Hk; [|done]; try destruct Hk as [Hk _];
    repeat rewrite ?elem_of_cons, ?elem_of_nil in Hk; destruct_or! Hk; subst n;
    do 2 eexists; (split;
    [unfold storeInt; cbn;
     unfold storeBinary0, storeBinary1, storeBinary2, storeBinary4, storeBinary8; cbn;
     rewrite Hn; reflexivity|cbn; rewrite ?Hs; by auto 10]).
  3: { unfold storeUtf8, utf8_error in *. case_decide as Hr; [|done].
    destruct (stringlimit (lmts st) <? _); [done|]. destruct (max_value_without_crc_32 <? _); [done|].
    do 2 eexists. split; [reflexivity|]. split_and!; try done. right. split_and!; try done.
    cbn [fd_f fd_p fd_s lmts estk set_fstk]. by rewrite decide_True by (split; [in_list|done]). }
  7: { unfold popExtStack. destruct (estk st) as [|x es] eqn:He; [done|].
    do 2 eexists. split; [reflexivity|]. cbn -[removelast]. rewrite Hs. auto 10. }
  all: unfold storeBool, storeString, storeBitvec, storeBitvecContinue, storeCross,
    storeCrossContinue; rewrite ?Hn; do 2 eexists; (split; [reflexivity|]); cbn; rewrite ?Hs; auto 10.
Qed.

Lemma serializer_clear_loop (m : mem) (fuel : nat) (st : Ser) (bs : list Z) :
  null st = true -> den m st = Some (bs, None) -> (stack_weight (fstk st) < fuel)%nat ->
  exists st', run_loop fuel m st = Some (true, st') /\ fstk st' = [] /\ estk st' = [] /\
    out st' = out st /\ lmts st' = rdefaultlmts st.
Proof.
  revert st bs. induction fuel as [|fuel IH]; intros st bs Hn Hden Hf; [lia|]. cbn [run_loop].
  destruct (fstk st) as [|fd rest] eqn:Hs.
  { unfold den in Hden. rewrite Hs in Hden. cbn in Hden. case_decide; [|done]. by eauto 10. }
  destruct (den_item m st fd rest bs None Hs Hden) as (w & e' & Hi & H).
  destruct e' as [e'|]; [by destruct H|]. destruct H as (r & Hr & ->).
  destruct (call_null m st fd rest w Hn Hs Hi)
    as (rv & st1 & -> & Ho & Hn1 & Hd & Hl & Hes & Hrv).
  cbn [mbind option_bind]. rewrite stack_weight_cons in Hf. pose proof (weight_pos fd).
  destruct Hrv as [[-> Ht]|(-> & Hw & Ht & Hi1)].
  - destruct (IH (set_fstk st1 (tail (fstk st1))) r) as (st' & -> & H'); cbn [null fstk set_fstk].
    + done.
    + unfold den. cbn [lmts estk tmpstr fstk set_fstk]. rewrite Ht, Hl, Hes. by apply denote_tmp.
    + rewrite Ht. lia.
    + exists st'. split; [done|]. cbn in H'. by rewrite <- Ho, <- Hd.
  - destruct (IH st1 (w ++ r)) as (st' & -> & H').
    + done.
    + unfold den. rewrite Ht. apply denote_tmp, denote_cons; [done|].
      unfold denote_limits, denote_estk. cbn [fd_f]. by rewrite Hl, Hes.
    + rewrite Ht, stack_weight_cons. cbn. lia.
    + exists st'. split; [done|]. by rewrite <- Ho, <- Hd.
Qed.

(** ** Properties *)

(** C26: what is written does not depend on how it is cut into buffers. For any items whose
    sources exist, pushed on a fresh serializer (the first one last), and any sequence of buffer
    sizes below 2^31, what the [int] that [run] returns can count, the concatenation of the buffers
    written by successive [run]s is the reference encoding [encode], cut at the total size of the
    buffers. When that size is enough, the serializer
    ends empty, or, if an item exceeds a limit, the run that meets it returns [-1] with that
    item's error, after exactly the items before it have been written. *)
Theorem serializer_chunk_invariant (m : mem) (l : Limits) (its : list item) (bs : list Z)
    (e : option Errors) (bls : list Z) :
  encode m l its = Some (bs, e) -> Forall (in_range 31) bls -> bls <> [] ->
  let st := push_items its (fresh l) in
  exists ok st',
    run_all (S (stack_weight (fstk st))) m st bls =
      Some (take (Z.to_nat (sum_sizes bls)) bs, ok, st') /\
    if Z.of_nat (length bs) <=? sum_sizes bls then
      match e with
      | None => ok = true /\ empty st' = true
      | Some e => ok = false /\ err st' = Some e
      end
    else ok = true /\ empty st' = false.
Proof.
  intros Henc Hbls Hne st.
  assert (den m st = Some (bs, e)) as Hden.
  { unfold st. rewrite push_items_fresh. by apply encode_denote. }
  destruct (run_all_spec m (S (stack_weight (fstk st))) st bls bs e Hbls Hden ltac:(lia) Hne)
    as (ok & st' & -> & H).
  exists ok, st'. split; [done|]. unfold empty. case_match eqn:E.
  - destruct e; [done|]. by destruct H as [-> ->].
  - destruct H as [-> H]. split; [done|]. destruct (fstk st') eqn:Es; [|done].
    unfold den in H. rewrite Es in H. cbn in H. case_decide; [|done].
    injection H as Hl _. apply (f_equal length) in Hl.
    apply Z.leb_gt in E. rewrite length_drop in Hl. cbn in Hl.
    pose proof (sum_sizes_nonneg bls Hbls). lia.
Qed.

Lemma serializer_chunk_invariant_witness :
  let m := fun id => match id with
                     | O => Some (OString [104; 105])
                     | 1%nat => Some (OBytes [1; 2; 3; 4])
                     | _ => Some (OBits [true; false; true]) end in
  let st := push_items [ItString 0; ItInt 4 1; ItBitvec 2] (fresh unlimited) in
  exists st', run_all (S (stack_weight (fstk st))) m st [1; 0; 3; 2; 64] =
    Some ([9; 129; 104; 105; 1; 2; 3; 4; 9; 194; 5], true, st') /\ empty st' = true.
Proof.
  intros m st.
  destruct (serializer_chunk_invariant m unlimited [ItString 0; ItInt 4 1; ItBitvec 2]
    [9; 129; 104; 105; 1; 2; 3; 4; 9; 194; 5] None [1; 0; 3; 2; 64]) as (ok & st' & H & H').
  - reflexivity.
  - repeat constructor; by vm_compute.
  - done.
  - destruct H' as [-> H']. exists st'. split; [exact H|exact H'].
Defined.

(** [clear] on a serializer whose pending items exceed no limit drops them all: the stack
    and [estk] are empty afterwards, nothing is written and the limits are reset. *)
Theorem serializer_clear_empties (m : mem) (st : Ser) (bs : list Z) :
  den m st = Some (bs, None) ->
  exists st', clear (S (stack_weight (fstk st))) m st = Some (true, st') /\
    empty st' = true /\ estk st' = [] /\ out st' = [] /\ lmts st' = rdefaultlmts st.
Proof.
  intros Hden. unfold clear.
  destruct (serializer_clear_loop m (S (stack_weight (fstk st)))
    (mkSer (fstk st) (estk st) (tmpstr st) (lmts st) (rdefaultlmts st) (err st) [] 0 true) bs
    eq_refl Hden (Nat.lt_succ_diag_r _)) as (st' & -> & Hs & He & Ho & Hl).
  exists st'. unfold empty. rewrite Hs. done.
Qed.

Lemma serializer_clear_empties_witness :
  let m := fun _ => Some (OString [104; 105]) in
  let st := push_items [ItString 0; ItUtf8 1 2] (fresh unlimited) in
  exists st', clear (S (stack_weight (fstk st))) m st = Some (true, st') /\ empty st' = true.
Proof.
  intros m st. destruct (serializer_clear_empties m st [9; 129; 104; 105; 104; 105; 0])
    as (st' & H & H' & _); [reflexivity|]. by exists st'.
Defined.

(** [clear] does not always empty the serializer: [storeUtf8] does not test for the null
    buffer, so with an item that exceeds the string limit pending, [clear] stops there with
    that item and everything behind it still scheduled. *)
Theorem serializer_clear_stops_at_utf8 :
  let m := fun _ => Some (OString [104; 105]) in
  let st := push_items [ItUtf8 0 2; ItString 1] (fresh (mkLimits 1 1 1)) in
  exists st', clear 9 m st = Some (false, st') /\ fstk st' = fstk st /\
    err st' = Some ERR_UTF8_LIMIT.
Proof. eexists. split; [reflexivity|]. done. Qed.

End Serializer.
