(* ===== verification/Deserializer.v ===== *)
(** * The binary deserializer

    solid/serialization/src/binary.cpp and solid/serialization/binary.hpp, class
    [DeserializerBase]: the callback machine that reads what [SerializerBase] wrote, one
    buffer after another. Modelled are the callbacks for integers, booleans, raw binary,
    strings, zero-terminated strings, bit vectors and cross integers, the limits, and the
    [run] loop. The objects being filled live in a heap that the callbacks write.

    Memory allocation is taken to succeed; only a string size above [max_size()] throws. *)

From stdpp Require Import gmap.
From S2P Require Import Prelude Bits BinaryBasic SerialBase.
Import Bits BinaryBasic SerialBase.

Module Deserializer.

(** ** Data *)

Inductive fnc :=
  | LoadBinary (n : nat)
  | LoadInt (n : nat)
  | LoadBool
  | LoadString
  | LoadBinaryStringCheck
  | LoadBinaryString
  | LoadUtf8
  | LoadBitvec
  | LoadBitvecBegin
  | LoadBitvecContinue
  | LoadCross (w : Z)
  | LoadCrossContinue
  | LoadCrossDone (w : Z)
  | SetStringLimit | SetStreamLimit | SetContainerLimit.

Record FncData := mkFnc { fd_f : fnc; fd_p : ptr; fd_s : Z }.

(** What the callbacks read and write besides the buffer. [estk] has its bottom first. *)
Record Env := mkEnv {
  heap : gmap nat obj;
  estk : list Z;
  tmpstr : list Z;
  lmts : Limits
}.

(** [fstk] has its top first; [inp] is the buffer from [cpb] to [be]; [null] says that
    [cpb] is [nullptr]. *)
Record Des := mkDes {
  fstk : list FncData;
  env : Env;
  rdefaultlmts : Limits;
  err : option Errors;
  inp : list Z;
  null : bool
}.

Definition set_heap (e : Env) (x : gmap nat obj) : Env := mkEnv x (estk e) (tmpstr e) (lmts e).
Definition set_estk (e : Env) (x : list Z) : Env := mkEnv (heap e) x (tmpstr e) (lmts e).
Definition set_tmpstr (e : Env) (x : list Z) : Env := mkEnv (heap e) (estk e) x (lmts e).
Definition set_lmts (e : Env) (x : Limits) : Env := mkEnv (heap e) (estk e) (tmpstr e) x.

Definition set_fstk (st : Des) (x : list FncData) : Des :=
  mkDes x (env st) (rdefaultlmts st) (err st) (inp st) (null st).
Definition set_env (st : Des) (x : Env) : Des :=
  mkDes (fstk st) x (rdefaultlmts st) (err st) (inp st) (null st).
Definition set_err (st : Des) (x : Errors) : Des :=
  mkDes (fstk st) (env st) (rdefaultlmts st) (Some x) (inp st) (null st).
(** [cpb += n] *)
Definition advance (st : Des) (n : nat) : Des :=
  mkDes (fstk st) (env st) (rdefaultlmts st) (err st) (drop n (inp st)) (null st).
Definition resetLimits (st : Des) : Des := set_env st (set_lmts (env st) (rdefaultlmts st)).
Definition push (st : Des) (fd : FncData) : Des := set_fstk st (fd :: fstk st).

(** ** The objects *)

(** Overwriting [bs] from offset [off] on. *)
Definition splice {A} (l : list A) (off : nat) (bs : list A) : list A :=
  take off l ++ bs ++ drop (off + length bs) l.

(** [memcpy] to [p]; [None] when the bytes are not all inside the object. *)
Definition write_bytes (h : gmap nat obj) (p : ptr) (bs : list Z) : option (gmap nat obj) :=
  match p with
  | PObj id off =>
      match h !! id with
      | Some (OBytes os) =>
          if decide (off + length bs <= length os)%nat
          then Some (<[id := OBytes (splice os off bs)]> h) else None
      | _ => None
      end
  | _ => None
  end.

Definition write_uint (e : Env) (p : ptr) (v : Z) : option Env :=
  match p with
  | PObj id 0 =>
      match heap e !! id with
      | Some (OUint _) => Some (set_heap e (<[id := OUint v]> (heap e)))
      | _ => None
      end
  | PEst k => if decide (k < length (estk e))%nat then Some (set_estk e (<[k := v]> (estk e))) else None
  | _ => None
  end.

Definition read_string (h : gmap nat obj) (p : ptr) : option (nat * list Z) :=
  match p with
  | PObj id 0 => match h !! id with Some (OString bs) => Some (id, bs) | _ => None end
  | _ => None
  end.

Definition read_bits (h : gmap nat obj) (p : ptr) : option (nat * list bool) :=
  match p with
  | PObj id 0 => match h !! id with Some (OBits bs) => Some (id, bs) | _ => None end
  | _ => None
  end.

(** The top of [estk] and its replacement. *)
Definition est_top (es : list Z) : option Z := last es.
Definition est_set (es : list Z) (v : Z) : list Z := removelast es ++ [v].

(** ** Callbacks *)

(** [Throws] is an exception, [Invalid] an invalid memory access or, for the loop, the end
    of the fuel. *)
Inductive outcome (A : Type) := Ok (a : A) | Throws | Invalid.
#[global] Arguments Ok {A} a.
#[global] Arguments Throws {A}.
#[global] Arguments Invalid {A}.

Definition callback := Des -> FncData -> list FncData -> outcome (ReturnValues * Des).

Definition need {A B} (x : option A) (k : A -> outcome B) : outcome B :=
  match x with Some a => k a | None => Invalid end.

Definition buffer_len (w : Z) (st : Des) : Z := wrap w (Z.of_nat (length (inp st))).

(** Copy [n] bytes to [_rfd.p], advance both pointers and replace the callback data. *)
Definition copy (st : Des) (fd : FncData) (rest : list FncData)
    (n : nat) (f : fnc) (s : Z) (rv : ReturnValues) : outcome (ReturnValues * Des) :=
  need (write_bytes (heap (env st)) (fd_p fd) (take n (inp st))) (fun h =>
    Ok (rv, advance (set_fstk (set_env st (set_heap (env st) h))
                       (mkFnc f (ptr_add (fd_p fd) n) s :: rest)) n)).

Definition loadBinary0 : callback := fun st fd rest =>
  if null st then Ok (SuccessE, st) else
  let len := buffer_len 32 st in
  let len := if fd_s fd <? len then wrap 32 (fd_s fd) else len in
  let s := fd_s fd - len in
  copy st fd rest (Z.to_nat len) (fd_f fd) s (if s =? 0 then SuccessE else WaitE).

(** The bytes of a complete value: nothing of [_rfd] changes. *)
Definition copy_last (st : Des) (fd : FncData) (n : nat) : outcome (ReturnValues * Des) :=
  need (write_bytes (heap (env st)) (fd_p fd) (take n (inp st))) (fun h =>
    Ok (SuccessE, advance (set_env st (set_heap (env st) h)) n)).

Definition loadBinary1 : callback := fun st fd rest =>
  if null st then Ok (SuccessE, st) else
  let len := buffer_len 32 st in
  if 1 <=? len then copy_last st fd 1
  else Ok (WaitE, st).

Definition loadBinary2 : callback := fun st fd rest =>
  if null st then Ok (SuccessE, st) else
  let len := buffer_len 32 st in
  if 2 <=? len then copy_last st fd 2
  else if 1 <=? len then copy st fd rest 1 (LoadBinary 1) (fd_s fd) WaitE
  else Ok (WaitE, st).

Definition loadBinary3 : callback := fun st fd rest =>
  if null st then Ok (SuccessE, st) else
  let len := buffer_len 32 st in
  if 3 <=? len then copy_last st fd 3
  else if 2 <=? len then copy st fd rest 2 (LoadBinary 1) (fd_s fd) WaitE
  else if 1 <=? len then copy st fd rest 1 (LoadBinary 2) (fd_s fd) WaitE
  else Ok (WaitE, st).

Definition loadBinary4 : callback := fun st fd rest =>
  if null st then Ok (SuccessE, st) else
  let len := buffer_len 32 st in
  if 4 <=? len then copy_last st fd 4
  else if 3 <=? len then copy st fd rest 3 (LoadBinary 1) (fd_s fd) WaitE
  else if 2 <=? len then copy st fd rest 2 (LoadBinary 2) (fd_s fd) WaitE
  else if 1 <=? len then copy st fd rest 1 (LoadBinary 3) (fd_s fd) WaitE
  else Ok (WaitE, st).

Definition loadBinary5 : callback := fun st fd rest =>
  if null st then Ok (SuccessE, st) else
  let len := buffer_len 32 st in
  if 5 <=? len then copy_last st fd 5
  else if 4 <=? len then copy st fd rest 4 (LoadBinary 1) (fd_s fd) WaitE
  else if 3 <=? len then copy st fd rest 3 (LoadBinary 2) (fd_s fd) WaitE
  else if 2 <=? len then copy st fd rest 2 (LoadBinary 3) (fd_s fd) WaitE
  else if 1 <=? len then copy st fd rest 1 (LoadBinary 4) (fd_s fd) WaitE
  else Ok (WaitE, st).

Definition loadBinary6 : callback := fun st fd rest =>
  if null st then Ok (SuccessE, st) else
  let len := buffer_len 32 st in
  if 6 <=? len then copy_last st fd 6
  else if 5 <=? len then copy st fd rest 5 (LoadBinary 1) (fd_s fd) WaitE
  else if 4 <=? len then copy st fd rest 4 (LoadBinary 2) (fd_s fd) WaitE
  else if 3 <=? len then copy st fd rest 3 (LoadBinary 3) (fd_s fd) WaitE
  else if 2 <=? len then copy st fd rest 2 (LoadBinary 4) (fd_s fd) WaitE
  else if 1 <=? len then copy st fd rest 1 (LoadBinary 5) (fd_s fd) WaitE
  else Ok (WaitE, st).

Definition loadBinary7 : callback := fun st fd rest =>
  if null st then Ok (SuccessE, st) else
  let len := buffer_len 32 st in
  if 7 <=? len then copy_last st fd 7
  else if 6 <=? len then copy st fd rest 6 (LoadBinary 1) (fd_s fd) WaitE
  else if 5 <=? len then copy st fd rest 5 (LoadBinary 2) (fd_s fd) WaitE
  else if 4 <=? len then copy st fd rest 4 (LoadBinary 3) (fd_s fd) WaitE
  else if 3 <=? len then copy st fd rest 3 (LoadBinary 4) (fd_s fd) WaitE
  else if 2 <=? len then copy st fd rest 2 (LoadBinary 5) (fd_s fd) WaitE
  else if 1 <=? len then copy st fd rest 1 (LoadBinary 6) (fd_s fd) WaitE
  else Ok (WaitE, st).

Definition loadBinary8 : callback := fun st fd rest =>
  if null st then Ok (SuccessE, st) else
  let len := buffer_len 32 st in
  if 8 <=? len then copy_last st fd 8
  else if 7 <=? len then copy st fd rest 7 (LoadBinary 1) (fd_s fd) WaitE
  else if 6 <=? len then copy st fd rest 6 (LoadBinary 2) (fd_s fd) WaitE
  else if 5 <=? len then copy st fd rest 5 (LoadBinary 3) (fd_s fd) WaitE
  else if 4 <=? len then copy st fd rest 4 (LoadBinary 4) (fd_s fd) WaitE
  else if 3 <=? len then copy st fd rest 3 (LoadBinary 5) (fd_s fd) WaitE
  else if 2 <=? len then copy st fd rest 2 (LoadBinary 6) (fd_s fd) WaitE
  else if 1 <=? len then copy st fd rest 1 (LoadBinary 7) (fd_s fd) WaitE
  else Ok (WaitE, st).

Definition loadBinary (n : nat) : callback := fun st fd rest =>
  match n with
  | 0%nat => loadBinary0 st fd rest
  | 1%nat => loadBinary1 st fd rest
  | 2%nat => loadBinary2 st fd rest
  | 3%nat => loadBinary3 st fd rest
  | 4%nat => loadBinary4 st fd rest
  | 5%nat => loadBinary5 st fd rest
  | 6%nat => loadBinary6 st fd rest
  | 7%nat => loadBinary7 st fd rest
  | 8%nat => loadBinary8 st fd rest
  | _ => Invalid
  end.

(** [load<intN_t>] and [load<uintN_t>]: set the size and the callback, then load. *)
Definition loadInt (n : nat) : callback := fun st fd rest =>
  let fd := mkFnc (LoadBinary n) (fd_p fd) (Z.of_nat n) in
  loadBinary n (set_fstk st (fd :: rest)) fd rest.

Definition loadBool : callback := fun st fd rest =>
  if null st then Ok (SuccessE, st) else
  if 1 <=? buffer_len 32 st then
    let b := if default 0 (inp st !! 0%nat) =? 1 then 1 else 0 in
    need (write_bytes (heap (env st)) (fd_p fd) [b]) (fun h =>
      Ok (SuccessE, advance (set_env st (set_heap (env st) h)) 1))
  else Ok (WaitE, st).

(** Pushing an [ExtendedData] and the pointer to its first value. *)
Definition push_est (st : Des) (v : Z) : Des * ptr :=
  (set_env st (set_estk (env st) (estk (env st) ++ [v])), PEst (length (estk (env st)))).

Definition loadString : callback := fun st fd rest =>
  if null st then Ok (SuccessE, st) else
  let '(st, pe) := push_est st 0 in
  Ok (ContinueE, set_fstk st
    (mkFnc (LoadCross 64) pe (InvalidSize 64) ::
     mkFnc LoadBinaryStringCheck (fd_p fd) (InvalidSize 64) ::
     mkFnc LoadBinaryString (fd_p fd) (InvalidSize 64) :: rest)).

(** The length check: [InvalidSize] passes, anything else must carry its bit count. *)
Definition check_len (len : Z) : option Z :=
  if len =? InvalidSize 64 then Some len
  else let '(crcsz, ok) := check_value_with_crc64 len in if ok then Some crcsz else None.

Definition loadBinaryStringCheck : callback := fun st fd rest =>
  if null st then Ok (SuccessE, st) else
  need (est_top (estk (env st))) (fun len =>
    match check_len len with
    | None => Ok (FailureE, set_err st ERR_STRING_MAX_LIMIT)
    | Some ul =>
        let st := set_env st (set_estk (env st) (est_set (estk (env st)) ul)) in
        if stringlimit (lmts (env st)) <=? ul then Ok (FailureE, set_err st ERR_STRING_LIMIT)
        else Ok (SuccessE, st)
    end).

Definition loadBinaryString : callback := fun st fd rest =>
  if null st then
    match estk (env st) with
    | [] => Invalid
    | es => Ok (SuccessE, set_env st (set_estk (env st) (removelast es)))
    end
  else
  need (est_top (estk (env st))) (fun ul =>
  need (read_string (heap (env st)) (fd_p fd)) (fun '(id, ps) =>
    let len := buffer_len 64 st in
    let len := if ul <? len then ul else len in
    let h := <[id := OString (ps ++ take (Z.to_nat len) (inp st))]> (heap (env st)) in
    let st := advance (set_env st (set_heap (env st) h)) (Z.to_nat len) in
    let ul := ul - len in
    let es := estk (env st) in
    if negb (ul =? 0) then Ok (WaitE, set_env st (set_estk (env st) (est_set es ul)))
    else Ok (SuccessE, set_env st (set_estk (env st) (removelast es))))).

(** [cstring::nlen], that is [strnlen]. *)
Fixpoint nlen (s : list Z) (maxlen : nat) : nat :=
  match maxlen, s with
  | S maxlen, c :: s => if c =? 0 then 0 else S (nlen s maxlen)
  | _, _ => 0
  end.

(** [loadUtf8] does not test [cpb]. *)
Definition loadUtf8 : callback := fun st fd rest =>
  need (read_string (heap (env st)) (fd_p fd)) (fun '(id, ps) =>
    let len := buffer_len 32 st in
    let slen := nlen (inp st) (Z.to_nat len) in
    let totlen := wrap 64 (Z.of_nat (length ps) + Z.of_nat slen) in
    if stringlimit (lmts (env st)) <? totlen then Ok (FailureE, set_err st ERR_UTF8_LIMIT)
    else if max_value_without_crc_32 <? totlen then Ok (FailureE, set_err st ERR_UTF8_MAX_LIMIT)
    else
      let h := <[id := OString (ps ++ take slen (inp st))]> (heap (env st)) in
      let st := advance (set_env st (set_heap (env st) h)) slen in
      if Z.of_nat slen =? len then Ok (WaitE, st)
      else Ok (SuccessE, advance st 1)).

Definition loadBitvec : callback := fun st fd rest =>
  if null st then Ok (SuccessE, st) else
  let '(st, pe) := push_est st 0 in
  Ok (ContinueE, set_fstk st
    (mkFnc (LoadCross 64) pe (InvalidSize 64) ::
     mkFnc LoadBitvecBegin (fd_p fd) (fd_s fd) :: rest)).

(** [std::vector<bool>::resize(len, false)] *)
Definition resize {A} (x : A) (l : list A) (n : nat) : list A := take n l ++ replicate (n - length l) x.

Definition loadBitvecBegin : callback := fun st fd rest =>
  if null st then
    match estk (env st) with
    | [] => Invalid
    | es => Ok (SuccessE, set_env st (set_estk (env st) (removelast es)))
    end
  else
  need (est_top (estk (env st))) (fun len =>
    match check_len len with
    | None => Ok (FailureE, set_err st ERR_STRING_MAX_LIMIT)
    | Some len =>
        let st := set_env st (set_estk (env st) (est_set (estk (env st)) len)) in
        if containerlimit (lmts (env st)) <=? len then Ok (FailureE, set_err st ERR_CONTAINER_LIMIT)
        else
          need (read_bits (heap (env st)) (fd_p fd)) (fun '(id, pbs) =>
            let h := <[id := OBits (resize false pbs (Z.to_nat len))]> (heap (env st)) in
            Ok (ContinueE, set_fstk (set_env st (set_heap (env st) h))
                             (mkFnc LoadBitvecContinue (fd_p fd) 0 :: rest)))
    end).

(** The [while] loop of [loadBitvecContinue] for [n] more bits: the bits read, the final
    [bitoff] and the buffer from [cpb] on. *)
Fixpoint load_bits (n : nat) (inp : list Z) (bitoff : Z) : list bool * Z * list Z :=
  match n, inp with
  | S n, c :: inp' =>
      let b := negb (Z.land c (Z.shiftl 1 bitoff) =? 0) in
      let bitoff := bitoff + 1 in
      let '(bs, bo, i) := if bitoff =? 8 then load_bits n inp' 0 else load_bits n inp bitoff in
      (b :: bs, bo, i)
  | _, _ => ([], bitoff, inp)
  end.

Definition loadBitvecContinue : callback := fun st fd rest =>
  if null st then
    match estk (env st) with
    | [] => Invalid
    | es => Ok (SuccessE, set_env st (set_estk (env st) (removelast es)))
    end
  else
  need (est_top (estk (env st))) (fun len =>
  need (read_bits (heap (env st)) (fd_p fd)) (fun '(id, pbs) =>
    let '(bs, bitoff, i) := load_bits (Z.to_nat (len - fd_s fd)) (inp st) 0 in
    let s := fd_s fd + Z.of_nat (length bs) in
    if negb (s <=? Z.of_nat (length pbs)) then Invalid else
    let h := <[id := OBits (splice pbs (Z.to_nat (fd_s fd)) bs)]> (heap (env st)) in
    let st := advance (set_fstk (set_env st (set_heap (env st) h))
                         (mkFnc (fd_f fd) (fd_p fd) s :: rest))
                (length (inp st) - length i) in
    if s <? len then Ok (WaitE, st)
    else
      let st := if negb (bitoff =? 0) then advance st 1 else st in
      Ok (SuccessE, set_env st (set_estk (env st) (removelast (estk (env st))))))).

Definition crossLoad (w : Z) (ps : list Z) : loaded :=
  match w with
  | 8 => crossLoad8 ps | 16 => crossLoad16 ps | 32 => crossLoad32 ps | _ => crossLoad64 ps
  end.

(** [std::string::max_size()] *)
Definition string_max_size : Z := 2 ^ 63 - 1.

(** [loadCross<uintW_t>]: directly from the buffer, or through [tmpstr] when the buffer ends
    before the value. The 8-bit overload keeps [size_t] lengths and copies only the header,
    the others truncate the lengths to [unsigned] and copy the whole buffer. *)
Definition loadCross (w : Z) : callback := fun st fd rest =>
  if null st then Ok (SuccessE, st) else
  let len := buffer_len (if w =? 8 then 64 else 32) st in
  if len =? 0 then Ok (WaitE, st) else
  need (crossSizeAt (inp st)) (fun vsz =>
    let vsz := if w =? 8 then vsz else wrap 32 vsz in
    if vsz <=? len then
      match crossLoad w (inp st) with
      | Loaded v adv =>
          need (write_uint (env st) (fd_p fd) v) (fun e =>
            Ok (SuccessE, advance (set_env st e) (Z.to_nat adv)))
      | LoadNull => Ok (FailureE, set_err st ERR_CROSS_VALUE_SMALL)
      | LoadOverrun => Invalid
      end
    else if string_max_size <? vsz then Throws
    else
      let n := if w =? 8 then 1%nat else Z.to_nat len in
      let tmp := splice (resize 0 (tmpstr (env st)) (Z.to_nat vsz)) 0 (take n (inp st)) in
      Ok (ContinueE, advance (set_fstk (set_env st (set_tmpstr (env st) tmp))
        (mkFnc LoadCrossContinue (fd_p fd) (Z.of_nat n) ::
         mkFnc (LoadCrossDone w) (fd_p fd) (Z.of_nat n) :: rest)) n)).

Definition loadCrossContinue : callback := fun st fd rest =>
  if null st then Ok (SuccessE, st) else
  let len := buffer_len 64 st in
  let tmp := tmpstr (env st) in
  let toread := wrap 64 (Z.of_nat (length tmp) - fd_s fd) in
  let toread := if len <? toread then len else toread in
  let s := fd_s fd + toread in
  let st := advance (set_fstk
      (set_env st (set_tmpstr (env st)
        (splice tmp (Z.to_nat (fd_s fd)) (take (Z.to_nat toread) (inp st)))))
      (mkFnc (fd_f fd) (fd_p fd) s :: rest)) (Z.to_nat toread) in
  if s <? Z.of_nat (length tmp) then Ok (WaitE, st) else Ok (SuccessE, st).

Definition loadCrossDone (w : Z) : callback := fun st fd rest =>
  if null st then Ok (SuccessE, st) else
  match crossLoad w (tmpstr (env st)) with
  | Loaded v adv =>
      need (write_uint (env st) (fd_p fd) v) (fun e => Ok (SuccessE, set_env st e))
  | LoadNull => Ok (FailureE, set_err st ERR_CROSS_VALUE_SMALL)
  | LoadOverrun => Invalid
  end.

Definition upd_limits (l : Limits) (f : fnc) (s : Z) : Limits :=
  match f with
  | SetStringLimit => mkLimits s (containerlimit l) (streamlimit l)
  | SetStreamLimit => mkLimits (stringlimit l) (containerlimit l) s
  | SetContainerLimit => mkLimits (stringlimit l) s (streamlimit l)
  | _ => l
  end.

Definition setLimit : callback := fun st fd rest =>
  Ok (SuccessE, set_env st (set_lmts (env st) (upd_limits (lmts (env st)) (fd_f fd) (fd_s fd)))).

(** The call through the function pointer [rfd.f]. *)
Definition call (st : Des) (fd : FncData) (rest : list FncData) : outcome (ReturnValues * Des) :=
  match fd_f fd with
  | LoadBinary n => loadBinary n st fd rest
  | LoadInt n => loadInt n st fd rest
  | LoadBool => loadBool st fd rest
  | LoadString => loadString st fd rest
  | LoadBinaryStringCheck => loadBinaryStringCheck st fd rest
  | LoadBinaryString => loadBinaryString st fd rest
  | LoadUtf8 => loadUtf8 st fd rest
  | LoadBitvec => loadBitvec st fd rest
  | LoadBitvecBegin => loadBitvecBegin st fd rest
  | LoadBitvecContinue => loadBitvecContinue st fd rest
  | LoadCross w => loadCross w st fd rest
  | LoadCrossContinue => loadCrossContinue st fd rest
  | LoadCrossDone w => loadCrossDone w st fd rest
  | SetStringLimit | SetStreamLimit | SetContainerLimit => setLimit st fd rest
  end.

(** ** [run] *)

(** [Ok (true, st)] leaves through [Done], [Ok (false, st)] through a failure. *)
Fixpoint run_loop (fuel : nat) (st : Des) : outcome (bool * Des) :=
  match fuel with
  | O => Invalid
  | S fuel =>
      match fstk st with
      | [] => Ok (true, resetLimits st)
      | fd :: rest =>
          match call st fd rest with
          | Ok (ContinueE, st) => run_loop fuel st
          | Ok (SuccessE, st) => run_loop fuel (set_fstk st (tail (fstk st)))
          | Ok (WaitE, st) => Ok (true, st)
          | Ok (FailureE, st) => Ok (false, resetLimits st)
          | Throws => Throws
          | Invalid => Invalid
          end
      end
  end.

(** [run(_pb, _bl)] on the buffer [pb]: the returned count, an [int] ([-1] on
    failure), and the state. *)
Definition run (fuel : nat) (st : Des) (pb : list Z) : outcome (Z * Des) :=
  match run_loop fuel (mkDes (fstk st) (env st) (rdefaultlmts st) (err st) pb false) with
  | Ok (ok, st) =>
      Ok (if (ok : bool) then signed 32 (Z.of_nat (length pb) - Z.of_nat (length (inp st))) else -1, st)
  | Throws => Throws
  | Invalid => Invalid
  end.

(** [clear()]: [run(nullptr, 0, nullptr)]. *)
Definition clear (fuel : nat) (st : Des) : outcome (bool * Des) :=
  run_loop fuel (mkDes (fstk st) (env st) (rdefaultlmts st) (err st) [] true).

Definition empty (st : Des) : bool := match fstk st with [] => true | _ => false end.

(** ** The interface of [Deserializer]: scheduling items

    Pushing a string clears it at once, before anything is read. *)

Definition clear_string (id : nat) (h : gmap nat obj) : gmap nat obj :=
  match h !! id with Some (OString _) => <[id := OString []]> h | _ => h end.
Definition with_cleared (st : Des) (id : nat) : Des :=
  set_env st (set_heap (env st) (clear_string id (heap (env st)))).

Definition doPushStringLimit (st : Des) (v : Z) : Des := push st (mkFnc SetStringLimit PNull v).
Definition doPushStreamLimit (st : Des) (v : Z) : Des := push st (mkFnc SetStreamLimit PNull v).
Definition doPushContainerLimit (st : Des) (v : Z) : Des := push st (mkFnc SetContainerLimit PNull v).
Definition push_int (n : nat) (st : Des) (id : nat) : Des :=
  push st (mkFnc (LoadInt n) (PObj id 0) (InvalidSize 64)).
Definition push_bool (st : Des) (id : nat) : Des :=
  push st (mkFnc LoadBool (PObj id 0) (InvalidSize 64)).
Definition push_string (st : Des) (id : nat) : Des :=
  push (with_cleared st id) (mkFnc LoadString (PObj id 0) (InvalidSize 64)).
Definition push_bitvec (st : Des) (id : nat) : Des := push st (mkFnc LoadBitvec (PObj id 0) 0).
Definition pushBinary (st : Des) (id : nat) (sz : Z) : Des :=
  push st (mkFnc (LoadBinary 0) (PObj id 0) sz).
Definition pushUtf8 (st : Des) (id : nat) : Des :=
  push (with_cleared st id) (mkFnc LoadUtf8 (PObj id 0) 0).
Definition pushCross (w : Z) (st : Des) (id : nat) : Des :=
  push st (mkFnc (LoadCross w) (PObj id 0) (InvalidSize 64)).

Inductive item :=
  | ItInt (n id : nat)
  | ItBool (id : nat)
  | ItString (id : nat)
  | ItBitvec (id : nat)
  | ItBinary (id : nat) (sz : Z)
  | ItUtf8 (id : nat)
  | ItCross (w : Z) (id : nat)
  | ItStringLimit (v : Z)
  | ItStreamLimit (v : Z)
  | ItContainerLimit (v : Z).

Definition push_item (it : item) (st : Des) : Des :=
  match it with
  | ItInt n id => push_int n st id
  | ItBool id => push_bool st id
  | ItString id => push_string st id
  | ItBitvec id => push_bitvec st id
  | ItBinary id sz => pushBinary st id sz
  | ItUtf8 id => pushUtf8 st id
  | ItCross w id => pushCross w st id
  | ItStringLimit v => doPushStringLimit st v
  | ItStreamLimit v => doPushStreamLimit st v
  | ItContainerLimit v => doPushContainerLimit st v
  end.

(** What is to be read first is pushed last. *)
Definition push_items (its : list item) (st : Des) : Des := foldr push_item st its.

Definition fresh (l : Limits) (h : gmap nat obj) : Des := mkDes [] (mkEnv h [] [] l) l None [] false.

(** ** The reference parser

    [parse] reads a stack of callbacks against the whole input at once, item by item, with
    no buffers to resume from. [PMore] is an input that ends too early, [PFail] lists the
    errors that may be reported (more than one only where the code's choice depends on how
    the input was cut), [PBad] marks stacks that the interface never builds. *)

Inductive cres := CDone (v : Z) (rest : list Z) | CMore | CFail | CThrow.

Definition cross_len (w : Z) (inp : list Z) : Z :=
  let vsz := default 0 (crossSizeAt inp) in if w =? 8 then vsz else wrap 32 vsz.

Definition parse_cross (w : Z) (inp : list Z) : cres :=
  match inp with
  | [] => CMore
  | _ =>
      let vsz := cross_len w inp in
      if string_max_size <? vsz then CThrow
      else if vsz <=? Z.of_nat (length inp) then
        match crossLoad w inp with
        | Loaded v adv => CDone v (drop (Z.to_nat adv) inp)
        | _ => CFail
        end
      else CMore
  end.

Definition take_bytes (n : Z) (inp : list Z) : option (list Z * list Z) :=
  if n <=? Z.of_nat (length inp) then Some (take (Z.to_nat n) inp, drop (Z.to_nat n) inp) else None.

Definition byte_bits (b : Z) : list bool := map (Z.testbit b) [0; 1; 2; 3; 4; 5; 6; 7].
Definition unpack_bits (n : Z) (bytes : list Z) : list bool :=
  take (Z.to_nat n) (mjoin (map byte_bits bytes)).
Definition bits_bytes (n : Z) : Z := (n + 7) / 8.

Definition binary_size (n : nat) (s : Z) : Z := if (n =? 0)%nat then s else Z.of_nat n.

Inductive ires := IDone (e : Env) (rest : list Z) | IMore | IFail (es : list Errors) | IThrow | IBad.

Definition norm (e : Env) : Env := set_tmpstr e [].

(** [n] raw bytes into the object at [p]. *)
Definition parse_bytes (e : Env) (p : ptr) (n : Z) (inp : list Z) : ires :=
  match write_bytes (heap e) p (replicate (Z.to_nat n) 0) with
  | None => IBad
  | Some _ =>
      match take_bytes n inp with
      | None => IMore
      | Some (bs, rest) =>
          match write_bytes (heap e) p bs with
          | Some h => IDone (norm (set_heap e h)) rest
          | None => IBad
          end
      end
  end.

Definition utf8_errors (l : Limits) : list Errors :=
  if stringlimit l <=? max_value_without_crc_32 then [ERR_UTF8_LIMIT]
  else [ERR_UTF8_LIMIT; ERR_UTF8_MAX_LIMIT].

Definition parse_utf8 (e : Env) (p : ptr) (inp : list Z) : ires :=
  match read_string (heap e) p with
  | None => IBad
  | Some (id, ps) =>
      if 2 ^ 63 <=? Z.of_nat (length ps) then IBad else
      let n := nlen inp (length inp) in
      let tot := Z.of_nat (length ps) + Z.of_nat n in
      if (stringlimit (lmts e) <? tot) || (max_value_without_crc_32 <? tot)
      then IFail (utf8_errors (lmts e))
      else if (n =? length inp)%nat then IMore
      else IDone (norm (set_heap e (<[id := OString (ps ++ take n inp)]> (heap e)))) (drop (S n) inp)
  end.

(** The characters of a string whose length is known. *)
Definition parse_chars (e : Env) (p : ptr) (ul : Z) (inp : list Z) : ires :=
  match read_string (heap e) p with
  | None => IBad
  | Some (id, ps) =>
      match take_bytes ul inp with
      | None => IMore
      | Some (bs, rest) => IDone (norm (set_heap e (<[id := OString (ps ++ bs)]> (heap e)))) rest
      end
  end.

(** The bits of a bit vector from position [s] on. *)
Definition parse_bits (e : Env) (p : ptr) (s len : Z) (inp : list Z) : ires :=
  match read_bits (heap e) p with
  | None => IBad
  | Some (id, pbs) =>
      match take_bytes (bits_bytes (len - s)) inp with
      | None => IMore
      | Some (bytes, rest) =>
          let bits := splice pbs (Z.to_nat s) (unpack_bits (len - s) bytes) in
          IDone (norm (set_heap e (<[id := OBits bits]> (heap e)))) rest
      end
  end.

Definition resized (e : Env) (p : ptr) (len : Z) : Env :=
  match read_bits (heap e) p with
  | Some (id, pbs) => set_heap e (<[id := OBits (resize false pbs (Z.to_nat len))]> (heap e))
  | None => e
  end.

Definition checked_len (limit len : Z) (elim : Errors) : Z + Errors :=
  match check_len len with
  | None => inr ERR_STRING_MAX_LIMIT
  | Some ul => if limit <=? ul then inr elim else inl ul
  end.

Definition parse_item (e : Env) (fd : FncData) (inp : list Z) : ires :=
  let p := fd_p fd in let s := fd_s fd in
  match fd_f fd with
  | LoadBinary n =>
      if decide ((n <= 8)%nat /\ in_range 64 s) then parse_bytes e p (binary_size n s) inp else IBad
  | LoadInt n =>
      if decide (n ∈ [1; 2; 4; 8]%nat) then parse_bytes e p (Z.of_nat n) inp else IBad
  | LoadBool =>
      match write_bytes (heap e) p [if default 0 (inp !! 0%nat) =? 1 then 1 else 0], inp with
      | Some h, _ :: rest => IDone (norm (set_heap e h)) rest
      | Some _, [] => IMore
      | None, _ => IBad
      end
  | LoadString =>
      match read_string (heap e) p, parse_cross 64 inp with
      | None, _ => IBad
      | _, CDone v rest =>
          match checked_len (stringlimit (lmts e)) v ERR_STRING_LIMIT with
          | inr er => IFail [er]
          | inl ul => parse_chars e p ul rest
          end
      | _, CMore => IMore | _, CFail => IFail [ERR_CROSS_VALUE_SMALL] | _, CThrow => IThrow
      end
  | LoadBinaryStringCheck =>
      match est_top (estk e) with
      | None => IBad
      | Some len =>
          match checked_len (stringlimit (lmts e)) len ERR_STRING_LIMIT with
          | inr er => IFail [er]
          | inl ul => IDone (norm (set_estk e (est_set (estk e) ul))) inp
          end
      end
  | LoadBinaryString =>
      match est_top (estk e) with
      | None => IBad
      | Some ul =>
          if decide (0 <= ul) then parse_chars (set_estk e (removelast (estk e))) p ul inp else IBad
      end
  | LoadUtf8 => parse_utf8 e p inp
  | LoadBitvec =>
      match read_bits (heap e) p, parse_cross 64 inp with
      | None, _ => IBad
      | _, CDone v rest =>
          match checked_len (containerlimit (lmts e)) v ERR_CONTAINER_LIMIT with
          | inr er => IFail [er]
          | inl len => parse_bits (resized e p len) p 0 len rest
          end
      | _, CMore => IMore | _, CFail => IFail [ERR_CROSS_VALUE_SMALL] | _, CThrow => IThrow
      end
  | LoadBitvecBegin =>
      match est_top (estk e) with
      | None => IBad
      | Some len =>
          if decide (0 <= len) then
            match checked_len (containerlimit (lmts e)) len ERR_CONTAINER_LIMIT with
            | inr er => IFail [er]
            | inl len => parse_bits (resized (set_estk e (removelast (estk e))) p len) p 0 len inp
            end
          else IBad
      end
  | LoadBitvecContinue =>
      match est_top (estk e), read_bits (heap e) p with
      | Some len, Some (_, pbs) =>
          if decide (0 <= s <= len /\ Z.of_nat (length pbs) = len)
          then parse_bits (set_estk e (removelast (estk e))) p s len inp else IBad
      | _, _ => IBad
      end
  | LoadCross w =>
      if decide (w ∈ [8; 16; 32; 64]) then
        match write_uint e p 0, parse_cross w inp with
        | None, _ => IBad
        | _, CDone v rest =>
            match write_uint e p v with Some e => IDone (norm e) rest | None => IBad end
        | _, CMore => IMore | _, CFail => IFail [ERR_CROSS_VALUE_SMALL] | _, CThrow => IThrow
        end
      else IBad
  | LoadCrossContinue =>
      if decide (0 <= s < Z.of_nat (length (tmpstr e)) /\ Z.of_nat (length (tmpstr e)) < 2 ^ 64) then
        match take_bytes (Z.of_nat (length (tmpstr e)) - s) inp with
        | None => IMore
        | Some (bs, rest) => IDone (set_tmpstr e (take (Z.to_nat s) (tmpstr e) ++ bs)) rest
        end
      else IBad
  | LoadCrossDone w =>
      match crossLoad w (tmpstr e) with
      | Loaded v _ => match write_uint e p v with Some e => IDone (norm e) inp | None => IBad end
      | LoadNull => IFail [ERR_CROSS_VALUE_SMALL]
      | LoadOverrun => IBad
      end
  | SetStringLimit | SetStreamLimit | SetContainerLimit =>
      IDone (norm (set_lmts e (upd_limits (lmts e) (fd_f fd) s))) inp
  end.

Inductive pres := PDone (e : Env) (rest : list Z) | PMore | PFail (es : list Errors) | PThrow | PBad.

Fixpoint parse (e : Env) (stk : list FncData) (inp : list Z) : pres :=
  match stk with
  | [] => match estk e with [] => PDone (norm e) inp | _ => PBad end
  | fd :: rest =>
      match parse_item e fd inp with
      | IDone e inp => parse e rest inp
      | IMore => PMore
      | IFail es => PFail es
      | IThrow => PThrow
      | IBad => PBad
      end
  end.

(** The callbacks still to be called, counting those that an item pushes. *)
Definition weight (fd : FncData) : nat :=
  match fd_f fd with LoadString | LoadBitvec => 6 | LoadCross _ => 3 | LoadBitvecBegin => 2 | _ => 1 end.
Definition stack_weight (stk : list FncData) : nat := sum_list_with weight stk.

End Deserializer.
