(* ===== verification/DeserializerProofs.v ===== *)
(** * Correctness of the binary deserializer

    The callback machine of [Deserializer] against its reference parser, for any cutting of
    the input into buffers. *)

From stdpp Require Import gmap.
From S2P Require Import Prelude Bits BinaryBasic SerialBase Deserializer.
Import Bits BinaryBasic SerialBase Deserializer.

Module DeserializerProofs.

(** ** Lists and bytes *)

Lemma splice_length {A} (l bs : list A) (off : nat) :
  (off + length bs <= length l)%nat -> length (splice l off bs) = length l.
Proof. intros H. unfold splice. rewrite !length_app, length_take, length_drop. lia. Qed.

Lemma splice_app {A} (l a b : list A) (off : nat) :
  (off + length (a ++ b) <= length l)%nat ->
  splice (splice l off a) (off + length a) b = splice l off (a ++ b).
Proof.
  rewrite length_app. intros H. unfold splice.
  rewrite <- app_assoc. rewrite (app_assoc (take off l) a).
  rewrite take_app_length' by (rewrite length_app, length_take; lia).
  rewrite !app_assoc. f_equal.
  rewrite <- (app_assoc (take off l) a (drop _ l)), (app_assoc (take off l) a).
  rewrite drop_app_ge by (rewrite length_app, length_take; lia).
  rewrite drop_drop, length_app, length_take, length_app. f_equal. lia.
Qed.

Lemma splice_nil {A} (l : list A) (off : nat) : splice l off [] = l.
Proof. unfold splice. cbn [length app]. by rewrite Nat.add_0_r, take_drop. Qed.

Lemma write_bytes_app (h : gmap nat obj) (p : ptr) (a b : list Z) (h' : gmap nat obj) :
  write_bytes h p (a ++ b) = Some h' ->
  exists h1, write_bytes h p a = Some h1 /\ write_bytes h1 (ptr_add p (length a)) b = Some h'.
Proof.
  destruct p as [|id off|k]; cbn [write_bytes ptr_add]; [done| |done].
  destruct (h !! id) as [[os| | |]|]; try done. case_decide as Hl; [|done].
  rewrite length_app in Hl. intros [= <-]. rewrite decide_True by lia.
  eexists. split; [reflexivity|]. rewrite lookup_insert_eq.
  rewrite splice_length by lia. rewrite decide_True by lia.
  by rewrite insert_insert_eq, splice_app by (rewrite length_app; lia).
Qed.

(** Whether a write succeeds depends only on the number of bytes. *)
Lemma write_bytes_len (h : gmap nat obj) (p : ptr) (a b : list Z) h' :
  length a = length b -> write_bytes h p a = Some h' -> exists h'', write_bytes h p b = Some h''.
Proof.
  intros Hl. destruct p as [|id off|k]; cbn [write_bytes]; [done| |done].
  destruct (h !! id) as [[os| | |]|]; try done. case_decide; [|done].
  intros _. rewrite decide_True by lia. eauto.
Qed.

Lemma take_bytes_app (n : Z) (a b : list Z) :
  Z.of_nat (length a) <= n ->
  take_bytes n (a ++ b) =
  match take_bytes (n - Z.of_nat (length a)) b with
  | Some (bs, rest) => Some (a ++ bs, rest)
  | None => None
  end.
Proof.
  intros Hn. unfold take_bytes. rewrite length_app. case_Z; try lia; [|done].
  rewrite take_app_ge, drop_app_ge by lia.
  by replace (Z.to_nat n - length a)%nat with (Z.to_nat (n - Z.of_nat (length a))) by lia.
Qed.

Lemma take_bytes_all (n : Z) (a b : list Z) :
  Z.of_nat (length a) = n -> take_bytes n (a ++ b) = Some (a, b).
Proof.
  intros <-. unfold take_bytes. rewrite (proj2 (Z.leb_le _ _)) by (rewrite length_app; lia).
  by rewrite Nat2Z.id, take_app_length, drop_app_length.
Qed.

(** *** Cross integers *)

Lemma get_bytes_take (w : Z) (n k : nat) (s acc : Z) (ps : list Z) :
  (n <= k)%nat -> get_bytes w n s acc (take k ps) = get_bytes w n s acc ps.
Proof.
  revert k s acc ps; induction n as [|n IH]; intros k s acc ps Hk; [done|].
  destruct k as [|k]; [lia|]. destruct ps as [|b ps]; [done|]. cbn. apply IH. lia.
Qed.

Definition widths : list Z := [8; 16; 32; 64].

Lemma crossLoad_in (w : Z) : w ∈ widths -> In (w, crossLoad w) cross_loads.
Proof.
  unfold widths. repeat rewrite ?elem_of_cons, ?elem_of_nil. intros Hw.
  destruct_or! Hw; subst w; cbn; auto.
Qed.

Lemma cross_size_range (h : Z) (ps : list Z) :
  in_range 8 h ->
  crossSizeAt (h :: ps) = Some (2 ^ 64 - 1) /\ (forall w, crossLoad w (h :: ps) = LoadNull) \/
  exists n, crossSizeAt (h :: ps) = Some n /\ 1 <= n <= 32 /\
            check_value_with_crc8 h = (n - 1, true).
Proof.
  intros Hh. unfold crossSizeAt. destruct (check_value_with_crc8 h) as [v ok] eqn:E.
  pose proof (check8_range _ _ _ Hh E). destruct ok.
  - right. exists (v + 1). rewrite wrap_small by (unfold in_range; lia).
    split; [done|]. split; [lia|]. by replace (v + 1 - 1) with v by lia.
  - left. split; [done|]. intros w. unfold crossLoad, crossLoad8, crossLoad16, crossLoad32, crossLoad64.
    rewrite E. repeat case_match; done.
Qed.

Lemma load_case_take (w sz : Z) (n k : nat) (ps : list Z) :
  (n <= k)%nat -> load_case w sz n (take k ps) = load_case w sz n ps.
Proof. intros H. unfold load_case. by rewrite get_bytes_take. Qed.

(** [crossLoad] looks only at the bytes that [crossSize] announces. *)
Lemma crossLoad_take (w : Z) (ps : list Z) (k : nat) (n : Z) :
  w ∈ widths -> is_bytes ps -> crossSizeAt ps = Some n -> n <= Z.of_nat k ->
  crossLoad w (take k ps) = crossLoad w ps.
Proof.
  intros Hw Hb Hn Hk. destruct ps as [|h ps]; [done|]. apply Forall_cons in Hb as [Hh _].
  destruct (cross_size_range h ps Hh) as [[E Hc]|(n' & E & Hr & Hc)]; rewrite E in Hn; simplify_eq.
  { destruct k as [|k]; [lia|]. cbn [take]. rewrite (Hc w).
    destruct (cross_size_range h (take k ps) Hh) as [[_ ->]|(m & E' & Hm & _)]; [done|].
    change (crossSizeAt (h :: ps) = Some m) in E'. rewrite E in E'. injection E' as <-. lia. }
  destruct k as [|k]; [lia|]. cbn [take].
  unfold widths in Hw. repeat rewrite ?elem_of_cons, ?elem_of_nil in Hw.
  assert (forall c, (Z.of_nat c <= n - 1) -> (c <= k)%nat) as Hc' by lia.
  destruct_or! Hw; subst w; cbn [crossLoad crossLoad8 crossLoad16 crossLoad32 crossLoad64];
    rewrite Hc; repeat (case_match; try done); apply load_case_take, Hc'; lia.
Qed.

Lemma cross_len_app (w : Z) (a b : list Z) : a <> [] -> cross_len w (a ++ b) = cross_len w a.
Proof. by destruct a. Qed.

Lemma wrap32_small (n : Z) : 1 <= n <= 32 -> wrap 32 n = n.
Proof. intros H. apply wrap_small. unfold in_range. lia. Qed.

Lemma crossLoad_take_len (w : Z) (ps : list Z) (k : nat) :
  w ∈ widths -> is_bytes ps -> 1 <= Z.of_nat k -> cross_len w ps <= Z.of_nat k ->
  crossLoad w (take k ps) = crossLoad w ps.
Proof.
  intros Hw Hb H1 Hk. destruct ps as [|h ps]; [by rewrite take_nil|].
  pose proof Hb as Hb'. apply Forall_cons in Hb' as [Hh _].
  destruct (cross_size_range h ps Hh) as [[E Hc]|(n & E & Hr & _)].
  - destruct k as [|k]; [lia|]. cbn [take]. rewrite Hc.
    destruct (cross_size_range h (take k ps) Hh) as [[_ ->]|(m & E' & Hm & _)]; [done|].
    change (crossSizeAt (h :: ps) = Some m) in E'. rewrite E in E'. injection E' as <-. lia.
  - apply (crossLoad_take w _ _ n Hw Hb E). unfold cross_len in Hk. rewrite E in Hk. cbn in Hk.
    destruct (w =? 8); [done|]. by rewrite wrap32_small in Hk.
Qed.

(** What a load of a complete value gives. *)
Lemma crossLoad_complete (w : Z) (ps : list Z) :
  w ∈ widths -> is_bytes ps -> ps <> [] -> cross_len w ps <= Z.of_nat (length ps) ->
  match crossLoad w ps with
  | Loaded v adv => in_range w v /\ adv = cross_len w ps /\ 1 <= adv
  | LoadNull => True
  | LoadOverrun => False
  end.
Proof.
  intros Hw Hb Hne Hle. destruct ps as [|h ps]; [done|].
  pose proof Hb as Hb'. apply Forall_cons in Hb' as [Hh _].
  destruct (cross_size_range h ps Hh) as [[E Hc]|(n & E & Hr & _)]; [by rewrite Hc|].
  assert (sound_load w (h :: ps) (crossLoad w (h :: ps))) as Hs.
  { unfold widths in Hw. repeat rewrite ?elem_of_cons, ?elem_of_nil in Hw.
    destruct_or! Hw; subst w; auto using crossLoad8_sound, crossLoad16_sound, crossLoad32_sound,
      crossLoad64_sound. }
  assert (cross_len w (h :: ps) = n) as Hn.
  { unfold cross_len. rewrite E. cbn [default]. by rewrite wrap32_small; [destruct (w =? 8)|]. }
  rewrite Hn in *. destruct (crossLoad w (h :: ps)) as [v adv| |]; [|done|].
  - destruct Hs as (Hv & _ & _ & Hadv). rewrite E in Hadv. injection Hadv as <-. split_and!; done || lia.
  - specialize (Hs n E). lia.
Qed.

Lemma parse_cross_app (w : Z) (a b : list Z) :
  a <> [] ->
  parse_cross w (a ++ b) =
  if string_max_size <? cross_len w a then CThrow
  else if cross_len w a <=? Z.of_nat (length (a ++ b)) then
    match crossLoad w (a ++ b) with
    | Loaded v adv => CDone v (drop (Z.to_nat adv) (a ++ b))
    | _ => CFail
    end
  else CMore.
Proof. by destruct a. Qed.

(** *** Bits *)

Lemma land_bit (c k : Z) : 0 <= k -> negb (Z.land c (Z.shiftl 1 k) =? 0) = Z.testbit c k.
Proof.
  intros Hk. destruct (Z.testbit c k) eqn:E.
  - destruct (Z.eqb_spec (Z.land c (Z.shiftl 1 k)) 0) as [H|]; [|done].
    apply (f_equal (fun z => Z.testbit z k)) in H. autorewrite with bits in H.
    rewrite E, Z.sub_diag in H. done.
  - replace (Z.land c (Z.shiftl 1 k)) with 0; [done|]. symmetry. bitwise i.
    destruct (decide (i = k)) as [->|]; [by rewrite E|].
    replace (Z.testbit 1 (i - k)) with false; [apply andb_false_r|].
    destruct (Z.ltb_spec i k); [by rewrite Z.testbit_neg_r by lia|].
    symmetry. apply (testbit_high 1); [done|lia].
Qed.

Lemma load_bits_cons (n : nat) (c : Z) (inp : list Z) (bo : Z) :
  0 <= bo ->
  load_bits (S n) (c :: inp) bo =
  let '(bs, b, i) := if bo + 1 =? 8 then load_bits n inp 0 else load_bits n (c :: inp) (bo + 1) in
  (Z.testbit c bo :: bs, b, i).
Proof. intros H. cbn [load_bits]. by rewrite land_bit. Qed.

Lemma unpack_cons (n : nat) (c : Z) (inp : list Z) :
  unpack_bits (Z.of_nat (8 + n)) (c :: inp) = byte_bits c ++ unpack_bits (Z.of_nat n) inp.
Proof. unfold unpack_bits. rewrite !Nat2Z.id. done. Qed.

Lemma load_bits_zero (inp : list Z) (bo : Z) : load_bits 0 inp bo = ([], bo, inp).
Proof. done. Qed.

Lemma load_bits_nil (n : nat) (bo : Z) : load_bits n [] bo = ([], bo, []).
Proof. by destruct n. Qed.

(** [load_bits] for [n] bits of a buffer: all of them when the buffer holds them, else as many
    as there are. *)
Lemma load_bits_spec (n : nat) (inp : list Z) :
  exists bo i, load_bits n inp 0 = (unpack_bits (Z.of_nat n) inp, bo, i) /\
    (exists used, i = drop used inp /\ (used <= length inp)%nat) /\
    if decide (bits_bytes (Z.of_nat n) <= Z.of_nat (length inp)) then
      length (unpack_bits (Z.of_nat n) inp) = n /\
      (if bo =? 0 then i else drop 1 i) = drop (Z.to_nat (bits_bytes (Z.of_nat n))) inp
    else
      length (unpack_bits (Z.of_nat n) inp) = (8 * length inp)%nat /\ (8 * length inp < n)%nat /\
      bo = 0 /\ i = [].
Proof.
  revert n. induction inp as [|c inp IH]; intros n.
  { exists 0, []. rewrite load_bits_nil. unfold unpack_bits. cbn [map mjoin list_join]. rewrite take_nil.
    split; [done|]. split; [by exists 0%nat|]. unfold bits_bytes. cbn [length]. case_decide as H.
    - assert (n = 0%nat) as ->; [|done].
      assert (Z.of_nat n + 7 < 8); [|lia]. apply Z.nle_gt. intros H'.
      apply (Z.div_le_mono _ _ 8) in H'; [|lia]. change (8 / 8) with 1 in H'. lia.
    - split; [done|]. split; [|done]. destruct n; [|lia]. destruct H. by vm_compute. }
  destruct (decide (8 <= n)%nat) as [Hn|Hn].
  - destruct (IH (n - 8)%nat) as (bo & i & E & (used & Hi & Hu) & H).
    exists bo, i. replace n with (8 + (n - 8))%nat by lia. set (n' := (n - 8)%nat) in *.
    rewrite unpack_cons. split.
    { cbn [Nat.add]. repeat (rewrite load_bits_cons by done;
        match goal with |- context [if ?a =? ?b then _ else _] =>
          let c := eval vm_compute in (a =? b) in change (a =? b) with c; cbv iota end).
      rewrite E. done. }
    split; [exists (S used); cbn [length]; split; [done|lia]|].
    assert (bits_bytes (Z.of_nat (8 + n')) = bits_bytes (Z.of_nat n') + 1) as Hb.
    { unfold bits_bytes. rewrite Nat2Z.inj_add. change (Z.of_nat 8) with (1 * 8).
      replace (1 * 8 + Z.of_nat n' + 7) with (Z.of_nat n' + 7 + 1 * 8) by lia.
      by rewrite Z.div_add by lia. }
    assert (0 <= bits_bytes (Z.of_nat n')) by (unfold bits_bytes; apply Z.div_pos; lia).
    rewrite Hb, length_app. cbn [length]. change (length (byte_bits c)) with 8%nat.
    destruct (decide (bits_bytes (Z.of_nat n') <= Z.of_nat (length inp))).
    + rewrite decide_True by lia. destruct H as [Hl Hd]. split; [lia|].
      rewrite Hd. by replace (Z.to_nat (bits_bytes (Z.of_nat n') + 1))
        with (S (Z.to_nat (bits_bytes (Z.of_nat n')))) by lia.
    + rewrite decide_False by lia. destruct H as (Hl & Hlt & -> & ->). split_and!; done || lia.
  - assert (forall k, (k < 8)%nat -> bits_bytes (Z.of_nat k) <= Z.of_nat (length (c :: inp))) as Hle.
    { intros k Hk. cbn [length]. unfold bits_bytes.
      assert ((Z.of_nat k + 7) / 8 < 2); [|lia]. apply Z.div_lt_upper_bound; lia. }
    do 8 (destruct n as [|n]; [
      do 2 eexists; split;
      [repeat (rewrite load_bits_cons by done;
        match goal with |- context [if ?a =? ?b then _ else _] =>
          let c := eval vm_compute in (a =? b) in change (a =? b) with c; cbv iota end);
       rewrite load_bits_zero; reflexivity
      |split; [exists 0%nat; split; [reflexivity|lia]|
       rewrite decide_True by (apply Hle; lia); split; reflexivity]]|]).
    lia.
Qed.

Lemma mjoin_bits_length (a : list Z) : length (mjoin (map byte_bits a)) = (8 * length a)%nat.
Proof.
  induction a as [|c a IH]; [done|]. cbn [map].
  change (mjoin (byte_bits c :: map byte_bits a)) with (byte_bits c ++ mjoin (map byte_bits a)).
  rewrite length_app, IH. cbn [length]. change (length (byte_bits c)) with 8%nat. lia.
Qed.

Lemma mjoin_bits_app (a b : list Z) :
  mjoin (map byte_bits (a ++ b)) = mjoin (map byte_bits a) ++ mjoin (map byte_bits b).
Proof. rewrite map_app. apply join_app. Qed.

Lemma unpack_app (n : Z) (a b : list Z) :
  8 * Z.of_nat (length a) <= n ->
  unpack_bits n (a ++ b) = unpack_bits n a ++ unpack_bits (n - 8 * Z.of_nat (length a)) b.
Proof.
  intros Hn. unfold unpack_bits. rewrite mjoin_bits_app, take_app, mjoin_bits_length.
  f_equal. f_equal. lia.
Qed.

Lemma bits_bytes_le (n : Z) : 0 <= n -> n <= 8 * bits_bytes n.
Proof.
  intros Hn. unfold bits_bytes. pose proof (Z.div_mod (n + 7) 8 ltac:(lia)).
  pose proof (Z.mod_pos_bound (n + 7) 8 ltac:(lia)). lia.
Qed.

Lemma bits_bytes_nonneg (n : Z) : 0 <= n -> 0 <= bits_bytes n.
Proof. intros. apply Z.div_pos; lia. Qed.

Lemma bits_bytes_sub (n k : Z) : bits_bytes (n - 8 * k) = bits_bytes n - k.
Proof.
  unfold bits_bytes. replace (n - 8 * k + 7) with (n + 7 + (- k) * 8) by lia.
  rewrite Z.div_add by lia. lia.
Qed.

Lemma unpack_take (n : Z) (a : list Z) :
  0 <= n -> bits_bytes n <= Z.of_nat (length a) ->
  unpack_bits n (take (Z.to_nat (bits_bytes n)) a) = unpack_bits n a.
Proof.
  intros Hn Hle. unfold unpack_bits.
  rewrite <- (take_drop (Z.to_nat (bits_bytes n)) a) at 2.
  rewrite mjoin_bits_app, take_app_le; [done|].
  rewrite mjoin_bits_length, length_take. pose proof (bits_bytes_le n Hn).
  pose proof (bits_bytes_nonneg n Hn). lia.
Qed.

(** ** The reference parser *)

Lemma resized_tmp (e : Env) (p : ptr) (len : Z) (t : list Z) :
  resized (set_tmpstr e t) p len = set_tmpstr (resized e p len) t.
Proof. unfold resized. cbn [heap set_tmpstr]. by destruct (read_bits (heap e) p) as [[]|]. Qed.

Lemma write_uint_tmp (e : Env) (p : ptr) (v : Z) (t : list Z) :
  write_uint (set_tmpstr e t) p v = (e' ← write_uint e p v; Some (set_tmpstr e' t)).
Proof.
  destruct p as [|id [|off]|k]; try done; cbn [write_uint heap estk set_tmpstr].
  - by destruct (heap e !! id) as [[]|].
  - by case_decide.
Qed.

Lemma parse_bits_tmp (e : Env) (p : ptr) (s len : Z) (inp t : list Z) :
  parse_bits (resized (set_tmpstr e t) p len) p s len inp = parse_bits (resized e p len) p s len inp.
Proof. by rewrite resized_tmp. Qed.

(** Between items the contents of [tmpstr] do not matter. *)
Lemma parse_norm (e : Env) (stk : list FncData) (inp : list Z) :
  parse (norm e) stk inp <> PBad -> parse e stk inp = parse (norm e) stk inp.
Proof.
  destruct stk as [|fd rest]; [done|]. cbn [parse].
  enough (parse_item (norm e) fd inp = IBad \/ parse_item e fd inp = parse_item (norm e) fd inp)
    as [E|E] by (rewrite E; done).
  unfold parse_item. destruct (fd_f fd) as [| | | | | | | | | |w| |w| | |]; try (by right).
  - right. unfold norm. cbn [heap lmts set_tmpstr]. destruct (read_bits (heap e) (fd_p fd)); [|done].
    destruct (parse_cross 64 inp); try done. destruct (checked_len _ _ _); [|done].
    symmetry. apply parse_bits_tmp.
  - right. unfold norm. cbn [estk lmts set_tmpstr]. destruct (est_top (estk e)); [|done].
    case_decide; [|done]. destruct (checked_len _ _ _); [|done]. symmetry.
    apply (parse_bits_tmp (set_estk e (removelast (estk e)))).
  - right. case_decide; [|done]. unfold norm. rewrite !write_uint_tmp.
    destruct (write_uint e (fd_p fd) 0); [|done]. cbn [mbind option_bind].
    destruct (parse_cross w inp); try done. rewrite write_uint_tmp.
    by destruct (write_uint e (fd_p fd) v).
  - left. rewrite decide_False; [done|]. cbn. lia.
  - left. cbn. unfold crossLoad. by repeat case_match.
Qed.

Lemma parse_bytes_split (e : Env) (p : ptr) (n : Z) (a : list Z) (fut0 : list Z) :
  Z.of_nat (length a) <= n -> parse_bytes e p n (a ++ fut0) <> IBad ->
  exists h1, write_bytes (heap e) p a = Some h1 /\
    forall fut, parse_bytes (set_heap e h1) (ptr_add p (length a)) (n - Z.of_nat (length a)) fut =
                parse_bytes e p n (a ++ fut).
Proof.
  intros Hn Hg. unfold parse_bytes in *.
  destruct (write_bytes (heap e) p (replicate (Z.to_nat n) 0)) as [h0|] eqn:E; [|done].
  destruct (write_bytes_len (heap e) p (replicate (Z.to_nat n) 0) (a ++ replicate (Z.to_nat n - length a) 0) _
    ltac:(rewrite length_app, !length_replicate; lia) E) as [h2 E2].
  destruct (write_bytes_app _ _ _ _ _ E2) as (h1 & H1 & H2). exists h1. split; [done|].
  intros fut. cbn [heap set_heap].
  replace (Z.to_nat (n - Z.of_nat (length a))) with (Z.to_nat n - length a)%nat by lia.
  rewrite H2, take_bytes_app by done. unfold take_bytes. case_Z; [|done].
  set (bs := take _ fut).
  destruct (write_bytes_len (heap e) p (replicate (Z.to_nat n) 0) (a ++ bs) _
    ltac:(unfold bs; rewrite length_app, length_replicate, length_take; lia) E) as [h3 E3].
  destruct (write_bytes_app _ _ _ _ _ E3) as (h1' & H1' & H3).
  rewrite H1 in H1'. injection H1' as <-. by rewrite E3, H3.
Qed.

(** ** One callback *)

Definition frame (st st' : Des) : Prop :=
  rdefaultlmts st' = rdefaultlmts st /\ null st' = null st /\
  exists k, inp st' = drop k (inp st).

Inductive stepped (st : Des) (fut : list Z) (P : pres) : ReturnValues -> Des -> Prop :=
  | stepped_success st' :
      parse (env st') (tail (fstk st')) (inp st' ++ fut) = P ->
      (stack_weight (tail (fstk st')) < stack_weight (fstk st))%nat ->
      stepped st fut P SuccessE st'
  | stepped_continue st' :
      parse (env st') (fstk st') (inp st' ++ fut) = P ->
      (stack_weight (fstk st') < stack_weight (fstk st))%nat ->
      stepped st fut P ContinueE st'
  | stepped_wait st' :
      parse (env st') (fstk st') fut = P -> inp st' = [] -> (fut = [] -> P = PMore) ->
      fstk st' <> [] -> (stack_weight (fstk st') <= stack_weight (fstk st))%nat ->
      stepped st fut P WaitE st'
  | stepped_failure st' es er :
      P = PFail es -> er ∈ es -> err st' = Some er ->
      stepped st fut P FailureE st'.

Lemma d_weight_pos (fd : FncData) : (0 < weight fd)%nat.
Proof. unfold weight. destruct (fd_f fd); lia. Qed.

Lemma d_stack_weight_cons (fd : FncData) (stk : list FncData) :
  stack_weight (fd :: stk) = (weight fd + stack_weight stk)%nat.
Proof. done. Qed.

Lemma d_set_fstk_id (st : Des) (stk : list FncData) : fstk st = stk -> st = set_fstk st stk.
Proof. by intros <-; destruct st. Qed.

Lemma length_lt_1 {A} (l : list A) : ~ 1 <= Z.of_nat (length l) -> l = [].
Proof. destruct l; [done|]. cbn [length]. lia. Qed.

Lemma length_ge_1 {A} (l : list A) : 1 <= Z.of_nat (length l) -> exists x l', l = x :: l'.
Proof. destruct l; [cbn; lia|]. by eauto. Qed.

Lemma est_top_set (es : list Z) (v : Z) : est_top (est_set es v) = Some v.
Proof. apply last_snoc. Qed.

Lemma removelast_set (es : list Z) (v : Z) : removelast (est_set es v) = removelast es.
Proof. apply removelast_last. Qed.

Lemma read_string_insert (h : gmap nat obj) (p : ptr) (id : nat) (ps qs : list Z) :
  read_string h p = Some (id, ps) -> read_string (<[id := OString qs]> h) p = Some (id, qs).
Proof.
  destruct p as [|id' [|off]|k]; cbn [read_string]; try done.
  destruct (h !! id') as [[]|]; try done. intros [= -> ->]. by rewrite lookup_insert_eq.
Qed.

Lemma parse_chars_split (e e' : Env) (p : ptr) (id : nat) (ps a : list Z) (ul : Z) (i : list Z) :
  read_string (heap e) p = Some (id, ps) -> Z.of_nat (length a) <= ul ->
  norm e' = norm (set_heap e (<[id := OString (ps ++ a)]> (heap e))) ->
  parse_chars e' p (ul - Z.of_nat (length a)) i = parse_chars e p ul (a ++ i).
Proof.
  intros Hr Hle He. unfold parse_chars. rewrite Hr, take_bytes_app by done.
  assert (heap e' = <[id := OString (ps ++ a)]> (heap e)) as Hh by apply (f_equal heap He).
  assert (estk e' = estk e) as Hes by apply (f_equal estk He).
  assert (lmts e' = lmts e) as Hl by apply (f_equal lmts He).
  rewrite Hh, (read_string_insert _ _ _ _ _ Hr).
  destruct (take_bytes _ i) as [[bs r]|]; [|done]. unfold norm, set_tmpstr, set_heap.
  cbn [heap estk lmts]. by rewrite Hes, Hl, <- app_assoc, insert_insert_eq.
Qed.

Lemma parse_cross_range (w : Z) (i : list Z) (v : Z) (r : list Z) :
  w ∈ widths -> is_bytes i -> parse_cross w i = CDone v r -> in_range w v.
Proof.
  intros Hw Hb. unfold parse_cross. destruct i as [|c i]; [done|]. case_Z; try done.
  pose proof (crossLoad_complete w (c :: i) Hw Hb ltac:(done) ltac:(done)) as Hc.
  destruct (crossLoad w (c :: i)); try done. intros [= <- _]. by destruct Hc.
Qed.

Lemma checked_len_nonneg (limit len ul : Z) (elim : Errors) :
  0 <= len -> checked_len limit len elim = inl ul -> 0 <= ul.
Proof.
  intros Hlen. unfold checked_len, check_len. destruct (len =? InvalidSize 64).
  - destruct (limit <=? len); [done|]. by intros [= <-].
  - unfold check_value_with_crc64. repeat case_match; try done; intros [= <-]; simplify_eq.
    by apply Z.shiftr_nonneg.
Qed.

(** The callbacks that read a cross integer into a new entry of [estk]. *)
Lemma parse_cross_est (e : Env) (stk : list FncData) (i : list Z) :
  parse (set_estk e (estk e ++ [0]))
    (mkFnc (LoadCross 64) (PEst (length (estk e))) (InvalidSize 64) :: stk) i =
  match parse_cross 64 i with
  | CDone v r => parse (norm (set_estk e (estk e ++ [v]))) stk r
  | CMore => PMore | CFail => PFail [ERR_CROSS_VALUE_SMALL] | CThrow => PThrow
  end.
Proof.
  cbn [parse]. unfold parse_item. cbn [fd_f fd_p fd_s]. rewrite decide_True by in_list.
  cbn [write_uint estk set_estk]. rewrite length_app. cbn [length].
  rewrite decide_True by lia. destruct (parse_cross 64 i) as [v r| | |]; try done.
  rewrite decide_True by lia. by rewrite insert_app_r_alt, Nat.sub_diag by lia.
Qed.

Lemma parse_cons (e : Env) (fd : FncData) (rest : list FncData) (i : list Z) :
  parse e (fd :: rest) i =
  match parse_item e fd i with
  | IDone e i => parse e rest i
  | IMore => PMore | IFail es => PFail es | IThrow => PThrow | IBad => PBad
  end.
Proof. done. Qed.

Lemma parse_string_tail (e : Env) (p : ptr) (v s1 s2 : Z) (stk : list FncData) (i : list Z) :
  0 <= v ->
  parse (norm (set_estk e (estk e ++ [v])))
    (mkFnc LoadBinaryStringCheck p s1 :: mkFnc LoadBinaryString p s2 :: stk) i =
  match checked_len (stringlimit (lmts e)) v ERR_STRING_LIMIT with
  | inr er => PFail [er]
  | inl ul =>
      match parse_chars e p ul i with
      | IDone e i => parse e stk i
      | IMore => PMore | IFail es => PFail es | IThrow => PThrow | IBad => PBad
      end
  end.
Proof.
  intros Hv. cbn [parse]. unfold parse_item at 1.
  cbn [fd_f fd_p fd_s estk set_estk norm set_tmpstr lmts]. unfold est_top at 1. rewrite last_snoc.
  destruct (checked_len _ v _) as [ul|er] eqn:El; [|done].
  apply checked_len_nonneg in El; [|done].
  unfold parse_item. cbn [fd_f fd_p estk set_estk norm set_tmpstr].
  rewrite est_top_set, removelast_set, removelast_last, decide_True by done. done.
Qed.

Lemma read_bits_insert (h : gmap nat obj) (p : ptr) (id : nat) (ps qs : list bool) :
  read_bits h p = Some (id, ps) -> read_bits (<[id := OBits qs]> h) p = Some (id, qs).
Proof.
  destruct p as [|id' [|off]|k]; cbn [read_bits]; try done.
  destruct (h !! id') as [[]|]; try done. intros [= -> ->]. by rewrite lookup_insert_eq.
Qed.

(** Reading the bits of a whole buffer [a] first, then the rest. *)
Lemma parse_bits_split (e : Env) (p : ptr) (s : Z) (id : nat) (pbs : list bool) (len : Z)
    (a i : list Z) :
  read_bits (heap e) p = Some (id, pbs) -> 0 <= s <= len -> Z.of_nat (length pbs) = len ->
  8 * Z.of_nat (length a) < len - s ->
  let bs := unpack_bits (len - s) a in
  parse_bits (set_heap e (<[id := OBits (splice pbs (Z.to_nat s) bs)]> (heap e))) p
    (s + Z.of_nat (length bs)) len i = parse_bits e p s len (a ++ i).
Proof.
  intros Hr Hs Hlen Ha bs. unfold parse_bits. rewrite Hr. cbn [heap set_heap].
  rewrite (read_bits_insert _ _ _ _ _ Hr).
  assert (length bs = 8 * length a)%nat as Hbs.
  { unfold bs, unpack_bits. rewrite length_take, mjoin_bits_length. lia. }
  rewrite take_bytes_app.
  2: { pose proof (bits_bytes_le (len - s) ltac:(lia)). lia. }
  replace (len - (s + Z.of_nat (length bs))) with (len - s - 8 * Z.of_nat (length a)) by lia.
  rewrite bits_bytes_sub.
  destruct (take_bytes (bits_bytes (len - s) - Z.of_nat (length a)) i) as [[b r]|] eqn:Et; [|done].
  rewrite unpack_app by lia. fold bs. f_equal. unfold norm, set_tmpstr, set_heap.
  cbn [heap estk lmts]. rewrite insert_insert_eq. do 3 f_equal.
  replace (Z.to_nat (s + Z.of_nat (length bs))) with (Z.to_nat s + length bs)%nat by lia.
  apply splice_app. rewrite length_app. unfold unpack_bits. rewrite length_take. lia.
Qed.

(** The length of the string in the first buffer against that in the whole input. *)
Lemma nlen_app (a b : list Z) :
  (nlen a (length a) <= length a)%nat /\
  nlen (a ++ b) (length (a ++ b)) =
  if decide (nlen a (length a) = length a) then (length a + nlen b (length b))%nat
  else nlen a (length a).
Proof.
  induction a as [|c a [IHle IH]]; [done|]. cbn [app length nlen].
  destruct (c =? 0); [split; [lia|]; by rewrite decide_False by lia|].
  split; [lia|]. rewrite IH. repeat case_decide; lia.
Qed.

(** A string that fills the first buffer [a] is read on from the next one. *)
Lemma utf8_resume (e : Env) (id : nat) (ps a i : list Z) :
  Z.of_nat (length ps) + Z.of_nat (length a) < 2 ^ 63 ->
  let tot n := Z.of_nat (length ps) + Z.of_nat (length a + n) in
  let tot' n := Z.of_nat (length (ps ++ a)) + Z.of_nat n in
  let n := nlen i (length i) in
  (if 2 ^ 63 <=? Z.of_nat (length (ps ++ a)) then IBad else
   if (stringlimit (lmts e) <? tot' n) || (max_value_without_crc_32 <? tot' n)
   then IFail (utf8_errors (lmts e))
   else if (n =? length i)%nat then IMore
   else IDone (norm (set_heap (set_heap e (<[id := OString (ps ++ a)]> (heap e)))
          (<[id := OString ((ps ++ a) ++ take n i)]> (<[id := OString (ps ++ a)]> (heap e)))))
          (drop (S n) i)) =
  (if (stringlimit (lmts e) <? tot n) || (max_value_without_crc_32 <? tot n)
   then IFail (utf8_errors (lmts e))
   else if (length a + n =? length (a ++ i))%nat then IMore
   else IDone (norm (set_heap e (<[id := OString (ps ++ take (length a + n) (a ++ i))]> (heap e))))
          (drop (S (length a + n)) (a ++ i))).
Proof.
  intros Hlt tot tot' n.
  assert (tot' n = tot n) as E by (unfold tot, tot'; rewrite length_app; lia).
  rewrite E, (proj2 (Z.leb_gt _ _)) by (rewrite length_app; lia).
  destruct (_ || _); [done|]. rewrite length_app.
  destruct (Nat.eqb_spec n (length i)), (Nat.eqb_spec (length a + n) (length a + length i)); try lia;
    [done|]. rewrite insert_insert_eq, <- app_assoc.
  replace (S (length a + n)) with (length a + S n)%nat by lia.
  rewrite drop_app_add', take_app_add' by done. done.
Qed.

Section step.
Context (st : Des) (fd : FncData) (rest : list FncData) (fut : list Z).
Context (Hnull : null st = false) (Hlen : Z.of_nat (length (inp st)) < 2 ^ 32)
  (Hbytes : is_bytes (inp st ++ fut)) (Hstk : fstk st = fd :: rest)
  (Hgood : parse (env st) (fd :: rest) (inp st ++ fut) <> PBad).

Abbreviation P := (parse (env st) (fd :: rest) (inp st ++ fut)).

Definition called (r : outcome (ReturnValues * Des)) : Prop :=
  match r with
  | Ok (rv, st') => frame st st' /\ stepped st fut P rv st'
  | Throws => P = PThrow
  | Invalid => False
  end.

Lemma buffer_len_eq (w : Z) : 32 <= w -> buffer_len w st = Z.of_nat (length (inp st)).
Proof using Hlen.
  intros Hw. unfold buffer_len. apply wrap_small. split; [lia|].
  apply Z.lt_le_trans with (2 ^ 32); [done|]. apply Z.pow_le_mono_r; lia.
Qed.

Lemma item_good : parse_item (env st) fd (inp st ++ fut) <> IBad.
Proof using Hgood. intros E. apply Hgood. cbn [parse]. by rewrite E. Qed.

Lemma d_step_done (st' : Des) (x : FncData) :
  parse_item (env st) fd (inp st ++ fut) = IDone (norm (env st')) (inp st' ++ fut) ->
  fstk st' = x :: rest -> frame st st' -> called (Ok (SuccessE, st')).
Proof using Hgood Hstk.
  intros Hi Hf Hfr. split; [done|]. apply stepped_success.
  - cbn [parse]. rewrite Hi, Hf. cbn [tail]. apply parse_norm.
    intros E. apply Hgood. cbn [parse]. by rewrite Hi.
  - rewrite Hf, Hstk, d_stack_weight_cons. cbn [tail]. pose proof (d_weight_pos fd). lia.
Qed.

Lemma d_step_wait (st' : Des) (fd' : FncData) :
  parse_item (env st') fd' fut = parse_item (env st) fd (inp st ++ fut) ->
  fstk st' = fd' :: rest -> inp st' = [] -> frame st st' -> (weight fd' <= weight fd)%nat ->
  (fut = [] -> parse_item (env st) fd (inp st ++ fut) = IMore) ->
  called (Ok (WaitE, st')).
Proof using Hstk.
  intros Hi Hf Hin Hfr Hw Hm. split; [done|]. apply stepped_wait.
  - rewrite Hf. cbn [parse]. by rewrite Hi.
  - done.
  - intros Hfut. cbn [parse]. by rewrite (Hm Hfut).
  - by rewrite Hf.
  - rewrite Hf, Hstk, !d_stack_weight_cons. lia.
Qed.

Lemma step_fail (er : Errors) (es : list Errors) (st' : Des) :
  parse_item (env st) fd (inp st ++ fut) = IFail es -> er ∈ es ->
  frame st st' -> called (Ok (FailureE, set_err st' er)).
Proof using Type.
  intros Hi He Hfr. split; [done|]. apply (stepped_failure _ _ _ _ es er); [|done|done].
  cbn [parse]. by rewrite Hi.
Qed.

Lemma step_continue (st' : Des) (stk : list FncData) :
  parse (env st') (stk ++ rest) (inp st' ++ fut) = P ->
  fstk st' = stk ++ rest -> frame st st' -> (stack_weight stk < weight fd)%nat ->
  called (Ok (ContinueE, st')).
Proof using Hstk.
  intros Hp Hf Hfr Hw. split; [done|]. apply stepped_continue; [by rewrite Hf|].
  rewrite Hf, Hstk, d_stack_weight_cons. unfold stack_weight in *. rewrite sum_list_with_app. lia.
Qed.

Lemma frame_refl (st' : Des) :
  rdefaultlmts st' = rdefaultlmts st -> null st' = null st -> inp st' = inp st -> frame st st'.
Proof using Type. intros H1 H2 H3. split_and!; [done|done|]. by exists 0%nat. Qed.

Lemma frame_drop (st' : Des) (k : nat) :
  rdefaultlmts st' = rdefaultlmts st -> null st' = null st -> inp st' = drop k (inp st) ->
  frame st st'.
Proof using Type. intros H1 H2 H3. split_and!; [done|done|]. by exists k. Qed.

(** *** Raw binary *)

Section binary.
Context (n : Z) (fd0 : FncData) (k : nat).
Context (Hn : 0 <= n)
  (Hitem : forall i, parse_item (env st) fd i = parse_bytes (env st) (fd_p fd) n i)
  (Hp : fd_p fd0 = fd_p fd) (Hf : fd_f fd0 = LoadBinary k) (Hk : (k <= 8)%nat)
  (Hs : in_range 64 (fd_s fd0)) (Hsz : binary_size k (fd_s fd0) = n) (Hw : weight fd = 1%nat).

Abbreviation st0 := (set_fstk st (fd0 :: rest)).

Lemma binary_item (e : Env) (p : ptr) (k' : nat) (s' : Z) (i : list Z) :
  (k' <= 8)%nat -> in_range 64 s' ->
  parse_item e (mkFnc (LoadBinary k') p s') i = parse_bytes e p (binary_size k' s') i.
Proof using Type. intros H1 H2. unfold parse_item. cbn [fd_f fd_p fd_s]. by rewrite decide_True. Qed.

Lemma binary_fut : (fut = []) -> Z.of_nat (length (inp st)) < n ->
  parse_item (env st) fd (inp st ++ fut) = IMore.
Proof using All.
  intros Hfut Hlt. pose proof item_good as Hi. rewrite Hfut, app_nil_r, Hitem in Hi |- *.
  unfold parse_bytes in Hi |- *. destruct (write_bytes _ _ (replicate _ _)); [|done].
  unfold take_bytes. by rewrite (proj2 (Z.leb_gt _ _)).
Qed.

Lemma d_binary_zero : inp st = [] -> 0 < n -> called (Ok (WaitE, st0)).
Proof using All.
  intros Hin Hpos. eapply (d_step_wait _ fd0); [|done|done| | |].
  - rewrite Hin, Hitem. replace fd0 with (mkFnc (LoadBinary k) (fd_p fd) (fd_s fd0))
      by (destruct fd0; cbn in *; by subst). by rewrite binary_item, Hsz.
  - by apply frame_refl.
  - unfold weight at 1. rewrite Hf. by rewrite Hw.
  - intros ?. apply binary_fut; [done|]. rewrite Hin. done.
Qed.

Lemma d_binary_part (j k' : nat) (s' : Z) :
  length (inp st) = j -> Z.of_nat j < n -> (k' <= 8)%nat -> in_range 64 s' ->
  binary_size k' s' = n - Z.of_nat j ->
  called (copy st0 fd0 rest j (LoadBinary k') s' WaitE).
Proof using All.
  intros Hj Hlt Hk' Hs' Hsz'. unfold copy. cbn [env set_fstk inp]. rewrite Hp.
  rewrite take_ge by lia. pose proof item_good as Hi. rewrite Hitem in Hi.
  destruct (parse_bytes_split (env st) (fd_p fd) n (inp st) fut ltac:(lia) Hi) as (h1 & -> & Hsp).
  cbn [need]. eapply d_step_wait; [|reflexivity| | | |].
  - cbn [env advance set_fstk set_env]. rewrite binary_item, Hsz', Hitem, <- Hj by done.
    apply Hsp.
  - cbn. rewrite <- Hj. by rewrite drop_all.
  - by apply (frame_drop _ j).
  - by rewrite Hw.
  - intros ?. apply binary_fut; [done|lia].
Qed.

Lemma binary_write (j : nat) :
  Z.of_nat j = n -> Z.of_nat j <= Z.of_nat (length (inp st)) ->
  exists h, write_bytes (heap (env st)) (fd_p fd) (take j (inp st)) = Some h /\
    parse_item (env st) fd (inp st ++ fut) =
    IDone (norm (set_heap (env st) h)) (drop j (inp st) ++ fut).
Proof using All.
  intros Hj Hle. pose proof item_good as Hi. rewrite Hitem in Hi |- *. unfold parse_bytes in Hi |- *.
  destruct (write_bytes _ _ (replicate _ _)); [|done].
  assert (take_bytes n (inp st ++ fut) = Some (take j (inp st), drop j (inp st) ++ fut)) as Et.
  { rewrite <- (take_drop j (inp st)) at 1. rewrite <- app_assoc.
    apply take_bytes_all. rewrite length_take. lia. }
  rewrite Et in Hi |- *.
  destruct (write_bytes _ _ (take j (inp st))) as [h|]; [|done]. by exists h.
Qed.

Lemma binary_last (j : nat) :
  Z.of_nat j = n -> Z.of_nat j <= Z.of_nat (length (inp st)) -> called (copy_last st0 fd0 j).
Proof using All.
  intros Hj Hle. unfold copy_last. cbn [env set_fstk inp]. rewrite Hp.
  destruct (binary_write j Hj Hle) as (h & -> & Hi). cbn [need].
  eapply d_step_done; [exact Hi|done|]. by apply (frame_drop _ j).
Qed.

Lemma d_binary_copy (j : nat) (f : fnc) (s' : Z) :
  Z.of_nat j = n -> Z.of_nat j <= Z.of_nat (length (inp st)) ->
  called (copy st0 fd0 rest j f s' SuccessE).
Proof using All.
  intros Hj Hle. unfold copy. cbn [env set_fstk inp]. rewrite Hp.
  destruct (binary_write j Hj Hle) as (h & -> & Hi). cbn [need].
  eapply d_step_done; [exact Hi|done|]. by apply (frame_drop _ j).
Qed.

Lemma loadBinary0_spec : k = 0%nat -> called (loadBinary0 st0 fd0 rest).
Proof using All.
  intros Hk0. unfold loadBinary0. cbn [null set_fstk]. rewrite Hnull.
  change (buffer_len 32 (set_fstk st (fd0 :: rest))) with (buffer_len 32 st).
  rewrite buffer_len_eq by done. pose proof Hsz as Hsz'. unfold binary_size in Hsz'.
  rewrite Hk0 in Hsz'. cbn [Nat.eqb] in Hsz'. pose proof Hs as Hs'. unfold in_range in Hs'.
  destruct (Z.ltb_spec (fd_s fd0) (Z.of_nat (length (inp st)))) as [Hlt|Hge].
  - rewrite wrap_small by (unfold in_range; lia). rewrite (proj2 (Z.eqb_eq _ _)) by lia.
    apply d_binary_copy; lia.
  - rewrite Nat2Z.id. destruct (Z.eqb_spec (fd_s fd0 - Z.of_nat (length (inp st))) 0).
    + apply d_binary_copy; lia.
    + rewrite Hf. apply d_binary_part; [done|lia|done|unfold in_range; lia|].
      rewrite Hk0. unfold binary_size. cbn [Nat.eqb]. lia.
Qed.

(** The fixed sizes: one branch per number of bytes at hand. *)
Ltac fixed_size :=
  let Hkn := fresh "Hkn" in let Hnn := fresh "Hnn" in
  intros Hkn; assert (n = Z.of_nat k) as Hnn
    by (rewrite <- Hsz; unfold binary_size; by rewrite Hkn);
  rewrite Hkn in Hnn;
  unfold loadBinary1, loadBinary2, loadBinary3, loadBinary4, loadBinary5, loadBinary6,
    loadBinary7, loadBinary8; cbn [null set_fstk]; rewrite Hnull;
  change (buffer_len 32 (set_fstk st (fd0 :: rest))) with (buffer_len 32 st);
  rewrite buffer_len_eq by done; case_Z;
  first [ apply binary_last; lia
        | apply d_binary_part; [lia|lia|lia|done|rewrite Hnn; reflexivity]
        | apply d_binary_zero; [apply length_lt_1; lia|lia] ].

Lemma loadBinary1_spec : k = 1%nat -> called (loadBinary1 st0 fd0 rest).
Proof using All. fixed_size. Qed.
Lemma loadBinary2_spec : k = 2%nat -> called (loadBinary2 st0 fd0 rest).
Proof using All. fixed_size. Qed.
Lemma loadBinary3_spec : k = 3%nat -> called (loadBinary3 st0 fd0 rest).
Proof using All. fixed_size. Qed.
Lemma loadBinary4_spec : k = 4%nat -> called (loadBinary4 st0 fd0 rest).
Proof using All. fixed_size. Qed.
Lemma loadBinary5_spec : k = 5%nat -> called (loadBinary5 st0 fd0 rest).
Proof using All. fixed_size. Qed.
Lemma loadBinary6_spec : k = 6%nat -> called (loadBinary6 st0 fd0 rest).
Proof using All. fixed_size. Qed.
Lemma loadBinary7_spec : k = 7%nat -> called (loadBinary7 st0 fd0 rest).
Proof using All. fixed_size. Qed.
Lemma loadBinary8_spec : k = 8%nat -> called (loadBinary8 st0 fd0 rest).
Proof using All. fixed_size. Qed.

Lemma loadBinary_spec : called (loadBinary k st0 fd0 rest).
Proof using All.
  pose proof loadBinary0_spec; pose proof loadBinary1_spec; pose proof loadBinary2_spec;
  pose proof loadBinary3_spec; pose proof loadBinary4_spec; pose proof loadBinary5_spec;
  pose proof loadBinary6_spec; pose proof loadBinary7_spec; pose proof loadBinary8_spec.
  assert (k = 0 \/ k = 1 \/ k = 2 \/ k = 3 \/ k = 4 \/ k = 5 \/ k = 6 \/ k = 7 \/ k = 8)%nat as Hk'
    by lia.
  destruct_or! Hk'; rewrite Hk'; cbn [loadBinary]; auto.
Qed.
End binary.

Lemma d_call_binary (n : nat) : fd_f fd = LoadBinary n -> called (loadBinary n st fd rest).
Proof using All.
  intros Hf. pose proof item_good as Hi. unfold parse_item in Hi. rewrite Hf in Hi.
  case_decide as Hk; [|done]. destruct Hk as [Hk Hs].
  rewrite (d_set_fstk_id _ _ Hstk).
  eapply (loadBinary_spec (binary_size n (fd_s fd))); try done.
  - unfold binary_size. unfold in_range in Hs. case_match; lia.
  - intros i. unfold parse_item. rewrite Hf. by rewrite decide_True.
  - unfold weight. by rewrite Hf.
Qed.

Lemma d_call_int (n : nat) : fd_f fd = LoadInt n -> called (loadInt n st fd rest).
Proof using All.
  intros Hf. pose proof item_good as Hi. unfold parse_item in Hi. rewrite Hf in Hi.
  case_decide as Hk; [|done]. unfold loadInt. eapply (loadBinary_spec (Z.of_nat n)); try done.
  - lia.
  - intros i. unfold parse_item. rewrite Hf. by rewrite decide_True.
  - repeat rewrite ?elem_of_cons, ?elem_of_nil in Hk. lia.
  - repeat rewrite ?elem_of_cons, ?elem_of_nil in Hk. cbn [fd_s]. by destruct_or! Hk; subst n.
  - unfold binary_size. cbn [fd_s]. by case_match.
  - unfold weight. by rewrite Hf.
Qed.

Lemma d_call_bool : fd_f fd = LoadBool -> called (loadBool st fd rest).
Proof using All.
  intros Hf. pose proof item_good as Hi. unfold loadBool. rewrite Hnull, buffer_len_eq by done.
  destruct (Z.leb_spec 1 (Z.of_nat (length (inp st)))) as [H1|H1].
  - unfold parse_item in Hi. rewrite Hf in Hi.
    destruct (length_ge_1 (inp st) ltac:(lia)) as (c & i & Ei).
    rewrite Ei in Hi |- *. cbn [app lookup list_lookup default] in Hi |- *.
    destruct (write_bytes _ _ _) as [h|] eqn:Eh; [|done]. cbn [need].
    eapply d_step_done; [|done|].
    + rewrite Ei. unfold parse_item. rewrite Hf. cbn [app lookup list_lookup default]. rewrite Eh.
      cbn. by rewrite Ei.
    + by apply (frame_drop _ 1).
  - assert (inp st = []) as Ei by (apply length_lt_1; lia).
    apply (d_step_wait _ fd); [by rewrite Ei|done|done|by apply frame_refl|done|].
    intros Hfut. revert Hi. rewrite Ei, Hfut. unfold parse_item. rewrite Hf. cbn [app].
    by destruct (write_bytes _ _ _).
Qed.

Lemma call_limit :
  fd_f fd = SetStringLimit \/ fd_f fd = SetStreamLimit \/ fd_f fd = SetContainerLimit ->
  called (setLimit st fd rest).
Proof using Hgood Hstk.
  intros Hf. eapply d_step_done; [|done|by apply frame_refl].
  unfold parse_item. destruct Hf as [->|[->| ->]]; done.
Qed.

(** *** Cross integers *)

Lemma d_call_cross_continue : fd_f fd = LoadCrossContinue -> called (loadCrossContinue st fd rest).
Proof using All.
  intros Hf. pose proof item_good as Hi. unfold parse_item in Hi. rewrite Hf in Hi.
  case_decide as Hs; [|done]. clear Hi. destruct Hs as [Hs Hl].
  unfold loadCrossContinue. rewrite Hnull, buffer_len_eq by done.
  set (t := tmpstr (env st)) in *. rewrite (wrap_small 64) by (unfold in_range; lia).
  assert (forall i, parse_item (env st) fd i =
    match take_bytes (Z.of_nat (length t) - fd_s fd) i with
    | None => IMore
    | Some (bs, r) => IDone (set_tmpstr (env st) (take (Z.to_nat (fd_s fd)) t ++ bs)) r
    end) as Hitem.
  { intros i. unfold parse_item. rewrite Hf. fold t. by rewrite decide_True. }
  destruct (Z.ltb_spec (Z.of_nat (length (inp st))) (Z.of_nat (length t) - fd_s fd)).
  - rewrite (proj2 (Z.ltb_lt _ _)) by lia. rewrite Nat2Z.id, take_ge by lia.
    eapply d_step_wait; [|reflexivity| | | |].
    + rewrite Hitem, take_bytes_app by lia.
      unfold parse_item. cbn [fd_f fd_p fd_s env advance set_fstk set_env tmpstr set_tmpstr].
      rewrite Hf. rewrite splice_length by lia. rewrite decide_True by lia.
      replace (Z.of_nat (length t) - (fd_s fd + Z.of_nat (length (inp st))))
        with (Z.of_nat (length t) - fd_s fd - Z.of_nat (length (inp st))) by lia.
      destruct (take_bytes _ fut) as [[bs r]|]; [|done]. f_equal. unfold splice.
      rewrite (app_assoc (take _ t)), take_app_length'
        by (rewrite length_app, length_take; lia).
      by rewrite (app_assoc _ (inp st) bs).
    + cbn. by rewrite drop_all.
    + by apply (frame_drop _ (length (inp st))).
    + unfold weight. cbn [fd_f]. by rewrite Hf.
    + intros Hfut. rewrite Hitem, Hfut, app_nil_r. unfold take_bytes.
      by rewrite (proj2 (Z.leb_gt _ _)) by lia.
  - rewrite (proj2 (Z.ltb_ge _ _)) by lia. split.
    + by apply (frame_drop _ (Z.to_nat (Z.of_nat (length t) - fd_s fd))).
    + apply stepped_success.
      * cbn [parse]. rewrite Hitem. cbn [tail fstk advance set_fstk set_env env inp].
        set (n := Z.to_nat (Z.of_nat (length t) - fd_s fd)).
        rewrite <- (take_drop n (inp st)) at 3. rewrite <- app_assoc.
        rewrite take_bytes_all by (rewrite length_take; lia). f_equal. f_equal.
        unfold splice. rewrite (drop_ge t) by (rewrite length_take; lia). by rewrite app_nil_r.
      * rewrite Hstk, d_stack_weight_cons. cbn [tail fstk advance set_fstk].
        pose proof (d_weight_pos fd). lia.
Qed.

Lemma call_cross_done (w : Z) : fd_f fd = LoadCrossDone w -> called (loadCrossDone w st fd rest).
Proof using All.
  intros Hf. pose proof item_good as Hi. unfold parse_item in Hi. rewrite Hf in Hi.
  unfold loadCrossDone. rewrite Hnull.
  destruct (crossLoad w (tmpstr (env st))) as [v adv| |] eqn:E; [| |done].
  - destruct (write_uint (env st) (fd_p fd) v) as [e|] eqn:Ew; [|done]. cbn [need].
    eapply d_step_done; [|done|by apply frame_refl].
    unfold parse_item. rewrite Hf, E, Ew. done.
  - apply (step_fail _ [ERR_CROSS_VALUE_SMALL]); [|in_list|by apply frame_refl].
    unfold parse_item. by rewrite Hf, E.
Qed.

Section cross.
Context (w : Z) (Hw : w ∈ widths) (Hf : fd_f fd = LoadCross w) (Hne : inp st <> []).

Lemma cross_item :
  exists e0, write_uint (env st) (fd_p fd) 0 = Some e0 /\
  forall i, parse_item (env st) fd i =
    match parse_cross w i with
    | CDone v r =>
        match write_uint (env st) (fd_p fd) v with Some e => IDone (norm e) r | None => IBad end
    | CMore => IMore | CFail => IFail [ERR_CROSS_VALUE_SMALL] | CThrow => IThrow
    end.
Proof using Hgood Hf Hw.
  pose proof item_good as Hi. unfold parse_item in Hi |- *. rewrite Hf in Hi |- *.
  rewrite decide_True in Hi by done.
  destruct (write_uint (env st) (fd_p fd) 0) as [e0|]; [|done]. exists e0. split; [done|].
  intros i. rewrite decide_True by done. by destruct (parse_cross w i).
Qed.

Lemma write_uint_some (e e0 : Env) (p : ptr) (v : Z) :
  write_uint e p 0 = Some e0 -> exists e1, write_uint e p v = Some e1.
Proof using Type.
  destruct p as [|id [|off]|k]; cbn [write_uint]; try done.
  - destruct (heap e !! id) as [[]|]; try done. by eauto.
  - case_decide; [|done]. by eauto.
Qed.

Lemma inp_bytes : is_bytes (inp st).
Proof using Hbytes. by apply Forall_app in Hbytes as [? _]. Qed.

(** The value is complete in this buffer. *)
Lemma cross_direct :
  cross_len w (inp st) <= Z.of_nat (length (inp st)) ->
  called (match crossLoad w (inp st) with
          | Loaded v adv =>
              need (write_uint (env st) (fd_p fd) v) (fun e =>
                Ok (SuccessE, advance (set_env st e) (Z.to_nat adv)))
          | LoadNull => Ok (FailureE, set_err st ERR_CROSS_VALUE_SMALL)
          | LoadOverrun => Invalid
          end).
Proof using All.
  intros Hle. destruct cross_item as (e0 & He0 & Hitem).
  assert (1 <= Z.of_nat (length (inp st))) as H1.
  { destruct (inp st) eqn:E; [by destruct Hne|]. cbn [length]. lia. }
  pose proof (crossLoad_complete w (inp st) Hw inp_bytes Hne Hle) as Hc.
  assert (crossLoad w (inp st ++ fut) = crossLoad w (inp st)) as Heq.
  { rewrite <- (crossLoad_take_len w (inp st ++ fut) (length (inp st)) Hw Hbytes H1).
    - by rewrite take_app_length.
    - by rewrite cross_len_app. }
  assert (parse_cross w (inp st ++ fut) =
    match crossLoad w (inp st) with
    | Loaded v adv => CDone v (drop (Z.to_nat adv) (inp st ++ fut)) | _ => CFail end) as Hp.
  { rewrite parse_cross_app, Heq by done. unfold string_max_size.
    by rewrite (proj2 (Z.ltb_ge _ _)), (proj2 (Z.leb_le _ _)) by (rewrite ?length_app; lia). }
  destruct (crossLoad w (inp st)) as [v adv| |]; [| |done].
  - destruct Hc as (_ & Hadv & Hadv1). destruct (write_uint_some _ _ _ v He0) as [e1 He1].
    rewrite He1. cbn [need]. eapply d_step_done; [|done|].
    + rewrite Hitem, Hp, He1, drop_app_le by lia. done.
    + by apply (frame_drop _ (Z.to_nat adv)).
  - apply (step_fail _ [ERR_CROSS_VALUE_SMALL]); [|in_list|by apply frame_refl].
    by rewrite Hitem, Hp.
Qed.

(** The value goes on in the next buffer. *)
Lemma cross_split (n : nat) :
  (1 <= n <= length (inp st))%nat -> Z.of_nat (length (inp st)) < cross_len w (inp st) ->
  cross_len w (inp st) <= string_max_size ->
  let tmp := splice (resize 0 (tmpstr (env st)) (Z.to_nat (cross_len w (inp st)))) 0
               (take n (inp st)) in
  called (Ok (ContinueE, advance (set_fstk (set_env st (set_tmpstr (env st) tmp))
    (mkFnc LoadCrossContinue (fd_p fd) (Z.of_nat n) ::
     mkFnc (LoadCrossDone w) (fd_p fd) (Z.of_nat n) :: rest)) n)).
Proof using All.
  intros Hn Hlt Hmax tmp. destruct cross_item as (e0 & He0 & Hitem).
  unfold string_max_size in Hmax. set (vsz := cross_len w (inp st)) in *.
  assert (length tmp = Z.to_nat vsz) as Htmp.
  { unfold tmp. rewrite splice_length; unfold resize;
      rewrite length_app, length_replicate, !length_take; lia. }
  assert (take n tmp = take n (inp st)) as Htake.
  { unfold tmp, splice. rewrite take_0. cbn [app]. apply take_app_length'. rewrite length_take. lia. }
  eapply (step_continue _
    [mkFnc LoadCrossContinue (fd_p fd) (Z.of_nat n);
     mkFnc (LoadCrossDone w) (fd_p fd) (Z.of_nat n)]); [|done| |].
  2: { by apply (frame_drop _ n). }
  2: { unfold weight. rewrite Hf. cbn. lia. }
  cbn [app parse advance set_fstk set_env env inp]. rewrite Hitem.
  rewrite parse_cross_app by done. fold vsz. unfold string_max_size. rewrite (proj2 (Z.ltb_ge _ _)) by lia.
  unfold parse_item at 1. cbn [fd_f fd_p fd_s tmpstr set_tmpstr].
  rewrite decide_True by lia. rewrite Htmp. unfold take_bytes. rewrite length_app, length_drop, length_app.
  destruct (Z.leb_spec vsz (Z.of_nat (length (inp st) + length fut))) as [Hfit|Hfit].
  2: by rewrite (proj2 (Z.leb_gt _ _)) by lia.
  rewrite (proj2 (Z.leb_le _ _)) by lia.
  unfold parse_item. cbn [fd_f fd_p fd_s tmpstr set_tmpstr].
  rewrite Nat2Z.id, Htake.
  assert (forall k, take n (inp st) ++ take k (drop n (inp st) ++ fut) =
                    take (n + k) (inp st ++ fut)) as Hjoin.
  { intros k. rewrite <- (drop_app_le (inp st) fut n) by lia.
    rewrite <- (take_app_le (inp st) fut n) by lia. apply take_take_drop. }
  rewrite Hjoin, crossLoad_take_len; [|done|done|lia|rewrite cross_len_app by done; lia].
  pose proof (crossLoad_complete w (inp st ++ fut) Hw Hbytes) as Hc.
  rewrite cross_len_app, length_app in Hc by done.
  specialize (Hc ltac:(intros E; by apply app_nil in E as [? _]) ltac:(fold vsz; lia)).
  destruct (crossLoad w (inp st ++ fut)) as [v adv| |]; [| done|done].
  destruct Hc as (_ & Hadv & Hadv1). fold vsz in Hadv.
  change (set_tmpstr (set_tmpstr ?e ?a) ?b) with (set_tmpstr e b).
  rewrite write_uint_tmp. destruct (write_uint (env st) (fd_p fd) v) as [e1|]; [|done].
  cbn [mbind option_bind]. f_equal.
  rewrite <- (drop_app_le (inp st) fut n), drop_drop by lia. f_equal. lia.
Qed.
End cross.

Lemma d_call_cross (w : Z) : fd_f fd = LoadCross w -> called (loadCross w st fd rest).
Proof using All.
  intros Hf. pose proof item_good as Hi. unfold parse_item in Hi. rewrite Hf in Hi.
  case_decide as Hw; [|done]. clear Hi. unfold loadCross. rewrite Hnull.
  rewrite buffer_len_eq by (by destruct (w =? 8)).
  destruct (Z.eqb_spec (Z.of_nat (length (inp st))) 0) as [H0|H0].
  - assert (inp st = []) as Ei by (apply length_lt_1; lia).
    destruct (cross_item w Hw Hf) as (e0 & He0 & Hitem).
    apply (d_step_wait _ fd); [by rewrite Ei|done|done|by apply frame_refl|done|].
    intros Hfut. by rewrite Hitem, Ei, Hfut.
  - assert (inp st <> []) as Hne by (intros E; by rewrite E in H0).
    assert (crossSizeAt (inp st) = Some (default 0 (crossSizeAt (inp st)))) as Hsz.
    { destruct (length_ge_1 (inp st) ltac:(lia)) as (h & i & ->). cbn [crossSizeAt].
      by destruct (check_value_with_crc8 h). }
    rewrite Hsz. cbn [need].
    change (if w =? 8 then default 0 (crossSizeAt (inp st))
            else wrap 32 (default 0 (crossSizeAt (inp st)))) with (cross_len w (inp st)).
    destruct (Z.leb_spec (cross_len w (inp st)) (Z.of_nat (length (inp st)))).
    + by apply cross_direct.
    + destruct (Z.ltb_spec string_max_size (cross_len w (inp st))) as [Hmax|Hmax].
      * cbn [called parse]. destruct (cross_item w Hw Hf) as (e0 & He0 & ->).
        rewrite parse_cross_app by done. by rewrite (proj2 (Z.ltb_lt _ _)).
      * apply cross_split; try done. destruct (w =? 8); lia.
Qed.

(** *** Strings *)

Lemma call_string_check :
  fd_f fd = LoadBinaryStringCheck -> called (loadBinaryStringCheck st fd rest).
Proof using All.
  intros Hf. pose proof item_good as Hi. unfold loadBinaryStringCheck. rewrite Hnull.
  assert (exists len, est_top (estk (env st)) = Some len /\ forall i, parse_item (env st) fd i =
    match checked_len (stringlimit (lmts (env st))) len ERR_STRING_LIMIT with
    | inr er => IFail [er]
    | inl ul => IDone (norm (set_estk (env st) (est_set (estk (env st)) ul))) i
    end) as (len & -> & Hitem).
  { unfold parse_item in Hi |- *. rewrite Hf in Hi |- *.
    destruct (est_top (estk (env st))) as [len|]; [|done]. by exists len. }
  cbn [need]. unfold checked_len in Hitem. destruct (check_len len) as [ul|].
  - cbn [lmts env set_env set_estk]. destruct (stringlimit (lmts (env st)) <=? ul).
    + apply (step_fail _ [ERR_STRING_LIMIT]); [done|in_list|by apply frame_refl].
    + eapply d_step_done; [apply Hitem|done|by apply frame_refl].
  - apply (step_fail _ [ERR_STRING_MAX_LIMIT]); [done|in_list|by apply frame_refl].
Qed.

Lemma call_chars : fd_f fd = LoadBinaryString -> called (loadBinaryString st fd rest).
Proof using All.
  intros Hf. pose proof item_good as Hi. unfold loadBinaryString. rewrite Hnull, buffer_len_eq by done.
  assert (exists ul id ps, est_top (estk (env st)) = Some ul /\ 0 <= ul /\
    read_string (heap (env st)) (fd_p fd) = Some (id, ps) /\
    forall i, parse_item (env st) fd i =
      parse_chars (set_estk (env st) (removelast (estk (env st)))) (fd_p fd) ul i)
    as (ul & id & ps & Et & Hul & Er & Hitem).
  { unfold parse_item in Hi |- *. rewrite Hf in Hi |- *.
    destruct (est_top (estk (env st))) as [ul|]; [|done]. case_decide; [|done].
    unfold parse_chars in Hi. cbn [heap set_estk] in Hi.
    destruct (read_string _ _) as [[id ps]|]; [|done]. by exists ul, id, ps. }
  rewrite Et, Er. cbn [need].
  destruct (Z.ltb_spec ul (Z.of_nat (length (inp st)))).
  - rewrite Z.sub_diag. cbn [Z.eqb negb]. eapply d_step_done; [|done|].
    + rewrite Hitem. unfold parse_chars. cbn [heap set_estk]. rewrite Er.
      unfold take_bytes. rewrite (proj2 (Z.leb_le _ _)) by (rewrite length_app; lia).
      rewrite take_app_le, drop_app_le by lia. done.
    + by apply (frame_drop _ (Z.to_nat ul)).
  - rewrite Nat2Z.id, take_ge by lia.
    destruct (Z.eqb_spec (ul - Z.of_nat (length (inp st))) 0); cbn [negb].
    + eapply d_step_done; [|done|].
      * rewrite Hitem. unfold parse_chars. cbn [heap set_estk]. rewrite Er, take_bytes_all by lia.
        cbn. by rewrite drop_all.
      * by apply (frame_drop _ (length (inp st))).
    + apply (d_step_wait _ fd).
      * rewrite Hitem. unfold parse_item. rewrite Hf.
        cbn [env set_env advance estk set_estk set_heap heap].
        rewrite est_top_set, removelast_set, decide_True by lia.
        by apply (parse_chars_split _ _ _ id ps).
      * done.
      * cbn. by rewrite drop_all.
      * by apply (frame_drop _ (length (inp st))).
      * done.
      * intros Hfut. rewrite Hitem, Hfut, app_nil_r. unfold parse_chars. cbn [heap set_estk].
        rewrite Er. unfold take_bytes. by rewrite (proj2 (Z.leb_gt _ _)) by lia.
Qed.

Lemma d_call_string : fd_f fd = LoadString -> called (loadString st fd rest).
Proof using All.
  intros Hf. pose proof item_good as Hi. unfold loadString. rewrite Hnull. cbn [push_est].
  set (stk := [mkFnc (LoadCross 64) (PEst (length (estk (env st)))) (InvalidSize 64);
    mkFnc LoadBinaryStringCheck (fd_p fd) (InvalidSize 64);
    mkFnc LoadBinaryString (fd_p fd) (InvalidSize 64)]).
  eapply (step_continue _ stk); [|done|by apply frame_refl|].
  2: { unfold weight. rewrite Hf. cbn. lia. }
  unfold stk. cbn [app env set_fstk set_env inp]. rewrite parse_cross_est.
  rewrite (parse_cons (env st) fd rest). unfold parse_item in Hi |- *. rewrite Hf in Hi |- *.
  destruct (read_string (heap (env st)) (fd_p fd)) as [[id ps]|] eqn:Er; [|done]. clear Hi.
  destruct (parse_cross 64 (inp st ++ fut)) as [v r| | |] eqn:Ec; try done.
  assert (in_range 64 v) as Hv by (eapply parse_cross_range; [in_list|exact Hbytes|done]).
  rewrite parse_string_tail by apply Hv. by destruct (checked_len _ v _).
Qed.

(** *** Bit vectors *)

Lemma call_bits_continue :
  fd_f fd = LoadBitvecContinue -> called (loadBitvecContinue st fd rest).
Proof using All.
  intros Hf. pose proof item_good as Hi. unfold loadBitvecContinue. rewrite Hnull.
  assert (exists len id pbs, est_top (estk (env st)) = Some len /\
    read_bits (heap (env st)) (fd_p fd) = Some (id, pbs) /\
    0 <= fd_s fd <= len /\ Z.of_nat (length pbs) = len /\
    forall i, parse_item (env st) fd i =
      parse_bits (set_estk (env st) (removelast (estk (env st)))) (fd_p fd) (fd_s fd) len i)
    as (len & id & pbs & Et & Er & Hs & Hpl & Hitem).
  { unfold parse_item in Hi |- *. rewrite Hf in Hi |- *.
    destruct (est_top (estk (env st))) as [len|]; [|done].
    destruct (read_bits _ _) as [[id pbs]|]; [|done]. case_decide as Hd; [|done].
    destruct Hd. by exists len, id, pbs. }
  rewrite Et, Er. cbn [need].
  destruct (load_bits_spec (Z.to_nat (len - fd_s fd)) (inp st))
    as (bo & i & -> & (used & Hiu & Hused) & H).
  rewrite Z2Nat.id in * by lia. set (m := len - fd_s fd) in *.
  assert (drop (length (inp st) - length i) (inp st) = i) as Hdrop.
  { rewrite Hiu, length_drop. f_equal. lia. }
  destruct (decide (bits_bytes m <= Z.of_nat (length (inp st)))) as [Hfit|Hfit].
  - destruct H as [Hl Hd].
    rewrite (proj2 (Z.leb_le _ _)), (proj2 (Z.ltb_ge _ _)) by lia. cbn [negb].
    pose proof (bits_bytes_nonneg m ltac:(lia)) as Hnn.
    assert (parse_item (env st) fd (inp st ++ fut) =
      IDone (norm (set_heap (set_estk (env st) (removelast (estk (env st))))
        (<[id:=OBits (splice pbs (Z.to_nat (fd_s fd)) (unpack_bits m (inp st)))]> (heap (env st)))))
        (drop (Z.to_nat (bits_bytes m)) (inp st) ++ fut)) as Hi'.
    { rewrite Hitem. unfold parse_bits. cbn [heap set_estk]. rewrite Er. fold m.
      unfold take_bytes. rewrite (proj2 (Z.leb_le _ _)) by (rewrite length_app; lia).
      rewrite take_app_le, drop_app_le, unpack_take by lia. done. }
    rewrite <- Hd in Hi'.
    destruct (bo =? 0); cbn [negb]; (eapply d_step_done; [|reflexivity|]);
      cbn [inp env fstk advance set_env set_fstk estk set_estk set_heap]; rewrite ?Hdrop.
    + exact Hi'.
    + apply (frame_drop _ used); [done|done|]. cbn [inp advance set_env set_fstk]. by rewrite Hdrop.
    + exact Hi'.
    + apply (frame_drop _ (used + 1)); [done|done|]. cbn [inp advance set_env set_fstk].
      by rewrite Hdrop, Hiu, drop_drop.
  - destruct H as (Hl & Hlt & -> & ->).
    rewrite (proj2 (Z.leb_le _ _)), (proj2 (Z.ltb_lt _ _)) by lia. cbn [negb].
    eapply d_step_wait; [|reflexivity| | | |].
    + rewrite Hitem. unfold parse_item.
      cbn [fd_f fd_p fd_s env advance set_fstk set_env heap set_heap estk]. rewrite Hf, Et.
      rewrite (read_bits_insert _ _ _ _ _ Er).
      rewrite decide_True by (rewrite splice_length; lia).
      apply (parse_bits_split (set_estk (env st) (removelast (estk (env st))))
        (fd_p fd) (fd_s fd) id pbs len (inp st) fut); try done. lia.
    + cbn [inp advance set_env set_fstk]. done.
    + by apply (frame_drop _ (length (inp st) - 0)).
    + unfold weight. cbn [fd_f]. by rewrite Hf.
    + intros Hfut. rewrite Hitem, Hfut, app_nil_r. unfold parse_bits. cbn [heap set_estk].
      rewrite Er. fold m. unfold take_bytes. by rewrite (proj2 (Z.leb_gt _ _)) by lia.
Qed.

Lemma call_bits_begin : fd_f fd = LoadBitvecBegin -> called (loadBitvecBegin st fd rest).
Proof using All.
  intros Hf. pose proof item_good as Hi. unfold loadBitvecBegin. rewrite Hnull.
  assert (exists len, est_top (estk (env st)) = Some len /\ 0 <= len /\
    forall i, parse_item (env st) fd i =
    match checked_len (containerlimit (lmts (env st))) len ERR_CONTAINER_LIMIT with
    | inr er => IFail [er]
    | inl len => parse_bits (resized (set_estk (env st) (removelast (estk (env st)))) (fd_p fd) len)
                   (fd_p fd) 0 len i
    end) as (len & -> & H0 & Hitem).
  { unfold parse_item in Hi |- *. rewrite Hf in Hi |- *.
    destruct (est_top (estk (env st))) as [len|]; [|done]. case_decide; [|done]. by exists len. }
  cbn [need]. pose proof (checked_len_nonneg (containerlimit (lmts (env st))) len) as Hul.
  unfold checked_len in Hitem, Hul. destruct (check_len len) as [ul|] eqn:El.
  2: { apply (step_fail _ [ERR_STRING_MAX_LIMIT]); [done|in_list|by apply frame_refl]. }
  cbn [lmts env set_env set_estk heap]. destruct (containerlimit (lmts (env st)) <=? ul).
  { apply (step_fail _ [ERR_CONTAINER_LIMIT]); [done|in_list|by apply frame_refl]. }
  specialize (Hul ul ERR_CONTAINER_LIMIT H0 eq_refl).
  assert (exists id pbs, read_bits (heap (env st)) (fd_p fd) = Some (id, pbs)) as (id & pbs & Er).
  { rewrite Hitem in Hi. unfold parse_bits, resized in Hi. cbn [heap set_estk] in Hi.
    destruct (read_bits (heap (env st)) (fd_p fd)) as [[id pbs]|] eqn:Er; [by eauto|].
    cbn [heap set_estk] in Hi. by rewrite Er in Hi. }
  rewrite Er. cbn [need]. eapply (step_continue _ [mkFnc LoadBitvecContinue (fd_p fd) 0]);
    [|done|by apply frame_refl|].
  2: { unfold weight. rewrite Hf. cbn. lia. }
  cbn [app]. rewrite !parse_cons, Hitem. unfold parse_item.
  cbn [fd_f fd_p fd_s env set_fstk set_env heap set_heap estk set_estk inp].
  rewrite est_top_set, (read_bits_insert _ _ _ _ _ Er), removelast_set.
  rewrite decide_True by (split; [lia|]; unfold resize;
    rewrite length_app, length_take, length_replicate; lia).
  unfold resized. cbn [heap set_estk]. by rewrite Er.
Qed.

Lemma d_call_bitvec : fd_f fd = LoadBitvec -> called (loadBitvec st fd rest).
Proof using All.
  intros Hf. pose proof item_good as Hi. unfold loadBitvec. rewrite Hnull. cbn [push_est].
  eapply (step_continue _ [mkFnc (LoadCross 64) (PEst (length (estk (env st)))) (InvalidSize 64);
    mkFnc LoadBitvecBegin (fd_p fd) (fd_s fd)]); [|done|by apply frame_refl|].
  2: { unfold weight. rewrite Hf. cbn. lia. }
  cbn [app env set_fstk set_env inp]. rewrite parse_cross_est.
  rewrite (parse_cons (env st) fd rest). unfold parse_item in Hi |- *. rewrite Hf in Hi |- *.
  destruct (read_bits (heap (env st)) (fd_p fd)) as [[id ps]|] eqn:Er; [|done]. clear Hi.
  destruct (parse_cross 64 (inp st ++ fut)) as [v r| | |] eqn:Ec; try done.
  assert (in_range 64 v) as Hv by (eapply parse_cross_range; [in_list|exact Hbytes|done]).
  rewrite parse_cons. unfold parse_item.
  cbn [fd_f fd_p estk lmts set_estk norm set_tmpstr]. unfold est_top at 1.
  rewrite last_snoc, decide_True by apply Hv. rewrite removelast_last.
  destruct (checked_len _ v _) as [ul|er]; [|done].
  change (set_estk (norm (set_estk (env st) (estk (env st) ++ [v]))) (estk (env st)))
    with (set_tmpstr (env st) []).
  by rewrite parse_bits_tmp.
Qed.

(** *** Zero-terminated strings *)

Lemma d_call_utf8 : fd_f fd = LoadUtf8 -> called (loadUtf8 st fd rest).
Proof using All.
  intros Hf. pose proof item_good as Hi.
  assert (forall i, parse_item (env st) fd i = parse_utf8 (env st) (fd_p fd) i) as Hitem
    by (intros i; unfold parse_item; by rewrite Hf).
  rewrite Hitem in Hi. unfold loadUtf8. unfold parse_utf8 in Hi, Hitem.
  rewrite buffer_len_eq, Nat2Z.id by done.
  destruct (read_string (heap (env st)) (fd_p fd)) as [[id ps]|] eqn:Er; [|done]. cbn [need].
  destruct (Z.leb_spec (2 ^ 63) (Z.of_nat (length ps))) as [|Hps]; [done|]. clear Hi.
  pose proof (nlen_app (inp st) fut) as [Hle Hn].
  set (n := nlen (inp st) (length (inp st))) in *.
  rewrite wrap_small by (unfold in_range; lia).
  set (tot := Z.of_nat (length ps) + Z.of_nat n).
  specialize (Hitem (inp st ++ fut)) as Hi. rewrite Hn in Hi.
  destruct ((stringlimit (lmts (env st)) <? tot) || (max_value_without_crc_32 <? tot)) eqn:Etot.
  - assert (parse_item (env st) fd (inp st ++ fut) = IFail (utf8_errors (lmts (env st)))) as Hfail.
    { rewrite Hi. match goal with |- context [orb ?a ?b] => replace (orb a b) with true end; [done|].
      symmetry. apply orb_true_iff in Etot. apply orb_true_iff. rewrite !Z.ltb_lt in *.
      unfold tot in Etot. case_decide; lia. }
    destruct (Z.ltb_spec (stringlimit (lmts (env st))) tot) as [Hl|Hl].
    + eapply step_fail; [exact Hfail| |by apply frame_refl]. unfold utf8_errors.
      destruct (_ <=? _); in_list.
    + cbn [orb] in Etot. rewrite Etot. apply Z.ltb_lt in Etot.
      eapply step_fail; [exact Hfail| |by apply frame_refl]. unfold utf8_errors.
      rewrite (proj2 (Z.leb_gt _ _)) by lia. in_list.
  - apply orb_false_iff in Etot as [E1 E2]. rewrite E1, E2.
    destruct (Z.eqb_spec (Z.of_nat n) (Z.of_nat (length (inp st)))) as [Hz|Hz].
    + assert (n = length (inp st)) as Hnl by lia. rewrite decide_True in Hi by done.
      apply (d_step_wait _ fd); [|done| | |done|].
      * rewrite Hi. unfold parse_item. rewrite Hf. unfold parse_utf8.
        cbn [env advance set_env heap set_heap lmts]. rewrite (read_string_insert _ _ _ _ _ Er).
        rewrite Hnl, (take_ge (inp st)) by lia.
        apply utf8_resume. apply Z.ltb_ge in E2. unfold tot in E2.
        assert (max_value_without_crc_32 < 2 ^ 62) by (by vm_compute). lia.
      * cbn. rewrite Hnl. by rewrite drop_all.
      * by apply (frame_drop _ n).
      * intros Hfut. rewrite Hi, Hfut, app_nil_r. cbn [nlen length]. rewrite Nat.add_0_r, <- Hnl.
        fold tot. rewrite E1, E2. by rewrite Nat.eqb_refl.
    + rewrite decide_False in Hi by lia. fold tot in Hi. rewrite E1, E2 in Hi. cbn [orb] in Hi.
      rewrite (proj2 (Nat.eqb_neq _ _)) in Hi by (rewrite length_app; lia).
      rewrite take_app_le, drop_app_le in Hi by lia.
      eapply d_step_done; [|done|].
      * rewrite Hi. cbn [env inp advance set_env]. rewrite drop_drop.
        by replace (n + 1)%nat with (S n) by lia.
      * apply (frame_drop _ (n + 1)); [done|done|]. cbn. by rewrite drop_drop.
Qed.

Lemma d_call_spec : called (call st fd rest).
Proof using All.
  unfold call. destruct (fd_f fd) eqn:Hf;
    auto using d_call_binary, d_call_int, d_call_bool, d_call_string, call_string_check, call_chars,
      d_call_utf8, d_call_bitvec, call_bits_begin, call_bits_continue, d_call_cross,
      d_call_cross_continue, call_cross_done, call_limit.
Qed.
End step.

(** ** The loop *)

(** What a run does to a state whose stack parses to [P] on the buffer followed by [fut]. *)
Definition ran (st : Des) (fut : list Z) (P : pres) (r : outcome (bool * Des)) : Prop :=
  match r with
  | Ok (true, st') =>
      rdefaultlmts st' = rdefaultlmts st /\
      (exists k, inp st' = drop k (inp st)) /\
      (fstk st' = [] /\ (exists e', P = PDone e' (inp st' ++ fut) /\ heap (env st') = heap e') \/
       fstk st' <> [] /\ inp st' = [] /\ parse (env st') (fstk st') fut = P /\
       (fut = [] -> P = PMore) /\ (stack_weight (fstk st') <= stack_weight (fstk st))%nat)
  | Ok (false, st') => exists es er, P = PFail es /\ er ∈ es /\ err st' = Some er
  | Throws => P = PThrow
  | Invalid => False
  end.

Lemma ran_frame (st st1 : Des) (fut : list Z) (P : pres) r :
  frame st st1 -> (stack_weight (fstk st1) <= stack_weight (fstk st))%nat ->
  ran st1 fut P r -> ran st fut P r.
Proof.
  intros (Hd & _ & k & Hk) Hw. destruct r as [[[] st']| |]; cbn [ran]; try done.
  intros (Hd' & [k' Hk'] & H). split; [congruence|].
  split; [exists (k + k')%nat; by rewrite Hk', Hk, drop_drop|].
  destruct H as [H|(H1 & H2 & H3 & H4 & H5)]; [by left|right]. split_and!; try done. lia.
Qed.

Lemma is_bytes_drop (k : nat) (a b : list Z) : is_bytes (a ++ b) -> is_bytes (drop k a ++ b).
Proof.
  unfold is_bytes. rewrite !Forall_app. intros [H1 H2]. split; [|done]. by apply Forall_drop.
Qed.

Lemma d_run_loop_spec (fut : list Z) (fuel : nat) (st : Des) :
  null st = false -> Z.of_nat (length (inp st)) < 2 ^ 32 -> is_bytes (inp st ++ fut) ->
  parse (env st) (fstk st) (inp st ++ fut) <> PBad -> (stack_weight (fstk st) < fuel)%nat ->
  ran st fut (parse (env st) (fstk st) (inp st ++ fut)) (run_loop fuel st).
Proof.
  revert st. induction fuel as [|fuel IH]; intros st Hn Hl Hb Hg Hf; [lia|]. cbn [run_loop].
  destruct (fstk st) as [|fd rest] eqn:Hs.
  { cbn [ran parse]. split; [done|]. split; [by exists 0%nat|]. left. cbn. rewrite Hs.
    split; [done|]. cbn [parse] in Hg. destruct (estk (env st)); [|done]. by eexists. }
  pose proof (d_call_spec st fd rest fut Hn Hl Hb Hs Hg) as Hc.
  destruct (call st fd rest) as [[rv st1]| |]; cbn [called] in Hc; [|done|done].
  destruct Hc as [Hfr Hst]. pose proof Hfr as (Hd & Hnl & k & Hk).
  assert (Z.of_nat (length (inp st1)) < 2 ^ 32) as Hl1 by (rewrite Hk, length_drop; lia).
  assert (is_bytes (inp st1 ++ fut)) as Hb1 by (rewrite Hk; by apply is_bytes_drop).
  rewrite <- Hs in Hf.
  destruct Hst as [st1 Hp Hw|st1 Hp Hw|st1 Hp Hin Hm Hne Hw|st1 es er Hp He Herr].
  - apply (ran_frame st (set_fstk st1 (tail (fstk st1)))); [done|cbn [fstk set_fstk]; lia|].
    rewrite <- Hp. apply (IH (set_fstk st1 (tail (fstk st1)))); cbn [null inp env fstk set_fstk];
      [congruence|done|done|by rewrite Hp|lia].
  - apply (ran_frame st st1); [done|lia|]. rewrite <- Hp.
    apply IH; [congruence|done|done|by rewrite Hp|lia].
  - cbn [ran]. split; [done|]. split; [by exists k|]. right. done.
  - cbn [ran]. exists es, er. cbn. done.
Qed.

(** The caller's loop: [run] over the buffers until the deserializer is empty or fails; also
    returns what was not read. *)
Fixpoint run_all (fuel : nat) (st : Des) (cs : list (list Z)) : outcome (bool * Des * list Z) :=
  match cs with
  | [] => Ok (true, st, [])
  | c :: cs =>
      match run fuel st c with
      | Ok (r, st) =>
          if r <? 0 then Ok (false, st, mjoin cs)
          else if empty st then Ok (true, st, drop (Z.to_nat r) c ++ mjoin cs)
          else run_all fuel st cs
      | Throws => Throws
      | Invalid => Invalid
      end
  end.

(** A buffer whose size the [int] that [run] returns can count *)
Definition is_buffer (c : list Z) : Prop := is_bytes c /\ Z.of_nat (length c) < 2 ^ 31.

Lemma is_bytes_join (cs : list (list Z)) : Forall is_buffer cs -> is_bytes (mjoin cs).
Proof. induction 1 as [|c cs [H _] _ IH]; [constructor|]. by apply Forall_app. Qed.

Lemma d_run_all_spec (fuel : nat) (st : Des) (cs : list (list Z)) :
  Forall is_buffer cs -> cs <> [] -> (stack_weight (fstk st) < fuel)%nat ->
  match parse (env st) (fstk st) (mjoin cs) with
  | PDone e' rest =>
      exists st', run_all fuel st cs = Ok (true, st', rest) /\ empty st' = true /\
        heap (env st') = heap e'
  | PMore => exists st', run_all fuel st cs = Ok (true, st', []) /\ empty st' = false
  | PFail es =>
      exists st' rest er, run_all fuel st cs = Ok (false, st', rest) /\ err st' = Some er /\ er ∈ es
  | PThrow => run_all fuel st cs = Throws
  | PBad => True
  end.
Proof.
  intros Hcs. revert st. induction Hcs as [|c cs [Hc Hcl] Hcs IH]; intros st Hne Hf; [done|].
  change (mjoin (c :: cs)) with (c ++ mjoin cs). cbn [run_all]. unfold run.
  set (st0 := mkDes _ _ _ _ c false).
  set (P := parse (env st) (fstk st) (c ++ mjoin cs)).
  assert (P = PBad \/ P <> PBad) as [->|Hg] by (destruct P; auto); [done|].
  pose proof (d_run_loop_spec (mjoin cs) fuel st0 eq_refl ltac:(cbn [inp st0]; lia)
    ltac:(apply Forall_app; split; [done|by apply is_bytes_join]) Hg Hf) as H.
  change (parse (env st0) (fstk st0) (inp st0 ++ mjoin cs)) with P in H.
  destruct (run_loop fuel st0) as [[[] st']| |]; cbn [ran] in H; [| | |done].
  - destruct H as (_ & [k Hk] & H). cbn [inp st0] in Hk.
    assert (length (inp st') <= length c)%nat as Hle by (rewrite Hk, length_drop; lia).
    rewrite signed_small by (cbn; lia).
    rewrite (proj2 (Z.ltb_ge _ _)) by lia.
    destruct H as [[Hs (e' & HP & Hh)]|(Hs & Hin & HP & Hm & Hw)].
    + assert (empty st' = true) as He by (unfold empty; by rewrite Hs).
      rewrite HP, He. exists st'. split_and!; try done.
      do 3 f_equal. rewrite Hk, length_drop.
      destruct (decide (k <= length c)%nat); [f_equal; lia|]. by rewrite !drop_ge by lia.
    + assert (empty st' = false) as He by (unfold empty; by destruct (fstk st')).
      rewrite He.
      destruct (decide (cs = [])) as [->|Hne'].
      * rewrite (Hm eq_refl). by exists st'.
      * specialize (IH st' Hne'). rewrite <- HP. apply IH. cbn [st0 fstk] in Hw. lia.
  - destruct H as (es & er & -> & He & Herr). exists st', (mjoin cs), er. done.
  - by rewrite H.
Qed.

(** ** Items scheduled through the interface *)

Definition item_fd (it : item) : FncData :=
  match it with
  | ItInt n id => mkFnc (LoadInt n) (PObj id 0) (InvalidSize 64)
  | ItBool id => mkFnc LoadBool (PObj id 0) (InvalidSize 64)
  | ItString id => mkFnc LoadString (PObj id 0) (InvalidSize 64)
  | ItBitvec id => mkFnc LoadBitvec (PObj id 0) 0
  | ItBinary id sz => mkFnc (LoadBinary 0) (PObj id 0) sz
  | ItUtf8 id => mkFnc LoadUtf8 (PObj id 0) 0
  | ItCross w id => mkFnc (LoadCross w) (PObj id 0) (InvalidSize 64)
  | ItStringLimit v => mkFnc SetStringLimit PNull v
  | ItStreamLimit v => mkFnc SetStreamLimit PNull v
  | ItContainerLimit v => mkFnc SetContainerLimit PNull v
  end.

Definition clears (it : item) (h : gmap nat obj) : gmap nat obj :=
  match it with ItString id | ItUtf8 id => clear_string id h | _ => h end.
Definition cleared (its : list item) (h : gmap nat obj) : gmap nat obj := foldr clears h its.

Lemma d_push_items_fresh (its : list item) (l : Limits) (h : gmap nat obj) :
  push_items its (fresh l h) =
  mkDes (map item_fd its) (mkEnv (cleared its h) [] [] l) l None [] false.
Proof.
  induction its as [|it its IH]; [done|]. cbn [push_items foldr]. unfold push_items in IH.
  rewrite IH. by destruct it.
Qed.

(** The object an item fills has the right kind and enough bytes. *)
Definition holds (h : gmap nat obj) (id : nat) (n : Z) : Prop :=
  exists os, h !! id = Some (OBytes os) /\ n <= Z.of_nat (length os).

Definition dst_ok (h : gmap nat obj) (it : item) : Prop :=
  match it with
  | ItInt n id => n ∈ [1; 2; 4; 8]%nat /\ holds h id (Z.of_nat n)
  | ItBool id => holds h id 1
  | ItString id | ItUtf8 id => exists ps, h !! id = Some (OString ps)
  | ItBitvec id => exists pbs, h !! id = Some (OBits pbs)
  | ItBinary id sz => in_range 64 sz /\ holds h id sz
  | ItCross w id => w ∈ widths /\ exists v, h !! id = Some (OUint v)
  | _ => True
  end.

(** Objects keep their kind, and their size where it is fixed. *)
Definition same_shape (o o' : obj) : Prop :=
  match o, o' with
  | OBytes a, OBytes b => length a = length b
  | OUint _, OUint _ | OString _, OString _ | OBits _, OBits _ => True
  | _, _ => False
  end.
Definition shapes (h h' : gmap nat obj) : Prop :=
  forall id o, h !! id = Some o -> exists o', h' !! id = Some o' /\ same_shape o o'.

Lemma same_shape_refl (o : obj) : same_shape o o.
Proof. by destruct o. Qed.

Lemma shapes_insert (h : gmap nat obj) (id : nat) (o o' : obj) :
  h !! id = Some o -> same_shape o o' -> shapes h (<[id := o']> h).
Proof.
  intros Ho Hs id' o1 H1. destruct (decide (id' = id)) as [->|].
  - rewrite lookup_insert_eq. rewrite Ho in H1. simplify_eq. by eauto.
  - rewrite lookup_insert_ne by done. exists o1. split; [done|apply same_shape_refl].
Qed.

Lemma dst_ok_shapes (h h' : gmap nat obj) (it : item) : shapes h h' -> dst_ok h it -> dst_ok h' it.
Proof.
  intros Hsh. assert (forall id n, holds h id n -> holds h' id n) as Hh.
  { intros id n (os & Ho & Hn). destruct (Hsh _ _ Ho) as ([bs| | |] & Ho' & Hs); try done.
    exists bs. cbn in Hs. split; [done|lia]. }
  destruct it; cbn [dst_ok]; try done; try apply Hh; try (by intros []; auto).
  all: repeat match goal with |- (exists _, _) -> _ => intros [? Ho] | |- _ /\ _ -> _ => intros [? [? Ho]] end;
    destruct (Hsh _ _ Ho) as ([] & ? & ?); try done; by eauto.
Qed.

(** Strings stay far below the largest size while what is left of the input is added. *)
Definition strings_fit (h : gmap nat obj) (i : list Z) : Prop :=
  forall id ps, h !! id = Some (OString ps) -> Z.of_nat (length ps) + Z.of_nat (length i) < 2 ^ 63.

Lemma clear_string_ok (id : nat) (h : gmap nat obj) (i : list Z) :
  shapes h (clear_string id h) /\ (strings_fit h i -> strings_fit (clear_string id h) i).
Proof.
  unfold clear_string.
  assert (shapes h h) as Hrefl by (intros j o H; exists o; by split; [|apply same_shape_refl]).
  destruct (h !! id) as [[]|] eqn:E; try done. split; [by eapply shapes_insert|].
  intros Hf j ps. destruct (decide (j = id)) as [->|].
  - rewrite lookup_insert_eq. intros [= <-]. specialize (Hf _ _ E). cbn [length]. lia.
  - rewrite lookup_insert_ne by done. apply Hf.
Qed.

Lemma shapes_trans (a b c : gmap nat obj) : shapes a b -> shapes b c -> shapes a c.
Proof.
  intros H1 H2 id o Ho. destruct (H1 _ _ Ho) as (o1 & Ho1 & S1).
  destruct (H2 _ _ Ho1) as (o2 & Ho2 & S2). exists o2. split; [done|].
  destruct o, o1, o2; cbn in *; done || lia.
Qed.

Lemma cleared_ok (its : list item) (h : gmap nat obj) (i : list Z) :
  shapes h (cleared its h) /\ (strings_fit h i -> strings_fit (cleared its h) i).
Proof.
  induction its as [|it its [IH1 IH2]].
  { split; [|done]. intros j o H. exists o. split; [done|apply same_shape_refl]. }
  cbn [cleared foldr]. fold (cleared its h).
  destruct it; cbn [clears]; try done;
    destruct (clear_string_ok id (cleared its h) i) as [H1 H2];
    (split; [by eapply shapes_trans|auto]).
Qed.

(** ** Every input is handled: no invalid access *)

Lemma parse_bytes_spec (e : Env) (id : nat) (os : list Z) (n : Z) (i : list Z) :
  heap e !! id = Some (OBytes os) -> 0 <= n <= Z.of_nat (length os) ->
  parse_bytes e (PObj id 0) n i =
  match take_bytes n i with
  | None => IMore
  | Some (bs, r) => IDone (norm (set_heap e (<[id := OBytes (splice os 0 bs)]> (heap e)))) r
  end.
Proof.
  intros Ho Hn. unfold parse_bytes, write_bytes. rewrite Ho, length_replicate.
  rewrite decide_True by lia. unfold take_bytes. case_Z; [|done].
  rewrite decide_True; [done|]. rewrite length_take. lia.
Qed.

Lemma take_bytes_inv (n : Z) (i bs r : list Z) :
  0 <= n -> take_bytes n i = Some (bs, r) -> i = bs ++ r /\ Z.of_nat (length bs) = n.
Proof.
  intros Hn. unfold take_bytes. case_Z; [|done]. intros [= <- <-].
  rewrite take_drop, length_take. split; [done|lia].
Qed.

Lemma parse_cross_inv (w : Z) (i : list Z) (v : Z) (r : list Z) :
  w ∈ widths -> is_bytes i -> parse_cross w i = CDone v r ->
  in_range w v /\ exists k, r = drop k i.
Proof.
  intros Hw Hb Hp. split; [by eapply parse_cross_range|]. unfold parse_cross in Hp.
  destruct i as [|c i]; [done|]. revert Hp. case_Z; try done.
  destruct (crossLoad w (c :: i)); try done. intros [= _ <-]. by eexists.
Qed.

(** What an item leaves behind when it has been read from [i]. *)
Definition item_kept (e : Env) (i : list Z) (r : ires) : Prop :=
  match r with
  | IDone e' i' =>
      shapes (heap e) (heap e') /\ estk e' = [] /\ (exists k, i' = drop k i) /\
      (strings_fit (heap e) i -> strings_fit (heap e') i')
  | IBad => False
  | _ => True
  end.

Lemma strings_fit_drop (h : gmap nat obj) (k : nat) (i : list Z) :
  strings_fit h i -> strings_fit h (drop k i).
Proof. intros Hf id ps Hp. specialize (Hf id ps Hp). rewrite length_drop. lia. Qed.

Lemma kept_intro (e e' : Env) (id k : nat) (o o' : obj) (i i' : list Z) :
  heap e !! id = Some o -> same_shape o o' -> heap e' = <[id := o']> (heap e) -> estk e' = [] ->
  i' = drop k i ->
  (forall ps ps', o = OString ps -> o' = OString ps' ->
     (length ps' + length i' <= length ps + length i)%nat) ->
  item_kept e i (IDone e' i').
Proof.
  intros Ho Hs Hh He -> Hps. split_and!; [rewrite Hh; by eapply shapes_insert|done|by exists k|].
  intros Hf j ps. rewrite Hh. destruct (decide (j = id)) as [->|].
  - rewrite lookup_insert_eq. intros [= ->].
    destruct o as [| |ps0|]; cbn in Hs; try done. specialize (Hf _ _ Ho).
    specialize (Hps ps0 ps eq_refl eq_refl). lia.
  - rewrite lookup_insert_ne by done. intros Hp. by apply (strings_fit_drop _ k _ Hf j).
Qed.

Lemma parse_bytes_kept (e : Env) (id : nat) (n : Z) (i : list Z) :
  holds (heap e) id n -> 0 <= n -> estk e = [] -> item_kept e i (parse_bytes e (PObj id 0) n i).
Proof.
  intros (os & Ho & Hle) Hn He. rewrite (parse_bytes_spec e id os) by done.
  destruct (take_bytes n i) as [[bs r]|] eqn:Et; [|done].
  apply take_bytes_inv in Et as [-> Hl]; [|done].
  eapply (kept_intro _ _ id (length bs)); [done| |reflexivity|done| |done].
  - cbn. rewrite splice_length; [done|]. lia.
  - by rewrite drop_app_length.
Qed.

Lemma parse_chars_kept (e : Env) (id : nat) (ps : list Z) (ul : Z) (k : nat) (i0 i : list Z) :
  heap e !! id = Some (OString ps) -> 0 <= ul -> estk e = [] -> i = drop k i0 ->
  item_kept e i0 (parse_chars e (PObj id 0) ul i).
Proof.
  intros Ho Hul He Hi. unfold parse_chars. cbn [read_string]. rewrite Ho.
  destruct (take_bytes ul i) as [[bs r]|] eqn:Et; [|done].
  apply take_bytes_inv in Et as [E Hl]; [|done].
  assert (r = drop (k + length bs) i0) as Hr.
  { by rewrite <- drop_drop, <- Hi, E, drop_app_length. }
  eapply (kept_intro _ _ id (k + length bs)); [done| |reflexivity|done|done|]; [done|].
  intros ps0 ps' [= <-] [= <-]. rewrite length_app.
  assert (length i <= length i0)%nat by (rewrite Hi, length_drop; lia).
  rewrite E, length_app in H. lia.
Qed.

Lemma parse_bits_kept (e : Env) (id : nat) (pbs : list bool) (len : Z) (k : nat) (i0 i : list Z) :
  heap e !! id = Some (OBits pbs) -> 0 <= len -> estk e = [] -> i = drop k i0 ->
  item_kept e i0 (parse_bits (resized e (PObj id 0) len) (PObj id 0) 0 len i).
Proof.
  intros Ho Hlen He Hi. unfold parse_bits, resized. cbn [read_bits]. rewrite Ho.
  cbn [heap set_heap]. rewrite lookup_insert_eq, Z.sub_0_r.
  destruct (take_bytes _ i) as [[bs r]|] eqn:Et; [|done].
  apply take_bytes_inv in Et as [E Hl]; [|by apply bits_bytes_nonneg].
  rewrite insert_insert_eq.
  eapply (kept_intro _ _ id (k + length bs)); [done| |reflexivity|done| |done]; [done|].
  by rewrite <- drop_drop, <- Hi, E, drop_app_length.
Qed.

Lemma item_kept_spec (e : Env) (it : item) (i : list Z) :
  dst_ok (heap e) it -> estk e = [] -> is_bytes i -> strings_fit (heap e) i ->
  item_kept e i (parse_item e (item_fd it) i).
Proof.
  intros Hd He Hb Hf. destruct it as [n id|id|id|id|id sz|id|w id|v|v|v]; cbn [dst_ok] in Hd;
    unfold parse_item; cbn [item_fd fd_f fd_p fd_s].
  - destruct Hd as [Hn Hh]. rewrite decide_True by done. apply parse_bytes_kept; done || lia.
  - destruct Hd as (os & Ho & Hl). cbn [write_bytes]. rewrite Ho.
    rewrite decide_True by (cbn [length]; lia). destruct i as [|c i]; [done|].
    eapply (kept_intro _ _ id 1); [done| |reflexivity|done|done|done].
    cbn. rewrite splice_length; [done|]. cbn [length]. lia.
  - destruct Hd as [ps Ho]. cbn [read_string]. rewrite Ho.
    destruct (parse_cross 64 i) as [v r| | |] eqn:Ec; try done.
    apply parse_cross_inv in Ec as [Hv [k ->]]; [|in_list|done].
    destruct (checked_len _ v _) as [ul|] eqn:El; [|done].
    apply checked_len_nonneg in El; [|apply Hv]. by eapply parse_chars_kept.
  - destruct Hd as [pbs Ho]. cbn [read_bits]. rewrite Ho.
    destruct (parse_cross 64 i) as [v r| | |] eqn:Ec; try done.
    apply parse_cross_inv in Ec as [Hv [k ->]]; [|in_list|done].
    destruct (checked_len _ v _) as [ul|] eqn:El; [|done].
    apply checked_len_nonneg in El; [|apply Hv]. by eapply parse_bits_kept.
  - destruct Hd as [Hs Hh]. rewrite decide_True by (split; [lia|done]).
    apply parse_bytes_kept; try done. apply Hs.
  - destruct Hd as [ps Ho]. unfold parse_utf8. cbn [read_string]. rewrite Ho.
    pose proof (Hf _ _ Ho) as Hl. rewrite (proj2 (Z.leb_gt _ _)) by lia.
    destruct (_ || _); [done|]. set (n := nlen i (length i)).
    destruct (Nat.eqb_spec n (length i)) as [|Hn]; [done|].
    eapply (kept_intro _ _ id (S n)); [done| |reflexivity|done|done|]; [done|].
    intros ps0 ps' [= <-] [= <-]. rewrite length_app, length_take, length_drop. lia.
  - destruct Hd as [Hw [v0 Ho]]. rewrite decide_True by done. cbn [write_uint]. rewrite Ho.
    destruct (parse_cross w i) as [v r| | |] eqn:Ec; try done.
    apply parse_cross_inv in Ec as [Hv [k ->]]; [|done|done].
    eapply (kept_intro _ _ id k); [exact Ho| |reflexivity|done|done|]; [done|]. done.
  - split_and!; [|done|by exists 0%nat|done]. intros j o Hj. exists o. split; [done|apply same_shape_refl].
  - split_and!; [|done|by exists 0%nat|done]. intros j o Hj. exists o. split; [done|apply same_shape_refl].
  - split_and!; [|done|by exists 0%nat|done]. intros j o Hj. exists o. split; [done|apply same_shape_refl].
Qed.

Lemma parse_items_good (its : list item) (e : Env) (i : list Z) :
  Forall (dst_ok (heap e)) its -> estk e = [] -> is_bytes i -> strings_fit (heap e) i ->
  parse e (map item_fd its) i <> PBad.
Proof.
  revert e i. induction its as [|it its IH]; intros e i Hd He Hb Hf; cbn [map parse].
  { by rewrite He. }
  apply Forall_cons in Hd as [Hd Hds].
  pose proof (item_kept_spec e it i Hd He Hb Hf) as Hk.
  destruct (parse_item e (item_fd it) i) as [e' i'| | | |]; try done.
  destruct Hk as (Hsh & He' & [k ->] & Hf'). apply IH; auto.
  - eapply Forall_impl; [exact Hds|]. intros x. by apply dst_ok_shapes.
  - by apply Forall_drop.
Qed.

(** ** Properties *)

(** C24: the deserializer is total and does not depend on how its input is cut into buffers. For
    items pushed on a fresh deserializer whose target objects exist, and for any bytes cut in
    any way into buffers shorter than 2^31 bytes (the result of [run] is an [int]; a string and
    all the input together stay below 2^63), it makes no invalid access and does what the reference
    parser does on the whole input: it ends empty with the parsed objects and leaves unread exactly
    what follows them, or asks for more input, or returns [-1] with one of the errors the parser
    allows, or throws. *)
Theorem deserializer_chunk_invariant (l : Limits) (h : gmap nat obj) (its : list item)
    (cs : list (list Z)) :
  Forall (dst_ok h) its -> Forall is_buffer cs -> cs <> [] -> strings_fit h (mjoin cs) ->
  let st := push_items its (fresh l h) in
  let fuel := S (stack_weight (fstk st)) in
  match parse (env st) (fstk st) (mjoin cs) with
  | PDone e' rest =>
      exists st', run_all fuel st cs = Ok (true, st', rest) /\ empty st' = true /\
        heap (env st') = heap e'
  | PMore => exists st', run_all fuel st cs = Ok (true, st', []) /\ empty st' = false
  | PFail es =>
      exists st' rest er, run_all fuel st cs = Ok (false, st', rest) /\ err st' = Some er /\ er ∈ es
  | PThrow => run_all fuel st cs = Throws
  | PBad => False
  end.
Proof.
  intros Hd Hcs Hne Hf st fuel.
  pose proof (d_run_all_spec fuel st cs Hcs Hne (Nat.lt_succ_diag_r _)) as H.
  assert (parse (env st) (fstk st) (mjoin cs) <> PBad) as Hg.
  { unfold st. rewrite d_push_items_fresh. cbn [env fstk].
    destruct (cleared_ok its h (mjoin cs)) as [Hsh Hf'].
    apply parse_items_good; cbn [heap]; auto.
    - eapply Forall_impl; [exact Hd|]. intros it. by apply dst_ok_shapes.
    - by apply is_bytes_join. }
  by destruct (parse (env st) (fstk st) (mjoin cs)).
Qed.

Lemma deserializer_chunk_invariant_witness :
  let h := <[0%nat := OString []]> (<[1%nat := OBytes [0; 0]]> ∅) in
  let st := push_items [ItString 0; ItInt 2 1] (fresh unlimited h) in
  exists st', run_all (S (stack_weight (fstk st))) st [[9]; [129; 104]; []; [105; 7; 8; 99]] =
      Ok (true, st', [99]) /\ empty st' = true.
Proof.
  intros h st.
  pose proof (deserializer_chunk_invariant unlimited h [ItString 0; ItInt 2 1]
    [[9]; [129; 104]; []; [105; 7; 8; 99]]) as H.
  destruct H as (st' & H1 & H2 & _).
  - repeat constructor; cbn; [by eexists|]. exists [0; 0]. split; [done|]. cbn. lia.
  - repeat constructor; by vm_compute.
  - done.
  - intros id ps. unfold h. destruct (decide (id = 0%nat)) as [->|].
    + rewrite lookup_insert_eq. intros [= <-]. by vm_compute.
    + rewrite lookup_insert_ne by done. destruct (decide (id = 1%nat)) as [->|].
      * by rewrite lookup_insert_eq.
      * by rewrite lookup_insert_ne, lookup_empty by done.
  - exists st'. split; [exact H1|exact H2].
Defined.

(** A header byte that does not carry its bit count. *)
Definition corrupt (c : Z) : Prop := snd (check_value_with_crc8 c) = false.

(** A corrupt header byte of a cross integer is not reported. For 8-bit values the
    deserializer throws ([std::string::resize] with [size_t(-1)]); for the other widths it asks
    for more input, and keeps doing so until [2^32 - 1] bytes have been received. *)
Theorem corrupt_cross_header_not_reported (l : Limits) (w c : Z) (i : list Z) :
  w ∈ widths -> in_range 8 c -> is_bytes i -> corrupt c -> Z.of_nat (length i) < 2 ^ 31 - 1 ->
  let st := push_items [ItCross w 0] (fresh l {[ 0%nat := OUint 0 ]}) in
  if w =? 8 then run_all 4 st [c :: i] = Throws
  else exists st', run_all 4 st [c :: i] = Ok (true, st', []) /\ empty st' = false.
Proof.
  intros Hw Hc Hi Hbad Hl st.
  assert (Forall is_buffer [c :: i]) as Hbuf.
  { apply Forall_singleton. split; [by constructor|]. cbn [length]. lia. }
  pose proof (d_run_all_spec 4 st [c :: i] Hbuf ltac:(done) ltac:(cbn; lia)) as H.
  assert (parse (env st) (fstk st) (mjoin [c :: i]) = if w =? 8 then PThrow else PMore) as Hp.
  { unfold st. rewrite d_push_items_fresh. cbn [env fstk map cleared foldr clears item_fd].
    cbn [mjoin list_join]. rewrite app_nil_r. rewrite parse_cons. unfold parse_item.
    cbn [fd_f fd_p fd_s]. rewrite decide_True by done. cbn [write_uint heap].
    rewrite lookup_singleton_eq. unfold parse_cross, cross_len. cbn [crossSizeAt].
    unfold corrupt in Hbad. destruct (check_value_with_crc8 c) as [v ok]. cbn in Hbad. subst ok.
    cbn [default from_option id]. destruct (w =? 8); [done|].
    change (string_max_size <? wrap 32 (wrap 64 (-1))) with false. cbv iota.
    change (wrap 32 (wrap 64 (-1))) with 4294967295.
    by rewrite (proj2 (Z.leb_gt _ _)) by (cbn [length]; lia). }
  rewrite Hp in H. by destruct (w =? 8).
Qed.

Lemma corrupt_cross_header_not_reported_witness :
  exists st', run_all 4 (push_items [ItCross 32 0] (fresh unlimited {[ 0%nat := OUint 0 ]}))
      [[8; 1; 2; 3]] = Ok (true, st', []) /\ empty st' = false.
Proof.
  apply (corrupt_cross_header_not_reported unlimited 32 8 [1; 2; 3]);
    [in_list|by vm_compute|repeat constructor; by vm_compute|reflexivity|by vm_compute].
Defined.

(** Nothing was taken off the stack. *)
Definition still_scheduled (st st' : Des) : Prop := fstk st' = fstk st.

(** [clear] does not empty a deserializer that waits for a zero-terminated string:
    [loadUtf8] does not test for the null buffer and asks for more input, so the whole stack
    stays scheduled. *)
Theorem deserializer_clear_stuck_at_utf8 (l : Limits) (h : gmap nat obj) (id : nat)
    (its : list item) (fuel : nat) :
  (exists ps, h !! id = Some (OString ps)) -> 0 <= stringlimit l ->
  let st := push_items (ItUtf8 id :: its) (fresh l h) in
  exists st', clear (S fuel) st = Ok (true, st') /\ still_scheduled st st'.
Proof.
  intros Hid Hl st. unfold st. rewrite d_push_items_fresh. unfold clear. cbn [fstk env].
  assert (cleared (ItUtf8 id :: its) h !! id = Some (OString [])) as Hc.
  { cbn [cleared foldr clears]. fold (cleared its h). destruct Hid as [ps Hps].
    destruct (cleared_ok its h []) as [Hsh _]. destruct (Hsh _ _ Hps) as ([] & Ho & ?); try done.
    unfold clear_string. rewrite Ho. apply lookup_insert_eq. }
  eexists. cbn [run_loop fstk map item_fd]. unfold call. cbn [fd_f].
  unfold loadUtf8. cbn [env heap fd_p read_string]. rewrite Hc. cbn [need inp buffer_len lmts].
  match goal with |- context [stringlimit l <? ?x] => change x with 0 end.
  rewrite (proj2 (Z.ltb_ge (stringlimit l) 0)) by lia.
  match goal with |- context [if ?b then _ else _] => change b with false end.
  split; [reflexivity|]. done.
Qed.

Lemma deserializer_clear_stuck_at_utf8_witness :
  exists st', clear 9 (push_items [ItUtf8 0; ItBool 1] (fresh unlimited {[ 0%nat := OString [1] ]})) =
    Ok (true, st') /\ length (fstk st') = 2%nat.
Proof.
  destruct (deserializer_clear_stuck_at_utf8 unlimited {[ 0%nat := OString [1] ]} 0 [ItBool 1] 8)
    as (st' & H & E).
  - exists [1]. reflexivity.
  - by vm_compute.
  - exists st'. split; [exact H|]. rewrite E. reflexivity.
Defined.

End DeserializerProofs.
