(* ===== verification/RoundTrip.v ===== *)
(** * Serializer and deserializer together

    What [SerializerBase] writes, cut into buffers in any way, is read back by
    [DeserializerBase] from buffers cut in any other way. *)

From stdpp Require Import gmap.
From S2P Require Import Prelude Bits BinaryBasic SerialBase.
From S2P Require Import Serializer Deserializer DeserializerProofs.
Import Bits BinaryBasic SerialBase.

Module RoundTrip.

Module S := Serializer.
Module D := Deserializer.
Import DeserializerProofs.

(** ** Which items transport which objects *)

(** [transports it o jt o' r]: item [it] writes the object [o], item [jt] reads it into an
    object [o'], which becomes [r]; the limits in force on the reading side are [l]. *)
Inductive transports (l : Limits) : S.item -> nat -> obj -> D.item -> obj -> obj -> Prop :=
  | t_int n id bs bs' :
      n ∈ [1; 2; 4; 8]%nat -> length bs = n -> length bs' = n ->
      transports l (S.ItInt n id) id (OBytes bs) (D.ItInt n id) (OBytes bs') (OBytes bs)
  | t_bool id b b' :
      b = 0 \/ b = 1 ->
      transports l (S.ItBool id) id (OBytes [b]) (D.ItBool id) (OBytes [b']) (OBytes [b])
  | t_string id c c' :
      Z.of_nat (length c) < stringlimit l ->
      transports l (S.ItString id) id (OString c) (D.ItString id) (OString c') (OString c)
  | t_bitvec id c c' :
      Z.of_nat (length c) < containerlimit l ->
      transports l (S.ItBitvec id) id (OBits c) (D.ItBitvec id) (OBits c') (OBits c)
  | t_binary id bs bs' :
      length bs' = length bs -> in_range 64 (Z.of_nat (length bs)) ->
      transports l (S.ItBinary id (Z.of_nat (length bs))) id (OBytes bs)
        (D.ItBinary id (Z.of_nat (length bs))) (OBytes bs') (OBytes bs)
  | t_utf8 id c c' :
      0 ∉ c -> Z.of_nat (length c) <= stringlimit l ->
      transports l (S.ItUtf8 id (Z.of_nat (length c))) id (OString c) (D.ItUtf8 id) (OString c') (OString c)
  | t_cross w id v v' :
      transports l (S.ItCross w id) id (OUint v) (D.ItCross w id) (OUint v') (OUint v).

(** Items that are written from [m] and read into [h] one after the other; [h'] has what was
    written in place of what was there. *)
Inductive transported (m : S.mem) : Limits -> list S.item -> list D.item ->
    gmap nat obj -> gmap nat obj -> Prop :=
  | tr_nil l h : transported m l [] [] h h
  | tr_item l it id o jt o' r its jts h h' :
      transports l it id o jt o' r -> m id = Some o -> h !! id = Some o' ->
      transported m l its jts (<[id := r]> h) h' ->
      (forall jt', jt' ∈ jts -> jt' <> D.ItString id /\ jt' <> D.ItUtf8 id) ->
      transported m l (it :: its) (jt :: jts) h h'
  | tr_string_limit l v its jts h h' :
      transported m (mkLimits v (containerlimit l) (streamlimit l)) its jts h h' ->
      transported m l (S.ItStringLimit v :: its) (D.ItStringLimit v :: jts) h h'
  | tr_stream_limit l v its jts h h' :
      transported m (mkLimits (stringlimit l) (containerlimit l) v) its jts h h' ->
      transported m l (S.ItStreamLimit v :: its) (D.ItStreamLimit v :: jts) h h'
  | tr_container_limit l v its jts h h' :
      transported m (mkLimits (stringlimit l) v (streamlimit l)) its jts h h' ->
      transported m l (S.ItContainerLimit v :: its) (D.ItContainerLimit v :: jts) h h'.

(** ** The encodings *)

Lemma parse_cross_enc (w v : Z) (r : list Z) :
  w ∈ widths -> in_range w v -> D.parse_cross w (enc_cross v ++ r) = D.CDone v r.
Proof.
  intros Hw Hv. assert (in_range 64 v) as Hv64.
  { apply (in_range_mono w); [|done]. unfold widths in Hw.
    repeat rewrite ?elem_of_cons, ?elem_of_nil in Hw. lia. }
  pose proof (length_enc_cross v Hv64) as Hl. pose proof (sig_bytes_le 8 v ltac:(lia) Hv64) as Hs.
  assert (D.cross_len w (enc_cross v) = sig_bytes v + 1) as Hc.
  { destruct (enc_cross_eq v Hv64) as (h & _ & _ & Hc & ->). unfold D.cross_len. cbn [crossSizeAt].
    rewrite Hc. cbn [default from_option id]. rewrite (wrap_small 64) by (unfold in_range; lia).
    rewrite wrap_small by (unfold in_range; lia). by destruct (w =? 8). }
  rewrite parse_cross_app by (by apply enc_cross_nonempty). rewrite Hc. unfold D.string_max_size.
  rewrite (proj2 (Z.ltb_ge _ _)), (proj2 (Z.leb_le _ _)) by (rewrite ?length_app; lia).
  rewrite (cross_loads_spec w (D.crossLoad w) v r (crossLoad_in w Hw) Hv64).
  rewrite (proj2 (Z.ltb_lt _ _)) by apply Hv.
  by rewrite drop_app_length' by lia.
Qed.

Lemma enc_sized_inv (limit n : Z) (bytes w : list Z) (elim emax : Errors) :
  0 <= n -> S.enc_sized limit n bytes elim emax = (w, None) ->
  exists v, w = enc_cross v ++ bytes /\ in_range 64 v /\ D.check_len v = Some n.
Proof.
  intros Hn. unfold S.enc_sized. destruct (limit <? n); [done|].
  destruct (compute_value_with_crc64 n) as [v|] eqn:E; [|done]. intros [= <-]. exists v.
  destruct (crc_compute_inv (C := crc64) n v Hn E) as (Hr & Hv & _ & _). split; [done|].
  split; [done|]. destruct (crc_roundtrip (C := crc64) n Hr) as (v' & E' & _ & Hc).
  change (compute_value_with_crc64 n = Some v') in E'. rewrite E in E'. injection E' as <-.
  change (check_value_with_crc64 v = (n, true)) in Hc. unfold D.check_len.
  destruct (Z.eqb_spec v (InvalidSize 64)) as [->|]; [|by rewrite Hc].
  vm_compute in Hc. discriminate.
Qed.

Lemma byte_bits_of (bits : list bool) :
  (length bits <= 8)%nat -> take (length bits) (D.byte_bits (byte_of_bits bits)) = bits.
Proof.
  intros H. do 9 (destruct bits as [|? bits]; [clear H;
    repeat match goal with b : bool |- _ => destruct b end; reflexivity|cbn [length] in H]). lia.
Qed.

(** Packed bits are unpacked to themselves. *)
Lemma unpack_pack_bits (bits : list bool) :
  Z.of_nat (length (pack_bits bits)) = D.bits_bytes (Z.of_nat (length bits)) /\
  D.unpack_bits (Z.of_nat (length bits)) (pack_bits bits) = bits.
Proof.
  induction bits as [bits IH] using (induction_ltof1 _ (@length bool)). unfold ltof in IH.
  destruct bits as [|b0 [|b1 [|b2 [|b3 [|b4 [|b5 [|b6 [|b7 bits]]]]]]]];
    try (split; [done|]; unfold D.unpack_bits; rewrite Nat2Z.id; cbn [pack_bits map];
         match goal with |- take ?n (mjoin [?x]) = _ => change (mjoin [x]) with (x ++ []) end;
         rewrite app_nil_r; match goal with |- _ = ?l => apply (byte_bits_of l); cbn; lia end).
  { done. }
  destruct (IH bits) as [H1 H2]; [cbn [length]; lia|].
  set (n := length bits) in *. cbn [pack_bits]. split.
  - cbn [length]. fold n. rewrite Nat2Z.inj_succ, H1. unfold D.bits_bytes.
    replace (Z.of_nat (S (S (S (S (S (S (S (S n)))))))) + 7) with (Z.of_nat n + 7 + 1 * 8) by lia.
    rewrite Z.div_add by lia. lia.
  - cbn [length]. fold n. change (S (S (S (S (S (S (S (S n)))))))) with (8 + n)%nat.
    rewrite unpack_cons, H2.
    pose proof (byte_bits_of [b0; b1; b2; b3; b4; b5; b6; b7] ltac:(cbn; lia)) as Hb.
    cbn [length] in Hb. rewrite take_ge in Hb by (cbn; lia). by rewrite Hb.
Qed.

(** ** Items *)

Lemma read_all (m : S.mem) (id : nat) (bs : list Z) :
  m id = Some (OBytes bs) -> S.read_bytes m (PObj id 0) (length bs) = Some bs.
Proof.
  intros Hm. cbn [S.read_bytes]. rewrite Hm. cbn. by rewrite decide_True, drop_0, take_ge by lia.
Qed.

Lemma splice_all {A} (l bs : list A) : length l = length bs -> D.splice l 0 bs = bs.
Proof. intros H. unfold D.splice. rewrite take_0, drop_ge by lia. apply app_nil_r. Qed.

Lemma parse_bytes_all (e : D.Env) (id : nat) (os bs r : list Z) :
  D.heap e !! id = Some (OBytes os) -> length os = length bs ->
  D.parse_bytes e (PObj id 0) (Z.of_nat (length bs)) (bs ++ r) =
  D.IDone (D.norm (D.set_heap e (<[id := OBytes bs]> (D.heap e)))) r.
Proof.
  intros Ho Hl. rewrite (parse_bytes_spec e id os) by (done || lia).
  rewrite take_bytes_all by done. by rewrite splice_all by lia.
Qed.

Lemma nlen_zero (c r : list Z) : 0 ∉ c -> D.nlen (c ++ 0 :: r) (length (c ++ 0 :: r)) = length c.
Proof.
  induction c as [|x c IH]; [done|]. rewrite not_elem_of_cons. intros [Hx Hc].
  cbn [app length D.nlen]. destruct (Z.eqb_spec x 0); [congruence|]. f_equal. by apply IH.
Qed.

Section item.
Context (m : S.mem) (ls ld : Limits) (g : gmap nat obj) (t : list Z) (rest : list Z).

(** The item [jt] reads [bs] into [r]. *)
Definition reads (id : nat) (jt : D.item) (bs : list Z) (r : obj) : Prop :=
  D.parse_item (D.mkEnv (clears jt g) [] t ld) (item_fd jt) (bs ++ rest) =
  D.IDone (D.mkEnv (<[id := r]> g) [] [] ld) rest.

Lemma cleared_string (id : nat) (c : list Z) :
  g !! id = Some (OString c) -> D.clear_string id g = <[id := OString []]> g.
Proof using Type. intros H. unfold D.clear_string. by rewrite H. Qed.

Lemma reads_string (id : nat) (c c' bs : list Z) :
  g !! id = Some (OString c') -> Z.of_nat (length c) < stringlimit ld ->
  S.enc_sized (stringlimit ls) (Z.of_nat (length c)) c ERR_STRING_LIMIT ERR_STRING_MAX_LIMIT = (bs, None) ->
  reads id (D.ItString id) bs (OString c).
Proof using Type.
  intros Hg Hl He. apply enc_sized_inv in He as (v & -> & Hv & Hc); [|lia].
  unfold reads. cbn [clears item_fd]. rewrite (cleared_string id c' Hg). unfold D.parse_item.
  cbn [D.fd_f D.fd_p D.heap D.lmts D.read_string]. rewrite lookup_insert_eq, <- app_assoc.
  rewrite parse_cross_enc; [|in_list|done]. unfold D.checked_len. rewrite Hc.
  rewrite (proj2 (Z.leb_gt _ _)) by done. unfold D.parse_chars.
  cbn [D.heap D.read_string]. rewrite lookup_insert_eq, take_bytes_all by done.
  cbn. by rewrite insert_insert_eq.
Qed.

Lemma reads_bitvec (id : nat) (c c' : list bool) (bs : list Z) :
  g !! id = Some (OBits c') -> Z.of_nat (length c) < containerlimit ld ->
  S.enc_sized (containerlimit ls) (Z.of_nat (length c)) (pack_bits c)
    ERR_CONTAINER_LIMIT ERR_CONTAINER_MAX_LIMIT = (bs, None) ->
  reads id (D.ItBitvec id) bs (OBits c).
Proof using Type.
  intros Hg Hl He. apply enc_sized_inv in He as (v & -> & Hv & Hc); [|lia].
  unfold reads. cbn [clears item_fd]. unfold D.parse_item.
  cbn [D.fd_f D.fd_p D.heap D.lmts D.read_bits]. rewrite Hg, <- app_assoc.
  rewrite parse_cross_enc; [|in_list|done]. unfold D.checked_len. rewrite Hc.
  rewrite (proj2 (Z.leb_gt _ _)) by done.
  assert (D.resized (D.mkEnv g [] t ld) (PObj id 0) (Z.of_nat (length c)) =
    D.mkEnv (<[id := OBits (D.resize false c' (Z.to_nat (Z.of_nat (length c))))]> g) [] t ld) as ->.
  { unfold D.resized. cbn [D.heap D.read_bits]. by rewrite Hg. }
  unfold D.parse_bits. cbn [D.heap D.read_bits D.set_heap]. rewrite lookup_insert_eq, Z.sub_0_r.
  destruct (unpack_pack_bits c) as [Hlen Hun]. rewrite take_bytes_all by done.
  rewrite Hun, splice_all; [cbn; by rewrite insert_insert_eq|].
  unfold D.resize. rewrite length_app, length_take, length_replicate. lia.
Qed.

Lemma reads_utf8 (id : nat) (c c' bs : list Z) :
  g !! id = Some (OString c') -> 0 ∉ c -> Z.of_nat (length c) <= stringlimit ld ->
  m id = Some (OString c) ->
  S.enc_item m ls (S.ItUtf8 id (Z.of_nat (length c))) = Some (bs, None) ->
  reads id (D.ItUtf8 id) bs (OString c).
Proof using Type.
  intros Hg Hz Hl Hm. cbn [S.enc_item]. case_decide; [|done].
  destruct (stringlimit ls <? _); [done|].
  destruct (Z.ltb_spec max_value_without_crc_32 (Z.of_nat (length c))) as [|Hmax]; [done|].
  cbn [S.read_bytes]. rewrite Hm. cbn [mbind option_bind obj_bytes].
  rewrite length_app. cbn [length]. rewrite decide_True by lia. rewrite drop_0, take_ge
    by (rewrite length_app; cbn [length]; lia).
  cbn [mbind option_bind]. intros [= <-].
  unfold reads. cbn [clears item_fd]. rewrite (cleared_string id c' Hg). unfold D.parse_item.
  cbn [D.fd_f D.fd_p]. unfold D.parse_utf8. cbn [D.heap D.lmts D.read_string].
  rewrite lookup_insert_eq, <- app_assoc. cbn [app]. rewrite nlen_zero by done. cbn [length].
  rewrite Z.add_0_l, (proj2 (Z.leb_gt _ _)) by (cbn; lia).
  rewrite (proj2 (Z.ltb_ge _ _)), (proj2 (Z.ltb_ge _ _)) by lia. cbn [orb].
  rewrite (proj2 (Nat.eqb_neq _ _)) by (rewrite length_app; cbn [length]; lia).
  rewrite take_app_length. replace (S (length c)) with (length c + 1)%nat by lia.
  rewrite drop_app_add. cbn. by rewrite insert_insert_eq.
Qed.

Lemma reads_item (id : nat) (it : S.item) (jt : D.item) (o o' r : obj) (bs : list Z) :
  transports ld it id o jt o' r -> m id = Some o -> g !! id = Some o' ->
  S.enc_item m ls it = Some (bs, None) -> reads id jt bs r.
Proof using Type.
  intros Ht Hm Hg He. destruct Ht as [n id b b' Hn Hb Hb'|id b b' Hb|id c c' Hl|id c c' Hl
    |id b b' Hb Hs|id c c' Hz Hl|w id v v'].
  - cbn [S.enc_item] in He. rewrite decide_True in He by done. rewrite <- Hb in He.
    rewrite read_all in He by done. cbn [mbind option_bind] in He. injection He as <-.
    unfold reads. cbn [clears item_fd]. unfold D.parse_item. cbn [D.fd_f D.fd_p].
    rewrite decide_True by done. rewrite <- Hb. by rewrite (parse_bytes_all _ _ b') by (done || lia).
  - cbn [S.enc_item] in He. change 1%nat with (length [b]) in He. rewrite read_all in He by done.
    cbn in He. injection He as <-.
    unfold reads. cbn [clears item_fd]. unfold D.parse_item.
    cbn [D.fd_f D.fd_p D.write_bytes D.heap]. rewrite Hg. cbn [length Nat.add].
    rewrite decide_True by lia. cbn [app lookup list_lookup]. cbn.
    by destruct Hb as [->| ->].
  - cbn [S.enc_item S.read_string] in He. rewrite Hm in He. cbn [mbind option_bind] in He.
    case_decide; [|done]. injection He as He. by eapply reads_string.
  - cbn [S.enc_item S.read_bits] in He. rewrite Hm in He. cbn [mbind option_bind] in He.
    case_decide; [|done]. injection He as He. by eapply reads_bitvec.
  - cbn [S.enc_item] in He. rewrite decide_True in He by done. rewrite Nat2Z.id in He.
    rewrite read_all in He by done. cbn [mbind option_bind] in He. injection He as <-.
    unfold reads. cbn [clears item_fd]. unfold D.parse_item. cbn [D.fd_f D.fd_p D.fd_s].
    rewrite decide_True by (split; [lia|done]). unfold D.binary_size. cbn [Nat.eqb].
    by rewrite (parse_bytes_all _ _ b') by done.
  - by eapply reads_utf8.
  - cbn [S.enc_item S.read_uint] in He. rewrite Hm in He. cbn [mbind option_bind] in He.
    case_decide as Hd; [|done]. destruct Hd as [Hw Hv]. injection He as <-.
    unfold reads. cbn [clears item_fd]. unfold D.parse_item. cbn [D.fd_f D.fd_p].
    rewrite decide_True by done. cbn [D.write_uint D.heap]. rewrite Hg.
    by rewrite parse_cross_enc.
Qed.
End item.

Lemma clears_other (jt : D.item) (h : gmap nat obj) (id : nat) (r : obj) :
  jt <> D.ItString id -> jt <> D.ItUtf8 id ->
  clears jt (<[id := r]> h) = <[id := r]> (clears jt h) /\ clears jt h !! id = h !! id.
Proof.
  assert (forall i, i <> id -> D.clear_string i (<[id := r]> h) = <[id := r]> (D.clear_string i h) /\
    D.clear_string i h !! id = h !! id) as Hc.
  { intros i Hi. unfold D.clear_string. rewrite lookup_insert_ne by done.
    destruct (h !! i) as [[]|]; try done. split; [by apply insert_insert_ne|].
    by rewrite lookup_insert_ne. }
  intros H1 H2. destruct jt; cbn [clears]; try done; apply Hc; congruence.
Qed.

Lemma cleared_other (jts : list D.item) (h : gmap nat obj) (id : nat) (r : obj) :
  (forall jt, jt ∈ jts -> jt <> D.ItString id /\ jt <> D.ItUtf8 id) ->
  cleared jts (<[id := r]> h) = <[id := r]> (cleared jts h) /\ cleared jts h !! id = h !! id.
Proof.
  induction jts as [|jt jts IH]; intros H; [done|]. cbn [cleared foldr].
  fold (cleared jts (<[id:=r]> h)) (cleared jts h).
  destruct (H jt) as [H1 H2]; [apply elem_of_cons; by left|].
  destruct IH as [-> E]; [intros x Hx; apply H, elem_of_cons; by right|].
  destruct (clears_other jt (cleared jts h) id r H1 H2) as [-> ->]. done.
Qed.

Lemma transported_parse (m : S.mem) (ls ld : Limits) its jts h h' (bs rest t : list Z) :
  transported m ld its jts h h' -> S.encode m ls its = Some (bs, None) ->
  exists l', D.parse (D.mkEnv (cleared jts h) [] t ld) (map item_fd jts) (bs ++ rest) =
             D.PDone (D.mkEnv h' [] [] l') rest.
Proof.
  intros Htr. revert ls bs t.
  induction Htr as [l h|l it id o jt o' r its jts h h' Ht Hm Hh Htr IH Hnd|l v its jts h h' Htr IH
    |l v its jts h h' Htr IH|l v its jts h h' Htr IH]; intros ls bs t; cbn [S.encode].
  { intros [= <-]. by exists l. }
  all: match goal with |- context [S.enc_item ?m ?ls ?it] =>
      destruct (S.enc_item m ls it) as [[w [e|]]|] eqn:Ei; cbn [mbind option_bind]; [done| |done] end;
    match goal with |- context [S.encode ?m ?ls ?its] =>
      destruct (S.encode m ls its) as [[x e]|] eqn:Ee; cbn [mbind option_bind]; [|done] end;
    intros [= <- ->]; rewrite <- app_assoc; cbn [map]; rewrite parse_cons.
  2-4: cbn in Ei; injection Ei as <-; cbn [item_fd D.parse_item app D.fd_f D.fd_s];
    eapply IH; exact Ee.
  destruct (cleared_other jts h id r Hnd) as [Hcl Hlk].
  pose proof (reads_item m ls l (cleared jts h) t (x ++ rest) id it jt o o' r w Ht Hm
    ltac:(by rewrite Hlk) Ei) as Hr.
  unfold reads in Hr. change (cleared (jt :: jts) h) with (clears jt (cleared jts h)).
  rewrite Hr, <- Hcl. by eapply IH.
Qed.

(** ** Properties *)

(** C1: round trip through both machines. Items that can be written within the limits of the writing
    side, written by a fresh serializer into buffers of any sizes, and the bytes handed to a fresh
    deserializer in buffers cut in any other way, leave every target object equal to the source
    object; all bytes are read and both machines end empty. Every buffer is shorter than 2^31 bytes,
    the result of [run] being an [int]. Sources and targets are as [transported] says: a target
    exists and has the kind and size of its source, a boolean is 0 or 1, strings and bit vectors are
    shorter than the limit of the reading side (the writing side also takes those of exactly the
    limit: [string_limit_asymmetry]), a text item has no zero byte and is within that limit, and no
    string is read into a target that an item before it has filled. *)
Theorem serialization_roundtrip (m : S.mem) (ls ld : Limits) its jts (h h' : gmap nat obj)
    (bs : list Z) (bls : list Z) (cs : list (list Z)) :
  transported m ld its jts h h' -> S.encode m ls its = Some (bs, None) ->
  Forall (in_range 31) bls -> bls <> [] -> Z.of_nat (length bs) <= S.sum_sizes bls ->
  Forall is_buffer cs -> cs <> [] -> mjoin cs = bs ->
  let s := S.push_items its (S.fresh ls) in
  let d := D.push_items jts (D.fresh ld h) in
  exists s' d',
    S.run_all (S (S.stack_weight (S.fstk s))) m s bls = Some (mjoin cs, true, s') /\
    S.fstk s' = [] /\
    run_all (S (D.stack_weight (D.fstk d))) d cs = D.Ok (true, d', []) /\
    D.empty d' = true /\ D.heap (D.env d') = h'.
Proof.
  intros Htr Henc Hbls Hbne Hfit Hcs Hcne Hj s d.
  destruct (S.run_all_spec m (S (S.stack_weight (S.fstk s))) s bls bs None Hbls) as (ok & s' & Hs & H).
  - unfold s. rewrite S.push_items_fresh. by apply S.encode_denote.
  - lia.
  - done.
  - rewrite (proj2 (Z.leb_le _ _)) in H by done. destruct H as [-> Hemp].
    rewrite take_ge in Hs by lia.
    pose proof (d_run_all_spec (S (D.stack_weight (D.fstk d))) d cs Hcs Hcne (Nat.lt_succ_diag_r _)) as Hd.
    destruct (transported_parse m ls ld its jts h h' bs [] [] Htr Henc) as [l' Hp].
    assert (D.parse (D.env d) (D.fstk d) (mjoin cs) = D.PDone (D.mkEnv h' [] [] l') []) as E.
    { unfold d. rewrite d_push_items_fresh. cbn [D.env D.fstk]. by rewrite Hj, <- (app_nil_r bs). }
    rewrite E in Hd. destruct Hd as (d' & Hd & He & Hh). exists s', d'. by rewrite Hj.
Qed.

Lemma serialization_roundtrip_witness :
  let m := fun id => match id with O => Some (OString [104; 105]) | _ => Some (OUint 1000) end in
  let h := <[0%nat := OString [1]]> {[ 1%nat := OUint 0 ]} in
  let d := D.push_items [D.ItString 0; D.ItCross 16 1] (D.fresh unlimited h) in
  exists d', run_all (S (D.stack_weight (D.fstk d))) d [[9; 129; 104]; [105; 17; 232]; [3]] =
      D.Ok (true, d', []) /\ D.heap (D.env d') = <[1%nat := OUint 1000]> (<[0%nat := OString [104; 105]]> h).
Proof.
  intros m h d.
  destruct (serialization_roundtrip m unlimited unlimited [S.ItString 0; S.ItCross 16 1]
    [D.ItString 0; D.ItCross 16 1] h
    (<[1%nat := OUint 1000]> (<[0%nat := OString [104; 105]]> h))
    [9; 129; 104; 105; 17; 232; 3] [2; 5] [[9; 129; 104]; [105; 17; 232]; [3]])
    as (s' & d' & _ & _ & H & _ & Hh).
  - eapply tr_item; [eapply (t_string _ 0 [104; 105] [1]); by vm_compute|reflexivity|reflexivity| |].
    + eapply tr_item; [apply (t_cross _ 16 1 1000 0)|reflexivity|reflexivity|apply tr_nil|].
      intros jt Hj. by apply elem_of_nil in Hj.
    + intros jt Hj. apply list_elem_of_singleton in Hj as ->. done.
  - reflexivity.
  - repeat constructor; by vm_compute.
  - done.
  - by vm_compute.
  - repeat constructor; by vm_compute.
  - done.
  - reflexivity.
  - exists d'. split; [exact H|exact Hh].
Defined.

(** Limits that a string reaches exactly. *)
Definition exact_limits (c : list Z) : Limits :=
  mkLimits (Z.of_nat (length c)) (Z.of_nat (length c)) (Z.of_nat (length c)).

(** The string limit is not the same on the two sides: a string exactly as long as the limit
    is written by the serializer and refused by the deserializer, with [ERR_STRING_LIMIT]. *)
Theorem string_limit_asymmetry (c : list Z) :
  is_bytes c -> Z.of_nat (length c) < 2 ^ 30 ->
  let l := exact_limits c in
  exists bs, S.encode (fun _ => Some (OString c)) l [S.ItString 0] = Some (bs, None) /\
    let d := D.push_items [D.ItString 0] (D.fresh l {[ 0%nat := OString [] ]}) in
    exists d' rest, run_all (S (D.stack_weight (D.fstk d))) d [bs] = D.Ok (false, d', rest) /\
      D.err d' = Some ERR_STRING_LIMIT.
Proof.
  intros Hb Hlen l. set (n := Z.of_nat (length c)).
  destruct (crc_roundtrip (C := crc64) n ltac:(unfold in_range, n; lia)) as (v & Ev & Hv & _).
  change (compute_value_with_crc64 n = Some v) in Ev.
  assert (S.enc_sized n n c ERR_STRING_LIMIT ERR_STRING_MAX_LIMIT = (enc_cross v ++ c, None)) as Hs.
  { unfold S.enc_sized. rewrite Z.ltb_irrefl. by rewrite Ev. }
  exists (enc_cross v ++ c). split.
  { cbn [S.encode S.enc_item S.read_string mbind option_bind]. fold n.
    rewrite decide_True by (unfold in_range, n; lia). cbn [stringlimit l exact_limits]. fold n. rewrite Hs.
    cbn [mbind option_bind]. by rewrite app_nil_r. }
  intros d. pose proof (length_enc_cross v Hv) as Hle. pose proof (sig_bytes_le 8 v ltac:(lia) Hv).
  assert (Forall is_buffer [enc_cross v ++ c]) as Hbuf.
  { apply Forall_singleton. split; [|rewrite length_app; lia].
    apply Forall_app. split; [by apply enc_cross_is_bytes|done]. }
  pose proof (d_run_all_spec (S (D.stack_weight (D.fstk d))) d [enc_cross v ++ c] Hbuf ltac:(done)
    (Nat.lt_succ_diag_r _)) as Hd.
  apply enc_sized_inv in Hs as (v' & Ew & Hv' & Hc); [|unfold n; lia].
  apply app_inv_tail in Ew. assert (D.check_len v = Some n) as Hcv.
  { pose proof (parse_cross_enc 64 v [] ltac:(in_list) Hv) as P1.
    pose proof (parse_cross_enc 64 v' [] ltac:(in_list) Hv') as P2.
    rewrite Ew, P2 in P1. by injection P1 as ->. }
  assert (D.parse (D.env d) (D.fstk d) (mjoin [enc_cross v ++ c]) = D.PFail [ERR_STRING_LIMIT]) as E.
  { unfold d. rewrite d_push_items_fresh. cbn [D.env D.fstk map cleared foldr clears item_fd].
    change (mjoin [enc_cross v ++ c]) with ((enc_cross v ++ c) ++ []). rewrite app_nil_r, parse_cons.
    unfold D.parse_item. cbn [D.fd_f D.fd_p D.heap D.lmts D.read_string]. unfold D.clear_string.
    rewrite lookup_singleton_eq, lookup_insert_eq, parse_cross_enc; [|in_list|done].
    unfold D.checked_len. rewrite Hcv. cbn [stringlimit l exact_limits]. fold n. by rewrite Z.leb_refl. }
  rewrite E in Hd. destruct Hd as (d' & rest & er & Hd & He & Her).
  apply list_elem_of_singleton in Her as ->. by exists d', rest.
Qed.

Lemma string_limit_asymmetry_witness :
  exists bs, S.encode (fun _ => Some (OString [104; 105])) (exact_limits [104; 105]) [S.ItString 0] = Some (bs, None).
Proof.
  destruct (string_limit_asymmetry [104; 105]) as (bs & H & _).
  - repeat constructor; by vm_compute.
  - by vm_compute.
  - exists bs. exact H.
Defined.

End RoundTrip.
