(* ===== verification/FrameCommon.v ===== *)
(** * Identifiers of the frame

    solid/frame/common.hpp: [UniqueId], an index with a number that tells apart the objects that
    have used it. *)

From S2P Require Import Prelude.

Module FrameCommon.

(** [UniqueId], which is also [ObjectIdT]; [ConnectionPoolId] derives from it. *)
Record UniqueId := mkUniqueId { uid_index : Z; uid_unique : Z }.

Definition ObjectId_new : UniqueId := mkUniqueId (InvalidIndex 64) (InvalidIndex 64).

Definition isInvalid (u : UniqueId) : bool := uid_index u =? InvalidIndex 64.
Definition isValid (u : UniqueId) : bool := negb (isInvalid u).

#[export] Instance UniqueId_eq_dec : EqDecision UniqueId.
Proof. solve_decision. Defined.

(** [operator==] *)
Definition UniqueId_eqb (a b : UniqueId) : bool :=
  (uid_index b =? uid_index a) && (uid_unique b =? uid_unique a).

Lemma UniqueId_eqb_spec a b : reflect (a = b) (UniqueId_eqb a b).
Proof.
  destruct a as [a1 a2], b as [b1 b2]. unfold UniqueId_eqb. cbn. apply iff_reflect.
  rewrite andb_true_iff, !Z.eqb_eq. split; [by intros [= -> ->]|by intros [-> ->]].
Qed.

End FrameCommon.
