(* ===== verification/Handlers.v ===== *)
(** * Completion handlers and timers

    solid/frame/completion.hpp, completion.cpp, timer.hpp and the part of
    solid/frame/src/reactor.cpp that keeps the completion handlers of the objects: the table of
    handlers ([chdq]) and the timers that wait ([timestore], TimeStore.v).

    A handler is memory of its object; the table has its address, the handler has its position
    in the table ([idxreactor]) and, when it is a waiting timer, its position in the timer store
    ([storeidx]). [InvalidIndex], for a handler outside a reactor and a timer that does not wait,
    is [None]. Assertions are disabled; using a position that is [None], or calling a timer's
    function that is not set, is undefined. *)

From stdpp Require Import gmap.
From S2P Require Import Prelude TimeStore.
Import NanoTime.
#[local] Open Scope res_scope.

Module Handlers.

(** The address of a handler; [dummyhandler] is the one of the reactor's own object. *)
Definition Addr : Type := Z.
Definition dummyhandler : Addr := 0.

(** [ReactorEventsE] *)
Inductive ReactorEventsE := ReactorEventInit | ReactorEventClear | ReactorEventTimer.

(** The callbacks of the library's handlers. *)
Inductive CallbackT := dummy_completion | Timer_on_init_completion | Timer_on_completion.

#[export] Instance CallbackT_eq_dec : EqDecision CallbackT.
Proof. solve_decision. Defined.

Section Handlers.
Context {Fn : Type}.

(** The function of a timer: one of the user's, or [Timer::on_dummy]. *)
Inductive TimerFn := TimerUser (fn : Fn) | on_dummy.

(** A [CompletionHandler]; the last two members are those of its subclass [Timer]. *)
Record Handler := mkHandler {
  idxreactor : option Z;
  call : CallbackT;
  f : option TimerFn;
  storeidx : option Z
}.

Definition Timer_new : Handler := mkHandler None Timer_on_init_completion None None.
Definition dummy_new : Handler := mkHandler None dummy_completion None None.

Definition set_idxreactor (i : option Z) (h : Handler) : Handler := mkHandler i (call h) (f h) (storeidx h).
Definition set_call (c : CallbackT) (h : Handler) : Handler := mkHandler (idxreactor h) c (f h) (storeidx h).
Definition set_f (x : option TimerFn) (h : Handler) : Handler := mkHandler (idxreactor h) (call h) x (storeidx h).
Definition set_storeidx (i : option Z) (h : Handler) : Handler := mkHandler (idxreactor h) (call h) (f h) i.

Record CompletionHandlerStub := mkChStub { pch : Addr; objidx : Z; ch_unique : Z }.

Definition CompletionHandlerStub_new : CompletionHandlerStub := mkChStub 0 (InvalidIndex 64) 0.

(** The handlers in memory, and the members of [Reactor::Data] about them. *)
Record Handlers := mkHandlers {
  handlers : gmap Addr Handler;
  chdq : list CompletionHandlerStub;
  chposcache : list Z;
  timestore : TimeStore.TimeStore Z
}.

Definition with_handlers (g : Handlers) (hs : gmap Addr Handler) : Handlers :=
  mkHandlers hs (chdq g) (chposcache g) (timestore g).
Definition with_chdq (g : Handlers) (v : list CompletionHandlerStub) : Handlers :=
  mkHandlers (handlers g) v (chposcache g) (timestore g).
Definition with_chposcache (g : Handlers) (v : list Z) : Handlers :=
  mkHandlers (handlers g) (chdq g) v (timestore g).
Definition with_timestore (g : Handlers) (s : TimeStore.TimeStore Z) : Handlers :=
  mkHandlers (handlers g) (chdq g) (chposcache g) s.

#[export] Program Instance store_in_handlers : TimeStore.StoreIn Handlers Z := {|
  TimeStore.get_store := timestore;
  TimeStore.put_store x g := with_timestore g x
|}.
Next Obligation. done. Qed.

Definition handler_at (g : Handlers) (a : Addr) : res Handler := of_option (handlers g !! a).

Definition upd_handler (g : Handlers) (a : Addr) (upd : Handler -> Handler) : res Handlers :=
  let! h := handler_at g a in
  Done (with_handlers g (<[a := upd h]> (handlers g))).

(** ** The timers of the reactor *)

(** [doUpdateTimerIndex], the function told of positions that change; the handler is cast to
    [Timer]. *)
Definition doUpdateTimerIndex (_chidx _newidx _oldidx : Z) (g : Handlers) : res Handlers :=
  let! rch := vec_get (chdq g) _chidx in
  let! h := handler_at g (pch rch) in
  match call h with
  | dummy_completion => Undef
  | _ => upd_handler g (pch rch) (set_storeidx (Some _newidx))
  end.

(** [addTimer] of the handler at [a]; [_rstoreidx] is a member of the handler. *)
Definition addTimer (g : Handlers) (a : Addr) (_rt : NanoTime) : res Handlers :=
  let! h := handler_at g a in
  match storeidx h with
  | Some i =>
      let! x := TimeStore.change (timestore g) i _rt in
      Done (with_timestore g x.1)
  | None =>
      let! c := of_option (idxreactor h) in
      let '(s, i) := TimeStore.push (timestore g) _rt c in
      upd_handler (with_timestore g s) a (set_storeidx (Some i))
  end.

Definition remTimer (g : Handlers) (_rstoreidx : option Z) : res Handlers :=
  match _rstoreidx with
  | Some i => TimeStore.pop_at g i doUpdateTimerIndex
  | None => Done g
  end.

(** ** Timers *)

(** [waitUntil]: [true] when the timer waits already. *)
Definition waitUntil (g : Handlers) (a : Addr) (_tm : NanoTime) (_f : Fn) : res (Handlers * bool) :=
  let! h := handler_at g a in
  match f h with
  | None =>
      let! g := upd_handler g a (set_f (Some (TimerUser _f))) in
      let! g := addTimer g a _tm in
      Done (g, false)
  | Some _ => Done (g, true)
  end.

(** [waitFor], from the time of the context on. *)
Definition waitFor (g : Handlers) (a : Addr) (now _tm : NanoTime) (_f : Fn) : res (Handlers * bool) :=
  waitUntil g a (plus_assign now _tm) _f.

Definition doClear (g : Handlers) (a : Addr) : res Handlers :=
  let! g := upd_handler g a (set_f None) in
  let! h := handler_at g a in
  let! g := remTimer g (storeidx h) in
  upd_handler g a (set_storeidx None).

Definition cancel (g : Handlers) (a : Addr) : res Handlers := doClear g a.

(** [doExec], up to the call of the function it returns. *)
Definition doExec (g : Handlers) (a : Addr) : res (Handlers * TimerFn) :=
  let! h := handler_at g a in
  let! tmpf := of_option (f h) in
  let! g := upd_handler g a (set_f None) in
  let! g := upd_handler g a (set_storeidx None) in
  Done (g, tmpf).

(** [handleCompletion]; also returns the function of the timer that is to be called. *)
Definition handleCompletion (g : Handlers) (a : Addr) (reactevn : ReactorEventsE)
  : res (Handlers * option TimerFn) :=
  let! h := handler_at g a in
  match call h with
  | dummy_completion => Done (g, None)
  | Timer_on_init_completion =>
      let! g := upd_handler g a (set_call Timer_on_completion) in
      Done (g, None)
  | Timer_on_completion =>
      match reactevn with
      | ReactorEventTimer =>
          let! x := doExec g a in
          Done (x.1, Some x.2)
      | ReactorEventClear =>
          let! g := doClear g a in
          let! g := upd_handler g a (set_f (Some on_dummy)) in
          Done (g, None)
      | ReactorEventInit => Done (g, None)
      end
  end.

(** ** The table of handlers *)

(** [registerCompletionHandler] for an object with index [runIdx]. *)
Definition registerCompletionHandler (g : Handlers) (_rch : Addr) (runIdx : Z) : res Handlers :=
  let '(g, idx) :=
    match chposcache g with
    | idx :: st => (with_chposcache g st, idx)
    | [] => (with_chdq g (chdq g ++ [CompletionHandlerStub_new]), Z.of_nat (length (chdq g)))
    end in
  let! rcs := vec_get (chdq g) idx in
  let! v := vec_set (chdq g) idx (mkChStub _rch runIdx (ch_unique rcs)) in
  let! g := upd_handler (with_chdq g v) _rch (set_idxreactor (Some idx)) in
  let! x := handleCompletion g _rch ReactorEventInit in
  Done x.1.

(** The position of the removed handler does not go to [chposcache]. *)
Definition unregisterCompletionHandler (g : Handlers) (_rch : Addr) : res Handlers :=
  let! h := handler_at g _rch in
  let! idx := of_option (idxreactor h) in
  let! rcs := vec_get (chdq g) idx in
  let! x := handleCompletion g _rch ReactorEventClear in
  let g := x.1 in
  let! v := vec_set (chdq g) idx (mkChStub dummyhandler 0 (ch_unique rcs + 1)) in
  Done (with_chdq g v).

Definition isActive (h : Handler) : bool := bool_decide (is_Some (idxreactor h)).

(** [activate] and [deactivate] on the thread of the reactor. *)
Definition activate (g : Handlers) (a : Addr) (runIdx : Z) : res Handlers :=
  let! h := handler_at g a in
  if negb (isActive h) then registerCompletionHandler g a runIdx else Done g.

Definition deactivate (g : Handlers) (a : Addr) : res Handlers :=
  let! h := handler_at g a in
  if isActive h then
    let! g := unregisterCompletionHandler g a in
    upd_handler g a (set_idxreactor None)
  else Done g.

(** [computeWaitTimeMilliseconds], when no function is queued: -1 says to wait for an event. *)
Definition computeWaitTimeMilliseconds (exeq_size : Z) (g : Handlers) (_rcrt : NanoTime) : Z :=
  if negb (exeq_size =? 0) then 0
  else if negb (TimeStore.size (timestore g) =? 0) then
    if lt _rcrt (TimeStore.next (timestore g)) then
      let maxwait := 1000 * 60 in
      let delta := minus_assign (TimeStore.next (timestore g)) _rcrt in
      let diff := signed 64 (seconds delta * 1000) in
      let diff := diff + Z.quot (tv_nsec delta) 1000000 in
      if maxwait <? diff then maxwait else signed 32 diff
    else 0
  else -1.

(** ** The invariant *)

Implicit Types (g : Handlers) (h : Handler) (a b : Addr) (t : NanoTime).

Abbreviation tv g := (TimeStore.tv (timestore g)).

(** The handler is the timer at position [n] of the store. *)
Record waiting h (c : Z) (n : nat) : Prop := {
  wt_call : call h = Timer_on_completion;
  wt_idx : idxreactor h = Some c;
  wt_store : storeidx h = Some (Z.of_nat n);
  wt_f : exists fn, f h = Some (TimerUser fn)
}.

(** The positions [Q] of the store and the waiting timers among the handlers [P] belong to
    each other. *)
Record linked (P : Addr -> Prop) (Q : nat -> Prop) g : Prop := {
  lk_tv : forall (n : nat) t c, Q n -> tv g !! n = Some (t, c) ->
    exists a h, P a /\ handlers g !! a = Some h /\ waiting h c n;
  lk_wait : forall a h i, P a -> handlers g !! a = Some h -> storeidx h = Some i ->
    exists (n : nat) t c, i = Z.of_nat n /\ Q n /\ tv g !! n = Some (t, c) /\ waiting h c n
}.

(** The table and the handlers lead to each other. *)
Record table g : Prop := {
  tb_dummy : exists h, handlers g !! dummyhandler = Some h /\ call h = dummy_completion /\ f h = None /\ storeidx h = None;
  tb_stub : forall (c : nat) st, chdq g !! c = Some st -> pch st <> dummyhandler ->
    exists h, handlers g !! pch st = Some h /\ idxreactor h = Some (Z.of_nat c);
  tb_idx : forall a h i, handlers g !! a = Some h -> idxreactor h = Some i ->
    exists (c : nat) st, i = Z.of_nat c /\ chdq g !! c = Some st /\ pch st = a
      /\ call h <> Timer_on_init_completion;
  tb_idle : forall a h, handlers g !! a = Some h -> call h <> Timer_on_completion -> f h = None /\ storeidx h = None;
  tb_cache : chposcache g = []
}.

Record hwf g : Prop := {
  hw_table : table g;
  hw_linked : linked (fun _ => True) (fun _ => True) g
}.

(** What an operation on the handler [a] leaves of the others. *)
Definition others (a : Addr) g g' : Prop :=
  forall b, b <> a -> (fun h => set_storeidx None h) <$> handlers g' !! b = (fun h => set_storeidx None h) <$> handlers g !! b.

Lemma handler_at_done g a h : handlers g !! a = Some h -> handler_at g a = Done h.
Proof. unfold handler_at. by intros ->. Qed.

Lemma upd_handler_done g a h upd :
  handlers g !! a = Some h -> upd_handler g a upd = Done (with_handlers g (<[a := upd h]> (handlers g))).
Proof. intros H. unfold upd_handler. by rewrite (handler_at_done g a h H). Qed.

Lemma table_set g a h h' :
  table g -> handlers g !! a = Some h -> idxreactor h' = idxreactor h -> call h' = call h ->
  (call h <> Timer_on_completion -> f h' = f h /\ storeidx h' = storeidx h) ->
  table (with_handlers g (<[a := h']> (handlers g))).
Proof.
  intros [(d & Hd & Hd1 & Hd2 & Hd3) Hs Hi Hidle Hc] Ha E1 E2 E3. constructor; cbn; [| | | |done].
  - destruct (decide (a = dummyhandler)) as [->|].
    + rewrite lookup_insert_eq. exists h'. assert (d = h) by congruence; subst d.
      destruct E3 as [-> ->]; [by rewrite Hd1|]. by rewrite E2.
    + rewrite lookup_insert_ne by done. by exists d.
  - intros c st Hst Hne. destruct (Hs c st Hst Hne) as (h0 & Hh0 & Hi0). destruct (decide (a = pch st)) as [->|].
    + rewrite lookup_insert_eq. exists h'. split; [done|]. congruence.
    + rewrite lookup_insert_ne by done. eauto.
  - intros b h0 i. destruct (decide (a = b)) as [<-|].
    + rewrite lookup_insert_eq. intros [= <-]. rewrite E1, E2. by apply Hi.
    + rewrite lookup_insert_ne by done. apply Hi.
  - intros b h0. destruct (decide (a = b)) as [<-|].
    + rewrite lookup_insert_eq. intros [= <-]. rewrite E2. intros Hcall. destruct E3 as [-> ->]; [done|eauto].
    + rewrite lookup_insert_ne by done. apply Hidle.
Qed.

Lemma linked_insert P Q g a h' :
  linked P Q g -> ~ P a -> linked P Q (with_handlers g (<[a := h']> (handlers g))).
Proof.
  intros [H1 H2] Ha. constructor; cbn.
  - intros n t c Hq Hn. destruct (H1 n t c Hq Hn) as (b & h & Hb & Hh & Hw). exists b, h.
    rewrite lookup_insert_ne by congruence. done.
  - intros b h i Hb. rewrite lookup_insert_ne by congruence. by apply H2.
Qed.

Lemma waiting_unique g a b ha hb c n : table g ->
  handlers g !! a = Some ha -> handlers g !! b = Some hb -> idxreactor ha = Some c -> waiting hb c n -> a = b.
Proof.
  intros Ht Ha Hb Hc Hw. destruct (tb_idx g Ht a ha c Ha Hc) as (k & st & -> & Hk & <- & _).
  destruct (tb_idx g Ht b hb _ Hb (wt_idx _ _ _ Hw)) as (k' & st' & E & Hk' & <- & _).
  apply Nat2Z.inj in E. subst k'. congruence.
Qed.

(** The entries of the store after the one at [n] is taken out: the last one moves there. *)
Definition moved (v v' : list (NanoTime * Z)) (n : nat) : Prop :=
  length v = S (length v')
  /\ forall j : nat, (j < length v')%nat -> v' !! j = if decide (j = n) then last v else v !! j.

Lemma moved_other v v' n (m : nat) e : moved v v' n -> v !! m = Some e -> m <> n -> m <> length v' -> v' !! m = Some e.
Proof.
  intros [Hlen Hlook] Hm Hmn Hml. assert (m < length v)%nat by (eapply lookup_lt_Some; eassumption).
  by rewrite Hlook, decide_False by (done || lia).
Qed.

(** ... when it was the last one itself: *)
Lemma linked_last g a v' n mt :
  linked (fun b => b <> a) (fun m => m <> n) g -> moved (tv g) v' n -> n = length v' ->
  linked (fun b => b <> a) (fun _ => True) (with_timestore g (TimeStore.mkTimeStore v' mt)).
Proof.
  intros Hl Hmv ->. constructor; cbn [TimeStore.tv timestore with_timestore handlers].
  - intros m t0 c0 _ Hm. assert (m < length v')%nat as Hmlt by (eapply lookup_lt_Some; eassumption).
    rewrite (proj2 Hmv), decide_False in Hm by lia. apply (lk_tv _ _ _ Hl m t0 c0); [lia|done].
  - intros x hx i Hx Hhx Hi. destruct (lk_wait _ _ _ Hl x hx i Hx Hhx Hi) as (m & t0 & c0 & -> & Hmn & Hm & Hw).
    exists m, t0, c0. split_and!; try done. by eapply moved_other.
Qed.

(** ... when it was the one of the timer [b]: *)
Lemma linked_moved g a b hb t' c' v' n mt :
  table g -> linked (fun b => b <> a) (fun m => m <> n) g -> moved (tv g) v' n -> (n < length v')%nat ->
  b <> a -> handlers g !! b = Some hb -> waiting hb c' (length v') -> tv g !! length v' = Some (t', c') ->
  linked (fun b => b <> a) (fun _ => True)
    (with_handlers (with_timestore g (TimeStore.mkTimeStore v' mt))
       (<[b := set_storeidx (Some (Z.of_nat n)) hb]> (handlers g))).
Proof.
  intros Ht Hl Hmv Hlt Hb Hhb Hwb He. pose proof Hmv as [Hlen Hlook].
  assert (last (tv g) = Some (t', c')) as Hlast by (by rewrite last_lookup, Hlen).
  constructor; cbn [TimeStore.tv timestore with_handlers with_timestore handlers].
  - intros m t0 c0 _ Hm. assert (m < length v')%nat as Hmlt by (eapply lookup_lt_Some; eassumption).
    rewrite Hlook in Hm by done. case_decide as Hd.
    + subst m. rewrite Hlast in Hm. injection Hm as <- <-.
      exists b, (set_storeidx (Some (Z.of_nat n)) hb). rewrite lookup_insert_eq. split_and!; try done.
      destruct Hwb; by constructor.
    + destruct (lk_tv _ _ _ Hl m t0 c0 Hd Hm) as (x & hx & Hx & Hhx & Hwx). exists x, hx.
      rewrite lookup_insert_ne; [done|]. intros <-. assert (hx = hb) as -> by congruence.
      pose proof (wt_store _ _ _ Hwb) as E1. rewrite (wt_store _ _ _ Hwx) in E1. injection E1 as E1. lia.
  - intros x hx i Hx. destruct (decide (b = x)) as [<-|Hbx].
    + rewrite lookup_insert_eq. intros [= <-]. cbn [storeidx set_storeidx]. intros [= <-].
      exists n, t', c'. split_and!; try done; [by rewrite Hlook, decide_True by done|].
      destruct Hwb; by constructor.
    + rewrite lookup_insert_ne by done. intros Hhx Hi.
      destruct (lk_wait _ _ _ Hl x hx i Hx Hhx Hi) as (m & t0 & c0 & -> & Hmn & Hm & Hw).
      exists m, t0, c0. split_and!; try done. eapply moved_other; try done. intros ->.
      assert (c0 = c') as -> by congruence.
      by apply Hbx, eq_sym, (waiting_unique g x b hx hb _ (length v') Ht Hhx Hhb (wt_idx _ _ _ Hw)).
Qed.

Lemma table_with_timestore g s : table g -> table (with_timestore g s).
Proof. by intros [? ? ? ? ?]; constructor. Qed.

(** Taking the timer [a] out of the store, at its position [n]. *)
Lemma pop_at_detach g a h (n : nat) t c :
  table g -> linked (fun b => b <> a) (fun m => m <> n) g -> handlers g !! a = Some h ->
  tv g !! n = Some (t, c) ->
  exists g', TimeStore.pop_at g (Z.of_nat n) doUpdateTimerIndex = Done g'
    /\ TimeStore.swap_remove (tv g) (Z.of_nat n) = Done (tv g')
    /\ TimeStore.mint (timestore g') = TimeStore.mint (timestore g) /\ chdq g' = chdq g /\ table g'
    /\ linked (fun b => b <> a) (fun _ => True) g' /\ handlers g' !! a = Some h /\ others a g g'.
Proof.
  intros Ht Hl Ha Hn. destruct (TimeStore.swap_remove_spec _ _ _ Hn) as (v' & Esw & _ & Hlen & _ & Hlook).
  assert (moved (tv g) v' n) as Hmv by done. assert (n < length (tv g))%nat by (eapply lookup_lt_Some; eassumption).
  unfold TimeStore.pop_at. cbn [TimeStore.get_store TimeStore.put_store store_in_handlers]. rewrite Esw. cbn [res_bind].
  destruct (Z.ltb_spec (Z.of_nat n) (Z.of_nat (length v'))) as [Hlt|Hge].
  - destruct (vec_get_in v' (Z.of_nat n)) as ([t' c'] & -> & He); [lia|]. cbn [res_bind snd].
    rewrite Nat2Z.id, Hlook, decide_True, last_lookup, Hlen in He by (done || lia). cbn [Nat.pred] in He.
    destruct (lk_tv _ _ _ Hl (length v') t' c' ltac:(cbn; lia) He) as (b & hb & Hb & Hhb & Hwb).
    destruct (tb_idx g Ht b hb c' Hhb (wt_idx _ _ _ Hwb)) as (k & st & -> & Hk & Hst & _).
    unfold doUpdateTimerIndex. cbn [chdq with_timestore].
    rewrite (proj2 (vec_get_done (chdq g) (Z.of_nat k) st)) by (rewrite Nat2Z.id; split; [lia|done]).
    cbn [res_bind]. rewrite Hst, (handler_at_done _ b hb) by done. cbn [res_bind].
    rewrite (wt_call _ _ _ Hwb), (upd_handler_done _ b hb) by done.
    eexists; split; [reflexivity|]. split_and!; try done.
    + apply (table_set (with_timestore g _) b hb); try done; [by apply table_with_timestore|].
      intros Hc. by rewrite (wt_call _ _ _ Hwb) in Hc.
    + cbn [handlers with_timestore]; eapply linked_moved; try done. lia.
    + cbn. by rewrite lookup_insert_ne.
    + intros x Hx. cbn. destruct (decide (b = x)) as [<-|]; [|by rewrite lookup_insert_ne].
      by rewrite lookup_insert_eq, Hhb.
  - eexists; split; [reflexivity|]. split_and!; try done; [by apply table_with_timestore|].
    eapply linked_last; try done. lia.
Qed.

(** ** The operations keep the invariant *)

Lemma hwf_detach g a h (n : nat) : hwf g -> handlers g !! a = Some h -> storeidx h = Some (Z.of_nat n) ->
  (exists t c, tv g !! n = Some (t, c) /\ waiting h c n) /\ linked (fun b => b <> a) (fun m => m <> n) g.
Proof.
  intros [Ht Hl] Ha Hi. destruct (lk_wait _ _ _ Hl a h _ I Ha Hi) as (m & t & c & E & _ & Hm & Hw).
  apply Nat2Z.inj in E. subst m. split; [by exists t, c|]. constructor.
  - intros m t0 c0 Hne Hm0. destruct (lk_tv _ _ _ Hl m t0 c0 I Hm0) as (b & hb & _ & Hb & Hwb).
    exists b, hb. split; [|done]. intros ->. assert (hb = h) as -> by congruence.
    pose proof (wt_store _ _ _ Hw) as E1. rewrite (wt_store _ _ _ Hwb) in E1. injection E1 as E1. lia.
  - intros b hb i Hne Hb Hbi. destruct (lk_wait _ _ _ Hl b hb i I Hb Hbi) as (m & t0 & c0 & -> & _ & Hm0 & Hwb).
    exists m, t0, c0. split_and!; try done. intros ->. assert (c0 = c) as -> by congruence.
    by apply Hne, (waiting_unique g b a hb h c n Ht Hb Ha (wt_idx _ _ _ Hwb)).
Qed.

(** A timer that is out of the store, and says so, completes the invariant again. *)
Lemma hwf_attach g a h h' :
  table g -> linked (fun b => b <> a) (fun _ => True) g -> handlers g !! a = Some h ->
  idxreactor h' = idxreactor h -> call h' = call h -> storeidx h' = None ->
  (call h <> Timer_on_completion -> f h' = f h) ->
  hwf (with_handlers g (<[a := h']> (handlers g))).
Proof.
  intros Ht Hl Ha E1 E2 E3 E4. split.
  - apply (table_set g a h); try done. intros Hc. rewrite E3. split; [by apply E4|].
    by destruct (tb_idle g Ht a h Ha Hc) as [_ ->].
  - constructor; cbn.
    + intros n t c _ Hn. destruct (lk_tv _ _ _ Hl n t c I Hn) as (b & hb & Hb & Hhb & Hw). exists b, hb.
      by rewrite lookup_insert_ne by done.
    + intros b hb i _. destruct (decide (a = b)) as [<-|].
      * rewrite lookup_insert_eq. intros [= <-]. by rewrite E3.
      * rewrite lookup_insert_ne by done. apply (lk_wait _ _ _ Hl b hb i). congruence.
Qed.

Lemma others_insert g a h' : others a g (with_handlers g (<[a := h']> (handlers g))).
Proof. intros b Hb. cbn [handlers with_handlers]. by rewrite lookup_insert_ne by done. Qed.

Lemma others_trans g1 g2 g3 a : others a g1 g2 -> others a g2 g3 -> others a g1 g3.
Proof. intros H1 H2 b Hb. by rewrite H2, H1. Qed.

(** The entry of a timer that is taken out, when it waits. *)
Definition taken_out g (i : option Z) (v' : list (NanoTime * Z)) : Prop :=
  match i with None => v' = tv g | Some i => TimeStore.swap_remove (tv g) i = Done v' end.

Lemma doClear_spec g a h : hwf g -> handlers g !! a = Some h ->
  exists g', doClear g a = Done g' /\ hwf g' /\ handlers g' !! a = Some (set_storeidx None (set_f None h))
    /\ chdq g' = chdq g /\ others a g g' /\ taken_out g (storeidx h) (tv g')
    /\ TimeStore.mint (timestore g') = TimeStore.mint (timestore g).
Proof.
  intros Hw Ha. pose proof (hw_table g Hw) as Ht. unfold doClear. rewrite (upd_handler_done g a h) by done.
  set (g1 := with_handlers g _). cbn [res_bind].
  assert (handlers g1 !! a = Some (set_f None h)) as Ha1 by (cbn; by rewrite lookup_insert_eq).
  rewrite (handler_at_done g1 a _ Ha1). cbn [res_bind storeidx set_f].
  assert (table g1) as Ht1.
  { apply (table_set g a h); try done. intros Hc. destruct (tb_idle g Ht a h Ha Hc) as [E1 _]. by rewrite E1. }
  assert (forall P Q, linked P Q g -> ~ P a -> linked P Q g1) as Hl1 by (intros; by apply linked_insert).
  assert (others a g g1) as Ho1 by apply others_insert.
  destruct (storeidx h) as [i|] eqn:Ei; cbn [remTimer].
  - destruct (lk_wait _ _ _ (hw_linked g Hw) a h i I Ha Ei) as (n & t & c & -> & _ & Hn & Hwt).
    destruct (hwf_detach g a h n Hw Ha Ei) as [_ Hl].
    destruct (pop_at_detach g1 a (set_f None h) n t c) as (g2 & E & Esw & Em & Ec & Ht2 & Hl2 & Ha2 & Ho2);
      [done|apply Hl1; [done|tauto]|done|done|].
    rewrite E. cbn [res_bind]. rewrite (upd_handler_done g2 a _ _ Ha2). eexists; split; [reflexivity|].
    split_and!; try done.
    + by apply (hwf_attach g2 a (set_f None h)).
    + cbn. by rewrite lookup_insert_eq.
    + eapply others_trans; [exact Ho1|]. eapply others_trans; [exact Ho2|apply others_insert].
  - cbn [res_bind]. rewrite (upd_handler_done g1 a _ _ Ha1). eexists; split; [reflexivity|]. split_and!; try done.
    + apply (hwf_attach g1 a (set_f None h)); try done. apply Hl1; [|tauto]. destruct (hw_linked g Hw) as [H1 H2].
      constructor; [|intros b hb j _; by apply H2]. intros n t c _ Hn.
      destruct (H1 n t c I Hn) as (b & hb & _ & Hb & Hwb). exists b, hb. split; [|done]. intros ->.
      pose proof (wt_store _ _ _ Hwb). congruence.
    + cbn. by rewrite lookup_insert_eq.
    + eapply others_trans; [exact Ho1|apply others_insert].
Qed.

(** An active timer that does not wait is not in the store. *)
Lemma idle_storeidx g a h : hwf g -> handlers g !! a = Some h ->
  f h = None \/ idxreactor h = None -> storeidx h = None.
Proof.
  intros Hw Ha Hf. destruct (storeidx h) as [i|] eqn:Ei; [|done].
  destruct (lk_wait _ _ _ (hw_linked g Hw) a h i I Ha Ei) as (n & t & c & -> & _ & Hn & Hwt).
  destruct (wt_f _ _ _ Hwt). pose proof (wt_idx _ _ _ Hwt). destruct Hf; congruence.
Qed.

(** [waitUntil] of an active timer: refused when it waits already; otherwise the timer is at the
    end of the store. *)
Lemma waitUntil_spec g a h c t fn : hwf g -> handlers g !! a = Some h ->
  call h = Timer_on_completion -> idxreactor h = Some c ->
  exists g', waitUntil g a t fn = Done (g', bool_decide (is_Some (f h))) /\ hwf g' /\ chdq g' = chdq g
    /\ (forall b, b <> a -> handlers g' !! b = handlers g !! b)
    /\ if decide (is_Some (f h)) then g' = g
       else tv g' = tv g ++ [(t, c)]
         /\ TimeStore.mint (timestore g') = TimeStore.min_time t (TimeStore.mint (timestore g))
         /\ exists h', handlers g' !! a = Some h' /\ waiting h' c (length (tv g)) /\ f h' = Some (TimerUser fn).
Proof.
  intros Hw Ha Hc Hi. unfold waitUntil. rewrite (handler_at_done g a h Ha). cbn [res_bind].
  destruct (f h) as [x|] eqn:Ef.
  { exists g. split_and!; done. }
  pose proof (idle_storeidx g a h Hw Ha ltac:(by left)) as Es.
  rewrite (upd_handler_done g a h _ Ha). set (h1 := set_f (Some (TimerUser fn)) h). set (g1 := with_handlers g _).
  cbn [res_bind]. assert (handlers g1 !! a = Some h1) as Ha1 by (cbn; by rewrite lookup_insert_eq).
  unfold addTimer. rewrite (handler_at_done g1 a h1 Ha1). cbn [res_bind].
  change (storeidx h1) with (storeidx h). change (idxreactor h1) with (idxreactor h). rewrite Es, Hi.
  cbn [of_option res_bind]. unfold TimeStore.push.
  rewrite (upd_handler_done _ a h1) by exact Ha1.
  cbn [res_bind]. eexists; split; [reflexivity|].
  set (h2 := set_storeidx _ h1). assert (waiting h2 c (length (tv g))) as Hw2 by (constructor; try done; by exists fn).
  split_and!; cbn; try done.
  - split.
    + apply (table_set (with_timestore g1 _) a h1); try done.
      apply table_with_timestore, (table_set g a h); try done; apply Hw.
    + destruct (hw_linked g Hw) as [H1 H2]. constructor; cbn.
      * intros n t0 c0 _ Hn. apply lookup_snoc_Some in Hn as [[Hlt Hn]|[-> E]].
        -- destruct (H1 n t0 c0 I Hn) as (b & hb & _ & Hb & Hwb). exists b, hb. split; [done|].
           assert (a <> b) as Hab by (intros <-; pose proof (wt_store _ _ _ Hwb); congruence).
           by rewrite !lookup_insert_ne by done.
        -- injection E as <- <-. exists a, h2. by rewrite lookup_insert_eq.
      * intros b hb i _. destruct (decide (a = b)) as [<-|Hab].
        -- rewrite lookup_insert_eq. intros [= <-] [= <-]. exists (length (tv g)), t, c.
           split_and!; try done. by rewrite lookup_app_r, Nat.sub_diag by lia.
        -- rewrite !lookup_insert_ne by done. intros Hb Hbi.
           destruct (H2 b hb i I Hb Hbi) as (n & t0 & c0 & -> & _ & Hn & Hwb). exists n, t0, c0. split_and!; try done.
           by apply lookup_app_l_Some.
  - intros b Hb. by rewrite !lookup_insert_ne by done.
  - rewrite decide_False by (by intros []). split_and!; try done. exists h2. by rewrite lookup_insert_eq.
Qed.

(** What a timer that is due finds: it leaves the store, and its function is called. *)
Lemma expire_spec g (n : nat) t c : hwf g -> tv g !! n = Some (t, c) ->
  exists a h fn st g1 g2,
    handlers g !! a = Some h /\ waiting h c n /\ f h = Some (TimerUser fn)
    /\ TimeStore.pop_at g (Z.of_nat n) doUpdateTimerIndex = Done g1
    /\ vec_get (chdq g1) c = Done st /\ vec_get (chdq g) c = Done st /\ pch st = a
    /\ handleCompletion g1 a ReactorEventTimer = Done (g2, Some (TimerUser fn))
    /\ hwf g2 /\ TimeStore.swap_remove (tv g) (Z.of_nat n) = Done (tv g2) /\ chdq g2 = chdq g
    /\ TimeStore.mint (timestore g2) = TimeStore.mint (timestore g)
    /\ handlers g2 !! a = Some (set_storeidx None (set_f None h)) /\ others a g g2.
Proof.
  intros Hw Hn. destruct (lk_tv _ _ _ (hw_linked g Hw) n t c I Hn) as (a & h & _ & Ha & Hwt).
  destruct (wt_f _ _ _ Hwt) as [fn Hfn]. destruct (hwf_detach g a h n Hw Ha (wt_store _ _ _ Hwt)) as [_ Hl].
  destruct (tb_idx g (hw_table g Hw) a h c Ha (wt_idx _ _ _ Hwt)) as (k & st & -> & Hk & Hst & _).
  destruct (pop_at_detach g a h n t (Z.of_nat k)) as (g1 & E & Esw & Em & Ec & Ht1 & Hl1 & Ha1 & Ho1); try done; [apply Hw|].
  set (h1 := set_f None h). set (g2 := with_handlers g1 (<[a := h1]> (handlers g1))).
  assert (handlers g2 !! a = Some h1) as Ha2 by (cbn; by rewrite lookup_insert_eq).
  exists a, h, fn, st, g1, (with_handlers g2 (<[a := set_storeidx None h1]> (handlers g2))). split_and!; try done.
  - rewrite Ec. apply vec_get_done. rewrite Nat2Z.id. split; [lia|done].
  - apply vec_get_done. rewrite Nat2Z.id. split; [lia|done].
  - unfold handleCompletion, doExec. rewrite (handler_at_done g1 a h Ha1). cbn [res_bind].
    rewrite (wt_call _ _ _ Hwt), Hfn. cbn [of_option res_bind]. rewrite (upd_handler_done g1 a h _ Ha1).
    cbn [res_bind]. fold h1 g2. by rewrite (upd_handler_done g2 a h1 _ Ha2).
  - cbn [handlers with_handlers g2]. rewrite insert_insert_eq.
    apply (hwf_attach g1 a h); try done. by rewrite (wt_call _ _ _ Hwt).
  - cbn. by rewrite lookup_insert_eq.
  - eapply others_trans; [exact Ho1|]. eapply others_trans; [apply others_insert|]. apply others_insert.
Qed.

(** The handler [h] after it has been registered at [idx]. *)
Definition registered h (idx : Z) : Handler :=
  mkHandler (Some idx) (if decide (call h = Timer_on_init_completion) then Timer_on_completion else call h) (f h) (storeidx h).

Lemma hwf_register g a h (runIdx : Z) : hwf g -> handlers g !! a = Some h -> idxreactor h = None ->
  hwf (with_handlers (with_chdq g (chdq g ++ [mkChStub a runIdx 0]))
         (<[a := registered h (Z.of_nat (length (chdq g)))]> (handlers g))).
Proof.
  intros Hw Ha Hi. pose proof (idle_storeidx g a h Hw Ha ltac:(by right)) as Es. destruct Hw as [Ht Hl]. split.
  - destruct Ht as [(d & Hd & Hd1 & Hd2 & Hd3) Hs Hix Hidle Hc]. constructor; cbn; [| | | |done].
    + destruct (decide (a = dummyhandler)) as [->|]; [|rewrite lookup_insert_ne by done; by exists d].
      rewrite lookup_insert_eq. eexists. split; [done|]. assert (d = h) as -> by congruence. cbn. by rewrite Hd1, decide_False.
    + intros c st Hst Hne. apply lookup_snoc_Some in Hst as [[_ Hst]|[-> <-]]; [|cbn; rewrite lookup_insert_eq; eauto].
      destruct (Hs c st Hst Hne) as (h0 & Hh0 & Hi0). exists h0. rewrite lookup_insert_ne; [done|]. intros ->. congruence.
    + intros b hb i. destruct (decide (a = b)) as [<-|].
      * rewrite lookup_insert_eq. intros [= <-] [= <-]. exists (length (chdq g)), (mkChStub a runIdx 0). split_and!; try done.
        -- by rewrite lookup_app_r, Nat.sub_diag by lia.
        -- cbn. by case_decide.
      * rewrite lookup_insert_ne by done. intros Hb Hbi. destruct (Hix b hb i Hb Hbi) as (c & st & -> & Hst & ? & ?).
        exists c, st. split_and!; try done. by apply lookup_app_l_Some.
    + intros b hb. destruct (decide (a = b)) as [<-|]; [|rewrite lookup_insert_ne by done; apply Hidle].
      rewrite lookup_insert_eq. intros [= <-]. cbn. case_decide; [done|]. intros. by apply (Hidle a).
  - destruct Hl as [H1 H2]. constructor; cbn.
    + intros n t c _ Hn. destruct (H1 n t c I Hn) as (b & hb & _ & Hb & Hwb). exists b, hb.
      rewrite lookup_insert_ne; [done|]. intros <-. pose proof (wt_idx _ _ _ Hwb). congruence.
    + intros b hb i _. destruct (decide (a = b)) as [<-|]; [|rewrite lookup_insert_ne by done; by apply H2].
      rewrite lookup_insert_eq. intros [= <-]. cbn. by rewrite Es.
Qed.

(** Registering a handler that is not active: it gets a new place at the end of the table. *)
Lemma register_spec g a h (runIdx : Z) : hwf g -> handlers g !! a = Some h -> idxreactor h = None ->
  registerCompletionHandler g a runIdx
  = Done (with_handlers (with_chdq g (chdq g ++ [mkChStub a runIdx 0]))
            (<[a := registered h (Z.of_nat (length (chdq g)))]> (handlers g))).
Proof.
  intros Hw Ha Hi. unfold registerCompletionHandler. rewrite (tb_cache g (hw_table g Hw)). cbn [chdq with_chdq].
  rewrite (proj2 (vec_get_done _ _ CompletionHandlerStub_new)); cycle 1.
  { rewrite Nat2Z.id, lookup_app_r, Nat.sub_diag by lia. split; [lia|done]. }
  cbn [res_bind]. rewrite vec_set_done by (rewrite length_app; cbn; lia).
  rewrite Nat2Z.id, insert_app_r_alt, Nat.sub_diag by lia. cbn [insert list_insert res_bind ch_unique CompletionHandlerStub_new].
  set (idx := Z.of_nat (length (chdq g))). rewrite (upd_handler_done _ a h) by exact Ha. cbn [res_bind].
  unfold handleCompletion. set (g1 := with_handlers _ _). set (h1 := set_idxreactor (Some idx) h) in g1.
  assert (handlers g1 !! a = Some h1) as Ha1 by (cbn; by rewrite lookup_insert_eq).
  rewrite (handler_at_done g1 a h1 Ha1). cbn [res_bind]. change (call h1) with (call h).
  unfold registered. destruct (call h) eqn:Ec; rewrite ?decide_False, ?decide_True by done; cbn [res_bind fst].
  - unfold g1, h1, set_idxreactor. by rewrite Ec.
  - rewrite (upd_handler_done g1 a h1 _ Ha1). cbn. by rewrite insert_insert_eq.
  - unfold g1, h1, set_idxreactor. by rewrite Ec.
Qed.

Lemma hwf_unregister g a h (c : nat) st st' h' : hwf g -> handlers g !! a = Some h ->
  idxreactor h = Some (Z.of_nat c) -> chdq g !! c = Some st -> pch st' = dummyhandler ->
  storeidx h = None -> idxreactor h' = None -> call h' = call h -> storeidx h' = None ->
  (call h <> Timer_on_completion -> f h' = f h) ->
  hwf (with_handlers (with_chdq g (<[c := st']> (chdq g))) (<[a := h']> (handlers g))).
Proof.
  intros Hw Ha Hi Hst Ep Es E1 E2 E3 E4. destruct Hw as [Ht Hl].
  destruct (tb_idx g Ht a h _ Ha Hi) as (c' & st0 & E & Hst0 & Hpa & _). apply Nat2Z.inj in E. subst c'.
  assert (st0 = st) as -> by congruence. split.
  - destruct Ht as [(d & Hd & Hd1 & Hd2 & Hd3) Hs Hix Hidle Hc]. constructor; cbn; [| | | |done].
    + destruct (decide (a = dummyhandler)) as [->|]; [|rewrite lookup_insert_ne by done; by exists d].
      rewrite lookup_insert_eq. exists h'. assert (d = h) as -> by congruence. by rewrite E2, E3, E4 by (by rewrite Hd1).
    + intros k x Hx Hne. apply list_lookup_insert_Some in Hx as [(<- & <- & _)|[Hk Hx]]; [done|].
      destruct (Hs k x Hx Hne) as (h0 & Hh0 & Hi0). exists h0. rewrite lookup_insert_ne; [done|]. intros ->.
      assert (h0 = h) as -> by congruence. rewrite Hi in Hi0. injection Hi0 as Hi0. lia.
    + intros b hb i. destruct (decide (a = b)) as [<-|Hab]; [rewrite lookup_insert_eq; intros [= <-]; congruence|].
      rewrite lookup_insert_ne by done. intros Hb Hbi. destruct (Hix b hb i Hb Hbi) as (k & x & -> & Hx & <- & ?).
      exists k, x. split_and!; try done. rewrite list_lookup_insert_ne; [done|]. intros <-. congruence.
    + intros b hb. destruct (decide (a = b)) as [<-|]; [|rewrite lookup_insert_ne by done; apply Hidle].
      rewrite lookup_insert_eq. intros [= <-]. rewrite E2, E3. intros Hn. rewrite E4 by done. split; [by apply (Hidle a)|done].
  - destruct Hl as [H1 H2]. constructor; cbn.
    + intros n t k _ Hn. destruct (H1 n t k I Hn) as (b & hb & _ & Hb & Hwb). exists b, hb.
      rewrite lookup_insert_ne; [done|]. intros <-. pose proof (wt_store _ _ _ Hwb). congruence.
    + intros b hb i _. destruct (decide (a = b)) as [<-|]; [|rewrite lookup_insert_ne by done; by apply H2].
      rewrite lookup_insert_eq. intros [= <-]. by rewrite E3.
Qed.

(** Removing an active handler: it leaves the timer store, its place in the table gets a new
    number and belongs to the dummy handler. *)
Lemma deactivate_spec g a h (c : nat) : hwf g -> handlers g !! a = Some h -> idxreactor h = Some (Z.of_nat c) ->
  exists g' st, deactivate g a = Done g' /\ hwf g' /\ chdq g !! c = Some st
    /\ chdq g' = <[c := mkChStub dummyhandler 0 (ch_unique st + 1)]> (chdq g)
    /\ (exists h', handlers g' !! a = Some h' /\ idxreactor h' = None /\ call h' = call h)
    /\ others a g g' /\ taken_out g (storeidx h) (tv g')
    /\ TimeStore.mint (timestore g') = TimeStore.mint (timestore g).
Proof.
  intros Hw Ha Hi. destruct (tb_idx g (hw_table g Hw) a h _ Ha Hi) as (c' & st & E & Hst & Hpa & Hcall).
  apply Nat2Z.inj in E. subst c'. assert (c < length (chdq g))%nat as Hlt by (eapply lookup_lt_Some; eassumption).
  unfold deactivate. rewrite (handler_at_done g a h Ha). cbn [res_bind]. unfold isActive. rewrite Hi, bool_decide_true by done.
  unfold unregisterCompletionHandler. rewrite (handler_at_done g a h Ha). cbn [res_bind]. rewrite Hi. cbn [of_option res_bind].
  rewrite (proj2 (vec_get_done (chdq g) (Z.of_nat c) st)) by (rewrite Nat2Z.id; split; [lia|done]). cbn [res_bind].
  unfold handleCompletion. rewrite (handler_at_done g a h Ha). cbn [res_bind].
  set (st' := mkChStub dummyhandler 0 (ch_unique st + 1)).
  destruct (call h) eqn:Ec; [|done|].
  - destruct (tb_idle g (hw_table g Hw) a h Ha ltac:(by rewrite Ec)) as [Ef Es].
    cbn [res_bind fst]. rewrite vec_set_done by lia. rewrite Nat2Z.id. cbn [res_bind].
    rewrite (upd_handler_done _ a h) by exact Ha. eexists _, st. split; [reflexivity|]. rewrite Es.
    split_and!; try done.
    + by apply (hwf_unregister g a h c st).
    + eexists. cbn. by rewrite lookup_insert_eq.
    + intros b Hb. cbn [handlers with_handlers with_chdq]. by rewrite lookup_insert_ne.
  - destruct (doClear_spec g a h Hw Ha) as (g1 & -> & Hw1 & Ha1 & Ec1 & Ho1 & Hv1 & Em1). cbn [res_bind fst].
    rewrite (upd_handler_done g1 a _ _ Ha1). cbn [res_bind fst with_handlers chdq].
    rewrite Ec1, vec_set_done by lia. rewrite Nat2Z.id. cbn [res_bind].
    set (h2 := set_f (Some on_dummy) (set_storeidx None (set_f None h))).
    rewrite (upd_handler_done _ a h2) by (cbn; by rewrite lookup_insert_eq).
    eexists _, st. split; [reflexivity|]. split_and!; try done.
    + cbn [handlers with_handlers with_chdq]. rewrite insert_insert_eq. cbn. rewrite <- Ec1.
      by apply (hwf_unregister g1 a (set_storeidx None (set_f None h)) c st); rewrite ?Ec1.
    + eexists. cbn. by rewrite lookup_insert_eq.
    + eapply others_trans; [exact Ho1|]. intros b Hb. cbn [handlers with_handlers with_chdq].
      by rewrite !lookup_insert_ne by done.
Qed.

(** A new timer in memory. *)
Lemma hwf_new_timer g a : hwf g -> handlers g !! a = None ->
  hwf (with_handlers g (<[a := Timer_new]> (handlers g))).
Proof.
  intros [[(d & Hd & Hd') Hs Hix Hidle Hc] [H1 H2]] Ha. split; constructor; cbn; try done.
  - exists d. rewrite lookup_insert_ne; [done|congruence].
  - intros c st Hst Hne. destruct (Hs c st Hst Hne) as (h & Hh & Hi). exists h. rewrite lookup_insert_ne; [done|congruence].
  - intros b h i. destruct (decide (a = b)) as [<-|]; [rewrite lookup_insert_eq; by intros [= <-]|].
    rewrite lookup_insert_ne by done. apply Hix.
  - intros b h. destruct (decide (a = b)) as [<-|]; [rewrite lookup_insert_eq; by intros [= <-]|].
    rewrite lookup_insert_ne by done. apply Hidle.
  - intros n t c _ Hn. destruct (H1 n t c I Hn) as (b & h & _ & Hb & Hw). exists b, h. rewrite lookup_insert_ne; [done|congruence].
  - intros b h i _. destruct (decide (a = b)) as [<-|]; [rewrite lookup_insert_eq; by intros [= <-]|].
    rewrite lookup_insert_ne by done. by apply H2.
Qed.

(** The reactor does not sleep past the next timer, and sleeps a minute at most. *)
Lemma wait_before_next g (now : NanoTime) :
  tv g <> [] -> normal now -> normal (TimeStore.next (timestore g)) ->
  nanos (TimeStore.next (timestore g)) - nanos now < 2 ^ 50 * billion ->
  let w := computeWaitTimeMilliseconds 0 g now in
  0 <= w <= 60000 /\ (w = 0 \/ nanos now + w * 1000000 <= nanos (TimeStore.next (timestore g))).
Proof.
  intros Hne Hn Hm Hb. unfold computeWaitTimeMilliseconds. cbn [Z.eqb negb].
  assert (TimeStore.size (timestore g) <> 0) as Hsz by (unfold TimeStore.size; destruct (TimeStore.tv (timestore g)); [done|cbn; lia]).
  rewrite (proj2 (Z.eqb_neq _ _) Hsz). cbn [negb].
  destruct (lt now (TimeStore.next (timestore g))) eqn:El; [|cbn; lia].
  apply lt_nanos in El; try done. set (nx := TimeStore.next (timestore g)) in *.
  destruct (minus_assign_spec nx now) as [Hd Ed]; try done; [lia|]. set (delta := minus_assign nx now) in *.
  pose proof Hd as [[Hs0 Hs1] Hns]. rewrite (seconds_normal delta Hd).
  assert (tv_sec delta < 2 ^ 50) as Hs by (unfold nanos, billion in *; lia).
  rewrite signed_small by lia. rewrite Z.quot_div_nonneg by lia.
  assert (0 <= tv_nsec delta / 1000000 < 1000) as Hq.
  { split; [apply Z.div_pos; lia|]. apply Z.div_lt_upper_bound; unfold billion in *; lia. }
  pose proof (Z.mul_div_le (tv_nsec delta) 1000000 ltac:(lia)). cbv zeta.
  assert (nanos delta = tv_sec delta * billion + tv_nsec delta) as En by done. unfold billion in *.
  destruct (Z.ltb_spec (1000 * 60) (tv_sec delta * 1000 + tv_nsec delta / 1000000)).
  - split; [lia|]. right. lia.
  - rewrite signed_small by lia. split; [lia|]. right. lia.
Qed.

End Handlers.

Arguments TimerFn : clear implicits.
Arguments Handler : clear implicits.
Arguments Handlers : clear implicits.
End Handlers.
