(* ===== verification/Reactor.v ===== *)
(** * The reactor

    solid/frame/src/reactor.cpp with reactorbase.hpp, reactorcontext.hpp, object.hpp and
    object.cpp: the thread that runs objects. It delivers the events raised for its objects, runs
    the functions they post, fires their timers (Handlers.v) and takes objects in and out.

    An object is an address; its memory holds its id in the reactor and the chain of its
    completion handlers. The code of the objects is a parameter: it acts on the reactor through
    the operations of [api] and on a world of its own. Other threads raise events and push
    objects under the mutex of the reactor; the reactor takes them over in [doWaitEvent].

    The number that makes an id unique ([UniqueT], 64 bits) is unbounded. Assertions are
    disabled. [raised] and [delivered] are history: the events the reactor was given and the
    ones it handed to objects; no operation reads them. *)

From stdpp Require Import gmap.
From S2P Require Import Prelude FrameCommon TimeStore Handlers.
Import FrameCommon NanoTime.
Import Handlers(Addr, dummyhandler).
#[local] Open Scope res_scope.

Module Reactor.

(** The reactor's own object, which has the dummy handler. *)
Definition eventobj : Addr := 0.

Section Types.
Context {World Svc Ev Fn : Type}.

(** What the reactor uses of an [Object]. *)
Record ObjectMem := mkObject { runId : option UniqueId; chain : list Addr }.

Record NewTaskStub := mkNewTask { nt_uid : UniqueId; nt_objptr : Addr; nt_rsvc : Svc; nt_event : Ev }.

Record RaiseEventStub := mkRaise { re_uid : UniqueId; re_event : Ev }.

Record ObjectStub := mkObjStub { os_unique : Z; psvc : option Svc; objptr : option Addr }.

Definition ObjectStub_new : ObjectStub := mkObjStub 0 None None.

(** The functions of an [ExecStub]: those of the user, and those of the reactor. *)
Inductive EventFunctionT :=
  | User (fn : Fn)
  | call_object_on_event
  | stop_object_repost
  | stop_object
  | StopObjectF (function : Fn) (repost : bool).

Record ExecStub := mkExec { objuid : UniqueId; chnuid : UniqueId; exefnc : EventFunctionT; ex_event : Ev }.

(** [ReactorContext] *)
Record Context := mkContext { ctx_time : NanoTime; ctx_chnidx : Z; ctx_objidx : Z }.

(** The members of [Reactor::Data] and [ReactorBase] that the mutex guards. *)
Record Inbox := mkInbox {
  must_stop : bool;
  crtpushtskvecidx : Z;
  crtraisevecidx : Z;
  crtpushvecsz : Z;
  crtraisevecsz : Z;
  pushtskvec : list (list NewTaskStub);
  raisevec : list (list RaiseEventStub);
  crtidx : Z;
  uidstk : list UniqueId
}.

(** The members that belong to the thread of the reactor, with the memory of the objects;
    [pcrtpushtskvec] and [pcrtraisevec] are the positions of the vectors they point to. *)
Record Reactor := mkReactor {
  hs : Handlers.Handlers Fn;
  objects : gmap Addr ObjectMem;
  world : World;
  inbox : Inbox;
  running : bool;
  objcnt : Z;
  pcrtpushtskvec : Z;
  pcrtraisevec : Z;
  freeuidvec : list UniqueId;
  objdq : list ObjectStub;
  exeq : list ExecStub;
  raised : list (UniqueId * Ev);
  delivered : list (UniqueId * Ev)
}.

Definition with_hs (r : Reactor) (x : Handlers.Handlers Fn) : Reactor :=
  mkReactor x (objects r) (world r) (inbox r) (running r) (objcnt r) (pcrtpushtskvec r) (pcrtraisevec r)
    (freeuidvec r) (objdq r) (exeq r) (raised r) (delivered r).
Definition with_objects (r : Reactor) (x : gmap Addr ObjectMem) : Reactor :=
  mkReactor (hs r) x (world r) (inbox r) (running r) (objcnt r) (pcrtpushtskvec r) (pcrtraisevec r)
    (freeuidvec r) (objdq r) (exeq r) (raised r) (delivered r).
Definition with_world (r : Reactor) (x : World) : Reactor :=
  mkReactor (hs r) (objects r) x (inbox r) (running r) (objcnt r) (pcrtpushtskvec r) (pcrtraisevec r)
    (freeuidvec r) (objdq r) (exeq r) (raised r) (delivered r).
Definition with_inbox (r : Reactor) (x : Inbox) : Reactor :=
  mkReactor (hs r) (objects r) (world r) x (running r) (objcnt r) (pcrtpushtskvec r) (pcrtraisevec r)
    (freeuidvec r) (objdq r) (exeq r) (raised r) (delivered r).
Definition with_running (r : Reactor) (x : bool) : Reactor :=
  mkReactor (hs r) (objects r) (world r) (inbox r) x (objcnt r) (pcrtpushtskvec r) (pcrtraisevec r)
    (freeuidvec r) (objdq r) (exeq r) (raised r) (delivered r).
Definition with_objcnt (r : Reactor) (x : Z) : Reactor :=
  mkReactor (hs r) (objects r) (world r) (inbox r) (running r) x (pcrtpushtskvec r) (pcrtraisevec r)
    (freeuidvec r) (objdq r) (exeq r) (raised r) (delivered r).
Definition with_pcrt (r : Reactor) (x y : Z) : Reactor :=
  mkReactor (hs r) (objects r) (world r) (inbox r) (running r) (objcnt r) x y
    (freeuidvec r) (objdq r) (exeq r) (raised r) (delivered r).
Definition with_freeuidvec (r : Reactor) (x : list UniqueId) : Reactor :=
  mkReactor (hs r) (objects r) (world r) (inbox r) (running r) (objcnt r) (pcrtpushtskvec r) (pcrtraisevec r)
    x (objdq r) (exeq r) (raised r) (delivered r).
Definition with_objdq (r : Reactor) (x : list ObjectStub) : Reactor :=
  mkReactor (hs r) (objects r) (world r) (inbox r) (running r) (objcnt r) (pcrtpushtskvec r) (pcrtraisevec r)
    (freeuidvec r) x (exeq r) (raised r) (delivered r).
Definition with_exeq (r : Reactor) (x : list ExecStub) : Reactor :=
  mkReactor (hs r) (objects r) (world r) (inbox r) (running r) (objcnt r) (pcrtpushtskvec r) (pcrtraisevec r)
    (freeuidvec r) (objdq r) x (raised r) (delivered r).
Definition with_history (r : Reactor) (x y : list (UniqueId * Ev)) : Reactor :=
  mkReactor (hs r) (objects r) (world r) (inbox r) (running r) (objcnt r) (pcrtpushtskvec r) (pcrtraisevec r)
    (freeuidvec r) (objdq r) (exeq r) x y.

#[export] Program Instance store_in_reactor : TimeStore.StoreIn Reactor Z := {|
  TimeStore.get_store r := Handlers.timestore (hs r);
  TimeStore.put_store x r := with_hs r (Handlers.with_timestore (hs r) x)
|}.
Next Obligation. done. Qed.

(** Changes of the inbox. *)
Definition with_push (i : Inbox) (v : list (list NewTaskStub)) (sz : Z) : Inbox :=
  mkInbox (must_stop i) (crtpushtskvecidx i) (crtraisevecidx i) sz (crtraisevecsz i) v (raisevec i) (crtidx i) (uidstk i).
Definition with_raise (i : Inbox) (v : list (list RaiseEventStub)) (sz : Z) : Inbox :=
  mkInbox (must_stop i) (crtpushtskvecidx i) (crtraisevecidx i) (crtpushvecsz i) sz (pushtskvec i) v (crtidx i) (uidstk i).
Definition with_uids (i : Inbox) (c : Z) (st : list UniqueId) : Inbox :=
  mkInbox (must_stop i) (crtpushtskvecidx i) (crtraisevecidx i) (crtpushvecsz i) (crtraisevecsz i) (pushtskvec i)
    (raisevec i) c st.
Definition with_must_stop (i : Inbox) (b : bool) : Inbox :=
  mkInbox b (crtpushtskvecidx i) (crtraisevecidx i) (crtpushvecsz i) (crtraisevecsz i) (pushtskvec i) (raisevec i)
    (crtidx i) (uidstk i).
Definition with_push_switch (i : Inbox) (idx : Z) : Inbox :=
  mkInbox (must_stop i) idx (crtraisevecidx i) 0 (crtraisevecsz i) (pushtskvec i) (raisevec i) (crtidx i) (uidstk i).
Definition with_raise_switch (i : Inbox) (idx : Z) : Inbox :=
  mkInbox (must_stop i) (crtpushtskvecidx i) idx (crtpushvecsz i) 0 (pushtskvec i) (raisevec i) (crtidx i) (uidstk i).

(** The code of the objects, and what it calls of the manager. *)
Class ReactorEnv := {
  call_user : Fn -> Context -> Ev -> Reactor -> Reactor;
  call_timer : Fn -> Context -> Reactor -> Reactor;
  onEvent : Addr -> Context -> Ev -> Reactor -> Reactor;
  no_event : Ev;
  disableVisits : World -> Addr -> World * bool;
  object_stop : World -> Addr -> World
}.

(** Where [run] is: before [doWaitEvent], before [doCompleteEvents] (if it was woken up), before
    [doCompleteTimer], before [doCompleteExec], or out of the loop. *)
Inductive Phase := AtWait | AtEvents (woken : bool) | AtTimers | AtExec | AtExit.

End Types.

Arguments ObjectMem : clear implicits.
Arguments NewTaskStub : clear implicits.
Arguments RaiseEventStub : clear implicits.
Arguments ObjectStub : clear implicits.
Arguments EventFunctionT : clear implicits.
Arguments ExecStub : clear implicits.
Arguments Inbox : clear implicits.
Arguments Reactor : clear implicits.
Arguments ReactorEnv : clear implicits.

Section Ops.
Context {World Svc Ev Fn : Type} {RE : ReactorEnv World Svc Ev Fn}.

Abbreviation reactor := (Reactor World Svc Ev Fn).
Abbreviation exec := (ExecStub Ev Fn).
Implicit Types (r : reactor).

(** ** From other threads *)

(** [raise]; waking the thread up is left out. *)
Definition raise (r : reactor) (_robjuid : UniqueId) (_revent : Ev) : res reactor :=
  let i := inbox r in
  let! v := vec_get (raisevec i) (crtraisevecidx i) in
  let v := v ++ [mkRaise _robjuid _revent] in
  let! vs := vec_set (raisevec i) (crtraisevecidx i) v in
  let r := with_history r (raised r ++ [(_robjuid, _revent)]) (delivered r) in
  Done (with_inbox r (with_raise i vs (Z.of_nat (length v)))).

Definition stop (r : reactor) : reactor := with_inbox r (with_must_stop (inbox r) true).

(** [ReactorBase::popUid] *)
Definition popUid (r : reactor) (_robj : Addr) : res (reactor * UniqueId) :=
  let i := inbox r in
  let '(i, rv) :=
    match uidstk i with
    | u :: st => (with_uids i (crtidx i) st, u)
    | [] => (with_uids i (crtidx i + 1) [], mkUniqueId (crtidx i) 0)
    end in
  let! o := of_option (objects r !! _robj) in
  Done (with_objects (with_inbox r i) (<[_robj := mkObject (Some rv) (chain o)]> (objects r)), rv).

Definition push (r : reactor) (_robj : Addr) (_rsvc : Svc) (_revent : Ev) : res (reactor * UniqueId) :=
  let! x := popUid r _robj in
  let '(r, uid) := x in
  let i := inbox r in
  let! v := vec_get (pushtskvec i) (crtpushtskvecidx i) in
  let v := v ++ [mkNewTask uid _robj _rsvc _revent] in
  let! vs := vec_set (pushtskvec i) (crtpushtskvecidx i) v in
  let r := with_history r (raised r ++ [(uid, _revent)]) (delivered r) in
  Done (with_inbox r (with_push i vs (Z.of_nat (length v))), uid).

(** ** What objects call *)

Definition dummyCompletionHandlerUid (r : reactor) : res UniqueId :=
  let! h := Handlers.handler_at (hs r) dummyhandler in
  let! idx := of_option (Handlers.idxreactor h) in
  let! st := vec_get (Handlers.chdq (hs r)) idx in
  Done (mkUniqueId idx (Handlers.ch_unique st)).

(** [ReactorContext::objectUid] and [object] *)
Definition objectUid (r : reactor) (_rctx : Context) : res UniqueId :=
  let! os := vec_get (objdq r) (ctx_objidx _rctx) in
  Done (mkUniqueId (ctx_objidx _rctx) (os_unique os)).

Definition object (r : reactor) (_rctx : Context) : res Addr :=
  let! os := vec_get (objdq r) (ctx_objidx _rctx) in
  of_option (objptr os).

Definition exeq_push (r : reactor) (x : exec) : reactor := with_exeq r (exeq r ++ [x]).

(** [doPost] to the object of the context, with the dummy handler. *)
Definition doPost (r : reactor) (_rctx : Context) (_revfn : EventFunctionT Fn) (_uev : Ev) : res reactor :=
  let! u := objectUid r _rctx in
  let! c := dummyCompletionHandlerUid r in
  Done (exeq_push r (mkExec u c _revfn _uev)).

(** [doPost] with a handler of the object: not run when the handler is gone. *)
Definition doPost_handler (r : reactor) (_rctx : Context) (_revfn : EventFunctionT Fn) (_uev : Ev) (_rch : Addr)
  : res reactor :=
  let! u := objectUid r _rctx in
  let! h := Handlers.handler_at (hs r) _rch in
  let! idx := of_option (Handlers.idxreactor h) in
  let! st := vec_get (Handlers.chdq (hs r)) idx in
  Done (exeq_push r (mkExec u (mkUniqueId idx (Handlers.ch_unique st)) _revfn _uev)).

Definition postObjectStop (r : reactor) (_rctx : Context) : res reactor :=
  doPost r _rctx stop_object_repost no_event.

Definition postObjectStop_with (r : reactor) (_rctx : Context) (_f : Fn) (_uev : Ev) : res reactor :=
  doPost r _rctx (StopObjectF _f true) _uev.

(** The loop of [doPrepareStop] over the handlers. *)
Fixpoint deactivate_all (g : Handlers.Handlers Fn) (ch : list Addr) : res (Handlers.Handlers Fn) :=
  match ch with
  | [] => Done g
  | a :: ch => let! g := Handlers.deactivate g a in deactivate_all g ch
  end.

Definition doPrepareStop (r : reactor) (o : Addr) : res (reactor * bool) :=
  let '(w, ok) := disableVisits (world r) o in
  let r := with_world r w in
  if ok then
    let! m := of_option (objects r !! o) in
    let! g := deactivate_all (hs r) (chain m) in
    Done (with_objects (with_hs r g) (<[o := mkObject (runId m) []]> (objects r)), true)
  else Done (r, false).

(** [Object::postStop], called by the object of the context. *)
Definition postStop (r : reactor) (_rctx : Context) : res reactor :=
  let! o := object r _rctx in
  let! x := doPrepareStop r o in
  let '(r, ok) := x in
  if ok then postObjectStop r _rctx else Done r.

(** [Object::postStop] with a function to call at the end. *)
Definition postStop_with (r : reactor) (_rctx : Context) (_f : Fn) (_revent : Ev) : res reactor :=
  let! o := object r _rctx in
  let! x := doPrepareStop r o in
  let '(r, ok) := x in
  if ok then postObjectStop_with r _rctx _f _revent else Done r.

(** The constructor of a [Timer] at [a], a member of the object [o]. *)
Definition new_timer (r : reactor) (o a : Addr) : res reactor :=
  let! m := of_option (objects r !! o) in
  let r := with_objects r (<[o := mkObject (runId m) (a :: chain m)]> (objects r)) in
  let g := Handlers.with_handlers (hs r) (<[a := Handlers.Timer_new]> (Handlers.handlers (hs r))) in
  match runId m with
  | Some u =>
      let! g := Handlers.activate g a (uid_index u) in
      Done (with_hs r g)
  | None => Done (with_hs r g)
  end.

(** ** The thread of the reactor *)

(** The part of [doWaitEvent] after the thread has woken up. *)
Definition doWaitEvent (r : reactor) : reactor * bool :=
  let i := inbox r in
  let '(r, i) := if must_stop i then (with_running r false, with_must_stop i false) else (r, i) in
  let '(r, i, rv) :=
    if negb (crtpushvecsz i =? 0) then
      let i := with_uids i (crtidx i) (rev (freeuidvec r) ++ uidstk i) in
      let idx := crtpushtskvecidx i in
      (with_pcrt (with_freeuidvec r []) idx (pcrtraisevec r), with_push_switch i (Z.land (idx + 1) 1), true)
    else (r, i, false) in
  let '(r, i, rv) :=
    if negb (crtraisevecsz i =? 0) then
      let idx := crtraisevecidx i in
      (with_pcrt r (pcrtpushtskvec r) idx, with_raise_switch i (Z.land (idx + 1) 1), true)
    else (r, i, rv) in
  (with_inbox r i, rv).

(** [Object::registerCompletionHandlers] *)
Fixpoint activate_all (g : Handlers.Handlers Fn) (ch : list Addr) (runIdx : Z) : res (Handlers.Handlers Fn) :=
  match ch with
  | [] => Done g
  | a :: ch => let! g := Handlers.activate g a runIdx in activate_all g ch runIdx
  end.

(** The constructor, and [start]. *)
Definition Reactor_new (w : World) : reactor :=
  mkReactor (Handlers.mkHandlers {[ dummyhandler := Handlers.dummy_new ]} [] [] TimeStore.TimeStore_new)
    {[ eventobj := mkObject None [dummyhandler] ]} w
    (mkInbox false 0 0 0 0 [[]; []] [[]; []] 0 []) false 0 1 1 [] [] [] [] [].

Definition start (r : reactor) : res reactor :=
  let r := with_objdq r (objdq r ++ [mkObjStub 0 None (Some eventobj)]) in
  let! x := popUid r eventobj in
  let '(r, uid) := x in
  let! m := of_option (objects r !! eventobj) in
  let! g := activate_all (hs r) (chain m) (uid_index uid) in
  Done (with_running (with_hs r g) true).

(** A new object enters. *)
Definition complete_push (r : reactor) (rnewobj : NewTaskStub Svc Ev) : res reactor :=
  let idx := uid_index (nt_uid rnewobj) in
  let v := if Z.of_nat (length (objdq r)) <=? idx
           then objdq r ++ replicate (Z.to_nat (idx + 1) - length (objdq r)) ObjectStub_new
           else objdq r in
  let! ros := vec_get v idx in
  let! v := vec_set v idx (mkObjStub (os_unique ros) (Some (nt_rsvc rnewobj)) (Some (nt_objptr rnewobj))) in
  let r := with_objdq r v in
  let! m := of_option (objects r !! nt_objptr rnewobj) in
  let! u := of_option (runId m) in
  let! g := activate_all (hs r) (chain m) (uid_index u) in
  let r := with_hs r g in
  let! c := dummyCompletionHandlerUid r in
  Done (exeq_push r (mkExec (nt_uid rnewobj) c call_object_on_event (nt_event rnewobj))).

Fixpoint complete_pushes (r : reactor) (v : list (NewTaskStub Svc Ev)) : res reactor :=
  match v with
  | [] => Done r
  | x :: v => let! r := complete_push r x in complete_pushes r v
  end.

Fixpoint complete_raises (r : reactor) (v : list (RaiseEventStub Ev)) : res reactor :=
  match v with
  | [] => Done r
  | x :: v =>
      let! c := dummyCompletionHandlerUid r in
      complete_raises (exeq_push r (mkExec (re_uid x) c call_object_on_event (re_event x))) v
  end.

Definition doCompleteEvents (r : reactor) : res reactor :=
  let! crtpushvec := vec_get (pushtskvec (inbox r)) (pcrtpushtskvec r) in
  let! crtraisevec := vec_get (raisevec (inbox r)) (pcrtraisevec r) in
  let r := with_objcnt r (objcnt r + Z.of_nat (length crtpushvec)) in
  let! r := complete_pushes r crtpushvec in
  let i := inbox r in
  let! vs := vec_set (pushtskvec i) (pcrtpushtskvec r) [] in
  let r := with_inbox r (with_push i vs (crtpushvecsz i)) in
  let! r := complete_raises r crtraisevec in
  let i := inbox r in
  let! vs := vec_set (raisevec i) (pcrtraisevec r) [] in
  Done (with_inbox r (with_raise i vs (crtraisevecsz i))).

(** [onTimer]: the completion handler of the timer is called, which calls its function. *)
Definition onTimer (now : NanoTime) (_tidx _chidx : Z) (r : reactor) : res reactor :=
  let! rch := vec_get (Handlers.chdq (hs r)) _chidx in
  let ctx := mkContext now _chidx (Handlers.objidx rch) in
  let! x := Handlers.handleCompletion (hs r) (Handlers.pch rch) Handlers.ReactorEventTimer in
  let '(g, fn) := x in
  let r := with_hs r g in
  match fn with
  | Some (Handlers.TimerUser fn) => Done (call_timer fn ctx r)
  | _ => Done r
  end.

Definition doUpdateTimerIndex (_chidx _newidx _oldidx : Z) (r : reactor) : res reactor :=
  let! g := Handlers.doUpdateTimerIndex _chidx _newidx _oldidx (hs r) in
  Done (with_hs r g).

Definition doCompleteTimer (fuel : nat) (r : reactor) (_rcrttime : NanoTime) : res reactor :=
  TimeStore.pop fuel r _rcrttime (onTimer _rcrttime) doUpdateTimerIndex.

(** [doStopObject] *)
Definition doStopObject (r : reactor) (_rctx : Context) : res reactor :=
  let! ros := vec_get (objdq r) (ctx_objidx _rctx) in
  let! o := of_option (objptr ros) in
  let! svc := of_option (psvc ros) in
  let r := with_world r (object_stop (world r) o) in
  let unique := os_unique ros + 1 in
  let! v := vec_set (objdq r) (ctx_objidx _rctx) (mkObjStub unique None None) in
  let r := with_objcnt (with_objdq r v) (objcnt r - 1) in
  Done (with_freeuidvec r (freeuidvec r ++ [mkUniqueId (ctx_objidx _rctx) unique])).

(** The call [rexe.exefnc(ctx, rexe.event)]. *)
Definition execute (r : reactor) (ctx : Context) (rexe : exec) : res reactor :=
  match exefnc rexe with
  | User fn => Done (call_user fn ctx (ex_event rexe) r)
  | call_object_on_event =>
      let! o := object r ctx in
      let r := with_history r (raised r) (delivered r ++ [(objuid rexe, ex_event rexe)]) in
      Done (onEvent o ctx (ex_event rexe) r)
  | stop_object_repost => doPost r ctx stop_object no_event
  | stop_object => doStopObject r ctx
  | StopObjectF fn true => doPost r ctx (StopObjectF fn false) (ex_event rexe)
  | StopObjectF fn false => doStopObject (call_user fn ctx (ex_event rexe) r) ctx
  end.

(** One turn of the loop of [doCompleteExec]. The stub stays the front of the queue while its
    function runs. *)
Definition exec_front (r : reactor) (now : NanoTime) : res reactor :=
  let! rexe := of_option (head (exeq r)) in
  let! ros := vec_get (objdq r) (uid_index (objuid rexe)) in
  let! rcs := vec_get (Handlers.chdq (hs r)) (uid_index (chnuid rexe)) in
  let! r :=
    (if (os_unique ros =? uid_unique (objuid rexe)) && (Handlers.ch_unique rcs =? uid_unique (chnuid rexe))
     then execute r (mkContext now (uid_index (chnuid rexe)) (uid_index (objuid rexe))) rexe
     else Done r) in
  Done (with_exeq r (tail (exeq r))).

Fixpoint exec_loop (sz : nat) (r : reactor) (now : NanoTime) : res reactor :=
  match sz with
  | O => Done r
  | S sz => let! r := exec_front r now in exec_loop sz r now
  end.

Definition doCompleteExec (r : reactor) (now : NanoTime) : res reactor := exec_loop (length (exeq r)) r now.

(** [run] goes on while this holds. *)
Definition keeps_running (r : reactor) : bool :=
  running r || negb (objcnt r =? 0) || negb (bool_decide (exeq r = [])).

(** [run], one call at a time; the time is read before each. *)
Definition next (fuel : nat) (crttime : NanoTime) (p : Phase) (r : reactor) : res (Phase * reactor) :=
  match p with
  | AtWait => let '(r, b) := doWaitEvent r in Done (AtEvents b, r)
  | AtEvents true => let! r := doCompleteEvents r in Done (AtTimers, r)
  | AtEvents false => Done (AtTimers, r)
  | AtTimers => let! r := doCompleteTimer fuel r crttime in Done (AtExec, r)
  | AtExec => let! r := doCompleteExec r crttime in Done (if keeps_running r then AtWait else AtExit, r)
  | AtExit => Done (AtExit, r)
  end.

End Ops.
End Reactor.
