(* ===== verification/ReactorProofs.v ===== *)
(** * Correctness of the reactor

    The invariant of the reactor of Reactor.v, what its objects may do, and what follows: events
    reach their objects once and in order, timers fire, ids are not mixed up. *)

From Stdlib Require Import Permutation.
From stdpp Require Import gmap.
From S2P Require Import Prelude FrameCommon TimeStore Handlers Reactor.
Import FrameCommon NanoTime.
Import Handlers(Addr, dummyhandler, hwf, table, linked, others, handlers, chdq, idxreactor, call, pch, objidx).
Import Reactor.
#[local] Open Scope res_scope.
#[local] Set Warnings "-clear-no-such-hyp".

Module ReactorProofs.

Section Proofs.
Context {World Svc Ev Fn : Type} {RE : ReactorEnv World Svc Ev Fn}.

Abbreviation reactor := (Reactor World Svc Ev Fn).
Implicit Types (g : Handlers.Handlers Fn) (h : Handlers.Handler Fn) (r : reactor) (u : UniqueId) (ctx : Context) (ev : Ev) (o a : Addr).

(** ** The invariant *)

(** The number of the slot [i], and the object in it. *)
Definition cur r (i : Z) : Z := default 0 (os_unique <$> objdq r !! Z.to_nat i).
Definition obj_at r (i : Z) : option Addr := objdq r !! Z.to_nat i ≫= objptr.

(** The vector that other threads fill, and the one the reactor works on. *)
Definition new_vec {A} (vs : list (list A)) (crt : Z) : list A := default [] (vs !! Z.to_nat crt).
Definition two_vecs {A} (vs : list (list A)) (crt pcrt : Z) : Prop :=
  length vs = 2%nat /\ (crt = 0 \/ crt = 1) /\ pcrt = 1 - crt.

Definition push_new r := new_vec (pushtskvec (inbox r)) (crtpushtskvecidx (inbox r)).
Definition push_old r := new_vec (pushtskvec (inbox r)) (pcrtpushtskvec r).
Definition raise_new r := new_vec (raisevec (inbox r)) (crtraisevecidx (inbox r)).
Definition raise_old r := new_vec (raisevec (inbox r)) (pcrtraisevec r).
Definition pushes r := push_old r ++ push_new r.

(** Ids of objects on their way in, and ids that are free. *)
Definition pending r : list UniqueId := map nt_uid (pushes r).
Definition free r : list UniqueId := uidstk (inbox r) ++ freeuidvec r.

Definition alive r u : Prop := is_Some (obj_at r (uid_index u)) /\ uid_unique u = cur r (uid_index u).

(** An id that was given out: of an object that is in, on its way in, or gone. *)
Definition issued r u : Prop :=
  0 < uid_index u < crtidx (inbox r)
  /\ (uid_unique u < cur r (uid_index u) /\ uid_index u < Z.of_nat (length (objdq r)) \/ uid_unique u = cur r (uid_index u))
  /\ (uid_unique u = cur r (uid_index u) -> is_Some (obj_at r (uid_index u)) \/ u ∈ pending r).

(** The function takes the object out, now or after the next round. *)
Definition stops (x : ExecStub Ev Fn) : bool :=
  match exefnc x with stop_object_repost | stop_object | StopObjectF _ _ => true | _ => false end.

(** Events given to the object [u], handed to it, and on their way. *)
Definition to u (l : list (UniqueId * Ev)) : list Ev := (filter (fun x => x.1 = u) l).*2.
Definition exec_events (q : list (ExecStub Ev Fn)) : list (UniqueId * Ev) :=
  omap (fun x => match exefnc x with call_object_on_event => Some (objuid x, ex_event x) | _ => None end) q.
Definition push_events (v : list (NewTaskStub Svc Ev)) : list (UniqueId * Ev) := map (fun x => (nt_uid x, nt_event x)) v.
Definition raise_events (v : list (RaiseEventStub Ev)) : list (UniqueId * Ev) := map (fun x => (re_uid x, re_event x)) v.
Definition queued r : list (UniqueId * Ev) :=
  exec_events (exeq r) ++ push_events (push_old r) ++ raise_events (raise_old r)
  ++ push_events (push_new r) ++ raise_events (raise_new r).

Definition is_live (os : ObjectStub Svc) : bool := bool_decide (is_Some (objptr os)).

Record rwf r : Prop := {
  w_hs : hwf (hs r);
  w_event : exists m, objects r !! eventobj = Some m /\ is_Some (runId m);
  w_dummy : exists h c, handlers (hs r) !! dummyhandler = Some h /\ idxreactor h = Some c;
  w_push : two_vecs (pushtskvec (inbox r)) (crtpushtskvecidx (inbox r)) (pcrtpushtskvec r)
    /\ crtpushvecsz (inbox r) = Z.of_nat (length (push_new r));
  w_raise : two_vecs (raisevec (inbox r)) (crtraisevecidx (inbox r)) (pcrtraisevec r)
    /\ crtraisevecsz (inbox r) = Z.of_nat (length (raise_new r));
  w_len : 0 < Z.of_nat (length (objdq r)) <= crtidx (inbox r);
  w_nodup : NoDup (map uid_index (pending r ++ free r));
  w_ids : forall u, u ∈ pending r ++ free r ->
    0 < uid_index u < crtidx (inbox r) /\ uid_unique u = cur r (uid_index u) /\ obj_at r (uid_index u) = None;
  w_live : forall (i : nat) os o, objdq r !! i = Some os -> (0 < i)%nat -> objptr os = Some o ->
    is_Some (psvc os) /\ o <> eventobj /\ exists m, objects r !! o = Some m /\ runId m = Some (mkUniqueId (Z.of_nat i) (os_unique os));
  w_pend : forall x, x ∈ pushes r -> nt_objptr x <> eventobj /\ exists m, objects r !! nt_objptr x = Some m /\ runId m = Some (nt_uid x);
  w_exec : forall x, x ∈ exeq r ->
    0 < uid_index (objuid x) < Z.of_nat (length (objdq r)) /\ uid_unique (objuid x) <= cur r (uid_index (objuid x))
    /\ (uid_unique (objuid x) = cur r (uid_index (objuid x)) -> is_Some (obj_at r (uid_index (objuid x))))
    /\ 0 <= uid_index (chnuid x) < Z.of_nat (length (chdq (hs r)));
  w_chn : forall x, x ∈ exeq r -> (forall fn, exefnc x <> User fn) -> dummyCompletionHandlerUid r = Done (chnuid x);
  w_raised : forall x, x ∈ raise_old r -> uid_unique (re_uid x) = cur r (uid_index (re_uid x)) ->
    is_Some (obj_at r (uid_index (re_uid x))) \/ re_uid x ∈ map nt_uid (push_old r);
  w_history : forall u ev, (u, ev) ∈ raised r -> issued r u;
  w_queued : forall u ev, (u, ev) ∈ queued r -> (u, ev) ∈ raised r;
  w_fifo : forall u, alive r u \/ u ∈ pending r -> to u (raised r) = to u (delivered r) ++ to u (queued r);
  w_prefix : forall u, to u (delivered r) `prefix_of` to u (raised r);
  w_handlers : forall (c : nat) st, chdq (hs r) !! c = Some st -> pch st <> dummyhandler ->
    0 < objidx st /\ exists o m, obj_at r (objidx st) = Some o /\ objects r !! o = Some m /\ pch st ∈ chain m;
  w_chain : forall o m a, objects r !! o = Some m -> o <> eventobj -> a ∈ chain m ->
    a <> dummyhandler /\ exists h, handlers (hs r) !! a = Some h /\ call h <> Handlers.dummy_completion;
  w_stopping : forall x o m, x ∈ exeq r -> stops x = true -> uid_unique (objuid x) = cur r (uid_index (objuid x)) ->
    obj_at r (uid_index (objuid x)) = Some o -> objects r !! o = Some m -> chain m = [];
  w_objcnt : objcnt r = Z.of_nat (length (filter is_live (drop 1 (objdq r))))
}.

(** ** What the code of objects may do *)

(** The object has asked to be stopped. *)
Definition stopping r u : Prop := exists x, x ∈ exeq r /\ stops x = true /\ objuid x = u.

(** The steps of the code of an object that runs in the context [ctx]. *)
Inductive api ctx : reactor -> reactor -> Prop :=
  | api_world r w : api ctx r (with_world r w)
  | api_post r fn ev r' : doPost r ctx (User fn) ev = Done r' -> api ctx r r'
  | api_post_handler r fn ev a r' : doPost_handler r ctx (User fn) ev a = Done r' -> api ctx r r'
  | api_stop r r' : postStop r ctx = Done r' -> api ctx r r'
  | api_stop_with r fn ev r' : postStop_with r ctx fn ev = Done r' -> api ctx r r'
  | api_wait r a h t fn g b :
      handlers (hs r) !! a = Some h -> call h <> Handlers.dummy_completion ->
      Handlers.waitUntil (hs r) a t fn = Done (g, b) -> api ctx r (with_hs r g)
  | api_cancel r a h g :
      handlers (hs r) !! a = Some h -> call h <> Handlers.dummy_completion ->
      Handlers.cancel (hs r) a = Done g -> api ctx r (with_hs r g)
  | api_timer r o u a r' :
      handlers (hs r) !! a = None -> object r ctx = Done o -> objectUid r ctx = Done u -> ~ stopping r u ->
      new_timer r o a = Done r' -> api ctx r r'
  | api_object r o : objects r !! o = None -> api ctx r (with_objects r (<[o := mkObject None []]> (objects r)))
  | api_object_timer r o m a r' :
      handlers (hs r) !! a = None -> objects r !! o = Some m -> runId m = None -> new_timer r o a = Done r' -> api ctx r r'
  | api_raise r u ev r' : issued r u -> raise r u ev = Done r' -> api ctx r r'
  | api_push r o m svc ev r' u :
      objects r !! o = Some m -> runId m = None -> push r o svc ev = Done (r', u) -> api ctx r r'
  | api_reactor_stop r : api ctx r (Reactor.stop r).

(** The context belongs to an object that is in. *)
Definition ctx_ok r ctx : Prop := 0 < ctx_objidx ctx /\ is_Some (obj_at r (ctx_objidx ctx)).

(** ** Functions in the queue *)

Lemma cur_nat r (i : nat) os : objdq r !! i = Some os -> cur r (Z.of_nat i) = os_unique os.
Proof. intros H. unfold cur. by rewrite Nat2Z.id, H. Qed.

Lemma obj_at_nat r (i : nat) os : objdq r !! i = Some os -> obj_at r (Z.of_nat i) = objptr os.
Proof. intros H. unfold obj_at. by rewrite Nat2Z.id, H. Qed.

Lemma obj_at_slot r (i : Z) o : obj_at r i = Some o ->
  exists os, objdq r !! Z.to_nat i = Some os /\ objptr os = Some o /\ cur r i = os_unique os.
Proof. unfold obj_at, cur. destruct (objdq r !! Z.to_nat i) as [os|]; [|done]. cbn. eauto. Qed.

Lemma alive_slot r ctx : ctx_ok r ctx -> exists os o,
  vec_get (objdq r) (ctx_objidx ctx) = Done os /\ objptr os = Some o /\ obj_at r (ctx_objidx ctx) = Some o
  /\ cur r (ctx_objidx ctx) = os_unique os /\ ctx_objidx ctx < Z.of_nat (length (objdq r)).
Proof.
  intros [Hi [o Ho]]. destruct (obj_at_slot r _ o Ho) as (os & Hos & Hp & Hc). exists os, o. split_and!; try done.
  - apply vec_get_done. split; [lia|done].
  - apply lookup_lt_Some in Hos. lia.
Qed.

Lemma dummy_uid r : rwf r -> exists c, dummyCompletionHandlerUid r = Done c
  /\ 0 <= uid_index c < Z.of_nat (length (chdq (hs r))).
Proof.
  intros Hw. destruct (w_dummy r Hw) as (h & c & Hh & Hc).
  destruct (Handlers.tb_idx _ (Handlers.hw_table _ (w_hs r Hw)) _ _ _ Hh Hc) as (k & st & -> & Hk & _).
  unfold dummyCompletionHandlerUid. rewrite (Handlers.handler_at_done _ _ _ Hh). cbn [res_bind]. rewrite Hc.
  cbn [of_option res_bind]. rewrite (proj2 (vec_get_done _ _ st)) by (rewrite Nat2Z.id; split; [lia|done]).
  eexists; split; [reflexivity|]. cbn. apply lookup_lt_Some in Hk. lia.
Qed.

(** A function for the object [u] may be queued. *)
Record may_queue r (x : ExecStub Ev Fn) : Prop := {
  mq_slot : 0 < uid_index (objuid x) < Z.of_nat (length (objdq r));
  mq_alive : alive r (objuid x);
  mq_chn : 0 <= uid_index (chnuid x) < Z.of_nat (length (chdq (hs r)));
  mq_dummy : (forall fn, exefnc x <> User fn) -> dummyCompletionHandlerUid r = Done (chnuid x);
  mq_stop : stops x = true -> forall o m, obj_at r (uid_index (objuid x)) = Some o -> objects r !! o = Some m -> chain m = []
}.

Lemma exec_events_app q q' : exec_events (q ++ q') = exec_events q ++ exec_events q'.
Proof. apply omap_app. Qed.

Lemma to_app u l l' : to u (l ++ l') = to u l ++ to u l'.
Proof. unfold to. by rewrite filter_app, fmap_app. Qed.

Lemma queued_push r x : exefnc x <> call_object_on_event -> queued (exeq_push r x) = queued r.
Proof.
  intros Hx. unfold queued, exeq_push, push_old, push_new, raise_old, raise_new. cbn. rewrite exec_events_app.
  unfold exec_events at 2. cbn. destruct (exefnc x); try done; by rewrite app_nil_r.
Qed.

Lemma rwf_exeq_push r x : rwf r -> may_queue r x -> exefnc x <> call_object_on_event -> rwf (exeq_push r x).
Proof.
  intros Hw Hx He. pose proof (queued_push r x He) as Hq. destruct Hw. constructor; try assumption.
  - cbn. intros y [Hy| ->%list_elem_of_singleton]%elem_of_app; [by apply w_exec0|]. destruct Hx as [? [? ?] ? _ _]. split_and!; try done; try lia.
    change (cur (exeq_push r x)) with (cur r). lia.
  - cbn. intros y [Hy| ->%list_elem_of_singleton]%elem_of_app; [by apply w_chn0|apply (mq_dummy r x Hx)].
  - rewrite Hq. assumption.
  - rewrite Hq. assumption.
  - cbn. intros y o m [Hy| ->%list_elem_of_singleton]%elem_of_app; [by apply w_stopping0|]. intros Hs _. by apply (mq_stop r x Hx Hs).
Qed.

Lemma ctx_queue r ctx c fn ev : rwf r -> ctx_ok r ctx -> 0 <= uid_index c < Z.of_nat (length (chdq (hs r))) ->
  ((forall f0, fn <> User f0) -> dummyCompletionHandlerUid r = Done c) ->
  (stops (mkExec (mkUniqueId (ctx_objidx ctx) (cur r (ctx_objidx ctx))) c fn ev) = true ->
   forall o m, obj_at r (ctx_objidx ctx) = Some o -> objects r !! o = Some m -> chain m = []) ->
  may_queue r (mkExec (mkUniqueId (ctx_objidx ctx) (cur r (ctx_objidx ctx))) c fn ev).
Proof.
  intros Hw Hc Hi Hd Hs. destruct (alive_slot r ctx Hc) as (os & o & _ & _ & Ho & _ & Hlt). destruct Hc as [Hc1 Hc2].
  constructor; cbn; try done; split; try done; lia.
Qed.

(** [doPost] queues the function. *)
Lemma doPost_spec r ctx fn ev : rwf r -> ctx_ok r ctx ->
  exists c, 0 <= uid_index c < Z.of_nat (length (chdq (hs r))) /\ dummyCompletionHandlerUid r = Done c
    /\ doPost r ctx fn ev = Done (exeq_push r (mkExec (mkUniqueId (ctx_objidx ctx) (cur r (ctx_objidx ctx))) c fn ev)).
Proof.
  intros Hw Hc. destruct (alive_slot r ctx Hc) as (os & o & Hos & _ & _ & Hu & _). destruct (dummy_uid r Hw) as (c & Ec & Hci).
  exists c. split; [done|]. split; [done|]. unfold doPost, objectUid. rewrite Hos. cbn [res_bind]. by rewrite Ec, Hu.
Qed.

Lemma doPost_user r ctx fn ev r' : rwf r -> ctx_ok r ctx -> doPost r ctx (User fn) ev = Done r' -> rwf r' /\ ctx_ok r' ctx.
Proof.
  intros Hw Hc. destruct (doPost_spec r ctx (User fn) ev Hw Hc) as (c & Hci & Hcd & ->). intros [= <-].
  split; [|done]. apply rwf_exeq_push; try done. by apply ctx_queue.
Qed.

Lemma doPost_handler_spec r ctx fn ev a r' : rwf r -> ctx_ok r ctx ->
  doPost_handler r ctx (User fn) ev a = Done r' -> rwf r' /\ ctx_ok r' ctx.
Proof.
  intros Hw Hc. destruct (alive_slot r ctx Hc) as (os & o & Hos & _ & _ & Hu & _).
  unfold doPost_handler, objectUid. rewrite Hos. cbn [res_bind]. rewrite <- Hu.
  intros (h & Hh & (idx & Hidx & (st & Hst & [= <-])%res_bind_done)%res_bind_done)%res_bind_done.
  split; [|done]. apply rwf_exeq_push; try done. apply ctx_queue; try done; cbn; [|intros Hn; by destruct (Hn fn)].
  apply vec_get_done in Hst as [H0 H1]. apply lookup_lt_Some in H1. lia.
Qed.

(** ** Handlers *)

(** [g] has the handlers of [g0], some of them no longer active. *)
Record fewer (g0 g : Handlers.Handlers Fn) : Prop := {
  fw_hwf : hwf g;
  fw_len : length (chdq g) = length (chdq g0);
  fw_stub : forall (c : nat) st, chdq g !! c = Some st -> pch st <> dummyhandler -> chdq g0 !! c = Some st;
  fw_handler : forall a h, handlers g0 !! a = Some h -> exists h', handlers g !! a = Some h' /\ call h' = call h;
  fw_dummy : forall h, handlers g0 !! dummyhandler = Some h -> exists h', handlers g !! dummyhandler = Some h' /\ idxreactor h' = idxreactor h
    /\ forall c : nat, idxreactor h = Some (Z.of_nat c) -> chdq g !! c = chdq g0 !! c
}.

Lemma fewer_refl g : hwf g -> fewer g g.
Proof. intros Hw. constructor; try done; eauto. Qed.

Lemma fewer_trans g1 g2 g3 : fewer g1 g2 -> fewer g2 g3 -> fewer g1 g3.
Proof.
  intros [_ H2 H3 H4 H5] [K1 K2 K3 K4 K5]. constructor; [done|congruence|eauto| |].
  - intros a h Ha. destruct (H4 a h Ha) as (h' & Ha' & E). destruct (K4 a h' Ha') as (h2 & Ha2 & E2). exists h2. split; [done|congruence].
  - intros h Ha. destruct (H5 h Ha) as (h' & Ha' & E & F). destruct (K5 h' Ha') as (h2 & Ha2 & E2 & F2). exists h2.
    split; [done|]. split; [congruence|]. intros c Hc. rewrite F2 by congruence. by apply F.
Qed.

Lemma fewer_dummy_uid r g : rwf r -> fewer (hs r) g -> dummyCompletionHandlerUid (with_hs r g) = dummyCompletionHandlerUid r.
Proof.
  intros Hw Hf. destruct (w_dummy r Hw) as (h & c & Hh & Hc). destruct (fw_dummy _ _ Hf h Hh) as (h' & Hh' & E & F).
  destruct (Handlers.tb_idx _ (Handlers.hw_table _ (w_hs r Hw)) _ _ _ Hh Hc) as (k & st & -> & Hk & _).
  unfold dummyCompletionHandlerUid. cbn. rewrite (Handlers.handler_at_done _ _ _ Hh), (Handlers.handler_at_done _ _ _ Hh'). cbn.
  rewrite E, Hc. cbn. rewrite !(proj2 (vec_get_done _ (Z.of_nat k) st)); rewrite ?Nat2Z.id, ?F; auto with lia.
Qed.

Lemma rwf_fewer r g : rwf r -> fewer (hs r) g -> rwf (with_hs r g).
Proof.
  intros Hw Hf. pose proof (fewer_dummy_uid r g Hw Hf) as Hd. destruct Hw. constructor; try assumption; cbn.
  - apply Hf.
  - destruct w_dummy0 as (h & c & Hh & Hc). destruct (fw_dummy _ _ Hf h Hh) as (h' & Hh' & E & _). exists h', c. by rewrite E.
  - intros x Hx. rewrite (fw_len _ _ Hf). by apply w_exec0.
  - rewrite Hd. assumption.
  - intros c st Hst Hne. apply (w_handlers0 c st); [|done]. by apply (fw_stub _ _ Hf).
  - intros o m a Ho Hoe Ha. destruct (w_chain0 o m a Ho Hoe Ha) as (Hne & h & Hh & Hc). split; [done|].
    destruct (fw_handler _ _ Hf a h Hh) as (h' & Hh' & E). exists h'. by rewrite E.
Qed.

Lemma others_handler g g' a b h : others a g g' -> b <> a -> handlers g !! b = Some h ->
  exists h', handlers g' !! b = Some h' /\ idxreactor h' = idxreactor h /\ call h' = call h.
Proof.
  intros Ho Hb Hh. specialize (Ho b Hb). rewrite Hh in Ho. cbn in Ho.
  destruct (handlers g' !! b) as [h'|]; [|done]. cbn in Ho. injection Ho as E1 E2 _. eauto.
Qed.

Lemma fewer_others g g' a h h' : hwf g' -> chdq g' = chdq g -> others a g g' -> handlers g !! a = Some h ->
  handlers g' !! a = Some h' -> idxreactor h' = idxreactor h -> call h' = call h -> fewer g g'.
Proof.
  intros Hw Hc Ho Ha Ha' Ei Ec. constructor; [done|by rewrite Hc|by rewrite Hc| |].
  - intros b hb Hb. destruct (decide (b = a)) as [->|Hne].
    + exists h'. split; [done|congruence].
    + destruct (others_handler _ _ _ _ _ Ho Hne Hb) as (hb' & ? & _ & ?). eauto.
  - intros hb Hb. rewrite Hc. destruct (decide (dummyhandler = a)) as [<-|Hne].
    + exists h'. split; [done|]. split; [congruence|done].
    + destruct (others_handler _ _ _ _ _ Ho Hne Hb) as (hb' & ? & ? & _). eauto.
Qed.

Lemma cancel_fewer g a h g' : hwf g -> handlers g !! a = Some h -> Handlers.cancel g a = Done g' -> fewer g g'.
Proof.
  intros Hw Ha. unfold Handlers.cancel. destruct (Handlers.doClear_spec g a h Hw Ha) as (g1 & -> & Hw1 & Ha1 & Hc1 & Ho1 & _).
  intros [= <-]. by eapply fewer_others.
Qed.

Lemma waitUntil_fewer g a h t fn g' b : hwf g -> handlers g !! a = Some h -> call h <> Handlers.dummy_completion ->
  Handlers.waitUntil g a t fn = Done (g', b) -> fewer g g'.
Proof.
  intros Hw Ha Hcall E. destruct (idxreactor h) as [c|] eqn:Ei.
  - assert (call h = Handlers.Timer_on_completion) as Hc.
    { destruct (Handlers.tb_idx _ (Handlers.hw_table g Hw) a h c Ha Ei) as (_ & _ & _ & _ & _ & Hni). by destruct (call h). }
    destruct (Handlers.waitUntil_spec g a h c t fn Hw Ha Hc Ei) as (g1 & E1 & Hw1 & Hc1 & Ho1 & H). rewrite E in E1. injection E1 as <- _.
    destruct (decide (is_Some (Handlers.f h))) as [_|_].
    { subst g'. constructor; try done; eauto. }
    destruct H as (_ & _ & h' & Ha' & Hwt & _). eapply (fewer_others g g' a h h'); try done.
    + intros b0 Hb0. by rewrite Ho1.
    + rewrite Ei. by destruct Hwt.
    + rewrite Hc. by destruct Hwt.
  - revert E. unfold Handlers.waitUntil. rewrite (Handlers.handler_at_done _ _ _ Ha). cbn [res_bind].
    destruct (Handlers.f h) as [x|] eqn:Ef; [intros [= <- <-]; by apply fewer_refl|].
    pose proof (Handlers.idle_storeidx g a h Hw Ha ltac:(by left)) as Es.
    rewrite (Handlers.upd_handler_done g a h _ Ha). cbn [res_bind]. unfold Handlers.addTimer.
    rewrite (Handlers.handler_at_done _ a (Handlers.set_f (Some (Handlers.TimerUser fn)) h)) by (cbn; by rewrite lookup_insert_eq).
    cbn [res_bind Handlers.storeidx Handlers.set_f idxreactor]. by rewrite Es, Ei.
Qed.

Lemma deactivate_fewer g a h : hwf g -> handlers g !! a = Some h -> a <> dummyhandler ->
  exists g', Handlers.deactivate g a = Done g' /\ fewer g g'
    /\ (exists h', handlers g' !! a = Some h' /\ idxreactor h' = None)
    /\ (forall b hb, handlers g !! b = Some hb -> idxreactor hb = None -> exists hb', handlers g' !! b = Some hb' /\ idxreactor hb' = None).
Proof.
  intros Hw Ha Hne. destruct (idxreactor h) as [c|] eqn:Ei.
  - destruct (Handlers.tb_idx _ (Handlers.hw_table g Hw) a h c Ha Ei) as (k & st & -> & Hk & Hp & Hni).
    destruct (Handlers.deactivate_spec g a h k Hw Ha Ei) as (g' & st' & E & Hw' & Hst' & Hc' & (h' & Ha' & Hi' & Hcall) & Ho & _).
    exists g'. split; [done|]. split; [|split; [eauto|]].
    + constructor; [done|by rewrite Hc', length_insert| | |].
      * intros j x. rewrite Hc'. intros [(<- & <- & _)|[_ Hx]]%list_lookup_insert_Some; done.
      * intros b hb Hb. destruct (decide (b = a)) as [->|Hba]; [exists h'; split; congruence|].
        destruct (others_handler _ _ _ _ _ Ho Hba Hb) as (hb' & ? & _ & ?). eauto.
      * intros hb Hb. destruct (others_handler _ _ _ _ _ Ho (not_eq_sym Hne) Hb) as (hb' & ? & ? & _). exists hb'.
        split; [done|]. split; [done|]. intros j Hj. rewrite Hc', list_lookup_insert_ne; [done|]. intros <-.
        destruct (Handlers.tb_idx _ (Handlers.hw_table g Hw) _ _ _ Hb Hj) as (j' & st2 & Ej & Hst2 & Hp2 & _).
        apply Nat2Z.inj in Ej. subst j'. congruence.
    + intros b hb Hb Hbi. destruct (decide (b = a)) as [->|Hba]; [eauto|].
      destruct (others_handler _ _ _ _ _ Ho Hba Hb) as (hb' & ? & E2 & _). exists hb'. split; [done|congruence].
  - exists g. split.
    + unfold Handlers.deactivate. rewrite (Handlers.handler_at_done _ _ _ Ha). cbn [res_bind]. unfold Handlers.isActive.
      by rewrite Ei, bool_decide_false by (by intros []).
    + split; [by apply fewer_refl|]. split; eauto.
Qed.

Lemma deactivate_all_spec (ch : list Addr) g : hwf g -> (forall a, a ∈ ch -> a <> dummyhandler /\ is_Some (handlers g !! a)) ->
  exists g', deactivate_all g ch = Done g' /\ fewer g g'
    /\ (forall a, a ∈ ch -> exists h, handlers g' !! a = Some h /\ idxreactor h = None)
    /\ (forall b hb, handlers g !! b = Some hb -> idxreactor hb = None -> exists hb', handlers g' !! b = Some hb' /\ idxreactor hb' = None).
Proof.
  revert g. induction ch as [|a ch IH]; intros g Hw Hch.
  { exists g. split_and!; [done|by apply fewer_refl|by intros a ?%not_elem_of_nil|eauto]. }
  destruct (Hch a) as [Hne [h Ha]]; [left|].
  destruct (deactivate_fewer g a h Hw Ha Hne) as (g1 & E1 & Hf1 & (h1 & Ha1 & Hi1) & Hk1).
  destruct (IH g1) as (g2 & E2 & Hf2 & Ha2 & Hk2).
  { apply Hf1. }
  { intros b Hb. destruct (Hch b) as [Hbne [hb Hhb]]; [by right|]. split; [done|].
    destruct (fw_handler _ _ Hf1 b hb Hhb) as (hb' & ? & _). eauto. }
  exists g2. cbn [deactivate_all]. rewrite E1. cbn [res_bind]. split_and!; [done|by eapply fewer_trans| |].
  - intros b [->|Hb]%elem_of_cons; [by apply (Hk2 a h1)|by apply Ha2].
  - intros b hb Hb Hbi. destruct (Hk1 b hb Hb Hbi) as (hb' & Hb' & Hbi'). by apply (Hk2 b hb').
Qed.

(** ** Stopping an object *)

(** The object [o] is left without handlers. *)
Lemma rwf_clear_chain r o m : rwf r -> objects r !! o = Some m -> o <> eventobj ->
  (forall (c : nat) st, chdq (hs r) !! c = Some st -> pch st <> dummyhandler -> pch st ∉ chain m) ->
  rwf (with_objects r (<[o := mkObject (runId m) []]> (objects r))).
Proof.
  intros Hw Ho Hoe Hst. destruct Hw.
  assert (forall o' m', objects r !! o' = Some m' -> exists m2, <[o := mkObject (runId m) []]> (objects r) !! o' = Some m2 /\ runId m2 = runId m') as Hrun.
  { intros o' m' Ho'. destruct (decide (o = o')) as [<-|]; [rewrite lookup_insert_eq|rewrite lookup_insert_ne by done]; [|by exists m'].
    eexists. split; [done|]. cbn. congruence. }
  constructor; try assumption; cbn.
  - by rewrite lookup_insert_ne by done.
  - intros i os o' H1 H2 H3. destruct (w_live0 i os o' H1 H2 H3) as (? & ? & m' & Hm' & E). split_and!; try done.
    destruct (Hrun _ _ Hm') as (m2 & ? & ?). exists m2. split; [done|congruence].
  - intros x Hx. destruct (w_pend0 x Hx) as (? & m' & Hm' & E). split; [done|].
    destruct (Hrun _ _ Hm') as (m2 & ? & ?). exists m2. split; [done|congruence].
  - intros c st Hc Hne. destruct (w_handlers0 c st Hc Hne) as (Hpos & o' & m' & ? & Hm' & Hin). split; [done|].
    exists o', m'. split_and!; try done. rewrite lookup_insert_ne; [done|]. intros <-. assert (m' = m) as -> by congruence. by apply (Hst c st).
  - intros o' m' a. destruct (decide (o = o')) as [<-|]; [rewrite lookup_insert_eq|rewrite lookup_insert_ne by done; apply w_chain0].
    intros [= <-] _ ?%not_elem_of_nil. done.
  - intros x o' m' Hx Hs Hu Hoa. destruct (decide (o = o')) as [<-|]; [rewrite lookup_insert_eq|rewrite lookup_insert_ne by done; by apply (w_stopping0 x)].
    by intros [= <-].
Qed.

(** What [doPrepareStop] leaves when the manager agrees. *)
Lemma doPrepareStop_spec r ctx o r' ok : rwf r -> ctx_ok r ctx -> object r ctx = Done o ->
  doPrepareStop r o = Done (r', ok) ->
  rwf r' /\ ctx_ok r' ctx /\ (ok = true -> forall o' m, obj_at r' (ctx_objidx ctx) = Some o' -> objects r' !! o' = Some m -> chain m = []).
Proof.
  intros Hw Hc Ho. destruct (alive_slot r ctx Hc) as (os & o1 & Hos & Hp & Hoa & _).
  unfold object in Ho. rewrite Hos in Ho. cbn [res_bind] in Ho. rewrite Hp in Ho. injection Ho as ->.
  apply vec_get_done in Hos as [_ Hslot]. pose proof Hc as [Hpos _].
  destruct (w_live r Hw _ os o Hslot ltac:(lia) Hp) as (_ & Hoe & m & Hm & _).
  unfold doPrepareStop. destruct (disableVisits (world r) o) as [w []].
  2: { intros [= <- <-]. split_and!; [|done|done]. destruct Hw. by constructor. }
  assert (rwf (with_world r w)) as Hw1 by (destruct Hw; by constructor).
  cbn [objects with_world]. rewrite Hm. cbn [of_option res_bind].
  destruct (deactivate_all_spec (chain m) (hs r)) as (g & E & Hf & Hg & _).
  { apply Hw. }
  { intros a Ha. destruct (w_chain r Hw o m a Hm Hoe Ha) as (? & h & Hh & _). eauto. }
  cbn [hs with_world]. rewrite E. cbn [res_bind]. intros [= <- <-].
  assert (rwf (with_hs (with_world r w) g)) as Hw2 by (by apply rwf_fewer).
  split_and!; [|done|].
  - apply (rwf_clear_chain _ o m Hw2 Hm Hoe). intros c st Hst Hne Hin. destruct (Hg _ Hin) as (h & Hh & Hi).
    destruct (Handlers.tb_stub _ (Handlers.hw_table _ (fw_hwf _ _ Hf)) c st Hst Hne) as (h2 & Hh2 & Hi2). congruence.
  - intros _ o' m' Ho' Hm'. change (obj_at r (ctx_objidx ctx) = Some o') in Ho'.
    assert (o' = o) as -> by congruence.
    cbn in Hm'. rewrite lookup_insert_eq in Hm'. by injection Hm' as <-.
Qed.

Lemma postStop_any r ctx o r1 r' fn ev ok : rwf r -> ctx_ok r ctx -> object r ctx = Done o ->
  doPrepareStop r o = Done (r1, ok) -> stops (mkExec (mkUniqueId 0 0) (mkUniqueId 0 0) fn ev) = true ->
  (if ok then doPost r1 ctx fn ev else Done r1) = Done r' -> rwf r' /\ ctx_ok r' ctx.
Proof.
  intros Hw Hc Ho E Hs. destruct (doPrepareStop_spec r ctx o r1 ok Hw Hc Ho E) as (Hw1 & Hc1 & Hch).
  destruct ok; [|by intros [= <-]]. destruct (doPost_spec r1 ctx fn ev Hw1 Hc1) as (c & Hci & Hcd & ->). intros [= <-].
  split; [|done]. apply rwf_exeq_push; try done; [|by destruct fn]. apply ctx_queue; try done. intros _. by apply Hch.
Qed.

Lemma postStop_spec r ctx r' : rwf r -> ctx_ok r ctx -> postStop r ctx = Done r' -> rwf r' /\ ctx_ok r' ctx.
Proof.
  intros Hw Hc. unfold postStop, postObjectStop. intros (o & Ho & ([r1 ok] & E & H)%res_bind_done)%res_bind_done.
  by apply (postStop_any r ctx o r1 r' stop_object_repost no_event ok).
Qed.

Lemma postStop_with_spec r ctx fn ev r' : rwf r -> ctx_ok r ctx -> postStop_with r ctx fn ev = Done r' -> rwf r' /\ ctx_ok r' ctx.
Proof.
  intros Hw Hc. unfold postStop_with, postObjectStop_with. intros (o & Ho & ([r1 ok] & E & H)%res_bind_done)%res_bind_done.
  by apply (postStop_any r ctx o r1 r' (StopObjectF fn true) ev ok).
Qed.

(** ** New handlers and objects *)

(** A live object has one slot. *)
Lemma one_slot r (i j : Z) o : rwf r -> 0 < i -> 0 < j -> obj_at r i = Some o -> obj_at r j = Some o -> i = j /\ cur r i = cur r j.
Proof.
  intros Hw Hi Hj Ho1 Ho2. destruct (obj_at_slot r i o Ho1) as (os1 & H1 & P1 & C1). destruct (obj_at_slot r j o Ho2) as (os2 & H2 & P2 & C2).
  destruct (w_live r Hw _ os1 o H1 ltac:(lia) P1) as (_ & _ & m1 & M1 & R1). destruct (w_live r Hw _ os2 o H2 ltac:(lia) P2) as (_ & _ & m2 & M2 & R2).
  assert (m2 = m1) as -> by congruence. rewrite R1 in R2. injection R2 as E1 E2. split; [lia|congruence].
Qed.

Lemma rwf_new_handler r o m a : rwf r -> objects r !! o = Some m -> handlers (hs r) !! a = None ->
  (forall x, x ∈ exeq r -> stops x = true -> alive r (objuid x) -> obj_at r (uid_index (objuid x)) <> Some o) ->
  rwf (with_hs (with_objects r (<[o := mkObject (runId m) (a :: chain m)]> (objects r)))
         (Handlers.with_handlers (hs r) (<[a := Handlers.Timer_new]> (handlers (hs r))))).
Proof.
  intros Hw Ho Ha Hns. pose proof (Handlers.hwf_new_timer (hs r) a (w_hs r Hw) Ha) as Hg.
  assert (a <> dummyhandler) as Had by (destruct (w_dummy r Hw) as (h & c & Hh & _); congruence).
  assert (dummyCompletionHandlerUid (with_hs r (Handlers.with_handlers (hs r) (<[a := Handlers.Timer_new]> (handlers (hs r)))))
    = dummyCompletionHandlerUid r) as Hd.
  { unfold dummyCompletionHandlerUid, Handlers.handler_at. cbn. by rewrite lookup_insert_ne by done. }
  destruct Hw.
  assert (forall o' m', objects r !! o' = Some m' -> exists m2, <[o := mkObject (runId m) (a :: chain m)]> (objects r) !! o' = Some m2
    /\ runId m2 = runId m' /\ chain m' ⊆ chain m2) as Hrun.
  { intros o' m' Ho'. destruct (decide (o = o')) as [<-|]; [rewrite lookup_insert_eq|rewrite lookup_insert_ne by done]; [|by exists m'].
    assert (m' = m) as -> by congruence. eexists. split; [done|]. cbn. split; [done|]. by intros b Hb; right. }
  constructor; try assumption; cbn.
  - destruct w_event0 as (m' & Hm' & ?). destruct (Hrun _ _ Hm') as (m2 & ? & E & _). exists m2. by rewrite E.
  - destruct w_dummy0 as (h & c & Hh & Hc). exists h, c. rewrite lookup_insert_ne; [done|congruence].
  - intros i os o' H1 H2 H3. destruct (w_live0 i os o' H1 H2 H3) as (? & ? & m' & Hm' & E). split_and!; try done.
    destruct (Hrun _ _ Hm') as (m2 & ? & ? & _). exists m2. split; [done|congruence].
  - intros x Hx. destruct (w_pend0 x Hx) as (? & m' & Hm' & E). split; [done|].
    destruct (Hrun _ _ Hm') as (m2 & ? & ? & _). exists m2. split; [done|congruence].
  - intros x Hx Hf. rewrite <- (w_chn0 x Hx Hf). exact Hd.
  - intros c st Hc Hne. destruct (w_handlers0 c st Hc Hne) as (Hpos & o' & m' & ? & Hm' & Hin). split; [done|].
    destruct (Hrun _ _ Hm') as (m2 & ? & ? & Hsub). exists o', m2. split_and!; try done. by apply Hsub.
  - intros o' m' b Ho' Hoe Hb. destruct (decide (a = b)) as [<-|Hab].
    { split; [done|]. rewrite lookup_insert_eq. by eexists. }
    assert (exists m1, objects r !! o' = Some m1 /\ b ∈ chain m1) as (m1 & Hm1 & Hb1).
    { destruct (decide (o = o')) as [<-|]; [|rewrite lookup_insert_ne in Ho' by done; by exists m'].
      rewrite lookup_insert_eq in Ho'. injection Ho' as <-. exists m. split; [done|]. by apply elem_of_cons in Hb as [->|Hb]. }
    destruct (w_chain0 o' m1 b Hm1 Hoe Hb1) as (? & h & Hh & Hc). split; [done|]. exists h. by rewrite lookup_insert_ne by done.
  - intros x o' m' Hx Hs Hu Hoa Ho'. destruct (decide (o = o')) as [<-|Hoo].
    + exfalso. apply (Hns x Hx Hs); [|done]. split; [by eexists|done].
    + rewrite lookup_insert_ne in Ho' by done. by apply (w_stopping0 x o' m').
Qed.

Lemma rwf_register r o m a h (i : Z) : rwf r -> handlers (hs r) !! a = Some h -> idxreactor h = None -> a <> dummyhandler ->
  0 < i -> obj_at r i = Some o -> objects r !! o = Some m -> a ∈ chain m ->
  exists g, Handlers.registerCompletionHandler (hs r) a i = Done g /\ rwf (with_hs r g)
    /\ (forall b, is_Some (handlers (hs r) !! b) -> is_Some (handlers g !! b)).
Proof.
  intros Hw Ha Hi Had Hpos Ho Hm Hch. eexists. split; [by apply Handlers.register_spec; [apply Hw| |]|].
  pose proof (Handlers.hwf_register (hs r) a h i (w_hs r Hw) Ha Hi) as Hg. split.
  2: { intros b Hb. cbn. apply lookup_insert_is_Some'. by right. }
  assert (forall x, dummyCompletionHandlerUid r = Done x -> dummyCompletionHandlerUid (with_hs r (Handlers.with_handlers (Handlers.with_chdq (hs r)
    (chdq (hs r) ++ [Handlers.mkChStub a i 0])) (<[a := Handlers.registered h (Z.of_nat (length (chdq (hs r))))]> (handlers (hs r))))) = Done x) as Hd.
  { intros x. unfold dummyCompletionHandlerUid, Handlers.handler_at. cbn. rewrite lookup_insert_ne by done.
    intros (hd & E1 & (ix & E2 & (st & [E3 E4]%vec_get_done & E5)%res_bind_done)%res_bind_done)%res_bind_done. rewrite E1. cbn. rewrite E2. cbn.
    rewrite (proj2 (vec_get_done _ ix st)); [done|]. split; [done|]. by apply lookup_app_l_Some. }
  destruct Hw. constructor; try assumption; cbn.
  - destruct w_dummy0 as (hd & c & Hh & Hc). exists hd, c. by rewrite lookup_insert_ne.
  - intros x Hx. destruct (w_exec0 x Hx) as (? & ? & ? & ?). rewrite length_app. cbn. split_and!; try done; lia.
  - intros x Hx Hf. by apply Hd, w_chn0.
  - intros c st [[_ Hst]|[_ <-]]%lookup_snoc_Some Hne; [by apply (w_handlers0 c st)|]. cbn. split; [done|]. by exists o, m.
  - intros o' m' b Ho' Hoe Hb. destruct (w_chain0 o' m' b Ho' Hoe Hb) as (? & hb & Hhb & Hcb). split; [done|].
    destruct (decide (a = b)) as [<-|]; [|exists hb; by rewrite lookup_insert_ne by done].
    eexists. rewrite lookup_insert_eq. split; [done|]. assert (hb = h) as -> by congruence. cbn. by case_decide.
Qed.

Lemma new_timer_spec r ctx o u a r' : rwf r -> ctx_ok r ctx -> handlers (hs r) !! a = None -> object r ctx = Done o ->
  objectUid r ctx = Done u -> ~ stopping r u -> new_timer r o a = Done r' -> rwf r' /\ ctx_ok r' ctx.
Proof.
  intros Hw Hc Ha Ho Hu Hns E. destruct (alive_slot r ctx Hc) as (os & o1 & Hos & Hp & Hoa & Hcur & _).
  unfold object in Ho. unfold objectUid in Hu. rewrite Hos in Ho, Hu. cbn [res_bind] in Ho, Hu. rewrite Hp in Ho. injection Ho as ->. injection Hu as <-.
  apply vec_get_done in Hos as [_ Hslot]. pose proof Hc as [Hpos _].
  destruct (w_live r Hw _ os o Hslot ltac:(lia) Hp) as (_ & Hoe & m & Hm & Hrun). rewrite Z2Nat.id in Hrun by lia.
  assert (rwf (with_hs (with_objects r (<[o := mkObject (runId m) (a :: chain m)]> (objects r)))
    (Handlers.with_handlers (hs r) (<[a := Handlers.Timer_new]> (handlers (hs r)))))) as Hw1.
  { apply rwf_new_handler; try done. intros x Hx Hs [Hal1 Hal2] Hxo. apply Hns. exists x. split_and!; try done.
    destruct (w_exec r Hw x Hx) as ([Hx0 _] & _). destruct (one_slot r _ _ o Hw Hx0 Hpos Hxo Hoa) as [E1 E2].
    destruct (objuid x) as [xi xu]. cbn in *. congruence. }
  revert E. unfold new_timer. rewrite Hm. cbn [of_option res_bind]. rewrite Hrun in Hw1 |- *. cbn [hs with_objects uid_index].
  unfold Handlers.activate. rewrite (Handlers.handler_at_done _ a Handlers.Timer_new) by (cbn; by rewrite lookup_insert_eq).
  cbn [res_bind]. unfold Handlers.isActive. cbn [Handlers.idxreactor Handlers.Timer_new]. rewrite bool_decide_false by (by intros []). cbn [negb].
  destruct (rwf_register _ o (mkObject (Some (mkUniqueId (ctx_objidx ctx) (os_unique os))) (a :: chain m)) a Handlers.Timer_new
    (ctx_objidx ctx) Hw1) as (g & Eg & Hwg & _); try done; cbn; rewrite ?lookup_insert_eq; try done.
  - intros ->. destruct (w_dummy r Hw) as (h & c & Hh & _). congruence.
  - left.
  - cbn in Eg. rewrite Eg. cbn [res_bind]. intros [= <-].
    split; [exact Hwg|exact Hc].
Qed.

Lemma rwf_object r o : rwf r -> objects r !! o = None -> rwf (with_objects r (<[o := mkObject None []]> (objects r))).
Proof.
  intros Hw Ho.
  assert (forall o' m', objects r !! o' = Some m' -> <[o := mkObject None []]> (objects r) !! o' = Some m') as Hk.
  { intros o' m' Ho'. rewrite lookup_insert_ne; [done|congruence]. }
  destruct Hw. constructor; try assumption; cbn.
  - destruct w_event0 as (m & Hm & ?). eauto.
  - intros i os o' H1 H2 H3. destruct (w_live0 i os o' H1 H2 H3) as (? & ? & m' & Hm' & E). eauto 6.
  - intros x Hx. destruct (w_pend0 x Hx) as (? & m' & Hm' & E). eauto.
  - intros c st Hc Hne. destruct (w_handlers0 c st Hc Hne) as (Hpos & o' & m' & ? & Hm' & Hin). eauto 7.
  - intros o' m' a. destruct (decide (o = o')) as [<-|]; [rewrite lookup_insert_eq|rewrite lookup_insert_ne by done; apply w_chain0].
    intros [= <-] _ ?%not_elem_of_nil. done.
  - intros x o' m' Hx Hs Hu Hoa. destruct (decide (o = o')) as [<-|]; [rewrite lookup_insert_eq|rewrite lookup_insert_ne by done; by apply (w_stopping0 x)].
    by intros [= <-].
Qed.

Lemma new_timer_idle r o m a r' : rwf r -> handlers (hs r) !! a = None -> objects r !! o = Some m -> runId m = None ->
  new_timer r o a = Done r' -> rwf r' /\ objdq r' = objdq r.
Proof.
  intros Hw Ha Hm Hrun. unfold new_timer. rewrite Hm. cbn [of_option res_bind]. rewrite Hrun. intros [= <-]. split; [|done].
  pose proof (rwf_new_handler r o m a Hw Hm Ha) as H. rewrite Hrun in H. apply H. intros x Hx _ _ Hxo.
  destruct (w_exec r Hw x Hx) as ([Hx0 _] & _). destruct (obj_at_slot r _ o Hxo) as (os & Hos & Hp & _).
  destruct (w_live r Hw _ os o Hos ltac:(lia) Hp) as (_ & _ & m' & Hm' & E). congruence.
Qed.

(** ** Events and objects from other threads *)

Lemma two_vecs_set {A} (vs : list (list A)) crt pcrt v : two_vecs vs crt pcrt ->
  exists vs', vec_get vs crt = Done (new_vec vs crt) /\ vec_set vs crt v = Done vs' /\ two_vecs vs' crt pcrt
    /\ new_vec vs' crt = v /\ new_vec vs' pcrt = new_vec vs pcrt.
Proof.
  intros (Hl & Hc & ->). destruct vs as [|x [|y [|]]]; try done.
  destruct Hc as [->| ->]; eexists; split_and!; try reflexivity; split_and!; auto.
Qed.

Lemma two_vecs_clear {A} (vs : list (list A)) crt pcrt v : two_vecs vs crt pcrt ->
  exists vs', vec_get vs pcrt = Done (new_vec vs pcrt) /\ vec_set vs pcrt v = Done vs' /\ two_vecs vs' crt pcrt
    /\ new_vec vs' pcrt = v /\ new_vec vs' crt = new_vec vs crt.
Proof.
  intros (Hl & Hc & ->). destruct vs as [|x [|y [|]]]; try done.
  destruct Hc as [->| ->]; eexists; split_and!; try reflexivity; split_and!; auto.
Qed.

Lemma to_other u u' ev : u <> u' -> to u [(u', ev)] = [].
Proof. intros Hu. unfold to. rewrite filter_cons, decide_False by (cbn; congruence). done. Qed.

Lemma to_same u ev : to u [(u, ev)] = [ev].
Proof. unfold to. rewrite filter_cons, decide_True by done. done. Qed.

Lemma to_nil u l : (forall ev, (u, ev) ∉ l) -> to u l = [].
Proof.
  intros H. induction l as [|[u' ev] l IH]; [done|]. change ((u', ev) :: l) with ([(u', ev)] ++ l). rewrite to_app, IH.
  - rewrite app_nil_r. apply to_other. intros <-. apply (H ev). left.
  - intros ev' Hin. apply (H ev'). by right.
Qed.

(** [raise] puts the event at the end of what is queued. *)
Lemma raise_spec r u ev : rwf r -> issued r u ->
  exists r', raise r u ev = Done r' /\ rwf r' /\ objdq r' = objdq r /\ queued r' = queued r ++ [(u, ev)]
    /\ raised r' = raised r ++ [(u, ev)] /\ delivered r' = delivered r.
Proof.
  intros Hw Hu. destruct (w_raise r Hw) as [Htv Hsz].
  destruct (two_vecs_set _ _ _ (raise_new r ++ [mkRaise u ev]) Htv) as (vs & E1 & E2 & Htv' & En & Eo).
  unfold raise. rewrite E1. cbn [res_bind]. unfold raise_new in E2. rewrite E2. cbn [res_bind].
  eexists; split; [reflexivity|]. set (r' := with_inbox _ _).
  assert (queued r' = queued r ++ [(u, ev)]) as Hq.
  { unfold queued, raise_old, raise_new, push_old, push_new. cbn. rewrite En, Eo. unfold raise_events at 2. rewrite map_app. cbn. by rewrite !app_assoc. }
  split; [|done]. destruct Hw. constructor; try assumption.
  - split; [done|]. unfold raise_new, r'. cbn. by rewrite En.
  - intros x. unfold raise_old, r'. cbn. rewrite Eo. apply w_raised0.
  - cbn. intros u' ev' [?|[= -> ->]%list_elem_of_singleton]%elem_of_app; [by apply (w_history0 u' ev')|done].
  - rewrite Hq. cbn. intros u' ev' [?|?]%elem_of_app; apply elem_of_app; [left; by apply w_queued0|by right].
  - rewrite Hq. change (raised r') with (raised r ++ [(u, ev)]). change (delivered r') with (delivered r).
    intros u' Hu'. rewrite !to_app, app_assoc, <- w_fifo0; done.
  - intros u'. change (raised r') with (raised r ++ [(u, ev)]). rewrite to_app. by apply prefix_app_r.
Qed.

(** An id that is free was not used. *)
Lemma fresh_history r u : rwf r -> (u ∈ free r \/ u = mkUniqueId (crtidx (inbox r)) 0) ->
  ~ issued r u /\ to u (raised r) = [] /\ to u (queued r) = [] /\ to u (delivered r) = [].
Proof.
  intros Hw Hu. assert (~ issued r u) as Hni.
  { intros (Hi & _ & Ha). destruct Hu as [Hu| ->]; [|cbn in Hi; lia].
    destruct (w_ids r Hw u) as (_ & Hc & Ho); [apply elem_of_app; by right|]. destruct (Ha Hc) as [[? ?]|Hp]; [congruence|].
    pose proof (w_nodup r Hw) as Hnd. rewrite map_app in Hnd. apply NoDup_app in Hnd as (_ & Hd & _).
    apply (Hd (uid_index u)); apply list_elem_of_fmap; eauto. }
  assert (to u (raised r) = []) as Hr by (apply to_nil; intros ev Hin; by apply Hni, (w_history r Hw u ev)).
  split_and!; try done.
  - apply to_nil. intros ev Hin. apply Hni. apply (w_history r Hw u ev). by apply (w_queued r Hw).
  - pose proof (w_prefix r Hw u) as Hp. rewrite Hr in Hp. by apply prefix_nil_inv in Hp.
Qed.

(** [popUid] gives a free id. *)
Lemma popUid_spec r o m : rwf r -> objects r !! o = Some m ->
  exists r' u, popUid r o = Done (r', u) /\ (u ∈ free r \/ u = mkUniqueId (crtidx (inbox r)) 0)
    /\ r' = with_objects (with_inbox r (with_uids (inbox r) (crtidx (inbox r')) (uidstk (inbox r')))) (<[o := mkObject (Some u) (chain m)]> (objects r))
    /\ crtidx (inbox r) <= crtidx (inbox r') /\ 0 < uid_index u < crtidx (inbox r')
    /\ uid_unique u = cur r (uid_index u) /\ obj_at r (uid_index u) = None
    /\ NoDup (map uid_index (pending r ++ u :: uidstk (inbox r') ++ freeuidvec r))
    /\ (forall x, x ∈ uidstk (inbox r') -> x ∈ uidstk (inbox r)).
Proof.
  intros Hw Hm. unfold popUid. pose proof (w_len r Hw) as Hlen. pose proof (w_nodup r Hw) as Hnd. unfold free in Hnd.
  destruct (uidstk (inbox r)) as [|u st] eqn:Es; rewrite Hm; cbn [of_option res_bind].
  - eexists _, _. split; [reflexivity|]. assert (length (objdq r) <= Z.to_nat (crtidx (inbox r)))%nat as Hge by lia.
    split_and!; cbn; try lia; try done; [by right|..].
    + unfold cur. by rewrite lookup_ge_None_2.
    + unfold obj_at. by rewrite lookup_ge_None_2.
    + rewrite map_app in Hnd |- *. cbn. rewrite <- Permutation_middle. constructor; [|done]. intros Hin.
      rewrite <- map_app in Hin. apply list_elem_of_fmap in Hin as (x & Ex & Hx).
      destruct (w_ids r Hw x) as (Hxi & _); [|lia]. unfold free. by rewrite Es.
  - eexists _, _. split; [reflexivity|]. destruct (w_ids r Hw u) as (Hi & Hc & Ho).
    { apply elem_of_app. right. unfold free. rewrite Es. left. }
    split_and!; cbn; try lia; try done; [|by intros x ?; right]. left. unfold free. rewrite Es. left.
Qed.

(** An object that is not in gets its id. *)
Lemma rwf_run_id r o m u : rwf r -> objects r !! o = Some m -> runId m = None ->
  rwf (with_objects r (<[o := mkObject (Some u) (chain m)]> (objects r))) /\ o <> eventobj.
Proof.
  intros Hw Hm Hrun.
  assert (forall o' m', objects r !! o' = Some m' -> runId m' <> None -> <[o := mkObject (Some u) (chain m)]> (objects r) !! o' = Some m') as Hk.
  { intros o' m' Ho' Hr. rewrite lookup_insert_ne; [done|]. congruence. }
  destruct Hw. split; [|intros ->; destruct w_event0 as (m' & Hm' & [? ?]); congruence]. constructor; try assumption; cbn.
  - destruct w_event0 as (m' & Hm' & [x Hx]). exists m'. split; [|by exists x]. apply Hk; [done|congruence].
  - intros i os o' H1 H2 H3. destruct (w_live0 i os o' H1 H2 H3) as (? & ? & m' & Hm' & Em). split_and!; try done.
    exists m'. split; [|done]. apply Hk; [done|congruence].
  - intros x Hx. destruct (w_pend0 x Hx) as (? & m' & Hm' & Em). split; [done|]. exists m'. split; [|done]. apply Hk; [done|congruence].
  - intros c st Hc Hne. destruct (w_handlers0 c st Hc Hne) as (Hpos & o' & m' & Hoa & Hm' & Hin). split; [done|].
    exists o', m'. split_and!; try done. apply Hk; [done|]. destruct (obj_at_slot r _ o' Hoa) as (os & Hos & Hp & _).
    destruct (w_live0 _ os o' Hos ltac:(lia) Hp) as (_ & _ & m2 & Hm2 & Em). congruence.
  - intros o' m' a. destruct (decide (o = o')) as [<-|]; [rewrite lookup_insert_eq; intros [= <-]; by apply (w_chain0 o m)|].
    rewrite lookup_insert_ne by done. apply w_chain0.
  - intros x o' m' Hx Hs Hu Hoa. destruct (decide (o = o')) as [<-|]; [rewrite lookup_insert_eq|rewrite lookup_insert_ne by done; by apply (w_stopping0 x)].
    intros [= <-]. by apply (w_stopping0 x o m).
Qed.

Lemma to_middle u u' ev l l' : to u' (l ++ (u, ev) :: l') = to u' l ++ (if decide (u' = u) then [ev] else []) ++ to u' l'.
Proof.
  change ((u, ev) :: l') with ([(u, ev)] ++ l'). rewrite !to_app. case_decide as H.
  - by rewrite H, to_same.
  - by rewrite to_other.
Qed.

(** What [push] changes, when the id [u] is free: the stack of ids, the new objects, and the
    history. *)
Definition pushed r u x c1 s1 vs : reactor :=
  with_inbox (with_history r (raised r ++ [(u, nt_event x)]) (delivered r))
    (with_push (with_uids (inbox r) c1 s1) vs (Z.of_nat (length (push_new r ++ [x])))).

Lemma pushed_queued r u x c1 s1 vs : nt_uid x = u -> two_vecs (pushtskvec (inbox r)) (crtpushtskvecidx (inbox r)) (pcrtpushtskvec r) ->
  new_vec vs (crtpushtskvecidx (inbox r)) = push_new r ++ [x] -> new_vec vs (pcrtpushtskvec r) = push_old r ->
  exists l l', queued r = l ++ l' /\ queued (pushed r u x c1 s1 vs) = l ++ (u, nt_event x) :: l'.
Proof.
  intros Hx Htv En Eo. exists (exec_events (exeq r) ++ push_events (push_old r) ++ raise_events (raise_old r) ++ push_events (push_new r)), (raise_events (raise_new r)).
  split; [unfold queued; by rewrite <- !app_assoc|]. unfold queued. change (push_new (pushed r u x c1 s1 vs)) with (new_vec vs (crtpushtskvecidx (inbox r))).
  change (push_old (pushed r u x c1 s1 vs)) with (new_vec vs (pcrtpushtskvec r)). rewrite En, Eo. unfold push_events at 2. rewrite map_app. cbn [map].
  rewrite Hx. rewrite <- !app_assoc. done.
Qed.

Lemma rwf_pushed r o m x c1 s1 vs : rwf r -> objects r !! o = Some m -> runId m = Some (nt_uid x) -> nt_objptr x = o -> o <> eventobj ->
  two_vecs vs (crtpushtskvecidx (inbox r)) (pcrtpushtskvec r) ->
  new_vec vs (crtpushtskvecidx (inbox r)) = push_new r ++ [x] -> new_vec vs (pcrtpushtskvec r) = push_old r ->
  (nt_uid x ∈ free r \/ nt_uid x = mkUniqueId (crtidx (inbox r)) 0) -> crtidx (inbox r) <= c1 -> 0 < uid_index (nt_uid x) < c1 ->
  uid_unique (nt_uid x) = cur r (uid_index (nt_uid x)) -> obj_at r (uid_index (nt_uid x)) = None ->
  NoDup (map uid_index (pending r ++ nt_uid x :: s1 ++ freeuidvec r)) -> (forall y, y ∈ s1 -> y ∈ uidstk (inbox r)) ->
  rwf (pushed r (nt_uid x) x c1 s1 vs).
Proof.
  intros Hw Hm Hrun Hxo Hoe Htv En Eo Hfree Hcrt Hui Huc Huo Hnd Hst. set (u := nt_uid x) in *. set (r' := pushed r u x c1 s1 vs).
  destruct (fresh_history r u Hw Hfree) as (Hni & Hur & Huq & Hud).
  assert (pushes r' = pushes r ++ [x]) as Eps.
  { unfold pushes. change (push_new r') with (new_vec vs (crtpushtskvecidx (inbox r))). change (push_old r') with (new_vec vs (pcrtpushtskvec r)).
    by rewrite En, Eo, app_assoc. }
  assert (pending r' = pending r ++ [u]) as Epd by (unfold pending; by rewrite Eps, map_app).
  destruct (pushed_queued r u x c1 s1 vs eq_refl (proj1 (w_push r Hw)) En Eo) as (l & l' & El & El').
  assert (forall u', issued r u' -> issued r' u') as His.
  { intros u' (H1 & H2 & H3). split_and!; cbn; [lia|lia|done|]. intros H. destruct (H3 H) as [?|Hp]; [by left|right].
    rewrite Epd. apply elem_of_app. by left. }
  change (queued r' = l ++ (u, nt_event x) :: l') in El'. destruct Hw. constructor; try assumption.
  - split; [done|]. cbn. by rewrite <- En.
  - cbn. lia.
  - rewrite Epd. unfold free. cbn. rewrite <- app_assoc. done.
  - intros u' Hu'. rewrite Epd in Hu'. change (crtidx (inbox r')) with c1.
    apply elem_of_app in Hu' as [[Hu'| ->%list_elem_of_singleton]%elem_of_app|Hu']; [|done|].
    + destruct (w_ids0 u') as (? & ? & ?); [apply elem_of_app; by left|]. split_and!; try done; lia.
    + destruct (w_ids0 u') as (? & ? & ?); [|split_and!; try done; lia]. apply elem_of_app. right.
      unfold free in Hu' |- *. cbn in Hu'. apply elem_of_app in Hu' as [?|?]; apply elem_of_app; [left; by apply Hst|by right].
  - rewrite Eps. intros y [Hy| ->%list_elem_of_singleton]%elem_of_app; [by apply w_pend0|]. rewrite Hxo. split; [done|]. by exists m.
  - intros y Hy. change (push_old r') with (new_vec vs (pcrtpushtskvec r)). rewrite Eo. by apply w_raised0.
  - intros u' ev' [Hin|[= -> ->]%list_elem_of_singleton]%elem_of_app; [by apply His, (w_history0 u' ev')|].
    split; [exact Hui|]. split; [by right|]. intros _. right. rewrite Epd. apply elem_of_app. right. left.
  - rewrite El'. intros u' ev' Hin. apply elem_of_app. apply elem_of_app in Hin as [Hin|[[= -> ->]|Hin]%elem_of_cons]; [left|right; left|left];
      apply w_queued0; rewrite El; apply elem_of_app; auto.
  - rewrite El'. change (raised r') with (raised r ++ [(u, nt_event x)]). change (delivered r') with (delivered r). intros u' Hu'.
    rewrite (to_middle u u' _ l l'), to_app. rewrite El, to_app in Huq. case_decide as Hd.
    + apply app_eq_nil in Huq as [Hl1 Hl2]. by rewrite Hd, Hur, Hud, Hl1, Hl2, to_same.
    + rewrite to_other, app_nil_r by done. cbn [app]. rewrite <- to_app, <- El. apply w_fifo0. destruct Hu' as [Hu'|Hu']; [by left|right].
      rewrite Epd in Hu'. by apply elem_of_app in Hu' as [?|?%list_elem_of_singleton].
  - intros u'. change (raised r') with (raised r ++ [(u, nt_event x)]). rewrite to_app. by apply prefix_app_r.
Qed.

(** [push] gives the object a free id and queues its first event. *)
Lemma push_spec r o m svc ev : rwf r -> objects r !! o = Some m -> runId m = None ->
  exists r' u, push r o svc ev = Done (r', u) /\ rwf r' /\ objdq r' = objdq r
    /\ ~ issued r u /\ raised r' = raised r ++ [(u, ev)] /\ delivered r' = delivered r.
Proof.
  intros Hw Hm Hrun. destruct (popUid_spec r o m Hw Hm) as (r1 & u & E & Hfree & Er1 & Hcrt & Hui & Huc & Huo & Hnd & Hst).
  destruct (rwf_run_id r o m u Hw Hm Hrun) as [Hw1 Hoe]. set (r2 := with_objects r _) in Hw1.
  unfold push. rewrite E. cbn [res_bind]. destruct (w_push r Hw) as [Htv Hsz]. set (x := mkNewTask u o svc ev).
  destruct (two_vecs_set _ _ _ (push_new r ++ [x]) Htv) as (vs & E1 & E2 & Htv' & En & Eo).
  set (c1 := crtidx (inbox r1)) in *. set (s1 := uidstk (inbox r1)) in *. clearbody c1 s1. subst r1.
  cbn [inbox with_objects with_inbox with_uids pushtskvec crtpushtskvecidx]. rewrite E1. cbn [res_bind]. unfold push_new in E2. rewrite E2. cbn [res_bind].
  exists (pushed r2 u x c1 s1 vs), u. split; [done|]. split; [|split; [done|split; [|done]]].
  - apply (rwf_pushed r2 o (mkObject (Some u) (chain m)) x c1 s1 vs Hw1); try done. cbn. by rewrite lookup_insert_eq.
  - by destruct (fresh_history r u Hw Hfree).
Qed.

(** ** Every step keeps the invariant *)

(** What the code of objects cannot do: take an object in or out, deliver an event. *)
Definition quiet (x : ExecStub Ev Fn) : Prop :=
  match exefnc x with User _ | stop_object_repost | StopObjectF _ true => True | _ => False end.

Record keeps r r' : Prop := {
  kp_objdq : objdq r' = objdq r;
  kp_exeq : exists q, exeq r' = exeq r ++ q /\ Forall quiet q;
  kp_raised : exists l, raised r' = raised r ++ l;
  kp_delivered : delivered r' = delivered r;
  kp_free : freeuidvec r' = freeuidvec r;
  kp_old : push_old r' = push_old r /\ raise_old r' = raise_old r
}.

Lemma keeps_refl r : keeps r r.
Proof. constructor; try done; [exists []|exists []]; by rewrite app_nil_r. Qed.

Lemma keeps_trans r1 r2 r3 : keeps r1 r2 -> keeps r2 r3 -> keeps r1 r3.
Proof.
  intros [E1 (q1 & E2 & F1) (l1 & E3) E4 E5 [E6 E7]] [G1 (q2 & G2 & F2) (l2 & G3) G4 G5 [G6 G7]].
  constructor; try congruence; [| |split; congruence].
  - exists (q1 ++ q2). rewrite G2, E2, app_assoc. split; [done|by apply Forall_app].
  - exists (l1 ++ l2). by rewrite G3, E3, app_assoc.
Qed.

(** Steps that touch handlers, objects and the world only. *)
Lemma keeps_same r r' : objdq r' = objdq r -> exeq r' = exeq r -> raised r' = raised r -> delivered r' = delivered r ->
  freeuidvec r' = freeuidvec r -> inbox r' = inbox r -> pcrtpushtskvec r' = pcrtpushtskvec r -> pcrtraisevec r' = pcrtraisevec r -> keeps r r'.
Proof.
  intros E1 E2 E3 E4 E5 E6 E7 E8. constructor; try done.
  - exists []. by rewrite E2, app_nil_r.
  - exists []. by rewrite E3, app_nil_r.
  - unfold push_old, raise_old. by rewrite E6, E7, E8.
Qed.

Lemma keeps_push r x : quiet x -> keeps r (exeq_push r x).
Proof. intros Hx. constructor; try done; [exists [x]|exists []; by rewrite app_nil_r]. split; [done|by constructor]. Qed.

Lemma doPost_keeps r ctx fn ev r' : doPost r ctx fn ev = Done r' -> (forall u c, quiet (mkExec u c fn ev)) -> keeps r r'.
Proof. unfold doPost. intros (u & _ & (c & _ & [= <-])%res_bind_done)%res_bind_done Hq. by apply keeps_push. Qed.

Lemma postStop_keeps r ctx o r1 ok fn ev r' : doPrepareStop r o = Done (r1, ok) -> (forall u c, quiet (mkExec u c fn ev)) ->
  (if ok then doPost r1 ctx fn ev else Done r1) = Done r' -> keeps r r'.
Proof.
  intros E Hq. assert (keeps r r1) as Hk.
  { unfold doPrepareStop in E. destruct (disableVisits (world r) o) as [w []]; [|injection E as <- _; by apply keeps_same].
    apply res_bind_done in E as (m & _ & (g & _ & [= <- _])%res_bind_done). by apply keeps_same. }
  destruct ok; [|by intros [= <-]]. intros E2. eapply keeps_trans; [exact Hk|]. by eapply doPost_keeps.
Qed.

Lemma new_timer_keeps r o a r' : new_timer r o a = Done r' -> keeps r r'.
Proof.
  unfold new_timer. intros (m & _ & E)%res_bind_done. destruct (runId m) as [u|].
  - apply res_bind_done in E as (g & _ & [= <-]). by apply keeps_same.
  - injection E as <-. by apply keeps_same.
Qed.

Lemma api_keeps ctx r r' : rwf r -> api ctx r r' -> keeps r r'.
Proof.
  intros Hw H. destruct H as [r w|r fn ev r' E|r fn ev a r' E|r r' E|r fn ev r' E| | |r o u a r' _ _ _ _ E|r o _|r o m a r' _ _ _ E|r u ev r' _ E|r o m svc ev r' u _ _ E|r];
    try (by apply keeps_same).
  - eapply doPost_keeps; [exact E|by intros; cbn].
  - apply res_bind_done in E as (u & _ & (h & _ & (c & _ & (st & _ & [= <-])%res_bind_done)%res_bind_done)%res_bind_done). by apply keeps_push.
  - apply res_bind_done in E as (o & _ & ([r1 ok] & E & H)%res_bind_done). unfold postObjectStop in H. refine (postStop_keeps r ctx o r1 ok _ _ r' E _ H); by intros.
  - apply res_bind_done in E as (o & _ & ([r1 ok] & E & H)%res_bind_done). unfold postObjectStop_with in H. refine (postStop_keeps r ctx o r1 ok _ _ r' E _ H); by intros.
  - by eapply new_timer_keeps.
  - by eapply new_timer_keeps.
  - destruct (w_raise r Hw) as [Htv _]. destruct (two_vecs_set _ _ _ (raise_new r ++ [mkRaise u ev]) Htv) as (vs & E1 & E2 & _ & _ & Eo).
    revert E. unfold raise. rewrite E1. cbn [res_bind]. unfold raise_new in E2. rewrite E2. cbn [res_bind]. intros [= <-].
    constructor; try done; [exists []; by rewrite app_nil_r|by eexists].
  - apply res_bind_done in E as ([r1 u1] & E & H). unfold popUid in E. destruct (uidstk (inbox r)) as [|u0 st];
      apply res_bind_done in E as (m0 & _ & [= <- <-]); destruct (w_push r Hw) as [Htv _];
      match type of H with context [mkNewTask ?u _ _ _] =>
        destruct (two_vecs_set _ _ _ (push_new r ++ [mkNewTask u o svc ev]) Htv) as (vs & E1 & E2 & _ & _ & Eo) end;
      cbn [inbox with_objects with_inbox with_uids pushtskvec crtpushtskvecidx] in H; rewrite E1 in H; cbn [res_bind] in H; unfold push_new in E2;
      rewrite E2 in H; cbn [res_bind] in H; injection H as <- _;
      (constructor; try done; [exists []; by rewrite app_nil_r|by eexists]).
  - constructor; try done; exists []; by rewrite app_nil_r.
Qed.

(** The queue only grows, in any state. *)
Lemma api_grows ctx r r' : api ctx r r' -> exists q, exeq r' = exeq r ++ q.
Proof.
  assert (forall r r', exeq r' = exeq r -> exists q, exeq r' = exeq r ++ q) as Hs by (intros ? ? ->; exists []; by rewrite app_nil_r).
  assert (forall r r', keeps r r' -> exists q, exeq r' = exeq r ++ q) as Hk by (intros ? ? [_ (q & -> & _) _ _ _ _]; by exists q).
  intros H. destruct H as [r w|r fn ev r' E|r fn ev a r' E|r r' E|r fn ev r' E| | |r o u a r' _ _ _ _ E|r o _|r o m a r' _ _ _ E|r u ev r' _ E|r o m svc ev r' u _ _ E|r];
    try (by apply Hs).
  - apply Hk. eapply doPost_keeps; [exact E|by intros; cbn].
  - apply res_bind_done in E as (u & _ & (h & _ & (c & _ & (st & _ & [= <-])%res_bind_done)%res_bind_done)%res_bind_done). by eexists.
  - apply res_bind_done in E as (o & _ & ([r1 ok] & E & H)%res_bind_done). unfold postObjectStop in H.
    apply Hk. refine (postStop_keeps r ctx o r1 ok _ _ r' E _ H); by intros.
  - apply res_bind_done in E as (o & _ & ([r1 ok] & E & H)%res_bind_done). unfold postObjectStop_with in H.
    apply Hk. refine (postStop_keeps r ctx o r1 ok _ _ r' E _ H); by intros.
  - by eapply Hk, new_timer_keeps.
  - by eapply Hk, new_timer_keeps.
  - apply res_bind_done in E as (v & _ & (vs & _ & [= <-])%res_bind_done). by apply Hs.
  - apply res_bind_done in E as ([r1 u1] & E & H). unfold popUid in E. destruct (uidstk (inbox r)); apply res_bind_done in E as (m1 & _ & [= <- <-]);
      apply res_bind_done in H as (v & _ & (vs & _ & [= <- _])%res_bind_done); by apply Hs.
Qed.

Lemma keeps_ctx r r' ctx : keeps r r' -> ctx_ok r ctx -> ctx_ok r' ctx.
Proof. intros Hk. unfold ctx_ok, obj_at. by rewrite (kp_objdq _ _ Hk). Qed.

Lemma api_rwf ctx r r' : rwf r -> ctx_ok r ctx -> api ctx r r' -> rwf r'.
Proof.
  intros Hw Hc H. destruct H as [r w|r fn ev r' E|r fn ev a r' E|r r' E|r fn ev r' E|r a h t fn g b Ha Hcall E|r a h g Ha Hcall E
    |r o u a r' Ha Ho Hu Hs E|r o Ho|r o m a r' Ha Hm Hr E|r u ev r' Hu E|r o m svc ev r' u Hm Hr E|r].
  - destruct Hw. by constructor.
  - by eapply doPost_user.
  - by eapply doPost_handler_spec.
  - by eapply postStop_spec.
  - by eapply postStop_with_spec.
  - apply rwf_fewer; [done|]. eapply waitUntil_fewer; [apply Hw|done|done|done].
  - apply rwf_fewer; [done|]. eapply cancel_fewer; [apply Hw|done|done].
  - by eapply new_timer_spec.
  - by apply rwf_object.
  - by eapply new_timer_idle.
  - destruct (raise_spec r u ev Hw Hu) as (r1 & E1 & Hw1 & _). congruence.
  - destruct (push_spec r o m svc ev Hw Hm Hr) as (r1 & u1 & E1 & Hw1 & _). congruence.
  - destruct Hw. by constructor.
Qed.

Lemma apis_rwf ctx r r' : rwf r -> ctx_ok r ctx -> rtc (api ctx) r r' -> rwf r' /\ ctx_ok r' ctx /\ keeps r r'.
Proof.
  intros Hw Hc H. induction H as [r|r1 r2 r3 H _ IH].
  { split_and!; try done. apply keeps_refl. }
  pose proof (api_keeps ctx r1 r2 Hw H) as Hk. destruct IH as (? & ? & ?).
  - by eapply api_rwf.
  - by eapply keeps_ctx.
  - split_and!; try done. by eapply keeps_trans.
Qed.

End Proofs.
End ReactorProofs.
