(* ===== verification/ReactorRun.v ===== *)
(** * The thread of the reactor

    What one round of [Reactor::run] does (Reactor.v), from the invariant of ReactorProofs.v:
    the functions in the queue run in order, events reach their objects, objects enter and
    leave, timers fire. *)

From Stdlib Require Import Permutation.
From stdpp Require Import gmap.
From S2P Require Import Prelude FrameCommon TimeStore Handlers Reactor ReactorProofs.
Import FrameCommon NanoTime.
Import Handlers(Addr, dummyhandler, hwf, handlers, chdq, idxreactor, call, pch, objidx).
Import Reactor ReactorProofs.
#[local] Open Scope res_scope.
#[local] Set Warnings "-clear-no-such-hyp".

Module ReactorRun.

(** The code of the objects acts through the operations of [api]. *)
Class ReactorEnvLaws {World Svc Ev Fn : Type} (RE : ReactorEnv World Svc Ev Fn) : Prop := {
  user_api fn ctx ev (r : Reactor World Svc Ev Fn) : rtc (api ctx) r (call_user fn ctx ev r);
  timer_api fn ctx (r : Reactor World Svc Ev Fn) : rtc (api ctx) r (call_timer fn ctx r);
  event_api o ctx ev (r : Reactor World Svc Ev Fn) : rtc (api ctx) r (onEvent o ctx ev r)
}.

Section Run.
Context {World Svc Ev Fn : Type} {RE : ReactorEnv World Svc Ev Fn}.

Abbreviation reactor := (Reactor World Svc Ev Fn).
Implicit Types (g : Handlers.Handlers Fn) (h : Handlers.Handler Fn) (r : reactor) (u : UniqueId) (ctx : Context) (ev : Ev) (o a : Addr)
  (x : ExecStub Ev Fn).

(** ** A function runs while its stub is the front of the queue *)

Definition pop r : reactor := with_exeq r (tail (exeq r)).

Lemma pop_push r x : exeq r <> [] -> pop (exeq_push r x) = exeq_push (pop r) x.
Proof. intros H. unfold pop, exeq_push, with_exeq. cbn. by destruct (exeq r). Qed.

Lemma doPost_pop r ctx fn ev r' : doPost r ctx fn ev = Done r' -> exeq r <> [] -> doPost (pop r) ctx fn ev = Done (pop r') /\ exeq r' <> [].
Proof.
  intros (u & E1 & (c & E2 & [= <-])%res_bind_done)%res_bind_done Hne. split.
  - rewrite pop_push by done. unfold doPost. change (objectUid (pop r) ctx) with (objectUid r ctx). rewrite E1. cbn [res_bind].
    change (dummyCompletionHandlerUid (pop r)) with (dummyCompletionHandlerUid r). by rewrite E2.
  - cbn. by destruct (exeq r).
Qed.

Lemma postStop_pop r ctx o r1 ok fn ev r' : doPrepareStop r o = Done (r1, ok) ->
  (if ok then doPost r1 ctx fn ev else Done r1) = Done r' -> exeq r <> [] ->
  doPrepareStop (pop r) o = Done (pop r1, ok) /\ (if ok then doPost (pop r1) ctx fn ev else Done (pop r1)) = Done (pop r') /\ exeq r' <> [].
Proof.
  unfold doPrepareStop. cbn [world pop with_exeq]. destruct (disableVisits (world r) o) as [w []].
  - intros (m & E1 & (g & E2 & [= <- <-])%res_bind_done)%res_bind_done E Hne. cbn in E1, E2 |- *. rewrite E1. cbn [res_bind]. rewrite E2. split; [done|].
    by apply doPost_pop.
  - intros [= <- <-] [= <-] Hne. done.
Qed.

Lemma new_timer_pop r o a r' : new_timer r o a = Done r' -> new_timer (pop r) o a = Done (pop r') /\ exeq r' = exeq r.
Proof.
  unfold new_timer. intros (m & E1 & E)%res_bind_done. cbn [objects pop with_exeq]. rewrite E1. cbn [res_bind]. destruct (runId m) as [u|].
  - apply res_bind_done in E as (g & E2 & [= <-]). cbn [hs pop with_exeq with_objects] in E2 |- *. by rewrite E2.
  - by injection E as <-.
Qed.

Lemma api_pop ctx r r' : api ctx r r' -> exeq r <> [] -> api ctx (pop r) (pop r') /\ exeq r' <> [].
Proof.
  intros H Hne. destruct H as [r w|r fn ev r' E|r fn ev a r' E|r r' E|r fn ev r' E|r a h t fn g b Ha Hcall E|r a h g Ha Hcall E
    |r o u a r' Ha Ho Hu Hs E|r o Ho|r o m a r' Ha Hm Hr E|r u ev r' Hu E|r o m svc ev r' u Hm Hr E|r].
  - split; [|done]. apply (api_world ctx (pop r) w).
  - destruct (doPost_pop r ctx _ ev r' E Hne). split; [by eapply api_post|done].
  - apply res_bind_done in E as (u & E1 & (h & E2 & (c & E3 & (st & E4 & [= <-])%res_bind_done)%res_bind_done)%res_bind_done).
    split; [|cbn; by destruct (exeq r)]. rewrite pop_push by done. apply (api_post_handler ctx (pop r) fn ev a). unfold doPost_handler.
    change (objectUid (pop r) ctx) with (objectUid r ctx). rewrite E1. cbn [res_bind hs pop with_exeq]. rewrite E2. cbn [res_bind]. rewrite E3. cbn [res_bind]. by rewrite E4.
  - apply res_bind_done in E as (o & Eo & ([r1 ok] & E & H)%res_bind_done). destruct (postStop_pop r ctx o r1 ok _ _ r' E H Hne) as (E1 & E2 & E3).
    split; [|done]. apply api_stop. unfold postStop. change (object (pop r) ctx) with (object r ctx). rewrite Eo. cbn [res_bind]. rewrite E1. exact E2.
  - apply res_bind_done in E as (o & Eo & ([r1 ok] & E & H)%res_bind_done). destruct (postStop_pop r ctx o r1 ok _ _ r' E H Hne) as (E1 & E2 & E3).
    split; [|done]. apply (api_stop_with ctx _ fn ev). unfold postStop_with. change (object (pop r) ctx) with (object r ctx). rewrite Eo. cbn [res_bind]. rewrite E1. exact E2.
  - split; [|done]. by apply (api_wait ctx (pop r) a h t fn g b).
  - split; [|done]. by apply (api_cancel ctx (pop r) a h g).
  - destruct (new_timer_pop r o a r' E) as [E1 E2]. rewrite E2. split; [|done]. apply (api_timer ctx (pop r) o u a); try done.
    intros (y & Hy & ?). apply Hs. exists y. split; [|done]. cbn in Hy. destruct (exeq r); [done|by right].
  - split; [|done]. by apply (api_object ctx (pop r) o).
  - destruct (new_timer_pop r o a r' E) as [E1 E2]. rewrite E2. split; [|done]. by apply (api_object_timer ctx (pop r) o m a).
  - apply res_bind_done in E as (v & E1 & (vs & E2 & [= <-])%res_bind_done). split; [|done]. apply (api_raise ctx (pop r) u ev); [done|].
    unfold raise. cbn [inbox pop with_exeq]. rewrite E1. cbn [res_bind]. by rewrite E2.
  - unfold push, popUid in E. apply res_bind_done in E as ([r1 u1] & E1 & E). destruct (uidstk (inbox r)) as [|u0 st] eqn:Es;
      apply res_bind_done in E1 as (m1 & E1 & [= <- <-]); apply res_bind_done in E as (v & E2 & (vs & E3 & [= <- <-])%res_bind_done);
      (split; [|done]); eapply (api_push ctx (pop r) o m svc ev); try done;
      unfold push, popUid; cbn [inbox pop with_exeq objects]; rewrite Es; rewrite E1; cbn [res_bind]; cbn in E2, E3 |- *; rewrite E2; cbn [res_bind]; by rewrite E3.
  - split; [|done]. apply (api_reactor_stop ctx (pop r)).
Qed.

Lemma apis_pop ctx r r' : rtc (api ctx) r r' -> exeq r <> [] -> rtc (api ctx) (pop r) (pop r').
Proof.
  induction 1 as [r|r1 r2 r3 H _ IH]; intros Hne; [done|]. destruct (api_pop ctx r1 r2 H Hne) as [H1 H2].
  eapply rtc_l; [exact H1|by apply IH].
Qed.

#[global] Instance alive_dec r u : Decision (alive r u).
Proof. unfold alive. apply _. Defined.

Lemma queued_cons r x q : exeq r = x :: q -> queued r = exec_events [x] ++ queued (pop r).
Proof.
  intros E. unfold queued, pop, push_old, push_new, raise_old, raise_new. cbn [exeq with_exeq inbox pcrtpushtskvec pcrtraisevec].
  rewrite E. cbn [tail]. change (x :: q) with ([x] ++ q). rewrite exec_events_app. by rewrite <- !app_assoc.
Qed.

(** The front leaves the queue, with the events [d] handed to objects. *)
Lemma rwf_pop r x q (d : list (UniqueId * Ev)) : rwf r -> exeq r = x :: q ->
  (forall u, alive r u \/ u ∈ pending r -> to u (exec_events [x]) = to u d) ->
  (forall u, to u (delivered r ++ d) `prefix_of` to u (raised r)) ->
  rwf (pop (with_history r (raised r) (delivered r ++ d))).
Proof.
  intros Hw E Hd Hp. set (r' := pop _).
  assert (forall y, y ∈ exeq r' -> y ∈ exeq r) as Hin by (intros y; cbn; rewrite E; by right).
  pose proof (queued_cons r x q E) as Eq. change (queued (pop r)) with (queued r') in Eq.
  destruct Hw. constructor; try assumption.
  - intros y Hy. by apply w_exec0, Hin.
  - intros y Hy. by apply w_chn0, Hin.
  - intros u ev Hu. apply w_queued0. rewrite Eq. apply elem_of_app. by right.
  - intros u Hu. change (raised r') with (raised r). change (delivered r') with (delivered r ++ d).
    rewrite w_fifo0 by done. rewrite Eq, !to_app, (Hd u Hu). by rewrite app_assoc.
  - intros y o m Hy. by apply w_stopping0, Hin.
Qed.

Lemma exec_events_one x : exec_events [x] = [] \/ (exefnc x = call_object_on_event /\ exec_events [x] = [(objuid x, ex_event x)]).
Proof. unfold exec_events. cbn. destruct (exefnc x); auto. Qed.

(** A stub that is not run: its object is gone, or it is no event. *)
Lemma rwf_skip r x q : rwf r -> exeq r = x :: q -> (exefnc x = call_object_on_event -> ~ alive r (objuid x)) -> rwf (pop r).
Proof.
  intros Hw E Hx. pose proof (rwf_pop r x q [] Hw E) as H. rewrite app_nil_r in H. apply H; [|apply Hw]. intros u Hu.
  destruct (exec_events_one x) as [->|[Ee ->]]; [done|]. rewrite to_other; [done|]. intros ->. specialize (Hx Ee).
  destruct Hu as [Hu|Hu]; [done|]. destruct (w_ids r Hw (objuid x)) as (_ & Hc & Ho); [apply elem_of_app; by left|].
  destruct (w_exec r Hw x) as (_ & _ & Ha & _); [rewrite E; left|]. destruct (Ha Hc). congruence.
Qed.

Lemma rwf_deliver r x q : rwf r -> exeq r = x :: q -> exefnc x = call_object_on_event -> alive r (objuid x) ->
  rwf (pop (with_history r (raised r) (delivered r ++ [(objuid x, ex_event x)]))).
Proof.
  intros Hw E Ee Ha. assert (exec_events [x] = [(objuid x, ex_event x)]) as Ex by (unfold exec_events; cbn; by rewrite Ee).
  apply (rwf_pop r x q _ Hw E); [by rewrite Ex|]. intros u. rewrite to_app. destruct (decide (u = objuid x)) as [->|Hne].
  - rewrite (w_fifo r Hw) by (by left). rewrite (queued_cons r x q E), Ex, to_app. apply prefix_app, prefix_app_r. done.
  - rewrite (to_other u) by done. rewrite app_nil_r. apply Hw.
Qed.

(** The object has no handlers. *)
Definition bare r o : Prop := forall m, objects r !! o = Some m -> chain m = [].

(** An object that is stopping stays without handlers. *)
Lemma api_bare ctx r r' x o : api ctx r r' -> x ∈ exeq r -> stops x = true -> objectUid r ctx = Done (objuid x) -> object r ctx = Done o ->
  (forall m, objects r !! o = Some m -> runId m <> None) -> is_Some (objects r !! o) -> bare r o ->
  bare r' o /\ (forall m, objects r' !! o = Some m -> runId m <> None) /\ is_Some (objects r' !! o).
Proof.
  assert (forall r o', objects r !! o' = None -> is_Some (objects r !! o) -> o' <> o) as Hfr by (intros ? ? H1 [? H2]; congruence).
  assert (forall r o' m b ch, objects r !! o' = Some m -> (o' = o -> ch = [] /\ is_Some b) -> bare r o -> (forall m, objects r !! o = Some m -> runId m <> None) ->
    is_Some (objects r !! o) -> (forall m1, <[o' := mkObject b ch]> (objects r) !! o = Some m1 -> chain m1 = [])
    /\ (forall m1, <[o' := mkObject b ch]> (objects r) !! o = Some m1 -> runId m1 <> None) /\ is_Some (<[o' := mkObject b ch]> (objects r) !! o)) as Hins.
  { intros r0 o' m b ch Hm Hc Hb Hr Hs. destruct (decide (o' = o)) as [->|].
    - destruct (Hc eq_refl) as [-> [? ->]]. rewrite lookup_insert_eq. split_and!; [by intros ? [= <-]|by intros ? [= <-]|done].
    - rewrite lookup_insert_ne by done. done. }
  intros H Hx Hs Hu Ho Hr Hm Hb. destruct H as [r w|r fn ev r' E|r fn ev a r' E|r r' E|r fn ev r' E|r a h t fn g b Ha Hcall E|r a h g Ha Hcall E
    |r o' u a r' Ha Ho' Hu' Hs' E|r o' Ho'|r o' m a r' Ha Hm' Hr' E|r u ev r' Hu' E|r o' m svc ev r' u Hm' Hr' E|r]; try done.
  - apply res_bind_done in E as (u & _ & (c & _ & [= <-])%res_bind_done). done.
  - apply res_bind_done in E as (u & _ & (h & _ & (c & _ & (st & _ & [= <-])%res_bind_done)%res_bind_done)%res_bind_done). done.
  - apply res_bind_done in E as (o1 & Eo & ([r1 ok] & E & H)%res_bind_done). assert (o1 = o) as -> by congruence.
    unfold doPrepareStop in E. destruct (disableVisits (world r) o) as [w []].
    + apply res_bind_done in E as (m & Em%of_option_done & (g & _ & [= <- <-])%res_bind_done).
      apply res_bind_done in H as (u & _ & (c & _ & [= <-])%res_bind_done). apply (Hins r o m); try done.
      intros _. split; [done|]. destruct (runId m) eqn:Erun; [done|]. by destruct (Hr m Em).
    + injection E as <- <-. injection H as <-. done.
  - apply res_bind_done in E as (o1 & Eo & ([r1 ok] & E & H)%res_bind_done). assert (o1 = o) as -> by congruence.
    unfold doPrepareStop in E. destruct (disableVisits (world r) o) as [w []].
    + apply res_bind_done in E as (m & Em%of_option_done & (g & _ & [= <- <-])%res_bind_done).
      apply res_bind_done in H as (u & _ & (c & _ & [= <-])%res_bind_done). apply (Hins r o m); try done.
      intros _. split; [done|]. destruct (runId m) eqn:Erun; [done|]. by destruct (Hr m Em).
    + injection E as <- <-. injection H as <-. done.
  - destruct Hs'. assert (u = objuid x) as -> by congruence. by exists x.
  - unfold bare. cbn. rewrite lookup_insert_ne; [done|]. by apply (Hfr r).
  - unfold new_timer in E. rewrite Hm' in E. cbn [of_option res_bind] in E. rewrite Hr' in E. injection E as <-. apply (Hins r o' m); try done.
    intros ->. by destruct (Hr m Hm').
  - apply res_bind_done in E as (v & _ & (vs & _ & [= <-])%res_bind_done). done.
  - apply res_bind_done in E as ([r1 u1] & E & H). unfold popUid in E. destruct (uidstk (inbox r)) as [|u0 st];
      apply res_bind_done in E as (m1 & Em1%of_option_done & [= <- <-]); apply res_bind_done in H as (v & _ & (vs & _ & [= <- _])%res_bind_done);
      apply (Hins r o' m1); try done; intros ->; split; [by apply Hb|by eexists|by apply Hb|by eexists].
Qed.

(** ** Taking an object out *)

Lemma live_count_stop (v : list (ObjectStub Svc)) (i : nat) os os' : v !! i = Some os -> (0 < i)%nat -> is_live os = true -> is_live os' = false ->
  Z.of_nat (length (filter is_live (drop 1 (<[i := os']> v)))) = Z.of_nat (length (filter is_live (drop 1 v))) - 1.
Proof.
  intros Hi Hpos Hl Hl'. destruct v as [|y v]; [done|]. destruct i as [|i]; [lia|]. change (v !! i = Some os) in Hi.
  change (drop 1 (<[S i := os']> (y :: v))) with (<[i := os']> v). change (drop 1 (y :: v)) with v.
  pose proof (take_drop_middle v i os Hi) as E. rewrite <- E at 2. assert (i < length v)%nat by (by eapply lookup_lt_Some).
  rewrite insert_take_drop by done. rewrite !filter_app, !length_app, !filter_cons.
  rewrite (decide_False (P := is_live os')), (decide_True (P := is_live os)); [cbn; lia|by rewrite Hl|by rewrite Hl'; intros []].
Qed.

(** The state after [doStopObject] of the slot [i]. *)
Definition stopped r (w : World) (i : nat) (un : Z) : reactor :=
  with_freeuidvec (with_objcnt (with_objdq (with_world r w) (<[i := mkObjStub (un + 1) None None]> (objdq r))) (objcnt r - 1))
    (freeuidvec r ++ [mkUniqueId (Z.of_nat i) (un + 1)]).

Lemma stopped_cur r w (i : nat) un (j : Z) : (i < length (objdq r))%nat -> cur (stopped r w i un) j = if decide (Z.to_nat j = i) then un + 1 else cur r j.
Proof.
  intros Hi. unfold cur. cbn. case_decide as H.
  - subst i. by rewrite list_lookup_insert_eq.
  - by rewrite list_lookup_insert_ne by done.
Qed.

Lemma stopped_obj r w (i : nat) un (j : Z) : (i < length (objdq r))%nat -> obj_at (stopped r w i un) j = if decide (Z.to_nat j = i) then None else obj_at r j.
Proof.
  intros Hi. unfold obj_at. cbn. case_decide as H.
  - subst i. by rewrite list_lookup_insert_eq.
  - by rewrite list_lookup_insert_ne by done.
Qed.

Lemma rwf_stopped r w (i : nat) os o : rwf r -> objdq r !! i = Some os -> (0 < i)%nat -> objptr os = Some o -> bare r o ->
  rwf (stopped r w i (os_unique os)).
Proof.
  intros Hw Hos Hpos Hp Hb. assert (i < length (objdq r))%nat as Hi by (by eapply lookup_lt_Some). set (un := os_unique os). set (r' := stopped r w i un).
  pose proof (stopped_cur r w i un) as Hcur. pose proof (stopped_obj r w i un) as Hobj. fold r' in Hcur, Hobj.
  assert (cur r (Z.of_nat i) = un) as Hci by (by apply cur_nat). assert (obj_at r (Z.of_nat i) = Some o) as Hoi by (by rewrite (obj_at_nat r i os)).
  assert (forall u, 0 < uid_index u -> uid_unique u <= cur r (uid_index u) -> uid_unique u <= cur r' (uid_index u)
    /\ (uid_unique u = cur r' (uid_index u) -> Z.to_nat (uid_index u) <> i)) as Hold.
  { intros u Hu0 Hu. rewrite Hcur by done. case_decide as Hd; [|done]. rewrite <- Hd, Z2Nat.id in Hci by lia. split; [lia|]. intros. lia. }
  destruct Hw. assert (forall u, issued r u -> issued r' u) as His.
  { intros u (H1 & H2 & H3). destruct (Hold u (proj1 H1) ltac:(lia)) as [H4 H5]. split; [apply H1|]. split.
    { change (objdq r') with (<[i := mkObjStub (un + 1) None None]> (objdq r)). rewrite length_insert, Hcur by done.
      case_decide as Hd; [|done]. rewrite <- Hd, Z2Nat.id in Hci by lia. left. lia. }
    intros Hc. specialize (H5 Hc).
    rewrite Hcur, decide_False in Hc by done. rewrite Hobj, decide_False by done. by apply H3. }
  assert (forall u, alive r' u -> alive r u) as Hal.
  { intros u [H1 H2]. unfold alive. rewrite Hobj in H1 by done. rewrite Hcur in H2 by done. case_decide; [by destruct H1|done]. }
  assert (Z.of_nat i ∉ map uid_index (pending r ++ free r)) as Hnin.
  { intros (u & Eu & Hu)%list_elem_of_fmap. destruct (w_ids0 u Hu) as (_ & _ & Hn). congruence. }
  constructor; try assumption.
  - change (0 < Z.of_nat (length (<[i := mkObjStub (un + 1) None None]> (objdq r))) <= crtidx (inbox r)). rewrite length_insert. done.
  - change (NoDup (map uid_index (pending r ++ uidstk (inbox r) ++ freeuidvec r ++ [mkUniqueId (Z.of_nat i) (un + 1)]))).
    rewrite !app_assoc, map_app. rewrite <- (app_assoc (pending r)). apply NoDup_app. split_and!; [done| |apply NoDup_singleton].
    intros j Hj ->%list_elem_of_singleton. done.
  - intros u Hu. change (u ∈ pending r ++ uidstk (inbox r) ++ freeuidvec r ++ [mkUniqueId (Z.of_nat i) (un + 1)]) in Hu.
    rewrite !app_assoc, <- (app_assoc (pending r)) in Hu. rewrite Hcur, Hobj by done. apply elem_of_app in Hu as [Hu| ->%list_elem_of_singleton].
    + destruct (w_ids0 u Hu) as (H1 & H2 & H3). split; [done|].
      assert (Z.to_nat (uid_index u) <> i) as Hd; [|by rewrite !decide_False by done]. intros <-. apply Hnin.
      rewrite Z2Nat.id by lia. by apply list_elem_of_fmap_2.
    + cbn. rewrite Nat2Z.id, !decide_True by done. split_and!; try done; lia.
  - intros j os' o' Hj Hj0 Ho'. cbn in Hj. apply list_lookup_insert_Some in Hj as [(<- & <- & _)|[_ Hj]]; [done|]. by apply w_live0.
  - intros x Hx. destruct (w_exec0 x Hx) as (H1 & H2 & H3 & H4). destruct (Hold (objuid x) (proj1 H1) H2) as [H5 H6].
    split; [cbn; rewrite length_insert; lia|]. split; [done|]. split; [|done].
    intros Hc. specialize (H6 Hc). rewrite Hcur, decide_False in Hc by done. rewrite Hobj, decide_False by done. by apply H3.
  - intros x Hx Hc. assert (issued r (re_uid x)) as (H1 & H2 & _).
    { apply (w_history0 _ (re_event x)), w_queued0. unfold queued. rewrite !elem_of_app. right. right. left. unfold raise_events. apply list_elem_of_fmap. by exists x. }
    destruct (Hold (re_uid x) (proj1 H1) ltac:(lia)) as [_ H6]. specialize (H6 Hc). rewrite Hcur, decide_False in Hc by done. rewrite Hobj, decide_False by done. by apply w_raised0.
  - intros u ev Hu. by eapply His, w_history0.
  - intros u Hu. apply w_fifo0. destruct Hu as [Hu|Hu]; [left; by apply Hal|by right].
  - intros c st Hst Hne. destruct (w_handlers0 c st Hst Hne) as (H1 & o' & m & H2 & H3 & H4). split; [done|]. exists o', m. split_and!; try done.
    rewrite Hobj by done. rewrite decide_False; [done|]. intros Hd. rewrite <- Hd, Z2Nat.id in Hoi by lia. assert (o' = o) as -> by congruence.
    rewrite (Hb m H3) in H4. by apply not_elem_of_nil in H4.
  - intros x o' m Hx Hs Hc Ho' Hm. rewrite Hcur in Hc by done. rewrite Hobj in Ho' by done. case_decide; [done|]. by apply (w_stopping0 x o').
  - cbn. rewrite w_objcnt0. symmetry. apply (live_count_stop _ i os); try done. unfold is_live. rewrite Hp. by apply bool_decide_eq_true.
Qed.

Lemma doStopObject_spec r ctx os o : rwf r -> ctx_ok r ctx -> vec_get (objdq r) (ctx_objidx ctx) = Done os -> objptr os = Some o -> bare r o ->
  exists w, doStopObject r ctx = Done (stopped r w (Z.to_nat (ctx_objidx ctx)) (os_unique os))
    /\ rwf (stopped r w (Z.to_nat (ctx_objidx ctx)) (os_unique os)).
Proof.
  intros Hw [Hc _] Hos Hp Hb. exists (object_stop (world r) o). pose proof Hos as [_ Hslot]%vec_get_done.
  destruct (w_live r Hw _ os o Hslot ltac:(lia) Hp) as ([svc Hsvc] & _). apply lookup_lt_Some in Hslot as Hlt. split.
  - unfold doStopObject. rewrite Hos. cbn [res_bind]. rewrite Hp. cbn [of_option res_bind]. rewrite Hsvc. cbn [of_option res_bind objdq with_world].
    rewrite vec_set_done by lia. unfold stopped. rewrite Z2Nat.id by lia. done.
  - apply (rwf_stopped r _ _ os o); try done. lia.
Qed.

(** ** The queue of functions *)

Context {RL : ReactorEnvLaws RE}.

(** The function takes its object out. *)
Definition hard x : bool := match exefnc x with stop_object | StopObjectF _ false => true | _ => false end.

(** The queue [q] has the function that takes the object [u] out. *)
Definition will_go (q : list (ExecStub Ev Fn)) u : Prop := exists y, y ∈ q /\ hard y = true /\ objuid y = u.

(** What running the stub [x] at the front of the queue does. *)
Record ran x r r' : Prop := {
  rn_exeq : exists q, exeq r' = tail (exeq r) ++ q /\ (stops x = true -> hard x = false -> alive r (objuid x) -> will_go q (objuid x));
  rn_raised : exists l, raised r' = raised r ++ l;
  rn_delivered : delivered r' = delivered r ++ (if decide (alive r (objuid x)) then exec_events [x] else []);
  rn_alive : forall u, alive r u -> (hard x = true -> objuid x <> u) -> alive r' u;
  rn_back : forall u, alive r' u -> alive r u;
  rn_gone : hard x = true -> ~ alive r' (objuid x);
  rn_old : push_old r' = push_old r /\ raise_old r' = raise_old r
}.

Lemma ran_keeps x r0 r r' : keeps r r' -> exeq r = tail (exeq r0) -> objdq r = objdq r0 -> raised r = raised r0 ->
  delivered r = delivered r0 ++ (if decide (alive r0 (objuid x)) then exec_events [x] else []) ->
  push_old r = push_old r0 -> raise_old r = raise_old r0 -> (stops x = true -> ~ alive r0 (objuid x)) -> ran x r0 r'.
Proof using Type.
  intros [K1 (q & K2 & _) (l & K3) K4 _ [K5 K6]] E1 E2 E3 E4 E5 E6 Hs. constructor; try congruence; [| | | | |split; congruence].
  - exists q. split; [congruence|]. intros Hst _ Ha. by destruct (Hs Hst).
  - exists l. congruence.
  - intros u Hu _. unfold alive, obj_at, cur in *. by rewrite K1, E2.
  - intros u Hu. unfold alive, obj_at, cur in *. by rewrite K1, E2 in Hu.
  - intros Hh Ha. apply Hs; [unfold hard in Hh; unfold stops; by destruct (exefnc x)|]. unfold alive, obj_at, cur in *. by rewrite K1, E2 in Ha.
Qed.

Lemma ran_skip x r : exec_events [x] = [] \/ ~ alive r (objuid x) -> (stops x = true -> ~ alive r (objuid x)) -> ran x r (pop r).
Proof.
  intros H Hs. apply (ran_keeps x r (pop r) (pop r)); try done; [apply keeps_refl|]. change (delivered (pop r)) with (delivered r).
  case_decide; [|by rewrite app_nil_r]. destruct H as [->|?]; [by rewrite app_nil_r|done].
Qed.

(** The stub runs when the numbers of its object and its handler still match. *)
Lemma exec_match r x os rcs : rwf r -> x ∈ exeq r -> vec_get (objdq r) (uid_index (objuid x)) = Done os ->
  vec_get (chdq (hs r)) (uid_index (chnuid x)) = Done rcs ->
  let b := (os_unique os =? uid_unique (objuid x)) && (Handlers.ch_unique rcs =? uid_unique (chnuid x)) in
  (b = true -> alive r (objuid x)) /\ ((forall fn, exefnc x <> User fn) -> alive r (objuid x) -> b = true).
Proof.
  intros Hw Hx Hos Hrcs b. destruct (w_exec r Hw x Hx) as (H1 & H2 & H3 & H4). apply vec_get_done in Hos as [_ Hos].
  assert (cur r (uid_index (objuid x)) = os_unique os) as Hc by (unfold cur; by rewrite Hos). split.
  - intros [E1%Z.eqb_eq E2%Z.eqb_eq]%andb_true_iff. split; [|congruence]. apply H3. congruence.
  - intros Hf [_ Ha]. apply andb_true_iff. split; apply Z.eqb_eq; [congruence|]. pose proof (w_chn r Hw x Hx Hf) as Hd.
    unfold dummyCompletionHandlerUid in Hd. apply res_bind_done in Hd as (h & _ & (ix & _ & (st & Est & [= E])%res_bind_done)%res_bind_done).
    rewrite <- E in *. cbn in *. congruence.
Qed.

Lemma pop_stopped r w i un : pop (stopped r w i un) = stopped (pop r) w i un.
Proof. done. Qed.

Lemma stopped_ran x r0 r w os : keeps (pop r0) r -> exec_events [x] = [] -> hard x = true -> alive r0 (objuid x) -> 0 < uid_index (objuid x) ->
  vec_get (objdq r0) (uid_index (objuid x)) = Done os -> ran x r0 (stopped r w (Z.to_nat (uid_index (objuid x))) (os_unique os)).
Proof.
  intros [K1 (q & K2 & _) (l & K3) K4 _ [K5 K6]] He Hh Ha Hpos [_ Hos]%vec_get_done.
  assert (Z.to_nat (uid_index (objuid x)) < length (objdq r))%nat as Hlt by (rewrite K1; cbn; by eapply lookup_lt_Some). constructor; try done.
  - exists q. split; [done|congruence].
  - by exists l.
  - rewrite He. case_decide; by rewrite app_nil_r.
  - intros u [H1 H2] Hne. specialize (Hne Hh). unfold alive. rewrite stopped_cur, stopped_obj by done. unfold obj_at, cur in H1, H2 |- *. rewrite K1.
    case_decide as Hd; [|done]. destruct Hne. destruct Ha as [_ Ha]. unfold cur in Ha. destruct (objuid x) as [xi xu], u as [ui uu]. cbn in *.
    assert (xi = ui \/ ui <= 0) as [->|Hneg] by lia; [congruence|]. exfalso. rewrite Z2Nat.nonpos in Hd by lia. lia.
  - intros u [H1 H2]. unfold alive. rewrite stopped_cur in H2 by done. rewrite stopped_obj in H1 by done. unfold obj_at, cur in H1, H2 |- *. rewrite K1 in H1, H2.
    case_decide; [by destruct H1|done].
  - intros _ [H1 _]. rewrite stopped_obj, decide_True in H1 by done. by destruct H1.
Qed.

(** The code of an object, run from a stub at the front. *)
Lemma code_ran ctx r0 r' : rtc (api ctx) r0 r' -> exeq r0 <> [] -> rwf (pop r0) -> ctx_ok r0 ctx ->
  rwf (pop r') /\ keeps (pop r0) (pop r') /\ ctx_ok r' ctx.
Proof using Type.
  intros H E Hw Hc. by destruct (apis_rwf ctx (pop r0) (pop r') Hw Hc (apis_pop ctx r0 r' H E)) as (H1 & H2 & H3).
Qed.

Lemma doStopObject_pop r ctx w i un : doStopObject (pop r) ctx = Done (stopped (pop r) w i un) ->
  exists r', doStopObject r ctx = Done r' /\ pop r' = stopped (pop r) w i un.
Proof using Type.
  unfold doStopObject. cbn [objdq pop with_exeq]. destruct (vec_get (objdq r) (ctx_objidx ctx)) as [ros| |]; try done. cbn [res_bind].
  destruct (of_option (objptr ros)) as [o| |]; try done. destruct (of_option (psvc ros)) as [svc| |]; try done. cbn [res_bind with_world objdq].
  change (objdq (pop r)) with (objdq r). destruct (vec_set (objdq r) _ _) as [v| |]; try done. cbn [res_bind]. intros E. eexists. split; [reflexivity|].
  assert (forall (y z : reactor), Done y = Done z -> y = z) as Hinj by (by intros ? ? [=]). exact (Hinj _ _ E).
Qed.

Lemma apis_bare ctx r r' x o : rtc (api ctx) r r' -> rwf (pop r) -> ctx_ok r ctx -> x ∈ exeq r -> stops x = true ->
  objectUid r ctx = Done (objuid x) -> object r ctx = Done o -> (forall m, objects r !! o = Some m -> runId m <> None) -> is_Some (objects r !! o) ->
  bare r o -> bare r' o.
Proof using Type.
  intros H. induction H as [r|r1 r2 r3 H _ IH]; intros Hw Hc Hx Hs Hu Ho Hr Hi Hb; [done|].
  assert (exeq r1 <> []) as Hne by (intros E; rewrite E in Hx; by apply not_elem_of_nil in Hx).
  destruct (api_pop ctx r1 r2 H Hne) as [Hp _]. pose proof (api_keeps ctx _ _ Hw Hp) as Hk. pose proof (kp_objdq _ _ Hk) as Ed. cbn in Ed.
  destruct (api_bare ctx r1 r2 x o H Hx Hs Hu Ho Hr Hi Hb) as (Hb2 & Hr2 & Hi2). apply IH; try done.
  - by eapply api_rwf.
  - unfold ctx_ok, obj_at. by rewrite Ed.
  - destruct (api_grows ctx r1 r2 H) as (q & ->). apply elem_of_app. by left.
  - unfold objectUid. by rewrite Ed.
  - unfold object. by rewrite Ed.
Qed.

(** The call of the function of a stub whose object is in. *)
Lemma execute_spec r x q (now : NanoTime) os : rwf r -> exeq r = x :: q -> alive r (objuid x) ->
  vec_get (objdq r) (uid_index (objuid x)) = Done os ->
  exists r', execute r (mkContext now (uid_index (chnuid x)) (uid_index (objuid x))) x = Done r' /\ rwf (pop r') /\ ran x r (pop r').
Proof using RL.
  intros Hw E Ha Hos. set (ctx := mkContext _ _ _). assert (x ∈ exeq r) as Hx by (rewrite E; left). assert (exeq r <> []) as Hne by (by rewrite E).
  destruct (w_exec r Hw x Hx) as ([Hpos _] & _ & _ & _). assert (ctx_ok r ctx) as Hc by (split; [exact Hpos|apply Ha]).
  destruct (alive_slot r ctx Hc) as (os' & o & Hos' & Hp & Hoa & Hcur & _). cbn in Hos', Hoa, Hcur. assert (os' = os) as -> by congruence.
  assert (objuid x = mkUniqueId (ctx_objidx ctx) (cur r (ctx_objidx ctx))) as Eu.
  { destruct Ha as [_ Ha]. cbn. destruct (objuid x) as [xi xu]. cbn in *. congruence. }
  pose proof Hos as [_ Hslot]%vec_get_done. destruct (w_live r Hw _ os o Hslot ltac:(cbn; lia) Hp) as (_ & _ & m & Hm & Hrun).
  assert (stops x = true -> bare r o) as Hbare.
  { intros Hs m' Hm'. apply (w_stopping r Hw x o m' Hx Hs); try done. apply Ha. }
  assert (exefnc x <> call_object_on_event -> rwf (pop r)) as Hpop by (intros Hn; by apply (rwf_skip r x q)).
  assert (forall fn ev, hard (mkExec (objuid x) (chnuid x) fn ev) = true -> stops x = true -> exec_events [x] = [] -> hard x = false ->
    exists r', doPost r ctx fn ev = Done r' /\ rwf (pop r') /\ ran x r (pop r')) as Hrepost.
  { intros fn ev Hhy Hsx He Hh. destruct (doPost_spec r ctx fn ev Hw Hc) as (c & Hci & Hcd & Ed). eexists. split; [exact Ed|].
    rewrite pop_push by done. rewrite <- Eu. set (y := mkExec (objuid x) c fn ev).
    assert (exefnc y <> call_object_on_event) as Hy by (intros Ey; unfold hard in Hhy; by destruct fn). split.
    - apply rwf_exeq_push; [apply Hpop; intros Ex; unfold stops in Hsx; by rewrite Ex in Hsx| |done]. unfold y. rewrite Eu.
      apply (ctx_queue (pop r) ctx c fn ev); try done; [apply Hpop; intros Ex; unfold stops in Hsx; by rewrite Ex in Hsx|].
      intros _ o' m' Ho' Hm'. change (obj_at r (ctx_objidx ctx) = Some o') in Ho'. assert (o' = o) as -> by (cbn in Ho'; congruence). by apply (Hbare Hsx).
    - constructor; try done; [|exists []; by rewrite app_nil_r| |by rewrite Hh].
      + exists [y]. split; [done|]. intros _ _ _. exists y. split; [left|]. split; [|done]. exact Hhy.
      + rewrite He. cbn. case_decide; by rewrite app_nil_r. }
  unfold execute. destruct (exefnc x) as [fn| | | |fn [|]] eqn:Ef.
  - eexists. split; [reflexivity|]. destruct (code_ran ctx r _ (user_api fn ctx (ex_event x) r) Hne (Hpop ltac:(done)) Hc) as (H1 & H2 & _).
    split; [done|]. apply (ran_keeps x r (pop r)); try done; [|unfold stops; by rewrite Ef]. unfold exec_events. cbn. rewrite Ef. case_decide; by rewrite app_nil_r.
  - unfold object. cbn [ctx_objidx ctx]. rewrite Hos. cbn [res_bind]. rewrite Hp. cbn [of_option res_bind]. eexists. split; [reflexivity|].
    set (rd := with_history r _ _). destruct (code_ran ctx rd _ (event_api o ctx (ex_event x) rd) Hne (rwf_deliver r x q Hw E Ef Ha) Hc) as (H1 & H2 & _).
    split; [done|]. apply (ran_keeps x r (pop rd)); try done; [|unfold stops; by rewrite Ef]. rewrite decide_True by done. unfold exec_events. cbn. by rewrite Ef.
  - apply (Hrepost stop_object no_event); unfold stops, exec_events, hard; cbn; by rewrite ?Ef.
  - destruct (doStopObject_spec (pop r) ctx os o (Hpop ltac:(done)) Hc Hos Hp) as (w & E1 & H1); [apply Hbare; unfold stops; by rewrite Ef|].
    destruct (doStopObject_pop r ctx w _ _ E1) as (r' & E2 & E3). exists r'. rewrite E3. split_and!; try done.
    apply (stopped_ran x r (pop r)); try done; [apply keeps_refl|unfold exec_events; cbn; by rewrite Ef|unfold hard; by rewrite Ef].
  - apply (Hrepost (StopObjectF fn false) (ex_event x)); unfold stops, exec_events, hard; cbn; by rewrite ?Ef.
  - set (r1 := call_user fn ctx (ex_event x) r).
    destruct (code_ran ctx r r1 (user_api fn ctx (ex_event x) r) Hne (Hpop ltac:(done)) Hc) as (H1 & H2 & Hc1).
    pose proof (kp_objdq _ _ H2) as Ed. cbn in Ed. assert (stops x = true) as Hsx by (unfold stops; by rewrite Ef).
    destruct (doStopObject_spec (pop r1) ctx os o H1 Hc1) as (w & E1 & Hst); [cbn; by rewrite Ed|done| |].
    { assert (objectUid r ctx = Done (objuid x)) as Hou by (unfold objectUid; cbn; rewrite Hos; cbn; by rewrite Eu, <- Hcur).
      assert (object r ctx = Done o) as Hoo by (unfold object; cbn; rewrite Hos; cbn; by rewrite Hp).
      refine (apis_bare ctx r r1 x o (user_api fn ctx (ex_event x) r) _ Hc Hx Hsx Hou Hoo _ _ (Hbare Hsx)); [by apply Hpop| |by eexists].
      intros m' Hm'. congruence. }
    destruct (doStopObject_pop r1 ctx w _ _ E1) as (r' & E2 & E3). exists r'. rewrite E3. split_and!; try done.
    apply (stopped_ran x r (pop r1)); try done; [unfold exec_events; cbn; by rewrite Ef|unfold hard; by rewrite Ef].
Qed.

Lemma exec_front_spec r x q (now : NanoTime) : rwf r -> exeq r = x :: q ->
  exists r', exec_front r now = Done r' /\ rwf r' /\ ran x r r'.
Proof using RL.
  intros Hw E. assert (x ∈ exeq r) as Hx by (rewrite E; left). destruct (w_exec r Hw x Hx) as (H1 & _ & _ & H4).
  destruct (vec_get_in (objdq r) (uid_index (objuid x))) as (os & Hos & _); [lia|].
  destruct (vec_get_in (chdq (hs r)) (uid_index (chnuid x))) as (rcs & Hrcs & _); [lia|].
  destruct (exec_match r x os rcs Hw Hx Hos Hrcs) as [Hb1 Hb2].
  unfold exec_front. rewrite E. cbn [head of_option res_bind]. rewrite Hos. cbn [res_bind]. rewrite Hrcs. cbn [res_bind].
  destruct ((os_unique os =? uid_unique (objuid x)) && (Handlers.ch_unique rcs =? uid_unique (chnuid x))).
  - destruct (execute_spec r x q now os Hw E (Hb1 eq_refl) Hos) as (r' & -> & ?). cbn [res_bind]. by exists (pop r').
  - exists (pop r). split; [done|]. assert (exefnc x = call_object_on_event -> ~ alive r (objuid x)) as Hn.
    { intros Ef Ha. by discriminate Hb2; [rewrite Ef|]. }
    split; [by apply (rwf_skip r x q)|]. apply ran_skip; [destruct (exec_events_one x) as [?|[Ef _]]; [by left|right; by apply Hn]|].
    intros Hs Ha. discriminate Hb2; [|done]. intros fn Ef. unfold stops in Hs. by rewrite Ef in Hs.
Qed.

(** What running the first [n] stubs of the queue does: those that are events reach the objects
    that are still in afterwards. *)
Record rounds (n : nat) r r' : Prop := {
  rs_exeq : exists q, exeq r' = drop n (exeq r) ++ q
    /\ (forall x, x ∈ take n (exeq r) -> stops x = true -> hard x = false -> alive r' (objuid x) -> will_go q (objuid x));
  rs_raised : exists l, raised r' = raised r ++ l;
  rs_delivered : forall u, alive r' u -> to u (delivered r') = to u (delivered r) ++ to u (exec_events (take n (exeq r)));
  rs_alive : forall u, alive r u -> (forall x, x ∈ take n (exeq r) -> hard x = true -> objuid x <> u) -> alive r' u;
  rs_back : forall u, alive r' u -> alive r u;
  rs_gone : forall x, x ∈ take n (exeq r) -> hard x = true -> ~ alive r' (objuid x);
  rs_old : push_old r' = push_old r /\ raise_old r' = raise_old r
}.

Lemma rounds_cons x q n r1 r2 r3 : exeq r1 = x :: q -> (n <= length q)%nat -> ran x r1 r2 -> rounds n r2 r3 -> rounds (S n) r1 r3.
Proof using Type.
  intros E Hn [(q1 & A1 & A1') (l1 & A2) A3 A4 A5 A5' [A6 A7]] [(q2 & B1 & B1') (l2 & B2) B3 B4 B5 B5' [B6 B7]]. rewrite E in A1. cbn [tail] in A1.
  assert (take n (exeq r2) = take n q) as Et by (by rewrite A1, take_app_le).
  constructor; rewrite ?E; cbn [drop take]; try congruence.
  - exists (q1 ++ q2). split; [by rewrite B1, A1, drop_app_le, app_assoc|]. intros y [->|Hy]%elem_of_cons Hs Hh Ha.
    + destruct (A1' Hs Hh (A5 _ (B5 _ Ha))) as (z & ? & ?). exists z. split; [apply elem_of_app; by left|done].
    + destruct (B1' y) as (z & ? & ?); try done; [by rewrite Et|]. exists z. split; [apply elem_of_app; by right|done].
  - exists (l1 ++ l2). by rewrite B2, A2, app_assoc.
  - intros u Hu. rewrite (B3 u Hu), A3, Et, to_app. change (x :: take n q) with ([x] ++ take n q). rewrite exec_events_app, to_app, <- app_assoc.
    do 2 f_equal. case_decide as Hd; [done|]. destruct (exec_events_one x) as [->|[_ ->]]; [done|]. rewrite to_other; [done|].
    intros ->. by apply Hd, A5, B5.
  - intros u Hu Hh. apply B4; [apply A4; [done|]; intros; apply Hh; [left|done]|]. intros y Hy. rewrite Et in Hy. apply Hh. by right.
  - intros u Hu. by apply A5, B5.
  - intros y [->|Hy]%elem_of_cons Hh Ha; [by apply A5', B5|]. apply (B5' y); try done. by rewrite Et.
  - split; congruence.
Qed.

Lemma rounds_refl r : rounds 0 r r.
Proof using Type.
  constructor; try done; [exists []; cbn; split; [by rewrite app_nil_r|]|exists []; by rewrite app_nil_r|cbn; intros; by rewrite app_nil_r|];
    intros x Hx; by apply not_elem_of_nil in Hx.
Qed.

Lemma exec_loop_spec n r (now : NanoTime) : rwf r -> (n <= length (exeq r))%nat ->
  exists r', exec_loop n r now = Done r' /\ rwf r' /\ rounds n r r'.
Proof using RL.
  revert r. induction n as [|n IH]; intros r Hw Hn.
  { exists r. split_and!; try done. apply rounds_refl. }
  destruct (exeq r) as [|x q] eqn:E; [cbn in Hn; lia|]. cbn in Hn.
  destruct (exec_front_spec r x q now Hw E) as (r1 & E1 & Hw1 & Hran). pose proof (rn_exeq _ _ _ Hran) as (q1 & Eq & _). rewrite E in Eq.
  destruct (IH r1 Hw1) as (r2 & E2 & Hw2 & Hrs); [rewrite Eq, length_app; cbn; lia|]. exists r2. cbn [exec_loop]. rewrite E1. cbn [res_bind].
  split_and!; try done. apply (rounds_cons x q n r r1 r2); try done. lia.
Qed.

Lemma doCompleteExec_spec r (now : NanoTime) : rwf r -> exists r', doCompleteExec r now = Done r' /\ rwf r' /\ rounds (length (exeq r)) r r'.
Proof using RL. intros Hw. by apply exec_loop_spec. Qed.

End Run.
End ReactorRun.
