(* ===== verification/ReactorTurn.v ===== *)
(** * Rounds of the reactor

    [doWaitEvent] and [doCompleteEvents] of Reactor.v, the round of [Reactor::run] as a step
    relation with the other threads in between, and its theorems: the invariant of every
    reachable state, delivery of events, and stopping. *)

From Stdlib Require Import Permutation.
From stdpp Require Import gmap.
From S2P Require Import Prelude FrameCommon TimeStore Handlers Reactor ReactorProofs ReactorRun.
Import FrameCommon NanoTime.
Import Handlers(Addr, dummyhandler, hwf, handlers, chdq, idxreactor, call, pch, objidx).
Import Reactor ReactorProofs ReactorRun.
#[local] Open Scope res_scope.
#[local] Set Warnings "-clear-no-such-hyp".

Module ReactorTurn.

Section Turn.
Context {World Svc Ev Fn : Type} {RE : ReactorEnv World Svc Ev Fn}.

Abbreviation reactor := (Reactor World Svc Ev Fn).
Implicit Types (g : Handlers.Handlers Fn) (r : reactor) (u : UniqueId) (ctx : Context) (ev : Ev) (o a : Addr).

(** ** Taking over what other threads left *)

Lemma two_vecs_switch {A} (vs : list (list A)) crt pcrt : two_vecs vs crt pcrt ->
  two_vecs vs (Z.land (crt + 1) 1) crt /\ new_vec vs (Z.land (crt + 1) 1) = new_vec vs pcrt.
Proof. intros (Hl & [-> | ->] & ->); cbn; unfold two_vecs; auto. Qed.

Definition wait_push r : reactor :=
  let i := with_uids (inbox r) (crtidx (inbox r)) (rev (freeuidvec r) ++ uidstk (inbox r)) in
  with_inbox (with_pcrt (with_freeuidvec r []) (crtpushtskvecidx i) (pcrtraisevec r)) (with_push_switch i (Z.land (crtpushtskvecidx i + 1) 1)).

Definition wait_raise r : reactor :=
  with_inbox (with_pcrt r (pcrtpushtskvec r) (crtraisevecidx (inbox r))) (with_raise_switch (inbox r) (Z.land (crtraisevecidx (inbox r) + 1) 1)).

Lemma rwf_wait_push r : rwf r -> push_old r = [] -> raise_old r = [] ->
  rwf (wait_push r) /\ push_old (wait_push r) = push_new r /\ push_new (wait_push r) = [].
Proof.
  intros Hw Hp Hr. destruct (two_vecs_switch _ _ _ (proj1 (w_push r Hw))) as [Htv Ev']. set (r' := wait_push r).
  assert (push_old r' = push_new r) as E1 by done. assert (push_new r' = []) as E2 by (by rewrite <- Hp). split; [|done].
  assert (pushes r' = pushes r) as Eps by (unfold pushes; by rewrite E1, E2, Hp, app_nil_r).
  assert (pending r' = pending r) as Epd by (unfold pending; by rewrite Eps).
  assert (free r' ≡ₚ free r) as Efr.
  { unfold free. cbn. rewrite app_nil_r, <- Permutation_rev. apply Permutation_app_comm. }
  assert (queued r' = queued r) as Eq by (unfold queued; change (raise_old r') with (raise_old r); rewrite E1, E2, Hp, Hr; done).
  assert (forall u, issued r u -> issued r' u) as His by (intros u (? & ? & ?); unfold issued; by rewrite Epd).
  destruct Hw. constructor; try assumption; rewrite ?Epd, ?Eps, ?Eq; try assumption.
  - by split; [|rewrite E2].
  - by rewrite Efr.
  - intros u. rewrite Efr. apply w_ids0.
  - change (raise_old r') with (raise_old r). rewrite Hr. intros x ?%not_elem_of_nil. done.
  - intros u ev Hin. by eapply His, w_history0.
Qed.

Lemma rwf_wait_raise r : rwf r -> push_new r = [] -> raise_old r = [] ->
  rwf (wait_raise r) /\ raise_old (wait_raise r) = raise_new r /\ raise_new (wait_raise r) = [].
Proof.
  intros Hw Hp Hr. destruct (two_vecs_switch _ _ _ (proj1 (w_raise r Hw))) as [Htv Ev']. set (r' := wait_raise r).
  assert (raise_old r' = raise_new r) as E1 by done. assert (raise_new r' = []) as E2 by (by rewrite <- Hr). split; [|done].
  assert (queued r' = queued r) as Eq.
  { unfold queued. change (push_old r') with (push_old r). change (push_new r') with (push_new r). rewrite E1, E2, Hp, Hr. cbn. by rewrite app_nil_r. }
  destruct Hw. constructor; try assumption; rewrite ?Eq; try assumption.
  - by split; [|rewrite E2].
  - rewrite E1. intros x Hx Hc. assert (issued r (re_uid x)) as (_ & _ & H).
    { apply (w_history0 _ (re_event x)), w_queued0. unfold queued. rewrite !elem_of_app. do 4 right. unfold raise_events. apply list_elem_of_fmap. by exists x. }
    specialize (H Hc). unfold pending, pushes in H. by rewrite Hp, app_nil_r in H.
Qed.

(** The events and objects that came in since the last round are those of this one. *)
Lemma doWaitEvent_spec r : rwf r -> push_old r = [] -> raise_old r = [] ->
  exists r' b, doWaitEvent r = (r', b) /\ rwf r' /\ push_old r' = push_new r /\ raise_old r' = raise_new r
    /\ push_new r' = [] /\ raise_new r' = [] /\ objdq r' = objdq r /\ exeq r' = exeq r
    /\ raised r' = raised r /\ delivered r' = delivered r /\ (b = false -> push_old r' = [] /\ raise_old r' = []).
Proof.
  intros Hw Hp Hr. set (r0 := if must_stop (inbox r) then with_inbox (with_running r false) (with_must_stop (inbox r) false) else r).
  assert (rwf r0) as Hw0 by (unfold r0; destruct (must_stop (inbox r)); [destruct Hw; by constructor|done]).
  assert (push_old r0 = push_old r /\ raise_old r0 = raise_old r /\ push_new r0 = push_new r /\ raise_new r0 = raise_new r) as (E1 & E2 & E3 & E4)
    by (unfold r0; by destruct (must_stop (inbox r))).
  assert (objdq r0 = objdq r /\ exeq r0 = exeq r /\ raised r0 = raised r /\ delivered r0 = delivered r) as (F1 & F2 & F3 & F4)
    by (unfold r0; by destruct (must_stop (inbox r))).
  rewrite Hp in E1. rewrite Hr in E2. pose proof (w_push r0 Hw0) as [_ Hsp]. pose proof (w_raise r0 Hw0) as [_ Hsr]. rewrite E3 in Hsp. rewrite E4 in Hsr.
  set (r1 := if negb (crtpushvecsz (inbox r0) =? 0) then wait_push r0 else r0).
  assert (rwf r1 /\ push_old r1 = push_new r /\ push_new r1 = [] /\ raise_old r1 = [] /\ raise_new r1 = raise_new r
    /\ crtraisevecsz (inbox r1) = crtraisevecsz (inbox r0)) as (Hw1 & G1 & G2 & G3 & G4 & G5).
  { unfold r1. destruct (rwf_wait_push r0 Hw0 E1 E2) as (H1 & H2 & H3). destruct (Z.eqb_spec (crtpushvecsz (inbox r0)) 0) as [Hz|Hz]; cbn [negb].
    - assert (push_new r = []) as En by (apply length_zero_iff_nil; lia). rewrite En in *. split_and!; done.
    - split_and!; done. }
  destruct (rwf_wait_raise r1 Hw1 G2 G3) as (H1 & H2 & H3).
  set (r2 := if negb (crtraisevecsz (inbox r1) =? 0) then wait_raise r1 else r1).
  exists r2, (negb (crtpushvecsz (inbox r0) =? 0) || negb (crtraisevecsz (inbox r1) =? 0)).
  assert (rwf r2 /\ push_old r2 = push_new r /\ push_new r2 = [] /\ raise_old r2 = raise_new r /\ raise_new r2 = []) as (K1 & K2 & K3 & K4 & K5).
  { unfold r2. destruct (Z.eqb_spec (crtraisevecsz (inbox r1)) 0) as [Hz|Hz]; cbn [negb].
    - assert (raise_new r = []) as En by (apply length_zero_iff_nil; lia). rewrite En in *. split_and!; done.
    - split_and!; done. }
  split_and!; try done.
  - unfold doWaitEvent, r2, r1, r0. destruct (must_stop (inbox r)); cbn; destruct (crtpushvecsz (inbox r) =? 0); cbn; destruct (crtraisevecsz (inbox r) =? 0); try done; cbn; by destruct r as [? ? ? [] ? ? ? ? ? ? ? ? ?].
  - unfold r2, r1. destruct (negb (crtraisevecsz _ =? 0)), (negb (crtpushvecsz _ =? 0)); done.
  - unfold r2, r1. destruct (negb (crtraisevecsz _ =? 0)), (negb (crtpushvecsz _ =? 0)); done.
  - unfold r2, r1. destruct (negb (crtraisevecsz _ =? 0)), (negb (crtpushvecsz _ =? 0)); done.
  - unfold r2, r1. destruct (negb (crtraisevecsz _ =? 0)), (negb (crtpushvecsz _ =? 0)); done.
  - rewrite orb_false_iff, !negb_false_iff, !Z.eqb_eq. intros [Z1 Z2]. rewrite K2, K4. split; apply length_zero_iff_nil; lia.
Qed.

(** ** New objects *)

(** Slots that are not in use yet. *)
Lemma lookup_extend (v : list (ObjectStub Svc)) n (i : nat) os : (v ++ replicate n ObjectStub_new) !! i = Some os ->
  v !! i = Some os \/ (v !! i = None /\ os = ObjectStub_new).
Proof.
  intros [H|[H1 H2]]%lookup_app_Some; [by left|right]. apply lookup_replicate in H2 as [-> _]. split; [by apply lookup_ge_None|done].
Qed.

Lemma rwf_extend r n : rwf r -> Z.of_nat (length (objdq r) + n) <= crtidx (inbox r) ->
  rwf (with_objdq r (objdq r ++ replicate n ObjectStub_new)).
Proof.
  intros Hw Hn. set (r' := with_objdq _ _).
  assert (forall i, cur r' i = cur r i /\ obj_at r' i = obj_at r i) as Hco.
  { intros i. unfold cur, obj_at. change (objdq r') with (objdq r ++ replicate n ObjectStub_new). destruct (_ !! Z.to_nat i) as [os|] eqn:E.
    - apply lookup_extend in E as [->|[-> ->]]; done.
    - apply lookup_ge_None in E. rewrite length_app in E. by rewrite (proj2 (lookup_ge_None (objdq r) _)) by lia. }
  assert (forall u, issued r u -> issued r' u) as His.
  { intros u. unfold issued. destruct (Hco (uid_index u)) as [-> ->]. cbn. rewrite length_app. intros (? & ? & ?). split_and!; try done; lia. }
  destruct Hw. constructor; try assumption.
  - cbn. rewrite length_app, length_replicate. lia.
  - intros u Hu. destruct (Hco (uid_index u)) as [-> ->]. by apply w_ids0.
  - cbn. intros i os o [H|[_ ->]]%lookup_extend Hi Ho; [by apply w_live0|done].
  - intros x Hx. destruct (Hco (uid_index (objuid x))) as [-> ->]. destruct (w_exec0 x Hx) as (? & ? & ? & ?).
    split; [cbn; rewrite length_app; lia|done].
  - intros x Hx. destruct (Hco (uid_index (re_uid x))) as [-> ->]. by apply w_raised0.
  - intros u ev Hu. by eapply His, w_history0.
  - intros u Hu. apply w_fifo0. unfold alive in Hu |- *. destruct (Hco (uid_index u)) as [E1 E2]. by rewrite E1, E2 in Hu.
  - intros c st Hc Hne. destruct (Hco (objidx st)) as [_ ->]. by apply (w_handlers0 c).
  - intros x o m. destruct (Hco (uid_index (objuid x))) as [-> ->]. apply w_stopping0.
  - cbn. rewrite w_objcnt0. do 2 f_equal. destruct w_len0 as [H _]. destruct (objdq r) as [|y v]; [done|].
    change (drop 1 ((y :: v) ++ replicate n (ObjectStub_new (Svc := Svc)))) with (v ++ replicate n (ObjectStub_new (Svc := Svc))). rewrite filter_app.
    assert (filter is_live (replicate n (ObjectStub_new (Svc := Svc))) = []) as ->; [|by rewrite app_nil_r].
    clear. induction n as [|n IH]; [done|]. cbn [replicate]. by rewrite filter_cons, decide_False by (by intros []).
Qed.

Lemma live_count_start (v : list (ObjectStub Svc)) (i : nat) os os' : v !! i = Some os -> (0 < i)%nat -> is_live os = false -> is_live os' = true ->
  Z.of_nat (length (filter is_live (drop 1 (<[i := os']> v)))) = Z.of_nat (length (filter is_live (drop 1 v))) + 1.
Proof.
  intros Hi Hpos Hl Hl'. assert (i < length v)%nat by (by eapply lookup_lt_Some).
  pose proof (live_count_stop (<[i := os']> v) i os' os) as H1. rewrite list_lookup_insert_eq in H1 by done.
  rewrite list_insert_insert_eq, (list_insert_id v i os Hi) in H1. rewrite H1 by done. lia.
Qed.

(** The state with the new object [x] in the slot [i], and its first event in the queue. *)
Definition entered r (x : NewTaskStub Svc Ev) (i : nat) un c vs : reactor :=
  exeq_push (with_objcnt (with_inbox (with_objdq r (<[i := mkObjStub un (Some (nt_rsvc x)) (Some (nt_objptr x))]> (objdq r)))
    (with_push (inbox r) vs (crtpushvecsz (inbox r)))) (objcnt r + 1)) (mkExec (nt_uid x) c call_object_on_event (nt_event x)).

Lemma entered_slots r x (i : nat) os c vs : objdq r !! i = Some os -> objptr os = None ->
  (forall j, cur (entered r x i (os_unique os) c vs) j = cur r j)
  /\ (forall j, obj_at (entered r x i (os_unique os) c vs) j = if decide (Z.to_nat j = i) then Some (nt_objptr x) else obj_at r j).
Proof.
  intros Hos Hn. assert (i < length (objdq r))%nat by (by eapply lookup_lt_Some). split; intros j; unfold cur, obj_at; cbn.
  - destruct (decide (Z.to_nat j = i)) as [->|]; [by rewrite list_lookup_insert_eq, Hos|by rewrite list_lookup_insert_ne].
  - case_decide as Hd; [by rewrite Hd, list_lookup_insert_eq|by rewrite list_lookup_insert_ne].
Qed.

Lemma rwf_entered r x v (i : nat) os c vs : rwf r -> push_old r = x :: v -> uid_index (nt_uid x) = Z.of_nat i -> objdq r !! i = Some os ->
  dummyCompletionHandlerUid r = Done c -> 0 <= uid_index c < Z.of_nat (length (chdq (hs r))) ->
  two_vecs vs (crtpushtskvecidx (inbox r)) (pcrtpushtskvec r) -> new_vec vs (pcrtpushtskvec r) = v -> new_vec vs (crtpushtskvecidx (inbox r)) = push_new r ->
  rwf (entered r x i (os_unique os) c vs).
Proof.
  intros Hw Eo Ei Hos Hd Hc Htv En1 En2. set (u := nt_uid x) in *. set (un := os_unique os). set (r' := entered r x i un c vs).
  assert (pushes r = x :: pushes r') as Eps.
  { unfold pushes. rewrite Eo. change (push_old r') with (new_vec vs (pcrtpushtskvec r)). change (push_new r') with (new_vec vs (crtpushtskvecidx (inbox r))). by rewrite En1, En2. }
  assert (pending r = u :: pending r') as Epd by (unfold pending; by rewrite Eps).
  assert (queued r' = queued r) as Eq.
  { unfold queued. change (push_old r') with (new_vec vs (pcrtpushtskvec r)). change (push_new r') with (new_vec vs (crtpushtskvecidx (inbox r))).
    change (exeq r') with (exeq r ++ [mkExec u c call_object_on_event (nt_event x)]). rewrite exec_events_app, <- app_assoc, En1, En2, Eo. done. }
  destruct (w_ids r Hw u) as (Hu1 & Hu2 & Hu3); [rewrite Epd; left|]. rewrite Ei in Hu1, Hu2, Hu3.
  rewrite (obj_at_nat r i os Hos) in Hu3. rewrite (cur_nat r i os Hos) in Hu2. fold un in Hu2.
  assert (u = mkUniqueId (Z.of_nat i) un) as Euu by (rewrite <- Hu2, <- Ei; unfold u; by destruct (nt_uid x)).
  destruct (entered_slots r x i os c vs Hos Hu3) as [Hcur Hobj]. fold un r' in Hcur, Hobj. assert (i < length (objdq r))%nat as Hlt by (by eapply lookup_lt_Some).
  assert (forall j, is_Some (obj_at r j) -> is_Some (obj_at r' j)) as Hup by (intros j ?; rewrite Hobj; case_decide; done).
  assert (alive r' u) as Hau by (split; [rewrite Hobj, Ei, decide_True by lia; done|rewrite Hcur, Ei, (cur_nat r i os Hos); done]).
  assert (forall u', 0 < uid_index u' -> alive r' u' -> alive r u' \/ u' = u) as Hback.
  { intros u' Hp' [H1 H2]. rewrite Hcur in H2. rewrite Hobj in H1. case_decide as Hdd; [right|left; by split].
    destruct u' as [a b]. cbn in *. assert (a = Z.of_nat i) as -> by lia. rewrite (cur_nat r i os Hos) in H2. subst b. by rewrite Euu. }
  assert (forall u', issued r u' -> issued r' u') as His.
  { intros u' (H1 & H2 & H3). split; [apply H1|]. split.
    { rewrite Hcur. change (objdq r') with (<[i := mkObjStub un (Some (nt_rsvc x)) (Some (nt_objptr x))]> (objdq r)). by rewrite length_insert. }
    rewrite Hcur. intros H. destruct (H3 H) as [?|Hp]; [left; by apply Hup|].
    rewrite Epd in Hp. apply elem_of_cons in Hp as [->|?]; [left; apply Hau|by right]. }
  assert (obj_at r (Z.of_nat i) = None) as Hoi by (by rewrite (obj_at_nat r i os)).
  destruct (w_pend r Hw x) as (Hxe & m & Hm & Hrun); [rewrite Eps; left|].
  pose proof (w_nodup r Hw) as Hnd. rewrite Epd in Hnd. cbn in Hnd. apply NoDup_cons in Hnd as [Hnin Hnd].
  destruct Hw. constructor; try assumption.
  - split; [done|]. change (crtpushvecsz (inbox r) = Z.of_nat (length (new_vec vs (crtpushtskvecidx (inbox r))))). rewrite En2. apply w_push0.
  - change (0 < Z.of_nat (length (<[i := mkObjStub un (Some (nt_rsvc x)) (Some (nt_objptr x))]> (objdq r))) <= crtidx (inbox r)). by rewrite length_insert.
  - intros u' Hu'. destruct (w_ids0 u') as (H1 & H2 & H3); [rewrite Epd; by right|]. rewrite Hcur, Hobj. split; [done|]. split; [done|].
    rewrite decide_False; [done|]. intros E. apply Hnin. rewrite Ei, <- E, Z2Nat.id by lia. by apply list_elem_of_fmap_2.
  - cbn. intros j os' o' Hj Hj0 Ho'. apply list_lookup_insert_Some in Hj as [(<- & <- & _)|[_ Hj]]; [|by apply w_live0].
    cbn in Ho' |- *. injection Ho' as <-. split_and!; try done. exists m. split; [done|]. rewrite Hrun. by rewrite <- Euu.
  - intros y Hy. apply w_pend0. rewrite Eps. by right.
  - intros y Hy. rewrite Hcur. change (length (objdq r')) with (length (<[i := mkObjStub un (Some (nt_rsvc x)) (Some (nt_objptr x))]> (objdq r))). rewrite length_insert.
    change (exeq r') with (exeq r ++ [mkExec u c call_object_on_event (nt_event x)]) in Hy. apply elem_of_app in Hy as [Hy| ->%list_elem_of_singleton].
    + destruct (w_exec0 y Hy) as (H1 & H2 & H3 & H4). split; [lia|]. split; [done|]. split; [intros H; by apply Hup, H3|done].
    + cbn. destruct Hau as [H1 H2]. rewrite Hcur in H2. split; [lia|]. split; [lia|done].
  - intros y Hy Hf. change (dummyCompletionHandlerUid r') with (dummyCompletionHandlerUid r).
    change (exeq r') with (exeq r ++ [mkExec u c call_object_on_event (nt_event x)]) in Hy. apply elem_of_app in Hy as [Hy| ->%list_elem_of_singleton]; [by apply w_chn0|done].
  - intros y Hy. rewrite Hcur. intros H. destruct (w_raised0 y Hy H) as [?|Hp]; [left; by apply Hup|]. rewrite Eo in Hp. cbn in Hp.
    apply elem_of_cons in Hp as [->|Hp]; [left; apply Hau|right]. change (push_old r') with (new_vec vs (pcrtpushtskvec r)). by rewrite En1.
  - intros u' ev' H. by eapply His, w_history0.
  - by rewrite Eq.
  - rewrite Eq. intros u' Hu'. destruct (decide (0 < uid_index u')) as [Hp|Hp]; cycle 1.
    { assert (forall l, (forall x, x ∈ l -> x ∈ raised r) -> to u' l = []) as Hnil.
      { intros l Hl. apply to_nil. intros ev' Hin. destruct (w_history0 u' ev' (Hl _ Hin)) as (? & _). lia. }
      change (raised r') with (raised r). change (delivered r') with (delivered r).
      pose proof (w_prefix0 u') as Hpre. rewrite (Hnil (raised r)), (Hnil (queued r)) in * by (try done; by intros []; apply w_queued0).
      apply prefix_nil_inv in Hpre. by rewrite Hpre. }
    apply w_fifo0. destruct Hu' as [Hu'|Hu']; [|right; rewrite Epd; by right]. destruct (Hback u' Hp Hu') as [?| ->]; [by left|right; rewrite Epd; left].
  - intros k st Hk Hne. destruct (w_handlers0 k st Hk Hne) as (H1 & o' & m' & H2 & H3). split; [done|]. exists o', m'. split; [|done].
    rewrite Hobj, decide_False; [done|]. intros E. rewrite <- E, Z2Nat.id in Hoi by lia. congruence.
  - intros y o' m' Hy Hs. rewrite Hcur, Hobj. change (exeq r') with (exeq r ++ [mkExec u c call_object_on_event (nt_event x)]) in Hy.
    apply elem_of_app in Hy as [Hy| ->%list_elem_of_singleton]; [|done]. intros Huy. case_decide as E; [|by apply (w_stopping0 y)].
    destruct (w_exec0 y Hy) as (H1 & _ & H3 & _). destruct (H3 Huy) as [? H]. rewrite <- E, Z2Nat.id in Hoi by lia. congruence.
  - cbn. rewrite w_objcnt0. symmetry. apply (live_count_start _ i os); try done; [lia|]. unfold is_live. rewrite Hu3. by apply bool_decide_eq_false; intros [].
Qed.

Lemma activate_all_spec (ch : list Addr) r o m (i : Z) : rwf r -> 0 < i -> obj_at r i = Some o -> objects r !! o = Some m -> o <> eventobj -> ch ⊆ chain m ->
  exists g, activate_all (hs r) ch i = Done g /\ rwf (with_hs r g).
Proof.
  revert r. induction ch as [|a ch IH]; intros r Hw Hi Ho Hm Hoe Hsub.
  { exists (hs r). split; [done|]. by destruct Hw; constructor. }
  destruct (w_chain r Hw o m a Hm Hoe) as (Had & h & Hh & _); [apply Hsub; left|].
  assert (exists g, Handlers.activate (hs r) a i = Done g /\ rwf (with_hs r g)) as (g & E & Hw1).
  { unfold Handlers.activate. rewrite (Handlers.handler_at_done _ a h Hh). cbn [res_bind]. unfold Handlers.isActive.
    destruct (idxreactor h) as [c|] eqn:Ei; [rewrite bool_decide_true by done|rewrite bool_decide_false by (by intros [])]; cbn [negb].
    - exists (hs r). split; [done|]. by destruct Hw; constructor.
    - destruct (rwf_register r o m a h i) as (g & ? & ? & _); try done; [apply Hsub; left|]. by exists g. }
  destruct (IH (with_hs r g)) as (g' & E' & Hw2); try done; [set_solver|]. exists g'. cbn [activate_all]. rewrite E. cbn [res_bind]. by split.
Qed.

(** The state with the vectors [vs] of new objects and the count [n]; [complete_push] does not
    touch them. *)
Definition recount r vs n : reactor := with_objcnt (with_inbox r (with_push (inbox r) vs (crtpushvecsz (inbox r)))) n.

(** What [complete_push] adds. *)
Definition first_event c (x : NewTaskStub Svc Ev) : ExecStub Ev Fn := mkExec (nt_uid x) c call_object_on_event (nt_event x).

Record took_in (v : list (NewTaskStub Svc Ev)) c r r' : Prop := {
  ti_exeq : exeq r' = exeq r ++ map (first_event c) v;
  ti_inbox : inbox r' = inbox r;
  ti_objcnt : objcnt r' = objcnt r;
  ti_pcrt : pcrtpushtskvec r' = pcrtpushtskvec r /\ pcrtraisevec r' = pcrtraisevec r;
  ti_history : raised r' = raised r /\ delivered r' = delivered r;
  ti_alive : forall u, alive r u -> alive r' u;
  ti_new : forall x, x ∈ v -> alive r' (nt_uid x);
  ti_back : forall u, 0 < uid_index u -> alive r' u -> alive r u \/ u ∈ map nt_uid v;
  ti_dummy : dummyCompletionHandlerUid r' = Done c
}.

Lemma complete_push_spec r x v c vs0 n : rwf (recount r vs0 n) -> push_old (recount r vs0 n) = x :: v -> dummyCompletionHandlerUid r = Done c ->
  exists r' vs, complete_push r x = Done r' /\ took_in [x] c r r' /\ rwf (recount r' vs (n + 1))
    /\ push_old (recount r' vs (n + 1)) = v /\ push_new (recount r' vs (n + 1)) = push_new (recount r vs0 n).
Proof.
  intros Hw Eo Hd. set (r0 := recount r vs0 n) in *. set (u := nt_uid x). set (i := Z.to_nat (uid_index u)).
  assert (u ∈ pending r0 ++ free r0) as Hin by (unfold pending, pushes; rewrite Eo; left).
  destruct (w_ids r0 Hw u Hin) as (Hu1 & Hu2 & Hu3).
  set (v0 := if Z.of_nat (length (objdq r)) <=? uid_index u then objdq r ++ replicate (Z.to_nat (uid_index u + 1) - length (objdq r)) ObjectStub_new else objdq r).
  assert (rwf (with_objdq r0 v0)) as Hw1.
  { unfold v0. destruct (Z.leb_spec (Z.of_nat (length (objdq r))) (uid_index u)); [|by destruct Hw; constructor].
    apply (rwf_extend r0); [done|]. change (objdq r0) with (objdq r). change (crtidx (inbox r0)) with (crtidx (inbox r)) in *. lia. }
  assert (i < length v0)%nat as Hi.
  { unfold v0, i. destruct (Z.leb_spec (Z.of_nat (length (objdq r))) (uid_index u)); [rewrite length_app, length_replicate|]; lia. }
  assert (forall j os, objdq r !! j = Some os -> v0 !! j = Some os) as Hext.
  { intros j os Hj. unfold v0. destruct (_ <=? _); [by apply lookup_app_l_Some|done]. }
  assert (forall j os, v0 !! j = Some os -> objdq r !! j = Some os \/ (objdq r !! j = None /\ os = ObjectStub_new)) as Hextb.
  { intros j os. unfold v0. destruct (_ <=? _); [apply lookup_extend|by left]. }
  destruct (lookup_lt_is_Some_2 v0 i Hi) as [os Hos]. assert (uid_index u = Z.of_nat i) as Ei by (unfold i; lia).
  destruct (dummy_uid (with_objdq r0 v0) Hw1) as (c' & Hd' & Hc'). change (dummyCompletionHandlerUid r = Done c') in Hd'. assert (c' = c) as -> by congruence.
  destruct (two_vecs_clear _ _ _ v (proj1 (w_push _ Hw1))) as (vs & _ & _ & Htv & En1 & En2).
  pose proof (rwf_entered (with_objdq r0 v0) x v i os c vs Hw1 Eo Ei Hos Hd Hc' Htv En1 En2) as Hw2. set (r2 := entered _ _ _ _ _ _) in Hw2.
  destruct (w_pend r0 Hw x) as (Hxe & m & Hm & Hrun); [unfold pushes; rewrite Eo; left|].
  assert (objptr os = None) as Hno.
  { destruct (w_ids _ Hw1 u Hin) as (_ & _ & H). rewrite Ei, (obj_at_nat (with_objdq r0 v0) i os Hos) in H. done. }
  destruct (entered_slots (with_objdq r0 v0) x i os c vs Hos Hno) as [Hcur Hobj]. fold r2 in Hcur, Hobj.
  destruct (activate_all_spec (chain m) r2 (nt_objptr x) m (uid_index u) Hw2) as (g & Eg & Hw3); try done; [lia|rewrite Hobj, decide_True; [done|lia]|].
  assert (vec_get v0 (uid_index u) = Done os) as Eget by (apply vec_get_done; split; [lia|done]).
  change (hs r2) with (hs r) in Eg.
  assert (dummyCompletionHandlerUid (with_hs r2 g) = Done c) as Hdg.
  { apply (w_chn _ Hw3 (first_event c x)); [|done]. change (first_event c x ∈ exeq r ++ [first_event c x]). apply elem_of_app. right. left. }
  assert (forall y, y = u -> alive r2 y) as Hau.
  { intros y ->. split; [rewrite Hobj, decide_True by lia; done|]. rewrite Hcur. destruct (w_ids _ Hw1 u Hin) as (_ & H & _). exact H. }
  exists (exeq_push (with_hs (with_objdq r (<[i := mkObjStub (os_unique os) (Some (nt_rsvc x)) (Some (nt_objptr x))]> v0)) g) (first_event c x)), vs.
  split; [|split; [|split; [exact Hw3|split; done]]].
  - unfold complete_push. fold u v0. rewrite Eget. cbn [res_bind]. rewrite vec_set_done by lia. cbn [res_bind objects with_objdq].
    change (objects r0) with (objects r) in Hm. rewrite Hm. cbn [of_option res_bind]. rewrite Hrun. cbn [of_option res_bind hs with_objdq].
    fold u. rewrite Eg. cbn [res_bind]. unfold dummyCompletionHandlerUid in Hdg |- *. cbn [hs with_hs] in Hdg |- *. rewrite Hdg. reflexivity.
  - constructor; try done; [|intros y ->%list_elem_of_singleton; by apply Hau|].
    2: { intros y Hy [H1 H2]. change (is_Some (obj_at r2 (uid_index y))) in H1. change (uid_unique y = cur r2 (uid_index y)) in H2.
         rewrite Hcur in H2. rewrite Hobj in H1. destruct (w_ids _ Hw1 u Hin) as (_ & Hu & _). case_decide as Hdd; [right; cbn; fold u|left].
         - assert (y = u) as ->; [|left]. assert (uid_index y = uid_index u) as E by lia. rewrite E, <- Hu in H2. clear -E H2. destruct y, u. cbn in *. congruence.
         - unfold obj_at in H1. cbn in H1. unfold cur in H2. cbn in H2. unfold alive, obj_at, cur. clear -Hextb H1 H2.
           destruct (v0 !! Z.to_nat (uid_index y)) as [os'|] eqn:E; [|by destruct H1]. destruct (Hextb _ _ E) as [->|[_ ->]]; [done|by destruct H1]. }
    intros y [H1 H2].
    change (alive r2 y). split; [rewrite Hobj; case_decide; [done|]|rewrite Hcur; unfold cur in H2 |- *; cbn].
    + unfold obj_at in H1 |- *. cbn. destruct (objdq r !! Z.to_nat (uid_index y)) as [os'|] eqn:E; [|by destruct H1]. by rewrite (Hext _ _ E).
    + unfold obj_at in H1. destruct (objdq r !! Z.to_nat (uid_index y)) as [os'|] eqn:E; [|by destruct H1]. by rewrite (Hext _ _ E).
Qed.

Lemma took_in_nil c r : dummyCompletionHandlerUid r = Done c -> took_in [] c r r.
Proof. intros H. constructor; try done; [by rewrite app_nil_r|intros x ?%not_elem_of_nil; done|by left]. Qed.

Lemma took_in_cons x v c r1 r2 r3 : took_in [x] c r1 r2 -> took_in v c r2 r3 -> took_in (x :: v) c r1 r3.
Proof.
  intros [A1 A2 A3 [A4 A5] [A6 A7] A8 A9 A11 A10] [B1 B2 B3 [B4 B5] [B6 B7] B8 B9 B11 B10]. constructor; try congruence; try (split; congruence).
  - rewrite B1, A1, <- app_assoc. done.
  - intros u Hu. by apply B8, A8.
  - intros y [->|Hy]%elem_of_cons; [apply B8, A9; left|by apply B9].
  - intros u Hu Ha. destruct (B11 u Hu Ha) as [Hb|Hb]; [|right; by right]. destruct (A11 u Hu Hb) as [?| ->%list_elem_of_singleton]; [by left|right; left].
Qed.

Lemma complete_pushes_spec v : forall r c vs0 n, rwf (recount r vs0 n) -> push_old (recount r vs0 n) = v -> dummyCompletionHandlerUid r = Done c ->
  exists r' vs, complete_pushes r v = Done r' /\ took_in v c r r' /\ rwf (recount r' vs (n + Z.of_nat (length v)))
    /\ push_old (recount r' vs (n + Z.of_nat (length v))) = [] /\ push_new (recount r' vs (n + Z.of_nat (length v))) = push_new (recount r vs0 n).
Proof.
  induction v as [|x v IH]; intros r c vs0 n Hw Eo Hd.
  { exists r, vs0. cbn [length]. rewrite Z.add_0_r. split_and!; try done. by apply took_in_nil. }
  destruct (complete_push_spec r x v c vs0 n Hw Eo Hd) as (r1 & vs1 & E1 & T1 & Hw1 & Eo1 & En1).
  destruct (IH r1 c vs1 (n + 1) Hw1 Eo1 (ti_dummy _ _ _ _ T1)) as (r2 & vs2 & E2 & T2 & Hw2 & Eo2 & En2).
  replace (n + Z.of_nat (length (x :: v))) with (n + 1 + Z.of_nat (length v)) by (cbn [length]; lia).
  exists r2, vs2. cbn [complete_pushes]. rewrite E1. cbn [res_bind]. split_and!; try done; [by eapply took_in_cons|congruence].
Qed.

Lemma two_vecs_ext {A} (vs vs' : list (list A)) crt pcrt : two_vecs vs crt pcrt -> two_vecs vs' crt pcrt ->
  new_vec vs crt = new_vec vs' crt -> new_vec vs pcrt = new_vec vs' pcrt -> vs = vs'.
Proof.
  intros (H1 & Hc & ->) (H2 & _ & _). destruct vs as [|x [|y [|]]], vs' as [|x' [|y' [|]]]; try done.
  destruct Hc as [-> | ->]; unfold new_vec; intros E1 E2; cbv in E1, E2; by subst.
Qed.

(** ** Raised events *)

Definition raised_event c (x : RaiseEventStub Ev) : ExecStub Ev Fn := mkExec (re_uid x) c call_object_on_event (re_event x).

Lemma complete_raises_spec v : forall r c, dummyCompletionHandlerUid r = Done c ->
  complete_raises r v = Done (with_exeq r (exeq r ++ map (raised_event c) v)).
Proof.
  induction v as [|x v IH]; intros r c Hd; cbn [complete_raises].
  { rewrite app_nil_r. by destruct r. }
  rewrite Hd. cbn [res_bind]. rewrite (IH _ c) by done. unfold exeq_push, with_exeq. cbn. by rewrite <- app_assoc.
Qed.

Lemma exec_events_raised c v : exec_events (map (raised_event c) v) = raise_events v.
Proof. induction v as [|x v IH]; [done|]. unfold exec_events, raise_events in *. cbn. by rewrite IH. Qed.

Lemma exec_events_first c v : exec_events (map (first_event c) v) = push_events v.
Proof. induction v as [|x v IH]; [done|]. unfold exec_events, push_events in *. cbn. by rewrite IH. Qed.

Lemma rwf_raises r c vs : rwf r -> push_old r = [] -> dummyCompletionHandlerUid r = Done c ->
  two_vecs vs (crtraisevecidx (inbox r)) (pcrtraisevec r) -> new_vec vs (pcrtraisevec r) = [] -> new_vec vs (crtraisevecidx (inbox r)) = raise_new r ->
  rwf (with_inbox (with_exeq r (exeq r ++ map (raised_event c) (raise_old r))) (with_raise (inbox r) vs (crtraisevecsz (inbox r)))).
Proof.
  intros Hw Hp Hd Htv En1 En2. set (r' := with_inbox _ _). destruct (dummy_uid r Hw) as (c' & Hd' & Hc). assert (c' = c) as -> by congruence.
  assert (queued r' = queued r) as Eq.
  { unfold queued. change (push_old r') with (push_old r). change (push_new r') with (push_new r). change (raise_old r') with (new_vec vs (pcrtraisevec r)).
    change (raise_new r') with (new_vec vs (crtraisevecidx (inbox r))). change (exeq r') with (exeq r ++ map (raised_event c) (raise_old r)).
    rewrite En1, En2, exec_events_app, exec_events_raised, <- app_assoc, Hp. done. }
  assert (forall y, y ∈ exeq r' -> y ∈ exeq r \/ exists x, x ∈ raise_old r /\ y = raised_event c x) as Hex.
  { intros y. change (exeq r') with (exeq r ++ map (raised_event c) (raise_old r)). intros [?|(x & -> & Hx)%list_elem_of_fmap]%elem_of_app; [by left|right; by exists x]. }
  destruct Hw. constructor; try assumption; rewrite ?Eq; try assumption.
  - split; [done|]. change (crtraisevecsz (inbox r) = Z.of_nat (length (new_vec vs (crtraisevecidx (inbox r))))). rewrite En2. apply w_raise0.
  - intros y [Hy|(x & Hx & ->)]%Hex; [by apply w_exec0|]. cbn [objuid chnuid raised_event].
    assert (issued r (re_uid x)) as (H1 & H2 & _).
    { apply (w_history0 _ (re_event x)), w_queued0. unfold queued. rewrite !elem_of_app. do 2 right. left. unfold raise_events. apply list_elem_of_fmap. by exists x. }
    assert (uid_unique (re_uid x) = cur r (uid_index (re_uid x)) -> is_Some (obj_at r (uid_index (re_uid x)))) as H3.
    { intros H. destruct (w_raised0 x Hx H) as [?|Hin]; [done|]. rewrite Hp in Hin. by apply not_elem_of_nil in Hin. }
    change (cur r') with (cur r). change (obj_at r') with (obj_at r). change (objdq r') with (objdq r). split; [|split; [lia|done]].
    destruct H2 as [[_ H2]|H2]; [lia|]. destruct (H3 H2) as [o Ho]. destruct (obj_at_slot r _ o Ho) as (os & Hos%lookup_lt_Some & _). lia.
  - intros y [Hy|(x & Hx & ->)]%Hex Hf; [by apply w_chn0|done].
  - change (raise_old r') with (new_vec vs (pcrtraisevec r)). rewrite En1. intros x ?%not_elem_of_nil. done.
  - intros y o m [Hy|(x & Hx & ->)]%Hex; [by apply w_stopping0|done].
Qed.

(** The new objects are in, the events that came before are in the queue, after the functions
    that were there. *)
Record took_over r r' : Prop := {
  to_rwf : rwf r';
  to_empty : push_old r' = [] /\ raise_old r' = [];
  to_exeq : exists q, exeq r' = exeq r ++ q /\ (forall x, x ∈ q -> exefnc x = call_object_on_event);
  to_queue : exec_events (exeq r') = exec_events (exeq r) ++ push_events (push_old r) ++ raise_events (raise_old r);
  to_history : raised r' = raised r /\ delivered r' = delivered r;
  to_alive : forall u, alive r u -> alive r' u;
  to_new : forall x, x ∈ push_old r -> alive r' (nt_uid x);
  to_back : forall u, 0 < uid_index u -> alive r' u -> alive r u \/ u ∈ map nt_uid (push_old r)
}.

Lemma doCompleteEvents_spec r : rwf r -> exists r', doCompleteEvents r = Done r' /\ took_over r r'.
Proof.
  intros Hw. destruct (w_push r Hw) as [Htp _]. destruct (w_raise r Hw) as [Htr _]. destruct (dummy_uid r Hw) as (c & Hd & _).
  destruct (two_vecs_clear _ _ _ [] Htp) as (vp & Gp & Sp & Tp & Np1 & Np2). destruct (two_vecs_clear _ _ _ [] Htr) as (vr & Gr & Sr & Tr & Nr1 & Nr2).
  fold (push_old r) in Gp. fold (raise_old r) in Gr. unfold doCompleteEvents. rewrite Gp. cbn [res_bind]. rewrite Gr. cbn [res_bind].
  set (r0 := with_objcnt r _).
  destruct (complete_pushes_spec (push_old r) r0 c (pushtskvec (inbox r)) (objcnt r)) as (r1 & vs & E1 & T1 & Hw1 & Eo1 & En1); [by destruct Hw; constructor|done|done|].
  rewrite E1. cbn [res_bind]. set (n := objcnt r + Z.of_nat (length (push_old r))) in *. destruct T1 as [A1 A2 A3 [A4 A5] [A6 A7] A8 A9 A11 A10].
  cbn in A1, A2, A3, A4, A5, A6, A7. rewrite A2, A4, Sp. cbn [res_bind]. assert (vs = vp) as ->.
  { pose proof (proj1 (w_push _ Hw1)) as Htv. cbn in Htv. rewrite A2, A4 in Htv. unfold push_old, push_new in Eo1, En1. cbn in Eo1, En1. rewrite A4 in Eo1. rewrite A2 in En1.
    apply (two_vecs_ext _ _ (crtpushtskvecidx (inbox r)) (pcrtpushtskvec r)); try done; [by rewrite En1, Np2|by rewrite Eo1, Np1]. }
  rewrite (complete_raises_spec _ _ c) by done. cbn [res_bind inbox with_inbox with_exeq pcrtraisevec with_push raisevec]. rewrite A5, Sr. cbn [res_bind].
  eexists. split; [reflexivity|].
  assert (raise_old (recount r1 vp n) = raise_old r) as Er by (unfold raise_old; cbn; by rewrite A2, A5).
  pose proof (rwf_raises (recount r1 vp n) c vr Hw1 Eo1 A10) as Hw2. cbn in Hw2. rewrite A2, A5, Er in Hw2.
  specialize (Hw2 Tr Nr1). specialize (Hw2 ltac:(unfold raise_new; cbn; by rewrite A2, Nr2)). set (r2 := with_inbox _ _) in Hw2. set (r3 := with_inbox _ _).
  assert (r3 = r2) as ->.
  { unfold r3, r2, recount, with_inbox, with_exeq, with_objcnt, with_raise, with_push. cbn. by rewrite ?A2, A3. }
  assert (exeq r2 = exeq r ++ map (first_event c) (push_old r) ++ map (raised_event c) (raise_old r)) as Ex.
  { change (exeq r2) with (exeq r1 ++ map (raised_event c) (raise_old r)). by rewrite A1, <- app_assoc. }
  constructor; try done.
  - unfold push_old, raise_old. cbn. by rewrite A4, A5.
  - eexists. split; [exact Ex|]. intros x [(y & -> & _)%list_elem_of_fmap|(y & -> & _)%list_elem_of_fmap]%elem_of_app; done.
  - rewrite Ex, !exec_events_app, exec_events_first, exec_events_raised. done.
Qed.

End Turn.
End ReactorTurn.
