(* ===== verification/ReactorTimer.v ===== *)
(** * The timers of the reactor

    [doCompleteTimer] of Reactor.v: every timer that is due is taken out of the store and its
    function called. *)

From Stdlib Require Import Permutation.
From stdpp Require Import gmap.
From S2P Require Import Prelude FrameCommon TimeStore Handlers Reactor ReactorProofs ReactorRun.
Import FrameCommon NanoTime.
Import Handlers(Addr, dummyhandler, hwf, handlers, chdq, idxreactor, call, pch, objidx).
Import Reactor ReactorProofs ReactorRun.
#[local] Open Scope res_scope.
#[local] Existing Instance Handlers.store_in_handlers.

Module ReactorTimer.

Section Timer.
Context {World Svc Ev Fn : Type} {RE : ReactorEnv World Svc Ev Fn}.

Abbreviation reactor := (Reactor World Svc Ev Fn).
Abbreviation tv g := (TimeStore.tv (Handlers.timestore g)).
Implicit Types (g : Handlers.Handlers Fn) (r : reactor) (ctx : Context) (now : NanoTime).

Lemma pop_at_hs r (i : Z) g : TimeStore.pop_at (hs r) i Handlers.doUpdateTimerIndex = Done g ->
  TimeStore.pop_at r i doUpdateTimerIndex = Done (with_hs r g).
Proof.
  unfold TimeStore.pop_at. cbn [TimeStore.get_store store_in_reactor Handlers.store_in_handlers TimeStore.put_store].
  intros (v & E & H)%res_bind_done. rewrite E. cbn [res_bind]. destruct (i <? Z.of_nat (length v)).
  - apply res_bind_done in H as (e & E1 & H). rewrite E1. cbn [res_bind]. unfold doUpdateTimerIndex. cbn [hs with_hs]. by rewrite H.
  - by injection H as <-.
Qed.

(** The context a timer's function runs in: its object is in. *)
Lemma timer_ctx r now (c : nat) st a : rwf r -> chdq (hs r) !! c = Some st -> pch st = a -> a <> dummyhandler ->
  ctx_ok r (mkContext now (Z.of_nat c) (objidx st)).
Proof. intros Hw Hc <- Ha. destruct (w_handlers r Hw c st Hc Ha) as (H & o & m & Ho & _). split; [done|by eexists]. Qed.

(** A timer that is due: it leaves the store, its handler is idle, and its function is called
    in the context of its object. *)
Lemma fire_spec r now (n : nat) t c : rwf r -> tv (hs r) !! n = Some (t, c) ->
  exists a fn g ctx, (let! r := TimeStore.pop_at r (Z.of_nat n) doUpdateTimerIndex in onTimer now (Z.of_nat n) c r) = Done (call_timer fn ctx (with_hs r g))
    /\ (exists h, handlers (hs r) !! a = Some h /\ Handlers.waiting h c n /\ Handlers.f h = Some (Handlers.TimerUser fn))
    /\ rwf (with_hs r g) /\ ctx_ok (with_hs r g) ctx /\ ctx_time ctx = now /\ ctx_chnidx ctx = c
    /\ TimeStore.swap_remove (tv (hs r)) (Z.of_nat n) = Done (tv g)
    /\ (exists h, handlers g !! a = Some h /\ Handlers.f h = None).
Proof.
  intros Hw Hn. destruct (Handlers.expire_spec (hs r) n t c (w_hs r Hw) Hn) as (a & h & fn & st & g1 & g2 & Ha & Hwt & Hf & E1 & Est & Est' & Hpch & E2 & Hg2 & Esw & Ec & _ & Ha2 & Ho).
  exists a, fn, g2, (mkContext now c (objidx st)). rewrite (pop_at_hs r _ g1 E1). cbn [res_bind]. unfold onTimer. cbn [hs with_hs]. rewrite Est. cbn [res_bind].
  rewrite Hpch, E2. cbn [res_bind]. split; [done|]. split; [by exists h|].
  assert (rwf (with_hs r g2)) as Hw2 by (apply rwf_fewer; [done|]; by eapply fewer_others). split; [done|]. split; [|split_and!; try done; by eexists].
  apply vec_get_done in Est' as [Hc0 Hst]. destruct (Handlers.tb_dummy _ (Handlers.hw_table _ (w_hs r Hw))) as (d & Hd & Hcd & _).
  assert (a <> dummyhandler) as Had by (intros ->; pose proof (Handlers.wt_call _ _ _ Hwt); congruence).
  rewrite <- (Z2Nat.id c) at 1 by done. apply (timer_ctx (with_hs r g2) now _ st a); try done. cbn. by rewrite Ec.
Qed.

(** The time of the next timer is not part of the invariant. *)
Lemma rwf_mint r (s : TimeStore.TimeStore Z) : rwf r -> TimeStore.tv s = tv (hs r) -> rwf (with_hs r (Handlers.with_timestore (hs r) s)).
Proof.
  intros Hw E. destruct (w_hs r Hw) as [Ht [H1 H2]]. apply rwf_fewer; [done|]. constructor; try done; eauto.
  constructor; [by apply Handlers.table_with_timestore|]. constructor; cbn; rewrite E; done.
Qed.

Lemma keeps_hs r g : keeps r (with_hs r g).
Proof. by apply keeps_same. Qed.

(** The timers do nothing undefined, whatever their functions do. *)
Lemma doCompleteTimer_safe {RL : ReactorEnvLaws RE} (fuel : nat) r now : rwf r ->
  doCompleteTimer fuel r now = NoFuel \/ exists r', doCompleteTimer fuel r now = Done r' /\ rwf r' /\ keeps r r'.
Proof.
  intros Hw. apply (TimeStore.pop_safe now (onTimer now) doUpdateTimerIndex (fun s => rwf s /\ keeps r s)); [| |split; [done|apply keeps_refl]].
  - intros s n [t c] [Hs Hk] Hn _. destruct (fire_spec s now n t c Hs Hn) as (a & fn & g & ctx & E & _ & Hg & Hc & _).
    exists (call_timer fn ctx (with_hs s g)). split; [exact E|]. destruct (apis_rwf ctx _ _ Hg Hc (timer_api fn ctx (with_hs s g))) as (H1 & _ & H2).
    split; [done|]. eapply keeps_trans; [exact Hk|]. eapply keeps_trans; [apply keeps_hs|exact H2].
  - intros x s [Hs Hk] E. split; [by apply rwf_mint|]. eapply keeps_trans; [exact Hk|apply keeps_hs].
Qed.

(** Functions of timers that may wait again, for a time that is not due, and touch no other
    timer; [log] is what the objects write down of the timers that fired. *)
Record WaitsOnly now (k : nat) (log : World -> list Z) : Prop := {
  wo_log fn ctx r : ctx_time ctx = now -> log (world (call_timer fn ctx r)) = log (world r) ++ [ctx_chnidx ctx];
  wo_wait fn ctx r : ctx_time ctx = now -> rwf r -> ctx_ok r ctx ->
    exists news, tv (hs (call_timer fn ctx r)) = tv (hs r) ++ news /\ Forall (TimeStore.later now) news /\ (length news <= k)%nat
}.

Lemma fire_all {RL : ReactorEnvLaws RE} (fuel : nat) r now k log : rwf r -> WaitsOnly now k log ->
  (TimeStore.work now k (tv (hs r)) < fuel)%nat ->
  exists r' news fs, doCompleteTimer fuel r now = Done r' /\ rwf r' /\ keeps r r'
    /\ log (world r') = log (world r) ++ fs /\ fs ≡ₚ TimeStore.dues now (tv (hs r))
    /\ tv (hs r') ≡ₚ filter (TimeStore.later now) (tv (hs r)) ++ news /\ Forall (TimeStore.later now) news
    /\ TimeStore.least (TimeStore.mint (Handlers.timestore (hs r'))) (tv (hs r')).
Proof.
  intros Hw Hwo Hfuel.
  destruct (TimeStore.pop_spec now (onTimer now) doUpdateTimerIndex (fun s => rwf s /\ keeps r s) (fun s => log (world s)) k fuel r)
    as (r' & news & fs & E & [H1 H2] & H3 & H4 & H5 & H6 & H7).
  - intros s n [t c] [Hs Hk] Hn _. destruct (fire_spec s now n t c Hs Hn) as (a & fn & g & ctx & E & _ & Hg & Hc & Et & Ec & Esw & _).
    destruct (wo_wait _ _ _ Hwo fn ctx _ Et Hg Hc) as (news & Ew & Hl & Hlen).
    exists (call_timer fn ctx (with_hs s g)), (tv g), news. destruct (apis_rwf ctx _ _ Hg Hc (timer_api fn ctx (with_hs s g))) as (H1 & _ & H2).
    split_and!; try done.
    + rewrite (wo_log _ _ _ Hwo) by done. by rewrite Ec.
    + eapply keeps_trans; [exact Hk|]. eapply keeps_trans; [apply keeps_hs|exact H2].
  - intros x s [Hs Hk] Ex. split; [by apply rwf_mint|]. eapply keeps_trans; [exact Hk|apply keeps_hs].
  - done.
  - split; [done|apply keeps_refl].
  - done.
  - exists r', news, fs. split_and!; done.
Qed.

End Timer.
End ReactorTimer.
