(* ===== verification/ReactorLife.v ===== *)
(** * The life of a reactor

    [Reactor::run] from its start, with the other threads in between: what holds in every state
    it can reach, that a round delivers all events raised before it, and how an object leaves. *)

From Stdlib Require Import Permutation.
From stdpp Require Import gmap.
From S2P Require Import Prelude FrameCommon TimeStore Handlers Reactor ReactorProofs ReactorRun ReactorTurn ReactorTimer.
Import FrameCommon NanoTime.
Import Handlers(Addr, dummyhandler, hwf, handlers, chdq, idxreactor, call, pch, objidx).
Import Reactor ReactorProofs ReactorRun ReactorTurn ReactorTimer.
#[local] Open Scope res_scope.
#[local] Set Warnings "-clear-no-such-hyp".

Module ReactorLife.

Section Life.
Context {World Svc Ev Fn : Type} {RE : ReactorEnv World Svc Ev Fn}.

Abbreviation reactor := (Reactor World Svc Ev Fn).
Abbreviation tv g := (TimeStore.tv (Handlers.timestore g)).
Implicit Types (r : reactor) (u : UniqueId) (ctx : Context) (ev : Ev) (o a : Addr) (p : Phase).

(** ** Other threads *)

Inductive outside : reactor -> reactor -> Prop :=
  | out_world r w : outside r (with_world r w)
  | out_object r o : objects r !! o = None -> outside r (with_objects r (<[o := mkObject None []]> (objects r)))
  | out_object_timer r o m a r' :
      handlers (hs r) !! a = None -> objects r !! o = Some m -> runId m = None -> new_timer r o a = Done r' -> outside r r'
  | out_raise r u ev r' : issued r u -> raise r u ev = Done r' -> outside r r'
  | out_push r o m svc ev r' u : objects r !! o = Some m -> runId m = None -> push r o svc ev = Done (r', u) -> outside r r'
  | out_stop r : outside r (Reactor.stop r).

(** An object does at least as much. *)
Lemma outside_api ctx r r' : outside r r' -> api ctx r r'.
Proof. destruct 1; econstructor; eassumption. Qed.

Lemma outside_rwf r r' : rwf r -> outside r r' -> rwf r' /\ keeps r r'.
Proof.
  intros Hw H. split; [|by apply (api_keeps (mkContext maximum 0 0)), outside_api].
  destruct H as [r w|r o Ho|r o m a r' Ha Hm Hr E|r u ev r' Hu E|r o m svc ev r' u Hm Hr E|r].
  - by destruct Hw; constructor.
  - by apply rwf_object.
  - by eapply new_timer_idle.
  - destruct (raise_spec r u ev Hw Hu) as (r1 & E1 & Hw1 & _). congruence.
  - destruct (push_spec r o m svc ev Hw Hm Hr) as (r1 & u1 & E1 & Hw1 & _). congruence.
  - by destruct Hw; constructor.
Qed.

Lemma outsides_rwf r r' : rwf r -> rtc outside r r' -> rwf r' /\ keeps r r'.
Proof.
  intros Hw H. induction H as [r|r1 r2 r3 H _ IH]; [split; [done|apply keeps_refl]|].
  destruct (outside_rwf r1 r2 Hw H) as [Hw2 Hk]. destruct (IH Hw2). split; [done|]. by eapply keeps_trans.
Qed.

(** ** Steps *)

Inductive step : Phase * reactor -> Phase * reactor -> Prop :=
  | step_outside p r r' : outside r r' -> step (p, r) (p, r')
  | step_next fuel now p r s : next fuel now p r = Done s -> step (p, r) s.

(** The reactor has taken care of what it took over. *)
Definition settled r : Prop := push_old r = [] /\ raise_old r = [].

Definition sinv (s : Phase * reactor) : Prop := rwf s.2 /\ match s.1 with AtEvents true => True | _ => settled s.2 end.

Lemma keeps_settled r r' : keeps r r' -> settled r -> settled r'.
Proof. intros [_ _ _ _ _ [E1 E2]]. unfold settled. by rewrite E1, E2. Qed.

Context {RL : ReactorEnvLaws RE}.

(** Each call does nothing undefined, and keeps the invariant. *)
Lemma next_sinv fuel now p r : sinv (p, r) -> next fuel now p r = NoFuel \/ exists s, next fuel now p r = Done s /\ sinv s.
Proof using RL.
  intros [Hw Hs]. cbn in Hw, Hs. destruct p as [|[]| | |]; cbn [next].
  - destruct Hs as [H1 H2]. destruct (doWaitEvent_spec r Hw H1 H2) as (r' & b & -> & Hw' & _ & _ & _ & _ & _ & _ & _ & _ & Hb).
    right. eexists. split; [reflexivity|]. split; [done|]. destruct b; [done|by apply Hb].
  - destruct (doCompleteEvents_spec r Hw) as (r' & -> & Ht). cbn [res_bind]. right. eexists. split; [reflexivity|]. split; apply Ht.
  - right. by eexists.
  - destruct (doCompleteTimer_safe fuel r now Hw) as [->|(r' & -> & Hw' & Hk)]; [by left|right]. cbn [res_bind]. eexists. split; [reflexivity|].
    split; [done|]. by eapply keeps_settled.
  - destruct (doCompleteExec_spec r now Hw) as (r' & -> & Hw' & Hrs). cbn [res_bind]. right. eexists. split; [reflexivity|]. split; [done|].
    destruct (rs_old _ _ _ Hrs) as [E1 E2]. assert (settled r') as ? by (unfold settled; by rewrite E1, E2). by destruct (keeps_running r').
  - right. by eexists.
Qed.

Lemma step_sinv s s' : sinv s -> step s s' -> sinv s'.
Proof using RL.
  intros Hs H. destruct H as [p r r' H|fuel now p r s' E].
  - destruct Hs as [Hw Hs]. cbn in *. destruct (outside_rwf r r' Hw H) as [Hw' Hk]. split; [done|]. cbn. destruct p as [|[]| | |]; try done; by eapply keeps_settled.
  - destruct (next_sinv fuel now p r Hs) as [?|(s1 & ? & ?)]; congruence.
Qed.

Lemma steps_sinv s s' : sinv s -> rtc step s s' -> sinv s'.
Proof using RL. intros Hs H. induction H as [|s1 s2 s3 H _ IH]; [done|]. by apply IH, (step_sinv s1). Qed.

(** ** The start *)

Definition started (w : World) : reactor :=
  mkReactor (Handlers.mkHandlers {[ dummyhandler := Handlers.mkHandler (Some 0) Handlers.dummy_completion None None ]} [Handlers.mkChStub dummyhandler 0 0] [] TimeStore.TimeStore_new)
    {[ eventobj := mkObject (Some (mkUniqueId 0 0)) [dummyhandler] ]} w
    (mkInbox false 0 0 0 0 [[]; []] [[]; []] 1 []) true 0 1 1 [] [mkObjStub 0 None (Some eventobj)] [] [] [].

Lemma start_spec (w : World) : start (Reactor_new w) = Done (started w).
Proof using Type. reflexivity. Qed.

Lemma started_sinv (w : World) : sinv (AtWait, started w).
Proof using Type.
  split; [|done]. cbn [snd]. constructor; try done;
    cbn [started hs objects inbox objdq exeq raised Handlers.handlers Handlers.chdq pushtskvec raisevec crtpushtskvecidx crtraisevecidx pcrtpushtskvec pcrtraisevec crtidx].
  - constructor; constructor; cbn [Handlers.handlers Handlers.chdq Handlers.timestore TimeStore.TimeStore_new TimeStore.tv].
    + eexists. split; [reflexivity|done].
    + intros [|c] st; [|done]. by intros [= <-].
    + intros a h i [<- <-]%lookup_singleton_Some [= <-]. by exists 0%nat, (Handlers.mkChStub dummyhandler 0 0).
    + by intros a h [<- <-]%lookup_singleton_Some.
    + done.
    + intros n t c _ H. by rewrite lookup_nil in H.
    + by intros a h i _ [<- <-]%lookup_singleton_Some.
  - eexists. split; [reflexivity|by eexists].
  - do 2 eexists. split; reflexivity.
  - split; [|done]. split_and!; auto.
  - split; [|done]. split_and!; auto.
  - constructor.
  - intros u ?%not_elem_of_nil. done.
  - intros [|i] os o; [lia|done].
  - intros x ?%not_elem_of_nil. done.
  - intros x ?%not_elem_of_nil. done.
  - intros x ?%not_elem_of_nil. done.
  - intros x ?%not_elem_of_nil. done.
  - intros u ev ?%not_elem_of_nil. done.
  - intros [|c] st; [|done]. by intros [= <-].
  - by intros o m a [<- <-]%lookup_singleton_Some.
  - intros x o m ?%not_elem_of_nil. done.
Qed.

(** ** A round *)

(** One turn of the loop of [run], with the other threads between its calls. *)
Record round r (p : Phase) r' : Prop := {
  rd_round : exists fuel t1 t2 t3 b r1 r2 r3 r4 r5 r6,
    next fuel t1 AtWait r = Done (AtEvents b, r1) /\ rtc outside r1 r2
    /\ next fuel t1 (AtEvents b) r2 = Done (AtTimers, r3) /\ rtc outside r3 r4
    /\ next fuel t2 AtTimers r4 = Done (AtExec, r5) /\ rtc outside r5 r6
    /\ next fuel t3 AtExec r6 = Done (p, r')
}.

(** The state in which the round runs its functions. *)
Record before_exec r r' : Prop := {
  be_rwf : rwf r';
  be_settled : settled r';
  be_exeq : exists q, exeq r' = exeq r ++ q /\ (forall x, x ∈ q -> hard x = false);
  be_events : exec_events (exeq r') = queued r;
  be_delivered : delivered r' = delivered r;
  be_raised : exists l, raised r' = raised r ++ l;
  be_alive : forall u, alive r u -> alive r' u;
  be_back : forall u, 0 < uid_index u -> alive r' u -> alive r u \/ u ∈ pending r
}.

Lemma quiet_events (q : list (ExecStub Ev Fn)) : Forall quiet q -> exec_events q = [].
Proof using Type.
  induction 1 as [|x q Hx _ IH]; [done|]. unfold exec_events in *. cbn. unfold quiet in Hx. destruct (exefnc x) as [| | | |? []]; done.
Qed.

Lemma quiet_soft (x : ExecStub Ev Fn) : quiet x -> hard x = false.
Proof using Type. unfold quiet, hard. by destruct (exefnc x) as [| | | |? []]. Qed.

Lemma before_keeps r r1 r2 : before_exec r r1 -> rwf r2 -> keeps r1 r2 -> before_exec r r2.
Proof using Type.
  intros [A1 A2 (q & A3 & A3') A4 A5 (l & A6) A7 A8] Hw Hk. pose proof Hk as [K1 (q' & K2 & K2') (l' & K3) K4 K5 [K6 K7]].
  assert (forall u, alive r2 u <-> alive r1 u) as Hal by (intros u; unfold alive, obj_at, cur; by rewrite K1). constructor; try done.
  - by eapply keeps_settled.
  - exists (q ++ q'). split; [by rewrite K2, A3, app_assoc|]. intros x [?|Hx]%elem_of_app; [by apply A3'|]. rewrite Forall_forall in K2'. by apply quiet_soft, K2'.
  - by rewrite K2, exec_events_app, (quiet_events q' K2'), app_nil_r.
  - congruence.
  - exists (l ++ l'). by rewrite K3, A6, app_assoc.
  - intros u Hu. by apply Hal, A7.
  - intros u Hi Hu. by apply A8, Hal.
Qed.

Lemma events_before r r1 r2 r3 b : rwf r -> settled r -> doWaitEvent r = (r1, b) -> rtc outside r1 r2 ->
  next 0 maximum (AtEvents b) r2 = Done (AtTimers, r3) -> before_exec r r3.
Proof using Type.
  intros Hw [H1 H2] Ewait Hout E. destruct (doWaitEvent_spec r Hw H1 H2) as (r1' & b' & Ew & Hw1 & Ep & Er & Epn & Ern & Ed & Ex & Era & Ede & Hb).
  rewrite Ewait in Ew. injection Ew as <- <-. destruct (outsides_rwf r1 r2 Hw1 Hout) as [Hw2 [K1 (q & K2 & Kq) (l & K3) K4 _ [K6 K7]]].
  assert (forall u, alive r2 u <-> alive r u) as Hal by (intros u; unfold alive, obj_at, cur; by rewrite K1, Ed).
  assert (took_over r2 r3) as [T1 T2 (q2 & T3 & T3') T4 [T5 T6] T7 T8 T9].
  { destruct b; cbn [next] in E.
    - destruct (doCompleteEvents_spec r2 Hw2) as (r3' & E3 & Ht). rewrite E3 in E. injection E as <-. done.
    - injection E as <-. destruct (Hb eq_refl) as [B1 B2]. rewrite B1 in K6. rewrite B2 in K7. constructor; try done.
      + exists []. rewrite app_nil_r. split; [done|]. intros x ?%not_elem_of_nil. done.
      + rewrite K6, K7. by rewrite app_nil_r.
      + intros x Hx. rewrite K6 in Hx. by apply not_elem_of_nil in Hx.
      + by left. }
  assert (forall x, x ∈ q -> hard x = false) as Hq by (intros x Hx; rewrite Forall_forall in Kq; by apply quiet_soft, Kq).
  constructor; try done.
  - exists (q ++ q2). split; [by rewrite T3, K2, Ex, app_assoc|]. intros x [?|Hx]%elem_of_app; [by apply Hq|]. unfold hard. by rewrite (T3' x Hx).
  - rewrite T4, K2, exec_events_app, (quiet_events q Kq), app_nil_r, Ex, K6, K7, Ep, Er. unfold queued. by rewrite H1, H2.
  - congruence.
  - exists l. congruence.
  - intros u Hu. by apply T7, Hal.
  - intros u Hi Hu. destruct (T9 u Hi Hu) as [?|Hp]; [left; by apply Hal|right]. unfold pending, pushes. rewrite H1. cbn [app]. by rewrite <- Ep, <- K6.
Qed.

Lemma round_spec r p r' : sinv (AtWait, r) -> round r p r' ->
  exists r6, before_exec r r6 /\ rwf r' /\ settled r' /\ rounds (length (exeq r6)) r6 r' /\ p = if keeps_running r' then AtWait else AtExit.
Proof using RL.
  intros [Hw Hs] [(fuel & t1 & t2 & t3 & b & r1 & r2 & r3 & r4 & r5 & r6 & E1 & O1 & E2 & O2 & E3 & O3 & E4)]. cbn in Hw, Hs.
  cbn [next] in E1. destruct (doWaitEvent r) as [r1' b'] eqn:Ew. injection E1 as <- <-.
  assert (before_exec r r3) as B3 by (by apply (events_before r r1' r2 r3 b')).
  destruct (outsides_rwf r3 r4 (be_rwf _ _ B3) O2) as [Hw4 K4]. pose proof (before_keeps r r3 r4 B3 Hw4 K4) as B4.
  cbn [next] in E3. destruct (doCompleteTimer_safe fuel r4 t2 Hw4) as [Et|(r5' & Et & Hw5 & K5)]; rewrite Et in E3; cbn [res_bind] in E3; [done|]. injection E3 as <-.
  pose proof (before_keeps r r4 r5' B4 Hw5 K5) as B5. destruct (outsides_rwf r5' r6 Hw5 O3) as [Hw6 K6]. pose proof (before_keeps r r5' r6 B5 Hw6 K6) as B6.
  cbn [next] in E4. destruct (doCompleteExec_spec r6 t3 Hw6) as (r7 & E & Hw7 & Hrs). rewrite E in E4. cbn [res_bind] in E4. injection E4 as <- <-.
  exists r6. split_and!; try done. destruct (rs_old _ _ _ Hrs) as [G1 G2]. unfold settled. rewrite G1, G2. apply B6.
Qed.

Lemma round_delivered r p r' u : sinv (AtWait, r) -> round r p r' -> alive r' u -> to u (raised r) `prefix_of` to u (delivered r').
Proof using RL.
  intros Hs Hr Ha. destruct (round_spec r p r' Hs Hr) as (r6 & B & _ & _ & Hrs & _). destruct Hs as [Hw [S1 S2]]. cbn in Hw, S1, S2.
  destruct (decide (0 < uid_index u)) as [Hi|Hi]; cycle 1.
  { rewrite (to_nil u (raised r)); [by exists (to u (delivered r'))|]. intros ev Hin. destruct (w_history r Hw u ev Hin) as (? & _). lia. }
  rewrite (rs_delivered _ _ _ Hrs u Ha), firstn_all, (be_events _ _ B), (be_delivered _ _ B), <- (w_fifo r Hw u); [done|].
  by apply (be_back _ _ B), (rs_back _ _ _ Hrs).
Qed.

(** ** What holds of every reactor *)

Definition reachable (s : Phase * reactor) : Prop := exists w r0, start (Reactor_new w) = Done r0 /\ rtc step (AtWait, r0) s.

Lemma reachable_sinv s : reachable s -> sinv s.
Proof using RL. intros (w & r0 & E & H). rewrite start_spec in E. injection E as <-. by apply (steps_sinv (AtWait, started w)), H; apply started_sinv. Qed.

(** C2: From its start, whatever its objects and the other threads do, the thread of the reactor
    never does anything undefined, and its tables stay consistent: ids of objects are unique and
    not reused while in use, every function in the queue and every timer leads to the object and
    the handler it belongs to, the count of objects is right. An object may do what [api] says: it
    destroys no timer, and makes none after it asked to be stopped. *)
Theorem reactor_safe p r : reachable (p, r) -> rwf r /\ forall fuel now, next fuel now p r <> Undef.
Proof using RL.
  intros Hr%reachable_sinv. split; [apply Hr|]. intros fuel now. destruct (next_sinv fuel now p r Hr) as [->|(s & -> & _)]; done.
Qed.

(** C9: Events reach their objects in the order they were raised, none twice; those of an object
    that is in are either delivered or still on their way. *)
Theorem events_in_order p r u : reachable (p, r) ->
  to u (delivered r) `prefix_of` to u (raised r) /\ (alive r u -> to u (raised r) = to u (delivered r) ++ to u (queued r)).
Proof using RL. intros [Hw _]%reachable_sinv. split; [apply Hw|]. intros Ha. apply Hw. by left. Qed.

(** C11: A round of the reactor delivers every event that was raised before it, to every object
    that is in after it. *)
Theorem round_delivers r p r' u : reachable (AtWait, r) -> round r p r' -> alive r' u ->
  to u (raised r) `prefix_of` to u (delivered r').
Proof using RL. intros Hr%reachable_sinv. by apply round_delivered. Qed.

Lemma round_goes r p r' u x : sinv (AtWait, r) -> round r p r' -> x ∈ exeq r -> objuid x = u ->
  (hard x = true -> ~ alive r' u) /\ (stops x = true -> hard x = false -> alive r' u -> will_go (exeq r') u).
Proof using RL.
  intros Hs Hr Hx <-. destruct (round_spec r p r' Hs Hr) as (r6 & B & _ & _ & Hrs & _). destruct (be_exeq _ _ B) as (q & Eq & _).
  assert (x ∈ take (length (exeq r6)) (exeq r6)) as Hin by (rewrite firstn_all, Eq; apply elem_of_app; by left). split.
  - intros Hh. by apply (rs_gone _ _ _ Hrs).
  - intros Hst Hh Ha. destruct (rs_exeq _ _ _ Hrs) as (q' & E' & Hgo). destruct (Hgo x Hin Hst Hh Ha) as (y & ? & ?). exists y. split; [|done].
    rewrite E'. apply elem_of_app. by right.
Qed.

Lemma round_stays r p r' u : sinv (AtWait, r) -> round r p r' -> alive r u -> ~ will_go (exeq r) u -> alive r' u.
Proof using RL.
  intros Hs Hr Ha Hn. destruct (round_spec r p r' Hs Hr) as (r6 & B & _ & _ & Hrs & _). destruct (be_exeq _ _ B) as (q & Eq & Hq).
  apply (rs_alive _ _ _ Hrs); [by apply (be_alive _ _ B)|]. rewrite firstn_all, Eq. intros x [Hx|Hx]%elem_of_app Hh.
  - intros E. apply Hn. by exists x.
  - specialize (Hq x Hx). congruence.
Qed.

(** C16: An object that has asked to be stopped, from a function that the reactor runs out of its
    queue and not from the function of a timer, and that is not being taken out already, is in for
    one more round and gets all the events raised before it; it is out after the round that
    follows, and the reactor runs at least that long. (A stop from the function of a timer takes the
    object out at once, and can lose an event: ReactorExample.v.) *)
Theorem stop_protocol r u x p1 r1 r2 p2 r3 : reachable (AtWait, r) -> alive r u ->
  x ∈ exeq r -> objuid x = u -> stops x = true -> ~ will_go (exeq r) u ->
  round r p1 r1 -> rtc outside r1 r2 -> round r2 p2 r3 ->
  alive r1 u /\ to u (raised r) `prefix_of` to u (delivered r1) /\ p1 = AtWait /\ ~ alive r3 u.
Proof using RL.
  intros Hr%reachable_sinv Ha Hx Hu Hst Hn R1 O R2. assert (hard x = false) as Hh by (destruct (hard x) eqn:E; [destruct Hn; by exists x|done]).
  pose proof (round_stays r p1 r1 u Hr R1 Ha Hn) as Ha1. destruct (round_goes r p1 r1 u x Hr R1 Hx Hu) as [_ Hgo].
  destruct (Hgo Hst Hh Ha1) as (y & Hy & Hhy & Huy). destruct (round_spec r p1 r1 Hr R1) as (r6 & _ & Hw1 & Hs1 & _ & Ep).
  destruct (outsides_rwf r1 r2 Hw1 O) as [Hw2 K]. assert (sinv (AtWait, r2)) as Hs2 by (split; [done|by eapply keeps_settled]).
  split_and!; [done|by apply (round_delivered r p1)| |].
  - rewrite Ep. unfold keeps_running. rewrite (bool_decide_false (exeq r1 = [])); [by rewrite orb_true_r|]. intros E. rewrite E in Hy. by apply not_elem_of_nil in Hy.
  - destruct (kp_exeq _ _ K) as (q & Eq & _). apply (round_goes r2 p2 r3 u y); try done. rewrite Eq. apply elem_of_app. by left.
Qed.

(** C23: When the functions of the timers only wait again, for times that are not due, every timer
    that is due fires, once; the others keep waiting, and the reactor knows the time of the
    first of them. *)
Theorem timers_fire (fuel : nat) r now k log : reachable (AtTimers, r) -> WaitsOnly now k log ->
  (TimeStore.work now k (tv (hs r)) < fuel)%nat ->
  exists r' news fs, next fuel now AtTimers r = Done (AtExec, r')
    /\ log (world r') = log (world r) ++ fs /\ fs ≡ₚ TimeStore.dues now (tv (hs r))
    /\ tv (hs r') ≡ₚ filter (TimeStore.later now) (tv (hs r)) ++ news /\ Forall (TimeStore.later now) news
    /\ TimeStore.least (TimeStore.mint (Handlers.timestore (hs r'))) (tv (hs r')).
Proof using RL.
  intros [Hw _]%reachable_sinv Hwo Hf. destruct (fire_all fuel r now k log Hw Hwo Hf) as (r' & news & fs & E & _ & _ & H).
  exists r', news, fs. cbn [next]. rewrite E. by split.
Qed.

End Life.
End ReactorLife.
