(* ===== verification/ReactorExample.v ===== *)
(** * Reactors with objects

    Objects for the reactor of Reactor.v whose code is given by small programs, the runs of such
    a reactor as a function, and two runs that show what the reactor does not do: an event that
    is lost when a timer stops its object, a timer that fires late. *)

From stdpp Require Import gmap.
From S2P Require Import Prelude FrameCommon TimeStore Handlers Reactor ReactorProofs ReactorRun ReactorTurn ReactorTimer ReactorLife.
Import FrameCommon NanoTime.
Import Handlers(Addr, dummyhandler, hwf, handlers, chdq, idxreactor, call, pch, objidx).
Import Reactor ReactorProofs ReactorRun ReactorTimer ReactorLife.
#[local] Open Scope res_scope.

Module ReactorExample.

(** ** Objects *)

(** What an object does: wait for a time (in seconds) and do something then, cancel a timer,
    stop, post. *)
Inductive act :=
  | Skip
  | Wait (a : Addr) (sec : Z) (f : act)
  | Cancel (a : Addr)
  | Stop
  | Post (f : act)
  | Seq (f g : act).

Definition at_sec (sec : Z) : NanoTime := mkNanoTime sec 0.

(** The world is the list of the handlers whose timers fired. *)
Abbreviation reactor := (Reactor (list Z) unit act act).
Abbreviation tv g := (TimeStore.tv (Handlers.timestore g)).
Implicit Types (r : reactor) (ctx : Context) (x : act).

Definition done_or (r : reactor) (y : res reactor) : reactor := match y with Done r' => r' | _ => r end.

Definition is_timer r (a : Addr) : bool :=
  match call <$> handlers (hs r) !! a with Some Handlers.dummy_completion | None => false | _ => true end.

Definition wait r (a : Addr) (sec : Z) x : reactor :=
  if is_timer r a then done_or r (let! y := Handlers.waitUntil (hs r) a (at_sec sec) x in Done (with_hs r y.1)) else r.

Section Act.
Context {RE : ReactorEnv (list Z) unit act act}.

Fixpoint do_act ctx x r : reactor :=
  match x with
  | Skip => r
  | Wait a sec f => wait r a sec f
  | Cancel a => if is_timer r a then done_or r (let! g := Handlers.cancel (hs r) a in Done (with_hs r g)) else r
  | Stop => done_or r (postStop r ctx)
  | Post f => done_or r (doPost r ctx (User f) Skip)
  | Seq f g => do_act ctx g (do_act ctx f r)
  end.

Lemma done_or_api ctx r y : (forall r', y = Done r' -> api ctx r r') -> rtc (api ctx) r (done_or r y).
Proof. intros H. destruct y as [r'| |]; [by apply rtc_once, H|apply rtc_refl|apply rtc_refl]. Qed.

Lemma is_timer_handler r a : is_timer r a = true -> exists h, handlers (hs r) !! a = Some h /\ call h <> Handlers.dummy_completion.
Proof. unfold is_timer. destruct (handlers (hs r) !! a) as [h|]; [|done]. cbn. intros H. exists h. split; [done|]. by destruct (call h). Qed.

Lemma wait_api ctx r a sec x : rtc (api ctx) r (wait r a sec x).
Proof.
  unfold wait. destruct (is_timer r a) eqn:E; [|apply rtc_refl]. apply is_timer_handler in E as (h & Hh & Hc). apply done_or_api.
  intros r' ([g b] & E & [= <-])%res_bind_done. by apply (api_wait ctx r a h (at_sec sec) x g b).
Qed.

Lemma do_act_api ctx x r : rtc (api ctx) r (do_act ctx x r).
Proof.
  revert r. induction x as [|a sec f _|a| |f _|f IHf g IHg]; intros r; cbn [do_act].
  - apply rtc_refl.
  - apply wait_api.
  - destruct (is_timer r a) eqn:E; [|apply rtc_refl]. apply is_timer_handler in E as (h & Hh & Hc). apply done_or_api.
    intros r' (g & E & [= <-])%res_bind_done. by apply (api_cancel ctx r a h g).
  - apply done_or_api. apply api_stop.
  - apply done_or_api. apply api_post.
  - etrans; [apply IHf|apply IHg].
Qed.
End Act.

(** Objects that do what their events and timers say. *)
Definition visits_off (w : list Z) (o : Addr) : list Z * bool := (w, true).

Definition base_env : ReactorEnv (list Z) unit act act := {|
  call_user x ctx ev r := r; call_timer x ctx r := r; onEvent o ctx ev r := r;
  no_event := Skip; disableVisits := visits_off; object_stop w o := w |}.

(** With [timer] for the functions of timers. *)
Definition env_with (timer : act -> Context -> reactor -> reactor) : ReactorEnv (list Z) unit act act := {|
  call_user x ctx ev r := do_act (RE := base_env) ctx x r;
  call_timer := timer;
  onEvent o ctx ev r := do_act (RE := base_env) ctx ev r;
  no_event := Skip; disableVisits := visits_off; object_stop w o := w |}.

Definition log ctx r : reactor := with_world r (world r ++ [ctx_chnidx ctx]).

Definition acts : ReactorEnv (list Z) unit act act := env_with (fun x ctx r => do_act (RE := base_env) ctx x (log ctx r)).

(** Timers that wait again, to the second 1000. *)
Definition rearm x ctx r : reactor :=
  match chdq (hs r) !! Z.to_nat (ctx_chnidx ctx) with
  | Some st => wait r (pch st) 1000 x
  | None => r
  end.

Definition rearms : ReactorEnv (list Z) unit act act := env_with (fun x ctx r => rearm x ctx (log ctx r)).

Section Laws.
Context (timer : act -> Context -> reactor -> reactor).

Lemma base_env_api ctx r r' : api (RE := base_env) ctx r r' -> api (RE := env_with timer) ctx r r'.
Proof.
  intros H. destruct H as [r w|r fn ev r' E|r fn ev a r' E|r r' E|r fn ev r' E|r a h t fn g b Ha Hcall E|r a h g Ha Hcall E
    |r o u a r' Ha Ho Hu Hs E|r o Ho|r o m a r' Ha Hm Hr E|r u ev r' Hu E|r o m svc ev r' u Hm Hr E|r].
  - apply api_world.
  - exact (api_post ctx r fn ev r' E).
  - exact (api_post_handler ctx r fn ev a r' E).
  - exact (api_stop (RE := env_with timer) ctx r r' E).
  - exact (api_stop_with (RE := env_with timer) ctx r fn ev r' E).
  - exact (api_wait ctx r a h t fn g b Ha Hcall E).
  - exact (api_cancel ctx r a h g Ha Hcall E).
  - exact (api_timer ctx r o u a r' Ha Ho Hu Hs E).
  - exact (api_object ctx r o Ho).
  - exact (api_object_timer ctx r o m a r' Ha Hm Hr E).
  - exact (api_raise ctx r u ev r' Hu E).
  - exact (api_push ctx r o m svc ev r' u Hm Hr E).
  - apply api_reactor_stop.
Qed.

Lemma base_envs_api ctx r r' : rtc (api (RE := base_env) ctx) r r' -> rtc (api (RE := env_with timer) ctx) r r'.
Proof. induction 1 as [|r1 r2 r3 H _ IH]; [apply rtc_refl|]. eapply rtc_l; [by apply base_env_api|done]. Qed.

Lemma env_laws : (forall x ctx r, rtc (api (RE := env_with timer) ctx) r (timer x ctx r)) -> ReactorEnvLaws (env_with timer).
Proof. intros H. constructor; intros; [apply base_envs_api, do_act_api|apply H|apply base_envs_api, do_act_api]. Qed.
End Laws.

Lemma log_api (RE : ReactorEnv (list Z) unit act act) ctx r r' : rtc (api ctx) (log ctx r) r' -> rtc (api ctx) r r'.
Proof. intros H. eapply rtc_l; [apply api_world|exact H]. Qed.

#[export] Instance acts_laws : ReactorEnvLaws acts.
Proof. apply env_laws. intros x ctx r. apply log_api, base_envs_api, do_act_api. Qed.

#[export] Instance rearms_laws : ReactorEnvLaws rearms.
Proof.
  apply env_laws. intros x ctx r. apply log_api. unfold rearm. destruct (_ !! _); [apply wait_api|apply rtc_refl].
Qed.

(** [rearms] only waits. *)
Lemma rearms_waits (sec : Z) : 0 <= sec < 1000 -> WaitsOnly (RE := rearms) (at_sec sec) 1 (fun w => w).
Proof.
  intros Hsec. constructor.
  - intros x ctx r _. cbn. unfold rearm, wait. destruct (_ !! _); [|done]. destruct (is_timer _ _); [|done].
    destruct (Handlers.waitUntil _ _ _ _) as [[g b]| |]; done.
  - intros x ctx r _ Hw _. cbn. set (r1 := log ctx r). change (hs r) with (hs r1). assert (hwf (hs r1)) as Hg by apply Hw.
    assert (exists news, tv (hs r1) = tv (hs r1) ++ news /\ Forall (TimeStore.later (at_sec sec)) news /\ (length news <= 1)%nat) as H0.
    { exists []. rewrite app_nil_r. split_and!; [done|constructor|cbn; lia]. }
    unfold rearm. destruct (chdq (hs r1) !! _) as [st|] eqn:Est; [|done]. unfold wait. destruct (is_timer r1 (pch st)) eqn:Et; [|done].
    apply is_timer_handler in Et as (h & Hh & Hc). assert (pch st <> dummyhandler) as Hd.
    { intros E. rewrite E in Hh. destruct (Handlers.tb_dummy _ (Handlers.hw_table _ Hg)) as (d & Hd & Hcd & _). congruence. }
    destruct (Handlers.tb_stub _ (Handlers.hw_table _ Hg) _ st Est Hd) as (h' & Hh' & Hi). assert (h' = h) as -> by congruence.
    assert (call h = Handlers.Timer_on_completion) as Hcall.
    { destruct (Handlers.tb_idx _ (Handlers.hw_table _ Hg) _ h _ Hh Hi) as (_ & _ & _ & _ & _ & Hni). by destruct (call h). }
    destruct (Handlers.waitUntil_spec (hs r1) (pch st) h _ (at_sec 1000) x Hg Hh Hcall Hi) as (g & E & _ & _ & _ & Htv). rewrite E. cbn [res_bind done_or fst].
    case_decide; [by subst g|]. destruct Htv as (Etv & _). eexists. split; [exact Etv|]. split; [|cbn; lia].
    constructor; [|constructor]. unfold TimeStore.later. apply lt_iff. cbn. unfold seconds. cbn. rewrite !wrap_small by (unfold in_range; lia). lia.
Qed.

(** ** Runs *)

(** What happens next: a call of [run], at a time in seconds, or a step of another thread. *)
Inductive move := Next (sec : Z) | Raise (u : UniqueId) (ev : act) | Push (o : Addr) (ev : act) | NewObject (o : Addr) | NewTimer (o a : Addr).

(** Enough for the timers of the runs below. *)
Definition fuel : nat := 20.

Definition is_alive r (u : UniqueId) : bool := bool_decide (0 < uid_index u < crtidx (inbox r)) && bool_decide (alive r u).

Definition play_move (RE : ReactorEnv (list Z) unit act act) (m : move) (s : Phase * reactor) : res (Phase * reactor) :=
  let '(p, r) := s in
  match m with
  | Next sec => next fuel (at_sec sec) p r
  | Raise u ev => if is_alive r u then let! r := raise r u ev in Done (p, r) else Undef
  | Push o ev =>
      match runId <$> objects r !! o with
      | Some None => let! y := push r o () ev in Done (p, y.1)
      | _ => Undef
      end
  | NewObject o =>
      match objects r !! o with None => Done (p, with_objects r (<[o := mkObject None []]> (objects r))) | Some _ => Undef end
  | NewTimer o a =>
      match handlers (hs r) !! a, runId <$> objects r !! o with
      | None, Some None => let! r := new_timer r o a in Done (p, r)
      | _, _ => Undef
      end
  end.

Fixpoint play (RE : ReactorEnv (list Z) unit act act) (ms : list move) (s : Phase * reactor) : res (Phase * reactor) :=
  match ms with
  | [] => Done s
  | m :: ms => let! s := play_move RE m s in play RE ms s
  end.

Section Play.
Context (RE : ReactorEnv (list Z) unit act act).

Lemma play_move_step m s s' : play_move RE m s = Done s' -> step s s'.
Proof.
  destruct s as [p r]. destruct m as [sec|u ev|o ev|o|o a]; cbn [play_move].
  - apply step_next.
  - unfold is_alive. destruct (bool_decide (0 < uid_index u < crtidx (inbox r))) eqn:E1; [|done]. destruct (bool_decide (alive r u)) eqn:E2; [|done]. cbn [andb].
    apply bool_decide_eq_true in E1, E2. intros (r' & E & [= <-])%res_bind_done. apply step_outside. apply (out_raise r u ev); [|done].
    destruct E2 as [H1 H2]. split; [done|]. split; [by right|by left].
  - destruct (objects r !! o) as [m|] eqn:Em; [|done]. cbn. destruct (runId m) eqn:Er; [done|]. intros ([r' u] & E & [= <-])%res_bind_done.
    apply step_outside. by apply (out_push r o m () ev _ u).
  - destruct (objects r !! o) eqn:Eo; [done|]. intros [= <-]. apply step_outside. by apply out_object.
  - destruct (handlers (hs r) !! a) eqn:Ea; [done|]. destruct (objects r !! o) as [m|] eqn:Em; [|done]. cbn. destruct (runId m) eqn:Er; [done|].
    intros (r' & E & [= <-])%res_bind_done. apply step_outside. by apply (out_object_timer r o m a).
Qed.

Lemma play_steps ms : forall s s', play RE ms s = Done s' -> rtc step s s'.
Proof.
  induction ms as [|m ms IH]; intros s s'; cbn [play]; [intros [= <-]; apply rtc_refl|].
  intros (s1 & E1 & E2)%res_bind_done. eapply rtc_l; [by eapply play_move_step|by apply IH].
Qed.

(** The state after the moves [ms]. *)
Definition state (ms : list move) : Phase * reactor :=
  match play RE ms (AtWait, started []) with Done s => s | _ => (AtExit, started []) end.

Definition plays (ms : list move) : bool := match play RE ms (AtWait, started []) with Done _ => true | _ => false end.

Lemma state_reachable ms p : plays ms = true -> (state ms).1 = p -> reachable (p, (state ms).2).
Proof.
  intros H <-. rewrite <- surjective_pairing. exists [], (started []). split; [apply start_spec|]. unfold plays in H. unfold state.
  destruct (play RE ms (AtWait, started [])) as [s| |] eqn:E; try done. by apply (play_steps ms).
Qed.

Lemma play_app ms ms' s s' : play RE ms s = Done s' -> play RE (ms ++ ms') s = play RE ms' s'.
Proof.
  revert s. induction ms as [|m ms IH]; intros s; cbn; [by intros [= <-]|]. intros (s1 & E1 & E2)%res_bind_done. rewrite E1. by apply IH.
Qed.

Lemma state_app ms ms' : plays (ms ++ ms') = true -> plays ms = true -> play RE ms' (state ms) = Done (state (ms ++ ms')).
Proof.
  unfold plays, state. intros H1 H2. destruct (play RE ms (AtWait, started [])) as [s| |] eqn:E; try done.
  rewrite (play_app ms ms' _ s E) in H1 |- *. by destruct (play RE ms' s).
Qed.

(** Four calls are a round. *)
Definition a_round (sec : Z) : list move := [Next sec; Next sec; Next sec; Next sec].

Lemma next_round (n : nat) t r p1 r1 p2 r2 p3 r3 p r' : next n t AtWait r = Done (p1, r1) -> next n t p1 r1 = Done (p2, r2) ->
  next n t p2 r2 = Done (p3, r3) -> next n t p3 r3 = Done (p, r') -> round r p r'.
Proof.
  intros E1 E2 E3 E4. assert (exists b, p1 = AtEvents b) as [b ->] by (cbn [next] in E1; destruct (doWaitEvent r); injection E1 as <- _; by eexists).
  assert (p2 = AtTimers) as -> by (destruct b; cbn [next] in E2; [apply res_bind_done in E2 as (? & _ & [= <- _])|injection E2 as <- _]; done).
  assert (p3 = AtExec) as -> by (cbn [next] in E3; by apply res_bind_done in E3 as (? & _ & [= <- _])).
  constructor. exists n, t, t, t, b, r1, r1, r2, r2, r3, r3. split_and!; try done; apply rtc_refl.
Qed.

Lemma play_round sec r p r' : play RE (a_round sec) (AtWait, r) = Done (p, r') -> round r p r'.
Proof.
  unfold a_round, play, play_move. generalize fuel. intros n.
  intros ([p1 r1] & E1 & ([p2 r2] & E2 & ([p3 r3] & E3 & ([p4 r4] & E4 & [= <- <-])%res_bind_done)%res_bind_done)%res_bind_done)%res_bind_done.
  by apply (next_round n (at_sec sec) r p1 r1 p2 r2 p3 r3).
Qed.

Lemma state_round ms sec : plays (ms ++ a_round sec) = true -> plays ms = true -> (state ms).1 = AtWait ->
  forall p, (state (ms ++ a_round sec)).1 = p -> round (state ms).2 p (state (ms ++ a_round sec)).2.
Proof.
  intros H1 H2 E p <-. pose proof (state_app ms (a_round sec) H1 H2) as H. apply (play_round sec). rewrite <- E.
  destruct (state ms) as [p r]. by destruct (state (ms ++ a_round sec)).
Qed.
End Play.

(** ** An object that stops *)

Definition obj : UniqueId := mkUniqueId 1 0.

(** The object 1 comes in, posts a function and asks to be stopped; then it gets an event. *)
Definition stopping_moves : list move :=
  [NewObject 1; Push 1 Skip] ++ a_round 1 ++ [Raise obj (Post Skip); Raise obj Stop] ++ a_round 2 ++ [Raise obj Skip].

Definition repost : ExecStub act act := mkExec obj (mkUniqueId 0 0) stop_object_repost Skip.

Lemma stopping_reachable : reachable (RE := acts) (AtWait, (state acts stopping_moves).2).
Proof. apply state_reachable; by vm_compute. Qed.

Lemma stopping_round : round (RE := acts) (state acts stopping_moves).2 AtWait (state acts (stopping_moves ++ a_round 3)).2.
Proof. apply (state_round acts stopping_moves 3); by vm_compute. Qed.

Lemma alive_by r u : bool_decide (alive r u) = true -> alive r u.
Proof. apply bool_decide_eq_true_1. Qed.

Lemma stopping_alive : alive (state acts (stopping_moves ++ a_round 3)).2 obj.
Proof. apply alive_by. by vm_compute. Qed.

Lemma stopped_round : round (RE := acts) (state acts (stopping_moves ++ a_round 3)).2 AtWait (state acts ((stopping_moves ++ a_round 3) ++ a_round 4)).2.
Proof. apply (state_round acts (stopping_moves ++ a_round 3) 4); by vm_compute. Qed.

Lemma stopping_at_first : alive (state acts stopping_moves).2 obj.
Proof. apply alive_by. by vm_compute. Qed.

Lemma stopping_repost : repost ∈ exeq (state acts stopping_moves).2.
Proof. vm_compute. right. left. Qed.

Lemma reactor_safe_witness : rwf (state acts stopping_moves).2
  /\ forall fuel now, next (RE := acts) fuel now AtWait (state acts stopping_moves).2 <> Undef.
Proof. exact (reactor_safe AtWait _ stopping_reachable). Defined.

Lemma events_in_order_witness : to obj (delivered (state acts stopping_moves).2) `prefix_of` to obj (raised (state acts stopping_moves).2).
Proof. exact (proj1 (events_in_order AtWait _ obj stopping_reachable)). Defined.

Lemma round_delivers_witness :
  to obj (raised (state acts stopping_moves).2) `prefix_of` to obj (delivered (state acts (stopping_moves ++ a_round 3)).2).
Proof. exact (round_delivers _ AtWait _ obj stopping_reachable stopping_round stopping_alive). Defined.

Lemma stopping_not_yet : ~ will_go (exeq (state acts stopping_moves).2) obj.
Proof.
  intros (y & Hy & Hh & _). revert Hh. apply not_true_iff_false. revert y Hy. apply Forall_forall.
  vm_compute. repeat constructor.
Qed.

Lemma stop_protocol_witness : alive (state acts (stopping_moves ++ a_round 3)).2 obj
  /\ to obj (raised (state acts stopping_moves).2) `prefix_of` to obj (delivered (state acts (stopping_moves ++ a_round 3)).2)
  /\ AtWait = AtWait /\ ~ alive (state acts ((stopping_moves ++ a_round 3) ++ a_round 4)).2 obj.
Proof.
  exact (stop_protocol (RE := acts) _ obj repost AtWait _ _ AtWait _ stopping_reachable stopping_at_first stopping_repost eq_refl eq_refl
    stopping_not_yet stopping_round (rtc_refl _ _) stopped_round).
Defined.

(** ** A timer that stops its object *)

(** The object waits to the second 10; at 20 the reactor has looked for events and is before its
    timers. *)
Definition timer_moves : list move := [NewObject 1; NewTimer 1 5; Push 1 (Wait 5 10 Stop)] ++ a_round 1 ++ [Next 20].

Definition lost_moves : list move := [Next 20; Next 20; Next 20] ++ a_round 21.

(** An object that is stopped by the function of its timer can lose an event: one that is
    raised after the reactor looked for events and before the function runs, when the object is
    in and does not stop yet, is never delivered. *)
Theorem timer_stop_loses_event : exists r r1 r2, reachable (RE := acts) (AtEvents false, r)
  /\ alive r obj /\ exeq r = [] /\ raise r obj Skip = Done r1 /\ rtc (step (RE := acts)) (AtEvents false, r1) (AtWait, r2)
  /\ ~ alive r2 obj /\ queued r2 = [] /\ to obj (raised r2) = to obj (delivered r2) ++ [Skip].
Proof.
  set (r := (state acts timer_moves).2). set (r1 := (state acts (timer_moves ++ [Raise obj Skip])).2).
  set (r2 := (state acts ((timer_moves ++ [Raise obj Skip]) ++ lost_moves)).2). exists r, r1, r2. split_and!.
  - apply (state_reachable acts timer_moves); by vm_compute.
  - apply alive_by. by vm_compute.
  - by vm_compute.
  - by vm_compute.
  - apply (play_steps acts lost_moves). vm_compute. reflexivity.
  - apply (bool_decide_eq_false_1 _). by vm_compute.
  - by vm_compute.
  - by vm_compute.
Qed.

(** ** A timer that fires late *)

(** Three timers, for the seconds 100, 5 and 20; the second cancels the first. *)
Definition late_moves : list move :=
  [NewObject 1; NewTimer 1 5; NewTimer 1 6; NewTimer 1 7; Push 1 (Seq (Wait 5 100 Skip) (Seq (Wait 6 5 (Cancel 5)) (Wait 7 20 Skip)))]
  ++ a_round 1 ++ a_round 10.

(** When the function of a timer cancels another one, the reactor can forget the time of a
    third: here a timer for the second 20 is in the store, nothing else is to do at the second
    10, and the reactor goes to sleep for 60 seconds. *)
Theorem late_timer : exists r c, reachable (RE := acts) (AtWait, r) /\ exeq r = [] /\ tv (hs r) = [(at_sec 20, c)]
  /\ Handlers.computeWaitTimeMilliseconds (Z.of_nat (length (exeq r))) (hs r) (at_sec 10) = 60000.
Proof.
  exists (state acts late_moves).2, 1. split_and!; [|by vm_compute|by vm_compute|by vm_compute].
  apply (state_reachable acts late_moves); by vm_compute.
Qed.

(** Three timers, two of them due at 10. *)
Definition due_moves : list move :=
  [NewObject 1; NewTimer 1 5; NewTimer 1 6; NewTimer 1 7; Push 1 (Seq (Wait 5 7 Skip) (Seq (Wait 6 5 Skip) (Wait 7 20 Skip)))]
  ++ a_round 1 ++ [Next 10; Next 10].

Lemma timers_fire_witness : exists r' news fs, next (RE := rearms) 10 (at_sec 10) AtTimers (state rearms due_moves).2 = Done (AtExec, r')
  /\ world r' = world (state rearms due_moves).2 ++ fs /\ fs ≡ₚ TimeStore.dues (at_sec 10) (tv (hs (state rearms due_moves).2))
  /\ tv (hs r') ≡ₚ filter (TimeStore.later (at_sec 10)) (tv (hs (state rearms due_moves).2)) ++ news /\ Forall (TimeStore.later (at_sec 10)) news
  /\ TimeStore.least (TimeStore.mint (Handlers.timestore (hs r'))) (tv (hs r')).
Proof.
  apply (timers_fire (RE := rearms) 10 (state rearms due_moves).2 (at_sec 10) 1 (fun w => w)).
  - apply (state_reachable rearms due_moves); by vm_compute.
  - apply rearms_waits. lia.
  - vm_compute. repeat constructor.
Defined.

End ReactorExample.
