(* ===== verification/StoreLock.v ===== *)
(** * The double buffers of the manager

    solid/frame/src/manager.cpp: [ServiceStoreStub] and [ObjectStoreStub], the two vectors of
    pointers that readers use without a lock while a writer prepares the next version in the
    other one; [aquireRead...Store], [releaseRead...Store], [aquireWrite...Store] and
    [releaseWrite...Store], the same code for services and objects.

    The threads interleave at every access to an atomic variable and at the mutex; [act] is one
    such access. A store index, 0 or 1, is a [bool], [(i + 1) % 2] is [negb i]. *)

From stdpp Require Import list.
From S2P Require Import Prelude.
#[local] Set Warnings "-clear-no-such-hyp".
#[local] Set Default Proof Using "Type".
#[local] Open Scope Z_scope.

Module StoreLock.

(** [LONG_MIN] *)
Definition LONG_MIN : Z := - 2 ^ 63.

Section Store.
Context {A : Type}.

(** A vector of pointers, null or to something. *)
Abbreviation Vec := (list (option A)).

Record Store := mkStore { nowantwrite : bool; usecnt : Z; vec : Vec }.

Definition Store_new : Store := mkStore true 0 [].

(** Where a thread is. A reader remembers, for the proofs only, what the current store held when
    it started. *)
Inductive pc :=
| Out
| RLoaded (i : bool) (v : Vec) (* has read crt*storeidx *)
| RWants (i : bool) (v : Vec) (* has read nowantwrite as true *)
| RWaits (v : Vec) (* at the lock of mtx *)
| RLocked (v : Vec)
| RLockedAt (i : bool) (v : Vec)
| RLockedIn (i : bool) (v : Vec)
| RIn (i : bool) (v : Vec) (* after aquireRead, before releaseRead *)
| WLocked (* holds mtx *)
| WAt (i : bool)
| WSpins (i : bool)
| WIn (i : bool) (* after aquireWrite *)
| WWrote (i : bool)
| WOut (i : bool). (* has reset usecnt *)

Record State := mkState { crt : bool; stores : bool -> Store; mtx : option nat; thr : list pc }.

Definition start (n : nat) : State := mkState false (fun _ => Store_new) None (replicate n Out).

Definition goto (s : State) (t : nat) (p : pc) : State := mkState (crt s) (stores s) (mtx s) (<[t := p]> (thr s)).
Definition with_store (s : State) (i : bool) (x : Store) : State :=
  mkState (crt s) (fun j => if Bool.eqb j i then x else stores s j) (mtx s) (thr s).
Definition with_crt (s : State) (i : bool) : State := mkState i (stores s) (mtx s) (thr s).
Definition with_mtx (s : State) (m : option nat) : State := mkState (crt s) (stores s) m (thr s).

(** The operations on the atomic members *)
Definition set_wantwrite (x : Store) : Store := mkStore false (usecnt x) (vec x).
Definition set_usecnt (x : Store) (n : Z) : Store := mkStore (nowantwrite x) n (vec x).
Definition set_vec (x : Store) (v : Vec) : Store := mkStore (nowantwrite x) (usecnt x) v.
Definition fetch_add (x : Store) (n : Z) : Store := set_usecnt x (signed 64 (usecnt x + n)).

Definition lock (s : State) (t : nat) (p : pc) : option State :=
  if mtx s is Some _ then None else Some (goto (with_mtx s (Some t)) t p).

(** What a thread can choose to do: read, write under the mutex, go on; a writer fills a place of
    the current vector that holds a null pointer, or extends a copy of it in the other store. The
    exchange of a writer, a [compare_exchange_weak], can fail for no reason ([Fails]). *)
Inductive action :=
| Read
| Write
| Go
| Fails
| Fill (k : nat) (x : A)
| Extend (v : Vec)
| Unlock.

Definition act (s : State) (t : nat) (a : action) : option State :=
  p ← thr s !! t;
  match p, a with
  (* aquireRead...Store *)
  | Out, Read => Some (goto s t (RLoaded (crt s) (vec (stores s (crt s)))))
  | RLoaded i v, Go => Some (goto s t (if nowantwrite (stores s i) then RWants i v else RWaits v))
  | RWants i v, Go =>
      let n := usecnt (stores s i) in
      let s := with_store s i (fetch_add (stores s i) 1) in
      Some (goto s t (if 0 <=? n then RIn i v else RWaits v))
  | RWaits v, Go => lock s t (RLocked v)
  | RLocked v, Go => Some (goto s t (RLockedAt (crt s) v))
  | RLockedAt i v, Go => Some (goto (with_store s i (fetch_add (stores s i) 1)) t (RLockedIn i v))
  | RLockedIn i v, Go => Some (goto (with_mtx s None) t (RIn i v))
  (* releaseRead...Store *)
  | RIn i v, Go => Some (goto (with_store s i (fetch_add (stores s i) (-1))) t Out)
  (* under mtx *)
  | Out, Write => lock s t WLocked
  | WLocked, Fill k x =>
      if vec (stores s (crt s)) !! k is Some None then
        Some (with_store s (crt s) (set_vec (stores s (crt s)) (<[k := Some x]> (vec (stores s (crt s))))))
      else None
  | WLocked, Unlock => Some (goto (with_mtx s None) t Out)
  (* aquireWrite...Store *)
  | WLocked, Go => Some (goto s t (WAt (negb (crt s))))
  | WAt i, Go => Some (goto (with_store s i (set_wantwrite (stores s i))) t (WSpins i))
  | WSpins i, Go =>
      if usecnt (stores s i) =? 0 then Some (goto (with_store s i (set_usecnt (stores s i) LONG_MIN)) t (WIn i))
      else Some s
  | WSpins _, Fails => Some s
  (* the new version *)
  | WIn i, Extend v => Some (goto (with_store s i (set_vec (stores s i) (vec (stores s (crt s)) ++ v))) t (WWrote i))
  (* releaseWrite...Store *)
  | WWrote i, Go => Some (goto (with_store s i (set_usecnt (stores s i) 0)) t (WOut i))
  | WOut i, Go => Some (goto (with_crt s i) t WLocked)
  | _, _ => None
  end.

Definition step (s s' : State) : Prop := exists t a, act s t a = Some s'.

Definition reachable (n : nat) (s : State) : Prop := rtc step (start n) s.

(** ** The invariant *)

Definition locked (p : pc) : bool :=
  match p with
  | RLocked _ | RLockedAt _ _ | RLockedIn _ _ | WLocked | WAt _ | WSpins _ | WIn _ | WWrote _ | WOut _ => true
  | _ => false
  end.

(** Counted in [usecnt]; in the exclusive section; at the lock of the mutex *)
Definition reads (i : bool) (p : pc) : bool :=
  match p with RIn j _ | RLockedIn j _ => Bool.eqb j i | _ => false end.
Definition writes (i : bool) (p : pc) : bool :=
  match p with WIn j | WWrote j => Bool.eqb j i | _ => false end.
Definition waits (p : pc) : bool := match p with RWaits _ => true | _ => false end.

Definition wants (i : bool) (p : pc) : bool := match p with RWants j _ => Bool.eqb j i | _ => false end.

Definition b2z (b : bool) : Z := if b then 1 else 0.

Fixpoint count (P : pc -> bool) (l : list pc) : Z :=
  match l with [] => 0 | p :: l => b2z (P p) + count P l end.

(** What is in a vector is in the other too. *)
Definition sub (v w : Vec) : Prop := forall k x, v !! k = Some (Some x) -> w !! k = Some (Some x).

#[global] Instance sub_preorder : PreOrder sub.
Proof. split; [intros ? ? ?; done|intros u v w H1 H2 k x E; auto]. Qed.

Lemma count_insert P l t p q : l !! t = Some p -> count P (<[t := q]> l) = count P l - b2z (P p) + b2z (P q).
Proof.
  revert t. induction l as [|x l IH]; intros [|t] E; cbn in E; [done..| |]; cbn [count insert list_insert].
  - simplify_eq. lia.
  - change (b2z (P x) + count P (<[t := q]> l) = b2z (P x) + count P l - b2z (P p) + b2z (P q)). rewrite (IH t E). lia.
Qed.

Lemma count_range P l : 0 <= count P l <= Z.of_nat (length l).
Proof. induction l as [|p l IH]; cbn [count length]; [lia|]. unfold b2z. destruct (P p); lia. Qed.

Lemma count_pos P l t p : l !! t = Some p -> P p = true -> 0 < count P l.
Proof.
  revert t. induction l as [|x l IH]; intros [|t] E H; cbn in E; [done..| |]; cbn [count]; pose proof (count_range P l).
  - simplify_eq. rewrite H. cbn. lia.
  - specialize (IH t E H). unfold b2z. destruct (P x); lia.
Qed.

Lemma count_zero P l : (forall t p, l !! t = Some p -> P p = false) -> count P l = 0.
Proof.
  induction l as [|x l IH]; intros H; cbn [count]; [done|]. rewrite (H 0%nat x eq_refl), IH; [done|].
  intros t p E. by apply (H (S t)).
Qed.

(** Only the thread that holds the mutex is in one of the locked places. *)
Definition lock_ok (s : State) : Prop := forall t p, thr s !! t = Some p -> (locked p = true <-> mtx s = Some t).

Definition at_ok (c : bool) (p : pc) : Prop :=
  match p with
  | RLockedAt i _ | RLockedIn i _ => i = c
  | WAt i | WSpins i | WIn i | WWrote i | WOut i => i = negb c
  | _ => True
  end.

(** The counter of a store: the readers in it, or, for the one a writer is in, a number that is
    negative as long as less than 2^63 readers have tried in vain. *)
Definition cnt_ok (s : State) (i : bool) : Prop :=
  let n := usecnt (stores s i) in
  if 0 <? count (writes i) (thr s) then LONG_MIN <= n <= LONG_MIN + count waits (thr s) /\ count (reads i) (thr s) = 0
  else n = count (reads i) (thr s).

(** What a reader has seen at its start is still there. *)
Definition seen_ok (s : State) (p : pc) : Prop :=
  match p with
  | RLoaded i v | RWants i v | RLockedAt i v | RLockedIn i v | RIn i v =>
      sub v (vec (stores s i)) /\ sub v (vec (stores s (crt s)))
  | RWaits v | RLocked v => sub v (vec (stores s (crt s)))
  | _ => True
  end.

(** The other store is behind the current one, except at the end of a write. *)
Definition ahead (p : pc) : bool := match p with WWrote _ | WOut _ => true | _ => false end.

Definition vec_ok (s : State) : Prop :=
  (forall t p, thr s !! t = Some p -> ahead p = true -> sub (vec (stores s (crt s))) (vec (stores s (negb (crt s))))) /\
  ((forall t p, thr s !! t = Some p -> ahead p = false) -> sub (vec (stores s (negb (crt s)))) (vec (stores s (crt s)))).

Record inv (s : State) : Prop := {
  inv_lock : lock_ok s;
  inv_at : forall t p, thr s !! t = Some p -> at_ok (crt s) p;
  inv_cnt : forall i, cnt_ok s i;
  inv_seen : forall t p, thr s !! t = Some p -> seen_ok s p;
  inv_vec : vec_ok s
}.

Lemma inv_start n : inv (start n).
Proof.
  assert (forall t p, thr (start n) !! t = Some p -> p = Out) as Hout.
  { intros t p E. by apply lookup_replicate in E as [-> _]. }
  split.
  - by intros t p E; rewrite (Hout t p E).
  - by intros t p E; rewrite (Hout t p E).
  - intros i. unfold cnt_ok. rewrite !count_zero; [done|by intros t p E; rewrite (Hout t p E)..].
  - by intros t p E; rewrite (Hout t p E).
  - split; [|done]. by intros t p E; rewrite (Hout t p E).
Qed.

Lemma lookup_goto s t p u q : thr (goto s t p) !! u = Some q -> (u = t /\ q = p) \/ (u <> t /\ thr s !! u = Some q).
Proof. cbn. intros [(-> & -> & _)|(? & ?)]%list_lookup_insert_Some; auto. Qed.

Lemma only_locked s t p : lock_ok s -> thr s !! t = Some p -> locked p = true ->
  forall u q, thr s !! u = Some q -> u <> t -> locked q = false.
Proof.
  intros H E Hp u q Eq Hne. destruct (locked q) eqn:El; [|done]. apply (H _ _ E) in Hp. apply (H _ _ Eq) in El. congruence.
Qed.

Lemma writes_locked i p : writes i p = true -> locked p = true.
Proof. by destruct p. Qed.

(** The writer, if there is one, is the thread that holds the mutex. *)
Lemma writers s t p i : lock_ok s -> thr s !! t = Some p -> locked p = true -> count (writes i) (thr s) = b2z (writes i p).
Proof.
  intros H E Hp. pose proof (count_insert (writes i) _ _ _ Out E) as Hc. rewrite count_zero in Hc; [cbn in Hc; lia|].
  intros u q [(-> & <- & _)|(Hne & Eq)]%list_lookup_insert_Some; [done|].
  destruct (writes i q) eqn:Ew; [|done]. apply writes_locked in Ew.
  by rewrite (only_locked s t p H E Hp u q Eq) in Ew.
Qed.

Lemma no_writers s i : lock_ok s -> mtx s = None -> count (writes i) (thr s) = 0.
Proof.
  intros H E. apply count_zero. intros t p Et. destruct (writes i p) eqn:Ew; [|done].
  apply writes_locked, (H _ _ Et) in Ew. congruence.
Qed.

(** The steps of a thread, case by case *)
Ltac act_cases E :=
  unfold act, lock in E; apply bind_Some in E as (?p & ?Et & E);
  repeat (case_match; simplify_eq); simplify_option_eq.

Lemma lock_same s s' t p q :
  lock_ok s -> thr s !! t = Some p -> thr s' = thr s -> mtx s' = mtx s -> locked q = locked p -> lock_ok (goto s' t q).
Proof.
  intros H E Et Em El u r [[-> ->]|[Hne Eq]]%lookup_goto; cbn; rewrite Em; [rewrite El; by apply H|].
  rewrite Et in Eq. by apply H.
Qed.

Lemma lock_take s t q : lock_ok s -> mtx s = None -> locked q = true -> lock_ok (goto (with_mtx s (Some t)) t q).
Proof.
  intros H Em Hq u r [[-> ->]|[Hne Eq]]%lookup_goto; cbn; [done|]. cbn in Eq. rewrite (H _ _ Eq), Em.
  split; congruence.
Qed.

Lemma lock_drop s t p q : lock_ok s -> thr s !! t = Some p -> locked p = true -> locked q = false -> lock_ok (goto (with_mtx s None) t q).
Proof.
  intros H E Hp Hq u r [[-> ->]|[Hne Eq]]%lookup_goto; cbn; [by rewrite Hq|]. cbn in Eq.
  by rewrite (only_locked s t p H E Hp u r Eq Hne).
Qed.

Lemma lock_step s t a s' : lock_ok s -> act s t a = Some s' -> lock_ok s'.
Proof.
  intros H E. act_cases E; try done.
  all: first [by eapply lock_take|by eapply lock_drop|by eapply (lock_same s)|by intros u q Eq; apply H].
Qed.

Lemma at_unlocked c p : locked p = false -> at_ok c p.
Proof. by destruct p. Qed.

Lemma at_step s t a s' : inv s -> act s t a = Some s' -> forall u q, thr s' !! u = Some q -> at_ok (crt s') q.
Proof.
  intros [Hl Ha _ _ _] E. act_cases E; try done.
  all: intros u q Eq; try by apply (Ha u).
  all: apply lookup_goto in Eq as [[-> ->]|[Hne Eq]]; cbn in *; try by apply (Ha u).
  all: try done; try by apply (Ha _ _ Et).
  all: try by case_match.
  by apply at_unlocked, (only_locked _ _ _ Hl Et eq_refl u).
Qed.

(** A step that does not touch the counter of a store, nor moves a thread in or out of it. *)
Lemma cnt_same s s' t p q j :
  thr s !! t = Some p -> thr s' = thr s -> usecnt (stores s' j) = usecnt (stores s j) ->
  reads j q = reads j p -> writes j q = writes j p ->
  (waits p = true -> count (writes j) (thr s) = 0) -> cnt_ok s j -> cnt_ok (goto s' t q) j.
Proof.
  intros E Et Eu Er Ew Hwt H. unfold cnt_ok in *. cbn [thr goto stores]. rewrite Et, Eu, !(count_insert _ _ _ _ _ E), Er, Ew.
  rewrite !Z.sub_add. destruct (Z.ltb_spec 0 (count (writes j) (thr s))) as [Hw|]; [|done]. split; [|apply H].
  destruct (waits p); [lia|]. unfold b2z. destruct (waits q); lia.
Qed.

(** The counter of the store that a step changes. *)
Lemma cnt_change s s' t p q j u :
  thr s !! t = Some p -> thr s' = thr s -> usecnt (stores s' j) = u ->
  (if 0 <? count (writes j) (thr s) - b2z (writes j p) + b2z (writes j q)
   then LONG_MIN <= u <= LONG_MIN + (count waits (thr s) - b2z (waits p) + b2z (waits q)) /\
     count (reads j) (thr s) - b2z (reads j p) + b2z (reads j q) = 0
   else u = count (reads j) (thr s) - b2z (reads j p) + b2z (reads j q)) -> cnt_ok (goto s' t q) j.
Proof. intros E Et Eu H. unfold cnt_ok. cbn [thr goto stores]. by rewrite Et, Eu, !(count_insert _ _ _ _ _ E). Qed.

Lemma eqb_neq (i j : bool) : i <> j -> Bool.eqb i j = false.
Proof. by destruct i, j. Qed.

Lemma fetch_small u d : LONG_MIN <= u + d < 2 ^ 63 -> signed 64 (u + d) = u + d.
Proof. intros. apply signed_small; [lia|]. unfold LONG_MIN in *. lia. Qed.

Section Bounded.
Context (n : nat) (Hn : Z.of_nat n < 2 ^ 63).

Lemma cnt_of s i : length (thr s) = n -> cnt_ok s i ->
  (0 <= usecnt (stores s i) -> count (writes i) (thr s) = 0) /\
  (count (writes i) (thr s) = 0 -> usecnt (stores s i) = count (reads i) (thr s)) /\
  (0 < count (reads i) (thr s) -> count (writes i) (thr s) = 0).
Proof using Hn.
  intros El H. unfold cnt_ok, LONG_MIN in H. pose proof (count_range waits (thr s)). pose proof (count_range (writes i) (thr s)).
  destruct (Z.ltb_spec 0 (count (writes i) (thr s))); lia.
Qed.

Lemma reads_room s t p j : length (thr s) = n -> thr s !! t = Some p -> reads j p = false -> count (reads j) (thr s) + 1 <= Z.of_nat n.
Proof using Type.
  intros El E Hp. pose proof (count_insert (reads j) _ _ _ (RIn j []) E) as Hc. rewrite Hp in Hc. cbn [reads] in Hc.
  rewrite Bool.eqb_reflx in Hc. cbn [b2z] in Hc. pose proof (count_range (reads j) (<[t := RIn j []]> (thr s))) as Hr.
  rewrite length_insert, El in Hr. lia.
Qed.

(** The counter after a reader has come in or has failed to. *)
Lemma cnt_enter s t v j : length (thr s) = n -> lock_ok s -> cnt_ok s j -> thr s !! t = Some (RWants j v) ->
  cnt_ok (goto (with_store s j (fetch_add (stores s j) 1)) t (if 0 <=? usecnt (stores s j) then RIn j v else RWaits v)) j.
Proof using Hn.
  intros El Hl Hj Et. pose proof (cnt_of s j El Hj) as (Hu & Hr & Hw). pose proof (reads_room s t _ j El Et eq_refl).
  pose proof (count_range (writes j) (thr s)). pose proof (count_range (reads j) (thr s)). pose proof (count_range waits (thr s)).
  unfold cnt_ok in Hj. apply (cnt_change s _ t _ _ j (usecnt (stores s j) + 1) Et); [done|cbn; rewrite Bool.eqb_reflx; apply fetch_small|];
    destruct (Z.leb_spec 0 (usecnt (stores s j))); destruct (Z.ltb_spec 0 (count (writes j) (thr s)));
    cbn [writes reads waits b2z] in *; rewrite ?Bool.eqb_reflx; cbn [b2z]; unfold LONG_MIN in *; try lia;
    destruct (Z.ltb_spec 0 (count (writes j) (thr s) - 0 + 0)); lia.
Qed.

Lemma cnt_step s t a s' : length (thr s) = n -> inv s -> act s t a = Some s' -> forall j, cnt_ok s' j.
Proof using Hn.
  intros El [Hl Ha Hc _ _] E j. pose proof (Hc j) as Hj. pose proof (cnt_of s j El Hj) as (Hu & Hr & Hw).
  pose proof (count_range (writes j) (thr s)) as Rw. pose proof (count_range (reads j) (thr s)) as Rr.
  pose proof (count_range waits (thr s)) as Rv.
  unfold act in E; apply bind_Some in E as (p & Et & E). pose proof (reads_room s t p j El Et) as Hroom.
  pose proof (writers s t p j Hl Et) as Hone. specialize (Ha t p Et).
  assert (forall q s1, thr s1 = thr s -> usecnt (stores s1 j) = usecnt (stores s j) ->
    reads j q = reads j p -> writes j q = writes j p -> waits p = false -> cnt_ok (goto s1 t q) j) as Hsame.
  { intros q s1 ? ? ? ? Hwt. apply (cnt_same s _ t p); try done. by rewrite Hwt. }
  destruct p as [|i v|i v|v|v|i v|i v|i v| |i|i|i|i|i], a; try done; cbn in E; unfold lock in E; cbn [reads writes waits locked] in *.
  - injection E as <-. by apply Hsame.
  - destruct (mtx s); [done|]. injection E as <-. by apply Hsame.
  - injection E as <-. destruct (nowantwrite _); by apply Hsame.
  - injection E as <-. destruct (decide (i = j)) as [->|Hij]; [by apply cnt_enter|].
    apply Hsame; cbn; rewrite ?(eqb_neq j i) by congruence; try done; destruct (0 <=? _); cbn; by rewrite ?(eqb_neq i j).
  - destruct (mtx s) eqn:Em; [done|]. injection E as <-. apply (cnt_same s _ t _ _ j Et); try done. intros _. by apply no_writers.
  - injection E as <-. by apply Hsame.
  - injection E as <-. specialize (Hone eq_refl). destruct (decide (i = j)) as [->|Hij].
    + apply (cnt_change s _ t _ _ j (usecnt (stores s j) + 1) Et); [done|cbn; rewrite Bool.eqb_reflx; apply fetch_small|];
        cbn [writes reads waits b2z] in *; rewrite ?Bool.eqb_reflx, ?Hone; unfold LONG_MIN; cbn [b2z]; [|change (0 <? 0 - 0 + 0) with false; cbv iota]; lia.
    + apply Hsame; cbn; rewrite ?(eqb_neq j i), ?(eqb_neq i j) by congruence; done.
  - injection E as <-. by apply Hsame.
  - injection E as <-. destruct (decide (i = j)) as [->|Hij].
    + pose proof (count_pos (reads j) _ _ _ Et (Bool.eqb_reflx j)) as Hpos. specialize (Hw Hpos).
      apply (cnt_change s _ t _ _ j (usecnt (stores s j) + -1) Et); [done|cbn; rewrite Bool.eqb_reflx; apply fetch_small|];
        cbn [writes reads waits b2z] in *; rewrite ?Bool.eqb_reflx, ?Hw; unfold LONG_MIN; cbn [b2z]; [|change (0 <? 0 - 0 + 0) with false; cbv iota]; lia.
    + apply Hsame; cbn; rewrite ?(eqb_neq j i), ?(eqb_neq i j) by congruence; done.
  - injection E as <-. by apply Hsame.
  - destruct (vec _ !! k) as [[]|]; [done| |done]. injection E as <-. unfold cnt_ok in *. cbn. destruct (Bool.eqb j (crt s)) eqn:Eb; [|done].
    apply Bool.eqb_prop in Eb as ->. done.
  - injection E as <-. by apply Hsame.
  - injection E as <-. apply Hsame; try done. cbn. destruct (Bool.eqb j i) eqn:Eb; [|done]. by apply Bool.eqb_prop in Eb as ->.
  - specialize (Hone eq_refl). destruct (Z.eqb_spec (usecnt (stores s i)) 0) as [Ez|]; injection E as <-; [|done].
    destruct (decide (i = j)) as [->|Hij].
    + apply (cnt_change s _ t _ _ j LONG_MIN Et); [done|cbn; by rewrite Bool.eqb_reflx|].
      cbn [writes reads waits b2z] in *. rewrite Bool.eqb_reflx, Hone. cbn [b2z]. change (0 <? 0 - 0 + 1) with true. cbv iota. lia.
    + apply Hsame; cbn; rewrite ?(eqb_neq j i), ?(eqb_neq i j) by congruence; done.
  - by injection E as <-.
  - injection E as <-. apply Hsame; try done. cbn. destruct (Bool.eqb j i) eqn:Eb; [|done]. by apply Bool.eqb_prop in Eb as ->.
  - injection E as <-. specialize (Hone eq_refl). destruct (decide (i = j)) as [->|Hij].
    + rewrite Bool.eqb_reflx in Hone. cbn [b2z] in Hone. apply (cnt_change s _ t _ _ j 0 Et); [done|cbn; by rewrite Bool.eqb_reflx|].
      cbn [writes reads waits b2z] in *. rewrite Bool.eqb_reflx, Hone. cbn [b2z].
      change (0 <? 1 - 1 + 0) with false. unfold cnt_ok in Hj. rewrite Hone in Hj. change (0 <? 1) with true in Hj. cbv iota in Hj |- *. lia.
    + apply Hsame; cbn; rewrite ?(eqb_neq j i), ?(eqb_neq i j) by congruence; done.
  - injection E as <-. by apply Hsame.
Qed.

End Bounded.

Lemma vec_with_store s i x j : vec x = vec (stores s i) -> vec (stores (with_store s i x) j) = vec (stores s j).
Proof. intros E. cbn. destruct (Bool.eqb j i) eqn:Eb; [|done]. by apply Bool.eqb_prop in Eb as ->. Qed.

Lemma sub_fill (v : Vec) k x : v !! k = Some None -> sub v (<[k := Some x]> v).
Proof. intros E j y Ej. rewrite list_lookup_insert_ne; [done|]. intros ->. congruence. Qed.

Lemma sub_app (v w : Vec) : sub v (v ++ w).
Proof. intros j y E. by apply lookup_app_l_Some. Qed.

Lemma ahead_locked p : ahead p = true -> locked p = true.
Proof. by destruct p. Qed.

Lemma not_ahead s t p : lock_ok s -> thr s !! t = Some p -> locked p = true -> ahead p = false ->
  forall u q, thr s !! u = Some q -> ahead q = false.
Proof.
  intros H E Hp Hnp u q Eq. destruct (ahead q) eqn:Ea; [|done]. destruct (decide (u = t)) as [->|Hne]; [congruence|].
  apply ahead_locked in Ea. by rewrite (only_locked s t p H E Hp u q Eq Hne) in Ea.
Qed.

(** Nothing is lost from a vector, and the current one has at least what it had. *)
Lemma grows s t a s' : inv s -> act s t a = Some s' ->
  (forall j, sub (vec (stores s j)) (vec (stores s' j))) /\ sub (vec (stores s (crt s))) (vec (stores s' (crt s'))).
Proof.
  intros [Hl Ha _ _ [Hv1 Hv2]] E. unfold act in E; apply bind_Some in E as (p & Et & E). specialize (Ha t p Et).
  destruct p as [|i v|i v|v|v|i v|i v|i v| |i|i|i|i|i], a; try done; cbn in E; unfold lock in E; cbn in Ha.
  all: try (injection E as <-; split; intros; cbn [stores goto crt with_mtx]; by rewrite ?vec_with_store).
  - by destruct (mtx s); [|injection E as <-].
  - by destruct (mtx s); [|injection E as <-].
  - destruct (vec (stores s (crt s)) !! k) as [[]|] eqn:Ek; [done| |done]. injection E as <-. cbn. rewrite Bool.eqb_reflx.
    split; [|by apply sub_fill]. intros j. destruct (Bool.eqb j (crt s)) eqn:Eb; [|done]. apply Bool.eqb_prop in Eb as ->. by apply sub_fill.
  - destruct (usecnt _ =? 0); injection E as <-; [|done]. split; intros; cbn [stores goto crt]; by rewrite ?vec_with_store.
  - injection E as <-. subst i. cbn. split.
    + intros j. destruct (Bool.eqb j (negb (crt s))) eqn:Eb; [|done]. apply Bool.eqb_prop in Eb as ->. cbn.
      etransitivity; [|apply sub_app]. by apply Hv2, (not_ahead s t (WIn (negb (crt s))) Hl Et).
    + by rewrite (eqb_neq (crt s)) by (by destruct (crt s)).
  - injection E as <-. subst i. split; [done|]. cbn. by apply (Hv1 t (WOut (negb (crt s)))).
Qed.

Lemma seen_mono s s' p : (forall j, sub (vec (stores s j)) (vec (stores s' j))) -> sub (vec (stores s (crt s))) (vec (stores s' (crt s'))) ->
  seen_ok s p -> seen_ok s' p.
Proof.
  intros Hj Hc. destruct p; cbn; try done; first [intros [H1 H2]; split; [exact (transitivity H1 (Hj _))|exact (transitivity H2 Hc)]|intros H; exact (transitivity H Hc)].
Qed.

Lemma seen_step s t a s' : inv s -> act s t a = Some s' -> forall u q, thr s' !! u = Some q -> seen_ok s' q.
Proof.
  intros Hi E. destruct (grows s t a s' Hi E) as [Hj Hc]. pose proof (fun p => seen_mono s s' p Hj Hc) as Hm. destruct Hi as [Hl Ha _ Hs _].
  intros u q Eq. destruct (decide (u = t)) as [->|Hne].
  2: { apply Hm, (Hs u). unfold act, lock in E. apply bind_Some in E as (p & Et & E).
       destruct p, a; try done; repeat case_match; simplify_eq; cbn in Eq; by rewrite ?list_lookup_insert_ne in Eq by done. }
  unfold act, lock in E; apply bind_Some in E as (p & Et & E). pose proof (Hm p (Hs t p Et)) as Hsp. specialize (Ha t p Et).
  pose proof (lookup_lt_Some _ _ _ Et) as Hlt.
  destruct p as [|i v|i v|v|v|i v|i v|i v| |i|i|i|i|i], a; try done; cbn in E; repeat case_match; try done; injection E as <-; cbn in Eq;
    rewrite ?list_lookup_insert_eq in Eq by done; try rewrite Et in Eq; injection Eq as <-; cbn in Hsp |- *; done || apply Hsp.
Qed.

Lemma vec_same s s' t p q : thr s !! t = Some p -> thr s' = thr s -> crt s' = crt s ->
  (forall j, vec (stores s' j) = vec (stores s j)) -> ahead q = ahead p -> vec_ok s -> vec_ok (goto s' t q).
Proof.
  intros E Et Ec Hv Ea [H1 H2]. split; cbn [crt stores goto]; rewrite !Hv, !Ec.
  - intros u r [[-> ->]|[Hne Eq]]%lookup_goto Hr; [apply (H1 t p E); congruence|]. rewrite Et in Eq. by apply (H1 u r).
  - intros Hno. apply H2. intros u r Eq. destruct (decide (u = t)) as [->|Hne].
    + rewrite E in Eq. simplify_eq. rewrite <- Ea. apply (Hno t). cbn. rewrite Et. apply list_lookup_insert_eq. by apply lookup_lt_Some in E.
    + apply (Hno u). cbn. rewrite Et. by rewrite list_lookup_insert_ne.
Qed.

Lemma vec_step s t a s' : inv s -> act s t a = Some s' -> vec_ok s'.
Proof.
  intros [Hl Ha _ _ Hv] E. unfold act in E; apply bind_Some in E as (p & Et & E). specialize (Ha t p Et).
  pose proof (fun s1 q => vec_same s s1 t p q Et) as Hsame.
  destruct p as [|i v|i v|v|v|i v|i v|i v| |i|i|i|i|i], a; try done; cbn in E; unfold lock in E; cbn in Ha.
  all: try (injection E as <-; apply Hsame; [done|done| | |done]; [intros; cbn [stores goto crt with_mtx]; by rewrite ?vec_with_store|by try case_match]).
  - destruct (mtx s); [done|]. injection E as <-. by apply Hsame.
  - destruct (mtx s); [done|]. injection E as <-. by apply Hsame.
  - destruct (vec (stores s (crt s)) !! k) as [[]|] eqn:Ek; [done| |done]. injection E as <-. destruct Hv as [H1 H2].
    assert (forall u q, thr s !! u = Some q -> ahead q = false) as Hno by by apply (not_ahead s t WLocked).
    split; cbn; rewrite Bool.eqb_reflx, (eqb_neq (negb (crt s)) (crt s)) by (by destruct (crt s)).
    + intros u q Eq Hq. by rewrite (Hno u q Eq) in Hq.
    + intros _. etransitivity; [by apply H2|]. by apply sub_fill.
  - destruct (usecnt _ =? 0); injection E as <-; [|done]. apply Hsame; try done. intros. by rewrite vec_with_store.
  - by injection E as <-.
  - injection E as <-. subst i. split; cbn; rewrite Bool.eqb_reflx, (eqb_neq (crt s) (negb (crt s))) by (by destruct (crt s)).
    + intros. apply sub_app.
    + intros Hno. specialize (Hno t (WWrote (negb (crt s)))). discriminate Hno. apply list_lookup_insert_eq. by apply lookup_lt_Some in Et.
  - injection E as <-. subst i. destruct Hv as [H1 H2]. split; cbn; rewrite negb_involutive.
    + intros u q [(-> & <- & _)|(Hne & Eq)]%list_lookup_insert_Some Hq; [done|]. apply ahead_locked in Hq.
      by rewrite (only_locked s t _ Hl Et eq_refl u q Eq) in Hq.
    + intros _. by apply (H1 t (WOut (negb (crt s)))).
Qed.

Lemma act_length s t a s' : act s t a = Some s' -> length (thr s') = length (thr s).
Proof.
  unfold act, lock. intros (p & Et & E)%bind_Some. destruct p, a; try done; repeat case_match; simplify_eq; cbn; by rewrite ?length_insert.
Qed.

(** A writer that waits has announced itself, and the announcement stays. *)
Definition announced (i : bool) (p : pc) : bool :=
  match p with WSpins j | WIn j | WWrote j | WOut j => Bool.eqb j i | _ => false end.

Lemma want_stays s t a s' i : act s t a = Some s' -> nowantwrite (stores s i) = false -> nowantwrite (stores s' i) = false.
Proof.
  unfold act, lock. intros (p & Et & E)%bind_Some H. destruct p, a; try done; repeat case_match; simplify_eq; cbn; try done;
    case_match eqn:Eb; try done; apply Bool.eqb_prop in Eb; by subst.
Qed.

Lemma want_step s t a s' : act s t a = Some s' ->
  (forall u p i, thr s !! u = Some p -> announced i p = true -> nowantwrite (stores s i) = false) ->
  forall u p i, thr s' !! u = Some p -> announced i p = true -> nowantwrite (stores s' i) = false.
Proof.
  intros E H u q i Eq Hq. assert (thr s !! u = Some q -> nowantwrite (stores s' i) = false) as Hold.
  { intros Eo. by apply (want_stays s t a), (H u q i). }
  unfold act, lock in E. apply bind_Some in E as (p & Et & E).
  destruct p, a; try done; repeat case_match; simplify_eq; auto;
    apply lookup_goto in Eq as [[-> ->]|[? ?]]; auto; try done; cbn in Hq; try (by case_match); apply Bool.eqb_prop in Hq as ->; cbn;
    rewrite ?Bool.eqb_reflx; try done; apply (H _ _ _ Et); cbn; by rewrite Bool.eqb_reflx.
Qed.

Lemma reachable_inv n s : Z.of_nat n < 2 ^ 63 -> reachable n s -> length (thr s) = n /\ inv s /\
  (forall u p i, thr s !! u = Some p -> announced i p = true -> nowantwrite (stores s i) = false).
Proof.
  intros Hn H. unfold reachable in H. apply rtc_ind_r with (P := fun s => length (thr s) = n /\ inv s /\
    (forall u p i, thr s !! u = Some p -> announced i p = true -> nowantwrite (stores s i) = false)) (z := s) in H; [done| |].
  - split; [apply length_replicate|]. split; [apply inv_start|]. intros u p i E. by apply lookup_replicate in E as [-> _].
  - intros s1 s2 _ (t & a & E) (El & Hi & Hw). split; [by rewrite (act_length _ _ _ _ E)|]. split; [|by apply (want_step s1 t a)].
    split; [by eapply lock_step, E; apply Hi|by eapply at_step|by eapply cnt_step|by eapply seen_step|by eapply vec_step].
Qed.

(** A writer waits for the readers that are in its store and those about to enter it. *)
Definition ahead_of (i : bool) (s : State) : Z := 2 * count (wants i) (thr s) + count (reads i) (thr s).

(** No other thread makes the wait longer, and those it waits for shorten it. *)
Lemma ahead_step s t u a s' i : inv s -> nowantwrite (stores s i) = false -> thr s !! t = Some (WSpins i) -> u <> t -> act s u a = Some s' ->
  ahead_of i s' <= ahead_of i s /\ thr s' !! t = Some (WSpins i) /\
  (forall p, thr s !! u = Some p -> wants i p || reads i p = true -> ahead_of i s' < ahead_of i s).
Proof.
  intros [Hl _ _ _ _] Hw Et Hne E. unfold act, lock in E. apply bind_Some in E as (p & Eu & E).
  pose proof (only_locked s t _ Hl Et eq_refl u p Eu Hne) as Hlk. unfold ahead_of.
  assert (mtx s = Some t) as Hm by (by apply (Hl t _ Et)).
  destruct p as [|i' v|i' v|v|v|i' v|i' v|i' v| |i'|i'|i'|i'|i'], a; try done; cbn in Hlk; try done; rewrite ?Hm in E; try done; injection E as <-;
    cbn [thr goto with_store]; rewrite !(count_insert _ _ _ _ _ Eu), list_lookup_insert_ne by done.
  - cbn [wants reads b2z]. split; [lia|]. split; [done|]. intros p Ep. rewrite Eu in Ep. by injection Ep as <-.
  - split; [|split; [done|intros p Ep; rewrite Eu in Ep; by injection Ep as <-]].
    destruct (decide (i' = i)) as [->|]; [rewrite Hw; cbn [wants reads b2z]; lia|]. destruct (nowantwrite (stores s i')); cbn [wants reads b2z]; rewrite ?(eqb_neq i' i) by done; cbn [b2z]; lia.
  - cbn [wants reads b2z]. split; [|split; [done|intros p Ep; rewrite Eu in Ep; injection Ep as <-; cbn [wants reads]; rewrite orb_false_r; intros ->]];
      destruct (0 <=? _); cbn [wants reads b2z]; destruct (Bool.eqb i' i); cbn [b2z]; lia.
  - cbn [wants reads b2z]. split; [destruct (Bool.eqb i' i); cbn [b2z]; lia|]. split; [done|]. intros p Ep. rewrite Eu in Ep; injection Ep as <-; cbn [wants reads].
    cbn [orb]. intros ->. cbn [b2z]; lia.
Qed.

End Store.

(** ** Properties *)

(** C7: While a writer prepares a version in a store, no thread reads that store and no other thread
    writes; a reader that takes the slow path finds a counter that is not negative (the assertion
    of [aquireRead...Store]). *)
Theorem store_exclusive {A : Type} (n : nat) (s : State (A := A)) :
  Z.of_nat n < 2 ^ 63 -> reachable n s ->
  (forall t u i p q, thr s !! t = Some p -> thr s !! u = Some q -> writes i p = true -> reads i q = false) /\
  (forall t u i j p q, thr s !! t = Some p -> thr s !! u = Some q -> writes i p = true -> writes j q = true -> t = u) /\
  (forall t i v, thr s !! t = Some (RLockedAt i v) -> 0 <= usecnt (stores s i)).
Proof.
  intros Hn Hr. destruct (reachable_inv n s Hn Hr) as (El & Hi & _). split_and!.
  - intros t u i p q Et Eu Hp. destruct (reads i q) eqn:Hq; [|done]. pose proof (count_pos (writes i) _ _ _ Et Hp).
    pose proof (count_pos (reads i) _ _ _ Eu Hq). destruct (cnt_of n Hn s i El (inv_cnt _ Hi i)) as (_ & _ & H3). lia.
  - intros t u i j p q Et Eu Hp Hq. apply writes_locked in Hp, Hq. apply (inv_lock _ Hi _ _ Et) in Hp. apply (inv_lock _ Hi _ _ Eu) in Hq. congruence.
  - intros t i v Et. destruct (cnt_of n Hn s i El (inv_cnt _ Hi i)) as (_ & H2 & _). rewrite H2; [apply count_range|].
    by rewrite (writers s t _ i (inv_lock _ Hi) Et).
Qed.

(** A reader sees every pointer that was in the current store when it started to acquire it. *)
Theorem reader_sees {A : Type} (n : nat) (s : State (A := A)) (t : nat) (i : bool) (v : list (option A)) :
  Z.of_nat n < 2 ^ 63 -> reachable n s -> thr s !! t = Some (RIn i v) -> sub v (vec (stores s i)).
Proof. intros Hn Hr Et. destruct (reachable_inv n s Hn Hr) as (_ & Hi & _). apply (inv_seen _ Hi t _ Et). Qed.

(** C21: A writer gets its store, if readers release what they acquire: the number of readers it has
    to wait for never grows, every step of one of them makes it smaller, and when there are none the
    exchange succeeds, unless it fails spuriously, which changes nothing but that it is tried again. *)
Theorem writer_progress {A : Type} (n : nat) (s : State (A := A)) (t : nat) (i : bool) :
  Z.of_nat n < 2 ^ 63 -> reachable n s -> thr s !! t = Some (WSpins i) ->
  (ahead_of i s = 0 -> exists s', act s t Go = Some s' /\ thr s' !! t = Some (WIn i)) /\ act s t Fails = Some s /\
  (forall u a s', u <> t -> act s u a = Some s' -> ahead_of i s' <= ahead_of i s /\ thr s' !! t = Some (WSpins i) /\
    (forall p, thr s !! u = Some p -> wants i p || reads i p = true -> ahead_of i s' < ahead_of i s)).
Proof.
  intros Hn Hr Et. destruct (reachable_inv n s Hn Hr) as (El & Hi & Hw). split.
  - intros Ha. unfold ahead_of in Ha. pose proof (count_range (wants i) (thr s)). pose proof (count_range (reads i) (thr s)).
    destruct (cnt_of n Hn s i El (inv_cnt _ Hi i)) as (_ & H2 & _). unfold act. rewrite Et. cbn [mbind option_bind].
    rewrite H2 by (by rewrite (writers s t _ i (inv_lock _ Hi) Et)). rewrite (proj2 (Z.eqb_eq _ 0)) by lia.
    eexists. split; [done|]. cbn. apply list_lookup_insert_eq. by apply lookup_lt_Some in Et.
  - split; [unfold act; by rewrite Et|]. intros u a s' Hne E. apply (ahead_step s t u a); try done. apply (Hw t _ i Et). cbn. by rewrite Bool.eqb_reflx.
Qed.

(** Nothing sets [nowantwrite] back to true: once a writer has used a store, every reader that
    starts with it takes the mutex, for ever. *)
Theorem fast_path_lost {A : Type} (n : nat) (s s' : State (A := A)) (t u : nat) (i : bool) (v : list (option A)) :
  Z.of_nat n < 2 ^ 63 -> reachable n s -> thr s !! t = Some (WSpins i) -> rtc step s s' ->
  thr s' !! u = Some (RLoaded i v) -> act s' u Go = Some (goto s' u (RWaits v)).
Proof.
  intros Hn Hr Et Hs Eu. destruct (reachable_inv n s Hn Hr) as (_ & _ & Hw).
  assert (nowantwrite (stores s' i) = false) as Hf.
  { specialize (Hw t _ i Et (Bool.eqb_reflx i)). clear -Hw Hs.
    induction Hs as [|s1 s2 s3 (t & a & E) _ IH]; [done|]. by apply IH, (want_stays s1 t a). }
  unfold act. rewrite Eu. cbn [mbind option_bind]. by rewrite Hf.
Qed.

(** ** Examples *)

Fixpoint play {A : Type} (s : State (A := A)) (l : list (nat * action (A := A))) : option State :=
  match l with
  | [] => Some s
  | (t, a) :: l => s ← act s t a; play s l
  end.

Lemma play_rtc {A : Type} l : forall s s' : State (A := A), play s l = Some s' -> rtc step s s'.
Proof.
  induction l as [|[t a] l IH]; intros s s' E; cbn in E; [by simplify_eq|].
  apply bind_Some in E as (s1 & E1 & E). apply (rtc_l _ _ s1); [by exists t, a|by apply IH].
Qed.

Definition ends {A : Type} (s : State (A := A)) l : bool := if play s l is Some _ then true else false.

Lemma play_reaches {A : Type} l (s : State (A := A)) : ends s l = true -> rtc step s (default s (play s l)).
Proof. unfold ends. destruct (play s l) as [s'|] eqn:E; [|done]. intros _. by apply (play_rtc l). Qed.

(** Thread 1 reads the first store and thread 2 is about to, thread 3 reads the second one, and
    thread 0, which has written the second, wants to write the first again. *)
Definition moves : list (nat * action (A := nat)) :=
  [(1, Read); (1, Go); (1, Go); (2, Read); (2, Go);
   (0, Write); (0, Go); (0, Go); (0, Go); (0, Extend [Some 7; None]); (0, Go); (0, Go); (0, Fill 1 8); (0, Unlock);
   (3, Read); (3, Go); (3, Go); (3, Go); (3, Go); (3, Go);
   (0, Write); (0, Go); (0, Go)]%nat.

Definition reached : State (A := nat) := default (start 4) (play (start 4) moves).

Lemma reached_reachable : reachable 4 reached.
Proof. apply (play_reaches moves). by vm_compute. Qed.

Lemma store_exclusive_witness :
  thr reached = [WSpins false; RIn false []; RWants false []; RIn true [Some 7%nat; Some 8%nat]] /\
  (forall t u i p q, thr reached !! t = Some p -> thr reached !! u = Some q -> writes i p = true -> reads i q = false) /\
  (forall t u i j p q, thr reached !! t = Some p -> thr reached !! u = Some q -> writes i p = true -> writes j q = true -> t = u) /\
  (forall t i v, thr reached !! t = Some (RLockedAt i v) -> 0 <= usecnt (stores reached i)).
Proof. split; [vm_compute; reflexivity|]. apply (store_exclusive 4 reached); [lia|exact reached_reachable]. Defined.

Lemma reader_sees_witness : sub [Some 7%nat; Some 8%nat] (vec (stores reached true)).
Proof. apply (reader_sees 4 reached 3); [lia|exact reached_reachable|vm_compute; reflexivity]. Defined.

Lemma writer_progress_witness : ahead_of false reached = 3 /\
  (ahead_of false reached = 0 -> exists s', act reached 0 Go = Some s' /\ thr s' !! 0%nat = Some (WIn false)) /\ act reached 0 Fails = Some reached /\
  (forall u a s', u <> 0%nat -> act reached u a = Some s' -> ahead_of false s' <= ahead_of false reached /\ thr s' !! 0%nat = Some (WSpins false) /\
    (forall p, thr reached !! u = Some p -> wants false p || reads false p = true -> ahead_of false s' < ahead_of false reached)).
Proof. split; [vm_compute; reflexivity|]. apply (writer_progress 4 reached 0 false); [lia|exact reached_reachable|vm_compute; reflexivity]. Defined.

(** The readers leave, the first store becomes current again, and a reader finds it closed. *)
Definition more_moves : list (nat * action (A := nat)) :=
  [(1, Go); (2, Go); (2, Go); (0, Go); (0, Extend [Some 9]); (0, Go); (0, Go); (0, Unlock); (1, Read)]%nat.

Definition later : State (A := nat) := default reached (play reached more_moves).

Lemma fast_path_lost_witness :
  act later 1 Go = Some (goto later 1 (RWaits [Some 7%nat; Some 8%nat; Some 9%nat])).
Proof.
  apply (fast_path_lost 4 reached later 0 1 false); [lia|exact reached_reachable|vm_compute; reflexivity| |vm_compute; reflexivity].
  apply (play_reaches more_moves). vm_compute. reflexivity.
Defined.

End StoreLock.
