(* ===== verification/Manager.v ===== *)
(** * The manager

    solid/frame/src/manager.cpp: the tables of services and objects; solid/frame/objectbase.hpp,
    src/object.cpp, service.hpp and src/service.cpp, what services and objects keep for it.

    A table is a vector of pointers kept twice ([Double]; StoreLock.v shows that readers and
    writers do not disturb each other). Objects sit in chunks of [objchkcnt] places; a service
    owns a list of chunks. The mutexes are left out: an operation is one step of the model, the
    two critical sections of [unregisterObject] are two. Where the code waits for a condition
    variable, the rest of the function is a step of its own ([..._resume]). *)

From stdpp Require Import gmap list.
From S2P Require Import Prelude FrameCommon StoreLock.
Import FrameCommon StoreLock.
#[local] Open Scope res_scope.
#[local] Open Scope Z_scope.

Module Manager.

(** ** Data *)

(** Addresses of services, objects and reactors *)
Abbreviation Svc := nat.
Abbreviation Obj := nat.
Abbreviation Rct := nat.

Abbreviation Invalid := (InvalidIndex 64).

Record ObjectStub := mkObjectStub { pobject : option Obj; preactor : option Rct; os_unique : Z }.

Record ObjectChunk := mkObjectChunk { svcidx : Z; nextchk : Z; chk_objcnt : Z; objects : list ObjectStub }.

Inductive ManagerState := StateStartingE | StateRunningE | StateStoppingE | StateStoppedE.

#[export] Instance ManagerState_eq_dec : EqDecision ManagerState.
Proof. solve_decision. Defined.

Record ServiceStub := mkServiceStub {
  psvc : option Svc;
  firstchk : Z;
  lastchk : Z;
  state : ManagerState;
  crtobjidx : Z;
  endobjidx : Z;
  objcnt : Z;
  objcache : list Z
}.

(** [ServiceStub::ServiceStub] and the two [reset] *)
Definition ServiceStub_new : ServiceStub := mkServiceStub None Invalid Invalid StateStoppedE Invalid Invalid 0 [].
Definition reset_to (_psvc : Svc) : ServiceStub := mkServiceStub (Some _psvc) Invalid Invalid StateRunningE Invalid Invalid 0 [].
Definition reset : ServiceStub := mkServiceStub None Invalid Invalid StateStoppedE Invalid Invalid 0 [].

Definition ss_state (s : ServiceStub) (x : ManagerState) : ServiceStub :=
  mkServiceStub (psvc s) (firstchk s) (lastchk s) x (crtobjidx s) (endobjidx s) (objcnt s) (objcache s).
Definition ss_cache (s : ServiceStub) (x : list Z) : ServiceStub :=
  mkServiceStub (psvc s) (firstchk s) (lastchk s) (state s) (crtobjidx s) (endobjidx s) (objcnt s) x.
Definition ss_crt (s : ServiceStub) (x y : Z) : ServiceStub :=
  mkServiceStub (psvc s) (firstchk s) (lastchk s) (state s) x y (objcnt s) (objcache s).
Definition ss_chks (s : ServiceStub) (x y : Z) : ServiceStub :=
  mkServiceStub (psvc s) x y (state s) (crtobjidx s) (endobjidx s) (objcnt s) (objcache s).
Definition ss_objcnt (s : ServiceStub) (x : Z) : ServiceStub :=
  mkServiceStub (psvc s) (firstchk s) (lastchk s) (state s) (crtobjidx s) (endobjidx s) x (objcache s).

(** [ServiceStoreStub[2]], [ObjectStoreStub[2]] with the index of the current one *)
Record Double := mkDouble { crtidx : bool; store0 : Store (A := nat); store1 : Store (A := nat) }.

Definition store (d : Double) (i : bool) : Store := if i then store1 d else store0 d.
Definition set_store (d : Double) (i : bool) (x : Store) : Double :=
  if i then mkDouble (crtidx d) (store0 d) x else mkDouble (crtidx d) x (store1 d).

(** The members of [Service] and [ObjectBase] the manager uses *)
Record ServiceMem := mkServiceMem { idx : Z; running : bool }.
Record ObjectBase := mkObjectBase { fullid : Z; smask : Z }.

Definition Service_new : ServiceMem := mkServiceMem Invalid false.
Definition ObjectBase_new : ObjectBase := mkObjectBase Invalid 0.

Definition isRegistered (s : ServiceMem) : bool := negb (idx s =? Invalid).

Section Types.
Context {World Ev : Type}.

Record Data := mkData {
  svcstore : Double;
  svcdq : list ServiceStub;
  crtsvcidx : Z;
  svccnt : Z;
  svccache : list Z;
  objstore : Double;
  chunks : list ObjectChunk; (* the chunks in memory, at the addresses 0, 1, .. *)
  objchkcnt : Z;
  maxobjcnt : Z;
  chkcache : list Z;
  mstate : ManagerState;
  services : gmap Svc ServiceMem;
  objs : gmap Obj ObjectBase;
  world : World
}.

Definition with_svcstore (d : Data) x : Data := mkData x (svcdq d) (crtsvcidx d) (svccnt d) (svccache d) (objstore d) (chunks d) (objchkcnt d) (maxobjcnt d) (chkcache d) (mstate d) (services d) (objs d) (world d).
Definition with_svcdq (d : Data) x : Data := mkData (svcstore d) x (crtsvcidx d) (svccnt d) (svccache d) (objstore d) (chunks d) (objchkcnt d) (maxobjcnt d) (chkcache d) (mstate d) (services d) (objs d) (world d).
Definition with_crtsvcidx (d : Data) x : Data := mkData (svcstore d) (svcdq d) x (svccnt d) (svccache d) (objstore d) (chunks d) (objchkcnt d) (maxobjcnt d) (chkcache d) (mstate d) (services d) (objs d) (world d).
Definition with_svccnt (d : Data) x : Data := mkData (svcstore d) (svcdq d) (crtsvcidx d) x (svccache d) (objstore d) (chunks d) (objchkcnt d) (maxobjcnt d) (chkcache d) (mstate d) (services d) (objs d) (world d).
Definition with_svccache (d : Data) x : Data := mkData (svcstore d) (svcdq d) (crtsvcidx d) (svccnt d) x (objstore d) (chunks d) (objchkcnt d) (maxobjcnt d) (chkcache d) (mstate d) (services d) (objs d) (world d).
Definition with_objstore (d : Data) x : Data := mkData (svcstore d) (svcdq d) (crtsvcidx d) (svccnt d) (svccache d) x (chunks d) (objchkcnt d) (maxobjcnt d) (chkcache d) (mstate d) (services d) (objs d) (world d).
Definition with_chunks (d : Data) x : Data := mkData (svcstore d) (svcdq d) (crtsvcidx d) (svccnt d) (svccache d) (objstore d) x (objchkcnt d) (maxobjcnt d) (chkcache d) (mstate d) (services d) (objs d) (world d).
Definition with_maxobjcnt (d : Data) x : Data := mkData (svcstore d) (svcdq d) (crtsvcidx d) (svccnt d) (svccache d) (objstore d) (chunks d) (objchkcnt d) x (chkcache d) (mstate d) (services d) (objs d) (world d).
Definition with_chkcache (d : Data) x : Data := mkData (svcstore d) (svcdq d) (crtsvcidx d) (svccnt d) (svccache d) (objstore d) (chunks d) (objchkcnt d) (maxobjcnt d) x (mstate d) (services d) (objs d) (world d).
Definition with_mstate (d : Data) x : Data := mkData (svcstore d) (svcdq d) (crtsvcidx d) (svccnt d) (svccache d) (objstore d) (chunks d) (objchkcnt d) (maxobjcnt d) (chkcache d) x (services d) (objs d) (world d).
Definition with_services (d : Data) x : Data := mkData (svcstore d) (svcdq d) (crtsvcidx d) (svccnt d) (svccache d) (objstore d) (chunks d) (objchkcnt d) (maxobjcnt d) (chkcache d) (mstate d) x (objs d) (world d).
Definition with_objs (d : Data) x : Data := mkData (svcstore d) (svcdq d) (crtsvcidx d) (svccnt d) (svccache d) (objstore d) (chunks d) (objchkcnt d) (maxobjcnt d) (chkcache d) (mstate d) (services d) x (world d).
Definition with_world (d : Data) x : Data := mkData (svcstore d) (svcdq d) (crtsvcidx d) (svccnt d) (svccache d) (objstore d) (chunks d) (objchkcnt d) (maxobjcnt d) (chkcache d) (mstate d) (services d) (objs d) x.

(** What the manager calls: [ReactorBase::raise] for an object of the reactor, and what
    [std::vector] allocates in advance when a pointer is pushed to a vector of this size. *)
Class ManagerEnv := {
  raise : World -> Rct -> Obj -> Ev -> World * bool;
  kill_event : Ev;
  extra_capacity : nat -> nat
}.

End Types.

Arguments Data : clear implicits.
Arguments ManagerEnv : clear implicits.

(** [Data::Data] and [Manager::Manager] *)
Definition Manager_new {World : Type} (_objbucketsize : Z) (w : World) : Data World :=
  mkData (mkDouble false Store_new Store_new) [] 0 0 [] (mkDouble false Store_new Store_new) [] _objbucketsize 0 []
    StateRunningE ∅ ∅ w.

(** ** The stores

    As in StoreLock.v, by a thread that runs alone. *)

Definition aquireRead (d : Double) : Double * bool :=
  let i := crtidx d in
  let slow (d : Double) := (set_store d (crtidx d) (fetch_add (store d (crtidx d)) 1), crtidx d) in
  if nowantwrite (store d i) then
    let n := usecnt (store d i) in
    let d := set_store d i (fetch_add (store d i) 1) in
    if 0 <=? n then (d, i) else slow d
  else slow d.

Definition releaseRead (d : Double) (i : bool) : Double := set_store d i (fetch_add (store d i) (-1)).

(** The [while] around [compare_exchange_weak] never ends when the store is in use. *)
Definition aquireWrite (d : Double) : res (Double * bool) :=
  let i := negb (crtidx d) in
  let d := set_store d i (set_wantwrite (store d i)) in
  if usecnt (store d i) =? 0 then Done (set_store d i (set_usecnt (store d i) LONG_MIN), i) else NoFuel.

Definition releaseWrite (d : Double) (i : bool) : Double :=
  let d := set_store d i (set_usecnt (store d i) 0) in
  mkDouble i (store0 d) (store1 d).

Section Ops.
Context {World Ev : Type} {ME : ManagerEnv World Ev}.

Abbreviation data := (Data World).
Implicit Types (d : data).

(** The pointer at a place of a vector, and what it points to *)
Definition vec_deref (v : list (option nat)) (i : Z) : res nat := let! p := vec_get v i in of_option p.

Definition service_at d (si : bool) (i : Z) : res (nat * ServiceStub) :=
  let! p := vec_deref (vec (store (svcstore d) si)) i in
  let! s := of_option (svcdq d !! p) in
  Done (p, s).

Definition put_service d (p : nat) (s : ServiceStub) : data := with_svcdq d (<[p := s]> (svcdq d)).

Definition chunk_at d (si : bool) (i : Z) : res (nat * ObjectChunk) :=
  let! p := vec_deref (vec (store (objstore d) si)) i in
  let! c := of_option (chunks d !! p) in
  Done (p, c).

Definition put_chunk d (p : nat) (c : ObjectChunk) : data := with_chunks d (<[p := c]> (chunks d)).

(** [Data::chunk] *)
Definition chunk d (_storeidx : bool) (_idx : Z) : res (nat * ObjectChunk) := chunk_at d _storeidx (_idx / objchkcnt d).

Definition aquireReadServiceStore d : data * bool := let '(x, i) := aquireRead (svcstore d) in (with_svcstore d x, i).
Definition releaseReadServiceStore d (_idx : bool) : data := with_svcstore d (releaseRead (svcstore d) _idx).
Definition aquireReadObjectStore d : data * bool := let '(x, i) := aquireRead (objstore d) in (with_objstore d x, i).
Definition releaseReadObjectStore d (_idx : bool) : data := with_objstore d (releaseRead (objstore d) _idx).

(** [Data::allocateChunk] *)
Definition allocateChunk d : data * nat :=
  (with_chunks d (chunks d ++ [mkObjectChunk Invalid Invalid 0 (replicate (Z.to_nat (objchkcnt d)) (mkObjectStub None None 0))]), length (chunks d)).

Definition chunk_clear (c : ObjectChunk) : ObjectChunk := mkObjectChunk Invalid Invalid 0 (objects c).

(** ** Services *)

Definition service_mem d (s : Svc) : res ServiceMem := of_option (services d !! s).
Definition put_service_mem d (s : Svc) (m : ServiceMem) : data := with_services d (<[s := m]> (services d)).

(** [registerService]; the index is taken from the cache without removing it there. *)
Definition registerService d (_rs : Svc) : res (data * bool) :=
  let! m := service_mem d _rs in
  if isRegistered m then Done (d, false)
  else if negb (bool_decide (mstate d = StateRunningE)) then Done (d, false)
  else
    let i := crtidx (svcstore d) in
    let! (d, si, k) :=
      match svccache d with
      | k :: _ => Done (d, i, k)
      | [] =>
          let k := crtsvcidx d in
          if k <? Z.of_nat (length (vec (store (svcstore d) i))) then
            let d := with_svcdq d (svcdq d ++ [ServiceStub_new]) in
            let! v := vec_set (vec (store (svcstore d) i)) k (Some (Z.to_nat k)) in
            let d := with_svcstore d (set_store (svcstore d) i (set_vec (store (svcstore d) i) v)) in
            Done (with_crtsvcidx d (k + 1), i, k)
          else
            let! (x, j) := aquireWrite (svcstore d) in
            let v := vec (store x i) ++ [None] in
            let v := v ++ replicate (extra_capacity (length v)) None in
            let d := with_svcdq d (svcdq d ++ [ServiceStub_new]) in
            let! v := vec_set v k (Some (Z.to_nat k)) in
            let x := releaseWrite (set_store x j (set_vec (store x j) v)) j in
            Done (with_crtsvcidx (with_svcstore d x) (k + 1), j, k)
      end in
    let d := with_svccnt (put_service_mem d _rs (mkServiceMem k (running m))) (svccnt d + 1) in
    let! (p, _) := service_at d si k in
    Done (put_service d p (reset_to _rs), true).

(** The loop of [doUnregisterService] over the chunks: the index that goes to the cache is the one
    of the next chunk. *)
Fixpoint free_chunks (fuel : nat) d (si : bool) (chkidx : Z) : res data :=
  if chkidx =? Invalid then Done d
  else
    match fuel with
    | O => NoFuel
    | S fuel =>
        let! (p, pchk) := chunk_at d si chkidx in
        let chkidx := nextchk pchk in
        let d := put_chunk d p (chunk_clear pchk) in
        free_chunks fuel (with_chkcache d (chkidx :: chkcache d)) si chkidx
    end.

Definition doUnregisterService d (p : nat) (_rss : ServiceStub) : res data :=
  let objvecidx := crtidx (objstore d) in
  let! s := of_option (psvc _rss) in
  let! m := service_mem d s in
  let d := with_svccache d (idx m :: svccache d) in
  let d := put_service_mem d s (mkServiceMem Invalid (running m)) in
  let! d := free_chunks (S (length (chunks d))) d objvecidx (firstchk _rss) in
  Done (with_svccnt (put_service d p reset) (svccnt d - 1)).

Definition unregisterService d (_rsvc : Svc) : res data :=
  let! m := service_mem d _rsvc in
  if idx m =? Invalid then Done d
  else
    let '(d, si) := aquireReadServiceStore d in
    let! (p, rss) := service_at d si (idx m) in
    if negb (bool_decide (psvc rss = Some _rsvc)) then Done d
    else doUnregisterService (releaseReadServiceStore d si) p rss.

(** ** Objects *)

Inductive Error := error_service_unknown | error_service_not_running | error_object_schedule.

Definition object_mem d (o : Obj) : res ObjectBase := of_option (objs d !! o).
Definition put_object_mem d (o : Obj) (m : ObjectBase) : data := with_objs d (<[o := m]> (objs d)).

Definition set_id d (o : Obj) (i : Z) : res data :=
  let! m := object_mem d o in
  Done (put_object_mem d o (mkObjectBase i (smask m))).

(** A new chunk for a service: the index of its first place. *)
Definition take_chunk d (p : nat) (rss : ServiceStub) : res (data * ServiceStub * Z) :=
  let! (d, chkidx) :=
    match chkcache d with
    | c :: st => Done (with_chkcache d st, c)
    | [] =>
        let! (x, j) := aquireWrite (objstore d) in
        let v := vec (store x j) in
        let v := v ++ drop (length v) (vec (store x (negb j))) in
        let chkidx := Z.of_nat (length v) in
        let '(d, a) := allocateChunk d in
        let x := set_store x j (set_vec (store x j) (v ++ [Some a])) in
        Done (with_objstore d (releaseWrite x j), chkidx)
    end in
  let objidx := wrap 64 (chkidx * objchkcnt d) in
  let rss := ss_crt rss (wrap 64 (objidx + 1)) (wrap 64 (objidx + objchkcnt d)) in
  let d := if maxobjcnt d <? endobjidx rss then with_maxobjcnt d (endobjidx rss) else d in
  if firstchk rss =? Invalid then
    let rss := ss_chks rss chkidx chkidx in
    Done (put_service d p rss, rss, objidx)
  else
    let! (q, c) := chunk_at d (crtidx (objstore d)) (lastchk rss) in
    let d := put_chunk d q (mkObjectChunk (svcidx c) chkidx (chk_objcnt c) (objects c)) in
    let rss := ss_chks rss (firstchk rss) chkidx in
    Done (put_service d p rss, rss, objidx).

(** The index for a new object. *)
Definition take_index d (p : nat) (rss : ServiceStub) : res (data * ServiceStub * Z) :=
  match objcache rss with
  | i :: st => let rss := ss_cache rss st in Done (put_service d p rss, rss, i)
  | [] =>
      if crtobjidx rss <? endobjidx rss then
        let i := crtobjidx rss in
        let rss := ss_crt rss (i + 1) (endobjidx rss) in
        Done (put_service d p rss, rss, i)
      else take_chunk d p rss
  end.

(** The object is put in its place, if [_rfct] could schedule it. *)
Definition place_object d (p : nat) (rss : ServiceStub) (objidx sidx : Z) (_robj : Obj) (_rr : Rct) (_rfct : World -> World * bool)
    : res (data * UniqueId * option Error) :=
  let '(d, si) := aquireReadObjectStore d in
  let! (q, c) := chunk d si objidx in
  let d := releaseReadObjectStore d si in
  let c := mkObjectChunk (if svcidx c =? Invalid then sidx else svcidx c) (nextchk c) (chk_objcnt c) (objects c) in
  let! d := set_id (put_chunk d q c) _robj objidx in
  let '(w, ok) := _rfct (world d) in
  let d := with_world d w in
  if ok then
    let! ros := vec_get (objects c) (objidx mod objchkcnt d) in
    let! v := vec_set (objects c) (objidx mod objchkcnt d) (mkObjectStub (Some _robj) (Some _rr) (os_unique ros)) in
    let d := put_chunk d q (mkObjectChunk (svcidx c) (nextchk c) (chk_objcnt c + 1) v) in
    Done (put_service d p (ss_objcnt rss (objcnt rss + 1)), mkUniqueId objidx (os_unique ros), None)
  else
    let! d := set_id d _robj Invalid in
    Done (put_service d p (ss_cache rss (objidx :: objcache rss)), ObjectId_new, Some error_object_schedule).

Definition registerObject d (_rsvc : Svc) (_robj : Obj) (_rr : Rct) (_rfct : World -> World * bool)
    : res (data * UniqueId * option Error) :=
  let! m := service_mem d _rsvc in
  if idx m =? Invalid then Done (d, ObjectId_new, Some error_service_unknown)
  else
    let '(d, si) := aquireReadServiceStore d in
    let! (p, rss) := service_at d si (idx m) in
    let d := releaseReadServiceStore d si in
    if negb (bool_decide (psvc rss = Some _rsvc)) || negb (bool_decide (state rss = StateRunningE)) then
      Done (d, ObjectId_new, Some error_service_not_running)
    else
      let! (d, rss, objidx) := take_index d p rss in
      place_object d p rss objidx (idx m) _robj _rr _rfct.

(** [unregisterObject], under the mutex of the chunk: what is left to do is to give the index back
    to the service. *)
Definition unregister_chunk d (_robj : Obj) : res (data * (Z * Z)) :=
  let! m := object_mem d _robj in
  let '(d, si) := aquireReadObjectStore d in
  let! (q, c) := chunk d si (fullid m) in
  let objidx := fullid m in
  let d := releaseReadObjectStore d si in
  let! ros := vec_get (objects c) (objidx mod objchkcnt d) in
  let! v := vec_set (objects c) (objidx mod objchkcnt d) (mkObjectStub None None (os_unique ros + 1)) in
  let! d := set_id d _robj Invalid in
  Done (put_chunk d q (mkObjectChunk (svcidx c) (nextchk c) (chk_objcnt c - 1) v), (svcidx c, objidx)).

(** [unregisterObject], under the mutex of the service *)
Definition unregister_index d (x : Z * Z) : res data :=
  let '(d, si) := aquireReadServiceStore d in
  let! (p, rss) := service_at d si x.1 in
  let d := releaseReadServiceStore d si in
  Done (put_service d p (ss_objcnt (ss_cache rss (x.2 :: objcache rss)) (objcnt rss - 1))).

Definition unregisterObject d (_robj : Obj) : res data :=
  let! (d, x) := unregister_chunk d _robj in
  unregister_index d x.

(** [ObjectBase::unregister] *)
Definition unregister d (_robj : Obj) : res data :=
  let! m := object_mem d _robj in
  if fullid m =? Invalid then Done d
  else
    let! d := unregisterObject d _robj in
    set_id d _robj Invalid.

Definition disableObjectVisits d (_robj : Obj) : res (data * bool) :=
  let! m := object_mem d _robj in
  if fullid m =? Invalid then Done (d, false)
  else
    let '(d, si) := aquireReadObjectStore d in
    let! (q, c) := chunk d si (fullid m) in
    let d := releaseReadObjectStore d si in
    let! ros := vec_get (objects c) (fullid m mod objchkcnt d) in
    let! v := vec_set (objects c) (fullid m mod objchkcnt d) (mkObjectStub (pobject ros) None (os_unique ros)) in
    Done (put_chunk d q (mkObjectChunk (svcidx c) (nextchk c) (chk_objcnt c) v), bool_decide (is_Some (preactor ros))).

(** ** Visiting objects *)

(** A visit function changes what objects and reactors keep. *)
Abbreviation Visit := (gmap Obj ObjectBase -> World -> Obj -> Rct -> res (gmap Obj ObjectBase * World * bool)).

Definition apply_visit d (f : Visit) (o : Obj) (r : Rct) : res (data * bool) :=
  let! (os, w, b) := f (objs d) (world d) o r in
  Done (with_world (with_objs d os) w, b).

Definition doVisit d (_ruid : UniqueId) (_rfct : Visit) : res (data * bool) :=
  if uid_index _ruid <? maxobjcnt d then
    let '(d, si) := aquireReadObjectStore d in
    let! (_, c) := chunk d si (uid_index _ruid) in
    let! ros := vec_get (objects c) (uid_index _ruid mod objchkcnt d) in
    let! (d, retval) :=
      (if os_unique ros =? uid_unique _ruid then
         match pobject ros, preactor ros with
         | Some o, Some r => apply_visit d _rfct o r
         | _, _ => Done (d, false)
         end
       else Done (d, false)) in
    Done (releaseReadObjectStore d si, retval)
  else Done (d, false).

(** [ObjectBase::notify] *)
Definition object_notify (os : gmap Obj ObjectBase) (o : Obj) (_smask : Z) : res (gmap Obj ObjectBase * bool) :=
  let! m := of_option (os !! o) in
  let osm := smask m in
  Done (<[o := mkObjectBase (fullid m) (Z.lor osm _smask)]> os, negb (Z.lor _smask osm =? osm)).

Definition notify_object (_revt : Ev) (_sigmsk : Z) : Visit := fun os w o r =>
  let raised os w := let '(w, b) := raise w r o _revt in Done (os, w, b) in
  if _sigmsk =? 0 then raised os w
  else
    let! (os, b) := object_notify os o _sigmsk in
    if b then raised os w else Done (os, w, true).

Definition notify d (_ruid : UniqueId) (_uevt : Ev) (_sigmsk : Z) : res (data * bool) :=
  doVisit d _ruid (notify_object _uevt _sigmsk).

(** The loop over the places of a chunk *)
Fixpoint visit_chunk d (poss : list ObjectStub) (cnt chk_cnt visited_count : Z) (_rfct : Visit) : res (data * Z) :=
  match poss with
  | [] => Done (d, visited_count)
  | ros :: poss =>
      if cnt <? chk_cnt then
        match pobject ros, preactor ros with
        | Some o, Some r =>
            let! (d, _) := apply_visit d _rfct o r in
            visit_chunk d poss (cnt + 1) chk_cnt (visited_count + 1) _rfct
        | _, _ => visit_chunk d poss cnt chk_cnt visited_count _rfct
        end
      else Done (d, visited_count)
  end.

Fixpoint doForEachServiceObject (fuel : nat) d (crtchkidx visited_count : Z) (_rfct : Visit) : res (data * Z) :=
  if crtchkidx =? Invalid then Done (d, visited_count)
  else
    match fuel with
    | O => NoFuel
    | S fuel =>
        let '(d, si) := aquireReadObjectStore d in
        let! (_, rchk) := chunk_at d si crtchkidx in
        let d := releaseReadObjectStore d si in
        let! (d, visited_count) := visit_chunk d (take (Z.to_nat (objchkcnt d)) (objects rchk)) 0 (chk_objcnt rchk) visited_count _rfct in
        doForEachServiceObject fuel d (nextchk rchk) visited_count _rfct
    end.

(** A chunk is in the list of a service at most once: the number of chunks is enough. *)
Definition forEach d (_chkidx : Z) (_rfct : Visit) : res (data * Z) :=
  doForEachServiceObject (length (chunks d)) d _chkidx 0 _rfct.

Definition forEachServiceObject d (_rsvc : Svc) (_rfct : Visit) : res (data * Z) :=
  let! m := service_mem d _rsvc in
  if negb (isRegistered m) then Done (d, 0)
  else
    let '(d, si) := aquireReadServiceStore d in
    let! (_, rss) := service_at d si (idx m) in
    let d := releaseReadServiceStore d si in
    forEach d (firstchk rss) _rfct.

Definition notifyAll d (_rsvc : Svc) (_revt : Ev) (_sigmsk : Z) : res (data * Z) :=
  forEachServiceObject d _rsvc (notify_object _revt _sigmsk).

(** [Manager::raise], [Manager::id], [Manager::service]; the stores are as before when they return. *)
Definition raise_object d (_robj : Obj) (_re : Ev) : res (data * bool) :=
  let! m := object_mem d _robj in
  let '(_, si) := aquireReadObjectStore d in
  let! (_, c) := chunk d si (fullid m) in
  let! ros := vec_get (objects c) (fullid m mod objchkcnt d) in
  let! r := of_option (preactor ros) in
  let! o := of_option (pobject ros) in
  let '(w, b) := raise (world d) r o _re in
  Done (with_world d w, b).

Definition id d (_robj : Obj) : res UniqueId :=
  let! m := object_mem d _robj in
  if fullid m =? Invalid then Done ObjectId_new
  else
    let '(_, si) := aquireReadObjectStore d in
    let! (_, c) := chunk d si (fullid m) in
    let! ros := vec_get (objects c) (fullid m mod objchkcnt d) in
    Done (mkUniqueId (fullid m) (os_unique ros)).

Definition service d (_robj : Obj) : res Svc :=
  let! m := object_mem d _robj in
  let '(_, oi) := aquireReadObjectStore d in
  let! (_, c) := chunk d oi (fullid m) in
  let '(_, si) := aquireReadServiceStore d in
  let! (_, rss) := service_at d si (svcidx c) in
  of_option (psvc rss).

(** ** Starting and stopping *)

Definition startService d (_rsvc : Svc) : res (data * bool) :=
  let! m := service_mem d _rsvc in
  if negb (isRegistered m) then Done (d, false)
  else
    let '(d, si) := aquireReadServiceStore d in
    let! (p, rss) := service_at d si (idx m) in
    let d := releaseReadServiceStore d si in
    if bool_decide (state rss = StateStoppedE) then
      let! s := of_option (psvc rss) in
      let! ms := service_mem d s in
      let d := put_service_mem d s (mkServiceMem (idx ms) true) in
      Done (put_service d p (ss_state rss StateRunningE), true)
    else Done (d, false).

(** All objects of a running service are told to stop. *)
Definition kill_objects d (rss : ServiceStub) : res (data * Z) :=
  let! s := of_option (psvc rss) in
  let! ms := service_mem d s in
  let d := put_service_mem d s (mkServiceMem (idx ms) false) in
  forEach d (firstchk rss) (notify_object kill_event 0).

(** [stopService]; true when the caller has to wait for the last object. *)
Definition stopService d (_rsvc : Svc) (_wait : bool) : res (data * bool) :=
  let! m := service_mem d _rsvc in
  if negb (isRegistered m) then Done (d, false)
  else
    let '(d, si) := aquireReadServiceStore d in
    let! (p, rss) := service_at d si (idx m) in
    let d := releaseReadServiceStore d si in
    match state rss with
    | StateStoppedE => Done (d, false)
    | StateRunningE =>
        let! (d, cnt) := kill_objects d rss in
        if (cnt =? 0) && (objcnt rss =? 0) then Done (put_service d p (ss_state rss StateStoppedE), false)
        else Done (put_service d p (ss_state rss StateStoppingE), _wait)
    | StateStoppingE => Done (d, _wait)
    | StateStartingE => Done (d, false)
    end.

(** After the wait: [None] while there are objects. *)
Definition stopService_resume d (p : nat) : res (option data) :=
  let! rss := of_option (svcdq d !! p) in
  if objcnt rss =? 0 then Done (Some (put_service d p (ss_state rss StateStoppedE))) else Done None.

(** [Manager::stop], the loop that tells all objects to stop *)
Fixpoint stop_services d (v : list (option nat)) : res data :=
  match v with
  | [] => Done d
  | None :: v => stop_services d v
  | Some p :: v =>
      let! rss := of_option (svcdq d !! p) in
      if bool_decide (is_Some (psvc rss)) && bool_decide (state rss = StateRunningE) then
        let! (d, _) := kill_objects d rss in
        stop_services (put_service d p (ss_state rss (if negb (objcnt rss =? 0) then StateStoppingE else StateStoppedE))) v
      else stop_services d v
  end.

(** [Manager::stop], up to the unlock of the first block *)
Inductive Stop := StopReturns | StopGoes | StopWaits.

Definition stop_enter d : data * Stop :=
  match mstate d with
  | StateRunningE => (with_mstate d StateStoppingE, StopGoes)
  | StateStoppingE => (d, if svccnt d =? 0 then StopGoes else StopWaits)
  | _ => (d, StopReturns)
  end.

(** It holds the store of services until its end. *)
Definition stop_broadcast d : res (data * bool) :=
  let '(d, si) := aquireReadServiceStore d in
  let! d := stop_services d (vec (store (svcstore d) si)) in
  Done (d, si).

(** The second loop, for one service: [None] while it has to wait *)
Definition stop_wait d (p : option nat) : res (option data) :=
  match p with
  | None => Done (Some d)
  | Some p =>
      let! rss := of_option (svcdq d !! p) in
      if bool_decide (is_Some (psvc rss)) && bool_decide (state rss = StateStoppingE) then stopService_resume d p
      else Done (Some d)
  end.

Definition stop_leave d (si : bool) : data := with_mstate (releaseReadServiceStore d si) StateStoppedE.

(** [Manager::start]; [None] while it has to wait *)
Definition start d : option data :=
  match mstate d with
  | StateRunningE => Some d
  | StateStoppedE => Some (with_mstate d StateRunningE)
  | _ => None
  end.

End Ops.
End Manager.
