(* ===== verification/ManagerProofs.v ===== *)
(** * The tables of the manager

    The invariant of Manager.v and what registering, unregistering and visiting do to it, as long
    as no service is unregistered. *)

From stdpp Require Import gmap list sorting.
From S2P Require Import Prelude FrameCommon StoreLock Manager.
Import FrameCommon StoreLock Manager.
#[local] Set Warnings "-clear-no-such-hyp".
#[local] Open Scope res_scope.
#[local] Open Scope Z_scope.

Module ManagerProofs.

(** ** Places *)

(** The place of an index in chunks of [K] places, and the service its chunk belongs to *)
Definition stub_at (K : Z) (chs : list ObjectChunk) (i : Z) : option ObjectStub :=
  c ← chs !! Z.to_nat (i / K); objects c !! Z.to_nat (i mod K).

Definition owner (K : Z) (chs : list ObjectChunk) (i : Z) : option Z := svcidx <$> chs !! Z.to_nat (i / K).

Definition taken_stub (s : ObjectStub) : bool := bool_decide (is_Some (pobject s)).

Definition occ (K : Z) (chs : list ObjectChunk) (i : Z) : bool :=
  match stub_at K chs i with Some s => taken_stub s | None => false end.

Definition places (K : Z) (chs : list ObjectChunk) : list Z := seqZ 0 (Z.of_nat (length chs) * K).

(** The indices of a service, and those where an object sits *)
Definition mine (K : Z) (chs : list ObjectChunk) (k : Z) : list Z := filter (fun i => owner K chs i = Some k) (places K chs).
Definition taken (K : Z) (chs : list ObjectChunk) (k : Z) : list Z := filter (fun i => occ K chs i = true) (mine K chs k).

Definition count_taken (l : list ObjectStub) : Z := Z.of_nat (length (filter (fun s => taken_stub s = true) l)).

Lemma filter_same {X : Type} (P Q : X -> Prop) `{forall x, Decision (P x)} `{forall x, Decision (Q x)} (l : list X) :
  (forall x, x ∈ l -> P x <-> Q x) -> filter P l = filter Q l.
Proof.
  induction l as [|x l IH]; intros Hl; [done|]. rewrite !filter_cons, IH by (intros; apply Hl; by right).
  pose proof (Hl x ltac:(by left)). repeat case_decide; tauto.
Qed.

Lemma filter_flip {X : Type} (P Q : X -> Prop) `{forall x, Decision (P x)} `{forall x, Decision (Q x)} (l : list X) i :
  NoDup l -> i ∈ l -> ~ P i -> Q i -> (forall j, j ∈ l -> j <> i -> P j <-> Q j) -> filter Q l ≡ₚ i :: filter P l.
Proof.
  induction l as [|x l IH]; intros Hnd Hi HP HQ Hj; [by apply elem_of_nil in Hi|]. apply NoDup_cons in Hnd as [Hx Hnd].
  rewrite !filter_cons. destruct (decide (P x)) as [Px|Px], (decide (Q x)) as [Qx|Qx].
  - apply elem_of_cons in Hi as [->|Hi]; [done|]. rewrite IH; [apply Permutation_swap|done..|]. intros j ? ?. apply Hj; [by right|done].
  - destruct Qx. destruct (decide (P i)) as [|]; [done|]. apply (Hj x); [by left|by intros ->|done].
  - apply elem_of_cons in Hi as [->|Hi]; [|destruct Px; apply (Hj x); [by left|by intros ->|done]].
    rewrite (filter_same P Q); [done|]. intros j Hjl. apply Hj; [by right|by intros ->].
  - apply elem_of_cons in Hi as [->|Hi]; [done|]. apply IH; try done. intros j ? ?. apply Hj; [by right|done].
Qed.

Section Places.
Context (K : Z) (HK : 1 <= K).

Lemma place_split i c j : 0 <= j < K -> 0 <= c -> i = c * K + j <-> i / K = c /\ i mod K = j.
Proof using HK.
  intros Hj Hc. split.
  - intros ->. rewrite Z.add_comm, Z.div_add, Z.mod_add, Z.div_small, Z.mod_small by lia. lia.
  - intros [<- <-]. pose proof (Z.div_mod i K ltac:(lia)). lia.
Qed.

Lemma place_in i (n : nat) : 0 <= i < Z.of_nat n * K -> 0 <= i / K < Z.of_nat n /\ 0 <= i mod K < K.
Proof using HK.
  intros Hi. pose proof (Z.mod_pos_bound i K ltac:(lia)). split; [|done].
  split; [apply Z.div_pos; lia|]. apply Z.div_lt_upper_bound; lia.
Qed.

Lemma elem_places chs i : i ∈ places K chs <-> 0 <= i < Z.of_nat (length chs) * K.
Proof using Type. unfold places. rewrite elem_of_seqZ. lia. Qed.

Lemma NoDup_places chs : NoDup (places K chs).
Proof using Type. apply NoDup_seqZ. Qed.

Lemma NoDup_mine chs k : NoDup (mine K chs k).
Proof using Type. apply NoDup_filter, NoDup_places. Qed.

(** A chunk is replaced: the places of the others stay. *)
Lemma stub_put chs c ch ch' i : chs !! c = Some ch -> 0 <= i ->
  stub_at K (<[c := ch']> chs) i = if decide (i / K = Z.of_nat c) then objects ch' !! Z.to_nat (i mod K) else stub_at K chs i.
Proof using HK.
  intros E Hi. unfold stub_at. pose proof (Z.div_pos i K Hi ltac:(lia)). case_decide as Hd.
  - rewrite Hd, Nat2Z.id, list_lookup_insert_eq by (by eapply lookup_lt_Some). done.
  - rewrite list_lookup_insert_ne by lia. done.
Qed.

Lemma owner_put chs c ch ch' i : chs !! c = Some ch -> 0 <= i ->
  owner K (<[c := ch']> chs) i = if decide (i / K = Z.of_nat c) then Some (svcidx ch') else owner K chs i.
Proof using HK.
  intros E Hi. unfold owner. pose proof (Z.div_pos i K Hi ltac:(lia)). case_decide as Hd.
  - rewrite Hd, Nat2Z.id, list_lookup_insert_eq by (by eapply lookup_lt_Some). done.
  - rewrite list_lookup_insert_ne by lia. done.
Qed.

(** A place of a chunk is replaced. *)
Lemma stub_set chs c ch ch' j st i : chs !! c = Some ch -> objects ch' = <[j := st]> (objects ch) -> (j < length (objects ch))%nat ->
  Z.of_nat j < K -> 0 <= i ->
  stub_at K (<[c := ch']> chs) i = if decide (i = Z.of_nat c * K + Z.of_nat j) then Some st else stub_at K chs i.
Proof using HK.
  intros E Eo Hj HjK Hi. rewrite (stub_put chs c ch) by done. pose proof (place_split i (Z.of_nat c) (Z.of_nat j) ltac:(lia) ltac:(lia)) as Hs.
  pose proof (Z.mod_pos_bound i K ltac:(lia)).
  destruct (decide (i / K = Z.of_nat c)) as [Hd|Hd].
  - rewrite Eo. destruct (decide (i mod K = Z.of_nat j)) as [Hm|Hm].
    + rewrite decide_True by tauto. by rewrite Hm, Nat2Z.id, list_lookup_insert_eq.
    + rewrite decide_False by tauto. rewrite list_lookup_insert_ne by lia. unfold stub_at. by rewrite Hd, Nat2Z.id, E.
  - by rewrite decide_False by tauto.
Qed.

Lemma stub_some chs i : Forall (fun ch => length (objects ch) = Z.to_nat K) chs -> 0 <= i < Z.of_nat (length chs) * K ->
  exists ch st, chs !! Z.to_nat (i / K) = Some ch /\ objects ch !! Z.to_nat (i mod K) = Some st /\ stub_at K chs i = Some st.
Proof using HK.
  intros Hf Hi. pose proof (place_in i (length chs) Hi) as [Hd Hm].
  destruct (lookup_lt_is_Some_2 chs (Z.to_nat (i / K))) as [ch Hch]; [lia|].
  pose proof (Forall_lookup_1 _ _ _ _ Hf Hch) as Hl. cbv beta in Hl.
  destruct (lookup_lt_is_Some_2 (objects ch) (Z.to_nat (i mod K))) as [st Hst]; [lia|].
  exists ch, st. unfold stub_at. by rewrite Hch.
Qed.

Lemma count_taken_set l j st st' : l !! j = Some st ->
  count_taken (<[j := st']> l) = count_taken l - b2z (taken_stub st) + b2z (taken_stub st').
Proof using Type.
  intros E. unfold count_taken. rewrite (insert_take_drop _ _ _ (lookup_lt_Some _ _ _ E)).
  rewrite <- (take_drop_middle l j st E) at 3. rewrite !filter_app, !filter_cons, !length_app. unfold b2z.
  destruct (taken_stub st), (taken_stub st'); repeat (case_decide; [|try done]); try done; cbn [length]; lia.
Qed.

End Places.

(** ** The stores *)

Definition idle (D : Double) : Prop := forall i, usecnt (store D i) = 0.

Definition crtvec (D : Double) : list (option nat) := vec (store D (crtidx D)).
Definition othervec (D : Double) : list (option nat) := vec (store D (negb (crtidx D))).

(** The store while it is read *)
Definition busy (D : Double) : Double := set_store D (crtidx D) (set_usecnt (store D (crtidx D)) 1).

Lemma aquireRead_idle D : idle D -> aquireRead D = (busy D, crtidx D).
Proof.
  intros H. unfold aquireRead, busy, fetch_add. pose proof (H (crtidx D)) as E. rewrite !E. change (signed 64 (0 + 1)) with 1.
  by destruct (nowantwrite _).
Qed.

Lemma releaseRead_busy D : idle D -> releaseRead (busy D) (crtidx D) = D.
Proof.
  intros H. unfold releaseRead, busy, fetch_add. pose proof (H (crtidx D)) as E.
  destruct D as [[] [w0 u0 v0] [w1 u1 v1]]; cbn in *; by subst.
Qed.

Lemma vec_busy D i : vec (store (busy D) i) = vec (store D i).
Proof. by destruct D as [[] [w0 u0 v0] [w1 u1 v1]], i. Qed.

Lemma aquireWrite_idle D : idle D -> exists D', aquireWrite D = Done (D', negb (crtidx D)) /\
  crtidx D' = crtidx D /\ (forall i, vec (store D' i) = vec (store D i)) /\
  forall v, idle (releaseWrite (set_store D' (negb (crtidx D)) (set_vec (store D' (negb (crtidx D))) v)) (negb (crtidx D))) /\
    crtvec (releaseWrite (set_store D' (negb (crtidx D)) (set_vec (store D' (negb (crtidx D))) v)) (negb (crtidx D))) = v /\
    othervec (releaseWrite (set_store D' (negb (crtidx D)) (set_vec (store D' (negb (crtidx D))) v)) (negb (crtidx D))) = crtvec D.
Proof.
  intros H. pose proof (H true) as E1. pose proof (H false) as E0. destruct D as [[] [w0 u0 v0] [w1 u1 v1]]; cbn in *; subst;
    eexists; (split; [reflexivity|]); (split; [done|]); (split; [by intros []|]); intros v; split_and!; try done; by intros [].
Qed.

(** ** The invariant *)

(** The list of chunks that starts at an index *)
Fixpoint chain (chs : list ObjectChunk) (first : Z) (l : list nat) : Prop :=
  match l with
  | [] => first = Invalid
  | c :: l => first = Z.of_nat c /\ exists ch, chs !! c = Some ch /\ chain chs (nextchk ch) l
  end.

Definition of_svc (k : Z) (l : list (Z * Z)) : list Z := snd <$> filter (fun x => x.1 = k) l.
Definition fresh_of (s : ServiceStub) : list Z := seqZ (crtobjidx s) (endobjidx s - crtobjidx s).

Lemma chain_put chs c ch ch' f l : chs !! c = Some ch -> nextchk ch' = nextchk ch -> chain chs f l -> chain (<[c := ch']> chs) f l.
Proof.
  intros E En. revert f. induction l as [|x l IH]; intros f; cbn; [done|]. intros [-> (y & Ey & H)]. split; [done|].
  destruct (decide (x = c)) as [->|Hne].
  - exists ch'. rewrite list_lookup_insert_eq by (by eapply lookup_lt_Some). split; [done|]. rewrite En. apply IH. congruence.
  - exists y. rewrite list_lookup_insert_ne by done. auto.
Qed.

Lemma owned_put (chs : list ObjectChunk) (c : nat) ch ch' (k : Z) : chs !! c = Some ch -> svcidx ch' = svcidx ch -> forall x : nat,
  (exists y, <[c := ch']> chs !! x = Some y /\ svcidx y = k) <-> (exists y, chs !! x = Some y /\ svcidx y = k).
Proof.
  intros E Es x. destruct (decide (x = c)) as [->|Hne]; [|by rewrite list_lookup_insert_ne].
  rewrite list_lookup_insert_eq by (by eapply lookup_lt_Some). split; intros (y & Ey & <-); [exists ch|exists ch']; split; congruence.
Qed.

(** One place of a chunk changes. *)
Section SetPlace.
Context (K : Z) (HK : 1 <= K) (chs : list ObjectChunk) (c : nat) (ch ch' : ObjectChunk) (j : nat) (st st' : ObjectStub).
Context (Ec : chs !! c = Some ch) (Esv : svcidx ch' = svcidx ch) (Eo : objects ch' = <[j := st']> (objects ch)).
Context (Ej : objects ch !! j = Some st) (HjK : Z.of_nat j < K).

Abbreviation chs' := (<[c := ch']> chs).
Abbreviation place := (Z.of_nat c * K + Z.of_nat j).

Lemma set_stub_at i : 0 <= i -> stub_at K chs' i = if decide (i = place) then Some st' else stub_at K chs i.
Proof using All. intros. apply (stub_set K HK chs c ch); try done. by eapply lookup_lt_Some. Qed.

Lemma set_place_old : stub_at K chs place = Some st.
Proof using All.
  unfold stub_at. destruct (proj1 (place_split K HK place (Z.of_nat c) (Z.of_nat j) ltac:(lia) ltac:(lia)) eq_refl) as [-> ->].
  by rewrite !Nat2Z.id, Ec.
Qed.

Lemma set_owner i : 0 <= i -> owner K chs' i = owner K chs i.
Proof using All.
  intros. rewrite (owner_put K HK chs c ch) by done. case_decide as Hd; [|done]. unfold owner. by rewrite Hd, Nat2Z.id, Ec, Esv.
Qed.

Lemma set_mine k : mine K chs' k = mine K chs k.
Proof using All.
  unfold mine, places. rewrite length_insert. apply filter_same. intros i Hi%elem_of_seqZ. by rewrite set_owner by lia.
Qed.

Lemma set_occ i : 0 <= i -> occ K chs' i = if decide (i = place) then taken_stub st' else occ K chs i.
Proof using All. intros. unfold occ. rewrite set_stub_at by done. by case_decide. Qed.

Lemma set_occ_old : occ K chs place = taken_stub st.
Proof using All. unfold occ. by rewrite set_place_old. Qed.

Lemma place_mine k : place ∈ mine K chs k <-> svcidx ch = k.
Proof using All.
  unfold mine. rewrite list_elem_of_filter, elem_places. unfold owner.
  destruct (proj1 (place_split K HK place (Z.of_nat c) (Z.of_nat j) ltac:(lia) ltac:(lia)) eq_refl) as [-> _].
  rewrite Nat2Z.id, Ec. cbn. apply lookup_lt_Some in Ec. split; [intros [? _]; congruence|]. intros ->. split; [done|]. nia.
Qed.

Lemma mine_nonneg k i : i ∈ mine K chs k -> 0 <= i.
Proof using All. unfold mine. rewrite list_elem_of_filter, elem_places. lia. Qed.

Lemma set_taken_same k : taken_stub st' = taken_stub st \/ svcidx ch <> k -> taken K chs' k = taken K chs k.
Proof using All.
  intros Hs. unfold taken. rewrite set_mine. apply filter_same. intros i Hi. rewrite set_occ by (by eapply mine_nonneg).
  case_decide as Hd; [|done]. subst i. destruct Hs as [->|Hn]; [by rewrite set_occ_old|]. by apply place_mine in Hi.
Qed.

Lemma set_taken_in : taken_stub st = false -> taken_stub st' = true -> taken K chs' (svcidx ch) ≡ₚ place :: taken K chs (svcidx ch).
Proof using All.
  intros Hf Ht. unfold taken. rewrite set_mine. apply filter_flip.
  - apply NoDup_mine.
  - by apply place_mine.
  - by rewrite set_occ_old, Hf.
  - rewrite set_occ by lia. by rewrite decide_True.
  - intros i Hi Hne. rewrite set_occ by (by eapply mine_nonneg). by rewrite decide_False.
Qed.

Lemma set_taken_out : taken_stub st = true -> taken_stub st' = false -> taken K chs (svcidx ch) ≡ₚ place :: taken K chs' (svcidx ch).
Proof using All.
  intros Ht Hf. unfold taken. rewrite set_mine. apply filter_flip.
  - apply NoDup_mine.
  - by apply place_mine.
  - rewrite set_occ by lia. by rewrite decide_True, Hf.
  - by rewrite set_occ_old.
  - intros i Hi Hne. rewrite set_occ by (by eapply mine_nonneg). by rewrite decide_False.
Qed.

End SetPlace.

Section Inv.
Context {World : Type}.
Implicit Types (d : Data World).

Abbreviation K := objchkcnt.

(** A service owns the indices of its chunks: each is used by an object, was used and is being
    given back ([pend]) or handed out ([held]), waits in the cache, or was never used. *)
Record svc_ok (d : Data World) (pend held : list (Z * Z)) (k : nat) (s : ServiceStub) : Prop := {
  so_svc : exists a m, psvc s = Some a /\ services d !! a = Some m /\ idx m = Z.of_nat k;
  so_chain : exists l, chain (chunks d) (firstchk s) l /\ NoDup l /\
    (forall c, c ∈ l <-> exists ch, chunks d !! c = Some ch /\ svcidx ch = Z.of_nat k) /\
    lastchk s = default Invalid (Z.of_nat <$> last l);
  so_idx : taken (K d) (chunks d) (Z.of_nat k) ++ of_svc (Z.of_nat k) pend ++ of_svc (Z.of_nat k) held ++ objcache s ++ fresh_of s
    ≡ₚ mine (K d) (chunks d) (Z.of_nat k);
  so_cnt : objcnt s = Z.of_nat (length (taken (K d) (chunks d) (Z.of_nat k)) + length (of_svc (Z.of_nat k) pend))
}.

Record chunk_ok (n : nat) (d : Data World) (ch : ObjectChunk) : Prop := {
  co_svc : exists k : nat, svcidx ch = Z.of_nat k /\ (k < n)%nat;
  co_len : length (objects ch) = Z.to_nat (K d);
  co_cnt : chk_objcnt ch = count_taken (objects ch)
}.

Record mwf d (pend held : list (Z * Z)) : Prop := {
  m_K : 1 <= K d;
  m_room : Z.of_nat (length (chunks d)) * K d < Invalid;
  m_svcs : Z.of_nat (length (svcdq d)) < Invalid;
  m_svcst : idle (svcstore d);
  m_objst : idle (objstore d);
  m_svcvec : forall j x, crtvec (svcstore d) !! j = Some (Some x) <-> x = j /\ (j < length (svcdq d))%nat;
  m_crtsvc : crtsvcidx d = Z.of_nat (length (svcdq d));
  m_objvec : crtvec (objstore d) = Some <$> seq 0 (length (chunks d));
  m_objvec' : exists n, (n <= length (chunks d))%nat /\ othervec (objstore d) = Some <$> seq 0 n;
  m_caches : svccache d = [] /\ chkcache d = [];
  m_max : maxobjcnt d = Z.of_nat (length (chunks d)) * K d;
  m_services : forall a m, services d !! a = Some m -> idx m = Invalid \/ exists k s, idx m = Z.of_nat k /\ svcdq d !! k = Some s /\ psvc s = Some a;
  m_chunks : Forall (chunk_ok (length (svcdq d)) d) (chunks d);
  m_svc : forall k s, svcdq d !! k = Some s -> svc_ok d pend held k s;
  m_pend : Forall (fun x => exists k : nat, x.1 = Z.of_nat k /\ (k < length (svcdq d))%nat) pend;
  m_objs : forall o m, objs d !! o = Some m -> fullid m = Invalid \/
    0 <= fullid m < maxobjcnt d /\ exists st, stub_at (K d) (chunks d) (fullid m) = Some st /\ pobject st = Some o;
  m_occ : forall i st o, 0 <= i -> stub_at (K d) (chunks d) i = Some st -> pobject st = Some o -> exists m, objs d !! o = Some m /\ fullid m = i;
  m_reacts : forall i st r, 0 <= i -> stub_at (K d) (chunks d) i = Some st -> preactor st = Some r -> is_Some (pobject st)
}.

Lemma mwf_new w (n : Z) : 1 <= n -> mwf (Manager_new n w) [] [].
Proof.
  intros Hn. assert (forall i, stub_at n [] i = None) as Hs by (intros i; unfold stub_at; by rewrite lookup_nil).
  split; cbn; try done; try (by intros []); try (by intros i st ? ?; rewrite Hs).
  - intros j x. rewrite lookup_nil. split; [done|lia].
  - by exists 0%nat.
Qed.

Lemma of_svc_cons k x l : of_svc k (x :: l) = if decide (x.1 = k) then x.2 :: of_svc k l else of_svc k l.
Proof. unfold of_svc. rewrite filter_cons. by case_decide. Qed.

(** *** One place of a chunk changes *)
Section SetPlace.
Context (d d' : Data World) (c : nat) (ch ch' : ObjectChunk) (j : nat) (st st' : ObjectStub).
Context (HK : 1 <= K d) (EK : K d' = K d) (Echs : chunks d' = <[c := ch']> (chunks d)) (Esvs : services d' = services d).
Context (Ec : chunks d !! c = Some ch) (Esv : svcidx ch' = svcidx ch) (Enx : nextchk ch' = nextchk ch).
Context (Eo : objects ch' = <[j := st']> (objects ch)) (Ej : objects ch !! j = Some st) (HjK : Z.of_nat j < K d).

Abbreviation place := (Z.of_nat c * K d + Z.of_nat j).

Lemma svc_chain_set k first lst :
  (exists l, chain (chunks d) first l /\ NoDup l /\
    (forall c, c ∈ l <-> exists ch, chunks d !! c = Some ch /\ svcidx ch = Z.of_nat k) /\ lst = default Invalid (Z.of_nat <$> last l)) ->
  exists l, chain (chunks d') first l /\ NoDup l /\
    (forall c, c ∈ l <-> exists ch, chunks d' !! c = Some ch /\ svcidx ch = Z.of_nat k) /\ lst = default Invalid (Z.of_nat <$> last l).
Proof using Type*.
  intros (l & Hl & Hnd & Hin & Hlast). exists l. rewrite Echs. split; [by apply (chain_put _ c ch)|]. split; [done|].
  split; [|done]. intros x. rewrite Hin. symmetry. by apply (owned_put _ c ch).
Qed.

Lemma svc_set_other k s pend held pend' held' :
  taken_stub st' = taken_stub st \/ svcidx ch <> Z.of_nat k -> of_svc (Z.of_nat k) pend' = of_svc (Z.of_nat k) pend ->
  of_svc (Z.of_nat k) held' = of_svc (Z.of_nat k) held -> svc_ok d pend held k s -> svc_ok d' pend' held' k s.
Proof using Type*.
  intros Hs Ep Eh [H1 H2 H3 H4]. split.
  - by rewrite Esvs.
  - by apply svc_chain_set.
  - rewrite EK, Echs, Ep, Eh, (set_mine _ HK _ c ch ch' j st st'), (set_taken_same _ HK _ c ch ch' j st st') by done. done.
  - rewrite EK, Echs, Ep, (set_taken_same _ HK _ c ch ch' j st st') by done. done.
Qed.

Lemma svc_set_in k s pend held : taken_stub st = false -> taken_stub st' = true -> svcidx ch = Z.of_nat k ->
  svc_ok d pend ((Z.of_nat k, place) :: held) k s -> svc_ok d' pend held k (ss_objcnt s (objcnt s + 1)).
Proof using Type*.
  intros Hf Ht Ek [H1 H2 H3 H4]. pose proof (set_taken_in _ HK _ c ch ch' j st st' Ec Esv Eo Ej HjK Hf Ht) as Hp. rewrite Ek in Hp.
  rewrite of_svc_cons, decide_True in H3 by done. cbn [snd] in H3. split.
  - by rewrite Esvs.
  - by apply svc_chain_set.
  - rewrite EK, Echs, (set_mine _ HK _ c ch ch' j st st') by done. rewrite Hp, <- H3. cbn [objcache ss_objcnt app].
    change (fresh_of (ss_objcnt s (objcnt s + 1))) with (fresh_of s). solve_Permutation.
  - rewrite EK, Echs. cbn [objcnt ss_objcnt]. rewrite Hp, H4. cbn [length]. lia.
Qed.

Lemma svc_set_out k s pend held : taken_stub st = true -> taken_stub st' = false -> svcidx ch = Z.of_nat k ->
  svc_ok d pend held k s -> svc_ok d' ((Z.of_nat k, place) :: pend) held k s.
Proof using Type*.
  intros Ht Hf Ek [H1 H2 H3 H4]. pose proof (set_taken_out _ HK _ c ch ch' j st st' Ec Esv Eo Ej HjK Ht Hf) as Hp. rewrite Ek in Hp. split.
  - by rewrite Esvs.
  - by apply svc_chain_set.
  - rewrite EK, Echs, (set_mine _ HK _ c ch ch' j st st') by done. rewrite of_svc_cons, decide_True by done. cbn [snd].
    rewrite <- H3, Hp. cbn [app]. solve_Permutation.
  - rewrite EK, Echs. rewrite of_svc_cons, decide_True by done. rewrite H4, Hp. cbn [length]. lia.
Qed.

End SetPlace.

(** *** What most operations leave alone *)
Record frame d d' : Prop := {
  fr_K : K d' = K d;
  fr_svcstore : svcstore d' = svcstore d;
  fr_objstore : objstore d' = objstore d;
  fr_crtsvc : crtsvcidx d' = crtsvcidx d;
  fr_caches : svccache d' = svccache d /\ chkcache d' = chkcache d;
  fr_max : maxobjcnt d' = maxobjcnt d;
  fr_services : services d' = services d;
  fr_svcdq : forall k, psvc <$> svcdq d' !! k = psvc <$> svcdq d !! k;
  fr_nsvc : length (svcdq d') = length (svcdq d);
  fr_chunks : length (chunks d') = length (chunks d)
}.

Lemma mwf_frame d d' pend held pend' held' : mwf d pend held -> frame d d' ->
  Forall (chunk_ok (length (svcdq d')) d') (chunks d') -> (forall k s, svcdq d' !! k = Some s -> svc_ok d' pend' held' k s) ->
  Forall (fun x => exists k : nat, x.1 = Z.of_nat k /\ (k < length (svcdq d'))%nat) pend' ->
  (forall o m, objs d' !! o = Some m -> fullid m = Invalid \/
    0 <= fullid m < maxobjcnt d' /\ exists st, stub_at (K d') (chunks d') (fullid m) = Some st /\ pobject st = Some o) ->
  (forall i st o, 0 <= i -> stub_at (K d') (chunks d') i = Some st -> pobject st = Some o -> exists m, objs d' !! o = Some m /\ fullid m = i) ->
  (forall i st r, 0 <= i -> stub_at (K d') (chunks d') i = Some st -> preactor st = Some r -> is_Some (pobject st)) ->
  mwf d' pend' held'.
Proof.
  intros Hw [F1 F2 F3 F4 [F5 F6] F7 F8 F9 F10 F11] ? ? ? ? ? ?. destruct Hw. split; try done; rewrite ?F1, ?F2, ?F3, ?F4, ?F5, ?F6, ?F7, ?F8, ?F10, ?F11; try done.
  intros a m Ea. destruct (m_services0 a m Ea) as [?|(k & s & Ei & Es & Ep)]; [by left|right]. specialize (F9 k).
  rewrite Es in F9. cbn in F9. destruct (svcdq d' !! k) as [s'|] eqn:E'; [|done]. cbn in F9. exists k, s'. split_and!; congruence.
Qed.

Lemma stub_range d pend held i st : mwf d pend held -> 0 <= i -> stub_at (K d) (chunks d) i = Some st -> i < maxobjcnt d.
Proof.
  intros Hw Hi. unfold stub_at. intros (ch & Ech & _)%bind_Some. apply lookup_lt_Some in Ech. rewrite (m_max _ _ _ Hw). pose proof (m_K _ _ _ Hw).
  pose proof (Z.div_pos i (K d) Hi ltac:(lia)). pose proof (Z.div_mod i (K d) ltac:(lia)). pose proof (Z.mod_pos_bound i (K d) ltac:(lia)). nia.
Qed.

Lemma mwf_lens d pend held : mwf d pend held -> Forall (fun ch => length (objects ch) = Z.to_nat (K d)) (chunks d).
Proof. intros Hw. eapply Forall_impl; [apply (m_chunks _ _ _ Hw)|]. by intros ch []. Qed.

(** The place of an index *)
Lemma place_of d pend held i : mwf d pend held -> 0 <= i < maxobjcnt d ->
  exists c ch j st, i / K d = Z.of_nat c /\ i mod K d = Z.of_nat j /\ i = Z.of_nat c * K d + Z.of_nat j /\ Z.of_nat j < K d /\
    chunks d !! c = Some ch /\ objects ch !! j = Some st /\ stub_at (K d) (chunks d) i = Some st.
Proof.
  intros Hw Hi. pose proof (m_K _ _ _ Hw) as HK. rewrite (m_max _ _ _ Hw) in Hi.
  destruct (stub_some (K d) HK (chunks d) i (mwf_lens _ _ _ Hw) Hi) as (ch & st & Ech & Est & Es).
  destruct (place_in (K d) HK i _ Hi) as [Hd Hm].
  exists (Z.to_nat (i / K d)), ch, (Z.to_nat (i mod K d)), st. rewrite !Z2Nat.id by lia. split_and!; try done; try lia.
  pose proof (Z.div_mod i (K d) ltac:(lia)). lia.
Qed.

(** *** Reading the tables *)
Lemma aquire_obj d pend held : mwf d pend held -> aquireReadObjectStore d = (with_objstore d (busy (objstore d)), crtidx (objstore d)).
Proof. intros Hw. unfold aquireReadObjectStore. by rewrite (aquireRead_idle _ (m_objst _ _ _ Hw)). Qed.

Lemma aquire_svc d pend held : mwf d pend held -> aquireReadServiceStore d = (with_svcstore d (busy (svcstore d)), crtidx (svcstore d)).
Proof. intros Hw. unfold aquireReadServiceStore. by rewrite (aquireRead_idle _ (m_svcst _ _ _ Hw)). Qed.

Lemma release_obj d pend held : mwf d pend held -> releaseReadObjectStore (with_objstore d (busy (objstore d))) (crtidx (objstore d)) = d.
Proof. intros Hw. unfold releaseReadObjectStore. cbn. rewrite (releaseRead_busy _ (m_objst _ _ _ Hw)). by destruct d. Qed.

Lemma release_svc d pend held : mwf d pend held -> releaseReadServiceStore (with_svcstore d (busy (svcstore d))) (crtidx (svcstore d)) = d.
Proof. intros Hw. unfold releaseReadServiceStore. cbn. rewrite (releaseRead_busy _ (m_svcst _ _ _ Hw)). by destruct d. Qed.

Lemma chunk_at_done d pend held D c ch : mwf d pend held -> crtvec D = crtvec (objstore d) -> chunks d !! c = Some ch ->
  chunk_at (with_objstore d D) (crtidx D) (Z.of_nat c) = Done (c, ch).
Proof.
  intros Hw ED Ec. unfold chunk_at, vec_deref. cbn. change (vec (store D (crtidx D))) with (crtvec D). rewrite ED, (m_objvec _ _ _ Hw).
  assert ((Some <$> seq 0 (length (chunks d))) !! c = Some (Some c)) as E.
  { rewrite list_lookup_fmap, lookup_seq_lt by (by eapply lookup_lt_Some). done. }
  rewrite (proj2 (vec_get_done _ (Z.of_nat c) (Some c))); [|split; [lia|by rewrite Nat2Z.id]]. cbn. by rewrite Ec.
Qed.

Lemma chunk_at_busy d pend held c ch : mwf d pend held -> chunks d !! c = Some ch ->
  chunk_at (with_objstore d (busy (objstore d))) (crtidx (objstore d)) (Z.of_nat c) = Done (c, ch).
Proof.
  intros Hw Ec. replace (crtidx (objstore d)) with (crtidx (busy (objstore d))) by (by destruct (objstore d) as [[] ? ?]).
  apply (chunk_at_done d pend held); try done. unfold crtvec. rewrite vec_busy. by destruct (objstore d) as [[] ? ?].
Qed.

Lemma service_at_busy d pend held k s : mwf d pend held -> svcdq d !! k = Some s ->
  service_at (with_svcstore d (busy (svcstore d))) (crtidx (svcstore d)) (Z.of_nat k) = Done (k, s).
Proof.
  intros Hw Ek. unfold service_at, vec_deref. cbn. rewrite vec_busy. change (vec (store (svcstore d) (crtidx (svcstore d)))) with (crtvec (svcstore d)).
  rewrite (proj2 (vec_get_done _ (Z.of_nat k) (Some k))).
  - cbn. by rewrite Ek.
  - split; [lia|]. rewrite Nat2Z.id. apply (m_svcvec _ _ _ Hw). split; [done|]. by eapply lookup_lt_Some.
Qed.

(** *** Changing one place *)

(** The data after one place of a chunk has changed, with the memory of an object *)
Definition set_place d (c : nat) (ch : ObjectChunk) (j : nat) (st : ObjectStub) (n : Z) (os : gmap Obj ObjectBase) : Data World :=
  put_chunk (with_objs d os) c (mkObjectChunk (svcidx ch) (nextchk ch) (chk_objcnt ch + n) (<[j := st]> (objects ch))).

Lemma chunks_set d c ch j st st' n os pend held : mwf d pend held -> chunks d !! c = Some ch -> objects ch !! j = Some st ->
  n = b2z (taken_stub st') - b2z (taken_stub st) ->
  Forall (chunk_ok (length (svcdq d)) (set_place d c ch j st' n os)) (chunks (set_place d c ch j st' n os)).
Proof.
  intros Hw Ec Ej ->. pose proof (m_chunks _ _ _ Hw) as Hf. apply Forall_insert.
  - eapply Forall_impl; [exact Hf|]. by intros x [].
  - destruct (Forall_lookup_1 _ _ _ _ Hf Ec) as [H1 H2 H3]. split; cbn; [done|by rewrite length_insert|].
    rewrite (count_taken_set _ _ _ _ Ej), H3. lia.
Qed.

Lemma frame_set d c ch j st n os : frame d (set_place d c ch j st n os).
Proof. split; cbn; rewrite ?length_insert; try done. Qed.

Section OnePlace.
Context (d : Data World) (pend held : list (Z * Z)) (Hw : mwf d pend held) (c : nat) (ch : ObjectChunk) (j : nat) (st : ObjectStub).
Context (Ec : chunks d !! c = Some ch) (Ej : objects ch !! j = Some st) (HjK : Z.of_nat j < K d).

Abbreviation place := (Z.of_nat c * K d + Z.of_nat j).

Lemma place_stub : stub_at (K d) (chunks d) place = Some st.
Proof using All. by apply (set_place_old (K d) (m_K _ _ _ Hw) _ c ch (mkObjectChunk (svcidx ch) (nextchk ch) 0 (<[j := st]> (objects ch))) j st st). Qed.

Lemma set_place_stub st' n os i : 0 <= i ->
  stub_at (K d) (chunks (set_place d c ch j st' n os)) i = if decide (i = place) then Some st' else stub_at (K d) (chunks d) i.
Proof using All. intros. by apply (set_stub_at (K d) (m_K _ _ _ Hw) _ c ch _ j st). Qed.

(** The object of the place leaves. *)
Lemma mwf_remove o m st' k : objs d !! o = Some m -> fullid m = place -> pobject st = Some o -> pobject st' = None -> preactor st' = None ->
  svcidx ch = Z.of_nat k -> (k < length (svcdq d))%nat ->
  mwf (set_place d c ch j st' (-1) (<[o := mkObjectBase Invalid (smask m)]> (objs d))) ((Z.of_nat k, place) :: pend) held.
Proof using All.
  intros Eo Ef Ep Ep' Er' Ek Hkn. pose proof (m_K _ _ _ Hw) as HK.
  assert (taken_stub st = true) as Ht by (unfold taken_stub; rewrite Ep; by apply bool_decide_eq_true_2).
  assert (taken_stub st' = false) as Ht' by (unfold taken_stub; rewrite Ep'; by apply bool_decide_eq_false_2; intros []).
  apply (mwf_frame d _ pend held); [done|apply frame_set| | |constructor; [by exists k|apply (m_pend _ _ _ Hw)]| | |].
  - apply (chunks_set d c ch j st st' (-1) _ pend held); try done. by rewrite Ht, Ht'.
  - intros k' s Es. destruct (decide (k' = k)) as [->|Hne].
    + eapply (svc_set_out d _ c ch _ j st st'); try done. by apply (m_svc _ _ _ Hw).
    + eapply (svc_set_other d _ c ch _ j st st') with (pend := pend) (held := held); try done; [right; lia|by rewrite of_svc_cons, decide_False by (cbn; lia)|by apply (m_svc _ _ _ Hw)].
  - intros o' m' Eo'. cbn in Eo' |- *. apply lookup_insert_Some in Eo' as [[<- <-]|[Hne Eo']]; [by left|].
    destruct (m_objs _ _ _ Hw o' m' Eo') as [?|(Hr & x & Ex & Ep2)]; [by left|right]. split; [done|]. exists x. split; [|done].
    change (<[c:=_]> (chunks d)) with (chunks (set_place d c ch j st' (-1) (objs d))). rewrite set_place_stub by lia. rewrite decide_False; [done|].
    intros Hpl. rewrite Hpl, place_stub in Ex. congruence.
  - intros i x o' Hi Ex Ep2. cbn in Ex |- *. change (<[c:=_]> (chunks d)) with (chunks (set_place d c ch j st' (-1) (objs d))) in Ex. rewrite set_place_stub in Ex by done.
    case_decide; [congruence|]. destruct (m_occ _ _ _ Hw i x o' Hi Ex Ep2) as (m2 & Em2 & Ef2). exists m2. split; [|done].
    rewrite lookup_insert_ne; [done|]. intros <-. congruence.
  - intros i x r Hi Ex Er. cbn in Ex. change (<[c:=_]> (chunks d)) with (chunks (set_place d c ch j st' (-1) (objs d))) in Ex. rewrite set_place_stub in Ex by done.
    case_decide; [congruence|]. by apply (m_reacts _ _ _ Hw i x r).
Qed.

(** An object comes in. *)
Lemma mwf_enter o m st' k : held = [(Z.of_nat k, place)] -> objs d !! o = Some m -> fullid m = Invalid -> pobject st = None -> pobject st' = Some o ->
  svcidx ch = Z.of_nat k -> forall s, svcdq d !! k = Some s ->
  mwf (put_service (set_place d c ch j st' 1 (<[o := mkObjectBase place (smask m)]> (objs d))) k (ss_objcnt s (objcnt s + 1))) pend [].
Proof using All.
  intros Eh Eo Ef Ep Ep' Ek s Es. pose proof (m_K _ _ _ Hw) as HK. pose proof (lookup_lt_Some _ _ _ Es) as Hlt.
  assert (taken_stub st = false) as Ht by (unfold taken_stub; rewrite Ep; by apply bool_decide_eq_false_2; intros []).
  assert (taken_stub st' = true) as Ht' by (unfold taken_stub; rewrite Ep'; by apply bool_decide_eq_true_2).
  assert (0 <= place < maxobjcnt d) as Hpl by (split; [lia|]; apply (stub_range d pend held _ st Hw); [lia|apply place_stub]).
  assert (maxobjcnt d < Invalid) as Hmax by (rewrite (m_max _ _ _ Hw); apply (m_room _ _ _ Hw)).
  apply (mwf_frame d _ pend held); [done| | | |cbn; rewrite length_insert; apply (m_pend _ _ _ Hw)| | |].
  - split; cbn; rewrite ?length_insert; try done. intros k'. destruct (decide (k' = k)) as [->|]; [|by rewrite list_lookup_insert_ne].
    by rewrite list_lookup_insert_eq, Es by done.
  - cbn. rewrite length_insert. eapply Forall_impl; [apply (chunks_set d c ch j st st' 1 (objs d) pend held); try done; by rewrite Ht, Ht'|by intros x []].
  - intros k' s' Es'. cbn in Es'. apply list_lookup_insert_Some in Es' as [(-> & <- & _)|[Hne Es']].
    + eapply (svc_set_in d _ c ch _ j st st'); try done. rewrite <- Eh. by apply (m_svc _ _ _ Hw).
    + eapply (svc_set_other d _ c ch _ j st st') with (pend := pend) (held := held); try done; [right; lia| |by apply (m_svc _ _ _ Hw)].
      rewrite Eh, of_svc_cons, decide_False; [done|cbn; lia].
  - intros o' m' Eo'. cbn in Eo' |- *. change (<[c:=_]> (chunks d)) with (chunks (set_place d c ch j st' 1 (objs d))).
    apply lookup_insert_Some in Eo' as [[<- <-]|[Hne Eo']].
    + right. cbn [fullid]. split; [done|]. exists st'. split; [|done]. rewrite set_place_stub by lia. by rewrite decide_True.
    + destruct (m_objs _ _ _ Hw o' m' Eo') as [?|(Hr & x & Ex & Ep2)]; [by left|right]. split; [done|]. exists x. split; [|done].
      rewrite set_place_stub by lia. rewrite decide_False; [done|]. intros Hpl'. rewrite Hpl', place_stub in Ex. congruence.
  - intros i x o' Hi Ex Ep2. cbn in Ex |- *. change (<[c:=_]> (chunks d)) with (chunks (set_place d c ch j st' 1 (objs d))) in Ex. rewrite set_place_stub in Ex by done.
    case_decide as Hd.
    + simplify_eq. exists (mkObjectBase place (smask m)). by rewrite lookup_insert_eq.
    + destruct (m_occ _ _ _ Hw i x o' Hi Ex Ep2) as (m2 & Em2 & Ef2). exists m2. split; [|done].
      rewrite lookup_insert_ne; [done|]. intros <-. pose proof (stub_range d pend held i x Hw Hi Ex). rewrite Eo in Em2. simplify_eq. lia.
  - intros i x r Hi Ex Er. cbn in Ex. change (<[c:=_]> (chunks d)) with (chunks (set_place d c ch j st' 1 (objs d))) in Ex. rewrite set_place_stub in Ex by done.
    case_decide; [|by apply (m_reacts _ _ _ Hw i x r)]. simplify_eq. rewrite Ep'. by eexists.
Qed.

(** The visits of the object of the place are disabled. *)
Lemma mwf_disable st' : pobject st' = pobject st -> preactor st' = None -> mwf (set_place d c ch j st' 0 (objs d)) pend held.
Proof using All.
  intros Ep Er'. pose proof (m_K _ _ _ Hw) as HK. assert (taken_stub st' = taken_stub st) as Ht by (unfold taken_stub; by rewrite Ep).
  apply (mwf_frame d _ pend held); [done|apply frame_set| | |apply (m_pend _ _ _ Hw)| | |].
  - apply (chunks_set d c ch j st st' 0 _ pend held); try done. rewrite Ht. lia.
  - intros k' s Es. eapply (svc_set_other d _ c ch _ j st st') with (pend := pend) (held := held); try done; [by left|by apply (m_svc _ _ _ Hw)].
  - intros o' m' Eo'. cbn in Eo' |- *. change (<[c:=_]> (chunks d)) with (chunks (set_place d c ch j st' 0 (objs d))).
    destruct (m_objs _ _ _ Hw o' m' Eo') as [?|(Hr & x & Ex & Ep2)]; [by left|right]. split; [done|].
    rewrite set_place_stub by lia. case_decide as Hd; [|by exists x]. exists st'. split; [done|]. rewrite Hd, place_stub in Ex. congruence.
  - intros i x o' Hi Ex Ep2. cbn in Ex |- *. change (<[c:=_]> (chunks d)) with (chunks (set_place d c ch j st' 0 (objs d))) in Ex. rewrite set_place_stub in Ex by done.
    case_decide as Hd; [|by apply (m_occ _ _ _ Hw i x)]. simplify_eq. apply (m_occ _ _ _ Hw _ st); [lia|apply place_stub|congruence].
  - intros i x r Hi Ex Er. cbn in Ex. change (<[c:=_]> (chunks d)) with (chunks (set_place d c ch j st' 0 (objs d))) in Ex. rewrite set_place_stub in Ex by done.
    case_decide; [congruence|]. by apply (m_reacts _ _ _ Hw i x r).
Qed.

End OnePlace.

Lemma set_id_done d o m i : objs d !! o = Some m -> set_id d o i = Done (put_object_mem d o (mkObjectBase i (smask m))).
Proof. intros E. unfold set_id, object_mem. by rewrite E. Qed.

(** Reading the chunk of an index of an object *)
Lemma object_place d pend held o m : mwf d pend held -> objs d !! o = Some m -> fullid m <> Invalid ->
  exists c ch j st, fullid m / K d = Z.of_nat c /\ fullid m mod K d = Z.of_nat j /\ fullid m = Z.of_nat c * K d + Z.of_nat j /\ Z.of_nat j < K d /\
    chunks d !! c = Some ch /\ objects ch !! j = Some st /\ pobject st = Some o /\ stub_at (K d) (chunks d) (fullid m) = Some st.
Proof.
  intros Hw Eo Hv. destruct (m_objs _ _ _ Hw o m Eo) as [?|(Hr & st & Est & Ep)]; [done|].
  destruct (place_of d pend held (fullid m) Hw Hr) as (c & ch & j & st' & ? & ? & ? & ? & ? & ? & Est'). exists c, ch, j, st'. rewrite Est in Est'. by simplify_eq.
Qed.

Lemma unregister_chunk_spec d pend o m : mwf d pend [] -> objs d !! o = Some m -> fullid m <> Invalid ->
  exists d' k st, unregister_chunk d o = Done (d', (Z.of_nat k, fullid m)) /\ mwf d' ((Z.of_nat k, fullid m) :: pend) [] /\
    frame d d' /\ svcdq d' = svcdq d /\ mstate d' = mstate d /\ world d' = world d /\ objs d' = <[o := mkObjectBase Invalid (smask m)]> (objs d) /\
    stub_at (K d) (chunks d) (fullid m) = Some st /\ owner (K d) (chunks d) (fullid m) = Some (Z.of_nat k) /\
    forall i, 0 <= i -> stub_at (K d) (chunks d') i = (if decide (i = fullid m) then Some (mkObjectStub None None (os_unique st + 1)) else stub_at (K d) (chunks d) i)
      /\ owner (K d) (chunks d') i = owner (K d) (chunks d) i.
Proof.
  intros Hw Eo Hv. destruct (object_place d pend [] o m Hw Eo Hv) as (c & ch & j & st & Ed & Em & Ei & Hj & Ec & Ej & Ep & Es).
  destruct (Forall_lookup_1 _ _ _ _ (m_chunks _ _ _ Hw) Ec) as [(k & Ek & Hk) Hlen _].
  pose proof (lookup_lt_Some _ _ _ Ej) as Hjl.
  exists (set_place d c ch j (mkObjectStub None None (os_unique st + 1)) (-1) (<[o := mkObjectBase Invalid (smask m)]> (objs d))), k, st.
  split_and!; try done.
  - unfold unregister_chunk, object_mem. rewrite Eo. cbn [of_option res_bind]. rewrite (aquire_obj d pend [] Hw).
    unfold chunk. cbn [objchkcnt with_objstore]. rewrite Ed, (chunk_at_busy d pend [] c ch Hw Ec). cbn [res_bind].
    rewrite (release_obj d pend [] Hw), Em. rewrite (proj2 (vec_get_done _ (Z.of_nat j) st)) by (rewrite Nat2Z.id; auto with lia). cbn [res_bind].
    rewrite vec_set_done by lia. cbn [res_bind]. rewrite (set_id_done d o m) by done. cbn [res_bind]. unfold set_place. by rewrite Nat2Z.id, Ek.
  - rewrite Ei at 1. by eapply (mwf_remove d pend [] Hw c ch j st).
  - apply frame_set.
  - unfold owner. by rewrite Ed, Nat2Z.id, Ec, <- Ek.
  - intros i Hi. split; [rewrite (set_place_stub d pend [] Hw c ch j st Ec Ej Hj) by done; by rewrite Ei|].
    apply (set_owner (K d) (m_K _ _ _ Hw) (chunks d) c ch _ j st (mkObjectStub None None (os_unique st + 1))); done.
Qed.

Lemma of_svc_perm k l l' : l ≡ₚ l' -> of_svc k l ≡ₚ of_svc k l'.
Proof. intros H. unfold of_svc. by rewrite H. Qed.

Lemma mwf_pend_perm d pend pend' held : pend ≡ₚ pend' -> mwf d pend held -> mwf d pend' held.
Proof.
  intros Hp Hw. destruct Hw. split; try done; [|by rewrite <- Hp]. intros k s Es. destruct (m_svc0 k s Es). split; try done.
  - rewrite <- so_idx0. by rewrite (of_svc_perm _ _ _ Hp).
  - rewrite so_cnt0. do 2 f_equal. apply Permutation_length. by apply of_svc_perm.
Qed.

(** The stub of one service changes, without its service. *)
Lemma mwf_put_service d pend held pend' held' k s s' : mwf d pend held -> svcdq d !! k = Some s -> psvc s' = psvc s ->
  (svc_ok d pend held k s -> svc_ok (put_service d k s') pend' held' k s') ->
  (forall k', k' <> k -> of_svc (Z.of_nat k') pend' = of_svc (Z.of_nat k') pend /\ of_svc (Z.of_nat k') held' = of_svc (Z.of_nat k') held) ->
  (forall x, x ∈ pend' -> x ∈ pend) -> mwf (put_service d k s') pend' held'.
Proof.
  intros Hw Ek Ep Hs Hoth Hsub. pose proof (lookup_lt_Some _ _ _ Ek) as Hlt. destruct Hw as [H1 H2 H3 H4 H5 H6 H7 H8 H9 H10 H11 H12 H13 H14 H15 H16 H17 H18].
  split; cbn [svcdq put_service with_svcdq]; rewrite ?length_insert; try done.
  - intros a m Ea. destruct (H12 a m Ea) as [?|(k' & s2 & Ei & Es2 & Ep2)]; [by left|right]. destruct (decide (k' = k)) as [->|Hne].
    + exists k, s'. rewrite list_lookup_insert_eq by done. split_and!; try done. congruence.
    + exists k', s2. by rewrite list_lookup_insert_ne.
  - eapply Forall_impl; [exact H13|]. by intros x [].
  - intros k' s2 [(-> & <- & _)|[Hne Es2]]%list_lookup_insert_Some; [by apply Hs, H14|]. destruct (Hoth k' ltac:(done)) as [E1 E2].
    destruct (H14 k' s2 Es2). split; cbn; try done; rewrite ?E1, ?E2; done.
  - apply Forall_forall. intros x Hx%Hsub. by apply (proj1 (Forall_forall _ _) H15).
Qed.

Lemma unregister_index_spec d pend k i : mwf d ((Z.of_nat k, i) :: pend) [] ->
  exists s, svcdq d !! k = Some s /\ unregister_index d (Z.of_nat k, i) = Done (put_service d k (ss_objcnt (ss_cache s (i :: objcache s)) (objcnt s - 1))) /\
    mwf (put_service d k (ss_objcnt (ss_cache s (i :: objcache s)) (objcnt s - 1))) pend [].
Proof.
  intros Hw. pose proof (Forall_inv (m_pend _ _ _ Hw)) as (k' & Ek' & Hk'). cbn in Ek'. assert (k' = k) as -> by lia.
  destruct (lookup_lt_is_Some_2 (svcdq d) k Hk') as [s Es]. exists s. split; [done|]. split.
  - unfold unregister_index. rewrite (aquire_svc d _ _ Hw). cbn [fst snd]. rewrite (service_at_busy d _ _ k s Hw Es). cbn [res_bind].
    by rewrite (release_svc d _ _ Hw).
  - eapply mwf_put_service; [exact Hw|done|done| | |].
    + intros [S1 S2 S3 S4]. rewrite of_svc_cons, decide_True in S3, S4 by done. split; try done.
      * cbn [objcache ss_objcnt ss_cache chunks put_service with_svcdq objchkcnt]. rewrite <- S3. cbn [snd app].
        change (fresh_of (ss_objcnt _ _)) with (fresh_of s). solve_Permutation.
      * cbn [objcnt ss_objcnt]. rewrite S4. cbn [length chunks put_service with_svcdq objchkcnt]. lia.
    + intros k2 Hne. split; [|done]. by rewrite of_svc_cons, decide_False by (cbn; lia).
    + intros x Hx. by right.
Qed.

Lemma disable_spec d pend o m : mwf d pend [] -> objs d !! o = Some m -> fullid m <> Invalid ->
  exists d' st, disableObjectVisits d o = Done (d', bool_decide (is_Some (preactor st))) /\ mwf d' pend [] /\ frame d d' /\ svcdq d' = svcdq d /\
    mstate d' = mstate d /\ world d' = world d /\ objs d' = objs d /\ stub_at (K d) (chunks d) (fullid m) = Some st /\ pobject st = Some o /\
    forall i, 0 <= i -> stub_at (K d) (chunks d') i = (if decide (i = fullid m) then Some (mkObjectStub (Some o) None (os_unique st)) else stub_at (K d) (chunks d) i)
      /\ owner (K d) (chunks d') i = owner (K d) (chunks d) i.
Proof.
  intros Hw Eo Hv. destruct (object_place d pend [] o m Hw Eo Hv) as (c & ch & j & st & Ed & Em & Ei & Hj & Ec & Ej & Ep & Es).
  destruct (Forall_lookup_1 _ _ _ _ (m_chunks _ _ _ Hw) Ec) as [_ Hlen _]. pose proof (lookup_lt_Some _ _ _ Ej) as Hjl.
  exists (set_place d c ch j (mkObjectStub (pobject st) None (os_unique st)) 0 (objs d)), st. split_and!; try done.
  - unfold disableObjectVisits, object_mem. rewrite Eo. cbn [of_option res_bind]. rewrite (proj2 (Z.eqb_neq (fullid m) Invalid)) by done.
    rewrite (aquire_obj d pend [] Hw). unfold chunk. cbn [objchkcnt with_objstore]. rewrite Ed, (chunk_at_busy d pend [] c ch Hw Ec). cbn [res_bind].
    rewrite (release_obj d pend [] Hw), Em. rewrite (proj2 (vec_get_done _ (Z.of_nat j) st)) by (rewrite Nat2Z.id; auto with lia). cbn [res_bind].
    rewrite vec_set_done by lia. cbn [res_bind]. rewrite Nat2Z.id. unfold set_place. rewrite Z.add_0_r. by destruct d.
  - by apply (mwf_disable d pend [] Hw c ch j st).
  - apply frame_set.
  - intros i Hi. split; [rewrite (set_place_stub d pend [] Hw c ch j st Ec Ej Hj) by done; by rewrite Ei, Ep|].
    apply (set_owner (K d) (m_K _ _ _ Hw) (chunks d) c ch _ j st (mkObjectStub (pobject st) None (os_unique st))); done.
Qed.

End Inv.

End ManagerProofs.
