(* ===== verification/ManagerObjects.v ===== *)
(** * Registering and visiting objects

    [registerObject] and the visits of Manager.v against the invariant of ManagerProofs.v. *)

From stdpp Require Import gmap list.
From S2P Require Import Prelude FrameCommon StoreLock Manager ManagerProofs.
Import FrameCommon StoreLock Manager ManagerProofs.
#[local] Set Warnings "-clear-no-such-hyp".
#[local] Open Scope res_scope.
#[local] Open Scope Z_scope.

Module ManagerObjects.

(** ** A new chunk *)

Definition blank : ObjectStub := mkObjectStub None None 0.

Definition new_chunk (K k : Z) : ObjectChunk := mkObjectChunk k Invalid 0 (replicate (Z.to_nat K) blank).

(** The last chunk of a service gets a successor. *)
Definition linked (chs : list ObjectChunk) (oq : option nat) (n : Z) : list ObjectChunk :=
  match oq with
  | None => chs
  | Some q => match chs !! q with Some c => <[q := mkObjectChunk (svcidx c) n (chk_objcnt c) (objects c)]> chs | None => chs end
  end.

Lemma linked_length chs oq n : length (linked chs oq n) = length chs.
Proof. unfold linked. repeat case_match; by rewrite ?length_insert. Qed.

Lemma linked_lookup chs oq n c : linked chs oq n !! c =
  (fun ch => mkObjectChunk (svcidx ch) (if decide (oq = Some c) then n else nextchk ch) (chk_objcnt ch) (objects ch)) <$> chs !! c.
Proof.
  unfold linked. destruct oq as [q|].
  - destruct (chs !! q) as [x|] eqn:Eq.
    + destruct (decide (q = c)) as [->|Hne].
      * rewrite list_lookup_insert_eq by (by eapply lookup_lt_Some). rewrite Eq. cbn. by rewrite decide_True.
      * rewrite list_lookup_insert_ne by done. destruct (chs !! c) as [[]|]; cbn; [|done]. by rewrite decide_False by congruence.
    + destruct (chs !! c) as [[]|] eqn:Ec; cbn; [|done]. rewrite decide_False by congruence. done.
  - destruct (chs !! c) as [[]|]; cbn; [|done]. by rewrite decide_False by done.
Qed.

Lemma filter_all {X : Type} (P : X -> Prop) `{forall x, Decision (P x)} (l : list X) : (forall x, x ∈ l -> P x) -> filter P l = l.
Proof.
  induction l as [|x l IH]; intros Hl; [done|]. rewrite filter_cons_True by (apply Hl; by left). f_equal. apply IH. intros y ?. apply Hl. by right.
Qed.

Lemma filter_none {X : Type} (P : X -> Prop) `{forall x, Decision (P x)} (l : list X) : (forall x, x ∈ l -> ~ P x) -> filter P l = [].
Proof.
  induction l as [|x l IH]; intros Hl; [done|]. rewrite filter_cons_False by (apply Hl; by left). apply IH. intros y ?. apply Hl. by right.
Qed.

(** The list of chunks of a service before and after *)
Lemma chain_ext chs chs' f l : (forall c, c ∈ l -> nextchk <$> chs !! c = nextchk <$> chs' !! c) -> chain chs f l -> chain chs' f l.
Proof.
  revert f. induction l as [|c l IH]; intros f Hx; cbn; [done|]. intros [-> (ch & Ec & Hc)]. split; [done|].
  pose proof (Hx c ltac:(by left)) as E. rewrite Ec in E. cbn in E. destruct (chs' !! c) as [ch'|] eqn:Ec'; [|done]. cbn in E.
  exists ch'. split; [done|]. assert (nextchk ch' = nextchk ch) as -> by congruence. apply IH; [|done]. intros x Hin. apply Hx. by right.
Qed.

Lemma chain_snoc_chunk chs K k f l (n := length chs) : chain chs f l -> NoDup l -> (forall c, c ∈ l -> (c < n)%nat) ->
  chain (linked chs (last l) (Z.of_nat n) ++ [new_chunk K k]) (if l is [] then Z.of_nat n else f) (l ++ [n]).
Proof.
  intros Hc Hnd Hlt.
  assert ((linked chs (last l) (Z.of_nat n) ++ [new_chunk K k]) !! n = Some (new_chunk K k)) as En.
  { apply list_lookup_middle. by rewrite linked_length. }
  destruct l as [|c0 l0]; [cbn in *; split; [done|]; by eexists|].
  assert (exists l1 q, c0 :: l0 = l1 ++ [q]) as (l1 & q & El) by (destruct (@exists_last _ (c0 :: l0)) as (l1 & q & ->); [done|by exists l1, q]).
  rewrite El in *. rewrite last_snoc in *. clear El c0 l0.
  assert (q ∉ l1) as Hq. { apply NoDup_app in Hnd as (_ & Hd & _). intros Hin. apply (Hd q Hin). by left. }
  revert f Hc. induction l1 as [|c l1 IH]; intros f; cbn [app chain].
  - intros [-> (ch & Ec & _)]. split; [done|]. eexists. split; [apply lookup_app_l_Some; rewrite linked_lookup, Ec; reflexivity|]. cbn.
    rewrite decide_True by done. split; [done|]. by eexists.
  - intros [-> (ch & Ec & Hc)]. split; [done|]. eexists. split; [apply lookup_app_l_Some; rewrite linked_lookup, Ec; reflexivity|]. cbn [nextchk].
    rewrite decide_False by (intros [= ->]; apply Hq; by left).
    apply NoDup_cons in Hnd as [_ Hnd]. apply IH; try done; [intros x Hin; apply Hlt; by right|intros Hin; apply Hq; by right].
Qed.

Section AddChunk.
Context (K : Z) (HK : 1 <= K) (chs : list ObjectChunk) (oq : option nat) (k : Z).
Context (Hlen : Forall (fun ch => length (objects ch) = Z.to_nat K) chs).

Abbreviation N := (Z.of_nat (length chs)).
Abbreviation chs' := (linked chs oq N ++ [new_chunk K k]).

Lemma add_length : Z.of_nat (length chs') = N + 1.
Proof using Type. rewrite length_app, linked_length. cbn. lia. Qed.

Lemma add_lookup_old c : (c < length chs)%nat -> svcidx <$> chs' !! c = svcidx <$> chs !! c /\ objects <$> chs' !! c = objects <$> chs !! c.
Proof using Type.
  intros Hc. rewrite lookup_app_l by (by rewrite linked_length). rewrite linked_lookup. by destruct (chs !! c).
Qed.

Lemma add_lookup_new : chs' !! length chs = Some (new_chunk K k).
Proof using Type. apply list_lookup_middle. by rewrite linked_length. Qed.

Lemma add_stub i : 0 <= i -> stub_at K chs' i = if decide (i < N * K) then stub_at K chs i else if decide (i < (N + 1) * K) then Some blank else None.
Proof using HK.
  intros Hi. pose proof (Z.div_pos i K Hi ltac:(lia)) as Hd. pose proof (Z.mod_pos_bound i K ltac:(lia)) as Hm. pose proof (Z.div_mod i K ltac:(lia)) as Hdm.
  unfold stub_at. case_decide as H1; [|case_decide as H2].
  - assert (Z.to_nat (i / K) < length chs)%nat as Hlt by (assert (i / K < N) by (apply Z.div_lt_upper_bound; lia); lia).
    destruct (add_lookup_old _ Hlt) as [_ Eo]. destruct (chs' !! Z.to_nat (i / K)) as [x|], (chs !! Z.to_nat (i / K)) as [y|]; cbn in *; congruence || done.
  - assert (i / K = N) as -> by (symmetry; apply (Z.div_unique i K N (i - N * K)); lia). rewrite Nat2Z.id, add_lookup_new. cbn [mbind option_bind objects new_chunk].
    apply lookup_replicate_2. lia.
  - rewrite lookup_ge_None_2; [done|]. assert (N + 1 <= i / K) by (apply Z.div_le_lower_bound; lia). pose proof add_length. lia.
Qed.

Lemma add_owner i : 0 <= i -> owner K chs' i = if decide (i < N * K) then owner K chs i else if decide (i < (N + 1) * K) then Some k else None.
Proof using HK.
  intros Hi. pose proof (Z.div_pos i K Hi ltac:(lia)) as Hd. unfold owner. case_decide as H1; [|case_decide as H2].
  - assert (Z.to_nat (i / K) < length chs)%nat as Hlt by (assert (i / K < N) by (apply Z.div_lt_upper_bound; lia); lia).
    by destruct (add_lookup_old _ Hlt) as [-> _].
  - assert (i / K = N) as -> by (symmetry; apply (Z.div_unique i K N (i - N * K)); lia). by rewrite Nat2Z.id, add_lookup_new.
  - rewrite lookup_ge_None_2; [done|]. assert (N + 1 <= i / K) by (apply Z.div_le_lower_bound; lia). pose proof add_length. lia.
Qed.

Lemma add_places : places K chs' = places K chs ++ seqZ (N * K) K.
Proof using HK. unfold places. rewrite add_length. rewrite Z.mul_add_distr_r, Z.mul_1_l, seqZ_app by lia. by rewrite Z.add_0_l. Qed.

Lemma add_mine k' : mine K chs' k' = mine K chs k' ++ (if decide (k = k') then seqZ (N * K) K else []).
Proof using HK.
  unfold mine. rewrite add_places, filter_app. f_equal.
  - apply filter_same. intros i Hi%elem_of_seqZ. rewrite add_owner by lia. by rewrite decide_True by lia.
  - case_decide as Hk.
    + apply filter_all. intros i Hi%elem_of_seqZ.
      rewrite add_owner by lia. rewrite decide_False, decide_True by lia. congruence.
    + apply filter_none. intros i Hi%elem_of_seqZ. rewrite add_owner by lia. rewrite decide_False, decide_True by lia. congruence.
Qed.

Lemma add_taken k' : taken K chs' k' = taken K chs k'.
Proof using HK.
  unfold taken. rewrite add_mine, filter_app. assert (forall i, i ∈ mine K chs k' -> 0 <= i < N * K) as Hm.
  { intros i. unfold mine. rewrite list_elem_of_filter, elem_places. tauto. }
  rewrite (filter_none _ (if decide (k = k') then seqZ (N * K) K else [])).
  - rewrite app_nil_r. apply filter_same. intros i Hi%Hm. unfold occ. rewrite add_stub by lia. by rewrite decide_True by lia.
  - intros i. case_decide; [|by intros ?%elem_of_nil]. intros Hi%elem_of_seqZ. unfold occ. rewrite add_stub by lia. by rewrite decide_False, decide_True by lia.
Qed.

End AddChunk.

Section Objects.
Context {World : Type}.
Implicit Types (d : Data World).

Abbreviation K := objchkcnt.

(** A service with the chunks [l] gets another one, and its first index is handed out. *)
Definition more (s : ServiceStub) (l : list nat) (n K : Z) : ServiceStub :=
  ss_chks (ss_crt s (n * K + 1) (n * K + K)) (if l is [] then n else firstchk s) n.

Definition add_chunk d (k : nat) (s : ServiceStub) (l : list nat) (D : Double) : Data World :=
  let n := Z.of_nat (length (chunks d)) in
  put_service (with_maxobjcnt (with_objstore (with_chunks d (linked (chunks d) (last l) n ++ [new_chunk (K d) (Z.of_nat k)])) D) ((n + 1) * K d))
    k (more s l n (K d)).

Lemma svc_chunks_add chs l k k' n : (forall q, last l = Some q -> exists ch, chs !! q = Some ch) -> n = Z.of_nat (length chs) -> forall K0 c,
  (exists ch, (linked chs (last l) n ++ [new_chunk K0 k]) !! c = Some ch /\ svcidx ch = k') <->
  (exists ch, chs !! c = Some ch /\ svcidx ch = k') \/ c = length chs /\ k = k'.
Proof.
  intros Hq -> K0 c. destruct (decide (c < length chs)%nat) as [Hc|Hc].
  - destruct (add_lookup_old K0 chs (last l) k c Hc) as [Es _]. split.
    + intros (ch & Ec & <-). rewrite Ec in Es. left. destruct (chs !! c) as [y|]; [|done]. cbn in Es. exists y. split; congruence.
    + intros [(y & Ey & <-)|[? _]]; [|lia]. rewrite Ey in Es. destruct (_ !! c) as [ch|] eqn:E; [|done]. cbn in Es. exists ch. split; congruence.
  - split.
    + intros (ch & Ec & <-). right. assert (c = length chs) as -> by (apply lookup_lt_Some in Ec; rewrite length_app, linked_length in Ec; cbn in Ec; lia).
      rewrite add_lookup_new in Ec. by injection Ec as <-.
    + intros [(y & Ey & _)|[-> <-]]; [by apply lookup_lt_Some in Ey|]. exists (new_chunk K0 k). by rewrite add_lookup_new.
Qed.

Lemma mwf_add_chunk d pend k s l D : mwf d pend [] -> svcdq d !! k = Some s -> objcache s = [] -> endobjidx s <= crtobjidx s ->
  chain (chunks d) (firstchk s) l -> NoDup l -> (forall c, c ∈ l <-> exists ch, chunks d !! c = Some ch /\ svcidx ch = Z.of_nat k) ->
  (Z.of_nat (length (chunks d)) + 1) * K d < Invalid -> idle D -> crtvec D = Some <$> seq 0 (S (length (chunks d))) ->
  othervec D = Some <$> seq 0 (length (chunks d)) ->
  mwf (add_chunk d k s l D) pend [(Z.of_nat k, Z.of_nat (length (chunks d)) * K d)].
Proof.
  intros Hw Ek Eca Ecr Hch Hnd Hin Hroom HD Hcv Hov. pose proof (m_K _ _ _ Hw) as HK. pose proof (lookup_lt_Some _ _ _ Ek) as Hlt.
  pose proof (mwf_lens _ _ _ Hw) as Hlens. set (n := length (chunks d)) in *.
  assert (forall c, c ∈ l -> (c < n)%nat) as Hln by (intros c (ch & Ec & _)%Hin; by apply lookup_lt_Some in Ec).
  assert (forall q, last l = Some q -> exists ch, chunks d !! q = Some ch) as Hq.
  { intros q Eq. destruct (proj1 (Hin q)) as (ch & Ec & _); [by apply last_Some_elem_of|by exists ch]. }
  pose proof (fun i => add_stub (K d) HK (chunks d) (last l) (Z.of_nat k) i) as Hstub. fold n in Hstub.
  pose proof (add_length (K d) (chunks d) (last l) (Z.of_nat k)) as Hlen'. fold n in Hlen'.
  destruct Hw as [H1 H2 H3 H4 H5 H6 H7 H8 H9 H10 H11 H12 H13 H14 H15 H16 H17 H18]. fold n in H11.
  split; cbn [add_chunk put_service with_maxobjcnt with_objstore with_chunks with_svcdq objchkcnt chunks svcdq svcstore objstore crtsvcidx svccache chkcache maxobjcnt services objs];
    fold n; rewrite ?length_insert; try done.
  - lia.
  - rewrite Hcv. do 2 f_equal. lia.
  - exists n. split; [lia|done].
  - lia.
  - intros a m Ea. destruct (H12 a m Ea) as [?|(k' & s' & Ei & Es' & Ep')]; [by left|right]. destruct (decide (k' = k)) as [->|Hne].
    + exists k, (more s l (Z.of_nat n) (K d)). rewrite list_lookup_insert_eq by done. split_and!; try done. cbn. congruence.
    + exists k', s'. by rewrite list_lookup_insert_ne.
  - apply Forall_forall. intros x (c & Ec)%list_elem_of_lookup. destruct (decide (c < n)%nat) as [Hc|Hc].
    + rewrite lookup_app_l in Ec by (by rewrite linked_length). rewrite linked_lookup in Ec.
      destruct (chunks d !! c) as [y|] eqn:Ey; [|done]. cbn in Ec. injection Ec as <-. by destruct (Forall_lookup_1 _ _ _ _ H13 Ey).
    + assert (c = n) as -> by (apply lookup_lt_Some in Ec; lia). subst n. rewrite add_lookup_new in Ec. injection Ec as <-. split; cbn.
      * by exists k.
      * by rewrite length_replicate.
      * unfold count_taken. rewrite filter_none; [done|]. intros y [-> _]%elem_of_replicate. done.
  - intros k' s' [(-> & <- & _)|[Hne Es']]%list_lookup_insert_Some.
    + destruct (H14 _ _ Ek) as [S1 S2 S3 S4]. split; cbn [chunks objchkcnt services add_chunk put_service with_maxobjcnt with_objstore with_chunks with_svcdq].
      * exact S1.
      * exists (l ++ [n]). split_and!.
        -- by apply chain_snoc_chunk.
        -- apply NoDup_app. split_and!; [done| |by apply NoDup_singleton]. intros c Hc%Hln ->%list_elem_of_singleton. lia.
        -- intros c. rewrite elem_of_app, list_elem_of_singleton, Hin. symmetry. etransitivity; [by apply (svc_chunks_add (chunks d) l)|]. subst n. tauto.
        -- by rewrite last_snoc.
      * rewrite add_taken, add_mine by done. rewrite decide_True by done. fold n. rewrite <- S3, Eca.
        unfold fresh_of. cbn [crtobjidx endobjidx more ss_chks ss_crt objcache]. rewrite Eca.
        rewrite (seqZ_nil (crtobjidx s)) by lia. rewrite of_svc_cons, decide_True by done. cbn [snd].
        rewrite (seqZ_cons (Z.of_nat n * K d) (K d)) by lia.
        replace (Z.of_nat n * K d + K d - (Z.of_nat n * K d + 1)) with (Z.pred (K d)) by lia. rewrite <- Z.add_1_r. cbn [of_svc filter list_filter fmap list_fmap app]. solve_Permutation.
      * cbn [objcnt more ss_chks ss_crt]. rewrite S4. do 2 f_equal. by rewrite add_taken.
    + destruct (H14 _ _ Es') as [S1 (l' & C1 & C2 & C3 & C4) S3 S4]. split; cbn [chunks objchkcnt services add_chunk put_service with_maxobjcnt with_objstore with_chunks with_svcdq].
      * exact S1.
      * exists l'. split_and!; try done.
        -- apply (chain_ext (chunks d)); [|done]. intros c Hc%C3. destruct Hc as (ch & Ec & Esv). rewrite lookup_app_l by (rewrite linked_length; by eapply lookup_lt_Some).
           rewrite linked_lookup, Ec. cbn. rewrite decide_False; [done|]. intros Eq. destruct (proj1 (Hin c)) as (ch2 & Ec2 & Es2); [by apply last_Some_elem_of|].
           rewrite Ec in Ec2. simplify_eq. lia.
        -- intros c. rewrite C3. symmetry. etransitivity; [by apply (svc_chunks_add (chunks d) l)|]. split; [|tauto]. intros [?|[_ ?]]; [done|lia].
      * rewrite add_taken, add_mine by done. rewrite decide_False by lia. rewrite app_nil_r, <- S3. rewrite of_svc_cons, decide_False by (cbn; lia). done.
      * rewrite S4. do 2 f_equal. by rewrite add_taken.
  - intros o m Eo. destruct (H16 o m Eo) as [?|(Hr & st & Est & Ep)]; [by left|right]. split; [lia|]. exists st. rewrite Hstub by lia. by rewrite decide_True by lia.
  - intros i st o Hi. rewrite Hstub by done. case_decide; [by apply H17|]. case_decide; [|done]. by intros [= <-].
  - intros i st r Hi. rewrite Hstub by done. case_decide; [by apply H18|]. case_decide; [|done]. by intros [= <-].
Qed.

End Objects.

End ManagerObjects.
