(* ===== verification/ManagerRegister.v ===== *)
(** * Registering

    [registerObject] and [registerService] of Manager.v against the invariant of ManagerProofs.v. *)

From stdpp Require Import gmap list.
From S2P Require Import Prelude FrameCommon StoreLock Manager ManagerProofs ManagerObjects.
Import FrameCommon StoreLock Manager ManagerProofs ManagerObjects.
#[local] Set Warnings "-clear-no-such-hyp".
#[local] Open Scope res_scope.
#[local] Open Scope Z_scope.

Module ManagerRegister.

Section Register.
Context {World Ev : Type} {ME : ManagerEnv World Ev}.
Implicit Types (d : Data World).

Abbreviation K := objchkcnt.

(** The chunk of a handed out index gets its service when the object is put there. *)
Definition own (ch : ObjectChunk) (k : Z) : ObjectChunk :=
  mkObjectChunk (if svcidx ch =? Invalid then k else svcidx ch) (nextchk ch) (chk_objcnt ch) (objects ch).

Lemma data_eq d d' : svcstore d = svcstore d' -> svcdq d = svcdq d' -> crtsvcidx d = crtsvcidx d' -> svccnt d = svccnt d' -> svccache d = svccache d' ->
  objstore d = objstore d' -> chunks d = chunks d' -> K d = K d' -> maxobjcnt d = maxobjcnt d' -> chkcache d = chkcache d' -> mstate d = mstate d' ->
  services d = services d' -> objs d = objs d' -> world d = world d' -> d = d'.
Proof using Type. destruct d, d'; cbn; intros; by subst. Qed.

Definition role (s : ServiceStub) : option Svc * ManagerState := (psvc s, state s).

Lemma role_put (l : list ServiceStub) (k : nat) s s' (k' : nat) : l !! k = Some s -> role s' = role s -> role <$> <[k := s']> l !! k' = role <$> l !! k'.
Proof using Type.
  intros E Er. destruct (decide (k' = k)) as [->|Hne]; [|by rewrite list_lookup_insert_ne].
  rewrite list_lookup_insert_eq, E by (by eapply lookup_lt_Some). cbn. by rewrite Er.
Qed.

(** What handing out an index leaves alone. *)
Record kept d d' : Prop := {
  k_K : K d' = K d;
  k_svcstore : svcstore d' = svcstore d;
  k_mstate : mstate d' = mstate d;
  k_services : services d' = services d;
  k_objs : objs d' = objs d;
  k_world : world d' = world d;
  k_svccnt : svccnt d' = svccnt d;
  k_svcdq : length (svcdq d') = length (svcdq d);
  k_svc : forall k, role <$> svcdq d' !! k = role <$> svcdq d !! k;
  k_stub : forall i st, 0 <= i -> stub_at (K d) (chunks d) i = Some st -> stub_at (K d) (chunks d') i = Some st /\ owner (K d) (chunks d') i = owner (K d) (chunks d) i;
  k_max : maxobjcnt d <= maxobjcnt d'
}.

Lemma kept_put_service d k s s' : svcdq d !! k = Some s -> role s' = role s -> kept d (put_service d k s').
Proof using Type. intros E Er. split; cbn; rewrite ?length_insert; try done. intros k'. by apply (role_put _ _ s). Qed.

Lemma in_invalid v : 0 <= v < Invalid -> in_range 64 v.
Proof using Type. unfold in_range. change Invalid with (2 ^ 64 - 1). lia. Qed.

Lemma chunk_at_seq d si c ch n : vec (store (objstore d) si) = Some <$> seq 0 n -> (c < n)%nat -> chunks d !! c = Some ch ->
  chunk_at d si (Z.of_nat c) = Done (c, ch).
Proof using Type.
  intros Evec Hc Ec. unfold chunk_at, vec_deref. rewrite Evec.
  rewrite (proj2 (vec_get_done _ (Z.of_nat c) (Some c))); [cbn; by rewrite Ec|]. split; [lia|]. rewrite Nat2Z.id, list_lookup_fmap, lookup_seq_lt by done. done.
Qed.

(** An index of a service that is not in its cache any more is handed out. *)
Lemma mwf_hand_out d pend k s s' i : mwf d pend [] -> svcdq d !! k = Some s -> psvc s' = psvc s -> firstchk s' = firstchk s -> lastchk s' = lastchk s ->
  objcnt s' = objcnt s -> objcache s ++ fresh_of s ≡ₚ i :: objcache s' ++ fresh_of s' -> mwf (put_service d k s') pend [(Z.of_nat k, i)].
Proof using Type.
  intros Hw Ek Ep Ef El Eo Hperm. eapply mwf_put_service with (pend := pend) (held := []); [exact Hw|done|done| | |done].
  - intros [S1 S2 S3 S4]. split.
    + cbn. by rewrite Ep.
    + cbn [chunks put_service with_svcdq]. by rewrite Ef, El.
    + rewrite of_svc_cons, decide_True by done. cbn [chunks put_service with_svcdq objchkcnt snd app]. rewrite <- S3.
      change (of_svc (Z.of_nat k) []) with (@nil Z). cbn [app]. rewrite Hperm. solve_Permutation.
    + by rewrite Eo.
  - intros k' Hne. split; [done|]. by rewrite of_svc_cons, decide_False by (cbn; lia).
Qed.

(** A handed out index has a free place in a chunk of its service. *)
Lemma held_place d pend k i s : mwf d pend [(Z.of_nat k, i)] -> svcdq d !! k = Some s ->
  exists c ch j st, i / K d = Z.of_nat c /\ i mod K d = Z.of_nat j /\ i = Z.of_nat c * K d + Z.of_nat j /\ Z.of_nat j < K d /\
    chunks d !! c = Some ch /\ objects ch !! j = Some st /\ stub_at (K d) (chunks d) i = Some st /\ pobject st = None /\ svcidx ch = Z.of_nat k /\ 0 <= i < maxobjcnt d.
Proof using Type.
  intros Hw Ek. destruct (m_svc _ _ _ Hw k s Ek) as [_ _ S3 _]. rewrite of_svc_cons, decide_True in S3 by done. cbn [snd] in S3.
  assert (i ∈ mine (K d) (chunks d) (Z.of_nat k)) as Hi by (rewrite <- S3; set_solver).
  assert (i ∉ taken (K d) (chunks d) (Z.of_nat k)) as Hn.
  { intros Hin. pose proof (NoDup_mine (K d) (chunks d) (Z.of_nat k)) as Hnd. rewrite <- S3 in Hnd. apply NoDup_app in Hnd as (_ & Hd & _). apply (Hd i Hin). set_solver. }
  pose proof Hi as Hm. unfold mine in Hm. rewrite list_elem_of_filter, elem_places in Hm. destruct Hm as [Hown Hr]. rewrite <- (m_max _ _ _ Hw) in Hr.
  destruct (place_of d pend _ i Hw Hr) as (c & ch & j & st & Ed & Em & Ei & Hj & Ec & Ej & Est). exists c, ch, j, st. split_and!; try done; try lia.
  - destruct (pobject st) eqn:Ep; [|done]. destruct Hn. unfold taken. rewrite list_elem_of_filter. split; [|done].
    unfold occ. rewrite Est. unfold taken_stub. rewrite Ep. by apply bool_decide_eq_true_2.
  - unfold owner in Hown. rewrite Ed, Nat2Z.id, Ec in Hown. cbn in Hown. congruence.
Qed.

(** What [take_index] does: the index has a free place, in a chunk that is of the service or new. *)
Definition handed_out d (k : nat) (s : ServiceStub) pend (r : Data World * ServiceStub * Z) : Prop :=
  let '(d', s', i) := r in
  svcdq d' !! k = Some s' /\ role s' = role s /\
  exists c ch, i / K d = Z.of_nat c /\ chunks d' !! c = Some ch /\ (svcidx ch = Invalid \/ svcidx ch = Z.of_nat k) /\
    kept d (put_chunk d' c (own ch (Z.of_nat k))) /\ mwf (put_chunk d' c (own ch (Z.of_nat k))) pend [(Z.of_nat k, i)].

Lemma own_same ch (k : nat) : svcidx ch = Z.of_nat k -> own ch (Z.of_nat k) = ch.
Proof using Type. intros E. unfold own. destruct ch as [x ? ? ?]; cbn in *; subst. by destruct (_ =? _). Qed.

Lemma put_chunk_same d c ch : chunks d !! c = Some ch -> put_chunk d c ch = d.
Proof using Type. intros E. apply data_eq; try done. cbn. by apply list_insert_id. Qed.

Lemma handed_own d pend k s s' i : mwf d pend [] -> mwf (put_service d k s') pend [(Z.of_nat k, i)] -> svcdq d !! k = Some s ->
  role s' = role s -> handed_out d k s pend (put_service d k s', s', i).
Proof using Type.
  intros Hw Hw' Ek Er. assert (svcdq (put_service d k s') !! k = Some s') as Ek' by (cbn; by apply list_lookup_insert_eq, lookup_lt_Some with s).
  destruct (held_place _ _ _ _ _ Hw' Ek') as (c & ch & j & st & Ed & _ & _ & _ & Ec & _ & _ & _ & Esv & _).
  split; [done|]. split; [done|]. exists c, ch. split; [done|]. split; [done|].
  split; [by right|]. rewrite own_same by done. rewrite put_chunk_same by done. split; [by apply (kept_put_service d k s)|done].
Qed.

(** The list of chunks of a service is empty together with its first index. *)
Lemma chain_first (chs : list ObjectChunk) f l : Z.of_nat (length chs) < Invalid -> chain chs f l -> (f = Invalid <-> l = []).
Proof using Type.
  intros Hl. destruct l as [|c l]; cbn; [tauto|]. intros [-> (ch & Ec & _)]. apply lookup_lt_Some in Ec. split; [lia|done].
Qed.

Lemma linked_some (chs : list ObjectChunk) q ch n y : chs !! q = Some ch ->
  <[q := mkObjectChunk (svcidx ch) n (chk_objcnt ch) (objects ch)]> (chs ++ [y]) = linked chs (Some q) n ++ [y].
Proof using Type. intros E. unfold linked. rewrite E. by rewrite insert_app_l by (by eapply lookup_lt_Some). Qed.

(** The vector of chunks is brought up to date before it grows. *)
Lemma synced n m : (n <= m)%nat -> (Some <$> seq 0 n) ++ drop (length (Some <$> seq 0 n)) (Some <$> seq 0 m) = Some <$> seq 0 m.
Proof using Type.
  intros H. rewrite length_fmap, length_seq. rewrite <- (take_drop n (Some <$> seq 0 m)) at 2. f_equal.
  rewrite <- fmap_take, take_seq. by rewrite Nat.min_l by lia.
Qed.

Lemma kept_add d pend k s l D : mwf d pend [] -> svcdq d !! k = Some s -> kept d (add_chunk d k s l D).
Proof using Type.
  intros Hw Ek. pose proof (m_K _ _ _ Hw) as HK. split; cbn; rewrite ?length_insert; try done.
  - intros k'. by apply (role_put _ _ s).
  - intros i st Hi Est. pose proof (stub_range _ _ _ _ _ Hw Hi Est) as Hr. rewrite (m_max _ _ _ Hw) in Hr.
    pose proof (add_stub (K d) HK (chunks d) (last l) (Z.of_nat k) i Hi) as Hs. pose proof (add_owner (K d) HK (chunks d) (last l) (Z.of_nat k) i Hi) as Ho.
    rewrite decide_True in Hs by done. rewrite decide_True in Ho by done. split; [rewrite <- Est; exact Hs|exact Ho].
  - rewrite (m_max _ _ _ Hw). lia.
Qed.

Lemma take_chunk_spec d pend k s : mwf d pend [] -> svcdq d !! k = Some s -> objcache s = [] -> endobjidx s <= crtobjidx s ->
  (Z.of_nat (length (chunks d)) + 1) * K d < Invalid -> exists r, take_chunk d k s = Done r /\ handed_out d k s pend r.
Proof using Type.
  intros Hw Ek Eca Ecr Hroom. pose proof (m_K _ _ _ Hw) as HK. destruct (m_svc _ _ _ Hw k s Ek) as [_ (l & C1 & C2 & C3 & C4) _ _].
  set (n := length (chunks d)) in *. assert (Z.of_nat n < Invalid) as Hn by nia. pose proof (lookup_lt_Some _ _ _ Ek) as Hlt.
  destruct (aquireWrite_idle (objstore d) (m_objst _ _ _ Hw)) as (D' & EW & ED1 & ED2 & ED3).
  destruct (m_objvec' _ _ _ Hw) as (n' & Hn' & Eo'). pose proof (m_objvec _ _ _ Hw) as Eo.
  destruct (ED3 ((Some <$> seq 0 n) ++ [Some n])) as (HD1 & HD2 & HD3). set (D := releaseWrite _ _) in HD1, HD2, HD3.
  assert (crtvec D = Some <$> seq 0 (S n)) as Ecv by (rewrite HD2, seq_S, fmap_app; done). rewrite Eo in HD3.
  pose proof (mwf_add_chunk d pend k s l D Hw Ek Eca Ecr C1 C2 C3 Hroom HD1 Ecv HD3) as Hadd. fold n in Hadd.
  set (raw := mkObjectChunk Invalid Invalid 0 (replicate (Z.to_nat (K d)) (mkObjectStub None None 0))).
  set (d1 := put_service (with_maxobjcnt (with_objstore (with_chunks d (linked (chunks d) (last l) (Z.of_nat n) ++ [raw])) D) ((Z.of_nat n + 1) * K d)) k (more s l (Z.of_nat n) (K d))).
  assert (chunks d1 !! n = Some raw) as Eraw by (cbn; apply list_lookup_middle; by rewrite linked_length).
  exists (d1, more s l (Z.of_nat n) (K d), Z.of_nat n * K d). split.
  - unfold take_chunk. rewrite (proj2 (m_caches _ _ _ Hw)), EW. cbn [res_bind]. rewrite !ED2.
    change (vec (store (objstore d) (negb (crtidx (objstore d))))) with (othervec (objstore d)). rewrite negb_involutive.
    change (vec (store (objstore d) (crtidx (objstore d)))) with (crtvec (objstore d)). rewrite Eo, Eo', synced by done.
    rewrite length_fmap, length_seq. unfold allocateChunk. fold raw n. cbn [res_bind].
    change (releaseWrite _ _) with D. cbn [objchkcnt with_objstore with_chunks maxobjcnt].
    rewrite (m_max _ _ _ Hw). fold n.
    assert (0 <= Z.of_nat n * K d) as Hpos by nia. rewrite (wrap_small 64 (Z.of_nat n * K d)) by (apply in_invalid; lia).
    rewrite !wrap_small by (apply in_invalid; lia).
    cbn [endobjidx ss_crt]. rewrite (proj2 (Z.ltb_lt _ _)) by lia.
    assert (Z.of_nat n * K d + K d = (Z.of_nat n + 1) * K d) as Eend by lia.
    pose proof (chain_first _ _ _ Hn C1) as Hfirst. cbn [firstchk ss_crt].
    destruct (last l) as [q|] eqn:Eq.
    + destruct (proj1 (C3 q)) as (cq & Ecq & _); [by apply last_Some_elem_of|]. pose proof (lookup_lt_Some _ _ _ Ecq) as Hq. fold n in Hq.
      rewrite (proj2 (Z.eqb_neq _ _)) by (rewrite Hfirst; by intros ->).
      change (lastchk (ss_crt s _ _)) with (lastchk s). rewrite C4. cbn [option_fmap option_map fmap default].
      rewrite (chunk_at_seq _ _ q cq (S n)); [|exact Ecv|lia|cbn; by apply lookup_app_l_Some].
      cbn [res_bind]. unfold d1, put_chunk. cbn [chunks with_maxobjcnt with_objstore with_chunks]. rewrite linked_some by done.
      rewrite Eend. unfold more. destruct l as [|x l]; [done|]. by rewrite Eend.
    + apply last_None in Eq. rewrite (proj2 (Z.eqb_eq _ _)) by tauto. unfold d1, more, linked. subst l. by rewrite Eend.
  - split; [by apply list_lookup_insert_eq|split; [done|]].
    exists n, raw. rewrite Z.div_mul by lia. split; [done|]. split; [done|]. split; [by left|].
    assert (put_chunk d1 n (own raw (Z.of_nat k)) = add_chunk d k s l D) as ->; [|split; [by apply (kept_add d pend)|done]].
    apply data_eq; try done. cbn. replace n with (length (linked (chunks d) (last l) (Z.of_nat n)) + 0)%nat at 1 by (rewrite linked_length; lia). by rewrite insert_app_r.
Qed.

Lemma take_index_spec d pend k s : mwf d pend [] -> svcdq d !! k = Some s -> (Z.of_nat (length (chunks d)) + 1) * K d < Invalid ->
  exists r, take_index d k s = Done r /\ handed_out d k s pend r.
Proof using Type.
  intros Hw Ek Hroom. unfold take_index. destruct (objcache s) as [|i st] eqn:Eca.
  - destruct (Z.ltb_spec (crtobjidx s) (endobjidx s)) as [Hlt|Hge]; [|by apply take_chunk_spec].
    eexists. split; [reflexivity|]. apply handed_own; try done. apply (mwf_hand_out d pend k s); try done.
    rewrite Eca. cbn [objcache ss_crt app]. rewrite Eca. unfold fresh_of. cbn [crtobjidx endobjidx ss_crt app]. rewrite (seqZ_cons (crtobjidx s)) by lia.
    by replace (Z.pred (endobjidx s - crtobjidx s)) with (endobjidx s - (crtobjidx s + 1)) by lia.
  - eexists. split; [reflexivity|]. apply handed_own; try done. apply (mwf_hand_out d pend k s); try done.
    rewrite Eca. done.
Qed.

Lemma mwf_world d pend held w : mwf d pend held -> mwf (with_world d w) pend held.
Proof using Type.
  intros Hw. destruct Hw. split; try done.
  - eapply Forall_impl; [exact m_chunks0|]. by intros x [].
  - intros k s Es. by destruct (m_svc0 k s Es).
Qed.

(** The stubs of an operation on one object *)
Definition only_at d d' (i : Z) : Prop :=
  forall j st, 0 <= j -> j <> i -> stub_at (K d) (chunks d) j = Some st -> stub_at (K d) (chunks d') j = Some st /\ owner (K d) (chunks d') j = owner (K d) (chunks d) j.

(** The effect of [registerObject], for a service with the index [k] *)
Record entered d d' (k : nat) (o : Obj) (m : ObjectBase) (r : Rct) (uid : UniqueId) (w : World) : Prop := {
  en_K : K d' = K d;
  en_role : forall k', role <$> svcdq d' !! k' = role <$> svcdq d !! k';
  en_services : services d' = services d;
  en_mstate : mstate d' = mstate d;
  en_world : world d' = w;
  en_range : 0 <= uid_index uid < maxobjcnt d';
  en_objs : objs d' = <[o := mkObjectBase (uid_index uid) (smask m)]> (objs d);
  en_stub : stub_at (K d) (chunks d') (uid_index uid) = Some (mkObjectStub (Some o) (Some r) (uid_unique uid));
  en_owner : owner (K d) (chunks d') (uid_index uid) = Some (Z.of_nat k);
  en_before : forall st, stub_at (K d) (chunks d) (uid_index uid) = Some st -> pobject st = None /\ os_unique st = uid_unique uid;
  en_only : only_at d d' (uid_index uid)
}.

Record refused d d' (w : World) : Prop := {
  re_K : K d' = K d;
  re_role : forall k', role <$> svcdq d' !! k' = role <$> svcdq d !! k';
  re_services : services d' = services d;
  re_mstate : mstate d' = mstate d;
  re_world : world d' = w;
  re_objs : objs d' = objs d;
  re_only : only_at d d' (-1)
}.

(** The two ends of [place_object] *)
Section Ends.
Context (d d2 : Data World) (pend : list (Z * Z)) (k : nat) (s : ServiceStub) (i : Z) (o : Obj) (m : ObjectBase) (w : World).
Context (Hk : kept d d2) (Hw : mwf d2 pend [(Z.of_nat k, i)]) (Ek : svcdq d2 !! k = Some s) (Eo : objs d2 !! o = Some m) (Ef : fullid m = Invalid).

Lemma enter_end r c ch j st : i = Z.of_nat c * K d2 + Z.of_nat j -> Z.of_nat j < K d2 -> chunks d2 !! c = Some ch -> objects ch !! j = Some st ->
  pobject st = None -> svcidx ch = Z.of_nat k -> 0 <= i < maxobjcnt d2 ->
  let d' := with_world (put_service (set_place d2 c ch j (mkObjectStub (Some o) (Some r) (os_unique st)) 1 (<[o := mkObjectBase i (smask m)]> (objs d2))) k (ss_objcnt s (objcnt s + 1))) w in
  mwf d' pend [] /\ entered d d' k o m r (mkUniqueId i (os_unique st)) w.
Proof using Hk Hw Ek Eo Ef.
  intros Ei Hj Ec Ej Ep Esv Hr d'. pose proof (m_K _ _ _ Hw) as HK. split.
  - apply mwf_world. rewrite Ei in *. by apply (mwf_enter d2 pend _ Hw c ch j st).
  - assert (forall x, 0 <= x -> stub_at (K d2) (chunks d') x = if decide (x = i) then Some (mkObjectStub (Some o) (Some r) (os_unique st)) else stub_at (K d2) (chunks d2) x) as Hs.
    { intros x Hx. rewrite Ei. by apply (set_place_stub d2 pend _ Hw c ch j st). }
    assert (forall x, 0 <= x -> owner (K d2) (chunks d') x = owner (K d2) (chunks d2) x) as Ho.
    { intros x Hx. by apply (set_owner (K d2) HK (chunks d2) c ch _ j st (mkObjectStub (Some o) (Some r) (os_unique st))). }
    pose proof (place_stub d2 pend _ Hw c ch j st Ec Ej Hj) as Est. rewrite <- Ei in Est.
    destruct Hk as [H1 H2 H3 H4 H5 H6 H7 H8 H9 H10 H11]. rewrite H1 in *. split; try done.
    + intros k'. rewrite <- H9. by apply (role_put _ _ s).
    + cbn. by rewrite H5.
    + cbn [uid_index]. rewrite Hs by lia. by rewrite decide_True.
    + cbn [uid_index]. rewrite Ho by lia. unfold owner. rewrite Ei, Z.add_comm, Z.div_add, Z.div_small by lia. by rewrite Z.add_0_l, Nat2Z.id, Ec, <- Esv.
    + cbn [uid_index uid_unique]. intros x Ex. destruct (H10 i x ltac:(lia) Ex) as [E _]. rewrite Est in E. by simplify_eq.
    + intros x y Hx Hne Ey. cbn [uid_index] in Hne. destruct (H10 x y Hx Ey) as [E1 E2]. rewrite Hs, Ho by done. by rewrite decide_False.
Qed.

Lemma refuse_end : let d' := with_world (put_service d2 k (ss_cache s (i :: objcache s))) w in mwf d' pend [] /\ refused d d' w.
Proof using Hk Hw Ek.
  intros d'. split.
  - apply mwf_world. eapply mwf_put_service with (pend := pend) (held := [(Z.of_nat k, i)]); [exact Hw|done|done| | |done].
    + intros [S1 S2 S3 S4]. rewrite of_svc_cons, decide_True in S3 by done. split; try done.
    + intros k' Hne. split; [done|]. by rewrite of_svc_cons, decide_False by (cbn; lia).
  - destruct Hk as [H1 H2 H3 H4 H5 H6 H7 H8 H9 H10 H11]. split; try done.
    + intros k'. rewrite <- H9. by apply (role_put _ _ s).
    + intros x y Hx _ Ey. by apply H10.
Qed.

End Ends.

Lemma place_object_spec d pend d1 k s s1 i o m r f : mwf d pend [] -> handed_out d k s pend (d1, s1, i) -> objs d !! o = Some m -> fullid m = Invalid ->
  exists d' uid e, place_object d1 k s1 i (Z.of_nat k) o r f = Done (d', uid, e) /\ mwf d' pend [] /\
    match e with
    | None => uid_index uid = i /\ f (world d) = (world d', true) /\ entered d d' k o m r uid (world d')
    | Some x => x = error_object_schedule /\ uid = ObjectId_new /\ f (world d) = (world d', false) /\ refused d d' (world d')
    end.
Proof using Type.
  intros Hw0 (Ek & Er & c & ch & Ed & Ec & Hsv & Hk & Hw) Eo Ef. set (d2 := put_chunk d1 c (own ch (Z.of_nat k))) in *.
  assert (svcdq d2 !! k = Some s1) as Ek2 by done. pose proof (k_K _ _ Hk) as EK. change (K d1 = K d) in EK.
  destruct (held_place _ _ _ _ _ Hw Ek2) as (c' & ch' & j & st & Ed' & Em & Ei & Hj & Ec' & Ej & Est & Ep & Esv & Hr).
  change (K d2) with (K d1) in *. rewrite EK in *. assert (c' = c) as -> by lia.
  assert (ch' = own ch (Z.of_nat k)) as ->.
  { cbn in Ec'. rewrite list_lookup_insert_eq in Ec' by (by eapply lookup_lt_Some). congruence. }
  pose proof (k_objs _ _ Hk) as Eob. change (objs d1 = objs d) in Eob. pose proof (k_world _ _ Hk) as Ewo. change (world d1 = world d) in Ewo.
  assert (objs d2 !! o = Some m) as Eo2 by (cbn; by rewrite Eob).
  pose proof (m_objst _ _ _ Hw) as Hidle. change (idle (objstore d1)) in Hidle.
  unfold place_object, aquireReadObjectStore. rewrite (aquireRead_idle _ Hidle). unfold chunk. cbn [objchkcnt with_objstore]. rewrite EK, Ed.
  rewrite (chunk_at_seq _ _ c ch (length (chunks d1))); [|cbn; rewrite vec_busy; etransitivity; [exact (m_objvec _ _ _ Hw)|cbn; by rewrite length_insert]|by eapply lookup_lt_Some|done].
  cbn [res_bind]. unfold releaseReadObjectStore. cbn [objstore with_objstore]. rewrite (releaseRead_busy _ Hidle).
  replace (with_objstore (with_objstore d1 (busy (objstore d1))) (objstore d1)) with d1 by (by destruct d1).
  change (mkObjectChunk (if svcidx ch =? Invalid then Z.of_nat k else svcidx ch) _ _ _) with (own ch (Z.of_nat k)).
  change (put_chunk d1 c (own ch (Z.of_nat k))) with d2. rewrite (set_id_done d2 o m) by done. cbn [res_bind].
  change (world (put_object_mem d2 o _)) with (world d1). rewrite Ewo. destruct (f (world d)) as [w ok] eqn:Efw. destruct ok.
  - change (K (with_world _ w)) with (K d1). rewrite EK, Em. rewrite (proj2 (vec_get_done _ (Z.of_nat j) st)) by (rewrite Nat2Z.id; auto with lia). cbn [res_bind].
    pose proof (lookup_lt_Some _ _ _ Ej). rewrite vec_set_done by lia. cbn [res_bind]. rewrite Nat2Z.id.
    rewrite <- EK in Ei, Hj. destruct (enter_end d d2 pend k s1 i o m w Hk Hw Ek2 Eo2 Ef r c _ j st Ei Hj Ec' Ej Ep Esv Hr) as [Hw' Hen].
    do 3 eexists. split; [reflexivity|]. split; [exact Hw'|]. split; [done|]. split; [done|exact Hen].
  - rewrite (set_id_done _ o (mkObjectBase i (smask m))) by (cbn; by rewrite lookup_insert_eq). cbn [res_bind].
    destruct (refuse_end d d2 pend k s1 i w Hk Hw Ek2) as [Hw' Hre]. exists (with_world (put_service d2 k (ss_cache s1 (i :: objcache s1))) w), ObjectId_new, (Some error_object_schedule).
    split; [|done]. do 3 f_equal. apply data_eq; try done. cbn. rewrite insert_insert_eq. apply insert_id. rewrite Eob, Eo. f_equal. destruct m; cbn in *; by subst.
Qed.

Lemma service_idx d pend a ms : mwf d pend [] -> services d !! a = Some ms -> idx ms <> Invalid ->
  exists k s, idx ms = Z.of_nat k /\ svcdq d !! k = Some s /\ psvc s = Some a.
Proof using Type. intros Hw Ea Hi. by destruct (m_services _ _ _ Hw a ms Ea) as [?|?]. Qed.

Lemma registerObject_spec d pend a ms o m r f : mwf d pend [] -> services d !! a = Some ms -> objs d !! o = Some m -> fullid m = Invalid ->
  (Z.of_nat (length (chunks d)) + 1) * K d < Invalid ->
  exists d' uid e, registerObject d a o r f = Done (d', uid, e) /\ mwf d' pend [] /\
    match e with
    | None => exists k s, idx ms = Z.of_nat k /\ svcdq d !! k = Some s /\ role s = (Some a, StateRunningE) /\ f (world d) = (world d', true) /\ entered d d' k o m r uid (world d')
    | Some error_service_unknown => uid = ObjectId_new /\ d' = d /\ idx ms = Invalid
    | Some error_service_not_running => uid = ObjectId_new /\ d' = d /\ exists k s, idx ms = Z.of_nat k /\ svcdq d !! k = Some s /\ psvc s = Some a /\ state s <> StateRunningE
    | Some error_object_schedule => uid = ObjectId_new /\ f (world d) = (world d', false) /\ refused d d' (world d')
    end.
Proof using Type.
  intros Hw Ea Eo Ef Hroom. unfold registerObject, service_mem. rewrite Ea. cbn [of_option res_bind].
  destruct (Z.eqb_spec (idx ms) Invalid) as [Ei|Ei]; [by exists d, ObjectId_new, (Some error_service_unknown)|].
  destruct (service_idx d pend a ms Hw Ea Ei) as (k & s & Ek & Es & Ep). rewrite Ek, (aquire_svc d _ _ Hw), (service_at_busy d _ _ k s Hw Es). cbn [res_bind].
  rewrite (release_svc d _ _ Hw), Ep, bool_decide_eq_true_2 by done. cbn [negb orb].
  destruct (decide (state s = StateRunningE)) as [Hst|Hst].
  - rewrite bool_decide_eq_true_2 by done. cbn [negb]. destruct (take_index_spec d pend k s Hw Es Hroom) as ([[d1 s1] i] & -> & Hh). cbn [res_bind].
    destruct (place_object_spec d pend d1 k s s1 i o m r f Hw Hh Eo Ef) as (d' & uid & e & -> & Hw' & He). exists d', uid, e. split; [done|]. split; [done|].
    destruct e as [x|].
    + destruct He as (-> & ? & ? & ?). done.
    + destruct He as (_ & ? & ?). exists k, s. split_and!; try done. unfold role. by rewrite Ep, Hst.
  - rewrite bool_decide_eq_false_2 by done. exists d, ObjectId_new, (Some error_service_not_running). split_and!; try done. by exists k, s.
Qed.

(** ** A new service *)

Definition add_service d (a : Svc) (ms : ServiceMem) (D : Double) : Data World :=
  let n := length (svcdq d) in
  with_svcdq (with_svccnt (put_service_mem (with_crtsvcidx (with_svcstore d D) (Z.of_nat n + 1)) a (mkServiceMem (Z.of_nat n) (running ms))) (svccnt d + 1))
    (svcdq d ++ [reset_to a]).

Lemma mwf_add_service d pend a ms D (n := length (svcdq d)) : mwf d pend [] -> services d !! a = Some ms -> idx ms = Invalid -> Z.of_nat n + 1 < Invalid ->
  idle D -> (forall j x, crtvec D !! j = Some (Some x) <-> x = j /\ (j < S n)%nat) -> mwf (add_service d a ms D) pend [].
Proof using Type.
  intros Hw Ea Ei Hn HD Hv. destruct Hw as [H1 H2 H3 H4 H5 H6 H7 H8 H9 H10 H11 H12 H13 H14 H15 H16 H17 H18].
  assert (length (svcdq d ++ [reset_to a]) = S n) as El by (rewrite length_app; cbn; lia).
  split; cbn [add_service svcdq with_svcdq with_svccnt put_service_mem with_crtsvcidx with_svcstore with_services chunks objchkcnt objs services crtsvcidx svcstore objstore maxobjcnt svccache chkcache];
    rewrite ?El; fold n; try done; try lia.
  - intros b mb. rewrite lookup_insert_Some. intros [[<- <-]|[Hne Eb]].
    + right. exists n, (reset_to a). split_and!; try done. by apply list_lookup_middle.
    + destruct (H12 b mb Eb) as [?|(k & s & Ek & Es & Ep)]; [by left|right]. exists k, s. split_and!; try done. by apply lookup_app_l_Some.
  - eapply Forall_impl; [exact H13|]. intros ch [(k & Ek & Hk) ? ?]. split; try done. exists k. split; [done|]. fold n in Hk. lia.
  - intros k s [Es|(Hk & Es)]%lookup_app_Some.
    + destruct (H14 k s Es) as [(b & mb & Ep & Eb & Ek) S2 S3 S4]. split; try done. exists b, mb. split_and!; try done. cbn.
      rewrite lookup_insert_ne; [done|]. intros <-. simplify_eq. apply lookup_lt_Some in Es. lia.
    + apply list_lookup_singleton_Some in Es as [Ek <-]. assert (k = n) as -> by (fold n in Hk, Ek; lia).
      assert (mine (K d) (chunks d) (Z.of_nat n) = []) as Em.
      { apply filter_none. intros i Hi%elem_places. destruct (place_in (K d) H1 i _ Hi) as [Hd _]. unfold owner.
        destruct (chunks d !! Z.to_nat (i / K d)) as [ch|] eqn:Ec; [|done]. cbn. destruct (Forall_lookup_1 _ _ _ _ H13 Ec) as [(k & -> & Hkn) _ _]. fold n in Hkn. intros [= ?]. lia. }
      assert (of_svc (Z.of_nat n) pend = []) as Epd.
      { unfold of_svc. rewrite filter_none; [done|]. intros x Hx. destruct (proj1 (Forall_forall _ _) H15 x Hx) as (k & -> & Hkn). fold n in Hkn. lia. }
      split; cbn [psvc reset_to firstchk lastchk objcache objcnt chunks services].
      * exists a, (mkServiceMem (Z.of_nat n) (running ms)). split_and!; try done. cbn. by rewrite lookup_insert_eq.
      * exists []. split_and!; try done; [apply NoDup_nil_2|]. intros c. rewrite elem_of_nil. split; [done|]. intros (ch & Ec & Esv).
        destruct (Forall_lookup_1 _ _ _ _ H13 Ec) as [(k & Ek2 & Hkn) _ _]. fold n in Hkn. lia.
      * cbn. unfold taken. rewrite Em, Epd. cbn. unfold fresh_of. cbn. by rewrite seqZ_nil by lia.
      * cbn. unfold taken. by rewrite Em, Epd.
  - eapply Forall_impl; [exact H15|]. intros x (k & Ek & Hk). exists k. split; [done|]. fold n in Hk. lia.
Qed.

(** The end of [registerService], with the stub of the service in the store *)
Lemma add_service_end d a ms D (n := length (svcdq d)) : vec (store D (crtidx D)) !! n = Some (Some n) ->
  let d1 := with_crtsvcidx (with_svcstore (with_svcdq d (svcdq d ++ [ServiceStub_new])) D) (Z.of_nat n + 1) in
  let d2 := with_svccnt (put_service_mem d1 a (mkServiceMem (Z.of_nat n) (running ms))) (svccnt d1 + 1) in
  (let! (p, _) := service_at d2 (crtidx D) (Z.of_nat n) in Done (put_service d2 p (reset_to a), true)) = Done (add_service d a ms D, true).
Proof using Type.
  intros Hv d1 d2. unfold service_at, vec_deref. change (svcstore d2) with D. rewrite (proj2 (vec_get_done _ (Z.of_nat n) (Some n))) by (rewrite Nat2Z.id; auto with lia).
  cbn [res_bind of_option]. change (svcdq d2) with (svcdq d ++ [ServiceStub_new]). rewrite list_lookup_middle by done. cbn [res_bind of_option].
  do 2 f_equal. apply data_eq; try done. cbn. replace n with (length (svcdq d) + 0)%nat by lia. by rewrite insert_app_r.
Qed.

Lemma crtvec_long d pend : mwf d pend [] -> (length (svcdq d) <= length (crtvec (svcstore d)))%nat.
Proof using Type.
  intros Hw. destruct (length (svcdq d)) as [|n] eqn:E; [lia|]. assert (crtvec (svcstore d) !! n = Some (Some n)) as Hn by (apply (m_svcvec _ _ _ Hw); lia).
  apply lookup_lt_Some in Hn. lia.
Qed.

Lemma registerService_spec d pend a ms : mwf d pend [] -> services d !! a = Some ms -> Z.of_nat (length (svcdq d)) + 1 < Invalid ->
  (idx ms <> Invalid \/ mstate d <> StateRunningE) /\ registerService d a = Done (d, false) \/
  idx ms = Invalid /\ mstate d = StateRunningE /\ exists D, registerService d a = Done (add_service d a ms D, true) /\ mwf (add_service d a ms D) pend [].
Proof using Type.
  intros Hw Ea Hn. unfold registerService, service_mem. rewrite Ea. cbn [of_option res_bind]. unfold isRegistered.
  destruct (Z.eqb_spec (idx ms) Invalid) as [Ei|Ei]; cbn [negb]; [|left; tauto].
  destruct (decide (mstate d = StateRunningE)) as [Em|Em]; [rewrite bool_decide_eq_true_2 by done|rewrite bool_decide_eq_false_2 by done; left; tauto].
  cbn [negb]. right. split; [done|]. split; [done|]. rewrite (proj1 (m_caches _ _ _ Hw)), (m_crtsvc _ _ _ Hw). cbv zeta.
  set (n := length (svcdq d)) in *. change (vec (store (svcstore d) (crtidx (svcstore d)))) with (crtvec (svcstore d)).
  pose proof (crtvec_long d pend Hw) as Hlong. fold n in Hlong. pose proof (m_svcvec _ _ _ Hw) as Hvec. fold n in Hvec.
  destruct (Z.ltb_spec (Z.of_nat n) (Z.of_nat (length (crtvec (svcstore d))))) as [Hlt|Hge].
  - cbn [svcstore with_svcdq]. change (vec (store (svcstore d) (crtidx (svcstore d)))) with (crtvec (svcstore d)). rewrite vec_set_done by lia. cbn [res_bind]. rewrite !Nat2Z.id.
    set (D := set_store _ _ _). assert (crtidx D = crtidx (svcstore d)) as Ecr by (unfold D; by destruct (svcstore d) as [[] ? ?]).
    assert (crtvec D = <[n := Some n]> (crtvec (svcstore d))) as Ecv by (unfold D, crtvec; by destruct (svcstore d) as [[] ? ?]).
    exists D. split.
    + rewrite <- Ecr. apply add_service_end. change (crtvec D !! n = Some (Some n)). rewrite Ecv. apply list_lookup_insert_eq. lia.
    + apply mwf_add_service; try done.
      * pose proof (m_svcst _ _ _ Hw) as Hid. intros i. unfold D. pose proof (Hid i). destruct (svcstore d) as [[] [] []], i; done.
      * intros j x. fold n. rewrite Ecv. destruct (decide (j = n)) as [->|Hne]; [rewrite list_lookup_insert_eq by lia|rewrite list_lookup_insert_ne by done].
        -- split; [intros [= <-]; lia|intros [-> _]; done].
        -- rewrite Hvec. lia.
  - destruct (aquireWrite_idle (svcstore d) (m_svcst _ _ _ Hw)) as (D' & EW & ED1 & ED2 & ED3). rewrite EW. cbn [res_bind]. rewrite ED2.
    change (vec (store (svcstore d) (crtidx (svcstore d)))) with (crtvec (svcstore d)). rewrite <- app_assoc.
    set (v := crtvec (svcstore d) ++ _). assert (n < length v)%nat as Hnv by (unfold v; rewrite !length_app; cbn; lia).
    rewrite vec_set_done by lia. cbn [res_bind]. rewrite Nat2Z.id. destruct (ED3 (<[n := Some n]> v)) as (HD1 & HD2 & _). set (D := releaseWrite _ _) in *.
    exists D. split.
    + replace (negb (crtidx (svcstore d))) with (crtidx D) by done. apply add_service_end. change (crtvec D !! n = Some (Some n)). rewrite HD2. by apply list_lookup_insert_eq.
    + apply mwf_add_service; try done. intros j x. fold n. rewrite HD2. destruct (decide (j = n)) as [->|Hne]; [rewrite list_lookup_insert_eq by lia|rewrite list_lookup_insert_ne by done].
      * split; [intros [= <-]; lia|intros [-> _]; done].
      * unfold v. rewrite lookup_app_Some, Hvec. split; [|lia]. intros [?|[? Hx]]; [lia|].
        apply list_elem_of_lookup_2, elem_of_app in Hx as [Hx|Hx]; [by apply list_elem_of_singleton in Hx|by apply elem_of_replicate in Hx as [? _]].
Qed.

End Register.
End ManagerRegister.
