(* ===== verification/ManagerVisit.v ===== *)
(** * Visiting objects

    The visits, [stopService] and [stop] of Manager.v against the invariant of ManagerProofs.v. *)

From stdpp Require Import gmap list.
From S2P Require Import Prelude FrameCommon StoreLock Manager ManagerProofs ManagerObjects ManagerRegister.
Import FrameCommon StoreLock Manager ManagerProofs ManagerObjects ManagerRegister.
#[local] Set Warnings "-clear-no-such-hyp".
#[local] Open Scope res_scope.
#[local] Open Scope Z_scope.

Module ManagerVisit.

(** An object that can be visited, with its reactor *)
Definition visitable (st : ObjectStub) : option (Obj * Rct) :=
  match pobject st, preactor st with Some o, Some r => Some (o, r) | _, _ => None end.

Lemma visitable_taken l : (length (omap visitable l) <= length (filter (fun s => taken_stub s = true) l))%nat.
Proof.
  induction l as [|st l IH]; [done|]. rewrite filter_cons. cbn [omap list_omap]. destruct (decide (taken_stub st = true)) as [Ht|Ht].
  - destruct (visitable st); cbn; lia.
  - assert (visitable st = None) as ->; [|done]. unfold visitable, taken_stub in *. destruct (pobject st); [|done]. destruct Ht. by apply bool_decide_eq_true_2.
Qed.

(** *** Lists without repetitions *)

Lemma NoDup_join {A : Type} (g : nat -> list A) l : NoDup l -> (forall c, c ∈ l -> NoDup (g c)) ->
  (forall c c' x, c ∈ l -> c' ∈ l -> x ∈ g c -> x ∈ g c' -> c = c') -> NoDup (mjoin (g <$> l)).
Proof.
  intros Hl Hg Hd. induction Hl as [|c l Hc Hl IH]; [apply NoDup_nil_2|]. cbn. apply NoDup_app. split_and!.
  - apply Hg. by left.
  - intros x Hx (l' & Hx' & (c' & -> & Hc')%list_elem_of_fmap)%list_elem_of_join. destruct Hc.
    by rewrite (Hd c c' x ltac:(by left) ltac:(by right) Hx Hx').
  - apply IH; [intros c' ?; apply Hg; by right|]. intros c1 c2 x ? ?. apply Hd; by right.
Qed.

Lemma NoDup_omap_inj {A B : Type} (g : A -> option B) l :
  (forall j j' x x' y, l !! j = Some x -> l !! j' = Some x' -> g x = Some y -> g x' = Some y -> j = j') -> NoDup (omap g l).
Proof.
  induction l as [|a l IH]; intros Hi; [apply NoDup_nil_2|]. cbn. assert (NoDup (omap g l)) as Hl.
  { apply IH. intros j j' x x' y E1 E2 E3 E4. by injection (Hi (S j) (S j') x x' y E1 E2 E3 E4). }
  destruct (g a) as [b|] eqn:Eg; [|done]. apply NoDup_cons. split; [|done]. intros (x & Hx & Egx)%list_elem_of_omap.
  apply list_elem_of_lookup in Hx as [j Hx]. by pose proof (Hi 0%nat (S j) a x b eq_refl Hx Eg Egx).
Qed.

Section Visit.
Context {World Ev : Type} {ME : ManagerEnv World Ev}.
Implicit Types (d : Data World).

Abbreviation K := objchkcnt.
Abbreviation Visit := (gmap Obj ObjectBase -> World -> Obj -> Rct -> res (gmap Obj ObjectBase * World * bool)).

(** The visits of some objects, one after the other *)
Fixpoint fold_visit d (l : list (Obj * Rct)) (f : Visit) : res (Data World) :=
  match l with
  | [] => Done d
  | (o, r) :: l => let! (d, _) := apply_visit d f o r in fold_visit d l f
  end.

Lemma visit_chunk_fold f l : forall d cnt chk vc, Z.of_nat (length (omap visitable l)) <= chk - cnt ->
  visit_chunk d l cnt chk vc f = let! d' := fold_visit d (omap visitable l) f in Done (d', vc + Z.of_nat (length (omap visitable l))).
Proof using Type.
  induction l as [|st l IH]; intros d cnt chk vc Hc; [cbn; by rewrite Z.add_0_r|].
  assert (omap visitable (st :: l) = match visitable st with Some x => x :: omap visitable l | None => omap visitable l end) as E by done.
  rewrite E in *. clear E. cbn [visit_chunk]. destruct (Z.ltb_spec cnt chk) as [Hlt|Hge].
  - assert (forall X (a : Obj -> Rct -> X) b, match pobject st, preactor st with Some o, Some r => a o r | _, _ => b end = match visitable st with Some (o, r) => a o r | None => b end) as ->
      by (intros X a b; unfold visitable; by destruct (pobject st), (preactor st)).
    destruct (visitable st) as [[o r]|]; [|by apply IH]. cbn [fold_visit].
    destruct (apply_visit d f o r) as [[d1 b]| |]; [|done|done]. cbn [res_bind]. rewrite IH by (cbn [length] in *; lia).
    destruct (fold_visit d1 (omap visitable l) f); [|done|done]. cbn [res_bind length]. do 2 f_equal. lia.
  - destruct (visitable st); cbn [length] in Hc; [lia|]. destruct (omap visitable l) as [|]; cbn [length] in Hc; [|lia]. cbn. by rewrite Z.add_0_r.
Qed.

(** A visit changes nothing of the manager. *)
Lemma apply_visit_with d f o r d' b : apply_visit d f o r = Done (d', b) -> exists os w, d' = with_world (with_objs d os) w /\ f (objs d) (world d) o r = Done (os, w, b).
Proof using Type. unfold apply_visit. destruct (f (objs d) (world d) o r) as [[[os w] b']| |]; [|done|done]. cbn. intros [= <- <-]. by exists os, w. Qed.

Lemma fold_visit_with l f : forall d d', fold_visit d l f = Done d' -> exists os w, d' = with_world (with_objs d os) w.
Proof using Type.
  induction l as [|[o r] l IH]; intros d d'; cbn [fold_visit].
  - intros [= <-]. exists (objs d), (world d). by destruct d.
  - destruct (apply_visit d f o r) as [[d1 b]| |] eqn:E; [|done|done]. apply apply_visit_with in E as (os & w & -> & _). cbn [res_bind].
    intros (os' & w' & ->)%IH. by exists os', w'.
Qed.

Lemma fold_visit_app l l' f : forall d, fold_visit d (l ++ l') f = let! d' := fold_visit d l f in fold_visit d' l' f.
Proof using Type.
  induction l as [|[o r] l IH]; intros d; cbn [app fold_visit]; [done|]. destruct (apply_visit d f o r) as [[d1 b]| |]; [|done|done]. apply IH.
Qed.

(** ** The objects of a service *)

(** What [doForEachServiceObject] relies on *)
Record tables d : Prop := {
  t_idle : idle (objstore d);
  t_vec : crtvec (objstore d) = Some <$> seq 0 (length (chunks d));
  t_len : Z.of_nat (length (chunks d)) < Invalid;
  t_chunks : Forall (fun ch => length (objects ch) = Z.to_nat (K d) /\ chk_objcnt ch = count_taken (objects ch)) (chunks d)
}.

Lemma mwf_tables d pend held : mwf d pend held -> tables d.
Proof using Type.
  intros Hw. split; [apply (m_objst _ _ _ Hw)|apply (m_objvec _ _ _ Hw)| |].
  - pose proof (m_room _ _ _ Hw). pose proof (m_K _ _ _ Hw). nia.
  - eapply Forall_impl; [apply (m_chunks _ _ _ Hw)|]. by intros ch [].
Qed.

Lemma tables_with d os w : tables d -> tables (with_world (with_objs d os) w).
Proof using Type. by intros []. Qed.

Definition visits_of (chs : list ObjectChunk) (c : nat) : list (Obj * Rct) :=
  match chs !! c with Some ch => omap visitable (objects ch) | None => [] end.

Definition chunk_visits (chs : list ObjectChunk) (l : list nat) : list (Obj * Rct) := mjoin (visits_of chs <$> l).

Lemma doForEach_fold f l : forall fuel d first vc, tables d -> chain (chunks d) first l -> (length l <= fuel)%nat ->
  doForEachServiceObject fuel d first vc f = let! d' := fold_visit d (chunk_visits (chunks d) l) f in Done (d', vc + Z.of_nat (length (chunk_visits (chunks d) l))).
Proof using Type.
  induction l as [|c l IH]; intros fuel d first vc Ht; cbn [chain].
  - intros -> _. destruct fuel; cbn; by rewrite Z.add_0_r.
  - intros [-> (ch & Ec & Hch)] Hf. destruct fuel as [|fuel]; [cbn in Hf; lia|]. pose proof (lookup_lt_Some _ _ _ Ec) as Hlt. pose proof (t_len _ Ht).
    destruct (Forall_lookup_1 _ _ _ _ (t_chunks _ Ht) Ec) as [Hl Hcnt]. cbn [doForEachServiceObject]. rewrite (proj2 (Z.eqb_neq _ _)) by lia.
    unfold aquireReadObjectStore. rewrite (aquireRead_idle _ (t_idle _ Ht)).
    rewrite (chunk_at_seq _ _ c ch (length (chunks d))); [|cbn; rewrite vec_busy; exact (t_vec _ Ht)|done|done]. cbn [res_bind].
    unfold releaseReadObjectStore. cbn [objstore with_objstore]. rewrite (releaseRead_busy _ (t_idle _ Ht)).
    replace (with_objstore (with_objstore d (busy (objstore d))) (objstore d)) with d by (by destruct d).
    rewrite take_ge by lia. rewrite visit_chunk_fold.
    2:{ rewrite Hcnt. unfold count_taken. pose proof (visitable_taken (objects ch)). lia. }
    unfold chunk_visits. cbn [fmap list_fmap mjoin list_join]. unfold visits_of at 1 3. rewrite Ec, fold_visit_app, length_app.
    destruct (fold_visit d (omap visitable (objects ch)) f) as [d1| |] eqn:E1; [|done|done]. apply fold_visit_with in E1 as (os & w & ->). cbn [res_bind].
    rewrite (IH fuel _ (nextchk ch)); [|by apply tables_with|done|cbn in Hf; lia]. unfold chunk_visits. cbn [chunks with_world with_objs].
    destruct (fold_visit _ _ f); [|done|done]. cbn [res_bind]. by rewrite Nat2Z.inj_add, Z.add_assoc.
Qed.

(** Which objects of a service can be visited, each once *)
Definition at_visit d (k : Z) (o : Obj) (r : Rct) : Prop :=
  exists i st, 0 <= i /\ stub_at (K d) (chunks d) i = Some st /\ owner (K d) (chunks d) i = Some k /\ pobject st = Some o /\ preactor st = Some r.

Definition visits_at d (k : Z) (vs : list (Obj * Rct)) : Prop := NoDup (fst <$> vs) /\ forall o r, (o, r) ∈ vs <-> at_visit d k o r.

Lemma elem_visits d o r c : (o, r) ∈ visits_of (chunks d) c <->
  exists ch j st, chunks d !! c = Some ch /\ objects ch !! j = Some st /\ pobject st = Some o /\ preactor st = Some r.
Proof using Type.
  unfold visits_of. split.
  - destruct (chunks d !! c) as [ch|]; [|by intros ?%elem_of_nil]. intros (st & (j & Ej)%list_elem_of_lookup & Evs)%list_elem_of_omap.
    exists ch, j, st. unfold visitable in Evs. destruct (pobject st), (preactor st); simplify_eq. done.
  - intros (ch & j & st & -> & Ej & Ep & Er). apply list_elem_of_omap. exists st. split; [by eapply list_elem_of_lookup_2|]. unfold visitable. by rewrite Ep, Er.
Qed.

(** The index of a place of a chunk *)
Lemma place_at d pend held c ch j st : mwf d pend held -> chunks d !! c = Some ch -> objects ch !! j = Some st ->
  0 <= Z.of_nat c * K d + Z.of_nat j /\ stub_at (K d) (chunks d) (Z.of_nat c * K d + Z.of_nat j) = Some st /\
  owner (K d) (chunks d) (Z.of_nat c * K d + Z.of_nat j) = Some (svcidx ch) /\ Z.of_nat j < K d.
Proof using Type.
  intros Hw Ec Ej. pose proof (m_K _ _ _ Hw) as HK. destruct (Forall_lookup_1 _ _ _ _ (m_chunks _ _ _ Hw) Ec) as [_ Hl _].
  pose proof (lookup_lt_Some _ _ _ Ej). assert (Z.of_nat j < K d) as Hj by lia. split_and!; try done; [lia|by apply (place_stub d pend held Hw c ch)|].
  unfold owner. rewrite Z.add_comm, Z.div_add, Z.div_small, Z.add_0_l, Nat2Z.id, Ec by lia. done.
Qed.

(** An object sits at one place. *)
Lemma object_once d pend held o c ch j st c' ch' j' st' : mwf d pend held -> chunks d !! c = Some ch -> objects ch !! j = Some st -> pobject st = Some o ->
  chunks d !! c' = Some ch' -> objects ch' !! j' = Some st' -> pobject st' = Some o -> c = c' /\ j = j'.
Proof using Type.
  intros Hw Ec Ej Ep Ec' Ej' Ep'. destruct (place_at _ _ _ _ _ _ _ Hw Ec Ej) as (H1 & H2 & _ & H3). destruct (place_at _ _ _ _ _ _ _ Hw Ec' Ej') as (H1' & H2' & _ & H3').
  destruct (m_occ _ _ _ Hw _ _ _ H1 H2 Ep) as (m & Em & Ef). destruct (m_occ _ _ _ Hw _ _ _ H1' H2' Ep') as (m' & Em' & Ef').
  rewrite Em in Em'. injection Em' as <-. rewrite Ef in Ef'. pose proof (m_K _ _ _ Hw).
  destruct (proj1 (place_split (K d) ltac:(lia) _ (Z.of_nat c) (Z.of_nat j) ltac:(lia) ltac:(lia)) eq_refl) as [D1 D2].
  destruct (proj1 (place_split (K d) ltac:(lia) _ (Z.of_nat c') (Z.of_nat j') ltac:(lia) ltac:(lia)) eq_refl) as [D1' D2'].
  rewrite Ef' in D1, D2. lia.
Qed.

Lemma chunk_visits_at d pend k s l : mwf d pend [] -> svcdq d !! k = Some s -> NoDup l ->
  (forall c, c ∈ l <-> exists ch, chunks d !! c = Some ch /\ svcidx ch = Z.of_nat k) -> visits_at d (Z.of_nat k) (chunk_visits (chunks d) l).
Proof using Type.
  intros Hw Ek Hnd Hin. split.
  - unfold chunk_visits. replace (fst <$> mjoin (visits_of (chunks d) <$> l)) with (mjoin ((fun c => fst <$> visits_of (chunks d) c) <$> l)).
    2:{ clear. induction l as [|c l IH]; [done|]. cbn. rewrite fmap_app. f_equal. exact IH. }
    apply NoDup_join; [done| |].
    + intros c _. unfold visits_of. destruct (chunks d !! c) as [ch|] eqn:Ec; [|apply NoDup_nil_2].
      replace (fst <$> omap visitable (objects ch)) with (omap (fun st => fst <$> visitable st) (objects ch)).
      2:{ clear. induction (objects ch) as [|st l IH]; [done|]. cbn. rewrite IH. by destruct (visitable st). }
      apply NoDup_omap_inj. intros j j' st st' o Ej Ej' ([? ?] & E1 & ->)%fmap_Some ([? ?] & E2 & E3)%fmap_Some.
      unfold visitable in E1, E2. destruct (pobject st) eqn:Ep, (preactor st), (pobject st') eqn:Ep', (preactor st'); simplify_eq.
      cbn in E3. subst. by destruct (object_once d pend [] _ c ch j st c ch j' st' Hw Ec Ej Ep Ec Ej' Ep').
    + intros c c' o _ _ ([o1 r] & -> & H1)%list_elem_of_fmap ([o2 r'] & E & H2)%list_elem_of_fmap. cbn in E. subst o2.
      apply elem_visits in H1 as (ch & j & st & ? & ? & ? & _). apply elem_visits in H2 as (ch' & j' & st' & ? & ? & ? & _).
      by destruct (object_once d pend [] o1 c ch j st c' ch' j' st').
  - intros o r. unfold chunk_visits. rewrite list_elem_of_join. split.
    + intros (x & Hx & (c & -> & Hc)%list_elem_of_fmap). apply elem_visits in Hx as (ch & j & st & Ec & Ej & Ep & Er). apply Hin in Hc as (ch' & Ec' & Esv).
      simplify_eq. destruct (place_at _ _ _ _ _ _ _ Hw Ec Ej) as (H1 & H2 & H3 & _). exists (Z.of_nat c * K d + Z.of_nat j), st. split_and!; try done. by rewrite H3, Esv.
    + intros (i & st & Hi & Est & Eow & Ep & Er). pose proof (stub_range _ _ _ _ _ Hw Hi Est) as Hr.
      destruct (place_of d pend [] i Hw ltac:(lia)) as (c & ch & j & st' & Ed & Em & Ei & Hj & Ec & Ej & Est'). rewrite Est in Est'. injection Est' as <-.
      unfold owner in Eow. rewrite Ed, Nat2Z.id, Ec in Eow. injection Eow as Eow.
      exists (visits_of (chunks d) c). split; [apply elem_visits; by exists ch, j, st|]. apply list_elem_of_fmap. exists c. split; [done|]. apply Hin. by exists ch.
Qed.

(** The loop over the chunks of a service visits its objects. *)
Lemma service_visits d pend k s : mwf d pend [] -> svcdq d !! k = Some s -> exists vs, visits_at d (Z.of_nat k) vs /\
  forall d' f, chunks d' = chunks d -> tables d' -> forEach d' (firstchk s) f = let! d2 := fold_visit d' vs f in Done (d2, Z.of_nat (length vs)).
Proof using Type.
  intros Hw Ek. destruct (m_svc _ _ _ Hw k s Ek) as [_ (l & C1 & C2 & C3 & _) _ _]. exists (chunk_visits (chunks d) l). split; [by apply (chunk_visits_at d pend k s)|].
  intros d' f Ec Ht. unfold forEach. rewrite (doForEach_fold f l); [by rewrite Ec|done|by rewrite Ec|]. rewrite Ec.
  rewrite <- (length_seq (length (chunks d)) 0). apply submseteq_length, NoDup_submseteq; [done|]. intros c (ch & Ech & _)%C3.
  apply elem_of_seq. apply lookup_lt_Some in Ech. lia.
Qed.

(** ** Visits that leave the identifiers alone *)

Definition same_ids (os os' : gmap Obj ObjectBase) : Prop := forall o, fullid <$> os !! o = fullid <$> os' !! o.

#[export] Instance same_ids_equiv : Equivalence same_ids.
Proof using Type. split; [by intros ? ?|by intros ? ? ? ?|]. intros x y z Hx Hy o. by rewrite Hx. Qed.

Definition good_visit (f : Visit) : Prop :=
  forall os w o r, is_Some (os !! o) -> exists os' w' b, f os w o r = Done (os', w', b) /\ same_ids os os'.

Lemma same_ids_some os os' o m : same_ids os os' -> os !! o = Some m -> exists m', os' !! o = Some m' /\ fullid m' = fullid m.
Proof using Type. intros H E. specialize (H o). rewrite E in H. destruct (os' !! o) as [m'|]; [|done]. cbn in H. exists m'. split; congruence. Qed.

Lemma notify_object_good e sm : good_visit (notify_object e sm).
Proof using Type.
  intros os w o r [m Em]. unfold notify_object. destruct (sm =? 0).
  - destruct (raise w r o e) as [w' b]. by exists os, w', b.
  - unfold object_notify. rewrite Em. cbn [of_option res_bind]. set (os' := <[o := _]> os).
    assert (same_ids os os') as Hs. { intros x. unfold os'. destruct (decide (x = o)) as [->|]; [by rewrite lookup_insert_eq, Em|by rewrite lookup_insert_ne]. }
    destruct (negb _); [|by exists os', w, true]. destruct (raise w r o e) as [w' b]. by exists os', w', b.
Qed.

Lemma mwf_ids d pend held os w : mwf d pend held -> same_ids (objs d) os -> mwf (with_world (with_objs d os) w) pend held.
Proof using Type.
  intros Hw Hs. symmetry in Hs. apply mwf_world. destruct Hw. split; try done.
  - eapply Forall_impl; [exact m_chunks0|]. by intros x [].
  - intros k s Es. by destruct (m_svc0 k s Es).
  - intros o m Em. destruct (same_ids_some _ _ o m Hs Em) as (m' & Em' & <-). by apply m_objs0.
  - intros i st o Hi Est Ep. destruct (m_occ0 i st o Hi Est Ep) as (m & Em & <-). symmetry in Hs. by destruct (same_ids_some _ _ o m Hs Em) as (m' & Em' & ?); eauto.
Qed.

(** Visits of objects that exist *)
Lemma fold_visit_good f vs : good_visit f -> forall d, (forall o r, (o, r) ∈ vs -> is_Some (objs d !! o)) ->
  exists os w, fold_visit d vs f = Done (with_world (with_objs d os) w) /\ same_ids (objs d) os.
Proof using Type.
  intros Hf. induction vs as [|[o r] vs IH]; intros d Hv; cbn [fold_visit].
  - exists (objs d), (world d). split; [by destruct d|done].
  - unfold apply_visit. destruct (Hf (objs d) (world d) o r) as (os & w & b & -> & Hs); [apply (Hv o r); by left|]. cbn [res_bind].
    destruct (IH (with_world (with_objs d os) w)) as (os' & w' & -> & Hs').
    + intros o' r' Hin. destruct (Hv o' r') as [m Em]; [by right|]. destruct (same_ids_some _ _ o' m Hs Em) as (m' & ? & _). by exists m'.
    + exists os', w'. split; [done|]. by transitivity os.
Qed.

Lemma visit_exists d pend k vs o r : mwf d pend [] -> visits_at d k vs -> (o, r) ∈ vs -> is_Some (objs d !! o).
Proof using Type. intros Hw [_ Hv] (i & st & Hi & Est & _ & Ep & _)%Hv. destruct (m_occ _ _ _ Hw i st o Hi Est Ep) as (m & Em & _). by exists m. Qed.

(** ** One object *)

(** The object an identifier stands for *)
Definition stands_for d (uid : UniqueId) : option (Obj * Rct) :=
  st ← stub_at (K d) (chunks d) (uid_index uid); if os_unique st =? uid_unique uid then visitable st else None.

Lemma doVisit_spec d pend uid f : mwf d pend [] -> 0 <= uid_index uid ->
  doVisit d uid f = match stands_for d uid with Some (o, r) => apply_visit d f o r | None => Done (d, false) end.
Proof using Type.
  intros Hw Hi. unfold doVisit, stands_for. destruct (Z.ltb_spec (uid_index uid) (maxobjcnt d)) as [Hlt|Hge].
  - destruct (place_of d pend [] _ Hw ltac:(split; done)) as (c & ch & j & st & Ed & Em & Ei & Hj & Ec & Ej & Est). rewrite Est. cbn [mbind option_bind].
    rewrite (aquire_obj d pend [] Hw). unfold chunk. cbn [objchkcnt with_objstore]. rewrite Ed, (chunk_at_busy d pend [] c ch Hw Ec). cbn [res_bind].
    rewrite Em, (proj2 (vec_get_done _ (Z.of_nat j) st)) by (rewrite Nat2Z.id; auto with lia). cbn [res_bind].
    unfold visitable. destruct (os_unique st =? uid_unique uid); [|cbn [res_bind]; by rewrite (release_obj d pend [] Hw)].
    destruct (pobject st) as [o|], (preactor st) as [r|]; cbn [res_bind]; try (by rewrite (release_obj d pend [] Hw)).
    unfold apply_visit. cbn [objs world with_objstore]. destruct (f (objs d) (world d) o r) as [[[os w] b]| |]; [|done|done]. cbn [res_bind].
    unfold releaseReadObjectStore. cbn [objstore with_world with_objs with_objstore]. rewrite (releaseRead_busy _ (m_objst _ _ _ Hw)). by destruct d.
  - destruct (stub_at (K d) (chunks d) (uid_index uid)) as [st|] eqn:Est; [|done]. pose proof (stub_range _ _ _ _ _ Hw Hi Est). lia.
Qed.

End Visit.
End ManagerVisit.
