(* ===== verification/ManagerStop.v ===== *)
(** * Stopping services

    [startService], [stopService] and [stop] of Manager.v against the invariant of
    ManagerProofs.v. *)

From stdpp Require Import gmap list.
From S2P Require Import Prelude FrameCommon StoreLock Manager ManagerProofs ManagerObjects ManagerRegister ManagerVisit.
Import FrameCommon StoreLock Manager ManagerProofs ManagerObjects ManagerRegister ManagerVisit.
#[local] Set Warnings "-clear-no-such-hyp".
#[local] Open Scope res_scope.
#[local] Open Scope Z_scope.

Module ManagerStop.

Section Stop.
Context {World Ev : Type} {ME : ManagerEnv World Ev}.
Implicit Types (d : Data World).

Abbreviation K := objchkcnt.

(** An event is raised for some objects, one after the other. *)
Definition raise_all (e : Ev) (w : World) (vs : list (Obj * Rct)) : World := foldl (fun w x => (raise w x.2 x.1 e).1) w vs.

Lemma with_world_id d : with_world d (world d) = d.
Proof using Type. by destruct d. Qed.

Lemma fold_notify e vs : forall d, fold_visit d vs (notify_object e 0) = Done (with_world d (raise_all e (world d) vs)).
Proof using Type.
  induction vs as [|[o r] vs IH]; intros d; cbn [fold_visit]; [by rewrite with_world_id|].
  unfold apply_visit, notify_object at 1. cbn [Z.eqb]. destruct (raise (world d) r o e) as [w b] eqn:Er. cbn [res_bind]. rewrite IH.
  unfold raise_all. cbn. rewrite Er. by destruct d.
Qed.

(** A service is told whether it runs. *)
Lemma mwf_put_mem d pend held a m b : mwf d pend held -> services d !! a = Some m -> mwf (put_service_mem d a (mkServiceMem (idx m) b)) pend held.
Proof using Type.
  intros Hw Ea. destruct Hw. split; try done; cbn [svcdq services put_service_mem with_services].
  - intros a' m'. rewrite lookup_insert_Some. intros [[<- <-]|[_ E]]; [exact (m_services0 a m Ea)|by apply m_services0].
  - eapply Forall_impl; [exact m_chunks0|]. by intros x [].
  - intros k s Es. destruct (m_svc0 k s Es) as [(a' & m' & E1 & E2 & E3) S2 S3 S4]. split; try done. cbn.
    destruct (decide (a' = a)) as [->|Hne].
    + exists a, (mkServiceMem (idx m) b). rewrite lookup_insert_eq. simplify_eq. done.
    + exists a', m'. by rewrite lookup_insert_ne.
Qed.

Lemma mwf_put_state d pend k s x : mwf d pend [] -> svcdq d !! k = Some s -> mwf (put_service d k (ss_state s x)) pend [].
Proof using Type. intros Hw Ek. eapply mwf_put_service with (pend := pend) (held := []); [exact Hw|done|done| |done|done]. by intros [S1 S2 S3 S4]. Qed.

(** Without objects nothing is visited. *)
Lemma no_visits d pend k s vs : mwf d pend [] -> svcdq d !! k = Some s -> visits_at d (Z.of_nat k) vs -> objcnt s = 0 -> vs = [].
Proof using Type.
  intros Hw Ek [_ Hv] H0. destruct vs as [|[o r] vs]; [done|]. destruct (proj1 (Hv o r)) as (i & st & Hi & Est & Eow & Ep & Er); [by left|].
  pose proof (so_cnt _ _ _ _ _ (m_svc _ _ _ Hw k s Ek)) as Hc. rewrite H0 in Hc.
  assert (i ∈ taken (K d) (chunks d) (Z.of_nat k)) as Hin.
  { unfold taken. rewrite list_elem_of_filter. unfold occ. rewrite Est. unfold taken_stub. rewrite Ep. split; [by apply bool_decide_eq_true_2|].
    unfold mine. rewrite list_elem_of_filter, elem_places. split; [done|]. rewrite <- (m_max _ _ _ Hw). split; [done|]. by eapply stub_range. }
  destruct (taken (K d) (chunks d) (Z.of_nat k)); [by apply elem_of_nil in Hin|]. cbn in Hc. lia.
Qed.

(** The state after the objects of the service [k] at [a] were told to stop *)
Definition killed d (k : nat) (s : ServiceStub) (a : Svc) (m : ServiceMem) (vs : list (Obj * Rct)) : Data World :=
  put_service (with_world (put_service_mem d a (mkServiceMem (idx m) false)) (raise_all kill_event (world d) vs)) k
    (ss_state s (if objcnt s =? 0 then StateStoppedE else StateStoppingE)).

Lemma kill_objects_spec d pend k s : mwf d pend [] -> svcdq d !! k = Some s ->
  exists a m vs, psvc s = Some a /\ services d !! a = Some m /\ visits_at d (Z.of_nat k) vs /\ mwf (killed d k s a m vs) pend [] /\
    forall D, kill_objects (with_svcstore d D) s =
      Done (with_svcstore (with_world (put_service_mem d a (mkServiceMem (idx m) false)) (raise_all kill_event (world d) vs)) D, Z.of_nat (length vs)).
Proof using Type.
  intros Hw Ek. destruct (so_svc _ _ _ _ _ (m_svc _ _ _ Hw k s Ek)) as (a & m & Ep & Ea & Ei).
  destruct (service_visits d pend k s Hw Ek) as (vs & Hvs & Hfor). exists a, m, vs. split; [done|]. split; [done|]. split; [done|]. split.
  - unfold killed. apply mwf_put_state; [|done]. apply mwf_world. by apply mwf_put_mem.
  - intros D. unfold kill_objects. rewrite Ep. cbn [of_option res_bind]. unfold service_mem. cbn [services with_svcstore]. rewrite Ea. cbn [of_option res_bind].
    rewrite Hfor; [|done|]. 2:{ destruct (mwf_tables d pend [] Hw). split; done. }
    rewrite fold_notify. done.
Qed.

(** [stopService], for a service in each state *)
Lemma stopService_spec d pend a m b : mwf d pend [] -> services d !! a = Some m ->
  idx m = Invalid /\ stopService d a b = Done (d, false) \/
  exists k s, idx m = Z.of_nat k /\ svcdq d !! k = Some s /\ psvc s = Some a /\
    match state s with
    | StateRunningE => exists vs, visits_at d (Z.of_nat k) vs /\ mwf (killed d k s a m vs) pend [] /\
        stopService d a b = Done (killed d k s a m vs, if objcnt s =? 0 then false else b)
    | StateStoppingE => stopService d a b = Done (d, b)
    | _ => stopService d a b = Done (d, false)
    end.
Proof using Type.
  intros Hw Ea. unfold stopService, service_mem. rewrite Ea. cbn [of_option res_bind]. unfold isRegistered. rewrite negb_involutive.
  destruct (Z.eqb_spec (idx m) Invalid) as [Ei|Ei]; [by left|right].
  destruct (service_idx d pend a m Hw Ea Ei) as (k & s & Ek & Es & Ep). exists k, s. split; [done|]. split; [done|]. split; [done|].
  rewrite Ek, (aquire_svc d _ _ Hw), (service_at_busy d _ _ k s Hw Es). cbn [res_bind]. rewrite (release_svc d _ _ Hw).
  destruct (state s); try done. destruct (kill_objects_spec d pend k s Hw Es) as (a' & m' & vs & Ep' & Ea' & Hvs & Hw' & Hk).
  assert (a' = a) as -> by congruence. assert (m' = m) as -> by congruence. exists vs. split; [done|]. split; [done|].
  specialize (Hk (svcstore d)). replace (with_svcstore d (svcstore d)) with d in Hk by (by destruct d). rewrite Hk. cbn [res_bind].
  unfold killed. destruct (Z.eqb_spec (objcnt s) 0) as [H0|H0].
  - rewrite (no_visits d pend k s vs Hw Es Hvs H0). cbn [length Z.of_nat Z.eqb andb]. by destruct d.
  - rewrite andb_false_r. by destruct d.
Qed.

(** [startService] *)
Lemma startService_spec d pend a m : mwf d pend [] -> services d !! a = Some m ->
  startService d a = Done (d, false) \/
  exists k s, idx m = Z.of_nat k /\ svcdq d !! k = Some s /\ psvc s = Some a /\ state s = StateStoppedE /\
    let d' := put_service (put_service_mem d a (mkServiceMem (idx m) true)) k (ss_state s StateRunningE) in
    startService d a = Done (d', true) /\ mwf d' pend [].
Proof using Type.
  intros Hw Ea. unfold startService, service_mem. rewrite Ea. cbn [of_option res_bind]. unfold isRegistered. rewrite negb_involutive.
  destruct (Z.eqb_spec (idx m) Invalid) as [Ei|Ei]; [by left|].
  destruct (service_idx d pend a m Hw Ea Ei) as (k & s & Ek & Es & Ep).
  rewrite Ek, (aquire_svc d _ _ Hw), (service_at_busy d _ _ k s Hw Es). cbn [res_bind]. rewrite (release_svc d _ _ Hw).
  case_bool_decide as Est; [right|by left]. exists k, s. split; [done|]. split; [done|]. split; [done|]. split; [done|]. rewrite Ep. cbn [of_option res_bind].
  rewrite Ea. cbn [of_option res_bind]. rewrite Ek. split; [done|]. apply mwf_put_state; [|done]. rewrite <- Ek. by apply mwf_put_mem.
Qed.

(** ** The broadcast of [stop] *)

Definition after_stop (s : ServiceStub) : ServiceStub :=
  if bool_decide (state s = StateRunningE) then ss_state s (if objcnt s =? 0 then StateStoppedE else StateStoppingE) else s.

(** The objects of the services at some places of the vector were told to stop. *)
Record broadcast d d' (ps : list nat) (ks : list (Obj * Rct)) : Prop := {
  b_chunks : chunks d' = chunks d;
  b_objs : objs d' = objs d;
  b_K : K d' = K d;
  b_mstate : mstate d' = mstate d;
  b_svcstore : svcstore d' = svcstore d;
  b_world : world d' = raise_all kill_event (world d) ks;
  b_nodup : NoDup (fst <$> ks);
  b_killed : forall o r, (o, r) ∈ ks <-> exists p s, p ∈ ps /\ svcdq d !! p = Some s /\ state s = StateRunningE /\ at_visit d (Z.of_nat p) o r;
  b_svcs : forall p, svcdq d' !! p = (if decide (p ∈ ps) then after_stop <$> svcdq d !! p else svcdq d !! p)
}.

Lemma broadcast_nil d : broadcast d d [] [].
Proof using Type.
  split; try done; [apply NoDup_nil_2|]. intros o r. rewrite elem_of_nil. split; [done|]. by intros (p & s & ?%elem_of_nil & _).
Qed.

(** An object belongs to one service. *)
Lemma visit_once d pend k k' o r r' : mwf d pend [] -> at_visit d k o r -> at_visit d k' o r' -> k = k'.
Proof using Type.
  intros Hw (i & st & Hi & Est & Eow & Ep & _) (i' & st' & Hi' & Est' & Eow' & Ep' & _).
  destruct (m_occ _ _ _ Hw i st o Hi Est Ep) as (m & Em & Ef). destruct (m_occ _ _ _ Hw i' st' o Hi' Est' Ep') as (m' & Em' & Ef').
  rewrite Em in Em'. injection Em' as <-. rewrite Ef in Ef'. subst i'. congruence.
Qed.

(** A service that does not run is left alone. *)
Lemma broadcast_skip d d' p s ps ks : svcdq d !! p = Some s -> state s <> StateRunningE -> p ∉ ps -> broadcast d d' ps ks -> broadcast d d' (p :: ps) ks.
Proof using Type.
  intros Ep Hs Hp [H1 H2 H3 H4 H5 H6 H7 H8 H9]. split; try done.
  - intros o r. rewrite H8. split.
    + intros (q & x & ? & ? & ? & ?). exists q, x. split_and!; try done. by right.
    + intros (q & x & [->|Hq]%elem_of_cons & E & ? & ?); [congruence|]. by exists q, x.
  - intros q. rewrite H9. destruct (decide (q = p)) as [->|Hne].
    + rewrite decide_False by done. rewrite decide_True by (by left). rewrite Ep. cbn. unfold after_stop. by rewrite bool_decide_eq_false_2.
    + destruct (decide (q ∈ ps)); [rewrite decide_True by (by right)|rewrite decide_False by (rewrite elem_of_cons; tauto)]; done.
Qed.

Lemma broadcast_kill d d' pend p s a m vs ps ks : mwf d pend [] -> svcdq d !! p = Some s -> state s = StateRunningE -> p ∉ ps ->
  visits_at d (Z.of_nat p) vs -> broadcast (killed d p s a m vs) d' ps ks -> broadcast d d' (p :: ps) (vs ++ ks).
Proof using Type.
  intros Hw Ep Hs Hp [Hnd Hv] [H1 H2 H3 H4 H5 H6 H7 H8 H9].
  assert (forall q, q ∈ ps -> svcdq (killed d p s a m vs) !! q = svcdq d !! q) as Hq by (intros q Hq; cbn; rewrite list_lookup_insert_ne; [done|by intros ->]).
  assert (forall o r, (o, r) ∈ ks <-> exists q s, q ∈ ps /\ svcdq d !! q = Some s /\ state s = StateRunningE /\ at_visit d (Z.of_nat q) o r) as Hk.
  { intros o r. rewrite H8. split; intros (q & x & Hin & E & ? & ?); exists q, x; split_and!; try done; [by rewrite <- Hq|by rewrite Hq]. }
  split; try done.
  - rewrite H6. unfold raise_all. cbn. by rewrite foldl_app.
  - rewrite fmap_app. apply NoDup_app. split_and!; try done. intros o ([o1 r] & -> & Hin)%list_elem_of_fmap ([o2 r'] & E & Hin')%list_elem_of_fmap.
    cbn in E. subst o2. apply Hv in Hin. apply Hk in Hin' as (q & x & Hqp & _ & _ & Ha). pose proof (visit_once d pend _ _ o1 r r' Hw Hin Ha).
    assert (p = q) as -> by lia. done.
  - intros o r. rewrite elem_of_app, Hv, Hk. split.
    + intros [?|(q & x & ? & ? & ? & ?)]; [exists p, s; split_and!; try done; by left|exists q, x; split_and!; try done; by right].
    + intros (q & x & [->|Hin]%elem_of_cons & ? & ? & ?); [by left|right]. by exists q, x.
  - intros q. rewrite H9. destruct (decide (q = p)) as [->|Hne].
    + rewrite decide_False by done. rewrite decide_True by (by left). rewrite Ep. cbn. rewrite list_lookup_insert_eq by (by eapply lookup_lt_Some).
      unfold after_stop. by rewrite bool_decide_eq_true_2.
    + cbn. rewrite list_lookup_insert_ne by done.
      destruct (decide (q ∈ ps)); [rewrite decide_True by (by right)|rewrite decide_False by (rewrite elem_of_cons; tauto)]; done.
Qed.

Lemma stop_services_spec pend v : forall d D, mwf d pend [] -> NoDup (omap (fun x => x) v) -> (forall p, p ∈ omap (fun x => x) v -> is_Some (svcdq d !! p)) ->
  exists d' ks, stop_services (with_svcstore d D) v = Done (with_svcstore d' D) /\ mwf d' pend [] /\ broadcast d d' (omap (fun x => x) v) ks.
Proof using Type.
  induction v as [|[p|] v IH]; intros d D Hw Hnd Hin; cbn [stop_services].
  - exists d, []. split_and!; try done. apply broadcast_nil.
  - change (omap (fun x => x) (Some p :: v)) with (p :: omap (fun x => x) v) in *. apply NoDup_cons in Hnd as [Hp Hnd].
    destruct (Hin p) as [s Es]; [by left|]. cbn [svcdq with_svcstore]. rewrite Es. cbn [of_option res_bind].
    destruct (kill_objects_spec d pend p s Hw Es) as (a & m & vs & Ep & Ea & Hvs & Hw' & Hk). rewrite Ep, bool_decide_eq_true_2 by (by eexists).
    cbn [andb]. case_bool_decide as Hst.
    + rewrite Hk. cbn [res_bind].
      destruct (IH (killed d p s a m vs) D) as (d' & ks & E & Hw2 & Hb); [done|done| |].
      * intros q Hq. cbn. rewrite list_lookup_insert_ne by (by intros ->). apply Hin. by right.
      * exists d', (vs ++ ks). split; [|split; [done|by apply (broadcast_kill d d' pend p s a m)]].
        rewrite <- E. unfold killed. by destruct (objcnt s =? 0).
    + destruct (IH d D) as (d' & ks & E & Hw2 & Hb); [done|done|intros q Hq; apply Hin; by right|]. exists d', ks. split; [done|]. split; [done|].
      by apply (broadcast_skip d d' p s).
  - by apply IH.
Qed.

(** The vector has every service once. *)
Lemma crtvec_services d pend : mwf d pend [] -> NoDup (omap (fun x => x) (crtvec (svcstore d))) /\
  forall p, p ∈ omap (fun x => x) (crtvec (svcstore d)) <-> (p < length (svcdq d))%nat.
Proof using Type.
  intros Hw. pose proof (m_svcvec _ _ _ Hw) as Hv. split.
  - apply NoDup_omap_inj. intros j j' x x' p Ej Ej' -> ->. apply Hv in Ej as [-> _]. by apply Hv in Ej' as [-> _].
  - intros p. rewrite list_elem_of_omap. split.
    + intros (x & (j & Ej)%list_elem_of_lookup & ->). apply Hv in Ej. lia.
    + intros Hp. exists (Some p). split; [|done]. apply list_elem_of_lookup. exists p. by apply Hv.
Qed.

Lemma stop_broadcast_spec d pend : mwf d pend [] -> exists d' ps ks, stop_broadcast d = Done (with_svcstore d' (busy (svcstore d)), crtidx (svcstore d)) /\
  mwf d' pend [] /\ broadcast d d' ps ks /\ forall p, p ∈ ps <-> (p < length (svcdq d))%nat.
Proof using Type.
  intros Hw. destruct (crtvec_services d pend Hw) as [Hnd Hin]. unfold stop_broadcast. rewrite (aquire_svc d _ _ Hw). cbn [svcstore with_svcstore]. rewrite vec_busy.
  destruct (stop_services_spec pend (crtvec (svcstore d)) d (busy (svcstore d)) Hw Hnd) as (d' & ks & E & Hw' & Hb).
  { intros p Hp%Hin. by apply lookup_lt_is_Some. }
  change (vec (store (svcstore d) (crtidx (svcstore d)))) with (crtvec (svcstore d)). rewrite E. cbn [res_bind]. by exists d', (omap (fun x => x) (crtvec (svcstore d))), ks.
Qed.

(** The wait of [stopService] and [stop] ends when no object of the service is left. *)
Lemma resume_spec d pend k s : mwf d pend [] -> svcdq d !! k = Some s ->
  (taken (K d) (chunks d) (Z.of_nat k) = [] /\ of_svc (Z.of_nat k) pend = [] /\
    stopService_resume d k = Done (Some (put_service d k (ss_state s StateStoppedE))) /\ mwf (put_service d k (ss_state s StateStoppedE)) pend []) \/
  ((taken (K d) (chunks d) (Z.of_nat k) <> [] \/ of_svc (Z.of_nat k) pend <> []) /\ stopService_resume d k = Done None).
Proof using Type.
  intros Hw Es. unfold stopService_resume. rewrite Es. cbn [of_option res_bind]. pose proof (so_cnt _ _ _ _ _ (m_svc _ _ _ Hw k s Es)) as Hc.
  destruct (taken (K d) (chunks d) (Z.of_nat k)) as [|i l] eqn:Et; [destruct (of_svc (Z.of_nat k) pend) as [|j l'] eqn:Ep|].
  - left. rewrite Hc. cbn. split_and!; try done. by apply mwf_put_state.
  - right. rewrite Hc. cbn. split; [by right|done].
  - right. rewrite Hc. cbn. split; [by left|done].
Qed.

End Stop.
End ManagerStop.
