(* ===== verification/ManagerLife.v ===== *)
(** * The life of the manager

    All sequences of operations of services, objects and their users on the manager of Manager.v,
    without [unregisterService] (ManagerExample.v shows why). An object is registered, used and
    unregistered in any order; the two critical sections of [unregisterObject] may be apart, and so
    may the parts of [Manager::stop], each any number of times. [Manager::stop] holds the store of
    services from its broadcast to its end; that is seen only by a writer of that store, of which
    there is none but [registerService], refused until then: here the store is given back at once. *)

From stdpp Require Import gmap list relations.
From S2P Require Import Prelude FrameCommon StoreLock Manager ManagerProofs ManagerObjects ManagerRegister ManagerVisit ManagerStop.
Import FrameCommon StoreLock Manager ManagerProofs ManagerObjects ManagerRegister ManagerVisit ManagerStop.
#[local] Set Warnings "-clear-no-such-hyp".
#[local] Open Scope res_scope.
#[local] Open Scope Z_scope.

Module ManagerLife.

Section Life.
Context {World Ev : Type} {ME : ManagerEnv World Ev}.
Implicit Types (d : Data World).

Abbreviation K := objchkcnt.
Abbreviation Visit := (gmap Obj ObjectBase -> World -> Obj -> Rct -> res (gmap Obj ObjectBase * World * bool)).

(** ** Operations *)

Inductive op :=
  | NewService (a : Svc)
  | NewObject (o : Obj)
  | RegisterService (a : Svc)
  | StartService (a : Svc)
  | StopService (a : Svc) (wait : bool)
  | StopResume (k : nat)
  | RegisterObject (a : Svc) (o : Obj) (r : Rct) (f : World -> World * bool)
  | UnregisterChunk (o : Obj)
  | UnregisterIndex (n : nat)
  | DisableVisits (o : Obj)
  | VisitOne (uid : UniqueId) (f : Visit)
  | VisitAll (a : Svc) (f : Visit)
  | ManagerStopEnter
  | ManagerStopBroadcast
  | ManagerStopWait (p : option nat)
  | ManagerStopLeave
  | ManagerStart.

(** The manager, and what is left to do of the calls of [unregisterObject] *)
Abbreviation State := (Data World * list (Z * Z))%type.

Definition exec (s : State) (x : op) : res State :=
  let '(d, pend) := s in
  match x with
  | NewService a => Done (put_service_mem d a Service_new, pend)
  | NewObject o => Done (put_object_mem d o ObjectBase_new, pend)
  | RegisterService a => let! (d, _) := registerService d a in Done (d, pend)
  | StartService a => let! (d, _) := startService d a in Done (d, pend)
  | StopService a b => let! (d, _) := stopService d a b in Done (d, pend)
  | StopResume k => let! m := stopService_resume d k in Done (default d m, pend)
  | RegisterObject a o r f => let! (d, _, _) := registerObject d a o r f in Done (d, pend)
  | UnregisterChunk o => let! (d, y) := unregister_chunk d o in Done (d, y :: pend)
  | UnregisterIndex n => let! y := of_option (pend !! n) in let! d := unregister_index d y in Done (d, delete n pend)
  | DisableVisits o => let! (d, _) := disableObjectVisits d o in Done (d, pend)
  | VisitOne uid f => let! (d, _) := doVisit d uid f in Done (d, pend)
  | VisitAll a f => let! (d, _) := forEachServiceObject d a f in Done (d, pend)
  | ManagerStopEnter => Done ((stop_enter d).1, pend)
  | ManagerStopBroadcast => let! (d, si) := stop_broadcast d in Done (releaseReadServiceStore d si, pend)
  | ManagerStopWait p => let! m := stop_wait d p in Done (default d m, pend)
  | ManagerStopLeave => Done (with_mstate d StateStoppedE, pend)
  | ManagerStart => Done (default d (start d), pend)
  end.

(** What the callers have to respect; a manager has less than 2^64 places and services. *)
Definition pre (s : State) (x : op) : Prop :=
  let '(d, pend) := s in
  match x with
  | NewService a => services d !! a = None
  | NewObject o => objs d !! o = None
  | RegisterService a => is_Some (services d !! a) /\ Z.of_nat (length (svcdq d)) + 1 < Invalid
  | StartService a | StopService a _ => is_Some (services d !! a)
  | StopResume k => is_Some (svcdq d !! k)
  | RegisterObject a o r f => is_Some (services d !! a) /\ fullid <$> objs d !! o = Some Invalid /\ (Z.of_nat (length (chunks d)) + 1) * K d < Invalid
  | UnregisterChunk o => exists m, objs d !! o = Some m /\ fullid m <> Invalid
  | UnregisterIndex n => is_Some (pend !! n)
  | DisableVisits o => is_Some (objs d !! o)
  | VisitOne uid f => 0 <= uid_index uid /\ good_visit f
  | VisitAll a f => is_Some (services d !! a) /\ good_visit f
  | ManagerStopWait p => p ∈ crtvec (svcstore d)
  | ManagerStopEnter | ManagerStopBroadcast | ManagerStopLeave | ManagerStart => True
  end.

Definition step (s s' : State) : Prop := exists x, pre s x /\ exec s x = Done s'.

Definition reachable (n : Z) (w : World) (s : State) : Prop := rtc step (Manager_new n w, []) s.

(** ** How places change *)

(** A place keeps its object as long as its number. *)
Definition follows (st st' : ObjectStub) : Prop :=
  os_unique st < os_unique st' \/ os_unique st' = os_unique st /\ (pobject st' = pobject st \/ pobject st = None).

#[export] Instance follows_preorder : PreOrder follows.
Proof using Type.
  split; [intros st; right; tauto|]. intros x y z [H|[H [H'|H']]] [H1|[H1 [H1'|H1']]]; try (left; lia); right; split; try congruence; (left; congruence) || (right; congruence).
Qed.

Definition evolves d d' : Prop := K d' = K d /\ forall i st, 0 <= i -> stub_at (K d) (chunks d) i = Some st ->
  exists st', stub_at (K d) (chunks d') i = Some st' /\ follows st st'.

#[export] Instance evolves_preorder : PreOrder evolves.
Proof using Type.
  split; [intros d; split; [done|]; intros i st _ E; exists st; split; [done|reflexivity]|]. intros x y z [EK H] [EK' H']. split; [congruence|].
  intros i st Hi E. destruct (H i st Hi E) as (st1 & E1 & F1). rewrite EK in H'. destruct (H' i st1 Hi E1) as (st2 & E2 & F2). exists st2. split; [done|]. by transitivity st1.
Qed.

Lemma evolves_same d d' : K d' = K d -> chunks d' = chunks d -> evolves d d'.
Proof using Type. intros EK Ec. split; [done|]. rewrite Ec. intros i st _ E. exists st. split; [done|reflexivity]. Qed.

(** *** The identifiers *)

(** The objects that can be reached, by their identifiers *)
Definition ids_same d d' : Prop := forall uid, 0 <= uid_index uid -> stands_for d' uid = stands_for d uid.

Lemma ids_chunks d d' : K d' = K d -> chunks d' = chunks d -> ids_same d d'.
Proof using Type. intros EK Ec uid _. unfold stands_for. by rewrite EK, Ec. Qed.

(** A new object has an identifier that reached nothing, and reaches it now. *)
Definition ids_add d d' (new : UniqueId) (x : Obj * Rct) : Prop :=
  stands_for d new = None /\ stands_for d' new = Some x /\ forall uid, 0 <= uid_index uid -> uid <> new -> stands_for d' uid = stands_for d uid.

(** The identifier of an object reaches nothing any more. *)
Definition ids_remove d d' (o : Obj) : Prop := forall uid, 0 <= uid_index uid ->
  stands_for d' uid = match stands_for d uid with Some x => if decide (x.1 = o) then None else Some x | None => None end.

Lemma stands_some d uid o r : stands_for d uid = Some (o, r) <->
  exists st, stub_at (K d) (chunks d) (uid_index uid) = Some st /\ os_unique st = uid_unique uid /\ pobject st = Some o /\ preactor st = Some r.
Proof using Type.
  unfold stands_for, visitable. split.
  - intros (st & Est & H)%bind_Some. exists st. destruct (Z.eqb_spec (os_unique st) (uid_unique uid)); [|done]. destruct (pobject st), (preactor st); simplify_eq. done.
  - intros (st & -> & Eu & Ep & Er). cbn. by rewrite Eu, Z.eqb_refl, Ep, Er.
Qed.

Lemma stands_object d pend uid o r : mwf d pend [] -> 0 <= uid_index uid -> stands_for d uid = Some (o, r) ->
  exists m, objs d !! o = Some m /\ fullid m = uid_index uid /\ fullid m <> Invalid.
Proof using Type.
  intros Hw Hi (st & Est & _ & Ep & _)%stands_some. destruct (m_occ _ _ _ Hw _ _ _ Hi Est Ep) as (m & Em & Ef). exists m. split_and!; try done.
  pose proof (stub_range _ _ _ _ _ Hw Hi Est) as Hr. pose proof (m_room _ _ _ Hw). rewrite (m_max _ _ _ Hw) in Hr. lia.
Qed.

(** Two tables with the same places up to one *)
Lemma stands_other d d' uid : K d' = K d -> stub_at (K d) (chunks d') (uid_index uid) = stub_at (K d) (chunks d) (uid_index uid) -> stands_for d' uid = stands_for d uid.
Proof using Type. intros EK E. unfold stands_for. by rewrite EK, E. Qed.

(** The place of an object is cleared. *)
Lemma ids_clear d d' pend o m st st' : mwf d pend [] -> objs d !! o = Some m -> fullid m <> Invalid -> K d' = K d ->
  stub_at (K d) (chunks d) (fullid m) = Some st -> preactor st' = None ->
  (forall i, 0 <= i -> stub_at (K d) (chunks d') i = if decide (i = fullid m) then Some st' else stub_at (K d) (chunks d) i) -> ids_remove d d' o.
Proof using Type.
  intros Hw Eo Hv EK Est Er Hs uid Hi. destruct (decide (uid_index uid = fullid m)) as [Eu|Hne].
  - assert (stands_for d' uid = None) as ->.
    { unfold stands_for. rewrite EK, Hs, decide_True by done. cbn. unfold visitable. rewrite Er. destruct (_ =? _), (pobject st'); done. }
    destruct (stands_for d uid) as [[o' r]|] eqn:E; [|done]. cbn. rewrite decide_True; [done|].
    apply stands_some in E as (x & Ex & _ & Ep & _). rewrite Eu, Est in Ex. injection Ex as <-.
    destruct (object_place d pend [] o m Hw Eo Hv) as (c & ch & j & st2 & _ & _ & _ & _ & _ & _ & Ep2 & Est2). congruence.
  - rewrite (stands_other d d') by (rewrite ?Hs, ?decide_False; done). destruct (stands_for d uid) as [[o' r]|] eqn:E; [|done]. cbn.
    rewrite decide_False; [done|]. intros ->. destruct (stands_object d pend uid o r Hw Hi E) as (m' & Em' & Ef' & _). congruence.
Qed.

(** An object enters. *)
Lemma ids_enter d d' pend k o m r new w : mwf d pend [] -> mwf d' pend [] -> objs d !! o = Some m -> fullid m = Invalid -> entered d d' k o m r new w -> ids_add d d' new (o, r).
Proof using Type.
  intros Hw Hw' Eo Ef [EK _ _ _ _ Hr Eob Est _ Hbe Hon]. split_and!.
  - unfold stands_for. destruct (stub_at (K d) (chunks d) (uid_index new)) as [st|] eqn:E; [|done]. cbn. destruct (Hbe st eq_refl) as [Ep _].
    unfold visitable. rewrite Ep. by destruct (_ =? _).
  - apply stands_some. rewrite EK. by eexists.
  - intros uid Hi Hne. destruct (decide (uid_index uid = uid_index new)) as [Eu|Hu].
    + assert (uid_unique uid <> uid_unique new) as Hun by (intros E; destruct Hne, uid, new; cbn in *; congruence).
      assert (stands_for d' uid = None) as ->. { unfold stands_for. rewrite EK, Eu, Est. cbn. by rewrite (proj2 (Z.eqb_neq _ _)) by done. }
      unfold stands_for. rewrite Eu. destruct (stub_at (K d) (chunks d) (uid_index new)) as [st|] eqn:E; [|done]. cbn. destruct (Hbe st eq_refl) as [_ ->].
      by rewrite (proj2 (Z.eqb_neq _ _)) by done.
    + destruct (stub_at (K d) (chunks d) (uid_index uid)) as [st|] eqn:E.
      * apply stands_other; [done|]. rewrite E. by apply Hon.
      * assert (stands_for d uid = None) as -> by (unfold stands_for; by rewrite E).
        destruct (stands_for d' uid) as [[o' r']|] eqn:E'; [|done]. destruct (stands_object d' pend uid o' r' Hw' Hi E') as (m' & Em' & Ef' & Hv).
        rewrite Eob in Em'. apply lookup_insert_Some in Em' as [[<- <-]|[_ Em']]; [cbn in Ef'; congruence|].
        destruct (m_objs _ _ _ Hw o' m' Em') as [?|(_ & st & Es & _)]; [done|]. rewrite Ef', E in Es. done.
Qed.

Lemma evolves_enter d d' k o m r new w : entered d d' k o m r new w -> evolves d d'.
Proof using Type.
  intros [EK _ _ _ _ Hr _ Est _ Hbe Hon]. split; [done|]. intros i st Hi E. destruct (decide (i = uid_index new)) as [->|Hne].
  - eexists. split; [exact Est|]. destruct (Hbe st E) as [Ep Eu]. right. split; [done|by right].
  - exists st. destruct (Hon i st Hi Hne E) as [-> _]. split; [done|reflexivity].
Qed.

Lemma evolves_set d d' j st st' : K d' = K d -> stub_at (K d) (chunks d) j = Some st -> follows st st' ->
  (forall i, 0 <= i -> stub_at (K d) (chunks d') i = if decide (i = j) then Some st' else stub_at (K d) (chunks d) i) -> evolves d d'.
Proof using Type.
  intros EK Est Hf Hs. split; [done|]. intros i x Hi Ex. rewrite Hs by done. destruct (decide (i = j)) as [->|Hne].
  - exists st'. split; [done|]. congruence.
  - exists x. split; [done|reflexivity].
Qed.

(** ** Every operation *)

Definition ids_effect (s : State) (x : op) (s' : State) : Prop :=
  match x with
  | RegisterObject a o r f => ids_same s.1 s'.1 \/ exists new, ids_add s.1 s'.1 new (o, r) /\ fullid <$> objs s'.1 !! o = Some (uid_index new)
  | UnregisterChunk o | DisableVisits o => ids_remove s.1 s'.1 o
  | _ => ids_same s.1 s'.1
  end.

Definition effect (s : State) (x : op) (s' : State) : Prop := mwf s'.1 s'.2 [] /\ evolves s.1 s'.1 /\ ids_effect s x s'.

(** Most operations leave the places alone. *)
Lemma effect_same d pend x d' pend' : mwf d' pend' [] -> K d' = K d -> chunks d' = chunks d ->
  (ids_same d d' -> ids_effect (d, pend) x (d', pend')) -> effect (d, pend) x (d', pend').
Proof using Type. intros Hw EK Ec Hx. split; [done|]. split; [by apply evolves_same|]. by apply Hx, ids_chunks. Qed.

Lemma effect_new_service d pend a : mwf d pend [] -> services d !! a = None -> mwf (put_service_mem d a Service_new) pend [].
Proof using Type.
  intros Hw Ea. destruct Hw. split; try done; cbn [svcdq services put_service_mem with_services].
  - intros a' m'. rewrite lookup_insert_Some. intros [[<- <-]|[_ E]]; [by left|by apply m_services0].
  - eapply Forall_impl; [exact m_chunks0|]. by intros x [].
  - intros k s Es. destruct (m_svc0 k s Es) as [(a' & m' & E1 & E2 & E3) S2 S3 S4]. split; try done. cbn.
    exists a', m'. rewrite lookup_insert_ne by congruence. done.
Qed.

Lemma effect_new_object d pend o : mwf d pend [] -> objs d !! o = None -> mwf (put_object_mem d o ObjectBase_new) pend [].
Proof using Type.
  intros Hw Eo. destruct Hw. split; try done; cbn [svcdq objs put_object_mem with_objs].
  - eapply Forall_impl; [exact m_chunks0|]. by intros x [].
  - intros k s Es. by destruct (m_svc0 k s Es).
  - intros o' m'. rewrite lookup_insert_Some. intros [[<- <-]|[_ E]]; [by left|by apply m_objs0].
  - intros i st o' Hi Est Ep. destruct (m_occ0 i st o' Hi Est Ep) as (m & Em & Ef). exists m. rewrite lookup_insert_ne by congruence. done.
Qed.

Lemma effect_register d pend a o r f : mwf d pend [] -> pre (d, pend) (RegisterObject a o r f) ->
  exists s', exec (d, pend) (RegisterObject a o r f) = Done s' /\ effect (d, pend) (RegisterObject a o r f) s'.
Proof using Type.
  intros Hw ([ms Ea] & (m & Eo & Ef)%fmap_Some & Hroom). symmetry in Ef.
  destruct (registerObject_spec d pend a ms o m r f Hw Ea Eo Ef Hroom) as (d' & uid & e & E & Hw' & He). cbn [exec]. rewrite E. cbn [res_bind].
  exists (d', pend). split; [done|]. split; [done|]. unfold ids_effect. cbn [fst snd]. destruct e as [[| |]|].
  - destruct He as (_ & -> & _). split; [reflexivity|]. by left.
  - destruct He as (_ & -> & _). split; [reflexivity|]. by left.
  - destruct He as (_ & _ & [EK _ _ _ _ Eob Hon]). split.
    + split; [done|]. intros i st Hi Est. exists st. destruct (Hon i st Hi ltac:(lia) Est) as [-> _]. split; [done|reflexivity].
    + left. intros uid' Hi. cbn. destruct (stub_at (K d) (chunks d) (uid_index uid')) as [st|] eqn:Est.
      * apply stands_other; [done|]. rewrite Est. apply Hon; [done|lia|done].
      * assert (stands_for d uid' = None) as -> by (unfold stands_for; by rewrite Est).
        destruct (stands_for d' uid') as [[o' r']|] eqn:E'; [|done]. destruct (stands_object d' pend uid' o' r' Hw' Hi E') as (m' & Em' & Ef' & Hv).
        rewrite Eob in Em'. destruct (m_objs _ _ _ Hw o' m' Em') as [?|(_ & x & Ex & _)]; [done|]. rewrite Ef', Est in Ex. done.
  - destruct He as (k & s & _ & _ & _ & _ & Hen). split; [by eapply evolves_enter|]. right. exists uid.
    split; [by eapply (ids_enter d d' pend k o m r)|]. cbn. rewrite (en_objs _ _ _ _ _ _ _ _ Hen), lookup_insert_eq. done.
Qed.

Lemma effect_unregister d pend o : mwf d pend [] -> pre (d, pend) (UnregisterChunk o) ->
  exists s', exec (d, pend) (UnregisterChunk o) = Done s' /\ effect (d, pend) (UnregisterChunk o) s'.
Proof using Type.
  intros Hw (m & Eo & Hv). destruct (unregister_chunk_spec d pend o m Hw Eo Hv) as (d' & k & st & E & Hw' & Hf & _ & _ & _ & _ & Est & _ & Hs).
  cbn [exec]. rewrite E. cbn [res_bind]. eexists. split; [reflexivity|]. split; [done|]. unfold ids_effect. cbn [fst snd]. pose proof (fr_K _ _ Hf) as EK.
  split.
  - apply (evolves_set d d' (fullid m) st (mkObjectStub None None (os_unique st + 1))); [done|done|left; cbn; lia|intros i Hi; by apply (Hs i Hi)].
  - apply (ids_clear d d' pend o m st (mkObjectStub None None (os_unique st + 1))); try done. intros i Hi. by apply (Hs i Hi).
Qed.

Lemma effect_disable d pend o : mwf d pend [] -> pre (d, pend) (DisableVisits o) ->
  exists s', exec (d, pend) (DisableVisits o) = Done s' /\ effect (d, pend) (DisableVisits o) s'.
Proof using Type.
  intros Hw [m Eo]. cbn [exec]. destruct (decide (fullid m = Invalid)) as [Ef|Hv].
  - unfold disableObjectVisits, object_mem. rewrite Eo. cbn [of_option res_bind]. rewrite Ef, Z.eqb_refl. cbn [res_bind]. eexists. split; [reflexivity|].
    split; [done|]. split; [reflexivity|]. intros uid Hi. cbn. destruct (stands_for d uid) as [[o' r]|] eqn:E; [|done]. cbn. rewrite decide_False; [done|].
    intros ->. destruct (stands_object d pend uid o r Hw Hi E) as (m' & Em' & Ef' & Hv'). congruence.
  - destruct (disable_spec d pend o m Hw Eo Hv) as (d' & st & E & Hw' & Hf & _ & _ & _ & _ & Est & Ep & Hs). rewrite E. cbn [res_bind].
    eexists. split; [reflexivity|]. split; [done|]. unfold ids_effect. cbn [fst snd]. pose proof (fr_K _ _ Hf) as EK.
    split.
    + apply (evolves_set d d' (fullid m) st (mkObjectStub (Some o) None (os_unique st))); [done|done|right; cbn; auto|intros i Hi; by apply (Hs i Hi)].
    + apply (ids_clear d d' pend o m st (mkObjectStub (Some o) None (os_unique st))); try done. intros i Hi. by apply (Hs i Hi).
Qed.

Lemma visit_all_spec d pend a m f : mwf d pend [] -> services d !! a = Some m ->
  idx m = Invalid /\ forEachServiceObject d a f = Done (d, 0) \/
  exists k s vs, idx m = Z.of_nat k /\ svcdq d !! k = Some s /\ visits_at d (Z.of_nat k) vs /\
    forEachServiceObject d a f = let! d' := fold_visit d vs f in Done (d', Z.of_nat (length vs)).
Proof using Type.
  intros Hw Ea. unfold forEachServiceObject, service_mem. rewrite Ea. cbn [of_option res_bind]. unfold isRegistered. rewrite negb_involutive.
  destruct (Z.eqb_spec (idx m) Invalid) as [Ei|Ei]; [by left|right]. destruct (service_idx d pend a m Hw Ea Ei) as (k & s & Ek & Es & _).
  destruct (service_visits d pend k s Hw Es) as (vs & Hvs & Hf). exists k, s, vs. split; [done|]. split; [done|]. split; [done|].
  rewrite Ek, (aquire_svc d _ _ Hw), (service_at_busy d _ _ k s Hw Es). cbn [res_bind]. rewrite (release_svc d _ _ Hw).
  apply Hf; [done|by eapply mwf_tables].
Qed.

Lemma effect_visit d pend x : mwf d pend [] -> pre (d, pend) x -> (exists uid f, x = VisitOne uid f) \/ (exists a f, x = VisitAll a f) ->
  exists s', exec (d, pend) x = Done s' /\ effect (d, pend) x s'.
Proof using Type.
  intros Hw Hp [(uid & f & ->)|(a & f & ->)]; cbn [pre exec] in *.
  - destruct Hp as [Hi Hf]. rewrite (doVisit_spec d pend uid f Hw Hi). destruct (stands_for d uid) as [[o r]|] eqn:Es; [|exists (d, pend); split; [done|by apply effect_same]].
    destruct (stands_object d pend uid o r Hw Hi Es) as (m & Em & _). unfold apply_visit. destruct (Hf (objs d) (world d) o r) as (os & w & b & -> & Hs); [by exists m|].
    cbn [res_bind]. eexists. split; [reflexivity|]. apply effect_same; try done. by apply mwf_ids.
  - destruct Hp as [[m Ea] Hf]. destruct (visit_all_spec d pend a m f Hw Ea) as [[_ ->]|(k & s & vs & _ & Es & Hvs & ->)]; [exists (d, pend); split; [done|by apply effect_same]|].
    destruct (fold_visit_good f vs Hf d) as (os & w & -> & Hs); [intros o r; by apply (visit_exists d pend (Z.of_nat k))|]. cbn [res_bind].
    eexists. split; [reflexivity|]. apply effect_same; try done. by apply mwf_ids.
Qed.

Lemma effect_service d pend x : mwf d pend [] -> pre (d, pend) x -> (exists a, x = RegisterService a \/ x = StartService a \/ exists b, x = StopService a b) \/ (exists k, x = StopResume k) ->
  exists s', exec (d, pend) x = Done s' /\ effect (d, pend) x s'.
Proof using Type.
  intros Hw Hp [(a & [->|[->|(b & ->)]])|(k & ->)]; cbn [pre exec] in *.
  - destruct Hp as [[m Ea] Hn]. destruct (registerService_spec d pend a m Hw Ea Hn) as [[_ ->]|(_ & _ & D & -> & Hw')]; cbn [res_bind]; eexists; (split; [reflexivity|]); by apply effect_same.
  - destruct Hp as [m Ea]. destruct (startService_spec d pend a m Hw Ea) as [->|(k & s & _ & _ & _ & _ & -> & Hw')]; cbn [res_bind]; eexists; (split; [reflexivity|]); by apply effect_same.
  - destruct Hp as [m Ea]. destruct (stopService_spec d pend a m b Hw Ea) as [[_ ->]|(k & s & _ & _ & _ & Hst)].
    + cbn [res_bind]. eexists. split; [reflexivity|]. by apply effect_same.
    + destruct (state s); [|destruct Hst as (vs & _ & Hw' & Hst)| |]; rewrite Hst; cbn [res_bind]; eexists; (split; [reflexivity|]); by apply effect_same.
  - destruct Hp as [s Es]. destruct (resume_spec d pend k s Hw Es) as [(_ & _ & -> & Hw')|[_ ->]]; cbn [res_bind default]; eexists; (split; [reflexivity|]); by apply effect_same.
Qed.

Lemma mwf_mstate d pend held x : mwf d pend held -> mwf (with_mstate d x) pend held.
Proof using Type.
  intros Hw. destruct Hw. split; try done; [eapply Forall_impl; [exact m_chunks0|]; by intros y []|]. intros k s Es. by destruct (m_svc0 k s Es).
Qed.

(** The parts of [Manager::stop], and [Manager::start] *)
Lemma effect_manager d pend x : mwf d pend [] -> pre (d, pend) x ->
  x = ManagerStopEnter \/ x = ManagerStopBroadcast \/ (exists p, x = ManagerStopWait p) \/ x = ManagerStopLeave \/ x = ManagerStart ->
  exists s', exec (d, pend) x = Done s' /\ effect (d, pend) x s'.
Proof using Type.
  intros Hw Hp [->|[->|[(p & ->)|[->| ->]]]]; cbn [pre exec] in *.
  - eexists. split; [reflexivity|]. unfold stop_enter. destruct (mstate d); cbn [fst]; apply effect_same; try done. by apply mwf_mstate.
  - destruct (stop_broadcast_spec d pend Hw) as (d' & ps & ks & E & Hw' & [B1 B2 B3 B4 B5 B6 B7 B8 B9] & _). rewrite E. cbn [res_bind].
    rewrite <- B5, (release_svc d' _ _ Hw'). eexists. split; [reflexivity|]. by apply effect_same.
  - destruct p as [k|]; cbn [stop_wait res_bind default]; [|eexists; split; [reflexivity|]; by apply effect_same].
    apply list_elem_of_lookup in Hp as [j Hj]. apply (m_svcvec _ _ _ Hw) in Hj as [-> Hlt]. apply lookup_lt_is_Some in Hlt as [s Es].
    rewrite Es. cbn [of_option res_bind]. destruct (_ && _); cbn [res_bind default]; [|eexists; split; [reflexivity|]; by apply effect_same].
    destruct (resume_spec d pend j s Hw Es) as [(_ & _ & -> & Hw')|[_ ->]]; cbn [res_bind default]; eexists; (split; [reflexivity|]); by apply effect_same.
  - eexists. split; [reflexivity|]. apply effect_same; try done. by apply mwf_mstate.
  - eexists. split; [reflexivity|]. unfold start. destruct (mstate d); cbn [default]; apply effect_same; try done. by apply mwf_mstate.
Qed.

Lemma delete_perm {A : Type} (l : list A) n x : l !! n = Some x -> x :: delete n l ≡ₚ l.
Proof using Type. intros E. symmetry. by apply delete_Permutation. Qed.

(** Every operation ends, and keeps the invariant. *)
Lemma exec_ok d pend x : mwf d pend [] -> pre (d, pend) x -> exists s', exec (d, pend) x = Done s' /\ effect (d, pend) x s'.
Proof using Type.
  intros Hw Hp. destruct x as [a|o|a|a|a b|k|a o r f|o|n|o|uid f|a f| | |p| |].
  - eexists. split; [reflexivity|]. apply effect_same; try done. by apply effect_new_service.
  - eexists. split; [reflexivity|]. apply effect_same; try done. by apply effect_new_object.
  - apply effect_service; [done|done|]. left. exists a. tauto.
  - apply effect_service; [done|done|]. left. exists a. tauto.
  - apply effect_service; [done|done|]. left. exists a. eauto.
  - apply effect_service; [done|done|]. right. by exists k.
  - by apply effect_register.
  - by apply effect_unregister.
  - destruct Hp as [[z i] Ex]. pose proof (mwf_pend_perm d _ _ [] (symmetry (delete_perm pend n (z, i) Ex)) Hw) as Hw1.
    pose proof (Forall_inv (m_pend _ _ _ Hw1)) as (k & Ek & _). cbn in Ek. subst z.
    destruct (unregister_index_spec d _ k i Hw1) as (s & Es & E & Hw'). cbn [exec]. rewrite Ex. cbn [of_option res_bind]. rewrite E. cbn [res_bind].
    eexists. split; [reflexivity|]. by apply effect_same.
  - by apply effect_disable.
  - apply effect_visit; [done|done|]. left. by exists uid, f.
  - apply effect_visit; [done|done|]. right. by exists a, f.
  - apply effect_manager; auto.
  - apply effect_manager; auto.
  - apply effect_manager; eauto.
  - apply effect_manager; auto.
  - apply effect_manager; auto 6.
Qed.

Lemma step_ok s s' : mwf s.1 s.2 [] -> step s s' -> mwf s'.1 s'.2 [] /\ evolves s.1 s'.1.
Proof using Type.
  destruct s as [d pend]. intros Hw (x & Hp & E). destruct (exec_ok d pend x Hw Hp) as (s2 & E2 & H1 & H2 & _). rewrite E in E2. injection E2 as <-. done.
Qed.

Lemma steps_ok s s' : mwf s.1 s.2 [] -> rtc step s s' -> mwf s'.1 s'.2 [] /\ evolves s.1 s'.1.
Proof using Type.
  intros Hw Hr. induction Hr as [s|s s1 s2 Hs _ IH]; [split; [done|reflexivity]|]. destruct (step_ok s s1 Hw Hs) as [Hw1 He]. destruct (IH Hw1) as [Hw2 He2].
  split; [done|]. by transitivity s1.1.
Qed.

Lemma reachable_mwf n w s : 1 <= n -> reachable n w s -> mwf s.1 s.2 [].
Proof using Type. intros Hn Hr. eapply steps_ok; [|exact Hr]. by apply mwf_new. Qed.

(** *** Identifiers over time *)

Lemma old_object s s' uid o r o' r' : mwf s.1 s.2 [] -> 0 <= uid_index uid -> stands_for s.1 uid = Some (o, r) -> rtc step s s' ->
  stands_for s'.1 uid = Some (o', r') -> o' = o.
Proof using Type.
  intros Hw Hi (st & Est & Eu & Ep & _)%stands_some Hr (st' & Est' & Eu' & Ep' & _)%stands_some. destruct (steps_ok s s' Hw Hr) as [_ [EK He]].
  destruct (He _ st Hi Est) as (x & Ex & Hf). rewrite EK, Ex in Est'. injection Est' as <-. destruct Hf as [?|[_ [?|?]]]; [lia|congruence|congruence].
Qed.

Lemma notify_one d pend uid e : mwf d pend [] -> 0 <= uid_index uid ->
  notify d uid e 0 = match stands_for d uid with Some (o, r) => Done (with_world d (raise (world d) r o e).1, (raise (world d) r o e).2) | None => Done (d, false) end.
Proof using Type.
  intros Hw Hi. unfold notify. rewrite (doVisit_spec d pend uid _ Hw Hi). destruct (stands_for d uid) as [[o r]|]; [|done].
  unfold apply_visit, notify_object. cbn [Z.eqb]. destruct (raise (world d) r o e) as [w b]. cbn. by destruct d.
Qed.

(** A service that does not run takes no object. *)
Lemma register_refused d pend a m k st o r f : mwf d pend [] -> services d !! a = Some m -> idx m = Z.of_nat k -> svcdq d !! k = Some st -> state st <> StateRunningE ->
  registerObject d a o r f = Done (d, ObjectId_new, Some error_service_not_running).
Proof using Type.
  intros Hw Ea Ei Es Hst. pose proof (lookup_lt_Some _ _ _ Es) as Hlt. pose proof (m_svcs _ _ _ Hw). unfold registerObject, service_mem. rewrite Ea. cbn [of_option res_bind].
  rewrite (proj2 (Z.eqb_neq _ _)) by lia. rewrite Ei, (aquire_svc d _ _ Hw), (service_at_busy d _ _ k st Hw Es). cbn [res_bind].
  rewrite (release_svc d _ _ Hw). rewrite (bool_decide_eq_false_2 (state st = _)) by done. by rewrite orb_true_r.
Qed.

(** ** What the manager promises *)

(** C3: From a new manager, as long as no service is unregistered: whatever happens - services are
    registered, started and stopped, objects registered, unregistered (in two parts, with anything
    in between), hidden and visited, the manager itself stopped and started - no operation runs into undefined behaviour or
    an endless loop, and the tables stay consistent: every index of a service is in use, being
    given back, cached or never used, exactly one of them; the counters are the number of objects;
    an object and its place know each other. *)
Theorem manager_safe n w s x : 1 <= n -> reachable n w s -> pre s x -> exists s', exec s x = Done s' /\ mwf s'.1 s'.2 [].
Proof using Type.
  intros Hn Hr Hp. destruct s as [d pend]. destruct (exec_ok d pend x) as (s' & E & Hw & _); [by eapply (reachable_mwf n w (d, pend))|done|]. by exists s'.
Qed.

(** C10: The table of objects is a map from identifiers to objects: registering adds an identifier
    that reached nothing before, unregistering and disabling visits remove the one of the object,
    and nothing else changes what an identifier reaches. *)
Theorem objects_refine n w s x s' : 1 <= n -> reachable n w s -> pre s x -> exec s x = Done s' -> ids_effect s x s'.
Proof using Type.
  intros Hn Hr Hp E. destruct s as [d pend]. destruct (exec_ok d pend x) as (s2 & E2 & _ & _ & Hi); [by eapply (reachable_mwf n w (d, pend))|done|].
  rewrite E in E2. by injection E2 as <-.
Qed.

(** C12: An identifier never reaches another object than the one it was given for: whatever happens
    after it was given, short of unregistering a service, [notify] raises its event for that object
    or for none. (The number in an identifier is not bounded here.) *)
Theorem old_id_safe n w s s' uid o r e : 1 <= n -> reachable n w s -> 0 <= uid_index uid -> stands_for s.1 uid = Some (o, r) -> rtc step s s' ->
  notify s'.1 uid e 0 = Done (s'.1, false) \/
  exists r', notify s'.1 uid e 0 = Done (with_world s'.1 (raise (world s'.1) r' o e).1, (raise (world s'.1) r' o e).2).
Proof using Type.
  intros Hn Hr Hi Es Hs. pose proof (reachable_mwf n w s Hn Hr) as Hw. destruct (steps_ok s s' Hw Hs) as [Hw' _].
  rewrite (notify_one _ _ _ _ Hw' Hi). destruct (stands_for s'.1 uid) as [[o' r']|] eqn:E; [|by left]. right. exists r'.
  by rewrite (old_object s s' uid o r o' r' Hw Hi Es Hs E).
Qed.

(** An event for all objects of a service is raised for each of them that can be visited, once,
    and for no other; the result is their number. *)
Theorem notify_all_once n w s a m e : 1 <= n -> reachable n w s -> services s.1 !! a = Some m -> idx m <> Invalid ->
  exists vs, visits_at s.1 (idx m) vs /\ notifyAll s.1 a e 0 = Done (with_world s.1 (raise_all e (world s.1) vs), Z.of_nat (length vs)).
Proof using Type.
  intros Hn Hr Ea Ei. pose proof (reachable_mwf n w s Hn Hr) as Hw.
  destruct (visit_all_spec s.1 s.2 a m (notify_object e 0) Hw Ea) as [[E _]|(k & st & vs & Ek & Es & Hvs & E)]; [done|].
  exists vs. rewrite Ek. split; [done|]. unfold notifyAll. rewrite E, fold_notify. done.
Qed.

(** C15: Stopping a running service tells each of its objects that can be visited to stop, once;
    from then on no object can be registered for it, and the caller that asked for it waits exactly
    when an object of the service is still registered or being unregistered. *)
Theorem stop_service_tells n w s a m b : 1 <= n -> reachable n w s -> services s.1 !! a = Some m ->
  forall k st, idx m = Z.of_nat k -> svcdq s.1 !! k = Some st -> state st = StateRunningE ->
  exists vs d' wait, visits_at s.1 (Z.of_nat k) vs /\ stopService s.1 a b = Done (d', wait) /\ world d' = raise_all kill_event (world s.1) vs /\
    (forall o r f, registerObject d' a o r f = Done (d', ObjectId_new, Some error_service_not_running)) /\
    (wait = true <-> b = true /\ taken (K s.1) (chunks s.1) (Z.of_nat k) ++ of_svc (Z.of_nat k) s.2 <> []).
Proof using Type.
  intros Hn Hr Ea k st Ek Es Hst. pose proof (reachable_mwf n w s Hn Hr) as Hw. pose proof (lookup_lt_Some _ _ _ Es) as Hlt. pose proof (m_svcs _ _ _ Hw).
  destruct (stopService_spec s.1 s.2 a m b Hw Ea) as [[? _]|(k' & st' & Ek' & Es' & Ep & H')]; [lia|]. assert (k' = k) as -> by lia. simplify_eq.
  rewrite Hst in H'. destruct H' as (vs & Hvs & Hw' & E). eexists vs, _, _. split; [done|]. split; [exact E|]. split; [done|]. split.
  - intros o r f. eapply (register_refused _ s.2 a (mkServiceMem (idx m) false) k); [exact Hw'|..]; cbn.
    + by rewrite lookup_insert_eq.
    + done.
    + by rewrite list_lookup_insert_eq.
    + by destruct (objcnt st =? 0).
  - rewrite (so_cnt _ _ _ _ _ (m_svc _ _ _ Hw k st Es)). destruct (taken _ _ _), (of_svc _ _); cbn; destruct b; naive_solver.
Qed.

(** The wait of [stopService] and of [stop] for a service ends exactly when no object of the
    service is registered or being unregistered; then the service is stopped. *)
Theorem stop_wait_exact n w s k st : 1 <= n -> reachable n w s -> svcdq s.1 !! k = Some st ->
  exists x, stopService_resume s.1 k = Done x /\
    (is_Some x <-> taken (K s.1) (chunks s.1) (Z.of_nat k) = [] /\ of_svc (Z.of_nat k) s.2 = []) /\
    forall d', x = Some d' -> state <$> svcdq d' !! k = Some StateStoppedE.
Proof using Type.
  intros Hn Hr Es. pose proof (reachable_mwf n w s Hn Hr) as Hw. destruct (resume_spec s.1 s.2 k st Hw Es) as [(Ht & Hp & E & _)|[Hne E]].
  - eexists. split; [exact E|]. split; [split; [done|by eexists]|]. intros d' [= <-]. cbn. by rewrite list_lookup_insert_eq by (by eapply lookup_lt_Some).
  - exists None. split; [done|]. split; [|done]. split; [by intros []|]. intros [Ht Hp]. destruct Hne; congruence.
Qed.

(** [Manager::stop] tells every object of every running service that can be visited to stop,
    once and no other, and moves exactly the running services on: to stopped without objects, to
    stopping otherwise. *)
Theorem manager_stop_tells n w s : 1 <= n -> reachable n w s ->
  exists d' ks, stop_broadcast s.1 = Done (with_svcstore d' (busy (svcstore s.1)), crtidx (svcstore s.1)) /\ mwf d' s.2 [] /\
    world d' = raise_all kill_event (world s.1) ks /\ NoDup (fst <$> ks) /\
    (forall o r, (o, r) ∈ ks <-> exists p st, svcdq s.1 !! p = Some st /\ state st = StateRunningE /\ at_visit s.1 (Z.of_nat p) o r) /\
    forall p, svcdq d' !! p = after_stop <$> svcdq s.1 !! p.
Proof using Type.
  intros Hn Hr. pose proof (reachable_mwf n w s Hn Hr) as Hw. destruct (stop_broadcast_spec s.1 s.2 Hw) as (d' & ps & ks & E & Hw' & Hb & Hps).
  destruct Hb as [_ _ _ _ _ B6 B7 B8 B9]. exists d', ks. split_and!; try done.
  - intros o r. rewrite B8. split; [intros (p & st & _ & ?); by exists p, st|]. intros (p & st & Ep & ?). exists p, st. split; [|done]. apply Hps. by eapply lookup_lt_Some.
  - intros p. rewrite B9. case_decide as Hd; [done|]. rewrite Hps in Hd. by rewrite lookup_ge_None_2 by lia.
Qed.

End Life.
End ManagerLife.
