(* ===== verification/ManagerExample.v ===== *)
(** * Runs of the manager

    Runs of Manager.v with reactors that accept every event: that the hypotheses of ManagerLife.v
    hold where things happen, and what happens after a service is unregistered. *)

From stdpp Require Import gmap list relations.
From S2P Require Import Prelude FrameCommon StoreLock Manager ManagerProofs ManagerObjects ManagerRegister ManagerVisit ManagerStop ManagerLife.
Import FrameCommon StoreLock Manager ManagerProofs ManagerObjects ManagerRegister ManagerVisit ManagerStop ManagerLife.
#[local] Open Scope res_scope.
#[local] Open Scope Z_scope.

Module ManagerExample.

(** The events the reactors were given, and vectors that grow by half *)
Abbreviation Log := (list (Rct * Obj * nat)).

#[export] Instance env : ManagerEnv Log nat := {|
  raise w r o e := (w ++ [(r, o, e)], true);
  kill_event := 99%nat;
  extra_capacity n := (n / 2)%nat
|}.

Definition accept (w : Log) : Log * bool := (w, true).

Fixpoint run (s : Data Log * list (Z * Z)) (l : list op) : res (Data Log * list (Z * Z)) :=
  match l with
  | [] => Done s
  | x :: l => let! s := exec s x in run s l
  end.

Fixpoint allowed (s : Data Log * list (Z * Z)) (l : list op) : Prop :=
  match l with
  | [] => True
  | x :: l => pre s x /\ match exec s x with Done s => allowed s l | _ => True end
  end.

Lemma run_steps l : forall s s', allowed s l -> run s l = Done s' -> rtc step s s'.
Proof.
  induction l as [|x l IH]; intros s s'; cbn [allowed run]; [by intros _ [= ->]|]. intros [Hp Ha]. destruct (exec s x) as [s1| |] eqn:E; [|done|done]. cbn [res_bind].
  intros Hr. eapply rtc_l; [by exists x|]. by apply IH.
Qed.

Definition result (r : res (Data Log * list (Z * Z))) : Data Log * list (Z * Z) := match r with Done s => s | _ => (Manager_new 2 [], []) end.

(** A service with three objects in two chunks *)
Definition three : list op :=
  [NewService 1; RegisterService 1; NewObject 10; NewObject 11; NewObject 12;
   RegisterObject 1 10 5 accept; RegisterObject 1 11 5 accept; RegisterObject 1 12 6 accept]%nat.

Definition s3 : Data Log * list (Z * Z) := result (run (Manager_new 2 [], []) three).

Ltac allow := repeat first [exact I | split | reflexivity | eexists].

Lemma s3_reachable : reachable 2 [] s3.
Proof. apply (run_steps three); [vm_compute; allow|vm_compute; reflexivity]. Qed.

(** The second object leaves, and another takes its place. *)
Definition replaced : list op := [UnregisterChunk 11; UnregisterIndex 0; NewObject 13; RegisterObject 1 13 7 accept]%nat.

Definition s4 : Data Log * list (Z * Z) := result (run s3 replaced).

Lemma s4_later : rtc step s3 s4.
Proof. apply (run_steps replaced); [vm_compute; repeat first [exact I | split | reflexivity | discriminate | eexists]|vm_compute; reflexivity]. Qed.

(** The identifiers: the old one of the place reaches nothing, the new one the new object. *)
Example replaced_ids : stands_for s3.1 (mkUniqueId 1 0) = Some (11, 5)%nat /\ stands_for s4.1 (mkUniqueId 1 0) = None /\ stands_for s4.1 (mkUniqueId 1 1) = Some (13, 7)%nat.
Proof. vm_compute. auto. Qed.

Lemma manager_safe_witness : exists s', exec s3 (UnregisterChunk 11) = Done s' /\ mwf s'.1 s'.2 [].
Proof. apply (manager_safe 2 [] s3); [lia|exact s3_reachable|]. vm_compute. eexists. split; [reflexivity|discriminate]. Defined.

Lemma objects_refine_witness : ids_effect s3 (UnregisterChunk 11) (result (exec s3 (UnregisterChunk 11))).
Proof.
  apply (objects_refine 2 [] s3); [lia|exact s3_reachable| |vm_compute; reflexivity]. vm_compute. eexists. split; [reflexivity|discriminate].
Defined.

Lemma old_id_safe_witness : notify s4.1 (mkUniqueId 1 0) 8%nat 0 = Done (s4.1, false) \/
  exists r', notify s4.1 (mkUniqueId 1 0) 8%nat 0 = Done (with_world s4.1 (raise (world s4.1) r' 11%nat 8%nat).1, (raise (world s4.1) r' 11%nat 8%nat).2).
Proof. apply (old_id_safe 2 [] s3 s4 (mkUniqueId 1 0) 11 5); [lia|exact s3_reachable|vm_compute; discriminate|vm_compute; reflexivity|exact s4_later]. Defined.

Lemma notify_all_once_witness : exists vs, visits_at s3.1 0 vs /\ notifyAll s3.1 1 7%nat 0 = Done (with_world s3.1 (raise_all 7%nat (world s3.1) vs), Z.of_nat (length vs)).
Proof. apply (notify_all_once 2 [] s3 1 (mkServiceMem 0 false)); [lia|exact s3_reachable|vm_compute; reflexivity|vm_compute; discriminate]. Defined.

Definition stub3 : ServiceStub := mkServiceStub (Some 1%nat) 0 1 StateRunningE 3 4 3 [].

Lemma stub3_at : svcdq s3.1 !! 0%nat = Some stub3.
Proof. vm_compute. reflexivity. Qed.

Lemma stop_service_tells_witness : exists vs d' wait, visits_at s3.1 0 vs /\ stopService s3.1 1 true = Done (d', wait) /\ world d' = raise_all kill_event (world s3.1) vs /\
  (forall o r f, registerObject d' 1 o r f = Done (d', ObjectId_new, Some error_service_not_running)) /\
  (wait = true <-> true = true /\ taken (objchkcnt s3.1) (chunks s3.1) 0 ++ of_svc 0 s3.2 <> []).
Proof.
  apply (stop_service_tells 2 [] s3 1 (mkServiceMem 0 false) true ltac:(lia) s3_reachable ltac:(vm_compute; reflexivity) 0%nat stub3); [reflexivity|exact stub3_at|reflexivity].
Defined.

Lemma stop_wait_exact_witness : exists x, stopService_resume s3.1 0 = Done x /\
  (is_Some x <-> taken (objchkcnt s3.1) (chunks s3.1) 0 = [] /\ of_svc 0 s3.2 = []) /\ forall d', x = Some d' -> state <$> svcdq d' !! 0%nat = Some StateStoppedE.
Proof. apply (stop_wait_exact 2 [] s3 0 stub3); [lia|exact s3_reachable|exact stub3_at]. Defined.

Lemma manager_stop_tells_witness : exists d' ks, stop_broadcast s3.1 = Done (with_svcstore d' (busy (svcstore s3.1)), crtidx (svcstore s3.1)) /\ mwf d' s3.2 [] /\
  world d' = raise_all kill_event (world s3.1) ks /\ NoDup (fst <$> ks) /\
  (forall o r, (o, r) ∈ ks <-> exists p st, svcdq s3.1 !! p = Some st /\ state st = StateRunningE /\ at_visit s3.1 (Z.of_nat p) o r) /\
  forall p, svcdq d' !! p = after_stop <$> svcdq s3.1 !! p.
Proof. apply (manager_stop_tells 2 [] s3); [lia|exact s3_reachable]. Defined.

(** Stopping tells the three objects. *)
Example stop_three : (fun r => (world r.1, r.2)) <$> match stopService s3.1 1 true with Done x => Some x | _ => None end =
  Some ([(5, 10, 99); (5, 11, 99); (6, 12, 99)]%nat, true).
Proof. vm_compute. reflexivity. Qed.

(** ** After a service was unregistered *)

Definition made : Data Log :=
  with_objs (with_services (Manager_new 2 []) (<[1%nat := Service_new]> (<[2%nat := Service_new]> {[3%nat := Service_new]})))
    (<[10%nat := ObjectBase_new]> {[11%nat := ObjectBase_new]}).

(** A service goes, two others come, and an object is registered for the first of them. *)
Definition two_after_one : res (bool * bool * option ServiceMem * option ServiceMem * option Error) :=
  let! (d, _) := registerService made 1 in
  let! d := unregisterService d 1 in
  let! (d, b2) := registerService d 2 in
  let! (d, b3) := registerService d 3 in
  let! (_, _, e) := registerObject d 2 11 5 accept in
  Done (b2, b3, services d !! 2%nat, services d !! 3%nat, e).

(** A service had an object, is stopped and goes; another comes and an object is registered for it. *)
Definition object_after_service : res (Data Log * UniqueId * option Error) :=
  let! (d, _) := registerService made 1 in
  let! (d, _, _) := registerObject d 1 10 5 accept in
  let! d := unregister d 10 in
  let! (d, _) := stopService d 1 true in
  let! d := unregisterService d 1 in
  let! (d, _) := registerService d 2 in
  registerObject d 2 11 5 accept.

(** [registerService] reads the index of an unregistered service from the cache and leaves it
    there: the next two services get the same index, both are told they are registered, and the
    objects of the first of them are refused because its service is not running. *)
Theorem service_index_shared : two_after_one =
  Done (true, true, Some (mkServiceMem 0 false), Some (mkServiceMem 0 false), Some error_service_not_running).
Proof. vm_compute. reflexivity. Qed.

(** [doUnregisterService] caches the index of the chunk that follows the one it frees - for the
    last chunk the invalid index: the next object of a new service is put into a chunk that does
    not exist. *)
Theorem freed_chunk_undefined : object_after_service = Undef.
Proof. vm_compute. reflexivity. Qed.

End ManagerExample.
