(* ===== verification/Scheduler.v ===== *)
(** * The scheduler

    solid/frame/src/schedulerbase.cpp and the worker of solid/frame/scheduler.hpp: starting and
    stopping the threads of the reactors, and choosing the reactor of a new object.

    Any number of threads call [doStart], [doStop] and [doStartObject] while the workers run. What
    a thread does while it holds the mutex of the scheduler is one step; waiting for the condition
    variable gives the mutex back, and the thread looks again when it has it. [doStartObject] does
    not take the mutex: each of its accesses is a step. *)

From stdpp Require Import list relations.
From S2P Require Import Prelude Search.
Import Search.
#[local] Open Scope res_scope.
#[local] Open Scope Z_scope.

Module Scheduler.

Inductive Statuses := StatusStoppedE | StatusStartingWaitE | StatusStartingErrorE | StatusRunningE | StatusStoppingE | StatusStoppingWaitE.

#[export] Instance Statuses_eq_dec : EqDecision Statuses.
Proof. solve_decision. Defined.

(** The thread of a stub and its reactor, which lives in the frame of that thread: both are the
    number of the worker. *)
Record ReactorStub := mkReactorStub { thr : option nat; preactor : option nat }.

Definition ReactorStub_new : ReactorStub := mkReactorStub None None.
Definition isActive (s : ReactorStub) : bool := bool_decide (is_Some (thr s)).

Record Data := mkData {
  crtreactoridx : Z;
  reactorcnt : Z;
  stopwaitcnt : Z;
  status : Statuses;
  usecnt : Z;
  reactorvec : list ReactorStub
}.

Definition Data_new : Data := mkData 0 0 0 StatusStoppedE 0 [].

Definition with_crt (d : Data) x : Data := mkData x (reactorcnt d) (stopwaitcnt d) (status d) (usecnt d) (reactorvec d).
Definition with_cnt (d : Data) x : Data := mkData (crtreactoridx d) x (stopwaitcnt d) (status d) (usecnt d) (reactorvec d).
Definition with_waitcnt (d : Data) x : Data := mkData (crtreactoridx d) (reactorcnt d) x (status d) (usecnt d) (reactorvec d).
Definition with_status (d : Data) x : Data := mkData (crtreactoridx d) (reactorcnt d) (stopwaitcnt d) x (usecnt d) (reactorvec d).
Definition with_use (d : Data) x : Data := mkData (crtreactoridx d) (reactorcnt d) (stopwaitcnt d) (status d) x (reactorvec d).
Definition with_vec (d : Data) x : Data := mkData (crtreactoridx d) (reactorcnt d) (stopwaitcnt d) (status d) (usecnt d) x.

(** Where a caller is *)
Inductive pc :=
| Idle
| InStart (n : nat) (* doStart, at its first lock *)
| StartSleeps (n : nat) (* waits until the scheduler is stopped *)
| StartWaits (* waits for the workers *)
| InStop (wait : bool) (* doStop, at its first lock *)
| StopSleeps (wait : bool) (* waits until starting is over *)
| StopCounted (* waits for another doStop *)
| StopUsers (* waits for usecnt *)
| Joins (k : nat) (* joins the threads from the k-th on *)
| Closes (* at the last lock of doStart and doStop *)
| UseIn (* doStartObject, after ++usecnt *)
| UseRuns (* has seen StatusRunningE *)
| UseAt (i : Z) (* has the index of a reactor *)
| UseOut. (* before --usecnt *)

(** Where a worker is: before [prepareThread], in [run], before [unprepareThread], at its end *)
Inductive wpc := WEnter | WRuns | WLeaves | WDone.

#[export] Instance wpc_eq_dec : EqDecision wpc.
Proof. solve_decision. Defined.

Record Worker := mkWorker { w_idx : nat; w_at : wpc; w_stop : bool }.

Definition w_goto (w : Worker) (p : wpc) : Worker := mkWorker (w_idx w) p (w_stop w).
Definition w_told (w : Worker) : Worker := mkWorker (w_idx w) (w_at w) true.

Record State := mkState { dat : Data; clients : list pc; workers : list Worker }.

Definition start (n : nat) : State := mkState Data_new (replicate n Idle) [].

Definition with_dat (s : State) (d : Data) : State := mkState d (clients s) (workers s).
Definition goto (s : State) (t : nat) (p : pc) : State := mkState (dat s) (<[t := p]> (clients s)) (workers s).
Definition with_workers (s : State) (l : list Worker) : State := mkState (dat s) (clients s) l.

(** ** The parts of the calls *)

(** [it->preactor->stop()], for all reactors there are *)
Fixpoint stop_reactors (l : list ReactorStub) (ws : list Worker) : res (list Worker) :=
  match l with
  | [] => Done ws
  | rs :: l =>
      match preactor rs with
      | None => stop_reactors l ws
      | Some w => let! x := of_option (ws !! w) in stop_reactors l (<[w := w_told x]> ws)
      end
  end.

(** [reactorvec.resize]: the destructor of a thread that was not joined ends the program *)
Definition resize (l : list ReactorStub) (n : nat) : res (list ReactorStub) :=
  if existsb isActive (drop n l) then Undef
  else Done (take n l ++ replicate (n - length l) ReactorStub_new).

(** The creation of the first [c] workers; assigning to a thread that was not joined ends the
    program. *)
Fixpoint create (c i : nat) (l : list ReactorStub) (ws : list Worker) : res (list ReactorStub * list Worker) :=
  match c with
  | O => Done (l, ws)
  | S c =>
      let! rs := of_option (l !! i) in
      if isActive rs then Undef
      else create c (S i) (<[i := mkReactorStub (Some (length ws)) (preactor rs)]> l) (ws ++ [mkWorker i WEnter false])
  end.

(** [doStart] in the stopped state; [c] workers can be created. *)
Definition doStart_stopped (s : State) (t n c : nat) : res State :=
  let! v := resize (reactorvec (dat s)) n in
  let! (v, ws) := create (Nat.min c n) 0 v (workers s) in
  let s := with_workers (with_dat s (with_vec (dat s) v)) ws in
  if (n <=? c)%nat then Done (goto (with_dat s (with_status (dat s) StatusStartingWaitE)) t StartWaits)
  else
    let! ws := stop_reactors v ws in
    Done (goto (with_workers s ws) t (Joins 0)).

Definition stopped (d : Data) : bool := bool_decide (status d = StatusStoppedE) && (stopwaitcnt d =? 0).

Definition doStart_enter (s : State) (t n c : nat) : res State :=
  if bool_decide (status (dat s) = StatusRunningE) then Done (goto s t Idle) (* error_already *)
  else if stopped (dat s) then doStart_stopped s t n c
  else Done (goto s t (StartSleeps n)).

Definition doStart_sleeps (s : State) (t n c : nat) : res State :=
  if stopped (dat s) then doStart_stopped s t n c else Done s.

(** Back from the wait for the workers *)
Definition doStart_waits (s : State) (t : nat) : res State :=
  let d := dat s in
  if bool_decide (status d = StatusStartingWaitE) && negb (reactorcnt d =? Z.of_nat (length (reactorvec d))) then Done s
  else if bool_decide (status d = StatusStartingErrorE) then
    let! ws := stop_reactors (reactorvec d) (workers s) in
    Done (goto (with_workers (with_dat s (with_status d StatusStoppingWaitE)) ws) t (Joins 0))
  else Done (goto (with_dat s (with_status d StatusRunningE)) t Idle).

Definition starting (d : Data) : bool := bool_decide (status d = StatusStartingWaitE) || bool_decide (status d = StatusStartingErrorE).

Definition doStop_enter (s : State) (t : nat) (_wait : bool) : res State :=
  let d := dat s in
  let d' := with_status d (if _wait then StatusStoppingWaitE else StatusStoppingE) in
  let next := if _wait then StopUsers else Idle in
  match status d with
  | StatusStartingWaitE | StatusStartingErrorE => Done (goto s t (StopSleeps _wait))
  | StatusRunningE =>
      let! ws := stop_reactors (reactorvec d) (workers s) in
      Done (goto (with_workers (with_dat s d') ws) t next)
  | StatusStoppingE => Done (goto (with_dat s d') t next)
  | StatusStoppingWaitE =>
      if _wait then Done (goto (with_dat s (with_waitcnt d (stopwaitcnt d + 1))) t StopCounted) else Done (goto s t Idle)
  | StatusStoppedE => Done (goto s t Idle)
  end.

(** [thr.join()] for one stub; the caller waits while the worker is not at its end. *)
Definition join (s : State) (t k : nat) : res State :=
  match reactorvec (dat s) !! k with
  | None => Done (goto s t Closes)
  | Some rs =>
      match thr rs with
      | None => Done (goto s t (Joins (S k)))
      | Some w =>
          let! x := of_option (workers s !! w) in
          match w_at x with
          | WDone => Done (goto (with_dat s (with_vec (dat s) (<[k := ReactorStub_new]> (reactorvec (dat s))))) t (Joins (S k)))
          | _ => Done s
          end
      end
  end.

(** [doComputeScheduleReactorIndex]; up to 8 reactors [find_cmp] asks each of them for its load. *)
Definition reactor_load (load : nat -> Z) (rs : ReactorStub) : res Z := let! w := of_option (preactor rs) in Done (load w).

Fixpoint loads (load : nat -> Z) (l : list ReactorStub) : res (list Z) :=
  match l with
  | [] => Done []
  | rs :: l => let! x := reactor_load load rs in let! r := loads load l in Done (x :: r)
  end.

Definition doComputeScheduleReactorIndex (d : Data) (load : nat -> Z) : res (Data * Z) :=
  let n := length (reactorvec d) in
  if (n =? 1)%nat then Done (d, 0)
  else if (2 <=? n)%nat && (n <=? 8)%nat then
    let! l := loads load (reactorvec d) in
    let! i := of_option (find_cmp Z.ltb n l 0 n) in
    Done (d, Z.of_nat i)
  else if (n =? 0)%nat then Undef
  else
    let cwi := crtreactoridx d in
    Done (with_crt d ((cwi + 1) mod Z.of_nat n), cwi).

(** [prepareThread], for a worker whose reactor and thread could start or not *)
Definition prepareThread (s : State) (w : nat) (x : Worker) (ok : bool) : res State :=
  let d := dat s in
  let! rrs := vec_get (reactorvec d) (Z.of_nat (w_idx x)) in
  if ok && bool_decide (status d = StatusStartingWaitE) then
    let! v := vec_set (reactorvec d) (Z.of_nat (w_idx x)) (mkReactorStub (thr rrs) (Some w)) in
    Done (with_workers (with_dat s (with_cnt (with_vec d v) (reactorcnt d + 1))) (<[w := w_goto x WRuns]> (workers s)))
  else Done (with_workers (with_dat s (with_status d StatusStartingErrorE)) (<[w := w_goto x WDone]> (workers s))).

Definition unprepareThread (s : State) (w : nat) (x : Worker) : res State :=
  let d := dat s in
  let! rrs := vec_get (reactorvec d) (Z.of_nat (w_idx x)) in
  let! v := vec_set (reactorvec d) (Z.of_nat (w_idx x)) (mkReactorStub (thr rrs) None) in
  Done (with_workers (with_dat s (with_cnt (with_vec d v) (reactorcnt d - 1))) (<[w := w_goto x WDone]> (workers s))).

(** ** Steps *)

Inductive action :=
| CallStart (t n : nat)
| CallStop (t : nat) (wait : bool)
| CallStartObject (t : nat)
| Go (t : nat) (created : nat) (load : nat -> Z)
| Work (w : nat) (ok : bool).

Definition client_step (s : State) (t : nat) (p : pc) (created : nat) (load : nat -> Z) : res State :=
  let d := dat s in
  match p with
  | Idle => Done s
  | InStart n => doStart_enter s t n created
  | StartSleeps n => doStart_sleeps s t n created
  | StartWaits => doStart_waits s t
  | InStop w => doStop_enter s t w
  | StopSleeps w => if starting d then Done s else doStop_enter s t w
  | StopCounted =>
      if bool_decide (status d = StatusStoppedE) then Done (goto (with_dat s (with_waitcnt d (stopwaitcnt d - 1))) t Idle) else Done s
  | StopUsers => if usecnt d =? 0 then Done (goto s t (Joins 0)) else Done s
  | Joins k => join s t k
  | Closes => Done (goto (with_dat s (with_status d StatusStoppedE)) t Idle)
  | UseIn => Done (goto s t (if bool_decide (status d = StatusRunningE) then UseRuns else UseOut))
  | UseRuns => let! (d, i) := doComputeScheduleReactorIndex d load in Done (goto (with_dat s d) t (UseAt i))
  | UseAt i =>
      let! rs := vec_get (reactorvec d) i in
      let! _ := of_option (preactor rs) in (* registerObject gets the reactor *)
      Done (goto s t UseOut)
  | UseOut => Done (goto (with_dat s (with_use d (usecnt d - 1))) t Idle)
  end.

(** A worker in [reactor.run()] makes a turn of its loop: the loop ends when the reactor was told to
    stop and the turn leaves no object and nothing to execute in it ([ok]). *)
Definition worker_step (s : State) (w : nat) (x : Worker) (ok : bool) : res State :=
  match w_at x with
  | WEnter => prepareThread s w x ok
  | WRuns => if w_stop x && ok then Done (with_workers s (<[w := w_goto x WLeaves]> (workers s))) else Done s
  | WLeaves => unprepareThread s w x
  | WDone => Done s
  end.

Definition call (s : State) (t : nat) (p : pc) (d : Data) : res State :=
  match clients s !! t with Some Idle => Done (goto (with_dat s d) t p) | _ => Done s end.

Definition act (s : State) (a : action) : res State :=
  match a with
  | CallStart t n => call s t (InStart n) (dat s)
  | CallStop t w => call s t (InStop w) (dat s)
  | CallStartObject t => call s t UseIn (with_use (dat s) (usecnt (dat s) + 1))
  | Go t c load => match clients s !! t with Some p => client_step s t p c load | None => Done s end
  | Work w ok => match workers s !! w with Some x => worker_step s w x ok | None => Done s end
  end.

End Scheduler.
