(* ===== verification/SchedulerProofs.v ===== *)
(** * The scheduler: invariant

    What holds in every state of Scheduler.v when threads can be created. *)

From stdpp Require Import list relations.
From S2P Require Import Prelude Search Scheduler.
Import Search Scheduler.
#[local] Set Warnings "-clear-no-such-hyp".
#[local] Open Scope res_scope.
#[local] Open Scope Z_scope.

Module SchedulerProofs.

(** ** Lists *)

Lemma filter_put {A : Type} (P : A -> bool) (l : list A) t p : l !! t = Some p ->
  exists a b, filter P l = a ++ (if P p then [p] else []) ++ b /\
    forall q, filter P (<[t := q]> l) = a ++ (if P q then [q] else []) ++ b.
Proof.
  intros E. exists (filter P (take t l)), (filter P (drop (S t) l)). split.
  - rewrite <- (take_drop_middle l t p E) at 1. rewrite filter_app, filter_cons. by destruct (P p).
  - intros q. rewrite (insert_take_drop _ _ _ (lookup_lt_Some _ _ _ E)), filter_app, filter_cons. by destruct (P q).
Qed.

Definition size {A : Type} (P : A -> bool) (l : list A) : Z := Z.of_nat (length (filter P l)).

Lemma size_put {A : Type} (P : A -> bool) (l : list A) t p q : l !! t = Some p ->
  size P (<[t := q]> l) = size P l - Z.b2z (P p) + Z.b2z (P q).
Proof.
  intros E. destruct (filter_put P l t p E) as (a & b & E1 & E2). unfold size. rewrite E1, E2, !length_app. unfold Z.b2z. destruct (P p), (P q); cbn; lia.
Qed.

Lemma size_cons {A : Type} (P : A -> bool) x l : size P (x :: l) = Z.b2z (P x) + size P l.
Proof. unfold size. rewrite filter_cons. destruct (P x); [rewrite decide_True by done|rewrite decide_False by (intros [])]; cbn [length Z.b2z]; lia. Qed.

Lemma size_none {A : Type} (P : A -> bool) (l : list A) : (forall i x, l !! i = Some x -> P x = false) -> size P l = 0.
Proof.
  induction l as [|x l IH]; intros Hl; [done|]. rewrite size_cons, (Hl 0%nat x), IH by (done || intros i y; apply (Hl (S i))). done.
Qed.

Lemma size_all {A : Type} (P : A -> bool) (l : list A) : size P l <= Z.of_nat (length l) /\ (size P l = Z.of_nat (length l) -> forall i x, l !! i = Some x -> P x = true).
Proof.
  induction l as [|y l [IH1 IH2]]; [by split|]. rewrite size_cons. cbn [length]. unfold Z.b2z. split; [destruct (P y); lia|].
  intros E [|i] x Ex; cbn in Ex; destruct (P y) eqn:Ey; try lia; [congruence|]. apply (IH2 ltac:(lia) i x Ex).
Qed.

(** ** The invariant *)

(** The callers that go through starting and stopping: at most one *)
Definition owner (p : pc) : bool := match p with StartWaits | StopUsers | Joins _ | Closes => true | _ => false end.
Definition uses (p : pc) : bool := match p with UseIn | UseRuns | UseAt _ | UseOut => true | _ => false end.
Definition seen (p : pc) : bool := match p with UseRuns | UseAt _ => true | _ => false end.
Definition counted (p : pc) : bool := match p with StopCounted => true | _ => false end.

Definition owners (s : State) : list pc := filter owner (clients s).

Definition in_run (p : wpc) : bool := match p with WRuns | WLeaves => true | _ => false end.
Definition has_reactor (rs : ReactorStub) : bool := bool_decide (is_Some (preactor rs)).

(** Stubs and workers know each other. *)
Record table (d : Data) (ws : list Worker) : Prop := {
  t_stub : forall i rs, reactorvec d !! i = Some rs ->
    match thr rs with
    | None => preactor rs = None
    | Some w => exists x, ws !! w = Some x /\ w_idx x = i /\ preactor rs = (if in_run (w_at x) then Some w else None)
    end;
  t_worker : forall w x, ws !! w = Some x -> w_at x <> WDone -> exists rs, reactorvec d !! w_idx x = Some rs /\ thr rs = Some w;
  t_cnt : reactorcnt d = size has_reactor (reactorvec d)
}.

Definition started (d : Data) : Prop := forall i rs, reactorvec d !! i = Some rs -> is_Some (thr rs).
Definition joined (d : Data) (k : nat) : Prop := forall i rs, (i < k)%nat -> reactorvec d !! i = Some rs -> thr rs = None.
Definition untold (ws : list Worker) : Prop := forall w x, ws !! w = Some x -> w_at x = WDone \/ w_at x <> WLeaves /\ w_stop x = false.
Definition told (ws : list Worker) : Prop := forall w x, ws !! w = Some x -> w_at x = WRuns -> w_stop x = true.
Definition entered (ws : list Worker) : Prop := forall w x, ws !! w = Some x -> w_at x <> WEnter.

(** The state by the status and the caller that goes through it *)
Definition phase (d : Data) (ws : list Worker) (own : list pc) : Prop :=
  match own, status d with
  | [], StatusStoppedE => joined d (length (reactorvec d))
  | [], StatusRunningE => started d /\ untold ws /\ entered ws /\ reactorcnt d = Z.of_nat (length (reactorvec d))
  | [], StatusStoppingE => told ws /\ entered ws
  | [StartWaits], StatusStartingWaitE | [StartWaits], StatusStartingErrorE => started d /\ untold ws
  | [StopUsers], StatusStoppingWaitE => told ws /\ entered ws
  | [Joins k], StatusStoppingWaitE | [Joins k], StatusStartingErrorE => told ws /\ joined d k
  | [Closes], StatusStoppingWaitE | [Closes], StatusStartingErrorE => joined d (length (reactorvec d))
  | _, _ => False
  end.

Definition some_reactor (d : Data) : Prop := status d <> StatusStoppedE -> (1 <= length (reactorvec d))%nat.

Definition pc_ok (len : nat) (p : pc) : Prop :=
  match p with
  | InStart n | StartSleeps n => (1 <= n)%nat
  | UseAt i => (len <= 8)%nat -> 0 <= i < Z.of_nat len
  | _ => True
  end.

Record inv (s : State) : Prop := {
  i_table : table (dat s) (workers s);
  i_phase : phase (dat s) (workers s) (owners s);
  i_use : usecnt (dat s) = size uses (clients s);
  i_wait : stopwaitcnt (dat s) = size counted (clients s);
  i_seen : forall t p, clients s !! t = Some p -> seen p = true ->
    owners s = [] /\ status (dat s) <> StatusStoppedE \/ owners s = [StopUsers];
  i_len : some_reactor (dat s);
  i_pc : forall t p, clients s !! t = Some p -> pc_ok (length (reactorvec (dat s))) p
}.

Lemma sched_inv_start n : inv (start n).
Proof.
  assert (forall P : pc -> bool, P Idle = false -> filter P (replicate n Idle) = []) as Hf.
  { intros P HP. induction n as [|n IH]; [done|]. cbn [replicate]. rewrite filter_cons, HP. exact IH. }
  split.
  - split; try done; intros ? ?; cbn; by rewrite lookup_nil.
  - unfold phase, owners. cbn [clients start]. rewrite Hf by done. intros i rs Hi. cbn in Hi. lia.
  - cbn. unfold size. by rewrite Hf.
  - cbn. unfold size. by rewrite Hf.
  - intros t p [-> _]%lookup_replicate. done.
  - by intros H; destruct H.
  - intros t p [-> _]%lookup_replicate. done.
Qed.

(** ** Callers *)

(** A caller moves and the status changes at most. *)
Lemma owners_other (s : State) t p q : clients s !! t = Some p -> owner p = false -> owner q = false -> filter owner (<[t := q]> (clients s)) = owners s.
Proof. intros E Hp Hq. destruct (filter_put owner _ _ _ E) as (a & b & E1 & E2). unfold owners. rewrite E1, E2, Hp, Hq. done. Qed.

Lemma owners_in (s : State) t p q : clients s !! t = Some p -> owner p = false -> owners s = [] -> owner q = true -> filter owner (<[t := q]> (clients s)) = [q].
Proof.
  intros E Hp E0 Hq. destruct (filter_put owner _ _ _ E) as (a & b & E1 & E2). unfold owners in E0. rewrite E1, Hp in E0. cbn in E0.
  apply app_eq_nil in E0 as [-> ->]. by rewrite E2, Hq.
Qed.

Lemma phase_one d ws own : phase d ws own -> (length own <= 1)%nat.
Proof. unfold phase. destruct own as [|p [|q l]]; cbn; [lia|lia|]. by destruct p. Qed.

Lemma owners_mine (s : State) t p : inv s -> clients s !! t = Some p -> owner p = true -> owners s = [p] /\
  forall q, filter owner (<[t := q]> (clients s)) = if owner q then [q] else [].
Proof.
  intros Hi E Hp. destruct (filter_put owner _ _ _ E) as (a & b & E1 & E2). pose proof (phase_one _ _ _ (i_phase _ Hi)) as Hl. unfold owners in *.
  rewrite E1, Hp in *. rewrite !length_app in Hl. cbn in Hl. destruct a, b; cbn in *; try lia. split; [done|]. intros q. rewrite E2. by rewrite app_nil_r.
Qed.

(** Counters change, or the reactor to use next. *)
Definition same_core (d d' : Data) : Prop := status d' = status d /\ reactorvec d' = reactorvec d /\ reactorcnt d' = reactorcnt d.

Lemma table_core d d' ws : same_core d d' -> table d ws -> table d' ws.
Proof. intros (_ & E1 & E2) [H1 H2 H3]. split; rewrite ?E1, ?E2; done. Qed.

Lemma phase_core d d' ws own : same_core d d' -> phase d ws own -> phase d' ws own.
Proof. intros (E0 & E1 & E2). unfold phase, started, joined. by rewrite E0, E1, E2. Qed.

(** One caller moves. *)
Lemma inv_move s t p q d' ws' own : inv s -> clients s !! t = Some p -> filter owner (<[t := q]> (clients s)) = own -> table d' ws' -> phase d' ws' own ->
  usecnt d' = usecnt (dat s) - Z.b2z (uses p) + Z.b2z (uses q) -> stopwaitcnt d' = stopwaitcnt (dat s) - Z.b2z (counted p) + Z.b2z (counted q) ->
  (forall u r, <[t := q]> (clients s) !! u = Some r -> seen r = true -> own = [] /\ status d' <> StatusStoppedE \/ own = [StopUsers]) ->
  some_reactor d' -> pc_ok (length (reactorvec d')) q ->
  length (reactorvec d') = length (reactorvec (dat s)) \/ (forall u r, clients s !! u = Some r -> seen r = false) ->
  inv (mkState d' (<[t := q]> (clients s)) ws').
Proof.
  intros Hi E Eo Ht Hp Hu Hw Hs Hl Hq Hn. split; cbn [dat clients workers]; try done.
  - unfold owners. cbn. by rewrite Eo.
  - by rewrite (size_put _ _ _ _ _ E), Hu, (i_use _ Hi).
  - by rewrite (size_put _ _ _ _ _ E), Hw, (i_wait _ Hi).
  - unfold owners. cbn. rewrite Eo. exact Hs.
  - intros u r [(<- & <- & _)|[_ Er]]%list_lookup_insert_Some; [done|]. pose proof (i_pc _ Hi u r Er) as Hr. destruct Hn as [->|Hn]; [done|].
    specialize (Hn u r Er). by destruct r.
Qed.

(** A caller that does not go through starting and stopping moves. *)
Lemma inv_other s t p q d' : inv s -> clients s !! t = Some p -> owner p = false -> owner q = false -> same_core (dat s) d' ->
  usecnt d' = usecnt (dat s) - Z.b2z (uses p) + Z.b2z (uses q) -> stopwaitcnt d' = stopwaitcnt (dat s) - Z.b2z (counted p) + Z.b2z (counted q) ->
  (seen q = true -> seen p = true \/ status (dat s) = StatusRunningE) -> pc_ok (length (reactorvec (dat s))) q -> inv (mkState d' (<[t := q]> (clients s)) (workers s)).
Proof.
  intros Hi E Hp Hq Hc Hu Hw Hs Hpc. apply (inv_move s t p q d' _ (owners s)); try done.
  - by apply owners_other with p.
  - by eapply table_core, i_table.
  - by eapply phase_core, i_phase.
  - destruct Hc as (-> & _). intros u r [(<- & <- & _)|[_ Er]]%list_lookup_insert_Some Hr; [|by apply (i_seen _ Hi u r)].
    destruct (Hs Hr) as [Hp'|Hrun]; [by apply (i_seen _ Hi t p)|]. left. pose proof (i_phase _ Hi) as Hph. unfold phase in Hph. rewrite Hrun in *.
    destruct (owners s) as [|[] []]; try done.
  - destruct Hc as (E1 & E2 & _). unfold some_reactor. rewrite E1, E2. apply (i_len _ Hi).
  - by destruct Hc as (_ & -> & _).
  - left. by destruct Hc as (_ & -> & _).
Qed.

(** Nobody has seen the scheduler running. *)
Lemma unseen s : inv s -> usecnt (dat s) = 0 \/ (exists p, owners s = [p] /\ p <> StopUsers) \/ status (dat s) = StatusStoppedE ->
  forall u r, clients s !! u = Some r -> seen r = false.
Proof.
  intros Hi Hx u r Er. destruct (seen r) eqn:Hr; [|done]. exfalso. destruct Hx as [H0|[(p & Ep & Hp)|Hst]].
  - rewrite (i_use _ Hi) in H0. unfold size in H0. assert (r ∈ filter uses (clients s)) as Hin.
    { rewrite list_elem_of_filter. split; [by destruct r|by eapply list_elem_of_lookup_2]. }
    destruct (filter uses (clients s)); [by apply elem_of_nil in Hin|]. cbn in H0. lia.
  - destruct (i_seen _ Hi u r Er Hr) as [[E _]|E]; congruence.
  - destruct (i_seen _ Hi u r Er Hr) as [[_ E]|E]; [done|]. pose proof (i_phase _ Hi) as Hph. rewrite E in Hph. unfold phase in Hph. by rewrite Hst in Hph.
Qed.

Lemma unseen_put s t q : (forall u r, clients s !! u = Some r -> seen r = false) -> seen q = false ->
  forall u r, <[t := q]> (clients s) !! u = Some r -> seen r = false.
Proof. intros H Hq u r [(-> & <- & _)|[_ Er]]%list_lookup_insert_Some; [done|by apply (H u)]. Qed.

(** ** Telling the reactors to stop *)

Lemma stop_reactors_spec l : forall ws, (forall rs w, rs ∈ l -> preactor rs = Some w -> is_Some (ws !! w)) ->
  exists ws', stop_reactors l ws = Done ws' /\
    (forall w x, ws !! w = Some x -> exists b, ws' !! w = Some (mkWorker (w_idx x) (w_at x) b) /\ (w_stop x = true \/ (exists rs, rs ∈ l /\ preactor rs = Some w) -> b = true)) /\
    (forall w x, ws' !! w = Some x -> is_Some (ws !! w)).
Proof.
  induction l as [|rs l IH]; intros ws Hl; cbn [stop_reactors].
  - exists ws. split; [done|]. split; [|by intros w x ->].
    intros w x Ex. exists (w_stop x). split; [by destruct x|]. by intros [?|(rs & ?%elem_of_nil & _)].
  - assert (forall ws' : list Worker, (forall v, is_Some (ws !! v) -> is_Some (ws' !! v)) -> forall r w, r ∈ l -> preactor r = Some w -> is_Some (ws' !! w)) as Hl'.
    { intros ws' Hws r w Hr Er. apply Hws. apply (Hl r w); [by right|done]. }
    destruct (preactor rs) as [w|] eqn:Ew.
    + destruct (Hl rs w) as [x Ex]; [by left|done|]. rewrite Ex. cbn [of_option res_bind]. pose proof (lookup_lt_Some _ _ _ Ex) as Hlt.
      destruct (IH (<[w := w_told x]> ws)) as (ws' & E & H1 & H2).
      { apply Hl'. intros v [y Ey]. destruct (decide (v = w)) as [->|]; [rewrite list_lookup_insert_eq by done; by eexists|rewrite list_lookup_insert_ne by done; by eexists]. }
      exists ws'. split; [done|]. split.
      * intros v y Ey. destruct (decide (v = w)) as [->|Hne].
        -- destruct (H1 w (w_told x)) as (b & Eb & Hb); [by apply list_lookup_insert_eq|]. rewrite Ex in Ey. injection Ey as <-. exists b. split; [done|].
           intros _. apply Hb. by left.
        -- destruct (H1 v y) as (b & Eb & Hb); [by rewrite list_lookup_insert_ne|]. exists b. split; [done|]. intros [?|(r & [->|Hr]%elem_of_cons & Er)]; [apply Hb; by left|congruence|]. apply Hb. right. by exists r.
      * intros v y Ey. destruct (H2 v y Ey) as [z Ez]. destruct (decide (v = w)) as [->|Hne]; [by exists x|]. rewrite list_lookup_insert_ne in Ez by done. by exists z.
    + destruct (IH ws) as (ws' & E & H1 & H2); [by apply Hl'|]. exists ws'. split; [done|]. split; [|done].
      intros v y Ey. destruct (H1 v y Ey) as (b & Eb & Hb). exists b. split; [done|]. intros [?|(r & [->|Hr]%elem_of_cons & Er)]; [apply Hb; by left|congruence|]. apply Hb. right. by exists r.
Qed.

Lemma stop_table d ws : table d ws -> exists ws', stop_reactors (reactorvec d) ws = Done ws' /\ table d ws' /\ told ws' /\ (entered ws -> entered ws').
Proof.
  intros [H1 H2 H3]. assert (forall rs w, rs ∈ reactorvec d -> preactor rs = Some w -> exists i x, reactorvec d !! i = Some rs /\ thr rs = Some w /\ ws !! w = Some x) as Hp.
  { intros rs w (i & Ei)%list_elem_of_lookup Ew. specialize (H1 i rs Ei). destruct (thr rs) as [w'|]; [|congruence]. destruct H1 as (x & Ex & _ & E).
    exists i, x. destruct (in_run (w_at x)); [|congruence]. by simplify_eq. }
  destruct (stop_reactors_spec (reactorvec d) ws) as (ws' & E & S1 & S2). { intros rs w Hr Ew. destruct (Hp rs w Hr Ew) as (_ & x & _ & _ & Ex). by exists x. }
  assert (forall w x, ws' !! w = Some x -> exists y b, ws !! w = Some y /\ x = mkWorker (w_idx y) (w_at y) b) as Hback.
  { intros w x Ex. destruct (S2 w x Ex) as [y Ey]. destruct (S1 w y Ey) as (b & Eb & _). exists y, b. split; [done|congruence]. }
  exists ws'. split; [done|]. split_and!.
  - split; [| |done].
    + intros i rs Ei. specialize (H1 i rs Ei). destruct (thr rs) as [w|]; [|done]. destruct H1 as (x & Ex & Hx). destruct (S1 w x Ex) as (b & Eb & _). by eexists.
    + intros w x Ex. destruct (Hback w x Ex) as (y & b & Ey & ->). cbn. by apply H2.
  - intros w x Ex. destruct (Hback w x Ex) as (y & b & Ey & ->). cbn. intros Ha. destruct (S1 w y Ey) as (b' & Eb & Hb). rewrite Ex in Eb. injection Eb as <-.
    apply Hb. right. destruct (H2 w y Ey) as (rs & Er & Et); [by rewrite Ha|]. exists rs. split; [by eapply list_elem_of_lookup_2|].
    specialize (H1 _ _ Er). rewrite Et in H1. destruct H1 as (y' & Ey' & _ & Ep). rewrite Ey in Ey'. injection Ey' as <-. by rewrite Ep, Ha.
  - intros He w x Ex. destruct (Hback w x Ex) as (y & b & Ey & ->). cbn. by apply (He w).
Qed.

(** ** Creating the workers *)

Lemma joined_new d ws : table d ws -> joined d (length (reactorvec d)) -> reactorvec d = replicate (length (reactorvec d)) ReactorStub_new /\ (forall w x, ws !! w = Some x -> w_at x = WDone) /\ reactorcnt d = 0.
Proof.
  intros [H1 H2 H3] Hj. assert (forall i rs, reactorvec d !! i = Some rs -> rs = ReactorStub_new) as Hnew.
  { intros i rs Ei. pose proof (Hj i rs (lookup_lt_Some _ _ _ Ei) Ei) as Et. specialize (H1 i rs Ei). rewrite Et in H1. destruct rs; cbn in *; by subst. }
  assert (reactorvec d = replicate (length (reactorvec d)) ReactorStub_new) as Er.
  { symmetry. apply replicate_as_elem_of. split; [done|]. intros rs (i & Ei)%list_elem_of_lookup. by apply (Hnew i). }
  split_and!; [done| |].
  - intros w x Ex. destruct (decide (w_at x = WDone)) as [|Hd]; [done|]. destruct (H2 w x Ex Hd) as (rs & Ei & Et). by rewrite (Hnew _ _ Ei) in Et.
  - rewrite H3. apply size_none. intros i rs Ei. by rewrite (Hnew i rs Ei).
Qed.

Lemma resize_new m n : resize (replicate m ReactorStub_new) n = Done (replicate n ReactorStub_new).
Proof.
  unfold resize. rewrite drop_replicate. assert (forall k, existsb isActive (replicate k ReactorStub_new) = false) as -> by (intros k; by induction k).
  rewrite take_replicate, length_replicate, <- replicate_add. do 2 f_equal. lia.
Qed.

Lemma create_new c : forall i l ws, length l = i -> exists v',
  create c i (l ++ replicate c ReactorStub_new) ws = Done (l ++ v', ws ++ ((fun j => mkWorker j WEnter false) <$> seq i c)) /\ length v' = c /\
  forall j, (j < c)%nat -> v' !! j = Some (mkReactorStub (Some (length ws + j)%nat) None).
Proof.
  induction c as [|c IH]; intros i l ws Hi; cbn [create].
  - exists []. split; [|split; [done|intros; lia]]. cbn. by rewrite (app_nil_r ws).
  - change (replicate (S c) ReactorStub_new) with (ReactorStub_new :: replicate c ReactorStub_new).
    rewrite list_lookup_middle by done. cbn [of_option res_bind]. unfold isActive. cbn [thr ReactorStub_new preactor]. rewrite bool_decide_eq_false_2 by (by intros []).
    replace (<[i := _]> (l ++ ReactorStub_new :: replicate c ReactorStub_new)) with ((l ++ [mkReactorStub (Some (length ws)) None]) ++ replicate c ReactorStub_new).
    2:{ rewrite <- Hi. replace (length l) with (length l + 0)%nat by lia. rewrite insert_app_r. rewrite <- app_assoc. done. }
    destruct (IH (S i) (l ++ [mkReactorStub (Some (length ws)) None]) (ws ++ [mkWorker i WEnter false])) as (v' & E & El & Hv); [rewrite length_app; cbn; lia|].
    rewrite E. exists (mkReactorStub (Some (length ws)) None :: v'). split_and!.
    + rewrite <- !app_assoc. done.
    + cbn. lia.
    + intros [|j] Hj; cbn; [do 3 f_equal; lia|]. rewrite Hv by lia. rewrite length_app. cbn. do 3 f_equal. lia.
Qed.

Lemma create_table d ws n : (forall w x, ws !! w = Some x -> w_at x = WDone) -> reactorcnt d = 0 ->
  exists v ws', create n 0 (replicate n ReactorStub_new) ws = Done (v, ws') /\ length v = n /\ table (with_vec d v) ws' /\ started (with_vec d v) /\ untold ws'.
Proof.
  intros Hd H0. destruct (create_new n 0 [] ws eq_refl) as (v & E & El & Hv). cbn [app] in E. exists v, (ws ++ ((fun j => mkWorker j WEnter false) <$> seq 0 n)). split; [exact E|].
  assert (forall i rs, v !! i = Some rs -> rs = mkReactorStub (Some (length ws + i)%nat) None /\ (i < n)%nat) as Hv'.
  { intros i rs Ei. pose proof (lookup_lt_Some _ _ _ Ei) as Hl. rewrite Hv in Ei by lia. split; [congruence|lia]. }
  assert (forall w x, (ws ++ ((fun j => mkWorker j WEnter false) <$> seq 0 n)) !! w = Some x -> w_at x = WDone \/
    exists j, x = mkWorker j WEnter false /\ w = (length ws + j)%nat /\ (j < n)%nat) as Hws.
  { intros w x [Ex|(Hw & Ex)]%lookup_app_Some; [left; by apply (Hd w)|right]. apply list_lookup_fmap_Some in Ex as (j & -> & Ej). apply lookup_seq in Ej as [-> Hj].
    eexists. split; [done|]. lia. }
  split; [done|]. split_and!.
  - split; cbn [reactorvec with_vec reactorcnt].
    + intros i rs Ei. destruct (Hv' i rs Ei) as [-> Hi]. cbn. exists (mkWorker i WEnter false). split_and!; try done.
      rewrite lookup_app_r by lia. replace (length ws + i - length ws)%nat with i by lia. by rewrite list_lookup_fmap, lookup_seq_lt.
    + intros w x Ex Hx. destruct (Hws w x Ex) as [?|(j & -> & -> & Hj)]; [done|]. eexists. split; [by apply Hv|done].
    + rewrite H0. symmetry. apply size_none. intros i rs Ei. by destruct (Hv' i rs Ei) as [-> _].
  - intros i rs Ei. destruct (Hv' i rs Ei) as [-> _]. by eexists.
  - intros w x Ex. destruct (Hws w x Ex) as [Hx|(j & -> & _)]; [by left|by right].
Qed.

(** ** The workers *)

(** A worker moves, and its stub with it. *)
Lemma table_move d d' ws w x rs p' : table d ws -> ws !! w = Some x -> reactorvec d !! w_idx x = Some rs -> thr rs = Some w ->
  reactorvec d' = <[w_idx x := mkReactorStub (Some w) (if in_run p' then Some w else None)]> (reactorvec d) ->
  reactorcnt d' = reactorcnt d - Z.b2z (in_run (w_at x)) + Z.b2z (in_run p') -> table d' (<[w := w_goto x p']> ws).
Proof.
  intros [H1 H2 H3] Ex Er Et Ev Ec. pose proof (lookup_lt_Some _ _ _ Ex) as Hw. pose proof (lookup_lt_Some _ _ _ Er) as Hr.
  pose proof (H1 _ _ Er) as Hs. rewrite Et in Hs. destruct Hs as (x' & Ex' & _ & Ep). rewrite Ex in Ex'. injection Ex' as <-.
  split; rewrite ?Ev.
  - intros i y [(<- & <- & _)|[Hne Ey]]%list_lookup_insert_Some; cbn [thr preactor].
    + exists (w_goto x p'). rewrite list_lookup_insert_eq by done. done.
    + specialize (H1 i y Ey). destruct (thr y) as [v|]; [|done]. destruct H1 as (z & Ez & Ei & Ep'). exists z. split_and!; try done.
      rewrite list_lookup_insert_ne; [done|]. intros <-. rewrite Ex in Ez. injection Ez as <-. done.
  - intros v z [(<- & <- & _)|[Hne Ez]]%list_lookup_insert_Some Hd; cbn [w_idx w_goto].
    + rewrite list_lookup_insert_eq by done. by eexists.
    + destruct (H2 v z Ez Hd) as (y & Ey & Ety). exists y. split; [|done]. rewrite list_lookup_insert_ne; [done|]. intros Ei. rewrite Ei in Er. congruence.
  - rewrite Ec, H3, (size_put _ _ _ _ _ Er). unfold has_reactor. rewrite Ep. cbn [preactor]. destruct (in_run (w_at x)), (in_run p'); cbn; lia.
Qed.

(** A stub keeps its thread: which stubs are started and joined does not change. *)
Lemma threads_put d d' i rs p : reactorvec d !! i = Some rs -> reactorvec d' = <[i := mkReactorStub (thr rs) p]> (reactorvec d) ->
  length (reactorvec d') = length (reactorvec d) /\ (started d -> started d') /\ forall k, joined d k -> joined d' k.
Proof.
  intros Er Ev. split_and!.
  - by rewrite Ev, length_insert.
  - intros Hs j y. rewrite Ev. intros [(<- & <- & _)|[_ Ey]]%list_lookup_insert_Some; [exact (Hs i rs Er)|by apply (Hs j)].
  - intros k Hj j y Hk. rewrite Ev. intros [(<- & <- & _)|[_ Ey]]%list_lookup_insert_Some; [exact (Hj i rs Hk Er)|by apply (Hj j)].
Qed.

Lemma inv_work s d' ws' : inv s -> table d' ws' -> phase d' ws' (owners s) -> usecnt d' = usecnt (dat s) -> stopwaitcnt d' = stopwaitcnt (dat s) ->
  (owners s = [] -> status d' = status (dat s)) -> length (reactorvec d') = length (reactorvec (dat s)) -> status (dat s) <> StatusStoppedE ->
  inv (mkState d' (clients s) ws').
Proof.
  intros Hi Ht Hp Hu Hw Hs Hl Hn. split; cbn; try done; rewrite ?Hu, ?Hw, ?Hl; try apply Hi; [|intros _; rewrite Hl; by apply (i_len _ Hi)].
  intros t p E Hp'. change (owners (mkState d' (clients s) ws')) with (owners s). destruct (i_seen _ Hi t p E Hp') as [[E0 E1]|]; [|by right]. left. split; [done|]. by rewrite Hs.
Qed.

Lemma told_put ws w x p : told ws -> ws !! w = Some x -> p <> WRuns -> told (<[w := w_goto x p]> ws).
Proof. intros H E Hp v y [(<- & <- & _)|[_ Ey]]%list_lookup_insert_Some; [cbn; congruence|by apply (H v)]. Qed.
Lemma entered_put ws w x p : entered ws -> ws !! w = Some x -> p <> WEnter -> entered (<[w := w_goto x p]> ws).
Proof. intros H E Hp v y [(<- & <- & _)|[_ Ey]]%list_lookup_insert_Some; [done|by apply (H v)]. Qed.
Lemma untold_put ws w x p : untold ws -> ws !! w = Some x -> p = WDone \/ p <> WLeaves /\ w_stop x = false -> untold (<[w := w_goto x p]> ws).
Proof. intros H E Hp v y [(<- & <- & _)|[_ Ey]]%list_lookup_insert_Some; [done|by apply (H v)]. Qed.

(** A worker that is not at its end has a stub, which no one has joined. *)
Lemma live_phase s w x : inv s -> workers s !! w = Some x -> w_at x <> WDone ->
  exists rs, reactorvec (dat s) !! w_idx x = Some rs /\ thr rs = Some w /\ preactor rs = (if in_run (w_at x) then Some w else None) /\
    ~ joined (dat s) (length (reactorvec (dat s))) /\ status (dat s) <> StatusStoppedE.
Proof.
  intros Hi Ex Hd. destruct (t_worker _ _ (i_table _ Hi) w x Ex Hd) as (rs & Er & Et). exists rs. split; [done|]. split; [done|].
  pose proof (t_stub _ _ (i_table _ Hi) _ _ Er) as Hs. rewrite Et in Hs. destruct Hs as (y & Ey & _ & Ep). rewrite Ex in Ey. injection Ey as <-. split; [done|].
  assert (~ joined (dat s) (length (reactorvec (dat s)))) as Hnj by (intros Hj; pose proof (Hj _ _ (lookup_lt_Some _ _ _ Er) Er); congruence).
  split; [done|]. intros Hst. apply Hnj. pose proof (i_phase _ Hi) as Hph. unfold phase in Hph. rewrite Hst in Hph. by destruct (owners s) as [|[] []].
Qed.

Lemma vec_put_get {A : Type} (l : list A) i x : l !! i = Some x -> vec_get l (Z.of_nat i) = Done x /\ forall y, vec_set l (Z.of_nat i) y = Done (<[i := y]> l).
Proof.
  intros E. pose proof (lookup_lt_Some _ _ _ E). split; [apply vec_get_done; rewrite Nat2Z.id; auto with lia|]. intros y. rewrite vec_set_done by lia. by rewrite Nat2Z.id.
Qed.

Lemma prepare_inv s w x ok : inv s -> workers s !! w = Some x -> w_at x = WEnter -> exists s', prepareThread s w x ok = Done s' /\ inv s'.
Proof.
  intros Hi Ex Ha. destruct (live_phase s w x Hi Ex ltac:(by rewrite Ha)) as (rs & Er & Et & Ep & Hnj & Hns). rewrite Ha in Ep. cbn in Ep.
  destruct (vec_put_get _ _ _ Er) as [Eg Es]. unfold prepareThread. rewrite Eg. cbn [res_bind]. rewrite Es, Et. cbn [res_bind].
  pose proof (i_phase _ Hi) as Hph. pose proof (i_table _ Hi) as Ht. destruct s as [d cl ws]; cbn [dat clients workers] in *.
  destruct (ok && bool_decide (status d = StatusStartingWaitE)) eqn:Eok; (eexists; split; [reflexivity|]); unfold with_workers, with_dat; cbn [dat clients workers].
  - apply andb_prop in Eok as [_ Hst%bool_decide_eq_true_1]. set (d' := with_cnt _ _). assert (reactorvec d' = <[w_idx x := mkReactorStub (thr rs) (Some w)]> (reactorvec d)) as Ev by (rewrite Et; done).
    destruct (threads_put d d' _ _ _ Er Ev) as (El & Hsta & _). apply (inv_work (mkState d cl ws)); try done.
    + eapply (table_move d d' ws w x rs WRuns); try done; cbn; rewrite Ha; cbn; lia.
    + unfold phase in *. change (status d') with (status d). rewrite Hst in *. destruct (owners _) as [|[] []]; try done. destruct Hph as [Hs Hu]. split; [by apply Hsta|].
      apply untold_put; [done|done|]. right. split; [done|]. destruct (Hu w x Ex) as [|[_ ?]]; [congruence|done].
  - set (d' := with_status d StatusStartingErrorE). apply (inv_work (mkState d cl ws)); try done.
    + eapply (table_move d d' ws w x rs WDone); try done; cbn; [|rewrite Ha; cbn; lia]. symmetry. apply list_insert_id. destruct rs; cbn in *; by subst.
    + unfold phase in *. change (status d') with StatusStartingErrorE. destruct (owners _) as [|[] []], (status d); try done; try (exfalso; by apply Hnj); try (destruct Hph as [_ He]; destruct (He w x Ex Ha); done);
        try (destruct Hph as [_ [_ [He _]]]; destruct (He w x Ex Ha); done); destruct Hph as [H1 H2]; (split; [first [done|by apply told_put]|first [done|apply untold_put; auto]]).
    + intros E0. unfold phase in Hph. rewrite E0 in Hph. exfalso. destruct (status d); try done; [destruct Hph as (_ & _ & He & _)|destruct Hph as (_ & He)]; by apply (He w x Ex).
Qed.

Lemma leave_inv s w x : inv s -> workers s !! w = Some x -> w_at x = WLeaves -> exists s', unprepareThread s w x = Done s' /\ inv s'.
Proof.
  intros Hi Ex Ha. destruct (live_phase s w x Hi Ex ltac:(by rewrite Ha)) as (rs & Er & Et & Ep & Hnj & Hns).
  destruct (vec_put_get _ _ _ Er) as [Eg Es]. unfold unprepareThread. rewrite Eg. cbn [res_bind]. rewrite Es, Et. cbn [res_bind].
  pose proof (i_phase _ Hi) as Hph. pose proof (i_table _ Hi) as Ht. destruct s as [d cl ws]; cbn [dat clients workers] in *. eexists. split; [reflexivity|]. unfold with_workers, with_dat. cbn [dat clients workers].
  set (d' := with_cnt _ _). assert (reactorvec d' = <[w_idx x := mkReactorStub (thr rs) None]> (reactorvec d)) as Ev by (rewrite Et; done).
  destruct (threads_put d d' _ _ _ Er Ev) as (El & _ & Hj). apply (inv_work (mkState d cl ws)); try done.
  - eapply (table_move d d' ws w x rs WDone); try done; cbn; rewrite Ha; cbn; lia.
  - assert (untold ws -> False) as Hun by (intros Hu; destruct (Hu w x Ex) as [|[? _]]; congruence).
    unfold phase in *. rewrite El. change (status d') with (status d). destruct (owners _) as [|[] []], (status d); try done; try (exfalso; by apply Hnj); try (exfalso; by apply Hun, Hph);
      destruct Hph as [H1 H2]; (split; [by apply told_put|first [by apply Hj|by apply entered_put]]).
Qed.

Lemma run_inv s w x : inv s -> workers s !! w = Some x -> w_at x = WRuns -> w_stop x = true -> inv (with_workers s (<[w := w_goto x WLeaves]> (workers s))).
Proof.
  intros Hi Ex Ha Hst. destruct (live_phase s w x Hi Ex ltac:(by rewrite Ha)) as (rs & Er & Et & Ep & Hnj & Hns). rewrite Ha in Ep. cbn in Ep.
  pose proof (i_phase _ Hi) as Hph. destruct s as [d cl ws]; cbn [dat clients workers] in *. apply (inv_work (mkState d cl ws)); try done.
  - eapply (table_move d d ws w x rs WLeaves); try done; [apply Hi|symmetry; apply list_insert_id; destruct rs; cbn in *; by subst|rewrite Ha; cbn; lia].
  - assert (untold ws -> False) as Hun by (intros Hu; destruct (Hu w x Ex) as [|[_ ?]]; congruence).
    unfold phase in *. cbn [dat workers]. destruct (owners _) as [|[] []], (status d); try done; try (exfalso; by apply Hnj); try (exfalso; by apply Hun, Hph);
      destruct Hph as [H1 H2]; (split; [by apply told_put|first [done|by apply entered_put]]).
Qed.

Lemma worker_inv s w x ok : inv s -> workers s !! w = Some x -> exists s', worker_step s w x ok = Done s' /\ inv s'.
Proof.
  intros Hi Ex. unfold worker_step. destruct (w_at x) eqn:Ha.
  - by apply prepare_inv.
  - destruct (w_stop x && ok) eqn:Hs; eexists; (split; [reflexivity|]); [|done]. apply andb_true_iff in Hs as [Hs _]. by apply run_inv.
  - by apply leave_inv.
  - by exists s.
Qed.

(** ** The callers *)

Lemma table_same d d' ws : reactorvec d' = reactorvec d -> reactorcnt d' = reactorcnt d -> table d ws -> table d' ws.
Proof. intros E1 E2 [H1 H2 H3]. split; rewrite ?E1, ?E2; done. Qed.

(** The owner of a stage *)
Lemma phase_stopped s : inv s -> status (dat s) = StatusStoppedE -> owners s = [] /\ joined (dat s) (length (reactorvec (dat s))).
Proof. intros Hi E. pose proof (i_phase _ Hi) as Hp. unfold phase in Hp. rewrite E in Hp. by destruct (owners s) as [|[] []]. Qed.

(** Nobody who has seen the scheduler run is hurt when the seen callers are gone. *)
Lemma unseen_ok (l : list pc) (P : Prop) : (forall u r, l !! u = Some r -> seen r = false) -> forall u r, l !! u = Some r -> seen r = true -> P.
Proof. intros H u r E Hs. rewrite (H u r E) in Hs. done. Qed.

Lemma start_stopped_inv s t p n c : inv s -> clients s !! t = Some p -> (p = InStart n \/ p = StartSleeps n) -> stopped (dat s) = true -> (n <= c)%nat ->
  exists s', doStart_stopped s t n c = Done s' /\ inv s'.
Proof.
  intros Hi E Hp [Hst%bool_decide_eq_true_1 Hw%Z.eqb_eq]%andb_prop Hn. destruct (phase_stopped s Hi Hst) as [Eo Hj].
  destruct (joined_new _ _ (i_table _ Hi) Hj) as (Ev & Hd & H0). unfold doStart_stopped. rewrite Ev, resize_new. cbn [res_bind]. rewrite Nat.min_r by done.
  destruct (create_table (dat s) (workers s) n Hd H0) as (v & ws' & -> & El & Ht & Hs & Hu). cbn [res_bind]. rewrite (proj2 (Nat.leb_le n c) Hn). eexists. split; [reflexivity|].
  assert (1 <= n)%nat as Hn1 by (pose proof (i_pc _ Hi t p E) as Hpc; destruct Hp as [->| ->]; exact Hpc).
  assert (forall u r, clients s !! u = Some r -> seen r = false) as Hun by (apply unseen; auto).
  eapply (inv_move s t p StartWaits _ _ [StartWaits]); try done.
  - apply (owners_in s t p); try done. by destruct Hp as [->| ->].
  - by eapply table_same, Ht.
  - cbn. destruct Hp as [->| ->]; cbn; lia.
  - cbn. destruct Hp as [->| ->]; cbn; lia.
  - eapply unseen_ok. by apply unseen_put.
  - intros _. cbn. lia.
  - by right.
Qed.

Lemma start_waits_inv s t : inv s -> clients s !! t = Some StartWaits -> exists s', doStart_waits s t = Done s' /\ inv s'.
Proof.
  intros Hi E. destruct (owners_mine s t StartWaits Hi E eq_refl) as [Eo Eq]. pose proof (i_phase _ Hi) as Hp. rewrite Eo in Hp. pose proof (i_table _ Hi) as Ht.
  assert (forall u r, clients s !! u = Some r -> seen r = false) as Hun by (apply unseen; [done|]; right; left; by exists StartWaits).
  unfold doStart_waits. destruct (bool_decide (status (dat s) = StatusStartingWaitE) && negb (reactorcnt (dat s) =? Z.of_nat (length (reactorvec (dat s))))) eqn:Ec; [by exists s|].
  destruct (decide (status (dat s) = StatusStartingErrorE)) as [He|He]; [rewrite (bool_decide_eq_true_2 _ He)|rewrite (bool_decide_eq_false_2 _ He)].
  - destruct (stop_table _ _ Ht) as (ws' & -> & Ht' & Htold & _). cbn [res_bind]. eexists. split; [reflexivity|].
    eapply (inv_move s t StartWaits (Joins 0) _ _ [Joins 0]); try done; try (cbn; lia); try (by left).
    + by eapply table_same, Ht'.
    + cbn. split; [done|]. intros i rs Hi0. lia.
    + eapply unseen_ok. by apply unseen_put.
    + intros _. apply (i_len _ Hi). congruence.
  - assert (status (dat s) = StatusStartingWaitE) as Hst by (unfold phase in Hp; by destruct (status (dat s))).
    assert (reactorcnt (dat s) = Z.of_nat (length (reactorvec (dat s)))) as Hcnt by (rewrite bool_decide_eq_true_2 in Ec by done; cbn in Ec; lia).
    unfold phase in Hp. rewrite Hst in Hp. destruct Hp as [Hs Hu]. eexists. split; [reflexivity|].
    eapply (inv_move s t StartWaits Idle _ _ []); try done; try (cbn; lia); try (by left).
    + by eapply table_same, Ht.
    + cbn. split_and!; try done. intros w x Ex Ha. destruct (live_phase s w x Hi Ex ltac:(by rewrite Ha)) as (rs & Er & Et & Epr & _). rewrite Ha in Epr. cbn in Epr.
      rewrite (t_cnt _ _ Ht) in Hcnt. pose proof (proj2 (size_all has_reactor (reactorvec (dat s))) Hcnt _ _ Er) as Hr. unfold has_reactor in Hr. rewrite Epr in Hr. by apply bool_decide_eq_true_1 in Hr as [? ?].
    + intros _. apply (i_len _ Hi). congruence.
Qed.

(** A stop changes the status, and tells the reactors. *)
Lemma stop_inv s t p (wait : bool) ws' : inv s -> clients s !! t = Some p -> (p = InStop wait \/ p = StopSleeps wait) -> owners s = [] -> status (dat s) <> StatusStoppedE ->
  table (dat s) ws' -> told ws' -> entered ws' ->
  inv (mkState (with_status (dat s) (if wait then StatusStoppingWaitE else StatusStoppingE)) (<[t := if wait then StopUsers else Idle]> (clients s)) ws').
Proof.
  intros Hi E Hp Eo Hst Ht Htold He. assert (owner p = false /\ uses p = false /\ counted p = false) as (P1 & P2 & P3) by (by destruct Hp as [->| ->]).
  eapply (inv_move s t p _ _ _ (if wait then [StopUsers] else [])); try done; rewrite ?P2, ?P3; try (destruct wait; cbn; lia); try (by left).
  - destruct wait; [by apply (owners_in s t p)|]. rewrite <- Eo. by apply (owners_other s t p).
  - by eapply table_same, Ht.
  - by destruct wait.
  - intros u r _ _. destruct wait; [by right|left]. by split.
  - intros _. by apply (i_len _ Hi).
Qed.

Lemma stop_enter_inv s t p wait : inv s -> clients s !! t = Some p -> (p = InStop wait \/ p = StopSleeps wait) -> exists s', doStop_enter s t wait = Done s' /\ inv s'.
Proof.
  intros Hi E Hp. assert (owner p = false /\ uses p = false /\ counted p = false) as (P1 & P2 & P3) by (by destruct Hp as [->| ->]).
  assert (forall q, owner q = false -> uses q = false -> counted q = false -> seen q = false -> pc_ok (length (reactorvec (dat s))) q -> inv (goto s t q)) as Hgo.
  { intros q H1 H2 H3 H4 H5. apply (inv_other s t p q); try done; rewrite ?P2, ?P3, ?H2, ?H3, ?H4; cbn; try lia. }
  pose proof (i_phase _ Hi) as Hph. pose proof (i_table _ Hi) as Ht. unfold doStop_enter. unfold phase in Hph. destruct (status (dat s)) eqn:Hst.
  - eexists. split; [reflexivity|]. by apply Hgo.
  - eexists. split; [reflexivity|]. by apply Hgo.
  - eexists. split; [reflexivity|]. by apply Hgo.
  - destruct (owners s) as [|[] []] eqn:Eo; try done. destruct Hph as (_ & _ & He & _). destruct (stop_table _ _ Ht) as (ws' & -> & Ht' & Htold & He').
    cbn [res_bind]. eexists. split; [reflexivity|]. apply (stop_inv s t p); try done; [congruence|by apply He'].
  - destruct (owners s) as [|[] []] eqn:Eo; try done. destruct Hph as [Htold He]. eexists. split; [reflexivity|]. apply (stop_inv s t p); try done. congruence.
  - destruct wait; eexists; (split; [reflexivity|]); [|by apply Hgo].
    apply (inv_other s t p); try done; rewrite ?P2, ?P3; cbn; try lia; done.
Qed.

(** *** Joining *)

Lemma table_join d ws k rs w x : table d ws -> reactorvec d !! k = Some rs -> thr rs = Some w -> ws !! w = Some x -> w_at x = WDone ->
  table (with_vec d (<[k := ReactorStub_new]> (reactorvec d))) ws.
Proof.
  intros [H1 H2 H3] Er Et Ex Ha. split; cbn [reactorvec with_vec reactorcnt].
  - intros i y [(<- & <- & _)|[_ Ey]]%list_lookup_insert_Some; [done|by apply H1].
  - intros v z Ez Hz. destruct (H2 v z Ez Hz) as (y & Ey & Ety). exists y. split; [|done]. rewrite list_lookup_insert_ne; [done|]. intros ->. simplify_eq.
  - rewrite H3, (size_put _ _ _ _ _ Er). specialize (H1 _ _ Er). rewrite Et in H1. destruct H1 as (x' & Ex' & _ & Ep). simplify_eq. rewrite Ha in Ep. cbn in Ep.
    unfold has_reactor. rewrite Ep. cbn. lia.
Qed.

Lemma join_inv s t k : inv s -> clients s !! t = Some (Joins k) -> exists s', join s t k = Done s' /\ inv s'.
Proof.
  intros Hi E. destruct (owners_mine s t (Joins k) Hi E eq_refl) as [Eo Eq]. pose proof (i_phase _ Hi) as Hp. rewrite Eo in Hp. pose proof (i_table _ Hi) as Ht.
  assert (forall u r, clients s !! u = Some r -> seen r = false) as Hun by (apply unseen; [done|]; right; left; by exists (Joins k)).
  assert (forall q d', owner q = true -> uses q = false -> counted q = false -> seen q = false -> (forall len, pc_ok len q) -> table d' (workers s) -> status d' = status (dat s) ->
    usecnt d' = usecnt (dat s) -> stopwaitcnt d' = stopwaitcnt (dat s) -> length (reactorvec d') = length (reactorvec (dat s)) -> phase d' (workers s) [q] -> inv (mkState d' (<[t := q]> (clients s)) (workers s))) as Hgo.
  { intros q d' H1 H2 H3 H4 H5 H6 H7 H8 H9 H10 H11. eapply (inv_move s t (Joins k) q _ _ [q]); try done; rewrite ?Eq, ?H1, ?H2, ?H3; cbn; try lia; try done.
    - eapply unseen_ok. by apply unseen_put.
    - unfold some_reactor. rewrite H7, H10. apply (i_len _ Hi). }
  assert (told (workers s) /\ joined (dat s) k) as [Htold Hj] by (unfold phase in Hp; by destruct (status (dat s))).
  assert (forall d' q, status d' = status (dat s) -> match q with Joins k => told (workers s) /\ joined d' k | Closes => joined d' (length (reactorvec d')) | _ => False end -> phase d' (workers s) [q]) as Hph.
  { intros d' q H1 H2. unfold phase in *. rewrite H1. destruct q; try done; by destruct (status (dat s)). }
  unfold join. destruct (reactorvec (dat s) !! k) as [rs|] eqn:Er.
  - pose proof (t_stub _ _ Ht _ _ Er) as Hs. destruct (thr rs) as [w|] eqn:Et.
    + destruct Hs as (x & Ex & _ & _). rewrite Ex. cbn [of_option res_bind]. destruct (w_at x) eqn:Ha; try (by exists s). eexists. split; [reflexivity|].
      apply Hgo; try done; [by apply (table_join _ _ _ rs w x)|cbn; by rewrite length_insert|]. apply Hph; [done|]. split; [done|].
      intros i y Hik. cbn. intros [(<- & <- & _)|[Hne Ey]]%list_lookup_insert_Some; [done|]. apply (Hj i); [lia|done].
    + eexists. split; [reflexivity|]. apply Hgo; try done. apply Hph; [done|]. split; [done|]. intros i y Hik Ey. destruct (decide (i = k)) as [->|]; [congruence|]. apply (Hj i); [lia|done].
  - eexists. split; [reflexivity|]. apply Hgo; try done. apply Hph; [done|]. intros i y Hik Ey. apply (Hj i); [|done]. apply lookup_ge_None in Er. lia.
Qed.

Lemma close_inv s t : inv s -> clients s !! t = Some Closes -> inv (goto (with_dat s (with_status (dat s) StatusStoppedE)) t Idle).
Proof.
  intros Hi E. destruct (owners_mine s t Closes Hi E eq_refl) as [Eo Eq]. pose proof (i_phase _ Hi) as Hp. rewrite Eo in Hp.
  assert (forall u r, clients s !! u = Some r -> seen r = false) as Hun by (apply unseen; [done|]; right; left; by exists Closes).
  eapply (inv_move s t Closes Idle _ _ []); try done; try (cbn; lia).
  - eapply table_same, (i_table _ Hi); done.
  - unfold phase in *. cbn. by destruct (status (dat s)).
  - eapply unseen_ok. by apply unseen_put.
  - by intros H; destruct H.
Qed.

Lemma users_gone_inv s t : inv s -> clients s !! t = Some StopUsers -> usecnt (dat s) = 0 -> inv (goto s t (Joins 0)).
Proof.
  intros Hi E H0. destruct (owners_mine s t StopUsers Hi E eq_refl) as [Eo Eq]. pose proof (i_phase _ Hi) as Hp. rewrite Eo in Hp.
  assert (forall u r, clients s !! u = Some r -> seen r = false) as Hun by (apply unseen; auto).
  eapply (inv_move s t StopUsers (Joins 0) _ _ [Joins 0]); try done; try (cbn; lia); try apply Hi.
  - unfold phase in *. destruct (status (dat s)); try done. destruct Hp as [? _]. split; [done|]. intros i rs Hi0. lia.
  - eapply unseen_ok. by apply unseen_put.
Qed.

(** *** Using a reactor *)

Lemma loads_length load l : forall r, loads load l = Done r -> length r = length l.
Proof.
  induction l as [|rs l IH]; intros r; cbn [loads]; [by intros [= <-]|]. unfold reactor_load. destruct (preactor rs); [|done]. cbn [of_option res_bind].
  destruct (loads load l) as [r'| |]; [|done|done]. cbn [res_bind]. intros [= <-]. cbn. f_equal. by apply IH.
Qed.

Lemma find_least l n : (1 <= n <= length l)%nat -> exists i x, find_cmp Z.ltb n l 0 n = Some i /\ (i < n)%nat /\ l !! i = Some x /\ forall j y, (j < n)%nat -> l !! j = Some y -> x <= y.
Proof.
  intros Hn. destruct (find_cmp_spec Z.ltb Z.le ltac:(lia) ltac:(lia) ltac:(lia) ltac:(lia) n l 0 n) as (i & x & H); [lia|lia|lia|]. by exists i, x.
Qed.

Lemma compute_core d load d' i : doComputeScheduleReactorIndex d load = Done (d', i) ->
  same_core d d' /\ usecnt d' = usecnt d /\ stopwaitcnt d' = stopwaitcnt d /\ ((length (reactorvec d) <= 8)%nat -> 0 <= i < Z.of_nat (length (reactorvec d))).
Proof.
  unfold doComputeScheduleReactorIndex. destruct (Nat.eqb_spec (length (reactorvec d)) 1) as [E1|E1]; [intros [= <- <-]; split_and!; done || lia|].
  destruct ((2 <=? length (reactorvec d))%nat && (length (reactorvec d) <=? 8)%nat) eqn:E8.
  - apply andb_prop in E8 as [A%Nat.leb_le B%Nat.leb_le]. destruct (loads load (reactorvec d)) as [l| |] eqn:El; [|done|done]. cbn [res_bind]. apply loads_length in El.
    destruct (find_least l (length (reactorvec d))) as (j & x & -> & Hj & _); [lia|]. cbn [of_option res_bind]. intros [= <- <-]. split_and!; try done. lia.
  - destruct (Nat.eqb_spec (length (reactorvec d)) 0) as [|E0]; [done|]. intros [= <- <-]. split_and!; try done. intros Hl.
    apply andb_false_iff in E8 as [E8|E8]; apply Nat.leb_gt in E8; lia.
Qed.

End SchedulerProofs.
