(* ===== verification/SchedulerLife.v ===== *)
(** * The life of a scheduler

    What any number of callers of Scheduler.v can rely on, and runs in which they cannot. *)

From stdpp Require Import list relations.
From S2P Require Import Prelude Search Scheduler SchedulerProofs.
Import Search Scheduler SchedulerProofs.
#[local] Open Scope res_scope.
#[local] Open Scope Z_scope.

Module SchedulerLife.

(** What the callers respect: a scheduler is started with one reactor or more; and threads can be
    created. *)
Definition allowed (s : State) (a : action) : Prop :=
  match a with
  | CallStart _ n => (1 <= n)%nat
  | Go t c _ => forall n, clients s !! t = Some (InStart n) \/ clients s !! t = Some (StartSleeps n) -> (n <= c)%nat
  | _ => True
  end.

Definition step (s s' : State) : Prop := exists a, allowed s a /\ act s a = Done s'.

Definition reachable (n : nat) (s : State) : Prop := rtc step (start n) s.

(** ** Every step *)

Lemma call_inv s t p d' : inv s -> owner p = false -> counted p = false -> seen p = false -> pc_ok (length (reactorvec (dat s))) p -> same_core (dat s) d' ->
  usecnt d' = usecnt (dat s) + Z.b2z (uses p) -> stopwaitcnt d' = stopwaitcnt (dat s) -> exists s', call s t p d' = Done s' /\ inv s'.
Proof.
  intros Hi H1 H2 H3 H4 Hc H5 H6. unfold call. destruct (clients s !! t) as [[]|] eqn:E; try (by exists s). eexists. split; [reflexivity|].
  apply (inv_other s t Idle p); try done; rewrite ?H2, ?H3; cbn; lia.
Qed.

Lemma use_inv s t p q d' : inv s -> clients s !! t = Some p -> uses p = true -> uses q = true -> (seen q = true -> seen p = true \/ status (dat s) = StatusRunningE) ->
  pc_ok (length (reactorvec (dat s))) q -> same_core (dat s) d' -> usecnt d' = usecnt (dat s) -> stopwaitcnt d' = stopwaitcnt (dat s) ->
  inv (goto (with_dat s d') t q).
Proof.
  intros Hi E Hp Hq Hs Hpc Hc Hu Hw. apply (inv_other s t p q d' Hi E); [by destruct p|by destruct q|done| | |done|done].
  - rewrite Hu, Hp, Hq. cbn. lia.
  - rewrite Hw. destruct p, q; try done; cbn; lia.
Qed.

Lemma loads_total load l : loads load l <> NoFuel.
Proof.
  induction l as [|rs l IH]; [done|]. cbn. apply res_bind_total; [unfold reactor_load; by destruct (preactor rs)|]. intros x _. by apply res_bind_total.
Qed.

Lemma compute_total d load : doComputeScheduleReactorIndex d load <> NoFuel.
Proof.
  unfold doComputeScheduleReactorIndex. destruct (_ =? 1)%nat; [done|]. destruct (_ && _); [|by destruct (_ =? 0)%nat].
  apply res_bind_total; [apply loads_total|]. intros l _. by apply res_bind_total; [apply of_option_total|].
Qed.

(** A caller that saw the scheduler running is the only one that can meet something undefined. *)
Lemma client_inv s t p c load : inv s -> clients s !! t = Some p -> (forall n, p = InStart n \/ p = StartSleeps n -> (n <= c)%nat) ->
  match client_step s t p c load with Done s' => inv s' | Undef => seen p = true | NoFuel => False end.
Proof.
  intros Hi E Hn. destruct p as [ |n|n| |w|w| | |k| | | |i| ]; cbn [client_step].
  - done.
  - unfold doStart_enter. destruct (decide (status (dat s) = StatusRunningE)) as [Hr|Hr]; [rewrite bool_decide_eq_true_2 by done|rewrite bool_decide_eq_false_2 by done].
    + apply (inv_other s t (InStart n) Idle); try done; cbn; lia.
    + destruct (stopped (dat s)) eqn:Hs.
      * destruct (start_stopped_inv s t (InStart n) n c) as (s' & -> & Hi'); auto.
      * apply (inv_other s t (InStart n) (StartSleeps n)); try done; try (cbn; lia). apply (i_pc _ Hi t _ E).
  - unfold doStart_sleeps. destruct (stopped (dat s)) eqn:Hs; [|done]. destruct (start_stopped_inv s t (StartSleeps n) n c) as (s' & -> & Hi'); auto.
  - by destruct (start_waits_inv s t Hi E) as (s' & -> & Hi').
  - destruct (stop_enter_inv s t (InStop w) w) as (s' & -> & Hi'); auto.
  - destruct (starting (dat s)); [done|]. destruct (stop_enter_inv s t (StopSleeps w) w) as (s' & -> & Hi'); auto.
  - case_bool_decide; [|done]. apply (inv_other s t StopCounted Idle); try done; cbn; lia.
  - destruct (Z.eqb_spec (usecnt (dat s)) 0); [|done]. by apply users_gone_inv.
  - by destruct (join_inv s t k Hi E) as (s' & -> & Hi').
  - by apply close_inv.
  - case_bool_decide; apply (use_inv s t UseIn _ (dat s)); auto; done.
  - destruct (doComputeScheduleReactorIndex (dat s) load) as [[d' i]| |] eqn:Ec; cbn [res_bind]; [|done|].
    + destruct (compute_core _ _ _ _ Ec) as (Hc & Hu & Hw & Hr). apply (use_inv s t UseRuns (UseAt i)); auto.
    + by destruct (compute_total (dat s) load).
  - unfold vec_get. case_decide; [|done]. destruct (reactorvec (dat s) !! Z.to_nat i) as [rs|]; [|done]. cbn [of_option res_bind].
    destruct (preactor rs); [|done]. cbn [of_option res_bind]. apply (use_inv s t (UseAt i) UseOut (dat s)); auto; done.
  - apply (inv_other s t UseOut Idle); try done; cbn; lia.
Qed.

Lemma act_inv s a : inv s -> allowed s a ->
  match act s a with Done s' => inv s' | Undef => exists t c load p, a = Go t c load /\ clients s !! t = Some p /\ seen p = true | NoFuel => False end.
Proof.
  intros Hi Ha. destruct a as [t n|t w|t|t c load|w ok]; cbn [act allowed] in *.
  - destruct (call_inv s t (InStart n) (dat s)) as (s' & -> & Hi'); try done; cbn; lia.
  - destruct (call_inv s t (InStop w) (dat s)) as (s' & -> & Hi'); try done; cbn; lia.
  - by destruct (call_inv s t UseIn (with_use (dat s) (usecnt (dat s) + 1))) as (s' & -> & Hi').
  - destruct (clients s !! t) as [p|] eqn:E; [|done]. pose proof (client_inv s t p c load Hi E) as H.
    destruct (client_step s t p c load) as [s'| |]; [apply H|exists t, c, load, p; split; [done|]; split; [done|]; apply H|apply H]; intros n [->| ->]; apply Ha; auto.
  - destruct (workers s !! w) as [x|] eqn:E; [|done]. by destruct (worker_inv s w x ok Hi E) as (s' & -> & Hi').
Qed.

Lemma step_inv s s' : inv s -> step s s' -> inv s'.
Proof. intros Hi (a & Ha & E). pose proof (act_inv s a Hi Ha) as H. by rewrite E in H. Qed.

Lemma sched_reachable_inv n s : reachable n s -> inv s.
Proof. intros Hr. unfold reachable in Hr. pose proof (sched_inv_start n) as H0. induction Hr as [|s s1 s2 Hs _ IH]; [done|]. apply IH. by apply (step_inv s). Qed.

(** ** Running *)

Lemma running_ready s : inv s -> status (dat s) = StatusRunningE -> (1 <= length (reactorvec (dat s)))%nat /\
  forall i rs, reactorvec (dat s) !! i = Some rs -> exists w x, preactor rs = Some w /\ workers s !! w = Some x /\ w_idx x = i /\ w_at x = WRuns /\ w_stop x = false.
Proof.
  intros Hi Hst. split; [apply (i_len _ Hi); congruence|]. intros i rs Er. pose proof (i_phase _ Hi) as Hp. unfold phase in Hp. rewrite Hst in Hp.
  destruct (owners s) as [|[] []]; try done. destruct Hp as (_ & Hu & He & Hc). rewrite (t_cnt _ _ (i_table _ Hi)) in Hc.
  pose proof (proj2 (size_all _ _) Hc i rs Er) as Hr. unfold has_reactor in Hr. apply bool_decide_eq_true_1 in Hr as [w Ew].
  pose proof (t_stub _ _ (i_table _ Hi) i rs Er) as Hs. destruct (thr rs) as [v|]; [|congruence]. destruct Hs as (x & Ex & Ei & Ep). rewrite Ew in Ep.
  destruct (in_run (w_at x)) eqn:Hr; [|done]. injection Ep as ->. exists v, x. split_and!; try done; destruct (Hu v x Ex) as [Hd|[Hl Hst']]; rewrite ?Hd in *; try done.
  by destruct (w_at x).
Qed.

Lemma loads_ready load l : (forall i rs, l !! i = Some rs -> is_Some (preactor rs)) -> exists r, loads load l = Done r /\ length r = length l /\
  forall i x, r !! i = Some x -> exists rs w, l !! i = Some rs /\ preactor rs = Some w /\ x = load w.
Proof.
  induction l as [|rs l IH]; intros Hl; [by exists []|]. destruct (Hl 0%nat rs eq_refl) as [w Ew]. destruct IH as (r & E & El & Hr); [intros i; apply (Hl (S i))|].
  exists (load w :: r). cbn [loads]. unfold reactor_load. rewrite Ew. cbn [of_option res_bind]. rewrite E. cbn [res_bind]. split; [done|]. split; [cbn; by rewrite El|].
  intros [|i] x Ex; [|by apply Hr]. exists rs, w. cbn in *. split_and!; congruence.
Qed.

(** The reactor of a new object: with up to 8 of them, one with the least load *)
Lemma compute_ready s load : inv s -> status (dat s) = StatusRunningE -> (length (reactorvec (dat s)) <= 8)%nat ->
  exists i rs w, doComputeScheduleReactorIndex (dat s) load = Done (dat s, Z.of_nat i) /\ reactorvec (dat s) !! i = Some rs /\ preactor rs = Some w /\
    forall j rs' w', reactorvec (dat s) !! j = Some rs' -> preactor rs' = Some w' -> load w <= load w'.
Proof.
  intros Hi Hst H8. destruct (running_ready s Hi Hst) as [H1 Hr]. unfold doComputeScheduleReactorIndex.
  destruct (Nat.eqb_spec (length (reactorvec (dat s))) 1) as [E1|E1].
  - destruct (reactorvec (dat s)) as [|rs [|? ?]]; try done. destruct (Hr 0%nat rs eq_refl) as (w & x & Ew & _). exists 0%nat, rs, w. split_and!; try done.
    intros [|j] rs' w' Ej Ew'; [|done]. cbn in Ej. simplify_eq. lia.
  - rewrite (proj2 (Nat.leb_le _ _)), (proj2 (Nat.leb_le _ _)) by lia. cbn [andb].
    destruct (loads_ready load (reactorvec (dat s))) as (l & -> & El & Hl). { intros i rs Er. destruct (Hr i rs Er) as (w & _ & Ew & _). by exists w. }
    cbn [res_bind]. destruct (find_least l (length (reactorvec (dat s)))) as (i & x & -> & Hin & Ex & Hmin); [lia|]. cbn [of_option res_bind].
    destruct (Hl i x Ex) as (rs & w & Er & Ew & ->). exists i, rs, w. split_and!; try done. intros j rs' w' Ej Ew'. pose proof (lookup_lt_Some _ _ _ Ej) as Hj.
    destruct (lookup_lt_is_Some_2 l j) as [y Ey]; [lia|]. destruct (Hl j y Ey) as (rs2 & w2 & Er2 & Ew2 & ->). simplify_eq. apply (Hmin j); [lia|done].
Qed.

(** As long as the scheduler runs, its users meet nothing undefined. *)
Lemma use_ready s t p c load : inv s -> clients s !! t = Some p -> seen p = true -> status (dat s) = StatusRunningE -> (length (reactorvec (dat s)) <= 8)%nat ->
  exists s', client_step s t p c load = Done s'.
Proof.
  intros Hi E Hp Hst H8. destruct p; try done; cbn [client_step].
  - destruct (compute_ready s load Hi Hst H8) as (i & rs & w & -> & _). by eexists.
  - pose proof (i_pc _ Hi t _ E H8) as Hr. destruct (vec_get_in _ _ Hr) as (rs & -> & Er). cbn [res_bind].
    destruct (running_ready s Hi Hst) as [_ Hready]. destruct (Hready _ _ Er) as (w & x & -> & _). by eexists.
Qed.

(** ** What callers can rely on *)

(** C5: Whatever any number of threads do with a scheduler whose threads can be created, starting
    and stopping it as often as they want: at most one of them goes through starting or stopping,
    no thread is joined twice, overwritten or forgotten, and every step is defined - but those of
    a [doStartObject] that overlaps a stop, or with more than 8 reactors. *)
Theorem scheduler_safe n s a : reachable n s -> allowed s a -> (length (owners s) <= 1)%nat /\
  ((exists s', act s a = Done s' /\ inv s') \/
   exists t c load p, a = Go t c load /\ clients s !! t = Some p /\ seen p = true /\ (status (dat s) <> StatusRunningE \/ (8 < length (reactorvec (dat s)))%nat)).
Proof.
  intros Hr Ha. pose proof (sched_reachable_inv n s Hr) as Hi. split; [by eapply phase_one, i_phase|]. pose proof (act_inv s a Hi Ha) as H.
  destruct (act s a) as [s'| |] eqn:E; [left; by exists s'| |done]. right. destruct H as (t & c & load & p & -> & Ep & Hp). exists t, c, load, p. split_and!; try done.
  destruct (decide (status (dat s) = StatusRunningE)) as [Hst|]; [right|by left]. destruct (decide (8 < length (reactorvec (dat s)))%nat) as [|H8]; [done|].
  destruct (use_ready s t p c load Hi Ep Hp Hst ltac:(lia)) as (s' & E'). cbn [act] in E. rewrite Ep, E' in E. done.
Qed.

(** C20: When [doStart] has reported success and until it is stopped, every reactor of a scheduler
    is there and in its loop; with up to 8 reactors a new object gets one with the least load. *)
Theorem scheduler_ready n s load : reachable n s -> status (dat s) = StatusRunningE ->
  (forall i rs, reactorvec (dat s) !! i = Some rs -> exists w x, preactor rs = Some w /\ workers s !! w = Some x /\ w_idx x = i /\ w_at x = WRuns /\ w_stop x = false) /\
  ((length (reactorvec (dat s)) <= 8)%nat -> exists i rs w, doComputeScheduleReactorIndex (dat s) load = Done (dat s, Z.of_nat i) /\
    reactorvec (dat s) !! i = Some rs /\ preactor rs = Some w /\
    forall j rs' w', reactorvec (dat s) !! j = Some rs' -> preactor rs' = Some w' -> load w <= load w').
Proof.
  intros Hr Hst. pose proof (sched_reachable_inv n s Hr) as Hi. split; [by apply running_ready|]. by apply compute_ready.
Qed.

(** One step of a worker; [ok]: its reactor and thread could start, or its reactor is left empty *)
Definition work (s : State) (w : nat) (ok : bool) : State := match act s (Work w ok) with Done s => s | _ => s end.

Lemma work_one s w x b : inv s -> workers s !! w = Some x -> (w_at x = WEnter -> status (dat s) <> StatusStartingWaitE) -> (w_at x = WRuns -> w_stop x = true /\ b = true) ->
  inv (work s w b) /\ exists x', workers (work s w b) !! w = Some x' /\ w_at x' = match w_at x with WRuns => WLeaves | _ => WDone end.
Proof.
  intros Hi Ex He Hs. pose proof (lookup_lt_Some _ _ _ Ex) as Hw. unfold work. cbn [act]. rewrite Ex. destruct (worker_inv s w x b Hi Ex) as (s' & E & Hi'). rewrite E. split; [done|].
  unfold worker_step in E. destruct (w_at x) eqn:Ha.
  - unfold prepareThread in E. destruct (vec_get _ _) as [rrs| |]; try done. cbn [res_bind] in E. rewrite bool_decide_eq_false_2, andb_false_r in E by auto.
    injection E as <-. exists (w_goto x WDone). cbn. by rewrite list_lookup_insert_eq.
  - destruct (Hs eq_refl) as [Hst ->]. rewrite Hst in E. injection E as <-. exists (w_goto x WLeaves). cbn. by rewrite list_lookup_insert_eq.
  - unfold unprepareThread in E. destruct (vec_get _ _) as [rrs| |]; try done. cbn [res_bind] in E. destruct (vec_set _ _ _) as [v| |]; try done. cbn [res_bind] in E.
    injection E as <-. exists (w_goto x WDone). cbn. by rewrite list_lookup_insert_eq.
  - injection E as <-. by exists x.
Qed.


(** ** Runs *)

Fixpoint run (s : State) (l : list action) : res State :=
  match l with
  | [] => Done s
  | a :: l => let! s := act s a in run s l
  end.

Fixpoint all_allowed (s : State) (l : list action) : Prop :=
  match l with
  | [] => True
  | a :: l => allowed s a /\ match act s a with Done s => all_allowed s l | _ => True end
  end.

Lemma run_rtc l : forall s s', all_allowed s l -> run s l = Done s' -> rtc step s s'.
Proof.
  induction l as [|a l IH]; intros s s'; cbn [all_allowed run]; [by intros _ [= ->]|]. intros [Hp Ha]. destruct (act s a) as [s1| |] eqn:E; [|done|done]. cbn [res_bind].
  intros Hr. eapply rtc_l; [by exists a|]. by apply IH.
Qed.

Definition result (r : res State) : State := match r with Done s => s | _ => start 0 end.

Definition go (t : nat) : action := Go t 100 (fun _ => 0).

(** Two reactors are started. *)
Definition two_up : list action := [CallStart 0 2; go 0; Work 0 true; Work 1 true; go 0].
Definition s_up : State := result (run (start 2) two_up).

Ltac allow := repeat first [exact I | split | lia | (intros ? [?|?]; simplify_eq/=; lia) | (intros ? [?|?]; simplify_eq/=; done)].

Lemma s_up_reachable : reachable 2 s_up.
Proof. apply (run_rtc two_up); [cbn; allow|vm_compute; reflexivity]. Qed.

(** Thread 0 stops them, waits and joins the first. *)
Definition stopping : list action := [CallStop 0 true; go 0; go 0].
Definition s_join : State := result (run s_up stopping).

Lemma s_join_reachable : reachable 2 s_join.
Proof. unfold reachable. transitivity s_up; [exact s_up_reachable|]. apply (run_rtc stopping); [cbn; allow|vm_compute; reflexivity]. Qed.

Lemma scheduler_safe_witness : (length (owners s_join) <= 1)%nat /\
  ((exists s', act s_join (Work 0 true) = Done s' /\ inv s') \/
   exists t c load p, Work 0 true = Go t c load /\ clients s_join !! t = Some p /\ seen p = true /\ (status (dat s_join) <> StatusRunningE \/ (8 < length (reactorvec (dat s_join)))%nat)).
Proof. apply (scheduler_safe 2 s_join (Work 0 true)); [exact s_join_reachable|exact I]. Defined.

Lemma scheduler_ready_witness :
  (forall i rs, reactorvec (dat s_up) !! i = Some rs -> exists w x, preactor rs = Some w /\ workers s_up !! w = Some x /\ w_idx x = i /\ w_at x = WRuns /\ w_stop x = false) /\
  ((length (reactorvec (dat s_up)) <= 8)%nat -> exists i rs w, doComputeScheduleReactorIndex (dat s_up) (fun w => if (w =? 0)%nat then 7 else 3) = Done (dat s_up, Z.of_nat i) /\
    reactorvec (dat s_up) !! i = Some rs /\ preactor rs = Some w /\
    forall j rs' w', reactorvec (dat s_up) !! j = Some rs' -> preactor rs' = Some w' -> (if (w =? 0)%nat then 7 else 3) <= (if (w' =? 0)%nat then 7 else 3)).
Proof. apply (scheduler_ready 2 s_up (fun w => if (w =? 0)%nat then 7 else 3)); [exact s_up_reachable|vm_compute; reflexivity]. Defined.


(** ** What goes wrong *)

(** Thread 1 starts an object while thread 0 stops the scheduler. *)
Definition use_and_stop : list action :=
  [CallStart 0 1; go 0; Work 0 true; go 0; CallStartObject 1; go 1; go 1; CallStop 0 true; go 0; Work 0 true; Work 0 true].

(** [doStop] waits for [usecnt] before it joins the threads, but a reactor that is told to stop
    removes itself from its stub before: a [doStartObject] that has seen the scheduler running
    uses a null pointer. *)
Theorem start_object_null : exists s, reachable 2 s /\ clients s !! 1%nat = Some (UseAt 0) /\ act s (go 1) = Undef.
Proof.
  exists (result (run (start 2) use_and_stop)). split; [|by vm_compute]. apply (run_rtc use_and_stop); [cbn; allow|vm_compute; reflexivity].
Qed.

(** An object is started by thread 1. *)
Definition use_once : list action := [CallStartObject 1; go 1; go 1; go 1; go 1].
Definition start_n (n w : nat) : list action := [CallStart 0 n; go 0] ++ ((fun i => Work (w + i) true) <$> seq 0 n) ++ [go 0].
Definition stop_n (n w : nat) : list action :=
  [CallStop 0 true; go 0; go 0] ++ ((fun i => Work (w + i) true) <$> seq 0 n) ++ ((fun i => Work (w + i) true) <$> seq 0 n) ++ replicate (n + 2) (go 0).

(** [crtreactoridx] is kept from one start to the next: with fewer reactors it is out of range. *)
Example index_out_of_range : run (start 2) (start_n 10 0 ++ mjoin (replicate 9 use_once) ++ stop_n 10 0 ++ start_n 9 10 ++ use_once) = Undef.
Proof. vm_compute. reflexivity. Qed.

Example index_in_range : exists s, run (start 2) (start_n 10 0 ++ mjoin (replicate 9 use_once) ++ stop_n 10 0 ++ start_n 9 10) = Done s.
Proof. eexists. vm_compute. reflexivity. Qed.

(** When a thread cannot be created, [doStart] joins the others in the stopped state: another
    [doStart] overwrites a thread that runs. *)
Example failed_start : run (start 2) [CallStart 0 2; Go 0 1 (fun _ => 0); CallStart 1 1; go 1] = Undef.
Proof. vm_compute. reflexivity. Qed.

End SchedulerLife.
