(* ===== verification/MutualStore.v ===== *)
(** * Mutexes for many objects

    solid/system/mutualstore.hpp: a matrix of objects, mutexes in the program, whose rows are
    allocated when they are needed. The indices are mapped to it in groups; when the matrix is full
    the mapping starts again. The objects are their places in the matrix; a row that is not
    allocated is a null pointer, so an access to it is undefined. *)

From stdpp Require Import list.
From S2P Require Import Prelude.
#[local] Open Scope res_scope.
#[local] Open Scope Z_scope.

Module MutualStore.

(** solid/system/convertors.hpp: for less than 31 bits, since the source shifts an [int]. The program
    uses 3 and 6. *)
Definition bitsToMask (v : Z) : Z := Z.shiftl 1 v - 1.
Definition bitsToCount (v : Z) : Z := Z.land (Z.shiftl 1 v) (Z.lnot 1).

Record MutualStore := mkMutualStore {
  objpermutbts : Z;
  objpermutmsk : Z;
  mutrowsbts : Z;
  mutrowsmsk : Z;
  mutrowscnt : Z;
  mutcolsmsk : Z;
  mutcolscnt : Z;
  objmat : list bool (* is the row allocated? *)
}.

Definition MutualStore_new (_preload : bool) (_objpermutbts _mutrowsbts _mutcolsbts : Z) : MutualStore :=
  mkMutualStore _objpermutbts (bitsToMask _objpermutbts) _mutrowsbts (bitsToMask _mutrowsbts) (bitsToCount _mutrowsbts)
    (bitsToMask _mutcolsbts) (bitsToCount _mutcolsbts) (replicate (Z.to_nat (bitsToCount _mutrowsbts)) _preload).

(** The default arguments *)
Definition MutualStore_default : MutualStore := MutualStore_new false 6 3 3.

Definition doGetObject (m : MutualStore) (i : Z) : res (Z * Z) :=
  let row := Z.land (Z.shiftr i (mutrowsbts m)) (mutrowsmsk m) in
  let! allocated := vec_get (objmat m) row in
  let col := Z.land i (mutcolsmsk m) in
  if allocated && (col <? mutcolscnt m) then Done (row, col) else Undef.

Definition getObjectRow (m : MutualStore) (i : Z) : Z := Z.land (Z.shiftr (Z.shiftr i (objpermutbts m)) (mutrowsbts m)) (mutrowsmsk m).

Definition at_ (m : MutualStore) (i : Z) : res (Z * Z) := doGetObject m (Z.shiftr i (objpermutbts m)).

Definition safeAt (m : MutualStore) (i : Z) : res (MutualStore * (Z * Z)) :=
  let mrow := getObjectRow m i in
  let! mat := vec_set (objmat m) mrow true in
  let m := mkMutualStore (objpermutbts m) (objpermutmsk m) (mutrowsbts m) (mutrowsmsk m) (mutrowscnt m) (mutcolsmsk m) (mutcolscnt m) mat in
  let! o := at_ m i in
  Done (m, o).

Definition isRangeBegin (m : MutualStore) (i : Z) : bool := Z.land i (objpermutmsk m) =? 0.

Fixpoint visit_loop (m : MutualStore) (n : nat) (i : Z) : res (list (Z * Z)) :=
  match n with
  | O => Done []
  | S n => let! o := doGetObject m i in let! l := visit_loop m n (i + 1) in Done (o :: l)
  end.

(** The objects that are visited, in order *)
Definition visit (m : MutualStore) (_upto : Z) : res (list (Z * Z)) :=
  let mutcnt := mutrowscnt m * mutcolscnt m in
  let cnt := Z.shiftr _upto (objpermutbts m) in
  let endd := if mutcnt <? cnt then mutcnt else cnt in
  visit_loop m (Z.to_nat endd) 0.

Definition rowRangeSize (m : MutualStore) : Z := mutcolscnt m * bitsToCount (objpermutbts m).

(** ** A matrix with as many rows as columns *)

Definition allocated (m : MutualStore) (r : Z) : Prop := objmat m !! Z.to_nat r = Some true.

(** As the constructor makes it, with some rows allocated *)
Record square (b o : Z) (m : MutualStore) : Prop := {
  q_b : 1 <= b;
  q_o : 0 <= o;
  q_obj : objpermutbts m = o;
  q_rows : mutrowsbts m = b /\ mutrowsmsk m = Z.ones b /\ mutrowscnt m = 2 ^ b;
  q_cols : mutcolsmsk m = Z.ones b /\ mutcolscnt m = 2 ^ b;
  q_mat : length (objmat m) = Z.to_nat (2 ^ b)
}.

Lemma bits_mask v : 0 <= v -> bitsToMask v = Z.ones v.
Proof. intros. unfold bitsToMask. rewrite Z.ones_equiv, Z.shiftl_mul_pow2 by done. lia. Qed.

Lemma bits_count v : 1 <= v -> bitsToCount v = 2 ^ v.
Proof.
  intros. unfold bitsToCount. rewrite Z.shiftl_1_l. apply Z.bits_inj'. intros n Hn. rewrite Z.land_spec, Z.lnot_spec, Z.pow2_bits_eqb by lia.
  destruct (Z.eqb_spec v n) as [<-|]; [|done]. change 1 with (2 ^ 0). rewrite Z.pow2_bits_false by lia. done.
Qed.

Lemma new_square p o b : 1 <= b -> 0 <= o -> square b o (MutualStore_new p o b b).
Proof.
  intros Hb Ho. split; try done; cbn; rewrite ?bits_mask, ?bits_count by lia; try done. by rewrite length_replicate.
Qed.

(** The place of the group [i]: the quotient and the remainder by the size of a row *)
Definition place (b i : Z) : Z * Z := ((i / 2 ^ b) mod 2 ^ b, i mod 2 ^ b).

Lemma get_place b o m i : square b o m -> 0 <= i -> allocated m (place b i).1 -> doGetObject m i = Done (place b i).
Proof.
  intros [Hb Ho _ (R1 & R2 & _) (C1 & C2) L] Hi Ha. unfold doGetObject. rewrite R1, R2, C1, C2, !Z.land_ones, Z.shiftr_div_pow2 by lia.
  pose proof (Z.mod_pos_bound i (2 ^ b) ltac:(lia)). pose proof (Z.mod_pos_bound (i / 2 ^ b) (2 ^ b) ltac:(lia)).
  rewrite (proj2 (vec_get_done (objmat m) ((i / 2 ^ b) mod 2 ^ b) true)) by (split; [lia|done]). cbn [res_bind andb].
  replace (i mod 2 ^ b <? 2 ^ b) with true by (symmetry; apply Z.ltb_lt; lia). done.
Qed.

Lemma place_inj b i j : 0 <= b -> 0 <= i < 2 ^ b * 2 ^ b -> 0 <= j < 2 ^ b * 2 ^ b -> place b i = place b j -> i = j.
Proof.
  intros Hb Hi Hj [= E1 E2]. assert (0 < 2 ^ b) by lia.
  assert (forall k, 0 <= k < 2 ^ b * 2 ^ b -> (k / 2 ^ b) mod 2 ^ b = k / 2 ^ b) as Hq.
  { intros k Hk. apply Z.mod_small. split; [apply Z.div_pos; lia|apply Z.div_lt_upper_bound; lia]. }
  rewrite !Hq in E1 by done. rewrite (Z.div_mod i (2 ^ b)), (Z.div_mod j (2 ^ b)) by lia. by rewrite E1, E2.
Qed.

Lemma visit_loop_done b o m n : square b o m -> forall i, 0 <= i -> (forall j, i <= j < i + Z.of_nat n -> allocated m (place b j).1) -> visit_loop m n i = Done (place b <$> seqZ i (Z.of_nat n)).
Proof.
  intros Q. induction n as [|n IH]; intros i Hi Ha; [done|]. cbn [visit_loop]. rewrite (get_place b o m i Q Hi) by (apply Ha; lia). cbn [res_bind].
  rewrite IH by (try lia; intros j Hj; apply Ha; lia). cbn [res_bind]. rewrite (seqZ_cons i) by lia. cbn [fmap list_fmap]. by replace (Z.pred (Z.of_nat (S n))) with (Z.of_nat n) by lia.
Qed.

(** C37: In a matrix with as many rows as columns and all rows allocated, a visit up to an index meets every object that belongs to a whole group of indices below it, and meets no object twice: to lock all mutexes locks each of them once. *)
Theorem visit_all_once b o m _upto : square b o m -> 0 <= _upto -> (forall r, 0 <= r < 2 ^ b -> allocated m r) ->
  exists l, visit m _upto = Done l /\ NoDup l /\ forall i, 0 <= i -> Z.shiftr i o < Z.shiftr _upto o -> exists x, at_ m i = Done x /\ x ∈ l.
Proof.
  intros Q Hu Ha. pose proof Q as [Hb Ho Eo (R1 & R2 & R3) (C1 & C2) L]. unfold visit. rewrite R3, C2, Eo.
  assert (0 < 2 ^ b) as Hp by lia. assert (forall j, allocated m (place b j).1) as Hall by (intros j; apply Ha; cbn; apply Z.mod_pos_bound; lia).
  assert (0 <= Z.shiftr _upto o) as Hs by (apply Z.shiftr_nonneg; lia).
  set (n := if 2 ^ b * 2 ^ b <? Z.shiftr _upto o then 2 ^ b * 2 ^ b else Z.shiftr _upto o). assert (0 <= n <= 2 ^ b * 2 ^ b) as Hn by (unfold n; destruct (Z.ltb_spec (2 ^ b * 2 ^ b) (Z.shiftr _upto o)); nia).
  rewrite (visit_loop_done b o m _ Q 0) by (done || lia). rewrite Z2Nat.id by lia. eexists. split; [done|]. split.
  - apply NoDup_fmap_2_strong; [|apply NoDup_seqZ]. intros x y Hx%elem_of_seqZ Hy%elem_of_seqZ. apply place_inj; lia.
  - intros i Hi Hlt. assert (0 <= Z.shiftr i o) by (apply Z.shiftr_nonneg; lia). exists (place b (Z.shiftr i o)). unfold at_. rewrite Eo. split; [by apply (get_place b o)|].
    assert (forall j, place b j = place b (j mod (2 ^ b * 2 ^ b))) as Hm.
    { intros j. unfold place. f_equal; [|symmetry; apply Z.mod_mod_divide; by exists (2 ^ b)]. rewrite (Z.rem_mul_r j (2 ^ b) (2 ^ b)) by lia.
      rewrite (Z.add_comm (j mod 2 ^ b)), (Z.mul_comm (2 ^ b) (_ mod _)), Z.div_add_l, (Z.div_small (j mod 2 ^ b)), Z.add_0_r, Z.mod_mod by (try lia; apply Z.mod_pos_bound; lia). done. }
    destruct (Z.ltb_spec (2 ^ b * 2 ^ b) (Z.shiftr _upto o)).
    + rewrite Hm. apply list_elem_of_fmap_2, elem_of_seqZ. unfold n. pose proof (Z.mod_pos_bound (Z.shiftr i o) (2 ^ b * 2 ^ b) ltac:(nia)). lia.
    + apply list_elem_of_fmap_2, elem_of_seqZ. unfold n. lia.
Qed.

Lemma visit_all_once_witness : exists l, visit (MutualStore_new true 6 3 3) 1024 = Done l /\ NoDup l /\ length l = 16%nat.
Proof.
  destruct (visit_all_once 3 6 (MutualStore_new true 6 3 3) 1024) as (l & E & Hn & _).
  - apply new_square; lia.
  - lia.
  - intros r Hr. unfold allocated. cbn [MutualStore_new objmat]. apply lookup_replicate. split; [done|]. change (Z.to_nat (bitsToCount 3)) with 8%nat. lia.
  - exists l. split; [done|]. split; [done|]. vm_compute in E. by simplify_eq.
Defined.

(** After [safeAt] the object is there, for [at] as well. *)
Lemma safeAt_at b o m i : square b o m -> 0 <= i -> exists m' x, safeAt m i = Done (m', x) /\ at_ m' i = Done x /\ square b o m'.
Proof.
  intros Q Hi. pose proof Q as [Hb Ho Eo (R1 & R2 & R3) (C1 & C2) L]. unfold safeAt, getObjectRow. rewrite Eo, R1, R2, Z.land_ones, (Z.shiftr_div_pow2 _ b) by lia.
  assert (0 <= Z.shiftr i o) by (apply Z.shiftr_nonneg; lia). pose proof (Z.mod_pos_bound (Z.shiftr i o / 2 ^ b) (2 ^ b) ltac:(lia)) as Hr.
  rewrite vec_set_done by (rewrite L; lia). cbn [res_bind]. set (m' := mkMutualStore _ _ _ _ _ _ _ _).
  assert (square b o m') as Q' by (split; try done; cbn [m' objmat]; by rewrite length_insert).
  assert (at_ m' i = Done (place b (Z.shiftr i o))) as Ea.
  { unfold at_. replace (objpermutbts m') with o by (by rewrite <- Eo). apply (get_place b o); [done|done|]. unfold allocated. cbn [m' objmat place fst]. apply list_lookup_insert_eq. rewrite L. lia. }
  exists m', (place b (Z.shiftr i o)). by rewrite Ea.
Qed.

(** An object is there exactly when its row is. *)
Lemma at_allocated b o m i x : square b o m -> 0 <= i -> at_ m i = Done x -> allocated m (place b (Z.shiftr i o)).1 /\ x = place b (Z.shiftr i o).
Proof.
  intros Q Hi. pose proof Q as [Hb Ho Eo (R1 & R2 & _) (C1 & C2) L]. assert (0 <= Z.shiftr i o) as Hs by (apply Z.shiftr_nonneg; lia).
  unfold at_. rewrite Eo. intros E. assert (allocated m (place b (Z.shiftr i o)).1) as Ha; [|split; [done|]; rewrite (get_place b o m _ Q Hs Ha) in E; by injection E].
  unfold doGetObject in E. rewrite R1, R2, Z.land_ones, (Z.shiftr_div_pow2 _ b) in E by lia. apply res_bind_done in E as (al & [_ Ea]%vec_get_done & E).
  destruct al; [exact Ea|done].
Qed.

(** [safeAt] keeps the rows and adds the one it needs. *)
Lemma safeAt_keeps b o m i m' x : square b o m -> 0 <= i -> safeAt m i = Done (m', x) ->
  square b o m' /\ at_ m' i = Done x /\ forall j y, 0 <= j -> at_ m j = Done y -> at_ m' j = Done y.
Proof.
  intros Q Hi E. pose proof Q as [Hb Ho Eo (R1 & R2 & R3) (C1 & C2) L]. destruct (safeAt_at b o m i Q Hi) as (m2 & x2 & E2 & Ea & Q'). rewrite E in E2. injection E2 as <- <-.
  split; [done|]. split; [done|]. intros j y Hj Ey. destruct (at_allocated b o m j y Q Hj Ey) as [Hal ->].
  unfold safeAt in E. apply res_bind_done in E as (mat & Em & E). apply res_bind_done in E as (z & Ez & [= <- <-]).
  assert (mat = <[Z.to_nat (getObjectRow m i) := true]> (objmat m)) as ->.
  { unfold vec_set in Em. by case_match; simplify_eq. }
  set (m1 := mkMutualStore _ _ _ _ _ _ _ _) in *. unfold at_. replace (objpermutbts m1) with o by (by rewrite <- Eo). apply (get_place b o); [done|by apply Z.shiftr_nonneg|].
  unfold allocated in *. cbn [m1 objmat]. destruct (decide (Z.to_nat (getObjectRow m i) = Z.to_nat (place b (Z.shiftr j o)).1)) as [->|Hne].
  - apply list_lookup_insert_eq. by eapply lookup_lt_Some.
  - by rewrite list_lookup_insert_ne.
Qed.

Lemma visit_none m : visit m 0 = Done [].
Proof. unfold visit. rewrite Z.shiftr_0_l. by destruct (Z.ltb_spec (mutrowscnt m * mutcolscnt m) 0); [rewrite Z2Nat.nonpos by lia|]. Qed.

(** The indices of the first groups share the first row. *)
Lemma first_row b o m i : square b o m -> allocated m 0 -> 0 <= i < 2 ^ (b + o) -> exists x, at_ m i = Done x.
Proof.
  intros Q Ha Hi. pose proof Q as [Hb Ho Eo _ _ _]. exists (place b (Z.shiftr i o)). unfold at_. rewrite Eo. apply (get_place b o); [done|apply Z.shiftr_nonneg; lia|].
  cbn [place fst]. rewrite Z.shiftr_div_pow2, Z.div_div, <- Z.pow_add_r, (Z.add_comm o), Z.div_small, Z.mod_0_l by lia. done.
Qed.

(** ** What the code does not mean to do *)

(** With fewer columns than rows two groups of indices have one object, and a visit meets it twice. *)
Example visit_twice : visit (MutualStore_new true 6 3 2) 512 = Done [(0, 0); (0, 1); (0, 2); (0, 3); (0, 0); (0, 1); (0, 2); (0, 3)].
Proof. by vm_compute. Qed.

End MutualStore.
