(* ===== verification/SharedStore.v ===== *)
(** * The shared store

    solid/frame/sharedstore.hpp and src/sharedstore.cpp: objects that are used through pointers,
    by one or by several holders at a time, with a queue of requests for each object.

    An operation under the mutex of its object, or the one of the store, is one step. The event
    handler of the store takes over the erased pointers ([onEvent_take]), passes over them, after
    which the requests that can be served are called, and passes over the objects that can be
    reused; in both passes it holds the mutex of one object at a time ([erase_one], [cache_one]). The wait stubs of an object, a
    linked list of recycled memory, are a list. The mutexes of the objects are those of MutualStore.v,
    and to take one that does not exist is undefined. The controller, a template parameter, decides which
    object a new request gets and which pointers it gives back; its decisions are arguments. *)

From stdpp Require Import list.
From S2P Require Import Prelude FrameCommon MutualStore.
Import FrameCommon.
#[local] Open Scope res_scope.
#[local] Open Scope Z_scope.

Module SharedStore.

Inductive WaitKind := UniqueWaitE | SharedWaitE | ReinitWaitE.
Inductive StubStates := UnlockedStateE | UniqueLockStateE | SharedLockStateE.

#[export] Instance WaitKind_eq_dec : EqDecision WaitKind.
Proof. solve_decision. Defined.
#[export] Instance StubStates_eq_dec : EqDecision StubStates.
Proof. solve_decision. Defined.

Section Types.
Context {T F : Type} (T_new : T).

Record Stub := mkStub {
  obj : T;
  uid : Z;
  alivecnt : Z;
  usecnt : Z;
  state : StubStates;
  waits : list (WaitKind * F) (* from pwaitfirst to pwaitlast *)
}.

Definition Stub_new : Stub := mkStub T_new 0 0 0 UnlockedStateE [].

Definition with_obj (s : Stub) x : Stub := mkStub x (uid s) (alivecnt s) (usecnt s) (state s) (waits s).
Definition with_alive (s : Stub) x : Stub := mkStub (obj s) (uid s) x (usecnt s) (state s) (waits s).
Definition with_use (s : Stub) x : Stub := mkStub (obj s) (uid s) (alivecnt s) x (state s) (waits s).
Definition with_state (s : Stub) x : Stub := mkStub (obj s) (uid s) (alivecnt s) (usecnt s) x (waits s).
Definition with_waits (s : Stub) x : Stub := mkStub (obj s) (uid s) (alivecnt s) (usecnt s) (state s) x.

(** [Stub::clear] *)
Definition Stub_clear (s : Stub) : Stub := mkStub (obj s) (wrap 32 (uid s + 1)) (alivecnt s) (usecnt s) UnlockedStateE (waits s).

Definition canClear (s : Stub) : bool := (usecnt s =? 0) && (alivecnt s =? 0) && bool_decide (waits s = []).

(** [raised]: the signal S_RAISE of the store; [events]: the Raise events on their way to it *)
Record Data := mkData {
  stubvec : list Stub;
  objmaxcnt : Z;
  cacheobjidxstk : list Z;
  fillerasevec : list UniqueId;
  conserasevec : list UniqueId;
  cacheobjidxvec : list Z;
  exewaitvec : list (UniqueId * (WaitKind * F));
  raised : bool;
  events : nat;
  mtxstore : MutualStore.MutualStore
}.

Definition Data_new : Data := mkData [] 0 [] [] [] [] [] false 0 MutualStore.MutualStore_default.

Definition with_stubs (d : Data) x : Data := mkData x (objmaxcnt d) (cacheobjidxstk d) (fillerasevec d) (conserasevec d) (cacheobjidxvec d) (exewaitvec d) (raised d) (events d) (mtxstore d).
Definition with_max (d : Data) x : Data := mkData (stubvec d) x (cacheobjidxstk d) (fillerasevec d) (conserasevec d) (cacheobjidxvec d) (exewaitvec d) (raised d) (events d) (mtxstore d).
Definition with_stk (d : Data) x : Data := mkData (stubvec d) (objmaxcnt d) x (fillerasevec d) (conserasevec d) (cacheobjidxvec d) (exewaitvec d) (raised d) (events d) (mtxstore d).
Definition with_fill (d : Data) x : Data := mkData (stubvec d) (objmaxcnt d) (cacheobjidxstk d) x (conserasevec d) (cacheobjidxvec d) (exewaitvec d) (raised d) (events d) (mtxstore d).
Definition with_cons (d : Data) x : Data := mkData (stubvec d) (objmaxcnt d) (cacheobjidxstk d) (fillerasevec d) x (cacheobjidxvec d) (exewaitvec d) (raised d) (events d) (mtxstore d).
Definition with_idxvec (d : Data) x : Data := mkData (stubvec d) (objmaxcnt d) (cacheobjidxstk d) (fillerasevec d) (conserasevec d) x (exewaitvec d) (raised d) (events d) (mtxstore d).
Definition with_exe (d : Data) x : Data := mkData (stubvec d) (objmaxcnt d) (cacheobjidxstk d) (fillerasevec d) (conserasevec d) (cacheobjidxvec d) x (raised d) (events d) (mtxstore d).
Definition with_sig (d : Data) x y : Data := mkData (stubvec d) (objmaxcnt d) (cacheobjidxstk d) (fillerasevec d) (conserasevec d) (cacheobjidxvec d) (exewaitvec d) x y (mtxstore d).

Definition with_mtx (d : Data) x : Data := mkData (stubvec d) (objmaxcnt d) (cacheobjidxstk d) (fillerasevec d) (conserasevec d) (cacheobjidxvec d) (exewaitvec d) (raised d) (events d) x.

(** ** Objects *)

Definition stub (d : Data) (_idx : Z) : res Stub := vec_get (stubvec d) _idx.

Definition put (d : Data) (_idx : Z) (s : Stub) : Data := with_stubs d (<[Z.to_nat _idx := s]> (stubvec d)).

(** [mutex(_idx)]: the place of the mutex of an object; there may be none. *)
Definition mutex (d : Data) (_idx : Z) : res (Z * Z) := MutualStore.at_ (mtxstore d) _idx.

(** When the vector grows, all mutexes are locked, and unlocked at the end. *)
Definition doAllocateIndex (d : Data) : res (Data * Z) :=
  match cacheobjidxstk d with
  | i :: st => Done (with_stk d st, i)
  | [] =>
      let objcnt := objmaxcnt d in
      let! _ := MutualStore.visit (mtxstore d) objcnt in
      let d := with_stubs d (stubvec d ++ replicate 1024 Stub_new) in
      let d := with_max (with_stk d (seqZ (objcnt + 1) 1023)) (objcnt + 1024) in
      let! _ := MutualStore.visit (mtxstore d) objcnt in
      let! (m, _) := MutualStore.safeAt (mtxstore d) objcnt in
      Done (with_mtx d m, objcnt)
  end.

(** ** Pointers

    The functions return the id of the new pointer, if it is not empty. *)

Definition doTryGetAlive (d : Data) (_idx : Z) : res (Data * option UniqueId) :=
  let! rs := stub d _idx in
  Done (put d _idx (with_state (with_alive rs (alivecnt rs + 1)) UniqueLockStateE), Some (mkUniqueId _idx (uid rs))).

Definition doTryGetShared (d : Data) (_idx : Z) : res (Data * option UniqueId) :=
  let! rs := stub d _idx in
  if bool_decide (state rs = SharedLockStateE) && bool_decide (waits rs = []) then
    Done (put d _idx (with_use rs (usecnt rs + 1)), Some (mkUniqueId _idx (uid rs)))
  else Done (d, None).

Definition doTryGetUnique (d : Data) (_idx : Z) : res (Data * option UniqueId) :=
  let! rs := stub d _idx in
  if usecnt rs =? 0 then
    Done (put d _idx (with_state (with_use rs (usecnt rs + 1)) UniqueLockStateE), Some (mkUniqueId _idx (uid rs)))
  else Done (d, None).

Definition doTryGetReinit (d : Data) (_idx : Z) : res (Data * option UniqueId) :=
  let! rs := stub d _idx in
  if (usecnt rs =? 0) && (alivecnt rs =? 0) && bool_decide (waits rs = []) then
    Done (put d _idx (with_state (with_use rs (usecnt rs + 1)) UniqueLockStateE), Some (mkUniqueId _idx (uid rs)))
  else Done (d, None).

Definition doSwitchUniqueToShared (d : Data) (_idx : Z) : res (Data * bool) :=
  let! rs := stub d _idx in
  if bool_decide (state rs = UniqueLockStateE) then Done (put d _idx (with_state rs SharedLockStateE), true) else Done (d, false).

Definition doPushWait (d : Data) (_idx : Z) (_f : F) (_k : WaitKind) : res Data :=
  let! rs := stub d _idx in
  Done (put d _idx (with_waits rs (waits rs ++ [(_k, _f)]))).

(** Which of the three ways to get a pointer *)
Inductive Kind := KAlive | KShared | KUnique.

Definition doTryGet (k : Kind) : Data -> Z -> res (Data * option UniqueId) :=
  match k with KAlive => doTryGetAlive | KShared => doTryGetShared | KUnique => doTryGetUnique end.

(** [insertAlive], [insertShared], [insertUnique], with an object or without *)
Definition insert (k : Kind) (d : Data) (_rt : option T) : res (Data * option UniqueId) :=
  let! (d, idx) := doAllocateIndex d in
  let! _ := mutex d idx in
  let! rs := stub d idx in
  let d := match _rt with Some t => put d idx (with_obj rs t) | None => d end in
  doTryGet k d idx.

(** [alive], [shared], [unique] *)
Definition get (k : Kind) (d : Data) (_ruid : UniqueId) : res (Data * option UniqueId) :=
  let idx := uid_index _ruid in
  if idx <? objmaxcnt d then
    let! _ := mutex d idx in
    let! rs := stub d idx in
    if uid rs =? uid_unique _ruid then doTryGet k d idx else Done (d, None)
  else Done (d, None).

(** ** Erasing *)

Definition notifyObject (d : Data) (_ruid : UniqueId) : Data :=
  let d := with_fill d (fillerasevec d ++ [_ruid]) in
  if (length (fillerasevec d) =? 1)%nat && negb (raised d) then with_sig d true (S (events d)) else d.

Definition doDecrementObjectUseCount (d : Data) (_uid : UniqueId) (_isalive : bool) : res (Data * bool) :=
  let! rs := stub d (uid_index _uid) in
  if uid rs =? uid_unique _uid then
    if _isalive then
      let rs := with_alive rs (alivecnt rs - 1) in
      Done (put d (uid_index _uid) rs, (usecnt rs =? 0) && (alivecnt rs =? 0))
    else
      let rs := with_use rs (usecnt rs - 1) in
      Done (put d (uid_index _uid) rs, usecnt rs =? 0)
  else Done (d, false).

(** [erasePointer]; the result of the decrement is not used. *)
Definition erasePointer (d : Data) (_ruid : UniqueId) (_isalive : bool) : res Data :=
  if uid_index _ruid <? objmaxcnt d then
    let! _ := mutex d (uid_index _ruid) in
    let! (d, _) := doDecrementObjectUseCount d _ruid _isalive in
    Done (notifyObject d _ruid)
  else Done d.

(** [uniqueToShared], under the mutex of the object: the result, and whether to notify *)
Definition uniqueToShared_locked (d : Data) (_rptr : UniqueId) : res (Data * bool * bool) :=
  let idx := uid_index _rptr in
  if idx <? objmaxcnt d then
    let! _ := mutex d idx in
    let! rs := stub d idx in
    if uid rs =? uid_unique _rptr then
      let! (d, b) := doSwitchUniqueToShared d idx in
      if b then Done (d, true, match waits rs with (SharedWaitE, _) :: _ => true | _ => false end)
      else Done (d, false, false)
    else Done (d, false, false)
  else Done (d, false, false).

Definition uniqueToShared (d : Data) (_rptr : UniqueId) : res (Data * bool) :=
  let! x := uniqueToShared_locked d _rptr in
  let '(d, rv, do_notify) := x in
  Done (if do_notify then notifyObject d _rptr else d, rv).

(** ** Requests: the request is called at once with a pointer or an error, or waits. *)

Inductive Answer := Called (p : option UniqueId) | Waits.

Definition request (try : Data -> Z -> res (Data * option UniqueId)) (k : WaitKind) (d : Data) (_f : F) (_ruid : UniqueId) : res (Data * Answer) :=
  let idx := uid_index _ruid in
  if idx <? objmaxcnt d then
    let! _ := mutex d idx in
    let! rs := stub d idx in
    if uid rs =? uid_unique _ruid then
      let! (d, p) := try d idx in
      match p with
      | Some _ => Done (d, Called p)
      | None => let! d := doPushWait d idx _f k in Done (d, Waits)
      end
    else Done (d, Called None)
  else Done (d, Called None).

Definition requestShared : Data -> F -> UniqueId -> res (Data * Answer) := request doTryGetShared SharedWaitE.
Definition requestUnique : Data -> F -> UniqueId -> res (Data * Answer) := request doTryGetUnique UniqueWaitE.
Definition requestReinit : Data -> F -> UniqueId -> res (Data * Answer) := request doTryGetReinit ReinitWaitE.

(** [requestReinit] without an id: the controller finds an index, or none, or an error
    ([prepareIndex]), and may keep the pointer for itself ([preparePointer]). *)
Inductive Prepared := PFound (idx : Z) | PNew | PError.

Definition requestReinit_new (d : Data) (_f : F) (prep : Prepared) (keeps : bool) : res (Data * Answer * option UniqueId) :=
  match prep with
  | PError => Done (d, Called None, None)
  | _ =>
      let! (d, idx) := match prep with PFound i => Done (d, i) | _ => doAllocateIndex d end in
      let! _ := mutex d idx in
      let! (d, p) := doTryGetReinit d idx in
      match p with
      | None => let! d := doPushWait d idx _f ReinitWaitE in Done (d, Waits, None)
      | Some _ => if keeps then let! d := doPushWait d idx _f ReinitWaitE in Done (d, Waits, p) else Done (d, Called p, None)
      end
  end.

(** ** The event handler of the store *)

Definition onEvent_take (d : Data) : Data :=
  let sm := raised d in
  let d := with_sig d false (pred (events d)) in
  if sm && negb (bool_decide (fillerasevec d = [])) then with_cons (with_fill d (conserasevec d)) (fillerasevec d) else d.

(** Can a request be served? (the switch of [doExecuteErase]) *)
Definition can_deliver (k : WaitKind) (rs : Stub) : bool :=
  match k with
  | UniqueWaitE => usecnt rs =? 0
  | SharedWaitE => (usecnt rs =? 0) || bool_decide (state rs = SharedLockStateE)
  | ReinitWaitE => (usecnt rs =? 0) && (alivecnt rs =? 0)
  end.

(** [doExecuteErase]: the requests at the front that can be served *)
Fixpoint serve (_idx : Z) (rs : Stub) (l : list (WaitKind * F)) : Stub * list (UniqueId * (WaitKind * F)) :=
  match l with
  | [] => (with_waits rs [], [])
  | (k, f) :: l =>
      if can_deliver k rs then
        let rs := with_state rs (match k with SharedWaitE => SharedLockStateE | _ => UniqueLockStateE end) in
        let '(rs', e) := serve _idx (with_use rs (usecnt rs + 1)) l in
        (rs', (mkUniqueId _idx (uid rs), (k, f)) :: e)
      else (with_waits rs ((k, f) :: l), [])
  end.

Definition doExecuteErase (d : Data) (_idx : Z) : res Data :=
  let! rs := stub d _idx in
  let '(rs, e) := serve _idx rs (waits rs) in
  Done (with_exe (put d _idx rs) (exewaitvec d ++ e)).

(** The pass over the erased pointers: one of them; [added] by the controller *)
Definition erase_one (d : Data) (added : bool) (u : UniqueId) : res Data :=
  let! _ := mutex d (uid_index u) in
  let! rs := stub d (uid_index u) in
  if uid_unique u =? uid rs then
    let rs := if added then with_use rs (usecnt rs - 1) else rs in
    let d := put d (uid_index u) rs in
    if canClear rs then Done (with_idxvec d (cacheobjidxvec d ++ [uid_index u])) else doExecuteErase d (uid_index u)
  else Done d.

(** [i]: the position in the vector; [n]: its size before the controller added to it *)
Fixpoint erase_loop (d : Data) (n i : nat) (l : list UniqueId) : res Data :=
  match l with
  | [] => Done d
  | u :: l => let! d := erase_one d (n <=? i)%nat u in erase_loop d n (S i) l
  end.

(** [executeBeforeErase] adds the pointers that the controller gives up. *)
Definition executeBeforeErase (d : Data) (added : list UniqueId) : Data := with_cons d (conserasevec d ++ added).

Definition doExecute_erase (d : Data) (added : list UniqueId) : res Data :=
  let eraseuidvecsize := length (conserasevec d) in
  let d := executeBeforeErase d added in
  erase_loop d eraseuidvecsize 0 (conserasevec d).

(** The pass over the objects that can be reused: one of them; the controller clears the object. *)
Definition cache_one (clear : T -> T) (d : Data) (i : Z) : res Data :=
  let! _ := mutex d i in
  let! rs := stub d i in
  if canClear rs then
    let rs := Stub_clear rs in
    let d := put d i (with_obj rs (clear (obj rs))) in
    Done (with_stk d (i :: cacheobjidxstk d))
  else Done d.

Fixpoint cache_loop (clear : T -> T) (d : Data) (l : list Z) : res Data :=
  match l with
  | [] => Done d
  | i :: l => let! d := cache_one clear d i in cache_loop clear d l
  end.

(** [doExecuteCache] and the rest of the event: [again] when the controller wants to be called once more *)
Definition onEvent_done (d : Data) (again : bool) : Data :=
  let d := with_cons (with_exe (with_idxvec d []) []) [] in
  if again then with_sig d (raised d) (S (events d)) else d.

(** [Accessor::notify] of the controller *)
Definition raise (d : Data) : Data := with_sig d (raised d) (S (events d)).

(** The whole event *)
Definition onEvent (clear : T -> T) (d : Data) (added : list UniqueId) (again : bool) : res Data :=
  let! d := doExecute_erase (onEvent_take d) added in
  let! d := cache_loop clear d (cacheobjidxvec d) in
  Done (onEvent_done d again).

End Types.
End SharedStore.
