(* ===== verification/SharedStoreProofs.v ===== *)
(** * The shared store: holders, threads and the invariant

    The store of SharedStore.v with the pointers that its users hold and the threads that use it:
    an operation that takes a mutex twice is two steps, and the event handler of the store goes one
    object at a time, with anything of other threads in between. The controller may give up pointers
    that it does not hold ([AForge]); what is proved is about those that do not. *)

From stdpp Require Import list relations.
From S2P Require Import Prelude FrameCommon MutualStore SharedStore.
Import FrameCommon SharedStore.
#[local] Open Scope res_scope.
#[local] Open Scope Z_scope.

Module SharedStoreProofs.

#[export] Instance Kind_eq_dec : EqDecision Kind.
Proof. solve_decision. Defined.

Section System.
Context {T F : Type}.

Abbreviation Stub := (Stub (T := T) (F := F)).
Abbreviation Data := (Data (T := T) (F := F)).

(** A pointer that somebody holds: its id, and how it was got *)
Abbreviation holder := (UniqueId * Kind)%type.

(** Where the event handler is: before or after an event; between [onEvent_take] and the pass over
    the erased pointers, or in it, with what was taken and what the controller gave up; in the pass
    over the objects to reuse. *)
Inductive Handler := HIdle | HTaken (l : list UniqueId) (g : list holder) | HErase (l : list UniqueId) (g : list holder) | HCache (l : list Z).

(** [held]: the pointers of the users; [pend]: the threads between the two parts of [erasePointer]
    or [uniqueToShared], about to notify the store *)
Record Sys := mkSys { data : Data; held : list holder; pend : list UniqueId; hdl : Handler }.

Definition Sys_new : Sys := mkSys Data_new [] [] HIdle.

Definition with_data (s : Sys) d : Sys := mkSys d (held s) (pend s) (hdl s).

Definition hold (k : Kind) (s : Sys) (d : Data) (p : option UniqueId) : Sys :=
  mkSys d (match p with Some u => (u, k) :: held s | None => held s end) (pend s) (hdl s).

Definition mode (k : WaitKind) : Kind := match k with SharedWaitE => KShared | _ => KUnique end.

Definition answered (k : Kind) (s : Sys) (d : Data) (a : Answer) : Sys := hold k s d (match a with Called p => p | Waits => None end).

(** The pointer that a served request is called with *)
Definition served (x : UniqueId * (WaitKind * F)) : holder := (x.1, mode (x.2).1).

Definition deliver (d d' : Data) : list holder := served <$> drop (length (exewaitvec d)) (exewaitvec d').

(** ** Actions

    A thread inserts, asks for a pointer or requests one, drops one it holds (and notifies later),
    shares its unique one; the controller calls [raise]; the event handler goes on. *)
Inductive Act :=
| AInsert (k : Kind) (t : option T)
| AGet (k : Kind) (u : UniqueId)
| ARequest (k : WaitKind) (f : F) (u : UniqueId)
| ARequestNew (f : F) (prep : Prepared) (keeps : bool)
| ADrop (n : nat)
| AShare (n : nat)
| ANotify (n : nat)
| ARaise
| ATake
| AGive (n : nat)
| AForge (u : UniqueId)
| ABefore
| AErase
| ACache
| ADone (again : bool).

Definition requestBy (k : WaitKind) : Data -> F -> UniqueId -> res (Data * Answer) :=
  match k with SharedWaitE => requestShared | UniqueWaitE => requestUnique | ReinitWaitE => requestReinit end.

Definition prepared_ok (d : Data) (p : Prepared) : bool := match p with PFound i => (0 <=? i) && (i <? objmaxcnt d) | _ => true end.

(** ** The invariant of an object *)

Definition given (x : Handler) : list holder := match x with HTaken _ g | HErase _ g => g | _ => [] end.

(** All pointers: those of the users and those the controller gave up but the handler has not seen *)
Definition holders (s : Sys) : list holder := held s ++ given (hdl s).

Definition at_index (i : Z) (h : list holder) : list holder := filter (fun x => uid_index x.1 = i) h.
Definition count (k : Kind) (h : list holder) : Z := Z.of_nat (length (filter (fun x => x.2 = k) h)).

(** [h]: the pointers to the object. One unique pointer excludes all others that use it. *)
Record stub_ok (h : list holder) (s : Stub) : Prop := {
  so_use : usecnt s = count KUnique h + count KShared h;
  so_alive : alivecnt s = count KAlive h;
  so_one : count KUnique h <= 1;
  so_excl : count KUnique h = 1 -> count KShared h = 0 /\ state s = UniqueLockStateE;
  so_uid : forall x, x ∈ h -> uid_unique x.1 = uid s
}.

Lemma count_cons k x h : count k (x :: h) = (if decide (x.2 = k) then 1 else 0) + count k h.
Proof. unfold count. rewrite filter_cons. case_decide; cbn [length]; lia. Qed.

Lemma count_perm k h h' : h ≡ₚ h' -> count k h = count k h'.
Proof. intros E. unfold count. by rewrite E. Qed.

Lemma count_nonneg k h : 0 <= count k h.
Proof. unfold count. lia. Qed.

Lemma count_elem k x h : x ∈ h -> x.2 = k -> 1 <= count k h.
Proof.
  intros Hx Hk. apply elem_of_Permutation in Hx as [h' E]. rewrite (count_perm k _ _ E), count_cons, decide_True by done. pose proof (count_nonneg k h'). lia.
Qed.

Lemma stub_ok_perm h h' s : h ≡ₚ h' -> stub_ok h s -> stub_ok h' s.
Proof.
  intros E [A B C D U]. split; rewrite <- ?(count_perm KUnique _ _ E), <- ?(count_perm KShared _ _ E), <- ?(count_perm KAlive _ _ E); try done.
  intros x Hx. apply U. by rewrite E.
Qed.

#[local] Instance stub_ok_proper : Proper (Permutation ==> eq ==> iff) stub_ok.
Proof. intros h h' E s _ <-. split; by apply stub_ok_perm. Qed.

(** What is not about the counts does not matter. *)
Lemma stub_ok_same h s s' : usecnt s' = usecnt s -> alivecnt s' = alivecnt s -> state s' = state s -> uid s' = uid s -> stub_ok h s -> stub_ok h s'.
Proof. intros E1 E2 E3 E4 [A B C D U]. split; rewrite ?E1, ?E2, ?E3, ?E4; done. Qed.

#[local] Ltac fields := cbn [with_state with_use with_alive with_waits with_obj usecnt alivecnt state uid waits obj fst snd].
#[local] Ltac cases := rewrite ?count_cons; fields; repeat ((rewrite decide_True by done) || (rewrite decide_False by done)).

(** Getting a pointer: the object [s] becomes [s']. *)
Definition grabs (k : Kind) (s s' : Stub) : Prop :=
  uid s' = uid s /\ forall h u, stub_ok h s -> uid_unique u = uid s -> stub_ok ((u, k) :: h) s'.

Lemma grabs_alive s : grabs KAlive s (with_state (with_alive s (alivecnt s + 1)) UniqueLockStateE).
Proof.
  split; [done|]. intros h u [A B C D U] Hu. split; cases; [lia|lia|lia| |].
  - intros E. destruct (D E) as [-> _]. done.
  - intros x [->|Hx]%elem_of_cons; [done|by apply U].
Qed.

Lemma grabs_unique s : usecnt s = 0 -> grabs KUnique s (with_state (with_use s (usecnt s + 1)) UniqueLockStateE).
Proof.
  intros E0. split; [done|]. intros h u [A B C D U] Hu. pose proof (count_nonneg KUnique h). pose proof (count_nonneg KShared h).
  split; cases; [lia|lia|lia| |].
  - intros _. split; [lia|done].
  - intros x [->|Hx]%elem_of_cons; [done|by apply U].
Qed.

Lemma grabs_shared s s' : usecnt s = 0 \/ state s = SharedLockStateE ->
  usecnt s' = usecnt s + 1 -> alivecnt s' = alivecnt s -> uid s' = uid s -> grabs KShared s s'.
Proof.
  intros E0 E1 E2 E3. split; [done|]. intros h u [A B C D U] Hu. pose proof (count_nonneg KUnique h). pose proof (count_nonneg KShared h).
  assert (count KUnique h = 0) as E4.
  { destruct E0 as [E0|E0]; [lia|]. destruct (decide (count KUnique h = 1)) as [E|E]; [destruct (D E); congruence|lia]. }
  split; cases; rewrite ?E4; [lia|lia|lia|lia|].
  rewrite E3. intros x [->|Hx]%elem_of_cons; [done|by apply U].
Qed.

(** Dropping a pointer *)
Lemma stub_drop h s u k : stub_ok ((u, k) :: h) s ->
  stub_ok h (if bool_decide (k = KAlive) then with_alive s (alivecnt s - 1) else with_use s (usecnt s - 1)).
Proof.
  intros [A B C D U]. revert A B C D. pose proof (count_nonneg KUnique h). pose proof (count_nonneg KShared h).
  destruct k; cases; intros A B C D; (rewrite bool_decide_true by done) || (rewrite bool_decide_false by done); (split; fields; [lia|lia|lia|intros E; split; [lia|apply D; lia]|intros x Hx; apply U; by right]).
Qed.

Lemma stub_share h s u k : k <> KAlive -> stub_ok ((u, k) :: h) s -> stub_ok ((u, KShared) :: h) (with_state s SharedLockStateE).
Proof.
  intros Hk [A B C D U]. assert (uid_unique u = uid s) as Hu by (apply (U (u, k)); by left). revert A B C D. pose proof (count_nonneg KUnique h). pose proof (count_nonneg KShared h).
  destruct k; cases; intros A B C D; [done| |].
  all: assert (count KUnique h = 0) as E1 by (destruct (decide (count KUnique h = 1)) as [E|E]; [destruct (D ltac:(lia)); lia|lia]).
  all: split; cases; [lia|lia|lia|lia|].
  all: intros x [->|Hx]%elem_of_cons; [done|apply U; by right].
Qed.

(** ** The invariant of the store *)

(** Can the request at the front be served? *)
Definition deliverable (s : Stub) : bool := match waits s with (k, _) :: _ => can_deliver k s | [] => false end.

(** The mutex of the index [i] exists. *)
Definition has_mutex (m : MutualStore.MutualStore) (i : Z) : Prop := exists x, MutualStore.at_ m i = Done x.

(** The mutexes of a store: those of the first group of indices exist once it has grown. *)
Definition mtx_ok (m : MutualStore.MutualStore) (mx : Z) : Prop := MutualStore.square 3 6 m /\ (0 < mx -> MutualStore.allocated m 0).

(** An index of the store whose mutex exists *)
Definition known (m : MutualStore.MutualStore) (mx i : Z) : Prop := 0 <= i < mx /\ has_mutex m i.

Record good (sv : list Stub) (mx : Z) (m : MutualStore.MutualStore) (h : list holder) : Prop := {
  g_len : Z.of_nat (length sv) = mx;
  g_stub : forall i s, sv !! i = Some s -> stub_ok (at_index (Z.of_nat i) h) s;
  g_held : forall x, x ∈ h -> known m mx (uid_index x.1)
}.

(** A request that can be served is known to the handler, or will be. *)
Definition noted (sv : list Stub) (l : list UniqueId) : Prop :=
  forall i s, sv !! i = Some s -> deliverable s = true -> mkUniqueId (Z.of_nat i) (uid s) ∈ l.

Definition taken (x : Handler) : list UniqueId := match x with HTaken l _ | HErase l _ => l | _ => [] end.
Definition caching (x : Handler) : list Z := match x with HCache l => l | _ => [] end.

Record rest (d : Data) (p : list UniqueId) (x : Handler) : Prop := {
  r_stk : forall i, i ∈ cacheobjidxstk d -> 0 <= i < objmaxcnt d;
  r_ids : forall u, u ∈ p ++ fillerasevec d ++ conserasevec d ++ taken x -> known (mtxstore d) (objmaxcnt d) (uid_index u);
  r_idx : forall i, i ∈ cacheobjidxvec d ++ caching x -> known (mtxstore d) (objmaxcnt d) i;
  r_mtx : mtx_ok (mtxstore d) (objmaxcnt d);
  r_given : forall y, y ∈ given x -> y.2 <> KAlive;
  r_sig : (fillerasevec d = [] <-> raised d = false) /\ (raised d = true -> (0 < events d)%nat);
  r_idle : x = HIdle -> conserasevec d = [] /\ exewaitvec d = [] /\ cacheobjidxvec d = []
}.

Record inv (s : Sys) : Prop := {
  i_good : good (stubvec (data s)) (objmaxcnt (data s)) (mtxstore (data s)) (holders s);
  i_rest : rest (data s) (pend s) (hdl s)
}.

Definition notes (s : Sys) : list UniqueId := pend s ++ fillerasevec (data s) ++ taken (hdl s).
Definition all_noted (s : Sys) : Prop := noted (stubvec (data s)) (notes s).

Lemma stub_done (d : Data) i rs : stub d i = Done rs <-> 0 <= i /\ stubvec d !! Z.to_nat i = Some rs.
Proof. apply vec_get_done. Qed.

Lemma stub_in (d : Data) h i : good (stubvec d) (objmaxcnt d) (mtxstore d) h -> 0 <= i < objmaxcnt d -> exists rs, stub d i = Done rs.
Proof. intros [E _ _] Hi. destruct (vec_get_in (stubvec d) i) as (rs & ? & _); [lia|by exists rs]. Qed.

Lemma stub_of_put (d : Data) i rs rs' : stub d i = Done rs -> stub (put d i rs') i = Done rs'.
Proof. intros [? H%lookup_lt_Some]%stub_done. apply stub_done. split; [done|]. cbn. by apply list_lookup_insert_eq. Qed.

Lemma put_put (d : Data) i a b : put (put d i a) i b = put d i b.
Proof. unfold put, with_stubs. cbn. by rewrite list_insert_insert_eq. Qed.

Lemma at_other i u k h : uid_index u <> i -> at_index i ((u, k) :: h) = at_index i h.
Proof. intros. unfold at_index. by rewrite filter_cons_False. Qed.

Lemma at_this i u k h : uid_index u = i -> at_index i ((u, k) :: h) = (u, k) :: at_index i h.
Proof. intros. unfold at_index. by rewrite filter_cons_True. Qed.

Lemma at_perm i h h' : h ≡ₚ h' -> at_index i h ≡ₚ at_index i h'.
Proof. intros E. unfold at_index. by rewrite E. Qed.

#[local] Instance at_index_proper i : Proper (Permutation ==> Permutation) (at_index i).
Proof. intros h h'. apply at_perm. Qed.

Lemma at_app i h h' : at_index i (h ++ h') = at_index i h ++ at_index i h'.
Proof. apply filter_app. Qed.

(** One object changes, and the pointers to it. *)
Lemma good_put (d : Data) h h' i rs rs' : good (stubvec d) (objmaxcnt d) (mtxstore d) h -> stub d i = Done rs -> has_mutex (mtxstore d) i ->
  (stub_ok (at_index i h) rs -> stub_ok (at_index i h') rs') ->
  (forall j, j <> i -> at_index j h' ≡ₚ at_index j h) ->
  good (stubvec (put d i rs')) (objmaxcnt (put d i rs')) (mtxstore (put d i rs')) h'.
Proof.
  intros [E G H] [Hi Hrs]%stub_done Hm Hok Ho. cbn. split.
  - by rewrite length_insert.
  - intros j s [(<- & <- & _)|[Hj Es]]%list_lookup_insert_Some.
    + rewrite Z2Nat.id by done. apply Hok. rewrite <- (Z2Nat.id i) by done. by apply G.
    + eapply stub_ok_perm; [symmetry; apply Ho; lia|by apply G].
  - intros x Hx. destruct (decide (uid_index x.1 = i)) as [->|Hn].
    + apply lookup_lt_Some in Hrs. split; [lia|done].
    + apply H. assert (x ∈ at_index (uid_index x.1) h') as Hx' by (by apply list_elem_of_filter).
      rewrite (Ho _ Hn) in Hx'. by apply list_elem_of_filter in Hx' as [_ ?].
Qed.

Lemma good_perm sv mx m h h' : h ≡ₚ h' -> good sv mx m h -> good sv mx m h'.
Proof.
  intros E [L G H]. split; [done| |].
  - intros i s Es. eapply stub_ok_perm; [by apply at_perm|by apply G].
  - intros x. rewrite <- E. apply H.
Qed.

(** A pointer is got to the object. *)
Lemma good_grab (d : Data) h i rs rs' k : good (stubvec d) (objmaxcnt d) (mtxstore d) h -> stub d i = Done rs -> has_mutex (mtxstore d) i -> grabs k rs rs' ->
  good (stubvec (put d i rs')) (objmaxcnt (put d i rs')) (mtxstore (put d i rs')) ((mkUniqueId i (uid rs), k) :: h).
Proof.
  intros G E Hm [_ Hg]. eapply good_put; [done|done|done| |].
  - intros Hok. rewrite at_this by done. by apply Hg.
  - intros j Hj. by rewrite at_other by done.
Qed.

Lemma noted_put (d : Data) i rs rs' l l' : stub d i = Done rs -> noted (stubvec d) l ->
  (deliverable rs' = true -> mkUniqueId i (uid rs') ∈ l') -> (forall x, x ∈ l -> uid_index x <> i -> x ∈ l') ->
  noted (stubvec (put d i rs')) l'.
Proof.
  intros [Hi Hrs]%stub_done N H1 H2 j s [(<- & <- & _)|[Hj Es]]%list_lookup_insert_Some Hd.
  - rewrite Z2Nat.id by done. by apply H1.
  - apply H2; [by apply N|]. cbn. lia.
Qed.

Lemma noted_same (d : Data) i rs rs' l : stub d i = Done rs -> noted (stubvec d) l -> uid rs' = uid rs ->
  (deliverable rs' = true -> deliverable rs = true) -> noted (stubvec (put d i rs')) l.
Proof.
  intros E N Hu Hd. eapply noted_put; [done|done| |done]. intros H. apply stub_done in E as [Hi E]. rewrite Hu, <- (Z2Nat.id i) by done. apply N; [done|by apply Hd].
Qed.

(** ** Getting pointers *)

(** [try] gets a pointer of the kind [k] when [cond] holds; no request becomes possible by it. *)
Definition tries (k : Kind) (cond : Stub -> Prop) (try : Data -> Z -> res (Data * option UniqueId)) : Prop :=
  forall d i rs, stub d i = Done rs -> 0 <= alivecnt rs ->
    try d i = Done (d, None) /\ ~ cond rs \/
    exists rs', try d i = Done (put d i rs', Some (mkUniqueId i (uid rs))) /\ cond rs /\ grabs k rs rs' /\
      (deliverable rs' = true -> deliverable rs = true) /\ waits rs' = waits rs /\ (k <> KAlive -> usecnt rs' = usecnt rs + 1).

Lemma tries_alive : tries KAlive (fun _ => True) doTryGetAlive.
Proof.
  intros d i rs E Ha. right. unfold doTryGetAlive. rewrite E. cbn [res_bind]. eexists. do 2 (split; [done|]). split; [apply grabs_alive|]. split; [|done].
  unfold deliverable. fields. destruct (waits rs) as [|[[] f] l]; [done| | |]; cbn [can_deliver]; fields; intros H; [done| |].
  - rewrite bool_decide_false, orb_false_r in H by done. by rewrite H.
  - lia.
Qed.

Lemma tries_shared : tries KShared (fun rs => state rs = SharedLockStateE /\ waits rs = []) doTryGetShared.
Proof.
  intros d i rs E Ha. unfold doTryGetShared. rewrite E. cbn [res_bind].
  destruct (decide (state rs = SharedLockStateE)) as [Es|Es]; [rewrite bool_decide_true by done|rewrite bool_decide_false by done; left; by split; [|intros []]].
  destruct (decide (waits rs = [])) as [Ew|Ew]; [rewrite bool_decide_true by done|rewrite bool_decide_false by done; left; by split; [|intros []]].
  right. eexists. do 2 (split; [done|]). split; [by apply grabs_shared; fields; [right|..]|]. split; [|done]. unfold deliverable. fields. by rewrite Ew.
Qed.

(** The object is taken for one user only. *)
Lemma taken_quiet rs : usecnt rs = 0 -> deliverable (with_state (with_use rs (usecnt rs + 1)) UniqueLockStateE) = false.
Proof. intros E. unfold deliverable. fields. rewrite E. by destruct (waits rs) as [|[[] f] l]. Qed.

Lemma tries_unique : tries KUnique (fun rs => usecnt rs = 0) doTryGetUnique.
Proof.
  intros d i rs E Ha. unfold doTryGetUnique. rewrite E. cbn [res_bind]. destruct (Z.eqb_spec (usecnt rs) 0) as [E0|E0]; [right|by left].
  eexists. do 2 (split; [done|]). split; [by apply grabs_unique|]. by rewrite taken_quiet.
Qed.

Lemma tries_reinit : tries KUnique (fun rs => usecnt rs = 0 /\ alivecnt rs = 0 /\ waits rs = []) doTryGetReinit.
Proof.
  intros d i rs E Ha. unfold doTryGetReinit. rewrite E. cbn [res_bind].
  destruct (Z.eqb_spec (usecnt rs) 0) as [E0|E0]; [|left; split; [done|tauto]].
  destruct (Z.eqb_spec (alivecnt rs) 0) as [E1|E1]; [|left; split; [done|tauto]].
  destruct (decide (waits rs = [])) as [Ew|Ew]; [rewrite bool_decide_true by done|rewrite bool_decide_false by done; left; split; [done|tauto]].
  right. eexists. do 2 (split; [done|]). split; [by apply grabs_unique|]. by rewrite taken_quiet.
Qed.

Lemma tries_kind k : exists cond, tries k cond (doTryGet k).
Proof. destruct k; eexists; [apply tries_alive|apply tries_shared|apply tries_unique]. Qed.

Lemma rest_put d p x i rs : rest d p x -> rest (put d i rs) p x.
Proof. intros []. by split. Qed.

Lemma alive_pos d h i rs : good (stubvec d) (objmaxcnt d) (mtxstore d) h -> stub d i = Done rs -> 0 <= alivecnt rs /\ 0 <= usecnt rs.
Proof.
  intros [_ G _] [_ E]%stub_done. destruct (G _ _ E) as [-> -> _ _ _]. pose proof (count_nonneg KAlive (at_index (Z.of_nat (Z.to_nat i)) h)).
  pose proof (count_nonneg KUnique (at_index (Z.of_nat (Z.to_nat i)) h)). pose proof (count_nonneg KShared (at_index (Z.of_nat (Z.to_nat i)) h)). lia.
Qed.

(** What a step keeps; the requests stay known if [P]. *)
Definition keeps (P : Prop) (s s' : Sys) : Prop := inv s' /\ (P -> all_noted s -> all_noted s').
Definition outcome (P : Prop) (s : Sys) (r : res Sys) : Prop := exists s', r = Done s' /\ keeps P s s'.

Lemma outcome_done P s s' : keeps P s s' -> outcome P s (Done s').
Proof. by exists s'. Qed.

Lemma sk_trans (P Q : Prop) s s1 s2 : (P -> Q) -> keeps P s s1 -> keeps Q s1 s2 -> keeps P s s2.
Proof. intros HPQ [_ H1] [H2 H3]. split; [done|]. auto. Qed.

Lemma sk_refl P s : inv s -> keeps P s s.
Proof. by split. Qed.

(** One object changes in what is not about counts. *)
Lemma sk_same P s i rs rs' : inv s -> stub (data s) i = Done rs -> has_mutex (mtxstore (data s)) i ->
  usecnt rs' = usecnt rs -> alivecnt rs' = alivecnt rs -> state rs' = state rs -> uid rs' = uid rs ->
  (P -> deliverable rs' = true -> deliverable rs = true) -> keeps P s (with_data s (put (data s) i rs')).
Proof.
  intros [G R] E Hm E1 E2 E3 E4 Hd. split; [split|].
  - eapply good_put; [done|done|done| |done]. by apply stub_ok_same.
  - by apply rest_put.
  - intros HP N. by eapply noted_same; [| |done|apply Hd].
Qed.

Lemma try_outcome k cond try s i rs : tries k cond try -> inv s -> stub (data s) i = Done rs -> has_mutex (mtxstore (data s)) i ->
  exists d p, try (data s) i = Done (d, p) /\ keeps True s (hold k s d p) /\
    (p = None /\ d = data s /\ ~ cond rs \/ cond rs /\ exists u rs', p = Some u /\ d = put (data s) i rs' /\ waits rs' = waits rs /\ (k <> KAlive -> usecnt rs' = usecnt rs + 1)).
Proof.
  intros Ht [G R] E Hm. destruct (Ht _ _ _ E (proj1 (alive_pos _ _ _ _ G E))) as [[-> Hc]|(rs' & -> & Hc & Hg & Hd & Hw)].
  - exists (data s), None. split; [done|]. split; [by destruct s|by left].
  - eexists _, _. split; [done|]. split; [|right; split; [done|]; by eexists _, rs'].
    split; [split|].
    + by apply good_grab.
    + by apply rest_put.
    + intros _ N. eapply noted_same; [done|done|apply Hg|done].
Qed.

Lemma push_outcome P s i rs f k : inv s -> stub (data s) i = Done rs -> has_mutex (mtxstore (data s)) i -> (P -> waits rs = [] -> can_deliver k rs = false) ->
  exists d, doPushWait (data s) i f k = Done d /\ keeps P s (with_data s d).
Proof.
  intros I E Hm Hk. unfold doPushWait. rewrite E. cbn [res_bind]. eexists. split; [done|]. eapply sk_same; try done.
  intros HP. unfold deliverable. fields. destruct (waits rs) as [|[k' f'] l] eqn:Ew; [|done]. cbn [app].
  specialize (Hk HP eq_refl). intros Hd. exfalso. revert Hd. destruct k; cbn [can_deliver] in *; fields; congruence.
Qed.

Lemma stub_new_ok T_new : stub_ok [] (Stub_new T_new).
Proof. split; [done|done|done|done|]. by intros x Hx%elem_of_nil. Qed.

Lemma known_mono m m' mx mx' i : known m mx i -> mx <= mx' -> (has_mutex m i -> has_mutex m' i) -> known m' mx' i.
Proof. intros [Hi Hm] Hx Hh. split; [lia|auto]. Qed.

Lemma has_first m mx i : mtx_ok m mx -> 0 < mx -> 0 <= i < 512 -> has_mutex m i.
Proof. intros [Q Ha] Hx Hi. apply (MutualStore.first_row 3 6); [done|by apply Ha|done]. Qed.

Lemma grow (T_new : T) s m x : inv s -> let d := data s in MutualStore.safeAt (mtxstore d) (objmaxcnt d) = Done (m, x) ->
  keeps True s (with_data s (with_mtx (with_max (with_stk (with_stubs d (stubvec d ++ replicate 1024 (Stub_new T_new))) (seqZ (objmaxcnt d + 1) 1023)) (objmaxcnt d + 1024)) m)).
Proof.
  intros [[L G H] [R1 R2 R3 [Q RM] R4 R5 R6]] d Es. subst d. assert (0 <= objmaxcnt (data s)) as H0 by lia.
  destruct (MutualStore.safeAt_keeps _ _ _ _ _ _ Q H0 Es) as (Q' & Ea & Hk).
  assert (forall i, known (mtxstore (data s)) (objmaxcnt (data s)) i -> known m (objmaxcnt (data s) + 1024) i) as Hkn.
  { intros i Hi. eapply known_mono; [done|lia|]. intros [y Hy]. exists y. by apply Hk; [apply Hi|]. }
  split; [split; split|]; cbn [with_data with_mtx with_max with_stk with_stubs data stubvec objmaxcnt cacheobjidxstk fillerasevec conserasevec cacheobjidxvec exewaitvec raised events mtxstore]; try done.
  - rewrite length_app, length_replicate. lia.
  - intros i rs [Hi|[Hi [-> _]%lookup_replicate]]%lookup_app_Some; [by apply G|].
    change (holders (with_data s _)) with (holders s). replace (at_index (Z.of_nat i) (holders s)) with ([] : list holder); [apply stub_new_ok|].
    symmetry. apply elem_of_nil_inv. intros y [Ey Hy]%list_elem_of_filter. destruct (H y Hy) as [Hr _]. lia.
  - intros y Hy. by apply Hkn, H.
  - intros i Hi%elem_of_seqZ. lia.
  - intros u Hu. by apply Hkn, R2.
  - intros i Hi. by apply Hkn, R3.
  - split; [done|]. intros _. destruct (decide (objmaxcnt (data s) = 0)) as [E0|E0].
    + rewrite E0 in Ea. by destruct (MutualStore.at_allocated 3 6 m 0 x Q' ltac:(lia) Ea).
    + assert (has_mutex (mtxstore (data s)) 0) as [y Hy] by (apply (has_first _ (objmaxcnt (data s))); [done|lia|lia]).
      by destruct (MutualStore.at_allocated 3 6 m 0 y Q' ltac:(lia) (Hk 0 y ltac:(lia) Hy)).
  - intros _ N i rs [Hi|[_ [-> _]%lookup_replicate]]%lookup_app_Some Hd; [by apply N|done].
Qed.

Lemma alloc_outcome (T_new : T) s d i : inv s -> doAllocateIndex T_new (data s) = Done (d, i) -> keeps True s (with_data s d) /\ exists rs, stub d i = Done rs.
Proof.
  intros I. unfold doAllocateIndex. destruct (cacheobjidxstk (data s)) as [|j st] eqn:Es.
  - intros (l1 & _ & E)%res_bind_done. apply res_bind_done in E as (l2 & _ & E). apply res_bind_done in E as ([m x] & Em & [= <- <-]).
    pose proof (grow T_new s m x I Em) as K. cbv zeta in K. split; [exact K|].
    destruct (stub_in _ _ (objmaxcnt (data s)) (i_good _ (proj1 K))) as [rs Hrs]; [|by exists rs].
    cbn [data with_data with_mtx with_max objmaxcnt]. destruct I as [[L _ _] _]. lia.
  - intros [= <- <-]. assert (keeps True s (with_data s (with_stk (data s) st))) as K.
    { destruct I as [G [R1 R2 R3 RM R4 R5 R6]]. split; [split|]; [done| |done]. split; try done. intros k Hk. apply R1. rewrite Es. by right. }
    split; [done|]. destruct (stub_in (with_stk (data s) st) _ j (i_good _ (proj1 K))) as [rs Hrs]; [|by exists rs].
    apply (r_stk _ _ _ (i_rest _ I)). rewrite Es. by left.
Qed.

(** There is an index to give, with its mutex. *)
Definition can_allocate (T_new : T) (d : Data) : Prop := exists d' i, doAllocateIndex T_new d = Done (d', i) /\ has_mutex (mtxstore d') i.

Lemma insert_outcome (T_new : T) s k t : inv s -> can_allocate T_new (data s) -> outcome True s (let! (d, p) := insert T_new k (data s) t in Done (hold k s d p)).
Proof.
  intros I (d & i & Ea & Hm). destruct (alloc_outcome T_new s d i I Ea) as (K & rs & E). unfold insert. rewrite Ea. cbn [res_bind].
  pose proof Hm as [x Hx]. unfold mutex. rewrite Hx, E. cbn [res_bind].
  assert (exists d' rs', match t with Some t => put d i (with_obj rs t) | None => d end = d' /\ keeps True s (with_data s d') /\ stub d' i = Done rs' /\ has_mutex (mtxstore d') i) as (d' & rs' & -> & K' & E' & Hm').
  { destruct t as [t|]; [|by exists d, rs]. eexists _, _. split; [done|]. split; [|split; [by eapply stub_of_put|done]].
    eapply sk_trans; [|apply K|]; [done|]. eapply (sk_same _ (with_data s d)); try done. apply K. }
  destruct (tries_kind k) as [cond Ht]. destruct (try_outcome k cond _ (with_data s d') i rs' Ht (proj1 K') E' Hm') as (d2 & p & Ed & K2 & _).
  cbn [data with_data] in Ed. rewrite Ed. cbn [res_bind]. apply outcome_done. by eapply sk_trans; [|apply K'|apply K2].
Qed.

Lemma get_outcome s k u : inv s -> 0 <= uid_index u -> (uid_index u < objmaxcnt (data s) -> has_mutex (mtxstore (data s)) (uid_index u)) ->
  outcome True s (let! (d, p) := get k (data s) u in Done (hold k s d p)).
Proof.
  intros I Hu Hm. assert (outcome True s (let! (d, p) := Done (data s, None) in Done (hold k s d p))) as Hn by (apply outcome_done; destruct s; by apply sk_refl).
  unfold get. destruct (Z.ltb_spec (uid_index u) (objmaxcnt (data s))) as [Hi|]; [|done]. specialize (Hm Hi). pose proof Hm as [x Hx]. unfold mutex. rewrite Hx. cbn [res_bind].
  destruct (stub_in _ _ (uid_index u) (i_good _ I)) as [rs E]; [done|]. rewrite E. cbn [res_bind]. case_match; [|done].
  destruct (tries_kind k) as [cond Ht]. destruct (try_outcome k cond _ s _ rs Ht I E Hm) as (d2 & p & -> & K2 & _). by apply outcome_done.
Qed.

(** ** Requests *)

(** A request for a shared pointer is made to an object in use, or that was shared last, or that has requests. *)
Definition polite (a : Act) (s : Sys) : bool :=
  match a with
  | ARequest SharedWaitE _ u =>
      match stub (data s) (uid_index u) with
      | Done rs => negb ((uid rs =? uid_unique u) && (usecnt rs =? 0) && bool_decide (waits rs = []) && negb (bool_decide (state rs = SharedLockStateE)))
      | _ => true
      end
  | _ => true
  end.

Lemma request_outcome P try cond k s f u : tries (mode k) cond try -> inv s -> 0 <= uid_index u -> (uid_index u < objmaxcnt (data s) -> has_mutex (mtxstore (data s)) (uid_index u)) ->
  (forall rs, stub (data s) (uid_index u) = Done rs -> uid rs = uid_unique u -> P -> ~ cond rs -> waits rs = [] -> can_deliver k rs = false) ->
  outcome P s (let! (d, a) := request try k (data s) f u in Done (answered (mode k) s d a)).
Proof.
  intros Ht I Hu Hm Hc. assert (outcome P s (Done (answered (mode k) s (data s) (Called None)))) as Hn by (apply outcome_done; destruct s; by apply sk_refl).
  unfold request. destruct (Z.ltb_spec (uid_index u) (objmaxcnt (data s))) as [Hi|]; [|done]. specialize (Hm Hi). pose proof Hm as [x Hx]. unfold mutex. rewrite Hx. cbn [res_bind].
  destruct (stub_in _ _ (uid_index u) (i_good _ I)) as [rs E]; [done|]. rewrite E. cbn [res_bind]. destruct (Z.eqb_spec (uid rs) (uid_unique u)) as [Eu|]; [|done].
  destruct (try_outcome _ _ _ s _ rs Ht I E Hm) as (d2 & p & -> & K2 & [(-> & -> & Hn')|(_ & v & rs' & -> & _)]); cbn [res_bind].
  - destruct (push_outcome P s (uid_index u) rs f k I E Hm) as (d & -> & K); [by intros; apply Hc|]. cbn [res_bind]. by apply outcome_done.
  - apply outcome_done. by eapply sk_trans; [|by apply sk_refl|apply K2].
Qed.

Lemma requestBy_outcome s k f u : inv s -> 0 <= uid_index u -> (uid_index u < objmaxcnt (data s) -> has_mutex (mtxstore (data s)) (uid_index u)) ->
  outcome (polite (ARequest k f u) s = true) s (let! (d, a) := requestBy k (data s) f u in Done (answered (mode k) s d a)).
Proof.
  intros I Hu Hm. destruct k; cbn [requestBy].
  - eapply request_outcome; [apply tries_unique|done|done|done|]. intros rs E _ _ Hn _. cbn. by apply Z.eqb_neq.
  - eapply request_outcome; [apply tries_shared|done|done|done|]. intros rs E Eu HP Hn Ew. cbn [can_deliver].
    cbn [polite] in HP. rewrite E, Eu, Z.eqb_refl, Ew in HP. cbn [andb bool_decide] in HP.
    rewrite (bool_decide_false (state rs = _)) in * by (intros ?; by apply Hn). by destruct (usecnt rs =? 0).
  - eapply request_outcome; [apply tries_reinit|done|done|done|]. intros rs E _ _ Hn Ew. cbn [can_deliver]. apply andb_false_iff. rewrite !Z.eqb_neq. destruct (decide (usecnt rs = 0)); [right|by left]. intros ?. by apply Hn.
Qed.

Lemma reinit_outcome (s : Sys) (f : F) (i : Z) rs (k : bool) : inv s -> stub (data s) i = Done rs -> has_mutex (mtxstore (data s)) i ->
  outcome True s
    (let! x := (let! (d, p) := doTryGetReinit (data s) i in
                match p with
                | None => let! d := doPushWait d i f ReinitWaitE in Done (d, Waits, None)
                | Some _ => if k then let! d := doPushWait d i f ReinitWaitE in Done (d, Waits, p) else Done (d, Called p, None)
                end) in
     let '(d, a, kept) := x in Done (hold KUnique (answered KUnique s d a) d kept)).
Proof.
  intros I E Hm. destruct (try_outcome _ _ _ s i rs tries_reinit I E Hm) as (d & p & -> & K & [(-> & -> & Hn)|((E0 & E1 & Ew) & u & rs' & -> & -> & Ew' & Eu)]); cbn [res_bind].
  - destruct (push_outcome True s i rs f ReinitWaitE I E Hm) as (d & -> & K').
    { intros _ Ew. cbn [can_deliver]. apply andb_false_iff. rewrite !Z.eqb_neq. destruct (decide (usecnt rs = 0)); [right|by left]. intros ?. by apply Hn. }
    cbn [res_bind]. by apply outcome_done.
  - destruct k; [|by apply outcome_done].
    destruct (push_outcome True (hold KUnique s (put (data s) i rs') (Some u)) i rs' f ReinitWaitE (proj1 K)) as (d & Ed & K').
    { by eapply stub_of_put. }
    { done. }
    { intros _ _. cbn [can_deliver]. rewrite Eu, E0 by done. done. }
    cbn [data hold] in Ed. rewrite Ed. cbn [res_bind]. apply outcome_done. by eapply sk_trans; [|apply K|apply K'].
Qed.

Lemma requestNew_outcome (T_new : T) s f prep k : inv s -> prepared_ok (data s) prep = true ->
  match prep with PFound i => has_mutex (mtxstore (data s)) i | PNew => can_allocate T_new (data s) | PError => True end ->
  outcome True s (let! x := requestReinit_new T_new (data s) f prep k in let '(d, a, kept) := x in Done (hold KUnique (answered KUnique s d a) d kept)).
Proof.
  intros I Hp Hm. unfold requestReinit_new. destruct prep as [i| |]; cbn iota beta.
  - cbn in Hp. destruct (stub_in _ _ i (i_good _ I)) as [rs E]; [lia|]. pose proof Hm as [x Hx]. cbn [res_bind]. unfold mutex. rewrite Hx. cbn [res_bind]. by eapply reinit_outcome.
  - destruct Hm as (d & i & Ea & Hm). destruct (alloc_outcome T_new s d i I Ea) as (K & rs & E). rewrite Ea. cbn [res_bind]. pose proof Hm as [x Hx]. unfold mutex. rewrite Hx. cbn [res_bind].
    destruct (reinit_outcome (with_data s d) f i rs k (proj1 K) E Hm) as (s' & Es & K'). exists s'. split; [exact Es|]. by eapply sk_trans; [|apply K|].
  - apply outcome_done. destruct s. by apply sk_refl.
Qed.

(** ** Dropping and sharing *)

Lemma held_at s n u k : held s !! n = Some (u, k) -> holders s ≡ₚ (u, k) :: delete n (held s) ++ given (hdl s).
Proof. intros E. unfold holders. rewrite (app_comm_cons (delete n (held s))). apply Permutation_app_tail, delete_Permutation, E. Qed.

(** A held pointer is to an object of the store, by its present id. *)
Lemma held_stub s u k : inv s -> (u, k) ∈ holders s -> known (mtxstore (data s)) (objmaxcnt (data s)) (uid_index u) /\ exists rs, stub (data s) (uid_index u) = Done rs /\ uid rs = uid_unique u.
Proof.
  intros [G _] Hx. pose proof (g_held _ _ _ _ G _ Hx) as Hi. cbn in Hi. split; [done|]. destruct Hi as [Hi _]. destruct (stub_in _ _ _ G Hi) as [rs E]. exists rs. split; [done|].
  apply stub_done in E as [? E]. symmetry. apply (so_uid _ _ (g_stub _ _ _ _ G _ _ E) (u, k)). apply list_elem_of_filter. split; [cbn; lia|done].
Qed.

Lemma elem_notes s x : x ∈ notes s <-> x ∈ pend s \/ x ∈ fillerasevec (data s) \/ x ∈ taken (hdl s).
Proof. unfold notes. by rewrite !elem_of_app. Qed.

Lemma drop_outcome s n u k : inv s -> held s !! n = Some (u, k) ->
  (uid_index u <? objmaxcnt (data s)) = true /\
  outcome True s (let! _ := mutex (data s) (uid_index u) in let! (d, _) := doDecrementObjectUseCount (data s) u (bool_decide (k = KAlive)) in Done (mkSys d (delete n (held s)) (u :: pend s) (hdl s))).
Proof.
  intros I E. pose proof (held_at _ _ _ _ E) as Ep. destruct (held_stub s u k I) as [Hkn (rs & Ers & Eu)]; [rewrite Ep; by left|]. pose proof Hkn as [Hi Hm].
  split; [lia|]. pose proof Hm as [x0 Hx0]. unfold mutex. rewrite Hx0. cbn [res_bind]. unfold doDecrementObjectUseCount. rewrite Ers. cbn [res_bind]. rewrite Eu, Z.eqb_refl.
  set (rs' := if bool_decide (k = KAlive) then with_alive rs (alivecnt rs - 1) else with_use rs (usecnt rs - 1)).
  enough (keeps True s (mkSys (put (data s) (uid_index u) rs') (delete n (held s)) (u :: pend s) (hdl s))) as K by (unfold rs' in K; destruct (bool_decide (k = KAlive)); by apply outcome_done).
  destruct I as [G [R1 R2 R3 RM R4 R5 R6]]. split; [split|].
  - eapply good_put; [done|done|done| |].
    + intros Hok. apply (stub_drop _ _ u k). eapply stub_ok_perm; [|done]. by rewrite (at_perm _ _ _ Ep), at_this.
    + intros j Hj. by rewrite (at_perm j _ _ Ep), at_other.
  - split; try done. intros x [->|Hx]%elem_of_cons; [done|by apply R2].
  - intros _ N. eapply noted_put; [done|done| |].
    + intros _. apply elem_notes. left. replace (uid rs') with (uid_unique u); [destruct u; by left|]. unfold rs'. by case_bool_decide.
    + intros x Hx _. by right.
Qed.

Lemma insert_held n x y (h : list holder) : h !! n = Some x -> <[n := y]> h ≡ₚ y :: delete n h.
Proof.
  intros E. pose proof (lookup_lt_Some _ _ _ E). rewrite (insert_take_drop _ _ _ H), delete_take_drop. by rewrite Permutation_middle.
Qed.

Lemma share_outcome s n u k : inv s -> held s !! n = Some (u, k) -> k <> KAlive ->
  outcome True s (let! x := uniqueToShared_locked (data s) u in
    let '(d, rv, do_notify) := x in
    Done (mkSys d (if rv then <[n := (u, KShared)]> (held s) else held s) (if do_notify then u :: pend s else pend s) (hdl s))).
Proof.
  intros I E Hk. pose proof (held_at _ _ _ _ E) as Ep. destruct (held_stub s u k I) as [Hkn (rs & Ers & Eu)]; [rewrite Ep; by left|]. pose proof Hkn as [Hi Hm].
  pose proof Hm as [x0 Hx0]. unfold uniqueToShared_locked, doSwitchUniqueToShared, mutex. rewrite (proj2 (Z.ltb_lt _ _) (proj2 Hi)), Hx0. cbn [res_bind]. rewrite Ers. cbn [res_bind]. rewrite Eu, Z.eqb_refl.
  case_bool_decide as Hs; cbn [res_bind]; [|apply outcome_done; destruct s; by apply sk_refl].
  apply outcome_done. destruct I as [G [R1 R2 R3 RM R4 R5 R6]].
  assert (<[n := (u, KShared)]> (held s) ++ given (hdl s) ≡ₚ (u, KShared) :: delete n (held s) ++ given (hdl s)) as Ep'.
  { rewrite app_comm_cons. by apply Permutation_app_tail, (insert_held n (u, k)). }
  split; [split|]; cbn [data pend hdl holders].
  - eapply good_put; [done|done|done| |].
    + intros Hok. eapply stub_ok_perm; [symmetry; apply at_perm, Ep'|]. rewrite at_this by done. eapply stub_share; [done|]. eapply stub_ok_perm; [|done]. by rewrite (at_perm _ _ _ Ep), at_this.
    + intros j Hj. etransitivity; [apply at_perm, Ep'|]. by rewrite (at_perm j _ _ Ep), !at_other.
  - split; try done. case_match; [|done]. intros x [->|Hx]%elem_of_cons; [done|by apply R2]. 
  - intros _ N. eapply noted_put; [done|done| |].
    + intros Hd. apply elem_notes. cbn [pend data hdl]. assert (deliverable rs = true \/ exists f l, waits rs = (SharedWaitE, f) :: l) as [Hd'|(f & l & Ew)].
      { revert Hd. unfold deliverable. fields. destruct (waits rs) as [|[[] f] l]; [done|by left|right; by eexists _, _|by left]. }
      * apply stub_done in Ers as [? Ers]. specialize (N _ _ Ers Hd'). rewrite Z2Nat.id in N by done. apply elem_notes in N as [N|N]; [left|by right]. case_match; [by right|done].
      * left. rewrite Ew. fields. rewrite Eu. destruct u. by left.
    + intros x Hx _. apply elem_notes in Hx as [Hx|Hx]; apply elem_notes; [left|by right]. cbn [pend]. case_match; [by right|done].
Qed.

(** ** Notifying *)

Lemma notify_outcome s n u : inv s -> pend s !! n = Some u -> keeps True s (mkSys (notifyObject (data s) u) (held s) (delete n (pend s)) (hdl s)).
Proof.
  intros [G [R1 R2 R3 RM R4 [R5 R5'] R6]] E. pose proof (delete_Permutation _ _ _ E) as Ep.
  assert (exists r e, notifyObject (data s) u = with_sig (with_fill (data s) (fillerasevec (data s) ++ [u])) r e /\ r = true /\ (0 < e)%nat) as (r & e & -> & -> & He).
  { unfold notifyObject. cbn [fillerasevec raised with_fill]. rewrite length_app. destruct (raised (data s)) eqn:Er.
    - exists true, (events (data s)). split; [|split; [done|by apply R5']]. rewrite andb_false_r. unfold with_fill, with_sig. cbn. by rewrite Er.
    - rewrite (proj2 R5 eq_refl). cbn [length Nat.add Nat.eqb andb negb]. eexists _, _. split; [done|]. split; [done|]. cbn. lia. }
  split; [split|]; [done| |].
  - split; try done; cbn [data with_sig with_fill fillerasevec conserasevec raised events pend objmaxcnt hdl].
    + intros x Hx. apply R2. rewrite Ep. rewrite !elem_of_app in *. rewrite elem_of_cons. rewrite list_elem_of_singleton in Hx. tauto.
    + split; [|done]. split; [|done]. by intros [_ ?]%app_eq_nil.
  - intros _ N i rs Ei Hd. specialize (N i rs Ei Hd). apply elem_notes in N. apply elem_notes. cbn [with_sig with_fill fillerasevec pend data hdl].
    rewrite Ep, elem_of_cons in N. rewrite elem_of_app, list_elem_of_singleton. tauto.
Qed.

Lemma raise_outcome s : inv s -> keeps True s (with_data s (raise (data s))).
Proof.
  intros [G [R1 R2 R3 RM R4 [R5 R5'] R6]]. split; [split|]; [done| |done]. split; try done. cbn. split; [done|]. lia.
Qed.

(** ** The event handler *)

Lemma take_idle s : inv s -> hdl s = HIdle -> exists e, onEvent_take (data s) = with_cons (with_fill (with_sig (data s) false e) []) (fillerasevec (data s)).
Proof.
  intros [_ [_ _ _ _ _ [R5 _] R6]] Eh. destruct (R6 Eh) as (Ec & _ & _). unfold onEvent_take. destruct (raised (data s)) eqn:Er; cbn [andb].
  - rewrite bool_decide_false; [|intros E; apply R5 in E; congruence]. cbn [negb]. eexists. cbn [with_sig fillerasevec conserasevec]. by rewrite Ec.
  - exists (Nat.pred (events (data s))). unfold with_cons, with_fill, with_sig. cbn. by rewrite Ec, (proj2 R5 eq_refl).
Qed.

Lemma take_outcome s : inv s -> hdl s = HIdle ->
  keeps True s (mkSys (onEvent_take (data s)) (held s) (pend s) (HTaken (conserasevec (onEvent_take (data s))) [])).
Proof.
  intros I Eh. destruct (take_idle s I Eh) as [e ->]. destruct I as [G [R1 R2 R3 RM R4 [R5 R5'] R6]]. unfold holders in G. rewrite Eh in *. cbn [given taken caching] in *.
  split; [split|]; [done| |].
  - split; try done; cbn [data with_sig with_fill with_cons fillerasevec conserasevec raised events pend objmaxcnt hdl taken given].
    intros x Hx. apply R2. rewrite !elem_of_app in *. tauto.
  - intros _ N i rs Ei Hd. specialize (N i rs Ei Hd). apply elem_notes in N. apply elem_notes. cbn [data with_sig with_fill with_cons fillerasevec conserasevec pend hdl taken].
    rewrite Eh in N. cbn [taken] in N. destruct N as [N|[N|N]]; [by left|by right; right|by apply elem_of_nil in N].
Qed.

Lemma give_outcome s n u k l g : inv s -> hdl s = HTaken l g -> held s !! n = Some (u, k) -> k <> KAlive ->
  keeps True s (mkSys (executeBeforeErase (data s) [u]) (delete n (held s)) (pend s) (HTaken l (g ++ [(u, k)]))).
Proof.
  intros I Eh E Hk. pose proof (held_at _ _ _ _ E) as Ep. destruct (held_stub s u k I) as [Hkn _]; [rewrite Ep; by left|].
  destruct I as [G [R1 R2 R3 RM R4 [R5 R5'] R6]]. rewrite Eh in Ep, R2, R3, R4. split; [split|].
  - eapply good_perm; [|exact G]. rewrite Ep. unfold holders. cbn [given held hdl]. rewrite app_assoc. apply Permutation_cons_append.
  - split; try done; cbn [data executeBeforeErase with_cons fillerasevec conserasevec pend objmaxcnt hdl taken given caching] in *.
    + intros x Hx. rewrite !elem_of_app, list_elem_of_singleton in Hx. assert (x = u \/ x ∈ pend s ++ fillerasevec (data s) ++ conserasevec (data s) ++ l) as [->|Hx'] by (rewrite !elem_of_app; tauto); [done|by apply R2].
    + intros y [Hy| ->%list_elem_of_singleton]%elem_of_app; [by apply R4|done].
  - intros _ N i rs Ei Hd. specialize (N i rs Ei Hd). apply elem_notes in N. apply elem_notes. rewrite Eh in N. exact N.
Qed.

Lemma before_outcome s l g : inv s -> hdl s = HTaken l g -> keeps True s (mkSys (data s) (held s) (pend s) (HErase l g)).
Proof.
  intros [G [R1 R2 R3 RM R4 R5 R6]] Eh. unfold holders in G. rewrite Eh in *. split; [split|]; [done|by split|].
  intros _ N i rs Ei Hd. specialize (N i rs Ei Hd). apply elem_notes in N. apply elem_notes. rewrite Eh in N. exact N.
Qed.

Lemma erased_outcome s : inv s -> hdl s = HErase [] [] -> keeps True s (mkSys (data s) (held s) (pend s) (HCache (cacheobjidxvec (data s)))).
Proof.
  intros [G [R1 R2 R3 RM R4 R5 R6]] Eh. unfold holders in G. rewrite Eh in *. split; [split|]; [done| |].
  - split; try done. intros i Hi. apply R3. cbn [caching hdl] in *. rewrite app_nil_r. by apply elem_of_app in Hi as [|].
  - intros _ N i rs Ei Hd. specialize (N i rs Ei Hd). apply elem_notes in N. apply elem_notes. rewrite Eh in N. exact N.
Qed.

Lemma done_outcome s again : inv s -> hdl s = HCache [] -> keeps True s (mkSys (onEvent_done (data s) again) (held s) (pend s) HIdle).
Proof.
  intros [G [R1 R2 R3 RM R4 [R5 R5'] R6]] Eh. unfold holders in G. rewrite Eh in *.
  assert (exists e, onEvent_done (data s) again = with_sig (with_cons (with_exe (with_idxvec (data s) []) []) []) (raised (data s)) e /\ (events (data s) <= e)%nat) as (e & -> & He).
  { unfold onEvent_done. destruct again; eexists; (split; [done|]); cbn; lia. }
  split; [split|]; [done| |].
  - split; try done; cbn [data with_sig with_cons with_exe with_idxvec fillerasevec conserasevec raised events pend objmaxcnt hdl taken given caching cacheobjidxvec].
    + intros x Hx. apply R2. rewrite !elem_of_app in *. cbn [taken]. rewrite !elem_of_nil in Hx. tauto.
    + by intros i Hi%elem_of_nil.
    + split; [done|]. intros Hr. specialize (R5' Hr). lia.
  - intros _ N i rs Ei Hd. specialize (N i rs Ei Hd). apply elem_notes in N. apply elem_notes. rewrite Eh in N. exact N.
Qed.

(** The requests of the object [i] that were called with its id [v] *)
Definition calls (i v : Z) (l : list (WaitKind * F)) : list (UniqueId * (WaitKind * F)) := (fun w => (mkUniqueId i v, w)) <$> l.

(** [doExecuteErase] serves a prefix of the requests, in order, and stops at one that has to wait. *)
Lemma serve_spec i l rs rs' e : 0 <= usecnt rs -> serve i rs l = (rs', e) ->
  uid rs' = uid rs /\ deliverable rs' = false /\ (exists l1, l = l1 ++ waits rs' /\ e = calls i (uid rs) l1) /\
  forall h, stub_ok h rs -> stub_ok ((served <$> e) ++ h) rs'.
Proof.
  revert rs rs' e. induction l as [|[k f] l IH]; intros rs rs' e Hp E; cbn [serve] in E.
  { simplify_eq. split; [done|]. split; [done|]. split; [by exists []|]. intros h Hok. by apply (stub_ok_same _ rs). }
  destruct (can_deliver k rs) eqn:Ec.
  - destruct (serve i (with_use _ _) l) as [rs1 e1] eqn:E1. simplify_eq. fields.
    eapply IH in E1; [|fields; lia]. destruct E1 as (Hu & Hd & (l1 & -> & ->) & Hok). split; [done|]. split; [done|]. split; [by exists ((k, f) :: l1)|].
    intros h Hh. cbn [fmap list_fmap app]. rewrite Permutation_middle. apply Hok.
    assert (grabs (mode k) rs (with_use (with_state rs (match k with SharedWaitE => SharedLockStateE | _ => UniqueLockStateE end)) (usecnt rs + 1))) as [_ Hg]; [|by apply Hg].
    destruct k; cbn [can_deliver mode] in *.
    + apply grabs_unique. lia.
    + apply grabs_shared; try done. apply orb_true_iff in Ec as [Ec|Ec]; [left; lia|right; by apply bool_decide_eq_true in Ec].
    + apply grabs_unique. lia.
  - simplify_eq. split; [done|]. split; [|split; [by exists []|intros h Hok; by apply (stub_ok_same _ rs)]]. unfold deliverable. fields. by destruct k.
Qed.

(** Each object's requests: a prefix was called, in order, the rest waits. *)
Definition moved (d d' : Data) : Prop :=
  forall i rs, stubvec d !! i = Some rs -> exists rs' l, stubvec d' !! i = Some rs' /\ uid rs' = uid rs /\ waits rs = l ++ waits rs' /\
    filter (fun x => uid_index x.1 = Z.of_nat i) (exewaitvec d') = filter (fun x => uid_index x.1 = Z.of_nat i) (exewaitvec d) ++ calls (Z.of_nat i) (uid rs) l.

Lemma moved_refl d : moved d d.
Proof. intros i rs E. exists rs, []. cbn. by rewrite app_nil_r. Qed.

Lemma moved_trans d1 d2 d3 : moved d1 d2 -> moved d2 d3 -> moved d1 d3.
Proof.
  intros H1 H2 i rs E. destruct (H1 i rs E) as (rs' & l & E' & Eu & Ew & Ee). destruct (H2 i rs' E') as (rs2 & l' & E2 & Eu2 & Ew2 & Ee2).
  exists rs2, (l ++ l'). split; [done|]. split; [congruence|]. split; [by rewrite Ew, Ew2, app_assoc|]. rewrite Ee2, Ee, Eu. unfold calls. by rewrite fmap_app, app_assoc.
Qed.

Lemma moved_put d i rs rs' v : stub d i = Done rs -> uid rs' = uid rs -> waits rs' = waits rs -> moved d (with_idxvec (put d i rs') v).
Proof.
  intros [Hi E]%stub_done Eu Ew j rs2 Ej. cbn [stubvec exewaitvec with_idxvec put with_stubs]. exists (if decide (j = Z.to_nat i) then rs' else rs2), []. cbn [calls fmap list_fmap app]. rewrite app_nil_r.
  destruct (decide (j = Z.to_nat i)) as [->|Hj]; [|by rewrite list_lookup_insert_ne by done].
  rewrite list_lookup_insert_eq by (by eapply lookup_lt_Some). assert (rs2 = rs) as -> by congruence. done.
Qed.

(** The parts of the store that a step of the handler keeps *)
Definition same_lists (d d' : Data) : Prop :=
  objmaxcnt d' = objmaxcnt d /\ cacheobjidxstk d' = cacheobjidxstk d /\ fillerasevec d' = fillerasevec d /\ conserasevec d' = conserasevec d /\ raised d' = raised d /\ events d' = events d /\ mtxstore d' = mtxstore d.

Lemma filter_calls i j v l : filter (fun x => uid_index x.1 = j) (calls i v l) = if decide (i = j) then calls i v l else [].
Proof.
  induction l as [|w l IH]; cbn [calls fmap list_fmap]; [by case_decide|]. rewrite filter_cons. cbn [fst uid_index]. unfold calls in IH. rewrite IH. by case_decide.
Qed.

(** [doExecuteErase] on an object that became [rs1] *)
Lemma execute_erase_spec d i rs rs1 : stub d i = Done rs -> uid rs1 = uid rs -> waits rs1 = waits rs -> 0 <= usecnt rs1 ->
  exists rs' e, doExecuteErase (put d i rs1) i = Done (with_exe (put d i rs') (exewaitvec d ++ e)) /\
    uid rs' = uid rs /\ deliverable rs' = false /\ (forall h, stub_ok h rs1 -> stub_ok ((served <$> e) ++ h) rs') /\
    (forall x, x ∈ e -> uid_index x.1 = i) /\ moved d (with_exe (put d i rs') (exewaitvec d ++ e)).
Proof.
  intros E Eu Ew Hp. unfold doExecuteErase. rewrite (stub_of_put _ _ _ _ E). cbn [res_bind]. destruct (serve i rs1 (waits rs1)) as [rs' e] eqn:Es.
  destruct (serve_spec _ _ _ _ _ Hp Es) as (Hu & Hd & (l1 & Hl & ->) & Hok). exists rs'. eexists. rewrite put_put. split; [done|].
  split; [congruence|]. split; [done|]. split; [done|]. split; [intros x (w & -> & _)%list_elem_of_fmap; done|].
  apply stub_done in E as [Hi E]. intros j rs2 Ej. cbn [stubvec exewaitvec with_exe put with_stubs]. rewrite filter_app, filter_calls.
  destruct (decide (j = Z.to_nat i)) as [->|Hj].
  - exists rs', l1. rewrite list_lookup_insert_eq by (by eapply lookup_lt_Some). assert (rs2 = rs) as -> by congruence.
    split; [done|]. split; [congruence|]. split; [congruence|]. rewrite Z2Nat.id, decide_True, Eu by done. done.
  - exists rs2, []. rewrite list_lookup_insert_ne by done. rewrite decide_False by lia. done.
Qed.

(** A step of the pass over the erased pointers; one that the controller added was held till now. *)
Record erased (d d' : Data) (u : UniqueId) (e : list (UniqueId * (WaitKind * F))) (h : list holder) : Prop := {
  e_exe : exewaitvec d' = exewaitvec d ++ e;
  e_good : good (stubvec d') (objmaxcnt d') (mtxstore d') ((served <$> e) ++ h);
  e_same : same_lists d d';
  e_idx : forall i, i ∈ cacheobjidxvec d' -> i ∈ cacheobjidxvec d \/ i = uid_index u;
  e_moved : moved d d';
  e_noted : forall l l', noted (stubvec d) l -> (forall x, x ∈ l -> x ∈ l' \/ x = u) -> noted (stubvec d') l'
}.

(** The object, after the count went down for an added pointer *)
Definition lowered (added : bool) (rs : Stub) : Stub := if added then with_use rs (usecnt rs - 1) else rs.

Definition gives (added : bool) (u : UniqueId) (h h0 : list holder) : Prop :=
  if added then exists k, k <> KAlive /\ h ≡ₚ (u, k) :: h0 else h ≡ₚ h0.

Lemma lowered_ok added u h h0 rs : gives added u h h0 -> stub_ok (at_index (uid_index u) h) rs -> stub_ok (at_index (uid_index u) h0) (lowered added rs).
Proof.
  destruct added; cbn [gives lowered].
  - intros (k & Hk & E). rewrite (at_perm _ _ _ E), at_this by done. intros Hok%stub_drop. by rewrite bool_decide_false in Hok.
  - intros E. by rewrite (at_perm _ _ _ E).
Qed.

Lemma gives_other added u h h0 j : gives added u h h0 -> j <> uid_index u -> at_index j h0 ≡ₚ at_index j h.
Proof. destruct added; cbn [gives]; [intros (k & _ & ->) Hj; by rewrite at_other|by intros ->]. Qed.

Lemma at_served i j e h : (forall x, x ∈ e -> uid_index x.1 = i) -> at_index j ((served <$> e) ++ h) = (if decide (i = j) then served <$> e else []) ++ at_index j h.
Proof.
  intros He. rewrite at_app. f_equal. unfold at_index. induction e as [|x e IH]; [by case_decide|]. cbn [fmap list_fmap]. rewrite filter_cons.
  rewrite IH by (intros y Hy; apply He; by right). cbn [served fst]. rewrite (He x) by (by left). by case_decide.
Qed.

Lemma erased_spec d added u h h0 : good (stubvec d) (objmaxcnt d) (mtxstore d) h -> known (mtxstore d) (objmaxcnt d) (uid_index u) -> gives added u h h0 ->
  exists d' e, erase_one d added u = Done d' /\ erased d d' u e h0.
Proof.
  intros G [Hi Hm] Hg. destruct (stub_in _ _ _ G Hi) as [rs E]. pose proof Hm as [x0 Hx0]. unfold erase_one, mutex. rewrite Hx0. cbn [res_bind]. rewrite E. cbn [res_bind].
  destruct (Z.eqb_spec (uid_unique u) (uid rs)) as [Eu|Eu].
  2:{ assert (h ≡ₚ h0) as Hh.
      { destruct added; [|done]. destruct Hg as (k & Hk & Hp). exfalso. apply Eu. apply stub_done in E as [? E].
        apply (so_uid _ _ (g_stub _ _ _ _ G _ _ E) (u, k)). rewrite (at_perm _ _ _ Hp), Z2Nat.id, at_this by done. by left. }
      exists d, []. split; [done|]. split; [by rewrite app_nil_r|by eapply good_perm|done|by auto|apply moved_refl|].
      intros l l' N Hl i rs' Ei Hd. destruct (Hl _ (N i rs' Ei Hd)) as [| <-]; [done|]. exfalso. apply Eu. cbn in *. apply stub_done in E as [_ E]. rewrite Nat2Z.id in E. congruence. }
  change (if added then with_use rs (usecnt rs - 1) else rs) with (lowered added rs).
  assert (uid (lowered added rs) = uid rs /\ waits (lowered added rs) = waits rs) as [Hu Hw] by (by destruct added).
  assert (stub_ok (at_index (uid_index u) h0) (lowered added rs)) as Hok.
  { eapply lowered_ok; [done|]. apply stub_done in E as [? E]. rewrite <- (Z2Nat.id (uid_index u)) by done. by apply G. }
  destruct (canClear (lowered added rs)) eqn:Ec.
  - eexists _, []. split; [done|]. split; [by rewrite app_nil_r| |done| |..].
    + eapply (good_put d h); [done|done|done|by intros _|by intros; eapply gives_other].
    + intros i Hx. cbn [with_idxvec cacheobjidxvec] in Hx. by apply elem_of_app in Hx as [Hx|Hx%list_elem_of_singleton]; [left|right].
    + by eapply moved_put.
    + intros l l' N Hl. eapply noted_put; [done|done| |].
      * unfold canClear in Ec. unfold deliverable. destruct (waits (lowered added rs)); [done|]. rewrite andb_false_r in Ec. done.
      * intros x Hx Hn. by destruct (Hl x Hx) as [| ->].
  - destruct (execute_erase_spec d (uid_index u) rs (lowered added rs) E Hu Hw) as (rs' & e & -> & Hu' & Hd & Hs & He & Hmv); [rewrite (so_use _ _ Hok); apply Z.add_nonneg_nonneg; apply count_nonneg|].
    eexists _, e. split; [done|]. split; [done| |done|by auto|done|].
    + eapply (good_put d h); [done|done|done| |].
      * intros _. rewrite at_served with (i := uid_index u), decide_True by done. by apply Hs.
      * intros j Hj. rewrite at_served with (i := uid_index u), decide_False by done. by eapply gives_other.
    + intros l l' N Hl. eapply noted_put; [done|done|by rewrite Hd|]. intros x Hx Hn. by destruct (Hl x Hx) as [| ->].
Qed.

Lemma erase_outcome s added u l g x : inv s -> known (mtxstore (data s)) (objmaxcnt (data s)) (uid_index u) ->
  gives added u (holders s) (held s ++ g) -> x = HErase l g ->
  (forall v, v ∈ taken (hdl s) -> v ∈ l \/ v = u) -> (forall v, v ∈ l -> v ∈ taken (hdl s)) -> (forall y, y ∈ g -> y ∈ given (hdl s)) ->
  outcome True s (let! d' := erase_one (data s) added u in Done (mkSys d' (deliver (data s) d' ++ held s) (pend s) x)).
Proof.
  intros [G [R1 R2 R3 RM R4 R5 R6]] Hi Hg -> Hl Hl' Hy. destruct (erased_spec _ _ _ _ _ G Hi Hg) as (d' & e & -> & [Ee Eg (Em & Es & Ef & Ec & Er & Ev & Ex) Ei _ En]). cbn [res_bind].
  apply outcome_done. unfold deliver. rewrite Ee, drop_app_length. split; [split|]; cbn [data pend hdl].
  - unfold holders. cbn [held hdl given]. by rewrite <- app_assoc.
  - split; rewrite ?Em, ?Es, ?Ef, ?Ec, ?Er, ?Ev, ?Ex; try done.
    + intros v Hv. apply R2. cbn [taken] in Hv. rewrite !elem_of_app in *. specialize (Hl' v). tauto.
    + intros i Hx. cbn [caching] in Hx. rewrite app_nil_r in Hx. destruct (Ei i Hx) as [Hx'| ->]; [|done]. apply R3. apply elem_of_app. by left.
    + intros y Hx. by apply R4, Hy.
  - intros _ N. apply (En _ _ N). intros v Hv. apply elem_notes in Hv. destruct Hv as [Hv|[Hv|Hv]].
    + left. apply elem_notes. by left.
    + left. apply elem_notes. right. left. cbn [data]. by rewrite Ef.
    + destruct (Hl v Hv) as [|]; [left; apply elem_notes; by right; right|by right].
Qed.

Lemma erase_taken_outcome s u l g : inv s -> hdl s = HErase (u :: l) g ->
  outcome True s (let! d' := erase_one (data s) false u in Done (mkSys d' (deliver (data s) d' ++ held s) (pend s) (HErase l g))).
Proof.
  intros I Eh. eapply erase_outcome; [done| | |done| | |]; rewrite ?Eh; cbn [gives given taken]; [|by unfold holders; rewrite Eh|..].
  - apply (r_ids _ _ _ (i_rest _ I)). rewrite Eh, !elem_of_app. do 3 right. by left.
  - intros w [->|Hw]%elem_of_cons; auto.
  - by right.
  - done.
Qed.

Lemma erase_given_outcome s v k g : inv s -> hdl s = HErase [] ((v, k) :: g) ->
  outcome True s (let! d' := erase_one (data s) true v in Done (mkSys d' (deliver (data s) d' ++ held s) (pend s) (HErase [] g))).
Proof.
  intros I Eh. assert ((v, k) ∈ holders s) as Hv by (unfold holders; rewrite Eh; cbn [given]; apply elem_of_app; right; by left).
  eapply erase_outcome; [done|by eapply held_stub| |done| | |]; rewrite ?Eh; cbn [gives given taken]; [|by auto..|by right].
  exists k. split; [|unfold holders; rewrite Eh; by rewrite Permutation_middle]. apply (r_given _ _ _ (i_rest _ I) (v, k)). rewrite Eh. by left.
Qed.

Lemma cache_outcome (clear : T -> T) s i l : inv s -> hdl s = HCache (i :: l) ->
  outcome True s (let! d := cache_one clear (data s) i in Done (mkSys d (held s) (pend s) (HCache l))).
Proof.
  intros [G [R1 R2 R3 RM R4 R5 R6]] Eh. unfold holders in G. rewrite Eh in *. cbn [given taken caching] in *.
  assert (known (mtxstore (data s)) (objmaxcnt (data s)) i) as Hkn by (apply R3, elem_of_app; right; by left). pose proof Hkn as [Hi Hm]. pose proof Hm as [x0 Hx0].
  destruct (stub_in _ _ _ G Hi) as [rs E]. unfold cache_one, mutex. rewrite Hx0. cbn [res_bind]. rewrite E. cbn [res_bind]. destruct (canClear rs) eqn:Ec; cbn [res_bind]; apply outcome_done.
  - split; [split|]; cbn [data pend hdl].
    + eapply (good_put (data s) (held s ++ [])); [done|done|done| |done]. intros Hok.
      assert (at_index i (held s ++ []) = []) as Hn.
      { unfold canClear in Ec. destruct Hok as [A B C D U]. apply elem_of_nil_inv. intros [u k] Hx. pose proof (count_elem k _ _ Hx eq_refl).
        pose proof (count_nonneg KUnique (at_index i (held s ++ []))). pose proof (count_nonneg KShared (at_index i (held s ++ []))). destruct k; lia. }
      change (holders _) with (held s ++ []). rewrite Hn in *. destruct Hok as [A B C D U]. by split; [..|intros x Hx%elem_of_nil].
    + split; try done; cbn [caching cacheobjidxvec cacheobjidxstk with_stk put with_stubs objmaxcnt].
      * intros j [->|Hj]%elem_of_cons; [done|by apply R1].
      * intros j Hj. apply R3. rewrite !elem_of_app in *. destruct Hj; [by left|right; by right].
    + intros _ N. eapply (noted_put (data s)); [done|done| |].
      * unfold canClear in Ec. unfold deliverable. cbn [with_obj Stub_clear waits]. destruct (waits rs); [done|]. by rewrite andb_false_r in Ec.
      * intros x Hx _. apply elem_notes in Hx. rewrite Eh in Hx. by apply elem_notes.
  - split; [split|]; cbn [data pend hdl]; [done| |].
    + split; try done. cbn [caching]. intros j Hj. apply R3. rewrite !elem_of_app in *. destruct Hj; [by left|right; by right].
    + intros _ N j rs' Ej Hd. specialize (N j rs' Ej Hd). apply elem_notes in N. rewrite Eh in N. by apply elem_notes.
Qed.

(** ** Every action *)

Section Actions.
Context (T_new : T) (clear : T -> T).

(** What an action does; [None] when it is not possible: a thread drops only what it holds and
    shares only a pointer to use, the controller finds objects of the store, and indices are not
    negative. *)
Definition act (a : Act) (s : Sys) : option (res Sys) :=
  let d := data s in
  match a with
  | AInsert k t => Some (let! (d, p) := insert T_new k d t in Done (hold k s d p))
  | AGet k u => if 0 <=? uid_index u then Some (let! (d, p) := get k d u in Done (hold k s d p)) else None
  | ARequest k f u => if 0 <=? uid_index u then Some (let! (d, a) := requestBy k d f u in Done (answered (mode k) s d a)) else None
  | ARequestNew f prep keeps =>
      if prepared_ok d prep then
        Some (let! x := requestReinit_new T_new d f prep keeps in let '(d, a, kept) := x in Done (hold KUnique (answered KUnique s d a) d kept))
      else None
  | ADrop n =>
      match held s !! n with
      | Some (u, k) =>
          if uid_index u <? objmaxcnt d then
            Some (let! _ := mutex d (uid_index u) in let! (d, _) := doDecrementObjectUseCount d u (bool_decide (k = KAlive)) in Done (mkSys d (delete n (held s)) (u :: pend s) (hdl s)))
          else Some (Done (mkSys d (delete n (held s)) (pend s) (hdl s)))
      | None => None
      end
  | AShare n =>
      match held s !! n with
      | Some (_, KAlive) | None => None
      | Some (u, _) =>
          Some (let! x := uniqueToShared_locked d u in
                let '(d, rv, do_notify) := x in
                Done (mkSys d (if rv then <[n := (u, KShared)]> (held s) else held s) (if do_notify then u :: pend s else pend s) (hdl s)))
      end
  | ANotify n => match pend s !! n with Some u => Some (Done (mkSys (notifyObject d u) (held s) (delete n (pend s)) (hdl s))) | None => None end
  | ARaise => Some (Done (with_data s (raise d)))
  | ATake =>
      match hdl s with
      | HIdle => if (0 <? events d)%nat then let d := onEvent_take d in Some (Done (mkSys d (held s) (pend s) (HTaken (conserasevec d) []))) else None
      | _ => None
      end
  | AGive n =>
      match hdl s, held s !! n with
      | HTaken l g, Some (u, k) =>
          if bool_decide (k = KAlive) then None
          else Some (Done (mkSys (executeBeforeErase d [u]) (delete n (held s)) (pend s) (HTaken l (g ++ [(u, k)]))))
      | _, _ => None
      end
  | AForge u => match hdl s with HTaken l g => Some (Done (mkSys (executeBeforeErase d [u]) (held s) (pend s) (HTaken l (g ++ [(u, KUnique)])))) | _ => None end
  | ABefore => match hdl s with HTaken l g => Some (Done (mkSys d (held s) (pend s) (HErase l g))) | _ => None end
  | AErase =>
      match hdl s with
      | HErase (u :: l) g => Some (let! d' := erase_one d false u in Done (mkSys d' (deliver d d' ++ held s) (pend s) (HErase l g)))
      | HErase [] ((u, _) :: g) => Some (let! d' := erase_one d true u in Done (mkSys d' (deliver d d' ++ held s) (pend s) (HErase [] g)))
      | HErase [] [] => Some (Done (mkSys d (held s) (pend s) (HCache (cacheobjidxvec d))))
      | _ => None
      end
  | ACache =>
      match hdl s with
      | HCache (i :: l) => Some (let! d := cache_one clear d i in Done (mkSys d (held s) (pend s) (HCache l)))
      | _ => None
      end
  | ADone again => match hdl s with HCache [] => Some (Done (mkSys (onEvent_done d again) (held s) (pend s) HIdle)) | _ => None end
  end.

(** The controller gives up only pointers that it holds. *)
Definition honest (a : Act) : bool := match a with AForge _ => false | _ => true end.

Definition step (s s' : Sys) : Prop := exists a, honest a = true /\ act a s = Some (Done s').
Definition reachable (s : Sys) : Prop := rtc step Sys_new s.

(** The actions that are possible, in a row *)
Fixpoint acts (l : list Act) (s : Sys) : option Sys :=
  match l with
  | [] => Some s
  | a :: l => match act a s with Some (Done s') => acts l s' | _ => None end
  end.

Lemma acts_rtc l s s' : forallb honest l = true -> acts l s = Some s' -> rtc step s s'.
Proof.
  revert s. induction l as [|a l IH]; intros s Hh E; cbn in E; [by simplify_eq|]. cbn in Hh. apply andb_prop in Hh as [Ha Hh].
  destruct (act a s) as [[s1| |]|] eqn:Ea; try done. eapply rtc_l; [by exists a|by apply IH].
Qed.

(** The mutexes that an action takes exist. Those of objects with pointers always do. *)
Definition locks (a : Act) (s : Sys) : Prop :=
  match a with
  | AInsert _ _ | ARequestNew _ PNew _ => can_allocate T_new (data s)
  | AGet _ u | ARequest _ _ u => uid_index u < objmaxcnt (data s) -> has_mutex (mtxstore (data s)) (uid_index u)
  | ARequestNew _ (PFound i) _ => has_mutex (mtxstore (data s)) i
  | _ => True
  end.

Lemma mutex_has (d : Data) i x : mutex d i = Done x -> has_mutex (mtxstore d) i.
Proof. by exists x. Qed.

Lemma allocates {B} (f : Data * Z -> res B) (d : Data) y :
  (let! x := doAllocateIndex T_new d in let! _ := mutex x.1 x.2 in f x) = Done y -> can_allocate T_new d.
Proof. intros ([d' i] & E & (x & Hx & _)%res_bind_done)%res_bind_done. exists d', i. split; [done|]. by exists x. Qed.

Lemma request_locks try k f (d : Data) u y : request try k d f u = Done y -> uid_index u < objmaxcnt d -> has_mutex (mtxstore d) (uid_index u).
Proof. unfold request. intros E Hi. rewrite (proj2 (Z.ltb_lt _ _) Hi) in E. apply res_bind_done in E as (x & Hx & _). by eapply mutex_has. Qed.

(** An action that is done took them. *)
Lemma done_locks a s s' : act a s = Some (Done s') -> locks a s.
Proof.
  destruct a as [k t|k u|k f u|f prep kp| | | | | | | | | | |]; try done; cbn [act locks].
  - intros [= (y & E & _)%res_bind_done]. apply (allocates (fun x => let! rs := stub x.1 x.2 in doTryGet k (match t with Some t => put x.1 x.2 (with_obj rs t) | None => x.1 end) x.2) (data s) y). rewrite <- E. unfold insert. by destruct (doAllocateIndex T_new (data s)) as [[]| |].
  - destruct (0 <=? uid_index u); [|done]. intros [= (y & E & _)%res_bind_done] Hi. unfold get in E. rewrite (proj2 (Z.ltb_lt _ _) Hi) in E. apply res_bind_done in E as (x & Hx & _). by eapply mutex_has.
  - destruct (0 <=? uid_index u); [|done]. intros [= (y & E & _)%res_bind_done]. destruct k; by eapply request_locks.
  - destruct (prepared_ok (data s) prep); [|done]. destruct prep as [i| |]; [| |done]; intros [= (y & E & _)%res_bind_done].
    + apply res_bind_done in E as (x & Hx & _). by eapply mutex_has.
    + unfold requestReinit_new in E. apply (allocates (fun x => let! (d, p) := doTryGetReinit x.1 x.2 in
        match p with
        | None => let! d := doPushWait d x.2 f ReinitWaitE in Done (d, Waits, None)
        | Some _ => if kp then let! d := doPushWait d x.2 f ReinitWaitE in Done (d, Waits, p) else Done (d, Called p, None)
        end) (data s) y). rewrite <- E. by destruct (doAllocateIndex T_new (data s)) as [[]| |].
Qed.

Lemma act_outcome a s r : inv s -> honest a = true -> locks a s -> act a s = Some r -> outcome (polite a s = true) s r.
Proof.
  intros I Hh Hlk E. assert (forall r, outcome True s r -> outcome (polite a s = true) s r) as Hw by (intros r' (s' & -> & K1 & K2); apply outcome_done; split; [done|]; auto).
  destruct a; cbn [act] in E; cbn [locks] in Hlk; try discriminate Hh.
  - simplify_eq. by apply Hw, insert_outcome.
  - destruct (Z.leb_spec 0 (uid_index u)); simplify_eq. by apply Hw, get_outcome.
  - destruct (Z.leb_spec 0 (uid_index u)); simplify_eq. by apply requestBy_outcome.
  - destruct (prepared_ok (data s) prep) eqn:Ep; simplify_eq. by apply Hw, requestNew_outcome.
  - destruct (held s !! n) as [[u k]|] eqn:En; [|done]. destruct (drop_outcome _ _ _ _ I En) as [Hu Ho]. rewrite Hu in E. simplify_eq. by apply Hw.
  - destruct (held s !! n) as [[u k]|] eqn:En; [|done]. destruct (decide (k = KAlive)) as [->|Hk]; [done|].
    apply Hw. pose proof (share_outcome _ _ _ _ I En Hk) as Ho. destruct k; [done| |]; simplify_eq; exact Ho.
  - destruct (pend s !! n) as [u|] eqn:En; simplify_eq. by apply Hw, outcome_done, notify_outcome.
  - simplify_eq. by apply Hw, outcome_done, raise_outcome.
  - destruct (hdl s) eqn:Eh; try done. destruct (0 <? events (data s))%nat; simplify_eq. apply Hw, outcome_done. by apply take_outcome.
  - destruct (hdl s) as [|l g| |] eqn:Eh; try done. destruct (held s !! n) as [[u k]|] eqn:En; [|done]. case_bool_decide; simplify_eq. apply Hw, outcome_done. by apply give_outcome.
  - destruct (hdl s) as [|l g| |] eqn:Eh; simplify_eq. by apply Hw, outcome_done, before_outcome.
  - destruct (hdl s) as [| |[|u l] [|[v k] g]|] eqn:Eh; simplify_eq; apply Hw.
    + by apply outcome_done, erased_outcome.
    + by eapply erase_given_outcome.
    + by eapply erase_taken_outcome.
    + by eapply erase_taken_outcome.
  - destruct (hdl s) as [| | |[|i l]] eqn:Eh; simplify_eq. by apply Hw, cache_outcome.
  - destruct (hdl s) as [| | |[|i l]] eqn:Eh; simplify_eq. by apply Hw, outcome_done, done_outcome.
Qed.

(** An action takes an index below 512: a free one, or the first of an empty store, or the one it is asked for. *)
Definition free_below (d : Data) : bool := match cacheobjidxstk d with i :: _ => i <? 512 | [] => objmaxcnt d =? 0 end.

Definition below (a : Act) (s : Sys) : bool :=
  match a with
  | AInsert _ _ | ARequestNew _ PNew _ => free_below (data s)
  | AGet _ u | ARequest _ _ u => uid_index u <? 512
  | ARequestNew _ (PFound i) _ => i <? 512
  | _ => true
  end.

Lemma below_allocates s : inv s -> free_below (data s) = true -> can_allocate T_new (data s).
Proof.
  intros I. pose proof (r_mtx _ _ _ (i_rest _ I)) as Hm. unfold can_allocate, doAllocateIndex, free_below. destruct (cacheobjidxstk (data s)) as [|i st] eqn:Es.
  - intros E0%Z.eqb_eq. rewrite E0. destruct Hm as [Q _]. rewrite MutualStore.visit_none. cbn [res_bind with_mtx with_max with_stk with_stubs mtxstore]. rewrite MutualStore.visit_none. cbn [res_bind].
    destruct (MutualStore.safeAt_at 3 6 (mtxstore (data s)) 0 Q ltac:(lia)) as (m & x & Ea & Em & _). rewrite Ea. cbn [res_bind]. eexists _, _. split; [done|]. by exists x.
  - intros Hi%Z.ltb_lt. eexists _, _. split; [done|]. cbn [with_stk mtxstore]. destruct (r_stk _ _ _ (i_rest _ I) i) as [H0 H1]; [rewrite Es; by left|]. apply (has_first _ (objmaxcnt (data s))); [done|lia|lia].
Qed.

Lemma below_locks a s r : inv s -> act a s = Some r -> below a s = true -> locks a s.
Proof.
  intros I E Hb. pose proof (r_mtx _ _ _ (i_rest _ I)) as Hm. destruct a; try done; cbn [below] in Hb; cbn [locks act] in *.
  - by apply below_allocates.
  - destruct (Z.leb_spec 0 (uid_index u)); [|done]. apply Z.ltb_lt in Hb. intros Hi. apply (has_first _ (objmaxcnt (data s))); [done|lia|lia].
  - destruct (Z.leb_spec 0 (uid_index u)); [|done]. apply Z.ltb_lt in Hb. intros Hi. apply (has_first _ (objmaxcnt (data s))); [done|lia|lia].
  - destruct prep as [i| |]; [|by apply below_allocates|done]. cbn [prepared_ok] in E. destruct ((0 <=? i) && (i <? objmaxcnt (data s))) eqn:Ep; [|done]. apply Z.ltb_lt in Hb. apply (has_first _ (objmaxcnt (data s))); [done|lia|lia].
Qed.

End Actions.
End System.
End SharedStoreProofs.
