(* ===== verification/SharedStoreLife.v ===== *)
(** * The shared store: life

    What holds in every state that threads, controller and event handler of a shared store reach,
    and runs that show what does not. *)

From stdpp Require Import list relations.
From S2P Require Import Prelude FrameCommon MutualStore SharedStore SharedStoreProofs.
Import FrameCommon SharedStore SharedStoreProofs.
#[local] Open Scope res_scope.
#[local] Open Scope Z_scope.

Module SharedStoreLife.

Section Life.
Context {T F : Type} (T_new : T) (clear : T -> T).

Abbreviation Sys := (Sys (T := T) (F := F)).
Abbreviation Data := (Data (T := T) (F := F)).
Abbreviation act := (act (F := F) T_new clear).
Abbreviation step := (step (F := F) T_new clear).
Abbreviation reachable := (reachable (F := F) T_new clear).

(** ** Exclusion *)

Lemma inv_new : inv (Sys_new (T := T) (F := F)).
Proof.
  split; split; cbn; try done; try (by intros ? ?%elem_of_nil).
Qed.

Lemma step_keeps s s' : inv s -> step s s' -> inv s'.
Proof. intros I (a & Hh & E). destruct (act_outcome _ _ a s _ I Hh (done_locks _ _ _ _ _ E) E) as (? & [= <-] & ? & _). done. Qed.

Lemma shared_inv s : reachable s -> inv s.
Proof.
  unfold SharedStoreProofs.reachable. remember Sys_new as s0 eqn:E. intros R. assert (inv s0) as I by (rewrite E; apply inv_new). clear E.
  induction R as [|s s' s'' St _ IH]; [done|]. by apply IH, (step_keeps s).
Qed.

(** A unique pointer to an object is the only one that uses it, and an object with a pointer keeps its id. *)
Definition exclusive (s : Sys) : Prop :=
  (forall n m u v k, holders s !! n = Some (u, KUnique) -> holders s !! m = Some (v, k) -> n <> m -> uid_index u = uid_index v -> k = KAlive) /\
  (forall u k, (u, k) ∈ holders s -> exists rs, stub (data s) (uid_index u) = Done rs /\ uid rs = uid_unique u /\ canClear rs = false).

Lemma two_at (h : list (UniqueId * Kind)) n m x y i : h !! n = Some x -> h !! m = Some y -> n <> m -> uid_index x.1 = i -> uid_index y.1 = i ->
  exists h', at_index i h ≡ₚ x :: y :: h'.
Proof.
  intros En Em Hn Hx Hy. assert (exists h', h ≡ₚ x :: y :: h') as [h' E].
  { pose proof (delete_Permutation _ _ _ En) as E. assert (y ∈ delete n h) as [h' E']%elem_of_Permutation; [|exists h'; by rewrite E, E'].
    destruct (decide (m < n)%nat).
    - apply (list_elem_of_lookup_2 _ m). by rewrite list_lookup_delete_lt.
    - apply (list_elem_of_lookup_2 _ (pred m)). rewrite list_lookup_delete_ge by lia. by replace (S (pred m)) with m by lia. }
  exists (at_index i h'). rewrite (at_perm _ _ _ E). destruct x, y. by rewrite !at_this.
Qed.

Lemma inv_exclusive s : inv s -> exclusive s.
Proof.
  intros I. split.
  - intros n m u v k En Em Hn Hu. destruct (held_stub s u KUnique I) as [_ (rs & Ers & _)]; [by eapply list_elem_of_lookup_2|].
    apply stub_done in Ers as [Hi Ers]. pose proof (g_stub _ _ _ _ (i_good _ I) _ _ Ers) as Hok. rewrite Z2Nat.id in Hok by done.
    destruct (two_at _ _ _ _ _ (uid_index u) En Em Hn eq_refl (eq_sym Hu)) as [h' Ep]. apply (stub_ok_perm _ _ _ Ep) in Hok. destruct Hok as [_ _ C D _].
    pose proof (count_nonneg KUnique h'). pose proof (count_nonneg KShared h'). revert C D. rewrite !count_cons. cbn [snd].
    destruct k; [done|..]; repeat ((rewrite decide_True by done) || (rewrite decide_False by done)); intros C D; exfalso; [destruct D as [D _]; lia|lia].
  - intros u k Hx. destruct (held_stub s u k I Hx) as [_ (rs & Ers & Eu)]. exists rs. split; [done|]. split; [done|].
    apply stub_done in Ers as [Hi Ers]. destruct (g_stub _ _ _ _ (i_good _ I) _ _ Ers) as [A B C D _]. rewrite Z2Nat.id in A, B by done.
    assert ((u, k) ∈ at_index (uid_index u) (holders s)) as Hx' by (by apply list_elem_of_filter). pose proof (count_elem k _ _ Hx' eq_refl).
    pose proof (count_nonneg KUnique (at_index (uid_index u) (holders s))). pose proof (count_nonneg KShared (at_index (uid_index u) (holders s))).
    unfold canClear. destruct (Z.eqb_spec (usecnt rs) 0), (Z.eqb_spec (alivecnt rs) 0); try done. destruct k; lia.
Qed.

(** C8: Threads insert, get, request, drop and share pointers and the controller gives up pointers that it holds, in any order and in between the steps of the event handler. Then a unique pointer is the only pointer in use to its object, and an object that somebody points to, even to keep it only, is neither cleared nor given another id. And no operation accesses an object or a mutex that is not there, as long as the indices that it takes are below 512, where mutexes always exist ([mutex_missing]; a controller that gives up pointers of others: [forged_cleared]). *)
Theorem shared_exclusive (s : Sys) : reachable s ->
  exclusive s /\ forall a r, honest a = true -> below a s = true -> act a s = Some r -> exists s', r = Done s'.
Proof.
  intros I%shared_inv. split; [by apply inv_exclusive|]. intros a r Hh Hb E. destruct (act_outcome _ _ a s r I Hh (below_locks _ _ a s r I E Hb) E) as (s' & -> & _). by exists s'.
Qed.

(** ** Requests *)

Definition polite_step (s s' : Sys) : Prop := exists a, honest a = true /\ polite a s = true /\ act a s = Some (Done s').

Lemma polite_inv s : rtc polite_step Sys_new s -> inv s /\ all_noted s.
Proof.
  remember Sys_new as s0 eqn:E. intros R. assert (inv s0 /\ all_noted s0) as I by (rewrite E; split; [apply inv_new|intros i rs Ei; cbn in Ei; by rewrite lookup_nil in Ei]). clear E.
  induction R as [|s s' s'' (a & Hh & Hp & Ea) _ IH]; [done|]. apply IH. destruct I as [I N]. destruct (act_outcome _ _ a s _ I Hh (done_locks _ _ _ _ _ Ea) Ea) as (? & [= <-] & I' & N'). auto.
Qed.

Lemma onEvent_take_keeps (d : Data) : raised (onEvent_take d) = false /\ exewaitvec (onEvent_take d) = exewaitvec d /\ stubvec (onEvent_take d) = stubvec d.
Proof. unfold onEvent_take. by case_match. Qed.

(** After the pass over erased pointers with indices of the store *)
Record passed (d : Data) (l : list UniqueId) (d' : Data) : Prop := {
  p_moved : moved d d';
  p_noted : noted (stubvec d) l -> noted (stubvec d') [];
  p_same : mtxstore d' = mtxstore d /\ objmaxcnt d' = objmaxcnt d /\ Z.of_nat (length (stubvec d')) = objmaxcnt d;
  p_idx : forall i, i ∈ cacheobjidxvec d' -> i ∈ cacheobjidxvec d \/ known (mtxstore d) (objmaxcnt d) i
}.

Lemma erase_loop_done l : forall (d : Data) h n k, (k + length l <= n)%nat -> good (stubvec d) (objmaxcnt d) (mtxstore d) h ->
  (forall u, u ∈ l -> known (mtxstore d) (objmaxcnt d) (uid_index u)) -> exists d', erase_loop d n k l = Done d' /\ passed d l d'.
Proof.
  induction l as [|u l IH]; intros d h n k Hk G Hr; cbn [erase_loop length] in *.
  { exists d. split; [done|]. split; [apply moved_refl|done| |by left]. split; [done|]. split; [done|]. by destruct G. }
  assert (known (mtxstore d) (objmaxcnt d) (uid_index u)) as Hu by (apply Hr; by left).
  destruct (erased_spec d false u h h G Hu) as (d1 & e & E & [_ Eg (Em & _ & _ & _ & _ & _ & Ex) Ei Ev En]); [done|].
  replace (n <=? k)%nat with false by (symmetry; apply Nat.leb_gt; lia). rewrite E. cbn [res_bind].
  destruct (IH d1 _ n (S k) ltac:(lia) Eg) as (d2 & -> & [Ev2 N2 (S1 & S2 & S3) I2]).
  - intros v Hv. rewrite Em, Ex. apply Hr. by right.
  - rewrite Em, Ex in *. exists d2. split; [done|]. split; [by eapply moved_trans| |done|].
    + intros N. apply N2, (En _ _ N). intros v [->|Hv]%elem_of_cons; auto.
    + intros i Hi. destruct (I2 i Hi) as [Hi'|]; [|by right]. destruct (Ei i Hi') as [| ->]; [by left|by right].
Qed.

(** Requests of the object [i]: those called by the handler, in order, and those left *)
Definition served_at (d d' : Data) (i : nat) (l rest : list (WaitKind * F)) : Prop :=
  exists rs rs', stubvec d !! i = Some rs /\ stubvec d' !! i = Some rs' /\ waits rs = l ++ rest /\ waits rs' = rest /\ deliverable rs' = false /\
    filter (fun x => uid_index x.1 = Z.of_nat i) (exewaitvec d') = calls (Z.of_nat i) (uid rs) l.

(** C17: When shared pointers are requested only for objects in use, shared before or with requests, no request that can be served is forgotten: in a state where no operation is half done it has raised the event of the store, and the next event calls, for each object, the requests at the front of its queue that can be served, in order and each once with a pointer to that object, up to one that has to wait. *)
Theorem waiters_served (s : Sys) : rtc polite_step Sys_new s -> hdl s = HIdle -> pend s = [] ->
  (forall i rs, stubvec (data s) !! i = Some rs -> deliverable rs = true -> (0 < events (data s))%nat) /\
  exists d', doExecute_erase (onEvent_take (data s)) [] = Done d' /\
    forall i, (i < length (stubvec (data s)))%nat -> exists l rest, served_at (data s) d' i l rest.
Proof.
  intros [I N]%polite_inv Eh Ep. split.
  - intros i rs Ei Hd. specialize (N i rs Ei Hd). apply elem_notes in N. rewrite Eh, Ep in N. destruct (r_sig _ _ _ (i_rest _ I)) as [S1 S2]. apply S2.
    destruct (raised (data s)); [done|]. rewrite (proj2 S1 eq_refl) in N. cbn [taken] in N. rewrite !elem_of_nil in N. tauto.
  - destruct (take_outcome s I Eh) as [[G' R'] N']. specialize (N' Logic.I N). destruct (onEvent_take_keeps (data s)) as (Er & Ee & Es). destruct (r_idle _ _ _ (i_rest _ I) Eh) as (_ & Ex & _).
    cbn [data pend hdl] in *. set (d1 := onEvent_take (data s)) in *. unfold all_noted, notes in N'. cbn [data pend hdl taken] in N'.
    rewrite Ep, (proj2 (proj1 (r_sig _ _ _ R')) Er) in N'. unfold doExecute_erase, executeBeforeErase. cbn [conserasevec with_cons]. rewrite app_nil_r.
    destruct (erase_loop_done (conserasevec d1) (with_cons d1 (conserasevec d1)) _ (length (conserasevec d1)) 0 ltac:(lia) G') as (d2 & E2 & [M N2 _ _]).
    { intros u Hu. apply (r_ids _ _ _ R'). rewrite !elem_of_app. auto. }
    exists d2. split; [done|]. intros i [rs Ei]%lookup_lt_is_Some. destruct (M i rs) as (rs' & l & Ei' & Eu & Ew & Ecalls); [cbn [stubvec with_cons]; by rewrite Es|].
    exists l, (waits rs'), rs, rs'. do 4 (split; [done|]). split.
    + destruct (deliverable rs') eqn:Hd; [|done]. by specialize (N2 N' i rs' Ei' Hd) as ?%elem_of_nil.
    + rewrite Ecalls. cbn [exewaitvec with_cons]. by rewrite Ee, Ex.
Qed.

(** The actions of a list, while they are polite *)
Fixpoint polite_acts (l : list Act) (s : Sys) : option Sys :=
  match l with
  | [] => Some s
  | a :: l => if honest a && polite a s then match act a s with Some (Done s') => polite_acts l s' | _ => None end else None
  end.

Lemma polite_acts_rtc l s s' : polite_acts l s = Some s' -> rtc polite_step s s'.
Proof.
  revert s. induction l as [|a l IH]; intros s E; cbn in E; [by simplify_eq|]. destruct (honest a && polite a s) eqn:Ep; [|done]. apply andb_prop in Ep as [Hh Ep].
  destruct (act a s) as [[s1| |]|] eqn:Ea; try done. eapply rtc_l; [by exists a|by apply IH].
Qed.

(** ** The event handler by itself *)

Abbreviation acts := (acts (F := F) T_new clear).

Lemma acts_app l l' s s' : acts l s = Some s' -> acts (l ++ l') s = acts l' s'.
Proof.
  revert s. induction l as [|a l IH]; intros s E; cbn in E |- *; [by simplify_eq|]. destruct (act a s) as [[s1| |]|]; try done. by apply IH.
Qed.

Lemma erase_acts l : forall (d d' : Data) h p n k, (k + length l <= n)%nat -> erase_loop d n k l = Done d' ->
  exists h', acts (replicate (length l) AErase) (mkSys d h p (HErase l [])) = Some (mkSys d' h' p (HErase [] [])).
Proof.
  induction l as [|u l IH]; intros d d' h p n k Hk E; cbn [erase_loop length replicate] in *; [simplify_eq; by exists h|].
  replace (n <=? k)%nat with false in E by (symmetry; apply Nat.leb_gt; lia). apply res_bind_done in E as (d1 & E1 & E).
  destruct (IH d1 d' (deliver d d1 ++ h) p n (S k) ltac:(lia) E) as [h' Eh]. exists h'. cbn. by rewrite E1.
Qed.

Lemma cache_acts l : forall (d d' : Data) h p, cache_loop clear d l = Done d' -> acts (replicate (length l) ACache) (mkSys d h p (HCache l)) = Some (mkSys d' h p (HCache [])).
Proof.
  induction l as [|i l IH]; intros d d' h p E; cbn [cache_loop length replicate] in *; [by simplify_eq|].
  apply res_bind_done in E as (d1 & E1 & E). specialize (IH d1 d' h p E). cbn. by rewrite E1.
Qed.

(** [onEvent] is what the handler does when nothing comes in between. *)
Lemma onEvent_acts (s : Sys) d again : hdl s = HIdle -> (0 < events (data s))%nat -> onEvent clear (data s) [] again = Done d ->
  exists l h, acts l s = Some (mkSys d h (pend s) HIdle).
Proof.
  intros Eh Hv (d1 & E1 & (d2 & E2 & [= <-])%res_bind_done)%res_bind_done. unfold doExecute_erase, executeBeforeErase in E1. cbn [conserasevec with_cons] in E1. rewrite app_nil_r in E1.
  set (d0 := onEvent_take (data s)) in *. destruct (erase_acts (conserasevec d0) _ _ (held s) (pend s) (length (conserasevec d0)) 0 ltac:(lia) E1) as [h Ea].
  exists (ATake :: ABefore :: replicate (length (conserasevec d0)) AErase ++ AErase :: replicate (length (cacheobjidxvec d1)) ACache ++ [ADone again]), h.
  apply Nat.ltb_lt in Hv. cbn [SharedStoreProofs.acts SharedStoreProofs.act]. rewrite Eh, Hv. cbn [hdl data held pend SharedStoreProofs.acts SharedStoreProofs.act].
  replace (with_cons d0 (conserasevec d0)) with d0 in Ea by (by destruct d0). fold d0. rewrite (acts_app _ _ _ _ Ea). cbn [hdl data held pend SharedStoreProofs.acts SharedStoreProofs.act].
  rewrite (acts_app _ _ _ _ (cache_acts _ _ _ _ _ E2)). done.
Qed.

(** ** Erased pointers and free indices *)

(** How often an index or a pointer is in a list *)
Definition times {A} `{EqDecision A} (i : A) (l : list A) : nat := length (filter (fun x => x = i) l).

Lemma times_app {A} `{EqDecision A} (i : A) l l' : times i (l ++ l') = (times i l + times i l')%nat.
Proof. unfold times. by rewrite filter_app, length_app. Qed.

Lemma times_cons {A} `{EqDecision A} (i x : A) l : times i (x :: l) = ((if decide (x = i) then 1 else 0) + times i l)%nat.
Proof. unfold times. rewrite filter_cons. by case_decide. Qed.

Lemma stub_other (d : Data) i j rs : 0 <= j -> i <> j -> stub (put d j rs) i = stub d i.
Proof.
  intros Hj Hn. unfold stub, vec_get, put. cbn [stubvec with_stubs]. rewrite ?length_insert. case_match; [|done]. by rewrite list_lookup_insert_ne by lia.
Qed.

(** The pass over the erased pointers leaves an object that nobody uses, and notes its index once for each of them. *)
Lemma erase_one_at (d d' : Data) v i rs : stub d i = Done rs -> canClear rs = true -> erase_one d false v = Done d' ->
  stub d' i = Done rs /\ cacheobjidxstk d' = cacheobjidxstk d /\
  times i (cacheobjidxvec d') = (times i (cacheobjidxvec d) + if decide (v = mkUniqueId i (uid rs)) then 1 else 0)%nat.
Proof.
  intros E Hc H. apply res_bind_done in H as (x & _ & H). apply res_bind_done in H as (rs0 & E0 & H). pose proof E0 as [Hv _]%stub_done.
  destruct (Z.eqb_spec (uid_unique v) (uid rs0)) as [Eu|Eu].
  2:{ injection H as <-. rewrite decide_False; [by rewrite Nat.add_0_r|]. intros ->. cbn in *. congruence. }
  cbv iota zeta in H. destruct (decide (uid_index v = i)) as [<-|Hn].
  - rewrite E in E0. injection E0 as <-. rewrite Hc in H. injection H as <-. split; [by eapply stub_of_put|]. split; [done|].
    cbn [with_idxvec cacheobjidxvec put with_stubs]. rewrite times_app, times_cons, decide_True by done. rewrite decide_True; [done|]. destruct v; cbn in *; congruence.
  - rewrite (decide_False (P := v = _)), Nat.add_0_r by (intros ->; done). destruct (canClear rs0).
    + injection H as <-. split; [by rewrite <- E; apply stub_other|]. split; [done|]. cbn [with_idxvec cacheobjidxvec put with_stubs]. rewrite times_app, times_cons, decide_False by done. by rewrite !Nat.add_0_r.
    + apply res_bind_done in H as (rs1 & _ & H). destruct (serve _ _ _) as [rs2 e]. injection H as <-. split; [|done].
      transitivity (stub (put (put d (uid_index v) rs0) (uid_index v) rs2) i); [done|]. by rewrite !stub_other.
Qed.

Lemma erase_loop_at l : forall (d d' : Data) n k i rs, (k + length l <= n)%nat -> stub d i = Done rs -> canClear rs = true -> erase_loop d n k l = Done d' ->
  stub d' i = Done rs /\ cacheobjidxstk d' = cacheobjidxstk d /\ times i (cacheobjidxvec d') = (times i (cacheobjidxvec d) + times (mkUniqueId i (uid rs)) l)%nat.
Proof.
  induction l as [|v l IH]; intros d d' n k i rs Hk E Hc H; cbn [erase_loop length] in *.
  { injection H as <-. by rewrite Nat.add_0_r. }
  replace (n <=? k)%nat with false in H by (symmetry; apply Nat.leb_gt; lia). apply res_bind_done in H as (d1 & E1 & H).
  destruct (erase_one_at d d1 v i rs E Hc E1) as (S1 & K1 & T1). destruct (IH d1 d' n (S k) i rs ltac:(lia) S1 Hc H) as (S2 & K2 & T2).
  split; [done|]. split; [congruence|]. rewrite T2, T1, times_cons. lia.
Qed.

(** The pass over the objects to reuse makes an index free as often as it was noted. *)
Lemma cache_one_at (d d' : Data) j i rs : stub d i = Done rs -> canClear rs = true -> cache_one clear d j = Done d' ->
  exists rs', stub d' i = Done rs' /\ canClear rs' = true /\ times i (cacheobjidxstk d') = (times i (cacheobjidxstk d) + if decide (j = i) then 1 else 0)%nat.
Proof.
  intros E Hc H. apply res_bind_done in H as (x & _ & H). apply res_bind_done in H as (rs0 & E0 & H). pose proof E0 as [Hj _]%stub_done. destruct (decide (j = i)) as [->|Hn].
  - rewrite E in E0. injection E0 as <-. rewrite Hc in H. injection H as <-. eexists. split; [by eapply stub_of_put|]. split; [done|].
    cbn [with_stk cacheobjidxstk]. rewrite times_cons, decide_True by done. cbn [put with_stubs cacheobjidxstk]. lia.
  - exists rs. rewrite Nat.add_0_r. destruct (canClear rs0); injection H as <-; [|done]. split; [by rewrite <- E; apply stub_other|]. split; [done|].
    cbn [with_stk cacheobjidxstk]. by rewrite times_cons, decide_False.
Qed.

Lemma cache_loop_at l : forall (d d' : Data) i rs, stub d i = Done rs -> canClear rs = true -> cache_loop clear d l = Done d' ->
  exists rs', stub d' i = Done rs' /\ canClear rs' = true /\ times i (cacheobjidxstk d') = (times i (cacheobjidxstk d) + times i l)%nat.
Proof.
  induction l as [|j l IH]; intros d d' i rs E Hc H; cbn [cache_loop] in H.
  { injection H as <-. exists rs. by rewrite Nat.add_0_r. }
  apply res_bind_done in H as (d1 & E1 & H). destruct (cache_one_at d d1 j i rs E Hc E1) as (rs1 & S1 & Hc1 & T1). destruct (IH d1 d' i rs1 S1 Hc1 H) as (rs2 & S2 & Hc2 & T2).
  exists rs2. split; [done|]. split; [done|]. rewrite T2, T1, times_cons. lia.
Qed.

Lemma cache_loop_done l : forall d : Data, (forall i, i ∈ l -> known (mtxstore d) (Z.of_nat (length (stubvec d))) i) -> exists d', cache_loop clear d l = Done d' /\ mtxstore d' = mtxstore d.
Proof.
  induction l as [|i l IH]; intros d H; cbn [cache_loop]; [by exists d|]. destruct (H i) as [Hi [x Hx]]; [by left|].
  destruct (vec_get_in (stubvec d) i Hi) as (rs & E & _). unfold cache_one, mutex. rewrite Hx. cbn [res_bind]. unfold stub. rewrite E. cbn [res_bind].
  destruct (canClear rs); cbn [res_bind]; [|apply IH; intros j Hj; apply H; by right].
  destruct (IH (with_stk (put d i (with_obj (Stub_clear rs) (clear (obj (Stub_clear rs))))) (i :: cacheobjidxstk d))) as (d' & E' & Em); [|exists d'; by split].
  intros j Hj. cbn [with_stk put with_stubs stubvec mtxstore]. rewrite length_insert. apply H. by right.
Qed.

(** An insertion that takes a free index writes its object, whether or not it gets a pointer to it. *)
Lemma insert_free (d : Data) i st rs t : cacheobjidxstk d = i :: st -> stub d i = Done rs -> has_mutex (mtxstore d) i ->
  exists d', insert T_new KUnique d (Some t) = Done (d', if usecnt rs =? 0 then Some (mkUniqueId i (uid rs)) else None) /\
    cacheobjidxstk d' = st /\ mtxstore d' = mtxstore d /\ exists rs', stub d' i = Done rs' /\ obj rs' = t /\ (usecnt rs = 0 -> usecnt rs' = 1).
Proof.
  intros Es E [x Hx]. unfold insert, doAllocateIndex, mutex. rewrite Es. cbn [res_bind with_stk mtxstore]. rewrite Hx. cbn [res_bind].
  change (stub (with_stk d st) i) with (stub d i). rewrite E. cbn [res_bind doTryGet]. unfold doTryGetUnique. rewrite (stub_of_put (with_stk d st) i rs) by done. cbn [res_bind with_obj usecnt uid].
  destruct (Z.eqb_spec (usecnt rs) 0) as [E0|E0]; eexists; (split; [done|]); (split; [done|]); (split; [done|]).
  - eexists. split; [eapply stub_of_put, (stub_of_put (with_stk d st) i rs); done|]. split; [done|]. cbn. lia.
  - eexists. split; [eapply (stub_of_put (with_stk d st) i rs); done|]. by split.
Qed.

(** C39: In any state between two events that a store reaches, and for any object that nobody uses, keeps or waits for and whose pointers were dropped since the last event: the next event, when nothing comes in between, makes its index free once for each of these pointers, not once. When the index is free twice and is the next, an insertion gets a unique pointer to it, and the one after that gets none but overwrites the object of the first. *)
Theorem index_given_twice (s : Sys) u rs again : reachable s -> hdl s = HIdle ->
  stub (data s) (uid_index u) = Done rs -> uid rs = uid_unique u -> canClear rs = true -> u ∈ fillerasevec (data s) ->
  exists d1, onEvent clear (data s) [] again = Done d1 /\
    times (uid_index u) (cacheobjidxstk d1) = (times (uid_index u) (cacheobjidxstk (data s)) + times u (fillerasevec (data s)))%nat /\
    forall st t t', cacheobjidxstk d1 = uid_index u :: uid_index u :: st -> exists v d2 d3 rs3,
      insert T_new KUnique d1 (Some t) = Done (d2, Some v) /\ uid_index v = uid_index u /\
      insert T_new KUnique d2 (Some t') = Done (d3, None) /\ stub d3 (uid_index v) = Done rs3 /\ obj rs3 = t'.
Proof.
  intros I%shared_inv Eh E Eu Hc Hf. pose proof (r_ids _ _ _ (i_rest _ I)) as Hids. destruct (r_idle _ _ _ (i_rest _ I) Eh) as (_ & _ & Ei).
  assert (forall v, v ∈ fillerasevec (data s) -> known (mtxstore (data s)) (objmaxcnt (data s)) (uid_index v)) as Hkn by (intros v Hv; apply Hids; rewrite !elem_of_app; auto).
  destruct (take_idle s I Eh) as [e Et]. unfold onEvent, doExecute_erase, executeBeforeErase. rewrite Et. cbn [conserasevec with_cons]. rewrite app_nil_r. set (l := fillerasevec (data s)) in *.
  set (d0 := with_cons _ l). assert (stub d0 (uid_index u) = Done rs) as E0 by exact E.
  destruct (erase_loop_done l d0 (holders s) (length l) 0 ltac:(lia) (i_good _ I) Hkn) as (d1 & E1 & [_ _ (S1 & S2 & S3) Hi]). rewrite E1. cbn [res_bind].
  destruct (erase_loop_at l d0 d1 (length l) 0 _ rs ltac:(lia) E0 Hc E1) as (Es1 & Ek1 & T1).
  destruct (cache_loop_done (cacheobjidxvec d1) d1) as (d2 & E2 & M2).
  { intros i H. rewrite S1, S3. destruct (Hi i H) as [Hx|]; [|done]. cbn in Hx. rewrite Ei in Hx. by apply elem_of_nil in Hx. }
  rewrite E2. cbn [res_bind]. destruct (cache_loop_at _ d1 d2 _ rs Es1 Hc E2) as (rs2 & Es2 & Hc2 & T2). eexists. split; [done|].
  assert (cacheobjidxstk (onEvent_done d2 again) = cacheobjidxstk d2 /\ mtxstore (onEvent_done d2 again) = mtxstore d2 /\ stub (onEvent_done d2 again) (uid_index u) = Done rs2) as (Ec & Em & Es3) by (by destruct again).
  split.
  - rewrite Ec, T2, Ek1, T1. cbn [d0 with_cons with_fill with_sig cacheobjidxstk cacheobjidxvec]. rewrite Ei. replace (mkUniqueId (uid_index u) (uid rs)) with u by (rewrite Eu; by destruct u). done.
  - intros st t t' Hst. assert (has_mutex (mtxstore (onEvent_done d2 again)) (uid_index u)) as Hm by (rewrite Em, M2, S1; apply (Hkn u Hf)).
    destruct (insert_free _ _ _ _ t Hst Es3 Hm) as (d3 & -> & Hst3 & Hm3 & rs3 & Es4 & Eo & Eu3).
    assert (usecnt rs2 = 0) as U2 by (unfold canClear in Hc2; lia). rewrite U2. cbn [Z.eqb].
    rewrite <- Hm3 in Hm. destruct (insert_free d3 _ _ _ t' Hst3 Es4 Hm) as (d4 & E4 & _ & _ & rs4 & Es5 & Eo4 & _). rewrite (Eu3 U2) in E4. cbn [Z.eqb] in E4.
    eexists _, d3, d4, rs4. by repeat split.
Qed.

End Life.

(** ** Runs of a store of numbers *)

Module Numbers.

Definition run (l : list Act) : Sys (T := nat) (F := nat) :=
  if forallb honest l then default Sys_new (acts 0%nat (fun _ => 0%nat) l Sys_new) else Sys_new.
Definition polite_run (l : list Act) : Sys (T := nat) (F := nat) := default Sys_new (polite_acts 0%nat (fun _ => 0%nat) l Sys_new).

Lemma run_reachable l : reachable 0%nat (fun _ => 0%nat) (run l).
Proof. unfold run. destruct (forallb honest l) eqn:Eh; [|constructor]. destruct (acts _ _ l _) eqn:E; [by eapply acts_rtc|constructor]. Qed.

Lemma polite_reachable l : rtc (polite_step 0%nat (fun _ => 0%nat)) Sys_new (polite_run l).
Proof. unfold polite_run. destruct (polite_acts _ _ l _) eqn:E; [by eapply polite_acts_rtc|constructor]. Qed.

Definition first : UniqueId := mkUniqueId 0 0.

(** One uses an object, another keeps it. *)
Lemma shared_exclusive_witness :
  held (run [AInsert KUnique (Some 7%nat); AGet KAlive first]) = [(first, KAlive); (first, KUnique)] /\
  exclusive (run [AInsert KUnique (Some 7%nat); AGet KAlive first]).
Proof.
  split; [by vm_compute|]. apply (shared_exclusive 0%nat (fun _ => 0%nat)). apply run_reachable.
Defined.

(** Two requests for shared pointers and one for a unique one wait for a user, who leaves. *)
Definition busy : list (Act (T := nat) (F := nat)) :=
  [AInsert KUnique (Some 7%nat); ARequest SharedWaitE 1%nat first; ARequest SharedWaitE 2%nat first; ARequest UniqueWaitE 3%nat first; ADrop 0; ANotify 0].

Lemma waiters_served_witness : events (data (polite_run busy)) = 1%nat /\
  exists d', doExecute_erase (onEvent_take (data (polite_run busy))) [] = Done d' /\ exists l rest, served_at (data (polite_run busy)) d' 0 l rest.
Proof.
  split; [by vm_compute|]. destruct (waiters_served 0%nat (fun _ => 0%nat) (polite_run busy) (polite_reachable _)) as [_ (d' & E & H)]; [by vm_compute|by vm_compute|].
  exists d'. split; [exact E|]. apply H. apply Nat.ltb_lt. by vm_compute.
Defined.

(** The first two are called. *)
Example busy_served : match doExecute_erase (onEvent_take (data (polite_run busy))) [] with Done d => exewaitvec d | _ => [] end =
  [(first, (SharedWaitE, 1%nat)); (first, (SharedWaitE, 2%nat))].
Proof. by vm_compute. Qed.

(** ** What the code does not mean to do *)

(** Two pointers to an object are dropped before the event. *)
Definition twice : list (Act (T := nat) (F := nat)) := [AInsert KUnique (Some 7%nat); AShare 0; AGet KShared first; ADrop 0; ANotify 0; ADrop 0; ANotify 0].

Lemma index_given_twice_witness : exists d1, onEvent (fun _ => 0%nat) (data (run twice)) [] false = Done d1 /\ times 0 (cacheobjidxstk d1) = 2%nat /\
  exists v d2 d3 rs3, insert 0%nat KUnique d1 (Some 8%nat) = Done (d2, Some v) /\ insert 0%nat KUnique d2 (Some 9%nat) = Done (d3, None) /\ stub d3 (uid_index v) = Done rs3 /\ obj rs3 = 9%nat.
Proof.
  destruct (index_given_twice 0%nat (fun _ => 0%nat) (run twice) first (mkStub 7%nat 0 0 0 SharedLockStateE []) false (run_reachable twice)) as (d1 & E & T1 & H);
    [by vm_compute..|vm_compute; by left|].
  exists d1. split; [done|]. split; [etransitivity; [exact T1|by vm_compute]|].
  assert (cacheobjidxstk d1 = 0 :: 0 :: seqZ 1 1023) as Ek.
  { change (cacheobjidxstk d1) with (match Done d1 with Done d => cacheobjidxstk d | _ => [] end). rewrite <- E. by vm_compute. }
  destruct (H _ 8%nat 9%nat Ek) as (v & d2 & d3 & rs3 & E2 & _ & E3 & E4 & E5). exists v, d2, d3, rs3. exact (conj E2 (conj E3 (conj E4 E5))).
Defined.

(** The controller gives up a pointer that a user holds: the object of the user is cleared. *)
Definition forged : list (Act (T := nat) (F := nat)) := [AInsert KUnique (Some 7%nat); ARaise; ATake; AForge first; ABefore; AErase; AErase; ACache].

Example forged_cleared : match acts 0%nat (fun _ => 0%nat) forged Sys_new with
  | Some s => held s = [(first, KUnique)] /\ obj <$> stubvec (data s) !! 0%nat = Some 0%nat /\ uid <$> stubvec (data s) !! 0%nat = Some 1
  | None => False
  end.
Proof. vm_compute. repeat split. Qed.

(** The insertion of one object more than there are mutexes *)
Definition undefined {A} (r : res A) : bool := match r with Undef => true | _ => false end.

Example mutex_missing : (match acts 0%nat (fun _ => 0%nat) (replicate 512 (AInsert KUnique (Some 7%nat) : Act (F := nat))) Sys_new with
   | Some s => undefined (insert 0%nat KUnique (data s) (Some 7%nat))
   | None => false
   end && undefined (mutex (data (run [AInsert KUnique (Some 7%nat)])) 512)) = true.
Proof. by vm_compute. Qed.

Definition kept : list (Act (T := nat) (F := nat)) := [AInsert KAlive (Some 7%nat); ARequest SharedWaitE 1%nat first].

(** A request for a shared pointer to an object that nobody uses waits, although it could be served, and nothing is on its way that would make the store look at it. *)
Example request_shared_stuck : held (run kept) = [(first, KAlive)] /\ deliverable <$> stubvec (data (run kept)) !! 0%nat = Some true /\
  pend (run kept) = [] /\ fillerasevec (data (run kept)) = [] /\ events (data (run kept)) = 0%nat /\ hdl (run kept) = HIdle.
Proof. vm_compute. repeat split. Qed.

(** An insertion for sharing gets no pointer, and its index is lost. *)
Example insert_shared_lost :
  match insert 0%nat KShared (Data_new (F := nat)) (Some 7%nat) with
  | Done (d, None) => bool_decide (0 ∈ cacheobjidxstk d) = false /\ canClear <$> stubvec d !! 0%nat = Some true /\ fillerasevec d = []
  | _ => False
  end.
Proof. vm_compute. repeat split. Qed.

End Numbers.
End SharedStoreLife.
