(* ===== verification/FileStore.v ===== *)
(** * The file store

    solid/frame/file/filestore.hpp and src/filestore.cpp: the controller of a shared store of
    files. It finds the storage of a path by its prefix and knows which path each object of the
    store has open; it creates temporary files in storages of a given capacity, and makes requests
    for them wait while there is no room.

    A string is a list of characters; the hash function of the library is a parameter. A file of
    the store is named by its index; the controller keeps the part of it that is its own: the
    temporary file behind it ([ptmp]). Ids of temporary files are not bounded. [doDeliverTemp] is not modelled: the loop that would call it
    ends at once. *)

From stdpp Require Import list gmap sorting.
From S2P Require Import Prelude FrameCommon Search.
Import FrameCommon Search.
#[local] Open Scope res_scope.
#[local] Open Scope Z_scope.

Module FileStore.

Abbreviation str := (list Z).

(** ** Storages of files *)

Section Paths.
Context (stringhasher : str -> Z).

(** [Utf8ConfigurationImpl::Storage] *)
Record FileStorage := mkFileStorage { globalprefix : str; localprefix : str; globalsize : nat }.

(** The sizes start at the invalid index and at zero. *)
Definition min_prefix (l : list FileStorage) : Z :=
  foldl (fun m s => if Z.of_nat (length (globalprefix s)) <? m then Z.of_nat (length (globalprefix s)) else m) (InvalidIndex 64) l.
Definition max_prefix (l : list FileStorage) : nat :=
  foldl (fun m s => if (m <? length (globalprefix s))%nat then length (globalprefix s) else m) O l.

(** [resize] with the character zero *)
Definition pad (n : nat) (s : str) : str := resize n 0 s.

Definition prepare_storage (maxsz : nat) (s : FileStorage) : FileStorage :=
  mkFileStorage (pad maxsz (globalprefix s)) (localprefix s) (length (globalprefix s)).

(** [szcmp] on two pairs, as the order to sort by; storages of one hash stay in their order. *)
Definition szcmp_le (a b : Z * Z) : Prop := a.1 <= b.1.

#[export] Instance szcmp_le_dec a b : Decision (szcmp_le a b).
Proof. unfold szcmp_le. apply _. Defined.

(** [szcmp] on a pair and a hash: the numbers -1 and 1 become [true]. *)
Definition szcmp (a : Z * Z) (b : Z) : Z := if a.1 <? b then 1 else if b <? a.1 then 1 else 0.

Record FileData := mkFileData { storagevec : list FileStorage; minglobalprefixsz : Z; maxglobalprefixsz : nat; hashvec : list (Z * Z) }.

Definition prepareFile (cfg : list FileStorage) : FileData :=
  let maxsz := max_prefix cfg in
  let st := prepare_storage maxsz <$> cfg in
  mkFileData st (min_prefix cfg) maxsz (merge_sort szcmp_le (imap (fun i s => (stringhasher (globalprefix s), Z.of_nat i)) st)).

(** [_path.compare(0, n, s) == 0] *)
Definition compare_eq (_path : str) (n : nat) (s : str) : bool := bool_decide (take n _path = s).

(** The loop ends at a storage or at another hash, and runs out of the vector if there is none. *)
Fixpoint find_loop (d : FileData) (_path : str) (h : Z) (l : list (Z * Z)) : res (option Z) :=
  match l with
  | [] => Undef
  | (h', strgidx) :: l =>
      if h' =? h then
        let! rstrg := vec_get (storagevec d) strgidx in
        if compare_eq _path (globalsize rstrg) (globalprefix rstrg) then Done (Some strgidx) else find_loop d _path h l
      else Done None
  end.

Definition findFileStorage (d : FileData) (_path : str) : res (option Z) :=
  let tmp := pad (maxglobalprefixsz d) (take (maxglobalprefixsz d) _path) in
  let h := stringhasher tmp in
  match binary_search_first szcmp (hashvec d) 0 (length (hashvec d)) h with
  | Some (true, pos) => find_loop d _path h (drop pos (hashvec d))
  | Some (false, _) => Done None
  | None => Undef
  end.

End Paths.

(** ** Open files

    [pathset] and [indexset]: the path stubs, by path and by index *)
Record Paths := mkPaths { pathset : gmap (Z * str) Z; indexset : gmap Z (Z * str) }.

Definition Paths_new : Paths := mkPaths ∅ ∅.

(** [std::string::assign] of a C string: up to the first zero *)
Fixpoint c_str (s : str) : str := match s with [] => [] | c :: s => if c =? 0 then [] else c :: c_str s end.

(** [prepareIndex] for a path: an error, the index of the object that has it, or none; with the
    path in its storage *)
Definition prepareIndex (stringhasher : str -> Z) (d : FileData) (p : Paths) (inpath : str) : res (option (Z * str * option Z)) :=
  let! storeidx := findFileStorage stringhasher d inpath in
  match storeidx with
  | None => Done None
  | Some storeidx =>
      let! rstrg := vec_get (storagevec d) storeidx in
      let outpath := c_str (drop (globalsize rstrg) inpath) in
      Done (Some (storeidx, outpath, pathset p !! (storeidx, outpath)))
  end.

(** [std::unordered_set::insert] keeps an element that is there. *)
Definition preparePointer (p : Paths) (outpath : Z * str) (idx : Z) : Paths :=
  mkPaths (match pathset p !! outpath with Some _ => pathset p | None => <[outpath := idx]> (pathset p) end)
          (match indexset p !! idx with Some _ => indexset p | None => <[idx := outpath]> (indexset p) end).

(** The path that [openFile] opens *)
Definition open_path (d : FileData) (outpath : Z * str) : res str :=
  let! rstrg := vec_get (storagevec d) outpath.1 in Done (localprefix rstrg ++ outpath.2).

(** [clear] of a file that is not temporary *)
Definition clear_path (p : Paths) (_idx : Z) : Paths :=
  match indexset p !! _idx with
  | Some ps => mkPaths (delete ps (pathset p)) (delete _idx (indexset p))
  | None => p
  end.

(** ** Temporary files *)

Definition MemoryLevelFlag : Z := 1.
Definition AllLevelsFlag : Z := 31.

Inductive TempRemoveMode := RemoveAfterCreateE | RemoveAfterCloseE | RemoveNeverE.

(** [TempConfigurationImpl::Storage] *)
Record Storage := mkStorage {
  path : str;
  level : Z;
  capacity : Z;
  minsize : Z;
  maxsize : Z;
  waitcount : Z;
  waitsizefirst : Z;
  usedsize : Z;
  currentid : Z;
  idcache : list Z;
  enqued : bool;
  removemode : TempRemoveMode
}.

Definition Storage_new (_path : str) (_level _capacity _minsize _maxsize : Z) (_removemode : TempRemoveMode) : Storage :=
  mkStorage _path _level _capacity _minsize (if (_capacity <? _maxsize) || (_maxsize =? 0) then _capacity else _maxsize) 0 0 0 0 [] false _removemode.

Definition canUse (s : Storage) (_sz _flags : Z) : bool := negb (Z.land _flags (level s) =? 0) && (_sz <=? maxsize s) && (minsize s <=? _sz).
Definition shouldUse (s : Storage) (_sz : Z) : bool := (waitcount s =? 0) && (_sz <=? wrap 64 (capacity s - usedsize s)).
Definition canDeliver (s : Storage) : bool := negb (waitcount s =? 0) && (waitsizefirst s <=? wrap 64 (capacity s - usedsize s)).

(** [TempBase]; [memory]: it is a [TempMemory]. *)
Record TempBase := mkTempBase { tempstorageid : Z; tempid : Z; tempsize : Z; memory : bool }.

#[export] Instance TempBase_eq_dec : EqDecision TempBase.
Proof. solve_decision. Defined.

Record TempWaitStub := mkTempWaitStub { objuid : UniqueId; size : Z; value : Z }.

(** [ptmp]: the temporary files behind the objects of the store *)
Record Data := mkData {
  tempcfg : list Storage;
  tempidxvec : list Z;
  tempwaitdq : list TempWaitStub;
  filltempwaitvec : list TempWaitStub;
  constempwaitvec : list TempWaitStub;
  ptmp : gmap Z TempBase
}.

Definition Data_new (cfg : list Storage) : Data := mkData cfg [] [] [] [] ∅.

Definition with_cfg (d : Data) x : Data := mkData x (tempidxvec d) (tempwaitdq d) (filltempwaitvec d) (constempwaitvec d) (ptmp d).
Definition with_idx (d : Data) x : Data := mkData (tempcfg d) x (tempwaitdq d) (filltempwaitvec d) (constempwaitvec d) (ptmp d).
Definition with_dq (d : Data) x : Data := mkData (tempcfg d) (tempidxvec d) x (filltempwaitvec d) (constempwaitvec d) (ptmp d).
Definition with_fill (d : Data) x : Data := mkData (tempcfg d) (tempidxvec d) (tempwaitdq d) x (constempwaitvec d) (ptmp d).
Definition with_cons (d : Data) x : Data := mkData (tempcfg d) (tempidxvec d) (tempwaitdq d) (filltempwaitvec d) x (ptmp d).
Definition with_ptmp (d : Data) x : Data := mkData (tempcfg d) (tempidxvec d) (tempwaitdq d) (filltempwaitvec d) (constempwaitvec d) x.

Definition storage (d : Data) (i : Z) : res Storage := vec_get (tempcfg d) i.
Definition put (d : Data) (i : Z) (s : Storage) : Data := with_cfg d (<[Z.to_nat i := s]> (tempcfg d)).

Definition st_wait (s : Storage) (n first : Z) : Storage := mkStorage (path s) (level s) (capacity s) (minsize s) (maxsize s) n first (usedsize s) (currentid s) (idcache s) (enqued s) (removemode s).
Definition st_used (s : Storage) (used cur : Z) (cache : list Z) : Storage := mkStorage (path s) (level s) (capacity s) (minsize s) (maxsize s) (waitcount s) (waitsizefirst s) used cur cache (enqued s) (removemode s).
Definition st_enqued (s : Storage) (b : bool) : Storage := mkStorage (path s) (level s) (capacity s) (minsize s) (maxsize s) (waitcount s) (waitsizefirst s) (usedsize s) (currentid s) (idcache s) b (removemode s).

(** [preparePointer] for a temporary file: the pointer is kept; the result says whether the store is notified. *)
Definition preparePointer_temp (d : Data) (uid : UniqueId) (_size openflags : Z) : Data * bool :=
  let d := with_fill d (filltempwaitvec d ++ [mkTempWaitStub uid _size openflags]) in
  (d, (length (filltempwaitvec d) =? 1)%nat).

Definition executeOnSignal (d : Data) : Data := with_fill (with_cons d (filltempwaitvec d)) [].

Definition doPrepareOpenTemp (d : Data) (_rf : Z) (_sz : Z) (_storeid : Z) : res Data :=
  let! rstrg := storage d _storeid in
  let '(fileid, cur, cache) := match idcache rstrg with i :: st => (i, currentid rstrg, st) | [] => (currentid rstrg, currentid rstrg + 1, []) end in
  let rstrg := st_used rstrg (wrap 64 (usedsize rstrg + _sz)) cur cache in
  let mem := negb (Z.land (level rstrg) MemoryLevelFlag =? 0) && bool_decide (path rstrg = []) in
  Done (with_ptmp (put d _storeid rstrg) (<[_rf := mkTempBase _storeid fileid _sz mem]> (ptmp d))).

(** One storage for a request; [erase]: the ids added to the erase vector of the store *)
Definition try_storage (d : Data) (w : TempWaitStub) (tempwaitdqsize : nat) (strgidx : Z) (erase : list UniqueId) : res (Data * bool * list UniqueId) :=
  let! rstrg := storage d strgidx in
  if canUse rstrg (size w) (value w) then
    if shouldUse rstrg (size w) then
      let d := with_dq d (take tempwaitdqsize (tempwaitdq d)) in
      let! d := doPrepareOpenTemp d (uid_index (objuid w)) (size w) strgidx in
      Done (d, true, erase ++ [objuid w])
    else
      let d := with_dq d (tempwaitdq d ++ [mkTempWaitStub (objuid w) (size w) strgidx]) in
      let n := waitcount rstrg + 1 in
      Done (put d strgidx (st_wait rstrg n (if n =? 1 then size w else waitsizefirst rstrg)), true, erase)
  else Done (d, false, erase).

(** The loop over the storages: [n] of them are left, from [i] on. *)
Fixpoint try_storages (d : Data) (w : TempWaitStub) (tempwaitdqsize n : nat) (i : Z) (canuse : bool) (erase : list UniqueId) : res (Data * bool * list UniqueId) :=
  match n with
  | O => Done (d, canuse, erase)
  | S n =>
      let! x := try_storage d w tempwaitdqsize i erase in
      let '(d, used, erase) := x in
      try_storages d w tempwaitdqsize n (i + 1) (used || canuse) erase
  end.

Fixpoint temp_requests (d : Data) (l : list TempWaitStub) (erase : list UniqueId) : res (Data * list UniqueId) :=
  match l with
  | [] => Done (d, erase)
  | w :: l =>
      let! x := try_storages d w (length (tempwaitdq d)) (length (tempcfg d)) 0 false erase in
      let '(d, canuse, erase) := x in
      temp_requests d l (if canuse then erase else erase ++ [objuid w])
  end.

(** The loop over [tempidxvec] ends where it begins. *)
Definition executeBeforeErase (d : Data) : res (Data * list UniqueId) :=
  let! (d, erase) := temp_requests d (constempwaitvec d) [] in
  Done (with_idx d [], erase).

Definition doCloseTemp (d : Data) (_rtemp : TempBase) : res Data :=
  let! rstrg := storage d (tempstorageid _rtemp) in
  Done (put d (tempstorageid _rtemp) (st_used rstrg (wrap 64 (usedsize rstrg - tempsize _rtemp)) (currentid rstrg) (tempid _rtemp :: idcache rstrg))).

(** [clear] of a temporary file; the result says whether the store runs again. *)
Definition clear_temp (d : Data) (_idx : Z) (temp : TempBase) : res (Data * bool) :=
  let strgidx := tempstorageid temp in
  let! d := doCloseTemp d temp in
  let d := with_ptmp d (delete _idx (ptmp d)) in
  let! rstrg := storage d strgidx in
  let d := if canDeliver rstrg && negb (enqued rstrg) then put (with_idx d (tempidxvec d ++ [strgidx])) strgidx (st_enqued rstrg true) else d in
  Done (d, negb (bool_decide (tempidxvec d = []))).

(** The whole of [clear] *)
Definition clear (d : Data) (p : Paths) (_idx : Z) : res (Data * Paths * bool) :=
  match ptmp d !! _idx with
  | None => Done (d, clear_path p _idx, negb (bool_decide (tempidxvec d = [])))
  | Some temp => let! (d, b) := clear_temp d _idx temp in Done (d, p, b)
  end.

(** ** Temporary files on disk *)

Definition split_id (_id : Z) : Z * Z := (Z.shiftr (wrap 32 _id) 16, Z.land (wrap 32 _id) 65535).

(** The digits of [%8.8X] ([base] 55) and [%8.8x] ([base] 87) *)
Definition digit (base v : Z) : Z := if v <? 10 then 48 + v else base + v.
Definition hex8 (base v : Z) : str := (fun i => digit base (Z.land (Z.shiftr v (4 * i)) 15)) <$> [7; 6; 5; 4; 3; 2; 1; 0].

(** [prepare_temp_file_path], where [size_t] has 64 bits: [_prefix] / folder / file .tmp *)
Definition prepare_temp_file_path (_prefix : str) (_id : Z) : str :=
  if bool_decide (_prefix = []) then []
  else
    let p := match last _prefix with Some c => if c =? 47 then _prefix else _prefix ++ [47] | None => _prefix end in
    let '(fldrid, fileid) := split_id _id in
    p ++ hex8 55 fldrid ++ [47] ++ hex8 87 fileid ++ [46; 116; 109; 112].

(** The length that [TempFile::read] and [write] go on with; [None] is the result -1. The length is an
    [uint32_t], the offset an [int64_t]; the difference with the size is unsigned. *)
Definition clamp (_tempsize _bl _off : Z) : option Z :=
  let endoff := _off + _bl in
  if signed 64 _tempsize <? endoff then
    if wrap 64 (endoff - _tempsize) <=? _bl then Some (wrap 32 (endoff - _tempsize)) else None
  else Some _bl.

End FileStore.
