(* ===== verification/FileStoreProofs.v ===== *)
(** * The file store: invariant

    The controller of FileStore.v as a state machine: the room of its storages, the ids and paths of
    its temporary files, and its table of open files. *)

From stdpp Require Import list gmap sorting relations.
From S2P Require Import Prelude FrameCommon Search FileStore.
Import FrameCommon Search FileStore.
#[local] Open Scope res_scope.
#[local] Open Scope Z_scope.

Module FileStoreProofs.

(** ** The controller *)

Record State := mkState { dat : Data; files : Paths }.

(** The calls that change the controller: a request for a temporary file, the two calls from the event
    handler of the store, a file that is cleared, and a path that gets the object [idx] *)
Inductive Act :=
| ARequest (uid : UniqueId) (sz flags : Z)
| ASignal
| ABefore
| AClear (idx : Z)
| AOpen (outpath : Z * str) (idx : Z).

(** The object of a path is the one that has it, or one that has no path. *)
Definition can_open (p : Paths) (outpath : Z * str) (idx : Z) : bool :=
  match pathset p !! outpath with Some i => i =? idx | None => bool_decide (indexset p !! idx = None) end.

Definition act (a : Act) (s : State) : option (res State) :=
  match a with
  | ARequest uid sz flags => if (0 <=? sz) && (sz <? 2 ^ 64) then Some (Done (mkState (preparePointer_temp (dat s) uid sz flags).1 (files s))) else None
  | ASignal => Some (Done (mkState (executeOnSignal (dat s)) (files s)))
  | ABefore => Some (let! (d, _) := executeBeforeErase (dat s) in Done (mkState d (files s)))
  | AClear idx => Some (let! x := clear (dat s) (files s) idx in let '(d, p, _) := x in Done (mkState d p))
  | AOpen outpath idx => Some (Done (mkState (dat s) (preparePointer (files s) outpath idx)))
  end.

Definition step (s s' : State) : Prop := exists a, act a s = Some (Done s').

(** A path gets only an object that no other path has. The controller does not check it. *)
Definition apart (a : Act) (s : State) : bool := match a with AOpen outpath idx => can_open (files s) outpath idx | _ => true end.
Definition apart_step (s s' : State) : Prop := exists a, apart a s = true /\ act a s = Some (Done s').

(** Storages as the configuration makes them *)
Definition configured (cfg : list Storage) : Prop :=
  Forall (fun s => exists p l c m M r, s = Storage_new p l c m M r /\ 0 <= c < 2 ^ 64) cfg.

Definition start (cfg : list Storage) : State := mkState (Data_new cfg) Paths_new.
Definition reachable (cfg : list Storage) (s : State) : Prop := rtc step (start cfg) s.

(** ** The invariant of a storage

    [ts]: the temporary files that were created in it and not closed *)

Definition total (ts : list TempBase) : Z := foldr (fun t n => tempsize t + n) 0 ts.
Definition of_storage (i : Z) (ts : list TempBase) : list TempBase := filter (fun t => tempstorageid t = i) ts.

Record storage_ok (ts : list TempBase) (s : Storage) : Prop := {
  so_used : usedsize s = total ts;
  so_room : usedsize s <= capacity s < 2 ^ 64;
  so_ids : idcache s ++ (tempid <$> ts) ≡ₚ seqZ 0 (currentid s);
  so_cur : 0 <= currentid s
}.

Record temps_ok (d : Data) (ts : list TempBase) : Prop := {
  t_storage : forall i s, tempcfg d !! i = Some s -> storage_ok (of_storage (Z.of_nat i) ts) s;
  t_temp : forall t, t ∈ ts -> 0 <= tempsize t /\ 0 <= tempstorageid t < Z.of_nat (length (tempcfg d));
  t_file : forall f t, ptmp d !! f = Some t -> t ∈ ts;
  t_inj : forall f g t, ptmp d !! f = Some t -> ptmp d !! g = Some t -> f = g
}.

Definition size_ok (w : TempWaitStub) : Prop := 0 <= size w < 2 ^ 64.

Record inv (s : State) : Prop := {
  i_temps : exists ts, temps_ok (dat s) ts;
  i_sizes : Forall size_ok (filltempwaitvec (dat s) ++ constempwaitvec (dat s))
}.

Lemma total_app a b : total (a ++ b) = total a + total b.
Proof. unfold total. induction a as [|t a IH]; cbn [app foldr]; lia. Qed.

Lemma total_perm a b : a ≡ₚ b -> total a = total b.
Proof. unfold total. induction 1; cbn [foldr]; lia. Qed.

Lemma total_nonneg ts : (forall t, t ∈ ts -> 0 <= tempsize t) -> 0 <= total ts.
Proof.
  unfold total. induction ts as [|t ts IH]; cbn [foldr]; intros H; [done|]. specialize (IH (fun x Hx => H x (list_elem_of_further _ _ _ Hx))). specialize (H t (list_elem_of_here _ _)). lia.
Qed.

Lemma total_sub a b : a ⊆+ b -> (forall t, t ∈ b -> 0 <= tempsize t) -> total a <= total b.
Proof.
  intros [c E]%submseteq_Permutation H. rewrite (total_perm _ _ E), total_app. pose proof (total_nonneg c) as Hc.
  enough (0 <= total c) by lia. apply Hc. intros t Ht. apply H. rewrite E. set_solver.
Qed.

Lemma of_storage_cons i t ts : of_storage i (t :: ts) = if decide (tempstorageid t = i) then t :: of_storage i ts else of_storage i ts.
Proof. unfold of_storage. by rewrite filter_cons. Qed.

Lemma ids_nodup ts s : storage_ok ts s -> NoDup (tempid <$> ts).
Proof. intros [_ _ E _]. assert (NoDup (idcache s ++ (tempid <$> ts))) as H by (rewrite E; apply NoDup_seqZ). by apply NoDup_app in H as (_ & _ & ?). Qed.

(** ** Creating and closing *)

(** The room that is left *)
Lemma room ts s : (forall t, t ∈ ts -> 0 <= tempsize t) -> storage_ok ts s -> wrap 64 (capacity s - usedsize s) = capacity s - usedsize s /\ 0 <= usedsize s.
Proof. intros H [E R _ _]. pose proof (total_nonneg ts H). unfold wrap. rewrite Z.mod_small; lia. Qed.

Lemma storage_in d i : 0 <= i < Z.of_nat (length (tempcfg d)) -> exists s, storage d i = Done s /\ tempcfg d !! Z.to_nat i = Some s.
Proof. intros H. destruct (vec_get_in (tempcfg d) i H) as (s & E & E'). by exists s. Qed.

(** One storage changes in what is not about its files. *)
Lemma temps_same d d' ts : (forall i s', tempcfg d' !! i = Some s' -> exists s, tempcfg d !! i = Some s /\ usedsize s' = usedsize s /\ capacity s' = capacity s /\ idcache s' = idcache s /\ currentid s' = currentid s) ->
  length (tempcfg d') = length (tempcfg d) -> ptmp d' = ptmp d -> temps_ok d ts -> temps_ok d' ts.
Proof.
  intros H L P [A B C D]. split; rewrite ?L, ?P; try done. intros i s' Hi. destruct (H i s' Hi) as (s & Es & E1 & E2 & E3 & E4). destruct (A i s Es) as [X Y Z W].
  split; rewrite ?E1, ?E2, ?E3, ?E4; done.
Qed.

Lemma temps_put_same d i s s' ts : tempcfg d !! Z.to_nat i = Some s -> usedsize s' = usedsize s -> capacity s' = capacity s -> idcache s' = idcache s -> currentid s' = currentid s ->
  temps_ok d ts -> temps_ok (put d i s') ts.
Proof.
  intros Ei E1 E2 E3 E4. apply temps_same; [|by cbn; rewrite length_insert|done]. intros j x Hx. cbn in Hx. apply list_lookup_insert_Some in Hx as [(<- & <- & _)|[_ Hx]]; [by exists s|by exists x].
Qed.

Lemma prepare_ok d ts f sz i : temps_ok d ts -> 0 <= sz -> forall s, storage d i = Done s -> sz <= capacity s - usedsize s ->
  exists d' t, doPrepareOpenTemp d f sz i = Done d' /\ temps_ok d' (t :: ts) /\ length (tempcfg d') = length (tempcfg d) /\
    filltempwaitvec d' = filltempwaitvec d /\ constempwaitvec d' = constempwaitvec d.
Proof.
  intros T Hsz s Es Hr. unfold doPrepareOpenTemp. rewrite Es. cbn [res_bind]. apply vec_get_done in Es as [Hi Es].
  pose proof T as [A B C D]. pose proof (A _ _ Es) as Hs. destruct (room _ s (fun t Ht => proj1 (B t (proj2 (proj1 (list_elem_of_filter _ _ _) Ht)))) Hs) as [_ Hu].
  destruct Hs as [S1 S2 S3 S4]. rewrite Z2Nat.id in S1, S3 by done.
  assert (exists id cur cache, match idcache s with j :: st => (j, currentid s, st) | [] => (currentid s, currentid s + 1, []) end = (id, cur, cache) /\
    cache ++ id :: (tempid <$> of_storage i ts) ≡ₚ seqZ 0 cur /\ 0 <= cur) as (id & cur & cache & -> & Hids & Hcur).
  { destruct (idcache s) as [|j st] eqn:Ec.
    - eexists _, _, _. split; [done|]. split; [|lia]. rewrite seqZ_app with (n1 := currentid s) (n2 := 1) by lia. cbn [app] in *. rewrite S3, Z.add_0_l. replace (seqZ (currentid s) 1) with [currentid s] by (unfold seqZ; cbn; f_equal; lia). apply Permutation_cons_append.
    - eexists _, _, _. split; [done|]. split; [|done]. rewrite <- S3. cbn [app]. by rewrite Permutation_middle. }
  eexists _, (mkTempBase i id sz _). split; [done|]. split; [|split; [by cbn; rewrite length_insert|done]].
  assert (Z.to_nat i < length (tempcfg d))%nat as Hl by (by eapply lookup_lt_Some).
  split; cbn [tempcfg put with_cfg with_ptmp ptmp]; rewrite ?length_insert.
  - intros j x [(<- & <- & _)|[Hj Hx]]%list_lookup_insert_Some; rewrite of_storage_cons; cbn [tempstorageid].
    + rewrite Z2Nat.id, decide_True by done. split; cbn [usedsize capacity idcache currentid st_used total foldr tempsize fmap list_fmap tempid]; [|..|done].
      * unfold wrap. rewrite Z.mod_small by lia. fold (total (of_storage i ts)). lia.
      * unfold wrap. rewrite Z.mod_small by lia. lia.
      * done.
    + rewrite decide_False by lia. by apply A.
  - intros t [->|Ht]%elem_of_cons; [cbn; lia|by apply B].
  - intros g t. destruct (decide (g = f)) as [->|Hg]; [rewrite lookup_insert_eq; intros [= <-]; by left|rewrite lookup_insert_ne by done; intros Ht; right; by eapply C].
  - assert (forall t, t ∈ ts -> t = mkTempBase i id sz (negb (Z.land (level (st_used s (wrap 64 (usedsize s + sz)) cur cache)) MemoryLevelFlag =? 0) && bool_decide (path (st_used s (wrap 64 (usedsize s + sz)) cur cache) = [])) -> False) as Hnew.
    { intros t Ht ->. assert (NoDup (cache ++ id :: (tempid <$> of_storage i ts))) as Hn by (rewrite Hids; apply NoDup_seqZ).
      apply NoDup_app in Hn as (_ & _ & [Hn _]%NoDup_cons). apply Hn. apply list_elem_of_fmap. eexists. split; [|apply list_elem_of_filter; split; [|exact Ht]]; done. }
    intros g h t. destruct (decide (g = f)) as [->|Hg], (decide (h = f)) as [->|Hh]; rewrite ?lookup_insert_eq, ?lookup_insert_ne by done; [done| | |apply D].
    + intros [= <-] Ht%C. exfalso. by eapply Hnew.
    + intros Ht%C [= <-]. exfalso. by eapply Hnew.
Qed.

(** What a call of the controller keeps: its waiting requests and the number of storages *)
Definition kept (d d' : Data) : Prop :=
  (exists ts, temps_ok d' ts) /\ length (tempcfg d') = length (tempcfg d) /\ filltempwaitvec d' = filltempwaitvec d /\ constempwaitvec d' = constempwaitvec d.

Lemma kept_refl d ts : temps_ok d ts -> kept d d.
Proof. intros T. split; [by exists ts|done]. Qed.

Lemma kept_trans d1 d2 d3 : kept d1 d2 -> kept d2 d3 -> kept d1 d3.
Proof. intros (_ & A & B & C) (T & A' & B' & C'). split; [done|]. split; [congruence|]. split; congruence. Qed.

Lemma try_storage_ok d w n i er : (exists ts, temps_ok d ts) -> size_ok w -> 0 <= i < Z.of_nat (length (tempcfg d)) ->
  exists d' b er', try_storage d w n i er = Done (d', b, er') /\ kept d d'.
Proof.
  intros [ts T] Hw Hi. destruct (storage_in d i Hi) as (s & Es & Es'). unfold try_storage. rewrite Es. cbn [res_bind].
  destruct (canUse s (size w) (value w)); [|eexists _, _, _; split; [done|by eapply kept_refl]].
  destruct (shouldUse s (size w)) eqn:Eu.
  - apply andb_true_iff in Eu as [_ Eu%Z.leb_le]. destruct Hw as [Hw _].
    destruct (room _ s (fun t Ht => proj1 (t_temp _ _ T t (proj2 (proj1 (list_elem_of_filter _ _ _) Ht)))) (t_storage _ _ T _ _ Es')) as [Er _]. rewrite Er in Eu.
    destruct (prepare_ok (with_dq d (take n (tempwaitdq d))) ts (uid_index (objuid w)) (size w) i) with (s := s) as (d' & t & -> & T' & L & F1 & F2); try done; [by destruct T|].
    cbn [res_bind]. eexists _, _, _. split; [done|]. split; [by exists (t :: ts)|done].
  - eexists _, _, _. split; [done|]. split; [|split; [by cbn; rewrite length_insert|done]].
    exists ts. apply (temps_put_same (with_dq d _) i s); try done. by destruct T.
Qed.

Lemma try_storages_ok n : forall d w k i b er, (exists ts, temps_ok d ts) -> size_ok w -> 0 <= i -> i + Z.of_nat n <= Z.of_nat (length (tempcfg d)) ->
  exists d' b' er', try_storages d w k n i b er = Done (d', b', er') /\ kept d d'.
Proof.
  induction n as [|n IH]; intros d w k i b er T Hw Hi Hn; cbn [try_storages]; [destruct T as [ts T]; eexists _, _, _; split; [done|by eapply kept_refl]|].
  destruct (try_storage_ok d w k i er T Hw) as (d1 & b1 & er1 & -> & K1); [lia|]. cbn [res_bind].
  destruct (IH d1 w k (i + 1) (b1 || b) er1 (proj1 K1) Hw) as (d2 & b2 & er2 & -> & K2); [lia|destruct K1 as (_ & -> & _); lia|].
  eexists _, _, _. split; [done|by eapply kept_trans].
Qed.

Lemma temp_requests_ok l : forall d er, (exists ts, temps_ok d ts) -> Forall size_ok l -> exists d' er', temp_requests d l er = Done (d', er') /\ kept d d'.
Proof.
  induction l as [|w l IH]; intros d er T Hl; cbn [temp_requests]; [destruct T as [ts T]; eexists _, _; split; [done|by eapply kept_refl]|].
  apply Forall_cons in Hl as [Hw Hl]. destruct (try_storages_ok (length (tempcfg d)) d w (length (tempwaitdq d)) 0 false er T Hw) as (d1 & b1 & er1 & -> & K1); [lia|lia|]. cbn [res_bind].
  destruct (IH d1 (if b1 then er1 else er1 ++ [objuid w]) (proj1 K1) Hl) as (d2 & er2 & -> & K2). eexists _, _. split; [done|by eapply kept_trans].
Qed.

(** ** Closing *)

Lemma close_ok d ts f t : temps_ok d ts -> ptmp d !! f = Some t ->
  exists d1, doCloseTemp d t = Done d1 /\ exists ts', temps_ok (with_ptmp d1 (delete f (ptmp d1))) ts' /\ length (tempcfg d1) = length (tempcfg d) /\
    filltempwaitvec d1 = filltempwaitvec d /\ constempwaitvec d1 = constempwaitvec d.
Proof.
  intros T Ef. pose proof T as [A B C D]. pose proof (C _ _ Ef) as Ht. destruct (B t Ht) as [Hz Hi]. destruct (storage_in d _ Hi) as (s & Es & Es').
  unfold doCloseTemp. rewrite Es. cbn [res_bind]. eexists. split; [done|]. apply elem_of_Permutation in Ht as [ts' Ets]. exists ts'. split; [|split; [by cbn; rewrite length_insert|done]].
  pose proof (A _ _ Es') as Hs. destruct (room _ s (fun x Hx => proj1 (B x (proj2 (proj1 (list_elem_of_filter _ _ _) Hx)))) Hs) as [_ Hu].
  rewrite Z2Nat.id in Hs by lia. assert (of_storage (tempstorageid t) ts ≡ₚ t :: of_storage (tempstorageid t) ts') as Eo by (unfold of_storage; by rewrite Ets, filter_cons_True).
  destruct Hs as [S1 S2 S3 S4]. rewrite (total_perm _ _ Eo) in S1. rewrite Eo in S3. cbn [total foldr] in S1. fold (total (of_storage (tempstorageid t) ts')) in S1.
  assert (0 <= total (of_storage (tempstorageid t) ts')) as Hp by (apply total_nonneg; intros x [_ Hx]%list_elem_of_filter; apply B; rewrite Ets; by right).
  split; cbn [tempcfg put with_cfg with_ptmp ptmp]; rewrite ?length_insert.
  - intros j x [(<- & <- & _)|[Hj Hx]]%list_lookup_insert_Some.
    + rewrite Z2Nat.id by lia. split; cbn [usedsize capacity idcache currentid st_used]; [|..|done].
      * unfold wrap. rewrite Z.mod_small by lia. lia.
      * unfold wrap. rewrite Z.mod_small by lia. lia.
      * rewrite <- S3. cbn [fmap list_fmap app]. by rewrite Permutation_middle.
    + destruct (A j x Hx) as [X1 X2 X3 X4]. assert (of_storage (Z.of_nat j) ts ≡ₚ of_storage (Z.of_nat j) ts') as E by (unfold of_storage; by rewrite Ets, filter_cons_False by lia).
      split; [by rewrite <- (total_perm _ _ E)|done|by rewrite <- E|done].
  - intros x Hx. apply B. rewrite Ets. by right.
  - intros g x Hg. apply lookup_delete_Some in Hg as [Hn Hg]. pose proof (C _ _ Hg) as Hx. rewrite Ets in Hx. apply elem_of_cons in Hx as [->|Hx]; [|done]. exfalso. apply Hn. by eapply D.
  - intros g h x [_ Hg]%lookup_delete_Some [_ Hh]%lookup_delete_Some. by eapply D.
Qed.

Lemma clear_temp_ok d ts f t : temps_ok d ts -> ptmp d !! f = Some t -> exists d' b, clear_temp d f t = Done (d', b) /\ kept d d'.
Proof.
  intros T Ef. pose proof (t_file _ _ T _ _ Ef) as Ht. destruct (t_temp _ _ T t Ht) as [_ Hi]. unfold clear_temp.
  destruct (close_ok d ts f t T Ef) as (d1 & -> & ts' & T' & L & F1 & F2). cbn [res_bind].
  destruct (storage_in (with_ptmp d1 (delete f (ptmp d1))) (tempstorageid t)) as (s & Es & Es'); [cbn; by rewrite L|]. rewrite Es. cbn [res_bind].
  eexists _, _. split; [done|]. destruct (canDeliver s && negb (enqued s)); (split; [exists ts'|]); try done.
  - apply (temps_put_same (with_idx (with_ptmp d1 (delete f (ptmp d1))) _) _ s); try done. by destruct T'.
  - cbn. by rewrite length_insert.
Qed.

(** ** Open files *)

Lemma prepare_paths p k i : (forall k i, pathset p !! k = Some i <-> indexset p !! i = Some k) -> can_open p k i = true ->
  forall k' i', pathset (preparePointer p k i) !! k' = Some i' <-> indexset (preparePointer p k i) !! i' = Some k'.
Proof.
  intros H Hc k' i'. unfold can_open in Hc. unfold preparePointer. cbn [pathset indexset]. destruct (pathset p !! k) as [j|] eqn:Ek.
  - apply Z.eqb_eq in Hc as ->. pose proof Ek as Ei%H. by rewrite Ei.
  - apply bool_decide_eq_true in Hc. rewrite Hc. rewrite !lookup_insert_Some, H. split.
    + intros [[-> ->]|[Hn Hk]]; [by left|]. right. split; [|done]. intros ->. congruence.
    + intros [[-> ->]|[Hn Hk]]; [by left|]. right. split; [|done]. intros ->. apply H in Hk. congruence.
Qed.

Lemma clear_paths p i : (forall k i, pathset p !! k = Some i <-> indexset p !! i = Some k) ->
  forall k' i', pathset (clear_path p i) !! k' = Some i' <-> indexset (clear_path p i) !! i' = Some k'.
Proof.
  intros H k' i'. unfold clear_path. destruct (indexset p !! i) as [k|] eqn:Ei; [|apply H]. cbn [pathset indexset]. rewrite !lookup_delete_Some, H. split.
  - intros [Hn Hk]. split; [|done]. intros ->. congruence.
  - intros [Hn Hk]. split; [|done]. intros ->. apply H in Ei, Hk. congruence.
Qed.

(** ** Every action *)

Lemma file_act_inv a s r : inv s -> act a s = Some r -> exists s', r = Done s' /\ inv s'.
Proof.
  intros [T S] E. destruct a as [uid sz flags| | |idx|outpath idx]; cbn [act] in E.
  - destruct ((0 <=? sz) && (sz <? 2 ^ 64)) eqn:Ez; simplify_eq. eexists. split; [done|]. split; [|cbn].
    + destruct T as [ts T]. exists ts. by destruct T.
    + apply Forall_app in S as [S1 S2]. rewrite !Forall_app, Forall_singleton. split; [split; [done|]|done]. unfold size_ok. cbn [FileStore.size]. lia.
  - simplify_eq. eexists. split; [done|]. split; [|cbn]; [|by apply Forall_app in S as [S1 S2]]. destruct T as [ts T]. exists ts. by destruct T.
  - simplify_eq. unfold executeBeforeErase. pose proof S as S'. apply Forall_app in S' as [_ S2]. destruct (temp_requests_ok _ (dat s) [] T S2) as (d & er & -> & (ts & T') & L & F1 & F2). cbn [res_bind].
    eexists. split; [done|]. split; [|cbn; by rewrite F1, F2]. exists ts. by destruct T'.
  - simplify_eq. unfold clear. destruct (ptmp (dat s) !! idx) as [t|] eqn:Et.
    + destruct T as [ts T]. destruct (clear_temp_ok _ _ _ _ T Et) as (d & b & -> & T' & L & F1 & F2). cbn [res_bind]. eexists. split; [done|]. split; [done|cbn; by rewrite F1, F2].
    + eexists. split; [done|]. by split.
  - simplify_eq. eexists. split; [done|]. by split.
Qed.

Lemma start_inv cfg : configured cfg -> inv (start cfg).
Proof.
  intros Hc. split; [exists []|done]. split.
  - intros i s Ei. cbn in Ei. destruct (Forall_lookup_1 _ _ _ _ Hc Ei) as (p & l & c & m & M & r & -> & Hr). split; cbn; [done|lia|done|done].
  - by intros t Ht%elem_of_nil.
  - intros f t. cbn. by rewrite lookup_empty.
  - intros f g t. cbn. by rewrite lookup_empty.
Qed.

Lemma files_reachable_inv cfg s : configured cfg -> reachable cfg s -> inv s.
Proof.
  intros Hc. pose proof (start_inv cfg Hc) as I. unfold reachable. revert I. generalize (start cfg). intros s0 I R.
  induction R as [|s1 s2 s3 [a Ea] _ IH]; [done|]. apply IH. destruct (file_act_inv a s1 _ I Ea) as (? & [= <-] & ?). done.
Qed.

(** A path is open in one object, and an object has one path. *)
Definition paths_paired (s : State) : Prop := forall k i, pathset (files s) !! k = Some i <-> indexset (files s) !! i = Some k.

Lemma apart_paired s s' : paths_paired s -> apart_step s s' -> paths_paired s'.
Proof.
  intros P (a & Ha & E). destruct a as [uid sz flags| | |idx|outpath idx]; cbn [act apart] in *.
  - case_match; by simplify_eq.
  - by simplify_eq.
  - injection E as E. apply res_bind_done in E as ([d er] & _ & [= <-]). done.
  - injection E as E. apply res_bind_done in E as ([[d p] b] & Ec & [= <-]). unfold clear in Ec. destruct (ptmp (dat s) !! idx).
    + apply res_bind_done in Ec as ([d' b'] & _ & [= <- <- <-]). done.
    + injection Ec as <- <- <-. exact (clear_paths (files s) idx P).
  - injection E as <-. exact (prepare_paths (files s) outpath idx P Ha).
Qed.

Lemma apart_runs_paired cfg s : rtc apart_step (start cfg) s -> paths_paired s.
Proof.
  assert (paths_paired (start cfg)) as P by (intros k i; cbn; by rewrite !lookup_empty). revert P. generalize (start cfg). intros s0 P R.
  induction R as [|s1 s2 s3 St _ IH]; [done|]. by eapply IH, apart_paired.
Qed.

End FileStoreProofs.
