(* ===== verification/FileStoreLife.v ===== *)
(** * The file store: life

    What holds of the controller in every state, which storage a path is found in, and runs of the
    controller under the event handler of the shared store. *)

From stdpp Require Import list gmap sorting relations.
From S2P Require Import Prelude FrameCommon Search SharedStore FileStore FileStoreProofs.
Import FrameCommon Search FileStore FileStoreProofs.
#[local] Open Scope res_scope.
#[local] Open Scope Z_scope.

Module FileStoreLife.

(** ** Names of temporary files *)

Lemma digit_inj base v w : (base = 55 \/ base = 87) -> 0 <= v < 16 -> 0 <= w < 16 -> digit base v = digit base w -> v = w.
Proof. unfold digit. intros Hb Hv Hw. destruct (Z.ltb_spec v 10), (Z.ltb_spec w 10); lia. Qed.

Lemma nibble_range v i : 0 <= Z.land (Z.shiftr v i) 15 < 16.
Proof. change 15 with (Z.ones 4). rewrite Z.land_ones by lia. apply Z.mod_pos_bound. lia. Qed.

Lemma nibbles_inj v w : 0 <= v < 2 ^ 32 -> 0 <= w < 2 ^ 32 ->
  (forall i, 0 <= i < 8 -> Z.land (Z.shiftr v (4 * i)) 15 = Z.land (Z.shiftr w (4 * i)) 15) -> v = w.
Proof.
  intros Hv Hw H. apply Z.bits_inj'. intros n Hn. destruct (decide (n < 32)) as [Hl|Hl].
  - specialize (H (n / 4) ltac:(split; [apply Z.div_pos; lia|apply Z.div_lt_upper_bound; lia])). apply (f_equal (fun z => Z.testbit z (n mod 4))) in H.
    pose proof (Z.mod_pos_bound n 4 ltac:(lia)). rewrite !Z.land_spec, !Z.shiftr_spec in H by lia. change 15 with (Z.ones 4) in H. rewrite Z.ones_spec_low, !andb_true_r in H by lia.
    replace (n mod 4 + 4 * (n / 4)) with n in H by (pose proof (Z.div_mod n 4 ltac:(lia)); lia). done.
  - rewrite !Z.bits_above_log2; [done|lia| |lia|]; (destruct (decide (v = 0)), (decide (w = 0)); subst; cbn; try lia); apply Z.log2_lt_pow2; try lia;
      (eapply Z.lt_le_trans; [apply Hv || apply Hw|apply Z.pow_le_mono_r; lia]).
Qed.

Lemma hex8_inj base v w : (base = 55 \/ base = 87) -> 0 <= v < 2 ^ 32 -> 0 <= w < 2 ^ 32 -> hex8 base v = hex8 base w -> v = w.
Proof.
  intros Hb Hv Hw E. apply nibbles_inj; [done|done|]. unfold hex8 in E. cbn [fmap list_fmap] in E. injection E as E7 E6 E5 E4 E3 E2 E1 E0.
  intros i Hi. assert (i = 0 \/ i = 1 \/ i = 2 \/ i = 3 \/ i = 4 \/ i = 5 \/ i = 6 \/ i = 7) as Hc by lia.
  destruct Hc as [->|[->|[->|[->|[->|[->|[->| ->]]]]]]]; (eapply digit_inj; [done|apply nibble_range|apply nibble_range|done]).
Qed.

Lemma split_id_range x : let '(a, b) := split_id x in 0 <= a < 2 ^ 32 /\ 0 <= b < 2 ^ 32.
Proof.
  unfold split_id. assert (0 <= wrap 32 x < 2 ^ 32) as H by (apply Z.mod_pos_bound; lia). split.
  - rewrite Z.shiftr_div_pow2 by lia. split; [apply Z.div_pos; lia|]. apply Z.div_lt_upper_bound; lia.
  - change 65535 with (Z.ones 16). rewrite Z.land_ones by lia. pose proof (Z.mod_pos_bound (wrap 32 x) (2 ^ 16) ltac:(lia)). lia.
Qed.

Lemma split_id_inj x y : 0 <= x < 2 ^ 32 -> 0 <= y < 2 ^ 32 -> split_id x = split_id y -> x = y.
Proof.
  intros Hx Hy. unfold split_id, wrap. rewrite !(Z.mod_small _ (2 ^ 32)) by done. change 65535 with (Z.ones 16). rewrite !Z.land_ones, !Z.shiftr_div_pow2 by lia. intros [= E1 E2].
  rewrite (Z.div_mod x (2 ^ 16)), (Z.div_mod y (2 ^ 16)) by lia. by rewrite E1, E2.
Qed.

Lemma temp_path_inj p x y : p <> [] -> 0 <= x < 2 ^ 32 -> 0 <= y < 2 ^ 32 -> prepare_temp_file_path p x = prepare_temp_file_path p y -> x = y.
Proof.
  intros Hp Hx Hy. unfold prepare_temp_file_path. rewrite bool_decide_false by done. pose proof (split_id_range x) as Rx. pose proof (split_id_range y) as Ry.
  destruct (split_id x) as [a b] eqn:Ex, (split_id y) as [c e] eqn:Ey. intros E%app_inv_head. apply app_inj_1 in E as [E1 E2%app_inv_head]; [|done].
  apply app_inj_1 in E2 as [E2 _]; [|done]. apply split_id_inj; [done|done|]. rewrite Ex, Ey. f_equal; [apply (hex8_inj 55)|apply (hex8_inj 87)]; tauto.
Qed.

(** ** The controller in every state *)

(** The files in use fit in their storage; two files of a storage have different ids, and different
    names on disk. *)
Definition temps_fit (s : State) : Prop :=
  forall i st, tempcfg (dat s) !! i = Some st -> usedsize st <= capacity st /\ total (of_storage (Z.of_nat i) (map_to_list (ptmp (dat s))).*2) <= usedsize st.

Definition temps_apart (s : State) : Prop :=
  forall f g t u, ptmp (dat s) !! f = Some t -> ptmp (dat s) !! g = Some u -> f <> g -> tempstorageid t = tempstorageid u ->
    tempid t <> tempid u /\
    forall p, p <> [] -> tempid t < 2 ^ 32 -> tempid u < 2 ^ 32 -> prepare_temp_file_path p (tempid t) <> prepare_temp_file_path p (tempid u).

Lemma temps_ok_fit s ts : temps_ok (dat s) ts -> temps_fit s.
Proof.
  intros [A B C D] i st Ei. destruct (A i st Ei) as [E R _ _]. split; [lia|]. rewrite E. apply total_sub; [|intros t [_ Ht]%list_elem_of_filter; by apply B].
  apply NoDup_submseteq.
  - apply NoDup_filter, NoDup_fmap_2_strong; [|apply NoDup_map_to_list]. intros [f t] [g u] Hf%elem_of_map_to_list Hg%elem_of_map_to_list Et. cbn in Et. subst. f_equal. by eapply D.
  - intros t [Ht ([f u] & -> & Hf%elem_of_map_to_list)%list_elem_of_fmap]%list_elem_of_filter. apply list_elem_of_filter. split; [done|]. by eapply C.
Qed.

Lemma temps_ok_apart s ts : temps_ok (dat s) ts -> temps_apart s.
Proof.
  intros T f g t u Ef Eg Hn Es. pose proof T as [A B C D]. pose proof (C _ _ Ef) as Ht. pose proof (C _ _ Eg) as Hu. destruct (B t Ht) as [_ Hi].
  destruct (storage_in _ _ Hi) as (st & _ & Est). pose proof (A _ _ Est) as Hok. rewrite Z2Nat.id in Hok by lia. pose proof (ids_nodup _ _ Hok) as Hid.
  assert (forall x, x ∈ ts -> tempstorageid x = tempstorageid t -> x ∈ of_storage (tempstorageid t) ts /\ 0 <= tempid x) as Hin.
  { intros x Hx Hs. assert (x ∈ of_storage (tempstorageid t) ts) as Hx' by (by apply list_elem_of_filter). split; [done|].
    assert (tempid x ∈ seqZ 0 (currentid st)) as ?%elem_of_seqZ; [|lia]. rewrite <- (so_ids _ _ Hok). apply elem_of_app. right. by apply list_elem_of_fmap_2. }
  destruct (Hin t Ht eq_refl) as [Ht' Ht0], (Hin u Hu (eq_sym Es)) as [Hu' Hu0].
  assert (tempid t <> tempid u) as Hne.
  { intros E. apply list_elem_of_lookup in Ht' as [a Ha], Hu' as [b Hb]. assert (a = b) as ->.
    { eapply NoDup_lookup; [exact Hid| |]; rewrite list_lookup_fmap; [by rewrite Ha|]. rewrite Hb. cbn. by rewrite E. }
    apply Hn. eapply D; [done|]. congruence. }
  split; [done|]. intros p Hp H1 H2 E. apply Hne. by apply temp_path_inj in E.
Qed.

(** C19: Requests for temporary files, the calls of the event handler, files cleared and paths given to objects change the controller, in any order: the temporary files in use never exceed the capacity of their storage, two of them in one storage never have the same id or, below 2^32, the same name, and each of these calls is defined (finding the storage of a path is not one of them). If moreover paths are given only objects that no other path has, which the controller does not check, a path is open in one object and an object has one path. *)
Theorem file_controller_safe cfg (s : State) : configured cfg -> reachable cfg s ->
  temps_fit s /\ temps_apart s /\ (forall a r, act a s = Some r -> exists s', r = Done s') /\ (rtc apart_step (start cfg) s -> paths_paired s).
Proof.
  intros Hc R. pose proof (files_reachable_inv cfg s Hc R) as I. pose proof I as [[ts T] _].
  split; [by eapply temps_ok_fit|]. split; [by eapply temps_ok_apart|]. split; [|apply apart_runs_paired]. intros a r E. destruct (file_act_inv a s r I E) as (s' & -> & _). by exists s'.
Qed.

(** ** The storage of a path *)

(** A path is under the prefix of the storage, as it was before it was filled up with zeros. *)
Definition under (d : FileData) (_path : str) (i : Z) : Prop :=
  exists st, vec_get (storagevec d) i = Done st /\ take (globalsize st) _path = globalprefix st.

Lemma find_loop_under d _path h l i : find_loop d _path h l = Done (Some i) -> under d _path i.
Proof.
  induction l as [|[h' j] l IH]; cbn [find_loop]; [done|]. destruct (h' =? h); [|done]. intros (st & Est & E)%res_bind_done.
  destruct (compare_eq _path (globalsize st) (globalprefix st)) eqn:Ec; [|by apply IH]. simplify_eq. exists st. split; [done|]. by apply bool_decide_eq_true in Ec.
Qed.

Lemma found_under hasher d _path i : findFileStorage hasher d _path = Done (Some i) -> under d _path i.
Proof.
  unfold findFileStorage. destruct (binary_search_first _ _ _ _ _) as [[[] pos]|]; [|done|done]. apply find_loop_under.
Qed.

Lemma max_prefix_ge cfg i st : cfg !! i = Some st -> (length (globalprefix st) <= max_prefix cfg)%nat.
Proof.
  unfold max_prefix. assert (forall l m, (m <= foldl (fun m s => if (m <? length (globalprefix s))%nat then length (globalprefix s) else m) m l)%nat /\
    forall i st, l !! i = Some st -> (length (globalprefix st) <= foldl (fun m s => if (m <? length (globalprefix s))%nat then length (globalprefix s) else m) m l)%nat) as H.
  { induction l as [|x l IH]; intros m; cbn [foldl]; [by split; [|intros ? ?; rewrite lookup_nil]|].
    set (m' := if (m <? length (globalprefix x))%nat then length (globalprefix x) else m).
    assert (m <= m' /\ length (globalprefix x) <= m')%nat as [H1 H2] by (unfold m'; destruct (Nat.ltb_spec m (length (globalprefix x))); lia).
    destruct (IH m') as [A B]. split; [lia|]. intros [|j] st' Ej; cbn in Ej; [simplify_eq; lia|by eapply B]. }
  apply H.
Qed.

(** The storage [i] has a prefix of the path, and no other prefix is longer. *)
Definition longest_prefix (cfg : list FileStorage) (_path : str) (i : Z) : Prop :=
  exists st, cfg !! Z.to_nat i = Some st /\ globalprefix st `prefix_of` _path /\ length (globalprefix st) = max_prefix cfg.

(** C29: The storage that a path is found in is one whose prefix begins the path and is as long as the longest of all prefixes; one with a shorter prefix is found for no path, whatever the hash function. *)
Theorem found_storage_longest hasher cfg _path i : findFileStorage hasher (prepareFile hasher cfg) _path = Done (Some i) -> longest_prefix cfg _path i.
Proof.
  intros (st' & [Hi Est]%vec_get_done & Et)%found_under. cbn [prepareFile storagevec] in Est. apply list_lookup_fmap_Some in Est as (st & -> & Est). cbn [prepare_storage globalsize globalprefix] in Et.
  exists st. split; [done|]. pose proof (max_prefix_ge _ _ _ Est) as Hge. pose proof (f_equal length Et) as El. unfold pad in El. rewrite length_take, length_resize in El.
  assert (length (globalprefix st) = max_prefix cfg) as E by lia. split; [|done]. rewrite <- E in Et. unfold pad in Et. rewrite resize_all in Et.
  exists (drop (length (globalprefix st)) _path). by rewrite <- Et at 1; rewrite take_drop.
Qed.

(** A hash that is a number with the characters as digits *)
Definition number (s : str) : Z := foldr (fun c h => c + 256 * h) 0 s.

Definition storages : list FileStorage := [mkFileStorage [47; 97; 47] [49] 0; mkFileStorage [47; 98; 47] [50] 0; mkFileStorage [47; 99; 47] [51] 0].

Lemma found_storage_longest_witness : findFileStorage number (prepareFile number storages) [47; 98; 47; 120] = Done (Some 1) /\ longest_prefix storages [47; 98; 47; 120] 1.
Proof.
  split; [by vm_compute|]. apply (found_storage_longest number storages [47; 98; 47; 120] 1). by vm_compute.
Defined.

(** The comparison tells unequal hashes apart but not their order: a third storage is not found. *)
Example third_storage_lost : findFileStorage number (prepareFile number storages) [47; 99; 47; 120] = Done None.
Proof. by vm_compute. Qed.

(** A path that is the prefix of a storage, shorter than another: the loop runs out of the vector. *)
Example find_runs_off :
  findFileStorage (foldl (fun h c => c + 256 * h) 0) (prepareFile (foldl (fun h c => c + 256 * h) 0) [mkFileStorage [47; 97; 47] [49] 0; mkFileStorage [122] [50] 0]) [122] = Undef.
Proof. by vm_compute. Qed.

(** What is written at an offset inside a temporary file can go beyond its size, and what fits is cut. *)
Example temp_write_over : clamp 8 4 7 = Some 3 /\ clamp 8 9 0 = Some 1.
Proof. by vm_compute. Qed.

(** ** Under the shared store

    [requestCreateTemp], and the event of the store with the file store as controller *)

Abbreviation StoreData := (SharedStore.SharedStore.Data (T := unit) (F := nat)).

Definition requestCreateTemp (d : StoreData) (c : Data) (f : nat) (sz flags : Z) : res (StoreData * Data) :=
  let! x := SharedStore.SharedStore.requestReinit_new tt d f SharedStore.SharedStore.PNew true in
  let '(d, _, p) := x in
  match p with
  | Some u => let '(c, notify) := preparePointer_temp c u sz flags in Done (if notify then SharedStore.SharedStore.raise d else d, c)
  | None => Done (d, c)
  end.

(** The files that the store clears, in order *)
Fixpoint clear_files (c : Data) (l : list Z) : res (Data * bool) :=
  match l with
  | [] => Done (c, false)
  | i :: l =>
      let! x := clear c Paths_new i in
      let '(c, _, b) := x in
      let! (c, b') := clear_files c l in
      Done (c, b || b')
  end.

(** The requests that are called are a result. *)
Definition event (d : StoreData) (c : Data) : res (StoreData * Data * list (UniqueId * (SharedStore.SharedStore.WaitKind * nat))) :=
  let sm := SharedStore.SharedStore.raised d in
  let d := SharedStore.SharedStore.onEvent_take d in
  let c := if sm then executeOnSignal c else c in
  let! (c, added) := executeBeforeErase c in
  let! d := SharedStore.SharedStore.doExecute_erase d added in
  let calls := SharedStore.SharedStore.exewaitvec d in
  let n := length (SharedStore.SharedStore.cacheobjidxstk d) in
  let! d := SharedStore.SharedStore.cache_loop id d (SharedStore.SharedStore.cacheobjidxvec d) in
  let st := SharedStore.SharedStore.cacheobjidxstk d in
  let! (c, again) := clear_files c (reverse (take (length st - n) st)) in
  Done (SharedStore.SharedStore.onEvent_done d again, c, calls).

Definition one : Data := Data_new [Storage_new [] 1 100 0 0 RemoveNeverE].

Definition first : UniqueId := mkUniqueId 0 0.
Definition other : UniqueId := mkUniqueId 1 0.

(** A request, and a pointer to another object that is dropped: two events for the store *)
Definition asked : res (StoreData * Data) :=
  let! (d, c) := requestCreateTemp SharedStore.SharedStore.Data_new one 5 10 31 in
  let! (d, _) := SharedStore.SharedStore.insert tt SharedStore.SharedStore.KUnique d None in
  let! d := SharedStore.SharedStore.erasePointer d other false in
  Done (d, c).

(** The object of the request: its id and its users *)
Definition object (d : StoreData) : option (Z * Z) := (fun x => (SharedStore.SharedStore.uid x, SharedStore.SharedStore.usecnt x)) <$> SharedStore.SharedStore.stubvec d !! O.

Definition after_event (r : res (StoreData * Data)) : res (StoreData * Data) := let! (d, c) := r in let! x := event d c in Done x.1.
Definition called (r : res (StoreData * Data)) : res (list (UniqueId * (SharedStore.SharedStore.WaitKind * nat))) := let! (d, c) := r in let! x := event d c in Done x.2.
Definition seen {A : Type} (f : StoreData -> Data -> A) (r : res (StoreData * Data)) : res A := let! (d, c) := r in Done (f d c).

(** A request for a temporary file and a pointer that is dropped make two events. The first calls the request with its pointer; the second finds the request where the first has left it, gives its object up once more, and the store clears the object and frees its index while it is in use. *)
Example temp_taken_away :
  called asked = Done [(first, (SharedStore.SharedStore.ReinitWaitE, 5%nat))] /\
  seen (fun d _ => (object d, SharedStore.SharedStore.events d)) (after_event asked) = Done (Some (0, 1), 1%nat) /\
  seen (fun d _ => (object d, bool_decide (0 ∈ SharedStore.SharedStore.cacheobjidxstk d))) (after_event (after_event asked)) = Done (Some (1, 0), true).
Proof. vm_compute. repeat split. Qed.

(** A request alone raises an event without the signal: it is not looked at. *)
Example temp_not_seen :
  let r := requestCreateTemp SharedStore.SharedStore.Data_new one 5 10 31 in
  called r = Done [] /\ seen (fun d c => (SharedStore.SharedStore.events d, length (filltempwaitvec c))) (after_event r) = Done (0%nat, 1%nat).
Proof. vm_compute. repeat split. Qed.

(** Two storages with room: the temporary file is created in both, and the pointer is given up twice. *)
Example temp_created_twice :
  let c := Data_new [Storage_new [] 1 100 0 0 RemoveNeverE; Storage_new [47] 8 100 0 0 RemoveNeverE] in
  match executeBeforeErase (executeOnSignal (preparePointer_temp c first 10 31).1) with
  | Done (d, erase) => erase = [first; first] /\ usedsize <$> tempcfg d = [10; 10] /\ tempstorageid <$> ptmp d !! 0 = Some 1
  | _ => False
  end.
Proof. vm_compute. repeat split. Qed.

(** A file that made room for a request that waits: the handler looks for nothing. *)
Example temp_waits_on :
  let c := Data_new [Storage_new [] 1 100 0 0 RemoveNeverE] in
  match (let! (d, _) := executeBeforeErase (executeOnSignal (preparePointer_temp (preparePointer_temp c first 80 31).1 other 60 31).1) in
         let! x := clear d Paths_new 0 in let '(d, _, again) := x in
         let! (d', erase) := executeBeforeErase (executeOnSignal d) in Done (again, tempidxvec d, erase, length (tempwaitdq d'), tempidxvec d')) with
  | Done (again, idx, erase, n, idx') => again = true /\ idx = [0] /\ erase = [] /\ n = 1%nat /\ idx' = []
  | _ => False
  end.
Proof. vm_compute. repeat split. Qed.

(** *** A run *)

Definition config : list Storage := [Storage_new [47; 116] 8 100 0 0 RemoveAfterCloseE].

Lemma config_ok : configured config.
Proof. apply Forall_singleton. eexists _, _, _, _, _, _. split; [done|]. lia. Qed.

(** The actions that are possible, in a row *)
Fixpoint runs (l : list Act) (s : State) : State :=
  match l with
  | [] => s
  | a :: l => match act a s with Some (Done s') => runs l s' | _ => s end
  end.

Lemma runs_rtc l s : rtc step s (runs l s).
Proof.
  revert s. induction l as [|a l IH]; intros s; cbn [runs]; [done|]. destruct (act a s) as [[s'| |]|] eqn:E; try done. eapply rtc_l; [by exists a|apply IH].
Qed.

Fixpoint apart_runs (l : list Act) (s : State) : option State :=
  match l with
  | [] => Some s
  | a :: l => if apart a s then match act a s with Some (Done s') => apart_runs l s' | _ => None end else None
  end.

Lemma apart_runs_rtc l s s' : apart_runs l s = Some s' -> rtc apart_step s s'.
Proof.
  revert s. induction l as [|a l IH]; intros s E; cbn [apart_runs] in E; [by simplify_eq|]. destruct (apart a s) eqn:Ea; [|done].
  destruct (act a s) as [[s1| |]|] eqn:E1; try done. eapply rtc_l; [by exists a|by apply IH].
Qed.

Definition calls : list Act := [ARequest first 40 31; ARequest other 50 31; ASignal; ABefore; AOpen (0, [97]) 2; AClear 2; AOpen (0, [98]) 2].
Definition running : State := runs calls (start config).

Lemma file_controller_safe_witness : usedsize <$> tempcfg (dat running) = [90] /\ ptmp (dat running) !! 1 = Some (mkTempBase 0 1 50 false) /\
  indexset (files running) !! 2 = Some (0, [98]) /\ temps_fit running /\ temps_apart running /\ paths_paired running.
Proof.
  do 3 (split; [by vm_compute|]). destruct (file_controller_safe config running config_ok (runs_rtc _ _)) as (A & B & _ & D). split; [done|]. split; [done|].
  apply D, (apart_runs_rtc calls). by vm_compute.
Defined.

(** An index that two paths get, and that is cleared once: the second path is still found, with an object that has none. *)
Example index_of_two_paths :
  let s := runs [AOpen (0, [97]) 2; AOpen (0, [98]) 2; AClear 2] (start config) in
  pathset (files s) !! (0, [97]) = None /\ pathset (files s) !! (0, [98]) = Some 2 /\ indexset (files s) !! 2 = None.
Proof. vm_compute. repeat split. Qed.

End FileStoreLife.
