(* ===== verification/Packet.v ===== *)
(** * The mpipc packet

    solid/frame/mpipc/src/mpipcutility.hpp and mpipcprotocol.cpp ([PacketHeader]),
    mpipcmessage.hpp ([MessageFlags]), and the part of the [Protocol] interface of
    mpipcprotocol.hpp that stores and loads single values, with its implementation from
    mpipcprotocol_serialization_v1.hpp. *)

From S2P Require Import Prelude Bits BinaryBasic.
Import BinaryBasic.

(** A test of one flag. *)
Lemma land_pow2_testbit v k : 0 <= k -> negb (Z.land v (2 ^ k) =? 0) = Z.testbit v k.
Proof.
  intros Hk. destruct (Z.eqb_spec (Z.land v (2 ^ k)) 0) as [E|E].
  - apply (f_equal (fun v => Z.testbit v k)) in E.
    rewrite Z.land_spec, Z.pow2_bits_true, Z.testbit_0_l, andb_true_r in E by lia.
    by rewrite E.
  - destruct (Z.testbit v k) eqn:E1; [done|]. destruct E.
    bitwise i. destruct (decide (i = k)) as [->|].
    + by rewrite E1.
    + by rewrite Z.pow2_bits_false, andb_false_r by done.
Qed.

(** ** Values of the protocol

    The virtual [storeValue]/[loadValue] of [Protocol] at the widths a packet uses. *)
Class ProtocolValues := {
  storeValue8 : Z -> list Z;
  storeValue16 : Z -> list Z;
  loadValue8 : list Z -> option (Z * list Z);
  loadValue16 : list Z -> option (Z * list Z);
  length_storeValue8 v : length (storeValue8 v) = 1%nat;
  length_storeValue16 v : length (storeValue16 v) = 2%nat;
  loadValue8_store v rest : in_range 8 v -> loadValue8 (storeValue8 v ++ rest) = Some (v, rest);
  loadValue16_store v rest : in_range 16 v -> loadValue16 (storeValue16 v ++ rest) = Some (v, rest);
  loadValue8_some b ps : exists v, loadValue8 (b :: ps) = Some (v, ps)
    /\ forall ps', loadValue8 (b :: ps') = Some (v, ps');
  loadValue8_nil : loadValue8 [] = None;
  loadValue16_some b b' ps : exists v, loadValue16 (b :: b' :: ps) = Some (v, ps)
    /\ forall ps', loadValue16 (b :: b' :: ps') = Some (v, ps');
  loadValue16_short ps : (length ps < 2)%nat -> loadValue16 ps = None
}.

(** mpipcprotocol_serialization_v1.hpp stores and loads with the binary serializer's
    [store] and [load]. *)
#[export, refine] Instance serialization_v1 : ProtocolValues := {|
  storeValue8 := store8;
  storeValue16 := store16;
  loadValue8 := load8;
  loadValue16 := load16
|}.
Proof.
  - done.
  - done.
  - done.
  - intros. by apply load_store16.
  - intros b ps. by exists b.
  - done.
  - intros b b' ps. by eexists.
  - intros [|? [|? ?]] H; cbn in *; done || lia.
Defined.

(** ** The packet header *)
Module PacketHeader.

Definition SizeOfE : Z := 4.

Definition SwitchToNewMessageTypeE : Z := 1.
Definition SwitchToOldMessageTypeE : Z := 2.
Definition ContinuedMessageTypeE : Z := 3.
Definition SwitchToOldCanceledMessageTypeE : Z := 4.
Definition ContinuedCanceledMessageTypeE : Z := 5.
Definition KeepAliveTypeE : Z := 6.

Definition Size64KBFlagE : Z := 1.
Definition CompressedFlagE : Z := 2.

(** [Protocol::MaxPacketDataSize] *)
Definition MaxPacketDataSize : Z := 1024 * 64.

Record PacketHeader := mkHeader { type_ : Z; flags_ : Z; size_ : Z }.

(** [void type(uint8_t)], [void flags(uint8_t)] and [void size(uint32_t)]. *)
Definition set_type (h : PacketHeader) (_type : Z) : PacketHeader :=
  mkHeader _type (flags_ h) (size_ h).

Definition set_flags (h : PacketHeader) (_flags : Z) : PacketHeader :=
  mkHeader (type_ h) _flags (size_ h).

Definition set_size (h : PacketHeader) (_sz : Z) : PacketHeader :=
  mkHeader (type_ h)
           (wrap 8 (Z.lor (flags_ h) (Z.shiftr (Z.land _sz (Z.shiftl 1 16)) 16)))
           (wrap 16 (Z.land _sz 0xffff)).

(** The constructor leaves the members unset and calls [reset]. *)
Definition reset (h : PacketHeader) (_type _flags _size : Z) : PacketHeader :=
  set_size (set_flags (set_type h _type) _flags) _size.

(** [uint32_t size()const] *)
Definition size (h : PacketHeader) : Z :=
  let sz := Z.land (flags_ h) Size64KBFlagE in
  Z.lor (wrap 32 (Z.shiftl sz 16)) (size_ h).

Definition isTypeKeepAlive (h : PacketHeader) : bool := type_ h =? KeepAliveTypeE.

Definition isCompressed (h : PacketHeader) : bool := negb (Z.land (flags_ h) CompressedFlagE =? 0).

Definition isOk (h : PacketHeader) : bool :=
  let rv := (type_ h =? SwitchToNewMessageTypeE) || (type_ h =? SwitchToOldMessageTypeE)
            || (type_ h =? ContinuedMessageTypeE) || (type_ h =? SwitchToOldCanceledMessageTypeE)
            || (type_ h =? ContinuedCanceledMessageTypeE) || (type_ h =? KeepAliveTypeE) in
  if MaxPacketDataSize <? size h then false else rv.

Section Store.
Context {PV : ProtocolValues}.

Definition store (h : PacketHeader) : list Z :=
  storeValue8 (type_ h) ++ storeValue8 (flags_ h) ++ storeValue16 (size_ h).

Definition load (pc : list Z) : option (PacketHeader * list Z) :=
  '(t, pc) ← loadValue8 pc;
  '(f, pc) ← loadValue8 pc;
  '(s, pc) ← loadValue16 pc;
  Some (mkHeader t f s, pc).

Lemma length_store h : length (store h) = 4%nat.
Proof. unfold store. by rewrite !length_app, !length_storeValue8, length_storeValue16. Qed.

Lemma load_short pc : (length pc < 4)%nat -> load pc = None.
Proof.
  intros H. unfold load.
  destruct pc as [|b pc]; [by rewrite loadValue8_nil|].
  destruct (loadValue8_some b pc) as (t & -> & _). cbn [mbind option_bind].
  destruct pc as [|b' pc]; [by rewrite loadValue8_nil|].
  destruct (loadValue8_some b' pc) as (f & -> & _). cbn [mbind option_bind].
  cbn in H. by rewrite loadValue16_short by lia.
Qed.

(** The header depends on the first four bytes only. *)
Lemma load_long pc :
  (4 <= length pc)%nat ->
  exists h, load pc = Some (h, drop 4 pc) /\ forall ex, load (pc ++ ex) = Some (h, drop 4 pc ++ ex).
Proof.
  destruct pc as [|b0 [|b1 [|b2 [|b3 pc]]]]; cbn [length]; try lia. intros _.
  destruct (loadValue8_some b0 (b1 :: b2 :: b3 :: pc)) as (t & H0 & H0').
  destruct (loadValue8_some b1 (b2 :: b3 :: pc)) as (f & H1 & H1').
  destruct (loadValue16_some b2 b3 pc) as (s & H2 & H2').
  exists (mkHeader t f s). unfold load. cbn [app]. rewrite H0. cbn [mbind option_bind].
  rewrite H1. cbn [mbind option_bind]. rewrite H2. split; [done|]. intros ex.
  rewrite H0'. cbn [mbind option_bind]. rewrite H1'. cbn [mbind option_bind]. by rewrite H2'.
Qed.

Lemma load_store h rest :
  in_range 8 (type_ h) -> in_range 8 (flags_ h) -> in_range 16 (size_ h) ->
  load (store h ++ rest) = Some (h, rest).
Proof.
  intros Ht Hf Hs. unfold load, store. rewrite <- !app_assoc.
  rewrite loadValue8_store by done. cbn [mbind option_bind].
  rewrite loadValue8_store by done. cbn [mbind option_bind].
  rewrite loadValue16_store by done. by destruct h.
Qed.

End Store.

Lemma size_set_size h sz :
  in_range 8 (flags_ h) -> in_range 17 sz ->
  size (set_size h sz) = if Z.testbit (flags_ h) 0 then Z.lor sz (2 ^ 16) else sz.
Proof.
  intros Hf Hs. unfold size, set_size, Size64KBFlagE. cbn [flags_ size_].
  change (Z.shiftl 1 16) with (Z.shiftl (Z.ones 1) 16). change 0xffff with (Z.ones 16).
  change 1 with (Z.ones 1) at 1. rewrite (land_ones_wrap sz), (land_ones_wrap _ 1) by lia.
  assert (He : forall b, Z.testbit (if Z.testbit (flags_ h) 0 then Z.lor sz (2 ^ 16) else sz) b
             = Z.testbit sz b || (Z.testbit (flags_ h) 0 && (b =? 16))).
  { intros b. destruct (Z.testbit (flags_ h) 0); cbn [andb]; rewrite ?orb_false_r; [|done].
    rewrite Z.lor_spec, Z.pow2_bits_eqb by lia. by rewrite Z.eqb_sym. }
  apply Z.bits_inj'. intros i Hi. rewrite He. autorewrite with bits.
  assert (Hh : 17 <= i -> Z.testbit sz i = false) by (intros; by apply (testbit_high 17)).
  destruct (Z.ltb_spec i 16).
  { rewrite (Z.testbit_neg_r _ (i - 16)) by lia. decide_Z. cbn.
    by rewrite ?andb_false_r, ?orb_false_r. }
  destruct (decide (i = 16)) as [->|].
  { cbn [Z.sub Z.ltb Z.compare Z.eqb Z.opp Z.add Z.pos_sub Pos.compare Pos.compare_cont andb].
    rewrite !testbit_wrap, !Z.lor_spec, !Z.shiftr_spec, Z.land_spec, Z.shiftl_spec by lia.
    cbn. rewrite ?andb_true_r, ?orb_false_r. by rewrite orb_comm. }
  rewrite !testbit_wrap by lia. decide_Z. rewrite Hh by lia. cbn.
  by rewrite ?andb_false_r.
Qed.

Lemma set_size_ranges h sz :
  in_range 8 (flags_ (set_size h sz)) /\ in_range 16 (size_ (set_size h sz)).
Proof. by split; apply wrap_range. Qed.

(** The bits of the flags other than the 64 KB bit are kept by [size(uint32_t)]. *)
Lemma flags_set_size h sz i :
  0 < i < 8 -> in_range 17 sz -> Z.testbit (flags_ (set_size h sz)) i = Z.testbit (flags_ h) i.
Proof.
  intros Hi Hs. cbn [set_size flags_]. change (Z.shiftl 1 16) with (Z.shiftl (Z.ones 1) 16).
  autorewrite with bits. decide_Z. rewrite (testbit_high 17 sz) by (done || lia).
  by rewrite andb_false_l, orb_false_r.
Qed.

Lemma isCompressed_testbit h : isCompressed h = Z.testbit (flags_ h) 1.
Proof. exact (land_pow2_testbit (flags_ h) 1 ltac:(lia)). Qed.

(** A packet header built the way the writer builds it (fresh flags without the 64 KB
    bit, then the size of the data, at most [MaxPacketDataSize]) occupies four bytes, and
    loading them, whatever follows, gives back the type, the compression flag and the size:
    the 17-bit size survives the 16-bit field. *)
Theorem header_roundtrip {PV : ProtocolValues} (ty fl sz : Z) (rest : list Z) :
  in_range 8 ty -> in_range 8 fl -> Z.testbit fl 0 = false -> 0 <= sz <= MaxPacketDataSize ->
  let h := set_size (reset (mkHeader 0 0 0) ty fl 0) sz in
  length (store h) = 4%nat /\ load (store h ++ rest) = Some (h, rest)
  /\ type_ h = ty /\ size h = sz /\ isCompressed h = Z.testbit fl 1.
Proof.
  intros Ht Hf H0 Hs. cbn zeta.
  assert (Hr : in_range 17 sz) by (unfold in_range, MaxPacketDataSize in *; cbn; lia).
  assert (E : flags_ (reset (mkHeader 0 0 0) ty fl 0) = fl).
  { cbn. rewrite Z.lor_0_r. by apply wrap_small. }
  destruct (set_size_ranges (reset (mkHeader 0 0 0) ty fl 0) sz) as [R1 R2].
  split; [apply length_store|]. split; [by apply load_store|]. split; [done|]. split.
  - rewrite size_set_size, E, H0; [done|by rewrite E|done].
  - rewrite isCompressed_testbit, flags_set_size by (done || lia). by rewrite E.
Qed.

Lemma header_roundtrip_witness :
  let h := set_size (reset (mkHeader 0 0 0) 3 2 0) 65536 in
  load (store h ++ [7]) = Some (h, [7]) /\ size h = 65536.
Proof.
  destruct (header_roundtrip (PV := serialization_v1) 3 2 65536 [7]) as (_ & E1 & _ & E2 & _).
  - unfold in_range; lia.
  - unfold in_range; lia.
  - reflexivity.
  - unfold MaxPacketDataSize; lia.
  - split; [exact E1|exact E2].
Defined.

(** [size(uint32_t)] only ever sets the 64 KB bit: once the header has held a size of
    64 KB, every smaller size set later reads back 64 KB larger. *)
Lemma size_flag_sticky (h : PacketHeader) (sz : Z) :
  in_range 8 (flags_ h) -> 0 <= sz < 2 ^ 16 ->
  size (set_size (set_size h (2 ^ 16)) sz) = sz + 2 ^ 16.
Proof.
  intros Hf Hs. assert (Hr : in_range 17 sz) by (unfold in_range; lia).
  rewrite size_set_size by (apply set_size_ranges || done).
  assert (Z.testbit (flags_ (set_size h (2 ^ 16))) 0 = true) as ->.
  { cbn [set_size flags_]. change (2 ^ 16) with (Z.shiftl 1 16).
    autorewrite with bits. done. }
  change (2 ^ 16) with (Z.shiftl 1 16) at 1. rewrite lor_shiftl_add by (done || lia). lia.
Qed.

End PacketHeader.

(** ** Message flags (mpipcmessage.hpp) *)
Module MessageFlags.

Definition WaitResponse : Z := Z.shiftl 1 0.
Definition Synchronous : Z := Z.shiftl 1 1.
Definition Idempotent : Z := Z.shiftl 1 2.
Definition OneShotSend : Z := Z.shiftl 1 3.
Definition StartedSend : Z := Z.shiftl 1 4.
Definition DoneSend : Z := Z.shiftl 1 5.
Definition Canceled : Z := Z.shiftl 1 6.
Definition Response : Z := Z.shiftl 1 7.

(** [flags & flag], [flags |= flag] and [flags &= ~flag] on an [ulong]. *)
Definition has (_flags f : Z) : bool := negb (Z.land _flags f =? 0).
Definition set (_flags f : Z) : Z := Z.lor _flags f.
Definition unset (_flags f : Z) : Z := Z.land _flags (Z.lxor (Z.ones 64) (Z.lor 0 f)).

Definition is_synchronous (_flags : Z) : bool := has _flags Synchronous.
Definition is_asynchronous (_flags : Z) : bool := negb (has _flags Synchronous).
Definition is_waiting_response (_flags : Z) : bool := has _flags WaitResponse.
Definition is_request (_flags : Z) : bool := is_waiting_response _flags.
Definition is_idempotent (_flags : Z) : bool := has _flags Idempotent.
Definition is_started_send (_flags : Z) : bool := has _flags StartedSend.
Definition is_done_send (_flags : Z) : bool := has _flags DoneSend.
Definition is_canceled (_flags : Z) : bool := has _flags Canceled.
Definition is_one_shot (_flags : Z) : bool := has _flags OneShotSend.
Definition is_response (_flags : Z) : bool := has _flags Response.

Lemma has_testbit v k : 0 <= k -> has v (Z.shiftl 1 k) = Z.testbit v k.
Proof. intros Hk. unfold has. rewrite Z.shiftl_1_l. by apply land_pow2_testbit. Qed.

Lemma testbit_set v j k :
  0 <= j -> 0 <= k -> Z.testbit (set v (Z.shiftl 1 j)) k = Z.testbit v k || (k =? j).
Proof.
  intros. unfold set. rewrite Z.lor_spec, Z.shiftl_1_l, Z.pow2_bits_eqb by done.
  by rewrite Z.eqb_sym.
Qed.

Lemma testbit_unset v j k :
  0 <= j -> 0 <= k < 64 ->
  Z.testbit (unset v (Z.shiftl 1 j)) k = Z.testbit v k && negb (k =? j).
Proof.
  intros. unfold unset. rewrite Z.land_spec, Z.lxor_spec, Z.lor_0_l, Z.shiftl_1_l.
  rewrite Z.pow2_bits_eqb, Z.testbit_ones_nonneg by lia.
  rewrite Z.eqb_sym, (proj2 (Z.ltb_lt k 64)) by lia. by destruct (k =? j).
Qed.

(** Computes one flag of flags that were changed one by one. *)
Ltac flags :=
  unfold is_synchronous, is_waiting_response, is_started_send, is_done_send, is_canceled,
    WaitResponse, Synchronous, StartedSend, DoneSend, Canceled in *;
  rewrite ?has_testbit in * by lia;
  repeat first [ rewrite testbit_set by lia | rewrite testbit_unset by lia ];
  cbn [Z.eqb Pos.eqb negb]; rewrite ?orb_false_r, ?andb_true_r, ?orb_true_r, ?andb_false_r.

End MessageFlags.
