(* ===== verification/MessageReader.v ===== *)
(** * The message reader of a connection

    solid/frame/mpipc/src/mpipcmessagereader.hpp and mpipcmessagereader.cpp: cuts the bytes
    of a connection into packets and hands the message chunks of a packet to the
    deserializer of the message they belong to. Messages being received are kept in a queue
    whose front is the current message; the peer multiplexes them by switch types.

    The deserializer and the completion callback are reached through the [Protocol] and
    [CompleteFunctionT] interfaces and are parameters; [World] is the state they share (the
    connection and its context). The decompression function of the configuration is a
    parameter. Assertions are disabled, as in a release build. *)

From S2P Require Import Prelude Packet.
Import PacketHeader.
#[local] Open Scope res_scope.

Module MessageReader.

(** The errors the reader itself reports (mpipcerror.hpp), and those of the deserializer and
    of decompression. A null pointer and "no error" are [None]. *)
Inductive ReaderError (E : Type) : Type :=
  | error_reader_invalid_packet_header
  | error_reader_too_many_multiplex
  | error_reader_invalid_message_switch
  | error_other (e : E).
Arguments error_reader_invalid_packet_header {E}.
Arguments error_reader_too_many_multiplex {E}.
Arguments error_reader_invalid_message_switch {E}.
Arguments error_other {E} e.

Inductive States := HeaderReadStateE | DataReadStateE.

(** [MessageReader::Events] with the arguments of the callback. *)
Inductive Event (Msg : Type) : Type :=
  | MessageCompleteE (message_ptr : option Msg) (message_type_id : Z)
  | KeepaliveCompleteE.
Arguments MessageCompleteE {Msg} message_ptr message_type_id.
Arguments KeepaliveCompleteE {Msg}.

(** The interfaces the reader calls. [push] gives the deserializer a reference to the stub's
    message pointer; [run] stores through it, so it returns the pointer's new value. *)
Class ReaderEnv (World Des Msg Err : Type) := {
  createDeserializer : Des;
  reset_deserializer : Des -> Des;
  des_push : Des -> option Msg -> Des;
  des_run : World -> Des -> option Msg -> list Z -> World * Des * option Msg * Z;
  des_empty : Des -> bool;
  des_clear : Des -> Des;
  des_error : Des -> option Err;
  typeIndex : Msg -> Z;
  decompress_fnc : list Z -> list Z * option Err;
  max_message_count_multiplex : Z;
  complete_fnc : World -> Event Msg -> World
}.

Section Reader.
Context {World Des Msg Err : Type} {PV : ProtocolValues} {RE : ReaderEnv World Des Msg Err}.

Record MessageStub := mkStub {
  message_ptr : option Msg;
  deserializer_ptr : option Des;
  packet_count : Z
}.

Definition MessageStub_new : MessageStub := mkStub None None 0.

Definition MessageStub_clear (s : MessageStub) : MessageStub := mkStub None None (packet_count s).

(** What [std::move] leaves behind: the pointers are gone, the counter is copied. *)
Definition MessageStub_moved (s : MessageStub) : MessageStub := mkStub None None (packet_count s).

Definition set_packet_count (n : Z) (s : MessageStub) : MessageStub :=
  mkStub (message_ptr s) (deserializer_ptr s) n.

Record MessageReader := mkReader {
  state : States;
  current_message_type_id : Z;
  message_q : list MessageStub
}.

Definition MessageReader_new : MessageReader := mkReader HeaderReadStateE (InvalidIndex 64) [].

Definition prepare (r : MessageReader) : MessageReader :=
  mkReader (state r) (current_message_type_id r) (message_q r ++ [MessageStub_new]).

Definition set_state (r : MessageReader) (s : States) : MessageReader :=
  mkReader s (current_message_type_id r) (message_q r).

Definition set_q (r : MessageReader) (q : list MessageStub) : MessageReader :=
  mkReader (state r) (current_message_type_id r) q.

(** [front], [pop] and a change of the front of the queue: undefined on an empty one. *)
Definition q_front (q : list MessageStub) : res MessageStub := of_option (head q).

Definition q_pop (q : list MessageStub) : res (list MessageStub) :=
  match q with [] => Undef | _ :: q => Done q end.

Definition q_set_front (q : list MessageStub) (s : MessageStub) : res (list MessageStub) :=
  match q with [] => Undef | _ :: q => Done (s :: q) end.

(** [message_q.push(std::move(message_q.front()))] *)
Definition q_push_moved_front (q : list MessageStub) : res (list MessageStub) :=
  let! s := q_front q in
  let! q := q_set_front q (MessageStub_moved s) in
  Done (q ++ [s]).

(** The outcome of the switch of [doConsumePacket]: an early return with an error, or the
    queue and [canceled_message]. *)
Inductive switched : Type :=
  | SwReturn (q : list MessageStub) (e : ReaderError Err)
  | SwGo (q : list MessageStub) (canceled_message : bool).

Definition switch_new (q : list MessageStub) : res switched :=
  let! f := q_front q in
  if bool_decide (is_Some (message_ptr f)) && (Z.of_nat (length q) =? max_message_count_multiplex)
  then Done (SwReturn q error_reader_too_many_multiplex)
  else
    let! q := (if bool_decide (is_Some (message_ptr f)) then
                 let! q := q_set_front q (set_packet_count 0 f) in
                 q_push_moved_front q
               else Done q) in
    let! f := q_front q in
    let des := match deserializer_ptr f with Some d => d | None => createDeserializer end in
    let des := reset_deserializer des in
    let des := des_push des (message_ptr f) in
    let! q := q_set_front q (mkStub (message_ptr f) (Some des) (packet_count f)) in
    Done (SwGo q false).

(** The shared part of the switches to an old message. *)
Definition switch_old (q : list MessageStub) : res (list MessageStub) :=
  let! f := q_front q in
  let! q := (if bool_decide (is_Some (message_ptr f)) then
               let! q := q_push_moved_front q in
               let! f := q_front q in
               q_set_front q (set_packet_count 0 f)
             else Done q) in
  q_pop q.

Definition do_switch (crt_msg_type : Z) (q : list MessageStub) : res switched :=
  if crt_msg_type =? SwitchToNewMessageTypeE then switch_new q
  else if crt_msg_type =? SwitchToOldMessageTypeE then
    let! q := switch_old q in
    Done (SwGo q false)
  else if crt_msg_type =? ContinuedMessageTypeE then
    let! f := q_front q in
    let! q := q_set_front q (set_packet_count (wrap 64 (packet_count f + 1)) f) in
    Done (SwGo q false)
  else if crt_msg_type =? SwitchToOldCanceledMessageTypeE then
    let! q := switch_old q in
    let! f := q_front q in
    let! q := q_set_front q (MessageStub_clear f) in
    Done (SwGo q true)
  else if crt_msg_type =? ContinuedCanceledMessageTypeE then
    let! f := q_front q in
    let! q := q_set_front q (MessageStub_clear f) in
    Done (SwGo q true)
  else Done (SwReturn q error_reader_invalid_message_switch).

(** The chunk of the current message: [true] says that the loop is left by [break]. *)
Definition run_front (w : World) (q : list MessageStub) (buf : list Z) (err : option (ReaderError Err))
  : res (World * list MessageStub * list Z * option (ReaderError Err) * bool) :=
  let! f := q_front q in
  let! d := of_option (deserializer_ptr f) in
  let '(w, d, m, rv) := des_run w d (message_ptr f) buf in
  if 0 <? rv then
    let buf := drop (Z.to_nat rv) buf in
    if des_empty d then
      let d := des_clear d in
      let message_type_id := match m with Some m => typeIndex m | None => InvalidIndex 64 end in
      let w := complete_fnc w (MessageCompleteE m message_type_id) in
      let! q := q_set_front q (mkStub None (Some d) (packet_count f)) in
      Done (w, q, buf, err, false)
    else
      let! q := q_set_front q (mkStub m (Some d) (packet_count f)) in
      Done (w, q, buf, err, false)
  else
    let! q := q_set_front q (mkStub m (Some d) (packet_count f)) in
    Done (w, q, buf, error_other <$> des_error d, true).

Fixpoint consume_loop (fuel : nat) (w : World) (q : list MessageStub) (crt_msg_type : Z)
    (buf : list Z) (err : option (ReaderError Err))
  : res (World * list MessageStub * option (ReaderError Err)) :=
  match fuel with
  | O => NoFuel
  | S fuel =>
      match buf with
      | [] => Done (w, q, err)
      | _ :: _ =>
          let! sw := do_switch crt_msg_type q in
          match sw with
          | SwReturn q e => Done (w, q, Some e)
          | SwGo q canceled_message =>
              let! r := (if negb canceled_message then run_front w q buf err
                         else Done (w, q, buf, err, false)) in
              let '(w, q, buf, err, brk) := r in
              if (brk : bool) then Done (w, q, err)
              else
                match buf with
                | [] => consume_loop fuel w q crt_msg_type buf err
                | _ :: _ =>
                    let! t := of_option (loadValue8 buf) in
                    let '(crt_msg_type, buf) := t in
                    consume_loop fuel w q crt_msg_type buf err
                end
          end
      end
  end.

(** [doConsumePacket]; [body] is the data of the packet. *)
Definition doConsumePacket (w : World) (q : list MessageStub) (h : PacketHeader) (body : list Z)
    (err : option (ReaderError Err))
  : res (World * list MessageStub * option (ReaderError Err)) :=
  if isCompressed h then
    let '(data, e) := decompress_fnc body in
    match e with
    | Some e => Done (w, q, Some (error_other e))
    | None => consume_loop (S (length data)) w q (type_ h) data err
    end
  else consume_loop (S (length body)) w q (type_ h) body err.

(** [read]: [buf] holds the bytes from [pbufpos] to [pbufend]; the bytes not consumed are
    returned. *)
Fixpoint read_loop (fuel : nat) (w : World) (r : MessageReader) (buf : list Z)
  : res (World * MessageReader * list Z * option (ReaderError Err)) :=
  match fuel with
  | O => NoFuel
  | S fuel =>
      match buf with
      | [] => Done (w, r, buf, None)
      | _ :: _ =>
          let headerless := match state r with
                            | HeaderReadStateE => Z.of_nat (length buf) <? SizeOfE
                            | DataReadStateE => false
                            end in
          if headerless then Done (w, r, buf, None)
          else
            let r := set_state r DataReadStateE in
            let! hl := of_option (load buf) in
            let '(packet_header, tmpbuf) := hl in
            if negb (size packet_header <=? Z.of_nat (length tmpbuf)) then Done (w, r, buf, None)
            else
              let buf := tmpbuf in
              if negb (isOk packet_header) then
                Done (w, r, buf, Some error_reader_invalid_packet_header)
              else if isTypeKeepAlive packet_header then
                read_loop fuel (complete_fnc w KeepaliveCompleteE) r buf
              else
                let n := Z.to_nat (size packet_header) in
                let! c := doConsumePacket w (message_q r) packet_header (take n buf) None in
                let '(w, q, err) := c in
                let r := set_q r q in
                match err with
                | None => read_loop fuel w (set_state r HeaderReadStateE) (drop n buf)
                | Some e => Done (w, r, buf, Some e)
                end
      end
  end.

Definition read (w : World) (r : MessageReader) (buf : list Z)
  : res (World * MessageReader * list Z * option (ReaderError Err)) :=
  read_loop (S (length buf)) w r buf.

(** The use of [read] by a connection: bytes that are not consumed stay in front of the
    bytes received next; the connection stops on an error. *)
Fixpoint feed (w : World) (r : MessageReader) (pend : list Z) (chunks : list (list Z))
  : res (World * MessageReader * list Z * option (ReaderError Err)) :=
  match chunks with
  | [] => Done (w, r, pend, None)
  | c :: chunks =>
      let! x := read w r (pend ++ c) in
      let '(w, r, rest, err) := x in
      match err with
      | None => feed w r rest chunks
      | Some e => Done (w, r, rest ++ concat chunks, Some e)
      end
  end.

(** ** Termination *)

Lemma length_loadValue8 buf t buf' : loadValue8 buf = Some (t, buf') -> length buf = S (length buf').
Proof using Type.
  clear RE. destruct buf as [|b buf]; [by rewrite loadValue8_nil|].
  destruct (loadValue8_some b buf) as (v & -> & _). by intros [= -> ->].
Qed.

Lemma load_cases buf :
  (load buf = None /\ (length buf < 4)%nat)
  \/ exists h, load buf = Some (h, drop 4 buf) /\ (4 <= length buf)%nat
       /\ forall ex, load (buf ++ ex) = Some (h, drop 4 buf ++ ex).
Proof using Type.
  clear RE. destruct (decide (length buf < 4)%nat) as [H|H].
  - left. by rewrite load_short.
  - right. destruct (load_long buf) as (h & E & E'); [lia|]. exists h. split_and!; [done|lia|done].
Qed.

Lemma q_front_total q : q_front q <> NoFuel.
Proof using Type. by destruct q. Qed.

Lemma q_pop_total q : q_pop q <> NoFuel.
Proof using Type. by destruct q. Qed.

Lemma q_set_front_total q s : q_set_front q s <> NoFuel.
Proof using Type. by destruct q. Qed.

#[local] Hint Resolve q_front_total q_pop_total q_set_front_total : total.

Lemma do_switch_total t q : do_switch t q <> NoFuel.
Proof using Type. unfold do_switch, switch_new, switch_old, q_push_moved_front. total. Qed.

(** A chunk that does not end the loop consumes at least a byte. *)
Lemma run_front_spec w q buf err :
  run_front w q buf err <> NoFuel
  /\ forall w' q' buf' err', run_front w q buf err = Done (w', q', buf', err', false) ->
       buf <> [] -> (length buf' < length buf)%nat.
Proof using Type.
  unfold run_front. destruct q as [|f q]; cbn; [done|].
  destruct (deserializer_ptr f) as [d|]; cbn; [|done].
  destruct (des_run w d (message_ptr f) buf) as [[[w1 d1] m] rv].
  destruct (Z.ltb_spec 0 rv); cbn; [|split; [done|congruence]].
  destruct (des_empty d1); cbn; (split; [done|]); intros w' q' buf' err' [= <- <- <- <-] Hb;
    rewrite length_drop; (destruct buf; [done|cbn; lia]).
Qed.

Lemma consume_loop_total fuel w q t buf err :
  (length buf < fuel)%nat -> consume_loop fuel w q t buf err <> NoFuel.
Proof using Type.
  revert w q t buf err. induction fuel as [|fuel IH]; intros w q t buf err Hf; [lia|].
  cbn [consume_loop]. destruct buf as [|b buf]; [done|].
  pose proof (do_switch_total t q) as Hs.
  destruct (do_switch t q) as [[q1 e|q1 can]| |]; cbn [res_bind]; [done| |done|done].
  assert (H : forall w q buf' err', (length buf' <= S (length buf))%nat ->
            match buf' with
            | [] => consume_loop fuel w q t buf' err'
            | _ :: _ => let! x := of_option (loadValue8 buf') in
                        let '(t, buf) := x in consume_loop fuel w q t buf err'
            end <> NoFuel).
  { intros w1 q2 buf' err' Hl. destruct buf' as [|b' buf']; [apply IH; cbn in *; lia|].
    destruct (loadValue8 (b' :: buf')) as [[t' buf'']|] eqn:E; cbn; [|done].
    apply length_loadValue8 in E. apply IH. cbn in *. lia. }
  destruct can; cbn [negb res_bind]; [apply (H w q1 (b :: buf) err); cbn; lia|].
  pose proof (run_front_spec w q1 (b :: buf) err) as [Hn Hp].
  destruct (run_front w q1 (b :: buf) err) as [[[[[w1 q2] buf'] err'] brk]| |]; cbn [res_bind]; [|done|done].
  destruct brk; [done|]. apply H. specialize (Hp _ _ _ _ eq_refl ltac:(done)). cbn in Hp. lia.
Qed.

Lemma doConsumePacket_total w q h body err : doConsumePacket w q h body err <> NoFuel.
Proof using Type.
  unfold doConsumePacket. destruct (isCompressed h); [|apply consume_loop_total; lia].
  destruct (decompress_fnc body) as [data [e|]]; [done|]. apply consume_loop_total; lia.
Qed.

Lemma read_loop_total fuel w r buf : (length buf < fuel)%nat -> read_loop fuel w r buf <> NoFuel.
Proof using Type.
  revert w r buf. induction fuel as [|fuel IH]; intros w r buf Hf; [lia|].
  cbn [read_loop]. destruct buf as [|b buf]; [done|].
  set (hl := match state r with HeaderReadStateE => _ | _ => _ end). destruct hl; [done|].
  destruct (load_cases (b :: buf)) as [[-> _]|(h & -> & Hl & _)]; cbn [of_option res_bind]; [done|].
  destruct (negb (size h <=? _)); [done|]. destruct (negb (isOk h)); [done|].
  assert (length (drop 4 (b :: buf)) < fuel)%nat by (rewrite length_drop; lia).
  destruct (isTypeKeepAlive h); [by apply IH|].
  pose proof (doConsumePacket_total w (message_q (set_state r DataReadStateE)) h
    (take (Z.to_nat (size h)) (drop 4 (b :: buf))) None) as Hc.
  destruct (doConsumePacket _ _ _ _ _) as [[[w1 q1] [e|]]| |]; cbn [res_bind]; try done.
  apply IH. rewrite length_drop. lia.
Qed.

(** C35: whatever bytes a peer sends, [read] comes to an end: every turn of its loop takes a
    header off the buffer, every turn of [doConsumePacket]'s loop takes a byte off the
    packet, unless the loop is left. *)
Theorem read_terminates (w : World) (r : MessageReader) (buf : list Z) : read w r buf <> NoFuel.
Proof using Type. apply read_loop_total. lia. Qed.

(** ** Resuming *)

(** Any two fuels that are enough agree. *)
Lemma read_loop_fuel f1 f2 w r buf :
  (length buf < f1)%nat -> (length buf < f2)%nat -> read_loop f1 w r buf = read_loop f2 w r buf.
Proof using Type.
  revert f2 w r buf. induction f1 as [|f1 IH]; intros [|f2] w r buf H1 H2; [lia..|].
  cbn [read_loop]. destruct buf as [|b buf]; [done|].
  set (hl := match state r with HeaderReadStateE => _ | _ => _ end). destruct hl; [done|].
  destruct (load_cases (b :: buf)) as [[-> _]|(h & -> & Hl & _)]; cbn [of_option res_bind]; [done|].
  destruct (negb (size h <=? _)); [done|]. destruct (negb (isOk h)); [done|].
  assert (length (drop 4 (b :: buf)) < length (b :: buf))%nat by (rewrite length_drop; cbn; lia).
  destruct (isTypeKeepAlive h); [apply IH; lia|].
  destruct (doConsumePacket _ _ _ _ _) as [[[w1 q1] [e|]]| |]; cbn [res_bind]; try done.
  apply IH; rewrite length_drop; lia.
Qed.

(** With a whole header in the buffer the two states read alike. *)
Lemma read_loop_state fuel w r buf :
  (4 <= length buf)%nat -> read_loop fuel w (set_state r DataReadStateE) buf = read_loop fuel w r buf.
Proof using Type.
  intros Hl. destruct fuel as [|fuel]; [done|]. cbn [read_loop state set_state].
  destruct buf as [|b buf]; [cbn in Hl; lia|].
  assert ((match state r with HeaderReadStateE => Z.of_nat (length (b :: buf)) <? SizeOfE
           | DataReadStateE => false end) = false) as ->; [|done].
  destruct (state r); [|done]. apply Z.ltb_ge. unfold SizeOfE. lia.
Qed.

Lemma read_loop_resume fuel fuel' w r a b w' r' rest err :
  read_loop fuel w r a = Done (w', r', rest, err) ->
  (length (a ++ b) < fuel')%nat ->
  read_loop fuel' w r (a ++ b)
  = match err with
    | None => read w' r' (rest ++ b)
    | Some _ => Done (w', r', rest ++ b, err)
    end.
Proof using Type.
  revert fuel' w r a. induction fuel as [|fuel IH]; intros fuel' w r a Hr Hf; [done|].
  assert (Hpend : r' = r -> w' = w -> rest = a -> err = None ->
            read_loop fuel' w r (a ++ b)
            = match err with None => read w' r' (rest ++ b) | Some _ => Done (w', r', rest ++ b, err) end).
  { intros -> -> -> ->. apply read_loop_fuel; lia. }
  cbn [read_loop] in Hr. destruct a as [|x a].
  { injection Hr as <- <- <- <-. by apply Hpend. }
  set (hl := match state r with HeaderReadStateE => _ | _ => _ end) in Hr.
  destruct hl eqn:Ehl; unfold hl in Ehl.
  { injection Hr as <- <- <- <-. by apply Hpend. }
  destruct (load_cases (x :: a)) as [[E _]|(h & E & Hl & E')]; rewrite E in Hr;
    cbn [of_option res_bind] in Hr; [done|]. clear Hpend.
  rewrite <- read_loop_state by (rewrite length_app; lia).
  destruct fuel' as [|fuel']; [lia|].
  destruct (Z.leb_spec (size h) (Z.of_nat (length (drop 4 (x :: a))))) as [Hs|Hs]; cbn [negb] in Hr.
  2:{ injection Hr as <- <- <- <-. apply read_loop_fuel; lia. }
  cbn [read_loop set_state state]. cbn [app] in E'. cbn [app]. rewrite (E' b).
  cbn [of_option res_bind].
  rewrite (proj2 (Z.leb_le (size h) _)) by (rewrite length_app; lia). cbn [negb].
  destruct (negb (isOk h)).
  { injection Hr as <- <- <- <-. done. }
  assert (length (drop 4 (x :: a) ++ b) < fuel')%nat.
  { rewrite length_app, length_drop. rewrite length_app in Hf. cbn in *. lia. }
  destruct (isTypeKeepAlive h); [by apply IH|].
  rewrite take_app_le, drop_app_le by lia. cbn [message_q set_state].
  cbn [message_q set_state] in Hr.
  destruct (doConsumePacket _ _ _ _ _) as [[[w1 q1] [e|]]| |]; cbn [res_bind] in *; [|  |done|done].
  - injection Hr as <- <- <- <-. done.
  - apply IH; [done|]. rewrite length_app, length_drop. rewrite length_app in H. lia.
Qed.

Lemma feed_concat w r pend chunks w' r' rest err :
  read w r pend = Done (w, r, pend, None) ->
  feed w r pend chunks = Done (w', r', rest, err) ->
  read w r (pend ++ concat chunks) = Done (w', r', rest, err).
Proof using Type.
  revert w r pend. induction chunks as [|c chunks IH]; intros w r pend Hp Hf; cbn [feed concat] in *.
  { injection Hf as <- <- <- <-. by rewrite app_nil_r. }
  destruct (read w r (pend ++ c)) as [[[[w1 r1] rest1] err1]| |] eqn:E; cbn [res_bind] in Hf; [|done|done].
  rewrite app_assoc. unfold read at 1.
  rewrite (read_loop_resume _ _ _ _ _ (concat chunks) _ _ _ _ E) by lia.
  destruct err1 as [e|]; [by injection Hf as <- <- <- <-|].
  apply IH; [|done]. unfold read in E.
  pose proof (read_loop_resume _ (S (length ((pend ++ c) ++ []))) _ _ _ [] _ _ _ _ E ltac:(lia)) as H.
  cbn [option_map] in H. rewrite !app_nil_r in H. by rewrite <- H.
Qed.

(** ** Framing *)

(** A packet on the wire, and the effect of a sequence of packets. *)
Definition packet_bytes (p : PacketHeader * list Z) : list Z := store p.1 ++ p.2.

Definition packet_ok (p : PacketHeader * list Z) : Prop :=
  in_range 8 (type_ p.1) /\ in_range 8 (flags_ p.1) /\ in_range 16 (size_ p.1)
  /\ isOk p.1 = true /\ isTypeKeepAlive p.1 = false /\ Z.of_nat (length p.2) = size p.1.

(** The packets one after the other; with an error, also the bytes that were not consumed: the data
    of the packet that failed, and what follows it. *)
Fixpoint consume_all (w : World) (q : list MessageStub) (ps : list (PacketHeader * list Z))
  : res (World * list MessageStub * option (ReaderError Err * list Z)) :=
  match ps with
  | [] => Done (w, q, None)
  | p :: ps =>
      let! x := doConsumePacket w q p.1 p.2 None in
      let '(w, q, err) := x in
      match err with None => consume_all w q ps | Some e => Done (w, q, Some (e, p.2 ++ concat (packet_bytes <$> ps))) end
  end.

(** The beginning of a packet: less than a header, or a header with less data than it says. *)
Definition incomplete (tl : list Z) : Prop :=
  match load tl with
  | None => True
  | Some (h, data) => Z.of_nat (length data) < size h
  end.

Definition wait_state (tl : list Z) : States :=
  if (length tl <? 4)%nat then HeaderReadStateE else DataReadStateE.

Lemma size_nonneg h : in_range 8 (flags_ h) -> in_range 16 (size_ h) -> 0 <= size h.
Proof using Type.
  intros Hf Hs. apply Z.lor_nonneg. split; [apply wrap_range; lia|apply Hs].
Qed.

Lemma read_incomplete w i q tl :
  incomplete tl ->
  read w (mkReader HeaderReadStateE i q) tl = Done (w, mkReader (wait_state tl) i q, tl, None).
Proof using Type.
  intros Ht. unfold read, wait_state, incomplete in *. cbn [read_loop state].
  destruct tl as [|x tl]; [done|]. unfold SizeOfE.
  destruct (load_cases (x :: tl)) as [[E Hl]|(h & E & Hl & _)]; rewrite E in *.
  - by rewrite (proj2 (Z.ltb_lt _ _)), (proj2 (Nat.ltb_lt _ _)) by lia.
  - rewrite (proj2 (Z.ltb_ge _ _)), (proj2 (Nat.ltb_ge _ _)) by lia. cbn [of_option res_bind].
    by rewrite (proj2 (Z.leb_gt _ _)) by done.
Qed.

(** One whole packet in front of the buffer. *)
Lemma read_packet w i q p rest :
  packet_ok p ->
  read w (mkReader HeaderReadStateE i q) (packet_bytes p ++ rest)
  = (let! x := doConsumePacket w q p.1 p.2 None in
     let '(w, q, err) := x in
     match err with
     | None => read w (mkReader HeaderReadStateE i q) rest
     | Some e => Done (w, mkReader DataReadStateE i q, p.2 ++ rest, Some e)
     end).
Proof using Type.
  intros (Ht & Hf & Hs & Ho & Hk & Hl). unfold packet_bytes. rewrite <- app_assoc.
  destruct p as [h body]. cbn [fst snd] in *.
  unfold read at 1. set (buf := store h ++ body ++ rest).
  assert (Hlen : length buf = (4 + length (body ++ rest))%nat).
  { unfold buf. by rewrite length_app, length_store. }
  assert (El : load buf = Some (h, body ++ rest)) by (by apply load_store).
  cbn [read_loop state]. destruct buf as [|x buf]; [done|].
  rewrite (proj2 (Z.ltb_ge _ _)) by (unfold SizeOfE; lia).
  rewrite El. cbn [of_option res_bind].
  rewrite (proj2 (Z.leb_le _ _)) by (rewrite length_app; lia). rewrite Ho, Hk. cbn [negb].
  rewrite take_app_length', drop_app_length' by lia. cbn [message_q set_state].
  destruct (doConsumePacket w q h body None) as [[[w1 q1] [e|]]| |]; cbn [res_bind]; try done.
  unfold set_q, set_state, read. cbn [state current_message_type_id message_q].
  apply read_loop_fuel; [|lia]. rewrite length_app in Hlen. cbn in Hlen. cbn. lia.
Qed.

(** What reading packets and the beginning [tl] of another comes to *)
Definition framed (w : World) (i : Z) (q : list MessageStub) (ps : list (PacketHeader * list Z)) (tl : list Z)
  : res (World * MessageReader * list Z * option (ReaderError Err)) :=
  let! x := consume_all w q ps in
  let '(w, q, r) := x in
  match r with
  | None => Done (w, mkReader (wait_state tl) i q, tl, None)
  | Some (e, unread) => Done (w, mkReader DataReadStateE i q, unread ++ tl, Some e)
  end.

Lemma read_framed (w : World) (i : Z) (q : list MessageStub) (ps : list (PacketHeader * list Z)) (tl : list Z) :
  Forall packet_ok ps -> incomplete tl ->
  read w (mkReader HeaderReadStateE i q) (concat (packet_bytes <$> ps) ++ tl) = framed w i q ps tl.
Proof using Type.
  intros Hps Htl. revert w q. induction Hps as [|p ps Hp Hps IH]; intros w q; unfold framed; cbn [fmap list_fmap concat consume_all app].
  - by apply read_incomplete.
  - rewrite <- app_assoc, read_packet by done.
    destruct (doConsumePacket w q p.1 p.2 None) as [[[w1 q1] [e|]]| |]; cbn [res_bind]; [by rewrite <- app_assoc|by rewrite IH|done|done].
Qed.

(** C27: a buffer that holds whole packets, none of them a keep-alive, followed by the beginning of
    another is cut exactly at the packets: [read] consumes the packets in order. When all can be
    consumed, it leaves the beginning in the buffer and waits for the rest of it; when one fails,
    it reports the error and leaves the data of that packet and what follows it. *)
Theorem read_packets (w : World) (i : Z) (q : list MessageStub) (ps : list (PacketHeader * list Z)) (tl : list Z) :
  Forall packet_ok ps -> incomplete tl ->
  read w (mkReader HeaderReadStateE i q) (concat (packet_bytes <$> ps) ++ tl) = framed w i q ps tl.
Proof using Type. apply read_framed. Qed.

(** ** Streams cut anywhere *)

Lemma incomplete_prefix a b : incomplete (a ++ b) -> incomplete a.
Proof using Type.
  unfold incomplete. destruct (load_cases a) as [[-> _]|(h & -> & _ & ->)]; [done|]. rewrite length_app. lia.
Qed.

Lemma packet_not_incomplete p b : packet_ok p -> ~ incomplete (packet_bytes p ++ b).
Proof using Type.
  intros (Ht & Hf & Hs & _ & _ & Hl). unfold incomplete, packet_bytes. rewrite <- app_assoc, load_store by done. rewrite length_app. lia.
Qed.

(** A part of a packet is the beginning of a packet. *)
Lemma packet_part p a b : packet_ok p -> a ++ b = packet_bytes p -> b <> [] -> incomplete a.
Proof using Type.
  intros (Ht & Hf & Hs & _ & _ & Hl) E Hb. unfold incomplete. destruct (load_cases a) as [[-> _]|(h & -> & Hla & Hx)]; [done|].
  specialize (Hx b). rewrite E in Hx. unfold packet_bytes in Hx. rewrite load_store in Hx by done. injection Hx as <- Ed.
  rewrite Ed, length_app in Hl. destruct b; [done|]. cbn [length] in Hl. lia.
Qed.

(** The first bytes of a stream of packets are packets and the beginning of another. *)
Lemma stream_prefix ps tl : Forall packet_ok ps -> incomplete tl -> forall a b, a ++ b = concat (packet_bytes <$> ps) ++ tl ->
  exists ps1 ps2 tl1, ps = ps1 ++ ps2 /\ a = concat (packet_bytes <$> ps1) ++ tl1 /\ incomplete tl1 /\ tl1 ++ b = concat (packet_bytes <$> ps2) ++ tl.
Proof using Type.
  intros Hps Htl. induction Hps as [|p ps Hp Hps IH]; intros a b E; cbn [fmap list_fmap concat app] in *.
  - exists [], [], a. split_and!; try done. rewrite <- E in Htl. by eapply incomplete_prefix.
  - rewrite <- app_assoc in E. destruct (decide (length a < length (packet_bytes p))%nat) as [Hlt|Hge].
    + exists [], (p :: ps), a. split_and!; try done; [|by cbn [fmap list_fmap concat]; rewrite <- app_assoc].
      apply (packet_part p a (drop (length a) (packet_bytes p)) Hp).
      * rewrite <- (take_drop (length a) (packet_bytes p)) at 2. f_equal.
        rewrite <- (take_app_length a b) at 1. rewrite E. by rewrite take_app_le by lia.
      * intros E0%(f_equal length). rewrite length_drop in E0. cbn in E0. lia.
    + assert (a = packet_bytes p ++ drop (length (packet_bytes p)) a) as Ea.
      { rewrite <- (take_drop (length (packet_bytes p)) a) at 1. f_equal.
        rewrite <- (take_app_length (packet_bytes p) (concat (packet_bytes <$> ps) ++ tl)) at 2. rewrite <- E. by rewrite take_app_le by lia. }
      rewrite Ea, <- app_assoc in E. apply app_inv_head in E. destruct (IH _ _ E) as (ps1 & ps2 & tl1 & -> & Ea1 & Ht1 & E1).
      exists (p :: ps1), ps2, tl1. split_and!; try done. cbn [fmap list_fmap concat]. rewrite <- app_assoc, <- Ea1. exact Ea.
Qed.

Lemma consume_app w q ps1 ps2 : consume_all w q (ps1 ++ ps2)
  = let! x := consume_all w q ps1 in
    let '(w, q, r) := x in
    match r with None => consume_all w q ps2 | Some (e, unread) => Done (w, q, Some (e, unread ++ concat (packet_bytes <$> ps2))) end.
Proof using Type.
  revert w q. induction ps1 as [|p ps1 IH]; intros w q; cbn [app consume_all]; [done|].
  destruct (doConsumePacket w q p.1 p.2 None) as [[[w1 q1] [e|]]| |]; cbn [res_bind]; try done. by rewrite fmap_app, concat_app, app_assoc.
Qed.

(** The state in which the reader waits is as good as the first one. *)
Lemma read_waiting w i q pend c : read w (mkReader (wait_state pend) i q) (pend ++ c) = read w (mkReader HeaderReadStateE i q) (pend ++ c).
Proof using Type.
  unfold wait_state. destruct (Nat.ltb_spec (length pend) 4); [done|]. unfold read.
  change (mkReader DataReadStateE i q) with (set_state (mkReader HeaderReadStateE i q) DataReadStateE). apply read_loop_state. rewrite length_app. lia.
Qed.

Lemma feed_framed chunks : forall w i q pend ps tl, Forall packet_ok ps -> incomplete tl -> incomplete pend ->
  pend ++ concat chunks = concat (packet_bytes <$> ps) ++ tl -> feed w (mkReader (wait_state pend) i q) pend chunks = framed w i q ps tl.
Proof using Type.
  induction chunks as [|c chunks IH]; intros w i q pend ps tl Hps Htl Hp E; cbn [feed concat] in *.
  - rewrite app_nil_r in E. destruct Hps as [|p ps Hpk Hps]; [by cbn in E; subst|].
    exfalso. cbn [fmap list_fmap concat] in E. rewrite <- app_assoc in E. rewrite E in Hp. by eapply packet_not_incomplete.
  - rewrite app_assoc in E. destruct (stream_prefix ps tl Hps Htl _ _ E) as (ps1 & ps2 & tl1 & -> & Ea & Ht1 & E1).
    apply Forall_app in Hps as [Hps1 Hps2]. rewrite read_waiting, Ea, (read_framed _ _ _ _ _ Hps1 Ht1). unfold framed. rewrite consume_app.
    destruct (consume_all w q ps1) as [[[w1 q1] [[e un]|]]| |]; cbn [res_bind]; try done; [|by apply IH].
    by rewrite <- !app_assoc, E1.
Qed.

(** C25: framing does not depend on how the network cuts the stream. A connection reads the chunks
    one after the other and keeps the unread tail in front of the next chunk. For a stream of
    packets, none of them a keep-alive, that ends anywhere, this gives the same reader, events,
    unread tail and error as one [read] of all the bytes. For any other bytes that holds too if
    the connection gets through without an access outside its buffer (which after a keep-alive
    may happen in some cuts and not in others). *)
Theorem reader_chunk_invariant (w : World) (r : MessageReader) (chunks : list (list Z)) :
  (state r = HeaderReadStateE -> forall ps tl, Forall packet_ok ps -> incomplete tl -> concat chunks = concat (packet_bytes <$> ps) ++ tl ->
    feed w r [] chunks = read w r (concat chunks)) /\
  forall w' r' rest err, feed w r [] chunks = Done (w', r', rest, err) -> read w r (concat chunks) = Done (w', r', rest, err).
Proof using Type.
  split.
  - destruct r as [st i q]. cbn [state]. intros -> ps tl Hps Htl E. rewrite E, read_framed by done.
    apply (feed_framed chunks w i q [] ps tl); [done|done|unfold incomplete; by rewrite load_short by (cbn; lia)|done].
  - intros w' r' rest err H. by apply (feed_concat w r [] chunks).
Qed.

(** ** The size of the queue *)

Lemma q_set_front_length q s q' : q_set_front q s = Done q' -> length q' = length q.
Proof using Type. destruct q; [done|]. by intros [= <-]. Qed.

Lemma q_push_moved_front_length q q' : q_push_moved_front q = Done q' -> length q' = S (length q).
Proof using Type.
  destruct q as [|f q]; [done|]. intros [= <-]. cbn. rewrite length_app. cbn. lia.
Qed.

Lemma switch_old_length q q' : switch_old q = Done q' -> (length q' <= length q)%nat.
Proof using Type.
  destruct q as [|f q]; [done|]. unfold switch_old. cbn.
  case_bool_decide; intros [= <-]; rewrite ?length_app; cbn; lia.
Qed.

Definition sw_q (sw : switched) : list MessageStub :=
  match sw with SwReturn q _ | SwGo q _ => q end.

Lemma switch_new_length q sw :
  Z.of_nat (length q) <= max_message_count_multiplex -> switch_new q = Done sw ->
  Z.of_nat (length (sw_q sw)) <= max_message_count_multiplex.
Proof using Type.
  intros Hq. destruct q as [|f q]; [done|]. unfold switch_new. cbn [q_front head of_option res_bind].
  case_bool_decide as Hm; cbn [andb].
  - destruct (Z.eqb_spec (Z.of_nat (length (f :: q))) max_message_count_multiplex) as [E|E].
    + by intros [= <-].
    + cbn. intros [= <-]. cbn. rewrite length_app. cbn in *. lia.
  - cbn. by intros [= <-].
Qed.

Lemma do_switch_length t q sw :
  Z.of_nat (length q) <= max_message_count_multiplex -> do_switch t q = Done sw ->
  Z.of_nat (length (sw_q sw)) <= max_message_count_multiplex.
Proof using Type.
  intros Hq. unfold do_switch.
  assert (Hf : forall q' s q'', (length q' <= length q)%nat -> q_set_front q' s = Done q'' ->
            Z.of_nat (length q'') <= max_message_count_multiplex).
  { intros q' s q'' Hl ->%q_set_front_length. lia. }
  repeat case_match; [by apply switch_new_length|..];
    intros Hd; repeat (apply res_bind_done in Hd as (? & ? & Hd)); injection Hd as <-; cbn [sw_q].
  - match goal with E : switch_old _ = _ |- _ => apply switch_old_length in E end. lia.
  - eauto.
  - match goal with E : switch_old _ = _ |- _ => apply switch_old_length in E end. eauto.
  - eauto.
  - done.
Qed.

Lemma run_front_length w q buf err w' q' buf' err' brk :
  run_front w q buf err = Done (w', q', buf', err', brk) -> length q' = length q.
Proof using Type.
  unfold run_front. destruct q as [|f q]; [done|]. cbn [q_front head of_option res_bind].
  destruct (deserializer_ptr f) as [d|]; [|done]. cbn [of_option res_bind].
  destruct (des_run w d (message_ptr f) buf) as [[[w1 d1] m] rv].
  repeat case_match; cbn; by intros [= <- <- <- <- <-].
Qed.

Lemma consume_loop_length fuel w q t buf err w' q' err' :
  Z.of_nat (length q) <= max_message_count_multiplex ->
  consume_loop fuel w q t buf err = Done (w', q', err') ->
  Z.of_nat (length q') <= max_message_count_multiplex.
Proof using Type.
  revert w q t buf err. induction fuel as [|fuel IH]; intros w q t buf err Hq; [done|].
  cbn [consume_loop]. destruct buf as [|b buf]; [by intros [= <- <- <-]|].
  destruct (do_switch t q) as [sw| |] eqn:E; cbn [res_bind]; [|done|done].
  apply do_switch_length in E; [|done]. destruct sw as [q1 e|q1 can]; cbn [sw_q] in E.
  { by intros [= <- <- <-]. }
  intros Hc. apply res_bind_done in Hc as ([[[[w1 q2] buf'] err1] brk] & E1 & Hc).
  assert (length q2 = length q1) as Hl.
  { destruct can; cbn in E1; [congruence|by apply run_front_length in E1]. }
  destruct brk; [injection Hc as <- <- <-; lia|].
  destruct buf' as [|b' buf']; [eapply IH; [|exact Hc]; lia|].
  apply res_bind_done in Hc as ([t' buf''] & _ & Hc). eapply IH; [|exact Hc]. lia.
Qed.

Lemma doConsumePacket_length w q h body err w' q' err' :
  Z.of_nat (length q) <= max_message_count_multiplex ->
  doConsumePacket w q h body err = Done (w', q', err') ->
  Z.of_nat (length q') <= max_message_count_multiplex.
Proof using Type.
  intros Hq. unfold doConsumePacket. destruct (isCompressed h); [|by apply consume_loop_length].
  destruct (decompress_fnc body) as [data [e|]]; [by intros [= <- <- <-]|].
  by apply consume_loop_length.
Qed.

(** C34: the number of messages a peer can keep open on a connection never exceeds the
    configured [max_message_count_multiplex], whatever bytes it sends. *)
Theorem multiplex_bounded (w : World) (r : MessageReader) (buf : list Z) w' r' rest err :
  Z.of_nat (length (message_q r)) <= max_message_count_multiplex ->
  read w r buf = Done (w', r', rest, err) ->
  Z.of_nat (length (message_q r')) <= max_message_count_multiplex.
Proof using Type.
  unfold read. generalize (S (length buf)). intros fuel.
  revert w r buf. induction fuel as [|fuel IH]; intros w r buf Hq; [done|].
  cbn [read_loop]. destruct buf as [|b buf]; [by intros [= <- <- <- <-]|].
  set (hl := match state r with HeaderReadStateE => _ | _ => _ end).
  destruct hl; [by intros [= <- <- <- <-]|].
  intros Hr. apply res_bind_done in Hr as ([h tmp] & _ & Hr).
  destruct (negb (size h <=? _)); [by injection Hr as <- <- <- <-|].
  destruct (negb (isOk h)); [by injection Hr as <- <- <- <-|].
  destruct (isTypeKeepAlive h); [by eapply IH; [|exact Hr]|].
  apply res_bind_done in Hr as ([[w1 q1] err1] & Hc & Hr).
  apply doConsumePacket_length in Hc; [|done].
  destruct err1 as [e|]; [by injection Hr as <- <- <- <-|]. by eapply IH; [|exact Hr].
Qed.

(** ** Unchecked input *)

(** After a keep-alive packet the reader stays in [DataReadStateE] and loads the next
    header without checking that four bytes are there: if one to three bytes of the next
    packet have arrived with the keep-alive, [read] reads past the buffer, while the same
    bytes alone make it wait. *)
Theorem keepalive_overreads (w : World) (i : Z) (q : list MessageStub) (x : list Z) :
  (1 <= length x <= 3)%nat ->
  read w (mkReader HeaderReadStateE i q) (store (mkHeader KeepAliveTypeE 0 0) ++ x) = Undef
  /\ read w (mkReader HeaderReadStateE i q) x = Done (w, mkReader HeaderReadStateE i q, x, None).
Proof using Type.
  intros Hx. split.
  - set (h := mkHeader KeepAliveTypeE 0 0). unfold read. set (buf := store h ++ x).
    assert (Hlen : length buf = (4 + length x)%nat) by (unfold buf; by rewrite length_app, length_store).
    assert (El : load buf = Some (h, x)) by (by apply load_store).
    clearbody buf. destruct buf as [|y buf]; [done|]. cbn [read_loop state].
    rewrite (proj2 (Z.ltb_ge _ _)) by (unfold SizeOfE; lia). rewrite El.
    cbn [of_option res_bind]. change (size h) with 0.
    rewrite (proj2 (Z.leb_le 0 _)) by lia. cbn [negb isOk isTypeKeepAlive].
    change (isOk h) with true. change (isTypeKeepAlive h) with true. cbn [negb].
    destruct x as [|x1 x]; [cbn in Hx; lia|].
    cbn [length read_loop set_state state]. by rewrite load_short by lia.
  - rewrite read_incomplete; unfold incomplete, wait_state.
    + by rewrite (proj2 (Nat.ltb_lt _ _)) by lia.
    + by rewrite load_short by lia.
Qed.

(** The switch types of a packet are trusted: on a connection that is not receiving a
    message, a packet that switches to an old message makes the reader take the front of the
    emptied queue, and a packet that continues a message makes it run a null deserializer. *)
Theorem peer_switch_trusted (w : World) (ty sz : Z) (body : list Z) :
  ty = SwitchToOldMessageTypeE \/ ty = SwitchToOldCanceledMessageTypeE \/ ty = ContinuedMessageTypeE ->
  1 <= sz < 2 ^ 16 -> Z.of_nat (length body) = sz ->
  read w (prepare MessageReader_new) (packet_bytes (mkHeader ty 0 sz, body)) = Undef.
Proof using Type.
  intros Hty Hsz Hb. rewrite <- (app_nil_r (packet_bytes _)).
  change (prepare MessageReader_new) with (mkReader HeaderReadStateE (InvalidIndex 64) [MessageStub_new]).
  assert (Hs : size (mkHeader ty 0 sz) = sz) by done.
  rewrite read_packet.
  - unfold doConsumePacket. cbn [fst snd]. change (isCompressed _) with false. cbv iota.
    destruct body as [|b body]; [cbn in Hb; lia|]. cbn [type_ length consume_loop].
    destruct Hty as [->|[->| ->]]; done.
  - unfold packet_ok. cbn [fst snd type_ flags_ size_]. rewrite Hs.
    assert (isOk (mkHeader ty 0 sz) = true) as ->.
    { unfold isOk. rewrite Hs. unfold MaxPacketDataSize. rewrite (proj2 (Z.ltb_ge _ _)) by lia.
      by destruct Hty as [->|[->| ->]]. }
    unfold in_range. split_and!; try done; try lia; by destruct Hty as [->|[->| ->]].
Qed.

End Reader.

(** ** A concrete protocol for the witnesses

    A message is a length byte followed by that many bytes. *)
Section Witness.

Definition toy_run (w : list (Event (list Z))) (d : option Z) (m : option (list Z)) (buf : list Z)
  : list (Event (list Z)) * option Z * option (list Z) * Z :=
  match d, buf with
  | None, [] => (w, None, m, 0)
  | None, n :: bs =>
      let k := Z.min n (Z.of_nat (length bs)) in
      (w, Some (n - k), Some (take (Z.to_nat k) bs), k + 1)
  | Some n, bs =>
      let k := Z.min n (Z.of_nat (length bs)) in
      (w, Some (n - k), Some (default [] m ++ take (Z.to_nat k) bs), k)
  end.

#[local] Instance toy_env : ReaderEnv (list (Event (list Z))) (option Z) (list Z) unit := {|
  createDeserializer := None;
  reset_deserializer := fun d => d;
  des_push := fun _ _ => None;
  des_run := toy_run;
  des_empty := fun d => bool_decide (d = Some 0);
  des_clear := fun _ => None;
  des_error := fun _ => None;
  typeIndex := fun m => Z.of_nat (length m);
  decompress_fnc := fun bs => (bs, None);
  max_message_count_multiplex := 2;
  complete_fnc := fun w e => w ++ [e]
|}.

Abbreviation rd0 := (prepare MessageReader_new).

(** Two interleaved messages: the second starts in the middle of the first. *)
Definition toy_packets : list (PacketHeader * list Z) :=
  [(mkHeader 1 0 3, [4; 10; 11]); (mkHeader 1 0 3, [2; 20; 21]); (mkHeader 2 0 2, [12; 13])].

Definition toy_stream : list Z := concat (packet_bytes <$> toy_packets).

Definition toy_events : list (Event (list Z)) :=
  [MessageCompleteE (Some [20; 21]) 2; MessageCompleteE (Some [10; 11; 12; 13]) 4].

Lemma toy_packets_ok : Forall packet_ok toy_packets.
Proof. repeat constructor; vm_compute; congruence. Qed.

Lemma reader_chunk_invariant_witness :
  feed [] rd0 [] [take 5 toy_stream; drop 5 toy_stream ++ [1; 0]] = read [] rd0 (concat [take 5 toy_stream; drop 5 toy_stream ++ [1; 0]])
  /\ read [] rd0 (concat [take 5 toy_stream; drop 5 toy_stream ++ [1; 0]])
    = Done (toy_events, mkReader HeaderReadStateE (InvalidIndex 64) [mkStub None (Some None) 0], [1; 0], None).
Proof.
  destruct (reader_chunk_invariant [] rd0 [take 5 toy_stream; drop 5 toy_stream ++ [1; 0]]) as [H1 H2]. split.
  - apply (H1 eq_refl toy_packets [1; 0] toy_packets_ok); vm_compute; [exact I|reflexivity].
  - apply H2. vm_compute. reflexivity.
Defined.

Lemma read_packets_witness :
  read [] rd0 (concat (packet_bytes <$> toy_packets) ++ [1; 0; 0; 9; 5])
  = Done (toy_events, mkReader DataReadStateE (InvalidIndex 64) [mkStub None (Some None) 0], [1; 0; 0; 9; 5], None).
Proof.
  transitivity (framed [] (InvalidIndex 64) [MessageStub_new] toy_packets [1; 0; 0; 9; 5]); [|vm_compute; reflexivity].
  apply (read_packets [] (InvalidIndex 64) [MessageStub_new] toy_packets [1; 0; 0; 9; 5] toy_packets_ok). vm_compute. reflexivity.
Defined.

Lemma multiplex_bounded_witness :
  exists w' r' rest err, read [] rd0 (toy_stream ++ [1; 0; 0]) = Done (w', r', rest, err)
    /\ Z.of_nat (length (message_q r')) <= 2.
Proof.
  do 4 eexists. split.
  - vm_compute. reflexivity.
  - refine (multiplex_bounded [] rd0 (toy_stream ++ [1; 0; 0]) _ _ _ _ _ _).
    + vm_compute. congruence.
    + vm_compute. reflexivity.
Defined.

Lemma keepalive_overreads_witness :
  read [] rd0 (store (mkHeader KeepAliveTypeE 0 0) ++ [1; 0]) = Undef.
Proof.
  apply (keepalive_overreads [] (InvalidIndex 64) [MessageStub_new] [1; 0]). cbn. lia.
Defined.

Lemma peer_switch_trusted_witness :
  read [] rd0 (packet_bytes (mkHeader SwitchToOldMessageTypeE 0 1, [7])) = Undef.
Proof.
  apply (peer_switch_trusted [] SwitchToOldMessageTypeE 1 [7]).
  - left. reflexivity.
  - lia.
  - reflexivity.
Defined.

End Witness.

End MessageReader.
