(* ===== verification/MessageWriter.v ===== *)
(** * The message writer of a connection

    solid/frame/mpipc/src/mpipcmessagewriter.hpp and mpipcmessagewriter.cpp, with
    [MessageBundle] of mpipcutility.hpp: the messages a connection sends. Every message has a
    stub in a vector; three intrusive lists (InnerList.v) run through the stubs: the messages
    not completed yet in the order they came, the messages to write, and the free stubs (the
    last two share a link).

    The serializer, the compression function and the completion callback are reached through
    interfaces and are parameters; [World] is the state they share. Assertions are disabled,
    as in a release build. *)

From S2P Require Import Prelude InnerList Packet.
Import InnerList.
#[local] Open Scope res_scope.

Module MessageWriter.

(** [MessageId] and [RequestId] of mpipccontext.hpp. *)
Record MessageId := mkMessageId { index : Z; unique_ : Z }.
Definition MessageId_clear : MessageId := mkMessageId (InvalidIndex 64) 0.
Definition MessageId_isInvalid (i : MessageId) : bool := index i =? InvalidIndex 64.
Definition MessageId_isValid (i : MessageId) : bool := negb (MessageId_isInvalid i).

Record RequestId := mkRequestId { req_index : Z; req_unique : Z }.

(** The members of [ConnectionContext] the writer sets. *)
Record Context := mkContext { request_id : RequestId; message_state : Z }.

(** ** [MessageBundle] (mpipcutility.hpp) *)
Section Bundle.
Context {Msg Fn : Type}.

Record MessageBundle := mkBundle {
  message_type_id : Z;
  message_flags : Z;
  message_ptr : option Msg;
  complete_fnc : option Fn
}.

Definition MessageBundle_new : MessageBundle := mkBundle (InvalidIndex 64) 0 None None.

Definition MessageBundle_clear : MessageBundle := mkBundle (InvalidIndex 64) 0 None None.

(** What the move constructor and the move assignment leave behind. *)
Definition MessageBundle_moved (b : MessageBundle) : MessageBundle :=
  mkBundle (message_type_id b) (message_flags b) None None.

Definition set_flags (b : MessageBundle) (f : Z) : MessageBundle :=
  mkBundle (message_type_id b) f (message_ptr b) (complete_fnc b).

End Bundle.
Arguments MessageBundle : clear implicits.

Section Stubs.
Context {Ser Msg Fn : Type}.

Abbreviation bundle := (MessageBundle Msg Fn).

(** ** Stubs *)

(** The members of [MessageWriter::MessageStub] other than the links. *)
Record StubData := mkData {
  msgbundle : bundle;
  unique : Z;
  packet_count : Z;
  serializer_ptr : option Ser;
  pool_msg_id : MessageId
}.

Record MessageStub := mkStub { inner_link : links_node; data : StubData }.

Definition InnerLinkStatus : nat := 0.
Definition InnerLinkOrder : nat := 1.

#[export] Instance MessageStub_InnerNode : InnerNode MessageStub.
Proof.
  refine {| node_link L s := node_link L (inner_link s);
            set_node_link L x s := mkStub (set_node_link L x (inner_link s)) (data s) |}.
  - intros L x s. apply node_link_set.
  - intros L L' x s HL. by apply node_link_set_ne.
Defined.

Definition StubData_new : StubData := mkData MessageBundle_new 0 0 None MessageId_clear.

Definition MessageStub_new : MessageStub := mkStub (fun _ => InnerLink_clear) StubData_new.

(** [MessageStub::clear] *)
Definition StubData_clear (s : StubData) : StubData :=
  mkData MessageBundle_clear (wrap 32 (unique s + 1)) 0 None MessageId_clear.

Definition isCanceled (s : StubData) : bool := MessageFlags.is_canceled (message_flags (msgbundle s)).

Definition isStop (s : StubData) : bool :=
  bool_decide (message_ptr (msgbundle s) = None)
  && negb (MessageFlags.is_canceled (message_flags (msgbundle s))).

Definition set_bundle (b : bundle) (s : StubData) : StubData :=
  mkData b (unique s) (packet_count s) (serializer_ptr s) (pool_msg_id s).

Definition set_serializer (p : option Ser) (s : StubData) : StubData :=
  mkData (msgbundle s) (unique s) (packet_count s) p (pool_msg_id s).

Definition set_count (n : Z) (s : StubData) : StubData :=
  mkData (msgbundle s) (unique s) n (serializer_ptr s) (pool_msg_id s).

Definition set_pool_id (i : MessageId) (s : StubData) : StubData :=
  mkData (msgbundle s) (unique s) (packet_count s) (serializer_ptr s) i.

(** ** The writer *)

Record MessageWriter := mkWriter {
  message_vec : list MessageStub;
  current_message_type_id : Z;
  current_synchronous_message_idx : Z;
  order_inner_list : InnerList;
  write_inner_list : InnerList;
  cache_inner_list : InnerList
}.

Definition MessageWriter_new : MessageWriter :=
  mkWriter [] (InvalidIndex 32) (InvalidIndex 64) InnerList_new InnerList_new InnerList_new.

Definition with_vec (m : MessageWriter) (v : list MessageStub) : MessageWriter :=
  mkWriter v (current_message_type_id m) (current_synchronous_message_idx m)
    (order_inner_list m) (write_inner_list m) (cache_inner_list m).

Definition set_sync (m : MessageWriter) (i : Z) : MessageWriter :=
  mkWriter (message_vec m) (current_message_type_id m) i
    (order_inner_list m) (write_inner_list m) (cache_inner_list m).

Definition with_order (m : MessageWriter) (x : list MessageStub * InnerList) : MessageWriter :=
  mkWriter x.1 (current_message_type_id m) (current_synchronous_message_idx m)
    x.2 (write_inner_list m) (cache_inner_list m).

Definition with_write (m : MessageWriter) (x : list MessageStub * InnerList) : MessageWriter :=
  mkWriter x.1 (current_message_type_id m) (current_synchronous_message_idx m)
    (order_inner_list m) x.2 (cache_inner_list m).

Definition with_cache (m : MessageWriter) (x : list MessageStub * InnerList) : MessageWriter :=
  mkWriter x.1 (current_message_type_id m) (current_synchronous_message_idx m)
    (order_inner_list m) (write_inner_list m) x.2.

(** [message_vec[i]], read and changed. *)
Definition stub_at (m : MessageWriter) (i : Z) : res StubData :=
  of_option (data <$> at_idx (message_vec m) i).

Definition upd_stub (m : MessageWriter) (i : Z) (s : StubData) : res MessageWriter :=
  let! a := of_option (at_idx (message_vec m) i) in
  Done (with_vec m (<[Z.to_nat i := mkStub (inner_link a) s]> (message_vec m))).

(** The list operations the writer uses. *)
Definition order_pushBack (m : MessageWriter) (i : Z) : res MessageWriter :=
  let! x := of_option (pushBack InnerLinkOrder (message_vec m) (order_inner_list m) i) in
  Done (with_order m x).

Definition order_erase (m : MessageWriter) (i : Z) : res MessageWriter :=
  let! x := of_option (erase InnerLinkOrder (message_vec m) (order_inner_list m) i) in
  Done (with_order m x).

Definition write_pushBack (m : MessageWriter) (i : Z) : res MessageWriter :=
  let! x := of_option (pushBack InnerLinkStatus (message_vec m) (write_inner_list m) i) in
  Done (with_write m x).

Definition write_erase (m : MessageWriter) (i : Z) : res MessageWriter :=
  let! x := of_option (erase InnerLinkStatus (message_vec m) (write_inner_list m) i) in
  Done (with_write m x).

Definition write_popFront (m : MessageWriter) : res MessageWriter :=
  let! x := of_option (popFront InnerLinkStatus (message_vec m) (write_inner_list m)) in
  Done (with_write m x.1).

Definition cache_pushFront (m : MessageWriter) (i : Z) : res MessageWriter :=
  let! x := of_option (pushFront InnerLinkStatus (message_vec m) (cache_inner_list m) i) in
  Done (with_cache m x).

Definition cache_popFront (m : MessageWriter) : res (MessageWriter * Z) :=
  let! x := of_option (popFront InnerLinkStatus (message_vec m) (cache_inner_list m)) in
  Done (with_cache m x.1, x.2).

End Stubs.
Arguments StubData : clear implicits.
Arguments MessageWriter : clear implicits.

(** The members of [WriterConfiguration] (mpipcconfiguration.hpp) that are numbers. *)
Class WriterConfiguration := {
  max_message_count_multiplex : Z;
  max_message_count_response_wait : Z;
  max_message_continuous_packet_count : Z
}.

(** What the writer and the service read of a message. *)
Class MessageState (Msg : Type) := {
  msg_state : Msg -> Z;
  msg_requestId : Msg -> RequestId
}.

(** The interfaces the writer calls. [ser_run ctx w s n] writes at most [n] bytes. The
    completion callback may enqueue further messages, as the one of a connection does. *)
Class WriterEnv (World Ser Msg Fn Err : Type) := {
  createSerializer : Ser;
  reset_serializer : Ser -> Ser;
  ser_push : Ser -> option Msg -> Z -> Ser;
  ser_run : Context -> World -> Ser -> Z -> World * Ser * Z * list Z;
  ser_empty : Ser -> bool;
  ser_clear : Ser -> Ser;
  ser_error : Ser -> option Err;
  minimumFreePacketDataSize : Z;
  inplace_compress_fnc : list Z -> Z * list Z * option Err;
  on_complete : World -> MessageWriter Ser Msg Fn -> MessageBundle Msg Fn -> MessageId ->
    res (World * MessageWriter Ser Msg Fn * option Err);
  ser_run_bounds ctx w s n w' s' rv bs :
    ser_run ctx w s n = (w', s', rv, bs) -> 0 < rv -> Z.of_nat (length bs) = rv /\ rv <= n
}.

Section Writer.
Context {World Ser Msg Fn Err : Type} {WC : WriterConfiguration} {MS : MessageState Msg}
  {PV : ProtocolValues} {WE : WriterEnv World Ser Msg Fn Err}.

Abbreviation bundle := (MessageBundle Msg Fn).
Abbreviation MessageWriter := (MessageWriter Ser Msg Fn).
Abbreviation StubData := (StubData Ser Msg Fn).

(** ** Operations *)

Definition full (m : MessageWriter) : bool :=
  max_message_count_multiplex <=? size (write_inner_list m).

Definition empty (m : MessageWriter) : bool := InnerList.empty (order_inner_list m).

(** [enqueue]: [None] says that the message is refused; otherwise the message id and the
    bundle left in the argument. *)
Definition enqueue (m : MessageWriter) (_rmsgbundle : bundle) (_rpool_msg_id : MessageId)
  : res (MessageWriter * option (MessageId * bundle)) :=
  if max_message_count_multiplex <=? size (write_inner_list m) then Done (m, None)
  else if MessageFlags.is_waiting_response (message_flags _rmsgbundle)
          && (wrap 64 (max_message_count_multiplex + max_message_count_response_wait)
              <=? size (order_inner_list m)) then Done (m, None)
  else
    let b := set_flags _rmsgbundle (MessageFlags.unset (message_flags _rmsgbundle) MessageFlags.StartedSend) in
    let b := set_flags b (MessageFlags.unset (message_flags b) MessageFlags.DoneSend) in
    let! mi := (if negb (size (cache_inner_list m) =? 0) then cache_popFront m
                else Done (with_vec m (message_vec m ++ [MessageStub_new]),
                           Z.of_nat (length (message_vec m)))) in
    let '(m, idx) := mi in
    let! s := stub_at m idx in
    let! m := upd_stub m idx (set_pool_id _rpool_msg_id (set_bundle b s)) in
    let! m := order_pushBack m idx in
    let! m := write_pushBack m idx in
    Done (m, Some (mkMessageId idx (unique s), MessageBundle_moved b)).

Definition doUnprepareMessageStub (m : MessageWriter) (_msgidx : Z) : res MessageWriter :=
  let! s := stub_at m _msgidx in
  let! m := upd_stub m _msgidx (StubData_clear s) in
  cache_pushFront m _msgidx.

(** [doCancel]: the bundle and the pool id handed out, or [None] when it returns false. *)
Definition doCancel (m : MessageWriter) (_msgidx : Z)
  : res (MessageWriter * option (bundle * MessageId)) :=
  let! s := stub_at m _msgidx in
  if MessageFlags.is_canceled (message_flags (msgbundle s)) then Done (m, None)
  else
    let b := set_flags (msgbundle s)
               (MessageFlags.set (message_flags (msgbundle s)) MessageFlags.Canceled) in
    let s := set_bundle (MessageBundle_moved b) s in
    let! m := upd_stub m _msgidx s in
    let! m := order_erase m _msgidx in
    let! m :=
      match serializer_ptr s with
      | Some p => upd_stub m _msgidx (set_serializer (Some (ser_clear p)) s)
      | None =>
          if MessageFlags.is_waiting_response (message_flags (msgbundle s)) then
            doUnprepareMessageStub m _msgidx
          else
            let! m := write_erase m _msgidx in
            doUnprepareMessageStub m _msgidx
      end in
    Done (m, Some (b, pool_msg_id s)).

Definition cancel (m : MessageWriter) (_rmsguid : MessageId)
  : res (MessageWriter * option (bundle * MessageId)) :=
  if index _rmsguid <? Z.of_nat (length (message_vec m)) then
    let! s := stub_at m (index _rmsguid) in
    if unique_ _rmsguid =? unique s then doCancel m (index _rmsguid) else Done (m, None)
  else Done (m, None).

Definition fetchRequest (m : MessageWriter) (_rmsguid : MessageId) : res (option Msg) :=
  if index _rmsguid <? Z.of_nat (length (message_vec m)) then
    let! s := stub_at m (index _rmsguid) in
    if unique_ _rmsguid =? unique s then Done (message_ptr (msgbundle s)) else Done None
  else Done None.

Definition cancelOldest (m : MessageWriter) : res (MessageWriter * option (bundle * MessageId)) :=
  if negb (size (order_inner_list m) =? 0) then doCancel m (frontIndex (order_inner_list m))
  else Done (m, None).

(** [doPrepareMessageForSending]: the writer, the temporary serializer and the switch type. *)
Definition doPrepareMessageForSending (m : MessageWriter) (_msgidx : Z) (_rtmp_serializer : option Ser)
  : res (MessageWriter * option Ser * Z) :=
  let! s := stub_at m _msgidx in
  match serializer_ptr s with
  | None =>
      let '(p, tmp) := match _rtmp_serializer with
                       | Some t => (t, None)
                       | None => (createSerializer, None)
                       end in
      let p := reset_serializer p in
      let b := set_flags (msgbundle s)
                 (MessageFlags.set (message_flags (msgbundle s)) MessageFlags.StartedSend) in
      let p := ser_push p (message_ptr b) (message_type_id b) in
      let! m := upd_stub m _msgidx (set_serializer (Some p) (set_bundle b s)) in
      Done (m, tmp, PacketHeader.SwitchToNewMessageTypeE)
  | Some _ =>
      Done (m, _rtmp_serializer,
        if isCanceled s then
          if packet_count s =? 0 then PacketHeader.SwitchToOldCanceledMessageTypeE
          else PacketHeader.ContinuedCanceledMessageTypeE
        else if packet_count s =? 0 then PacketHeader.SwitchToOldMessageTypeE
        else PacketHeader.ContinuedMessageTypeE)
  end.

(** A call of the completion function. *)
Abbreviation completion := (bundle * MessageId)%type.

(** [doTryCompleteMessageAfterSerialization]: also returns the calls of the completion
    function. *)
Definition doTryCompleteMessageAfterSerialization (w : World) (m : MessageWriter) (_msgidx : Z)
    (_rtmp_serializer : option Ser) (_rerror : option Err)
  : res (World * MessageWriter * option Ser * option Err * list completion) :=
  let! s := stub_at m _msgidx in
  let! p := of_option (serializer_ptr s) in
  if ser_empty p then
    let tmp := Some p in
    let! m := upd_stub m _msgidx (set_serializer None s) in
    let! m := write_popFront m in
    let m := if current_synchronous_message_idx m =? _msgidx then set_sync m (InvalidIndex 64) else m in
    let fl := MessageFlags.unset (message_flags (msgbundle s)) MessageFlags.StartedSend in
    let fl := MessageFlags.set fl MessageFlags.DoneSend in
    let b := set_flags (msgbundle s) fl in
    if negb (MessageFlags.is_waiting_response fl) then
      let! m := upd_stub m _msgidx (set_bundle (MessageBundle_moved b) (set_serializer None s)) in
      let! m := order_erase m _msgidx in
      let! m := doUnprepareMessageStub m _msgidx in
      let! c := on_complete w m b (pool_msg_id s) in
      let '(w, m, e) := c in
      Done (w, m, tmp, e, [(b, pool_msg_id s)])
    else
      let b := set_flags b (MessageFlags.set fl MessageFlags.WaitResponse) in
      let! m := upd_stub m _msgidx (set_bundle b (set_serializer None s)) in
      Done (w, m, tmp, _rerror, [])
  else
    let n := wrap 64 (packet_count s + 1) in
    if max_message_continuous_packet_count <=? n then
      let! m := upd_stub m _msgidx (set_count 0 s) in
      let! m := write_popFront m in
      let! m := write_pushBack m _msgidx in
      Done (w, m, _rtmp_serializer, _rerror, [])
    else
      let! m := upd_stub m _msgidx (set_count n s) in
      Done (w, m, _rtmp_serializer, _rerror, []).

(** The locals of [doFillPacket] and what it reaches by reference: [f_out] holds the bytes
    from [_pbufbeg] to [pbufpos]. *)
Record Filling := mkFilling {
  f_world : World;
  f_writer : MessageWriter;
  f_ctx : Context;
  f_tmp : option Ser;
  f_out : list Z;
  f_freesz : Z;
  f_count : Z;
  f_type : Z;
  f_err : option Err;
  f_log : list completion
}.

Definition f_set_writer (f : Filling) (m : MessageWriter) : Filling :=
  mkFilling (f_world f) m (f_ctx f) (f_tmp f) (f_out f) (f_freesz f) (f_count f) (f_type f)
    (f_err f) (f_log f).

(** How a turn of the loop of [doFillPacket] ends; [FillNull] is a [break] with [pbufpos] null. *)
Inductive fill_step : Type :=
  | FillContinue (f : Filling)
  | FillBreak (f : Filling)
  | FillNull (f : Filling).

(** The turn up to the switch type: the message is at the front of the write list. *)
Definition fill_switch (cap : Z) (f : Filling) (msgidx : Z) : res Filling :=
  let! x := doPrepareMessageForSending (f_writer f) msgidx (f_tmp f) in
  let '(m, tmp, msgswitch) := x in
  let! o := (if f_count f =? 0 then Done (f_out f, msgswitch)
             else
               let out := f_out f ++ storeValue8 (wrap 8 msgswitch) in
               if cap <? Z.of_nat (length out) then Undef else Done (out, f_type f)) in
  let '(out, ty) := o in
  Done (mkFilling (f_world f) m (f_ctx f) tmp out (f_freesz f) (wrap 64 (f_count f + 1)) ty
          (f_err f) (f_log f)).

Definition isOnPeer (msg : Msg) : bool := msg_state msg =? 1.

(** The context handed to the serializer. *)
Definition fill_context (msgidx : Z) (s : StubData) (msg : Msg) : Context :=
  mkContext
    (if negb (isOnPeer msg) then mkRequestId (wrap 32 msgidx) (unique s) else msg_requestId msg)
    (wrap 8 (msg_state msg + 1)).

(** The rest of the turn: drop a canceled message, or serialize a part of the message. *)
Definition fill_message (cap : Z) (f : Filling) (msgidx : Z) : res fill_step :=
  let! s := stub_at (f_writer f) msgidx in
  if isCanceled s then
    let! m := write_erase (f_writer f) msgidx in
    let! m := doUnprepareMessageStub m msgidx in
    let m := if current_synchronous_message_idx m =? msgidx then set_sync m (InvalidIndex 64) else m in
    Done (FillContinue (f_set_writer f m))
  else
    let! msg := of_option (message_ptr (msgbundle s)) in
    let ctx := fill_context msgidx s msg in
    let! p := of_option (serializer_ptr s) in
    let '(w, p, rv, bs) := ser_run ctx (f_world f) p (cap - Z.of_nat (length (f_out f))) in
    let! m := upd_stub (f_writer f) msgidx (set_serializer (Some p) s) in
    if 0 <? rv then
      let! c := doTryCompleteMessageAfterSerialization w m msgidx (f_tmp f) (f_err f) in
      let '(w, m, tmp, err, log) := c in
      let f := mkFilling w m ctx tmp (f_out f ++ bs) (wrap 32 (f_freesz f - rv)) (f_count f)
                 (f_type f) err (f_log f ++ log) in
      match err with Some _ => Done (FillBreak f) | None => Done (FillContinue f) end
    else
      Done (FillNull (mkFilling w m ctx (f_tmp f) (f_out f) (f_freesz f) (f_count f) (f_type f)
                        (ser_error p) (f_log f))).

Definition fill_turn (cap : Z) (f : Filling) : res fill_step :=
  let m := f_writer f in
  let msgidx := frontIndex (write_inner_list m) in
  let! s := stub_at m msgidx in
  let sync := MessageFlags.is_synchronous (message_flags (msgbundle s)) in
  let mine := (current_synchronous_message_idx m =? InvalidIndex 64)
              || (current_synchronous_message_idx m =? msgidx) in
  if sync && negb mine then
    let! m := write_popFront m in
    let! m := write_pushBack m msgidx in
    Done (FillContinue (f_set_writer f m))
  else
    let f := if sync then f_set_writer f (set_sync m msgidx) else f in
    let! f := fill_switch cap f msgidx in
    fill_message cap f msgidx.

(** The loop of [doFillPacket]; the result says whether the returned pointer is null. *)
Fixpoint fill_loop (fuel : nat) (cap : Z) (f : Filling) : res (Filling * bool) :=
  match fuel with
  | O => NoFuel
  | S fuel =>
      if negb (size (write_inner_list (f_writer f)) =? 0)
         && (minimumFreePacketDataSize <=? f_freesz f) then
        let! t := fill_turn cap f in
        match t with
        | FillContinue f => fill_loop fuel cap f
        | FillBreak f => Done (f, false)
        | FillNull f => Done (f, true)
        end
      else Done (f, false)
  end.

(** Every turn writes a byte, drops a message from the write list, or brings the current
    synchronous message nearer to its front; the messages the callback enqueues keep the write
    list within [n]. *)
Definition fill_fuel (cap : Z) (m : MessageWriter) : nat :=
  let n0 := Z.to_nat (size (write_inner_list m)) in
  let n := Nat.max n0 (Z.to_nat max_message_count_multiplex) in
  S ((Z.to_nat cap * S n + n0) * S n + n).

(** [doFillPacket] on a buffer of [cap] bytes. *)
Definition doFillPacket (cap : Z) (w : World) (m : MessageWriter) (ctx : Context)
    (packet_type : Z) (err : option Err) : res (Filling * bool) :=
  fill_loop (fill_fuel cap m) cap
    (mkFilling w m ctx None [] (wrap 32 cap) 0 packet_type err []).

(** The locals of [write]: [w_out] holds the bytes from [_pbuf] to [pbufpos]. *)
Record Writing := mkWriting {
  w_world : World;
  w_writer : MessageWriter;
  w_ctx : Context;
  w_out : list Z;
  w_freesz : Z;
  w_more : bool;
  w_err : option Err;
  w_log : list completion
}.

(** A packet filled with data: compression, the header, and the bytes in the buffer. *)
Definition write_packet (f : Filling) (st : Writing) (_bufsz : Z) : Writing :=
  let packet_header := PacketHeader.reset (PacketHeader.mkHeader 0 0 0)
                         PacketHeader.SwitchToNewMessageTypeE 0 0 in
  let '(compressed_size, buf, compress_error) := inplace_compress_fnc (f_out f) in
  let log := w_log st ++ f_log f in
  let emit h data :=
    let h := PacketHeader.set_type h (wrap 8 (f_type f)) in
    let h := PacketHeader.set_size h (wrap 32 (Z.of_nat (length data))) in
    let out := w_out st ++ PacketHeader.store h ++ data in
    mkWriting (f_world f) (f_writer f) (f_ctx f) out (wrap 32 (_bufsz - Z.of_nat (length out)))
      (w_more st) (f_err f) log in
  if negb (compressed_size =? 0) then
    emit (PacketHeader.set_flags packet_header
            (wrap 8 (Z.lor (PacketHeader.flags_ packet_header) PacketHeader.CompressedFlagE)))
         (take (Z.to_nat compressed_size) buf)
  else match compress_error with
       | None => emit packet_header (take (length (f_out f)) buf)
       | Some e => mkWriting (f_world f) (f_writer f) (f_ctx f) (w_out st) (w_freesz st) false (Some e) log
       end.

Fixpoint write_loop (fuel : nat) (_bufsz : Z) (st : Writing) : res Writing :=
  match fuel with
  | O => NoFuel
  | S fuel =>
      if (PacketHeader.SizeOfE + minimumFreePacketDataSize <=? w_freesz st) && w_more st then
        let cap := _bufsz - Z.of_nat (length (w_out st)) - PacketHeader.SizeOfE in
        let! x := doFillPacket cap (w_world st) (w_writer st) (w_ctx st)
                    PacketHeader.SwitchToNewMessageTypeE (w_err st) in
        let '(f, null) := x in
        if (null : bool) then Undef
        else
          match f_out f with
          | [] => write_loop fuel _bufsz
                    (mkWriting (f_world f) (f_writer f) (f_ctx f) (w_out st) (w_freesz st) false
                       (f_err f) (w_log st ++ f_log f))
          | _ :: _ => write_loop fuel _bufsz (write_packet f st _bufsz)
          end
      else Done st
  end.

(** [write]: the bytes put in the buffer are [w_out]. *)
Definition write (w : World) (m : MessageWriter) (ctx : Context) (_bufsz : Z) (_keep_alive : bool)
    (_rerror : option Err) : res Writing :=
  let! st := write_loop (Z.to_nat _bufsz + 2) _bufsz
               (mkWriting w m ctx [] (wrap 32 _bufsz) true _rerror []) in
  match w_err st with
  | None =>
      if (length (w_out st) =? 0)%nat && _keep_alive then
        if _bufsz <? PacketHeader.SizeOfE then Undef
        else
          let h := PacketHeader.reset (PacketHeader.mkHeader 0 0 0) PacketHeader.KeepAliveTypeE 0 0 in
          Done (mkWriting (w_world st) (w_writer st) (w_ctx st) (PacketHeader.store h) (w_freesz st)
                  (w_more st) (w_err st) (w_log st))
      else Done st
  | Some _ => Done st
  end.

(** [forEveryMessagesNewerToOlder]: [visit] may take the message out of the bundle; the
    result says whether the loop ended, or threw on a message that is not there. *)
Fixpoint forEvery_loop (visit : World -> bundle -> MessageId -> World * bundle) (fuel : nat)
    (w : World) (m : MessageWriter) (msgidx : Z) : res (World * MessageWriter * bool) :=
  match fuel with
  | O => NoFuel
  | S fuel =>
      if msgidx =? InvalidIndex 64 then Done (w, m, true)
      else
        let! s := stub_at m msgidx in
        match message_ptr (msgbundle s) with
        | None => Done (w, m, false)
        | Some _ =>
            let message_in_write_queue :=
              negb (MessageFlags.is_waiting_response (message_flags (msgbundle s))) in
            let '(w, b) := visit w (msgbundle s) (pool_msg_id s) in
            let! m := upd_stub m msgidx (set_bundle b s) in
            match message_ptr b with
            | None =>
                let! m := (if message_in_write_queue then write_erase m msgidx else Done m) in
                let oldidx := msgidx in
                let! msgidx := of_option (previousIndex InnerLinkOrder (message_vec m) oldidx) in
                let! m := order_erase m oldidx in
                let! m := doUnprepareMessageStub m oldidx in
                forEvery_loop visit fuel w m msgidx
            | Some _ =>
                let! msgidx := of_option (previousIndex InnerLinkOrder (message_vec m) msgidx) in
                forEvery_loop visit fuel w m msgidx
            end
        end
  end.

Definition forEveryMessagesNewerToOlder (visit : World -> bundle -> MessageId -> World * bundle)
    (w : World) (m : MessageWriter) : res (World * MessageWriter * bool) :=
  forEvery_loop visit (S (length (message_vec m))) w m (frontIndex (order_inner_list m)).

End Writer.

End MessageWriter.
