(* ===== verification/MessageWriterProofs.v ===== *)
(** * Correctness of the message writer

    The writer of MessageWriter.v keeps three intrusive lists over one vector. [reps] relates
    them to three lists of indexes, [wf] says in which of four phases every stub is. The
    operations are specified against these lists. *)

From S2P Require Import Prelude InnerList TriList Packet MessageWriter.
Import InnerList TriList MessageWriter.
#[local] Open Scope res_scope.
#[local] Set Warnings "-clear-no-such-hyp".

Module WriterProofs.

Section Proofs.
Context {World Ser Msg Fn Err : Type} {WC : WriterConfiguration} {MS : MessageState Msg}
  {PV : ProtocolValues} {WE : WriterEnv World Ser Msg Fn Err}.

Abbreviation bundle := (MessageBundle Msg Fn).
Abbreviation Writer := (MessageWriter Ser Msg Fn).
Abbreviation stubdata := (StubData Ser Msg Fn).
Abbreviation msg_content := (Z * option Msg * option Fn * MessageId)%type.
Abbreviation filling := (@Filling World Ser Msg Fn Err).
Abbreviation step := (@fill_step World Ser Msg Fn Err).
Implicit Types (f : filling) (m : Writer) (s : stubdata) (ord wr ca : list Z) (i j : Z).

(** ** The lists *)

Definition vec_data m : list stubdata := data <$> message_vec m.

Record reps m ord wr ca : Prop := {
  r_ord : repr InnerLinkOrder (message_vec m) (order_inner_list m) ord;
  r_wr : repr InnerLinkStatus (message_vec m) (write_inner_list m) wr;
  r_ca : repr InnerLinkStatus (message_vec m) (cache_inner_list m) ca;
  r_small : small (message_vec m);
  r_disj : forall i, i ∈ wr -> i ∉ ca;
  r_unlinked : forall i, in_vec (message_vec m) i -> i ∉ wr -> i ∉ ca ->
    link InnerLinkStatus (message_vec m) i = Some InnerLink_clear
}.

(** [m'] is [m] up to links and lists. *)
Definition same_stubs m m' : Prop :=
  vec_data m' = vec_data m /\ current_synchronous_message_idx m' = current_synchronous_message_idx m.

Lemma reps_tri m ord wr ca :
  reps m ord wr ca
  <-> tri InnerLinkStatus InnerLinkOrder (message_vec m) (write_inner_list m) (cache_inner_list m)
        (order_inner_list m) wr ca ord.
Proof using Type. clear WE PV MS WC. split; intros []; by constructor. Qed.

Lemma w_links_differ : InnerLinkStatus <> InnerLinkOrder.
Proof using Type. clear. done. Qed.

Lemma data_same (v v' : list (@MessageStub Ser Msg Fn)) : same_nodes v v' -> data <$> v' = data <$> v.
Proof using Type. clear WE PV MS WC. intros Hs. by apply Hs. Qed.

Lemma w_length_vec_data m : length (vec_data m) = length (message_vec m).
Proof using Type. clear WE PV MS WC. apply length_fmap. Qed.

Lemma w_stub_at_eq m i : stub_at m i = of_option (at_idx (vec_data m) i).
Proof using Type.
  clear WE PV MS WC. unfold stub_at, at_idx, vec_data. case_decide; [|done]. by rewrite list_lookup_fmap.
Qed.

Lemma w_in_vec_data m i : in_vec (message_vec m) i -> exists s, at_idx (vec_data m) i = Some s.
Proof using Type.
  clear WE PV MS WC. intros Hi. apply in_vec_at. unfold in_vec in *. by rewrite w_length_vec_data.
Qed.

Lemma w_data_in_vec m i s : at_idx (vec_data m) i = Some s -> in_vec (message_vec m) i.
Proof using Type.
  clear WE PV MS WC. intros [H0 H]%at_idx_Some. apply lookup_lt_Some in H. rewrite w_length_vec_data in H.
  unfold in_vec. lia.
Qed.

(** *** List operations *)

(** The operation of the writer from the operation [spec] on the three lists. *)
Ltac list_op op spec :=
  intros Hr%reps_tri; intros; edestruct spec as (? & ? & E & Ht & Hn);
  [exact w_links_differ|exact Hr|done..|]; try destruct Hn as [Hn _];
  unfold op; rewrite E; cbn [of_option res_bind]; eexists; split; [done|];
  split; [by apply reps_tri|split; [by apply data_same|done]].

Lemma w_order_pushBack_spec m ord wr ca i :
  reps m ord wr ca -> in_vec (message_vec m) i -> i ∉ ord ->
  exists m', order_pushBack m i = Done m' /\ reps m' (ord ++ [i]) wr ca /\ same_stubs m m'.
Proof using Type. clear WE PV MS WC. list_op @order_pushBack @other_pushBack. Qed.

Lemma w_order_erase_spec m xs i ys wr ca :
  reps m (xs ++ i :: ys) wr ca ->
  exists m', order_erase m i = Done m' /\ reps m' (xs ++ ys) wr ca /\ same_stubs m m'.
Proof using Type. clear WE PV MS WC. list_op @order_erase @other_erase. Qed.

Lemma write_pushBack_spec m ord wr ca i :
  reps m ord wr ca -> in_vec (message_vec m) i -> i ∉ wr -> i ∉ ca ->
  exists m', write_pushBack m i = Done m' /\ reps m' ord (wr ++ [i]) ca /\ same_stubs m m'.
Proof using Type. clear WE PV MS WC. list_op @write_pushBack @own_pushBack. Qed.

Lemma write_erase_spec m ord xs i ys ca :
  reps m ord (xs ++ i :: ys) ca ->
  exists m', write_erase m i = Done m' /\ reps m' ord (xs ++ ys) ca /\ same_stubs m m'.
Proof using Type. clear WE PV MS WC. list_op @write_erase @own_erase. Qed.

Lemma write_popFront_spec m ord i wr ca :
  reps m ord (i :: wr) ca ->
  exists m', write_popFront m = Done m' /\ reps m' ord wr ca /\ same_stubs m m'.
Proof using Type. clear WE PV MS WC. list_op @write_popFront @own_popFront. Qed.

Lemma cache_pushFront_spec m ord wr ca i :
  reps m ord wr ca -> in_vec (message_vec m) i -> i ∉ wr -> i ∉ ca ->
  exists m', cache_pushFront m i = Done m' /\ reps m' ord wr (i :: ca) /\ same_stubs m m'.
Proof using Type. clear WE PV MS WC. list_op @cache_pushFront @free_pushFront. Qed.

Lemma w_cache_popFront_spec m ord wr i ca :
  reps m ord wr (i :: ca) ->
  exists m', cache_popFront m = Done (m', i) /\ reps m' ord wr ca /\ same_stubs m m'.
Proof using Type. clear WE PV MS WC. list_op @cache_popFront @free_popFront. Qed.

(** A change of a stub's members leaves the lists alone. *)
Lemma w_upd_stub_spec m ord wr ca i s :
  reps m ord wr ca -> in_vec (message_vec m) i ->
  exists m', upd_stub m i s = Done m' /\ reps m' ord wr ca
    /\ vec_data m' = <[Z.to_nat i := s]> (vec_data m)
    /\ current_synchronous_message_idx m' = current_synchronous_message_idx m.
Proof using Type.
  clear WE PV MS WC. intros Hr%reps_tri Hi. destruct (in_vec_at _ _ Hi) as [a Ha].
  unfold upd_stub. rewrite Ha. cbn [of_option res_bind]. eexists. split; [done|].
  split; [|split; [by unfold vec_data; cbn; rewrite list_fmap_insert|done]].
  apply reps_tri. by apply (tri_update InnerLinkStatus InnerLinkOrder _ _ _ _ _ _ _ i a).
Qed.

(** ** The phases of a stub *)

(** A stub is free, holds a message to write (whose serializer is there once it has been
    started), holds a message that was sent and waits for its response, or holds what is left
    of a message canceled while it was being sent. [O], [W] and [C] say whether it is in the
    order, the write and the cache list. *)
Inductive phase_ok (O W C : Prop) s : Prop :=
  | phase_free :
      ~ O -> ~ W -> C -> serializer_ptr s = None -> isCanceled s = false ->
      message_ptr (msgbundle s) = None -> phase_ok O W C s
  | phase_write :
      O -> W -> ~ C -> isCanceled s = false -> is_Some (message_ptr (msgbundle s)) ->
      phase_ok O W C s
  | phase_wait :
      O -> ~ W -> ~ C -> isCanceled s = false -> is_Some (message_ptr (msgbundle s)) ->
      MessageFlags.is_waiting_response (message_flags (msgbundle s)) = true ->
      serializer_ptr s = None -> phase_ok O W C s
  | phase_canceled :
      ~ O -> W -> ~ C -> isCanceled s = true -> is_Some (serializer_ptr s) ->
      message_ptr (msgbundle s) = None -> phase_ok O W C s.

(** The current synchronous message, if there is one, is being written. *)
Definition sync_ok m wr : Prop :=
  current_synchronous_message_idx m = InvalidIndex 64
  \/ (current_synchronous_message_idx m ∈ wr
      /\ exists s, at_idx (vec_data m) (current_synchronous_message_idx m) = Some s
           /\ is_Some (serializer_ptr s)).

(** The invariant of the writer. *)
Record wf m ord wr ca : Prop := {
  wf_reps : reps m ord wr ca;
  wf_phase i s : at_idx (vec_data m) i = Some s -> phase_ok (i ∈ ord) (i ∈ wr) (i ∈ ca) s;
  wf_sync : sync_ok m wr
}.

Lemma phase_ok_iff (O O' W W' C C' : Prop) s :
  (O <-> O') -> (W <-> W') -> (C <-> C') -> phase_ok O W C s -> phase_ok O' W' C' s.
Proof using Type.
  clear WE PV MS WC. intros HO HW HC H. destruct H.
  - apply phase_free; tauto.
  - apply phase_write; tauto.
  - apply phase_wait; tauto.
  - apply phase_canceled; tauto.
Qed.

(** Only the stub [i] has changed, in its members and in the lists it is in. *)
Lemma wf_change m ord wr ca m' ord' wr' ca' i s' :
  wf m ord wr ca -> in_vec (message_vec m) i -> reps m' ord' wr' ca' ->
  vec_data m' = <[Z.to_nat i := s']> (vec_data m) ->
  (forall j, j <> i -> (j ∈ ord' <-> j ∈ ord) /\ (j ∈ wr' <-> j ∈ wr) /\ (j ∈ ca' <-> j ∈ ca)) ->
  phase_ok (i ∈ ord') (i ∈ wr') (i ∈ ca') s' ->
  sync_ok m' wr' -> wf m' ord' wr' ca'.
Proof using Type.
  clear WE PV MS WC. intros Hwf Hi Hr Hd Hj Hp Hs. constructor; [done| |done].
  intros j s. rewrite Hd, at_idx_insert by (rewrite w_length_vec_data; apply Hi).
  destruct (decide (i = j)) as [<-|Hne]; [by intros [= <-]|].
  intros Hs'%(wf_phase _ _ _ _ Hwf). destruct (Hj j) as (H1 & H2 & H3); [congruence|].
  eapply phase_ok_iff; [..|exact Hs']; tauto.
Qed.

Lemma wf_wr_data m ord wr ca i :
  wf m ord wr ca -> i ∈ wr -> in_vec (message_vec m) i
  /\ exists s, at_idx (vec_data m) i = Some s
      /\ ((i ∈ ord /\ isCanceled s = false /\ is_Some (message_ptr (msgbundle s)))
          \/ ((i ∉ ord) /\ isCanceled s = true /\ is_Some (serializer_ptr s))) /\ (i ∉ ca).
Proof using Type.
  clear WE PV MS WC. intros Hwf Hi.
  assert (in_vec (message_vec m) i) as Hv by (eapply repr_in_vec, Hi; apply Hwf).
  split; [done|]. destruct (w_in_vec_data m i Hv) as [s Hs]. exists s. split; [done|].
  destruct (wf_phase _ _ _ _ Hwf i s Hs); tauto.
Qed.

Lemma doUnprepare_spec m ord wr ca i s :
  reps m ord wr ca -> at_idx (vec_data m) i = Some s -> i ∉ wr -> i ∉ ca ->
  exists m', doUnprepareMessageStub m i = Done m' /\ reps m' ord wr (i :: ca)
    /\ vec_data m' = <[Z.to_nat i := StubData_clear s]> (vec_data m)
    /\ current_synchronous_message_idx m' = current_synchronous_message_idx m.
Proof using Type.
  clear WE PV MS WC. intros Hr Hs Hw Hc. pose proof (w_data_in_vec _ _ _ Hs) as Hv.
  unfold doUnprepareMessageStub. rewrite w_stub_at_eq, Hs. cbn [of_option res_bind].
  destruct (w_upd_stub_spec m ord wr ca i (StubData_clear s) Hr Hv) as (m1 & -> & Hr1 & Hd1 & Hs1).
  cbn [res_bind].
  destruct (cache_pushFront_spec m1 ord wr ca i Hr1) as (m2 & -> & Hr2 & Hd2 & Hs2);
    [|done|done|].
  { unfold in_vec. rewrite <- w_length_vec_data, Hd1, length_insert, w_length_vec_data. apply Hv. }
  eexists. split; [done|]. split; [done|]. split; congruence.
Qed.

(** A stub cleared by [doUnprepareMessageStub] is free. *)
Lemma phase_cleared (O W C : Prop) s : ~ O -> ~ W -> C -> phase_ok O W C (StubData_clear s).
Proof using Type. clear WE PV MS WC. intros. by apply phase_free. Qed.

(** A new stub at the end of the vector. *)
Lemma reps_grow m ord wr ca :
  reps m ord wr ca -> Z.of_nat (length (message_vec m)) + 1 < nil_idx ->
  reps (with_vec m (message_vec m ++ [MessageStub_new])) ord wr ca.
Proof using Type. clear WE PV MS WC. intros Hr%reps_tri Hg. apply reps_tri. by apply tri_grow. Qed.

(** ** Enqueueing *)

Definition refused (wr ord : list Z) (b : bundle) : bool :=
  (max_message_count_multiplex <=? Z.of_nat (length wr))
  || MessageFlags.is_waiting_response (message_flags b)
     && (wrap 64 (max_message_count_multiplex + max_message_count_response_wait)
         <=? Z.of_nat (length ord)).

(** The bundle as [enqueue] keeps it. *)
Definition enqueued (b : bundle) : bundle :=
  set_flags b (MessageFlags.unset
    (MessageFlags.unset (message_flags b) MessageFlags.StartedSend) MessageFlags.DoneSend).

(** The stub [enqueue] takes: the first free one, or a new one. *)
Lemma take_stub m ord wr ca :
  wf m ord wr ca -> Z.of_nat (length (message_vec m)) + 1 < nil_idx ->
  exists m1 idx s ca',
    (if negb (size (cache_inner_list m) =? 0) then cache_popFront m
     else Done (with_vec m (message_vec m ++ [MessageStub_new]), Z.of_nat (length (message_vec m))))
    = Done (m1, idx)
    /\ reps m1 ord wr ca' /\ at_idx (vec_data m1) idx = Some s
    /\ (idx ∉ ord) /\ (idx ∉ wr) /\ (idx ∉ ca') /\ serializer_ptr s = None
    /\ (forall j, j <> idx -> at_idx (vec_data m1) j = at_idx (vec_data m) j /\ (j ∈ ca' <-> j ∈ ca))
    /\ (forall s, at_idx (vec_data m) idx = Some s -> message_ptr (msgbundle s) = None)
    /\ current_synchronous_message_idx m1 = current_synchronous_message_idx m.
Proof using Type.
  clear WE PV MS WC. intros Hwf Hg. pose proof (wf_reps _ _ _ _ Hwf) as Hr.
  unfold size. rewrite (repr_size _ _ _ _ (r_ca _ _ _ _ Hr)). destruct ca as [|i ca].
  - cbn [length Z.of_nat Z.eqb negb]. set (m1 := with_vec m _). set (n := Z.of_nat (length (message_vec m))).
    assert (Hd : vec_data m1 = vec_data m ++ [StubData_new]) by (unfold vec_data; cbn; by rewrite fmap_app).
    assert (Hout : forall xs : list Z, (forall j, j ∈ xs -> in_vec (message_vec m) j) -> n ∉ xs).
    { intros xs Hxs Hn. apply Hxs in Hn. unfold in_vec in Hn. lia. }
    exists m1, n, StubData_new, []. split; [done|]. split; [by apply reps_grow|].
    assert (Hn : at_idx (vec_data m) n = None).
    { unfold at_idx. rewrite decide_True by lia. apply lookup_ge_None_2. rewrite w_length_vec_data. lia. }
    split; [|split; [|split; [|split; [apply not_elem_of_nil|split; [done|split; [|split; [|done]]]]]]].
    + rewrite Hd. unfold at_idx. rewrite decide_True by lia. rewrite lookup_app_r by (rewrite w_length_vec_data; lia).
      rewrite w_length_vec_data. by replace (_ - _)%nat with 0%nat by lia.
    + apply Hout. intros j. apply repr_in_vec with (1 := r_ord _ _ _ _ Hr).
    + apply Hout. intros j. apply repr_in_vec with (1 := r_wr _ _ _ _ Hr).
    + intros j Hj. split; [|done]. rewrite Hd. unfold at_idx. case_decide; [|done].
      destruct (decide (j < n)).
      * by rewrite lookup_app_l by (rewrite w_length_vec_data; lia).
      * rewrite !lookup_ge_None_2; [done|rewrite w_length_vec_data; lia|].
        rewrite length_app, w_length_vec_data. cbn. lia.
    + intros s. by rewrite Hn.
  - cbn [length]. rewrite (proj2 (Z.eqb_neq _ 0)) by lia. cbn [negb].
    destruct (w_cache_popFront_spec m ord wr i ca Hr) as (m1 & -> & Hr1 & Hd1 & Hs1).
    assert (in_vec (message_vec m) i) as Hi by (apply (repr_in_vec _ _ _ _ _ (r_ca _ _ _ _ Hr)); left).
    destruct (w_in_vec_data m i Hi) as [s Hs].
    pose proof (repr_nodup _ _ _ _ (r_ca _ _ _ _ Hr)) as [Hn _]%NoDup_cons.
    assert (Hin : i ∈ i :: ca) by left.
    exists m1, i, s, ca. rewrite Hd1. split; [done|]. split; [done|]. split; [done|].
    destruct (wf_phase _ _ _ _ Hwf i s Hs) as [H1 H2 H3 H4 H5 H6| | |]; [|done..].
    split; [done|]. split; [done|]. split; [done|]. split; [done|]. split; [|split; [|done]].
    + intros j Hj. split; [done|]. rewrite elem_of_cons. tauto.
    + rewrite Hs. by intros ? [= <-].
Qed.

Lemma reps_in_vec_data m i s m' s' :
  at_idx (vec_data m) i = Some s -> vec_data m' = <[Z.to_nat i := s']> (vec_data m) ->
  in_vec (message_vec m') i.
Proof using Type.
  clear WE PV MS WC. intros Hs Hd. apply w_data_in_vec in Hs. unfold in_vec in *.
  by rewrite <- w_length_vec_data, Hd, length_insert, w_length_vec_data.
Qed.

Lemma at_idx_changed m m' i j s s' :
  at_idx (vec_data m) i = Some s -> vec_data m' = <[Z.to_nat i := s']> (vec_data m) ->
  at_idx (vec_data m') j = if decide (i = j) then Some s' else at_idx (vec_data m) j.
Proof using Type.
  clear WE PV MS WC. intros Hs Hd. rewrite Hd. apply at_idx_insert.
  rewrite w_length_vec_data. by eapply w_data_in_vec.
Qed.

Lemma fetchRequest_eq m id :
  0 <= index id ->
  fetchRequest m id
  = Done (match at_idx (vec_data m) (index id) with
          | Some s => if unique_ id =? unique s then message_ptr (msgbundle s) else None
          | None => None
          end).
Proof using Type.
  clear WE PV MS WC. intros Hi. unfold fetchRequest. rewrite w_stub_at_eq.
  destruct (Z.ltb_spec (index id) (Z.of_nat (length (message_vec m)))) as [Hl|Hl].
  - destruct (w_in_vec_data m (index id)) as [s ->]; [by split|]. cbn. by case_match.
  - unfold at_idx. rewrite decide_True by done.
    by rewrite lookup_ge_None_2 by (rewrite w_length_vec_data; lia).
Qed.

(** What a successful [enqueue] does. *)
Lemma enqueue_accepts m ord wr ca b pid :
  wf m ord wr ca -> is_Some (message_ptr b) -> MessageFlags.is_canceled (message_flags b) = false ->
  Z.of_nat (length (message_vec m)) + 1 < nil_idx -> refused wr ord b = false ->
  exists m' idx s ca',
    enqueue m b pid = Done (m', Some (mkMessageId idx (unique s), MessageBundle_moved (enqueued b)))
    /\ wf m' (ord ++ [idx]) (wr ++ [idx]) ca' /\ (idx ∉ ord)
    /\ at_idx (vec_data m') idx = Some (set_pool_id pid (set_bundle (enqueued b) s))
    /\ (forall j, j <> idx -> at_idx (vec_data m') j = at_idx (vec_data m) j)
    /\ (forall s, at_idx (vec_data m) idx = Some s -> message_ptr (msgbundle s) = None)
    /\ serializer_ptr s = None.
Proof using Type.
  intros Hwf Hb Hc Hg Hrf. pose proof (wf_reps _ _ _ _ Hwf) as Hr.
  destruct (take_stub m ord wr ca Hwf Hg)
    as (m1 & idx & s & ca' & E1 & Hr1 & Hs1 & Ho & Hw & Hca & Hser & Hj & Hfree & Hsy).
  unfold refused in Hrf. apply orb_false_iff in Hrf as [Hf1 Hf2].
  unfold enqueue, size. rewrite (repr_size _ _ _ _ (r_wr _ _ _ _ Hr)), (repr_size _ _ _ _ (r_ord _ _ _ _ Hr)).
  rewrite Hf1, Hf2. unfold size in E1. rewrite E1. cbn [res_bind].
  rewrite w_stub_at_eq, Hs1. cbn [of_option res_bind]. change (set_flags _ _) with (enqueued b).
  set (s' := set_pool_id pid (set_bundle (enqueued b) s)).
  destruct (w_upd_stub_spec m1 ord wr ca' idx s' Hr1 (w_data_in_vec _ _ _ Hs1)) as (m2 & -> & Hr2 & Hd2 & Hsy2).
  cbn [res_bind]. pose proof (reps_in_vec_data _ _ _ _ _ Hs1 Hd2) as Hv2.
  destruct (w_order_pushBack_spec m2 ord wr ca' idx Hr2 Hv2 Ho) as (m3 & -> & Hr3 & Hd3 & Hsy3).
  cbn [res_bind].
  assert (in_vec (message_vec m3) idx) as Hv3.
  { unfold in_vec in *. by rewrite <- w_length_vec_data, Hd3, w_length_vec_data. }
  destruct (write_pushBack_spec m3 (ord ++ [idx]) wr ca' idx Hr3 Hv3 Hw Hca) as (m4 & -> & Hr4 & Hd4 & Hsy4).
  cbn [res_bind]. exists m4, idx, s, ca'.
  assert (Hat : forall j, at_idx (vec_data m4) j = if decide (idx = j) then Some s' else at_idx (vec_data m1) j).
  { intros j. rewrite Hd4, Hd3. by apply (at_idx_changed m1 m2 idx j s). }
  split; [done|]. split; [|split; [done|split; [|split; [|done]]]].
  - constructor; [done| |].
    + intros j sj. rewrite Hat. destruct (decide (idx = j)) as [<-|Hne].
      * intros [= <-]. apply phase_write; [set_solver|set_solver|done| |done].
        unfold isCanceled. cbn. unfold MessageFlags.Canceled. by MessageFlags.flags.
      * destruct (Hj j) as [-> Hcj]; [congruence|]. intros Hp%(wf_phase _ _ _ _ Hwf).
        eapply phase_ok_iff; [..|exact Hp]; rewrite ?elem_of_snoc_ne by congruence; tauto.
    + unfold sync_ok. rewrite Hsy4, Hsy3, Hsy2, Hsy.
      destruct (wf_sync _ _ _ _ Hwf) as [|[Hsw (s0 & Hs0 & Hp0)]]; [by left|right].
      split; [set_solver|]. exists s0. split; [|done]. rewrite Hat, decide_False by congruence.
      destruct (Hj (current_synchronous_message_idx m)) as [-> _]; congruence.
  - rewrite Hat. by rewrite decide_True.
  - intros j Hne. rewrite Hat, decide_False by congruence. by apply Hj.
Qed.

Lemma enqueue_refuses m ord wr ca b pid :
  wf m ord wr ca -> refused wr ord b = true -> enqueue m b pid = Done (m, None).
Proof using Type.
  intros Hwf Hrf. unfold refused in Hrf. pose proof (wf_reps _ _ _ _ Hwf) as Hr. unfold enqueue, size.
  rewrite (repr_size _ _ _ _ (r_wr _ _ _ _ Hr)), (repr_size _ _ _ _ (r_ord _ _ _ _ Hr)).
  apply orb_true_iff in Hrf as [->| ->]; [done|]. by case_match.
Qed.

(** [enqueue] refuses a message exactly when the write list is full, or the message asks
    for a response and too many messages are open; then nothing changes. Otherwise the message
    goes to the back of both the order and the write list, the invariant is kept, the id that
    is handed out fetches the message, and the ids handed out before fetch what they did. *)
Theorem enqueue_correct m ord wr ca (b : bundle) (pid : MessageId) :
  wf m ord wr ca -> is_Some (message_ptr b) -> MessageFlags.is_canceled (message_flags b) = false ->
  Z.of_nat (length (message_vec m)) + 1 < nil_idx ->
  if refused wr ord b then enqueue m b pid = Done (m, None)
  else exists m' id b' ca',
    enqueue m b pid = Done (m', Some (id, b')) /\ message_ptr b' = None
    /\ wf m' (ord ++ [index id]) (wr ++ [index id]) ca' /\ (index id ∉ ord)
    /\ fetchRequest m' id = Done (message_ptr b)
    /\ forall id' x, 0 <= index id' -> fetchRequest m id' = Done (Some x) ->
         fetchRequest m' id' = Done (Some x).
Proof using Type.
  intros Hwf Hb Hc Hg. destruct (refused wr ord b) eqn:Hrf.
  - by eapply enqueue_refuses.
  - destruct (enqueue_accepts m ord wr ca b pid Hwf Hb Hc Hg Hrf)
      as (m' & idx & s & ca' & E & Hwf' & Hn & Hs' & Hj & Hfree & _).
    assert (0 <= idx) by (apply at_idx_Some in Hs' as [? _]; done).
    do 4 eexists. split; [exact E|]. split; [done|]. split; [exact Hwf'|]. split; [done|]. split.
    + rewrite fetchRequest_eq by done. cbn [index unique_]. rewrite Hs'. cbn. by rewrite Z.eqb_refl.
    + intros id' x Hi'. rewrite !fetchRequest_eq by done.
      destruct (decide (index id' = idx)) as [->|Hne]; [|by rewrite Hj].
      destruct (at_idx (vec_data m) idx) as [s0|]; [|done].
      rewrite (Hfree s0 eq_refl). by case_match.
Qed.

(** ** Canceling *)

Lemma sync_ok_change m m' wr wr' i s' :
  sync_ok m wr -> in_vec (message_vec m) i -> vec_data m' = <[Z.to_nat i := s']> (vec_data m) ->
  current_synchronous_message_idx m' = current_synchronous_message_idx m ->
  (forall j, j <> i -> j ∈ wr -> j ∈ wr') ->
  (current_synchronous_message_idx m = i -> (i ∈ wr') /\ is_Some (serializer_ptr s')) ->
  sync_ok m' wr'.
Proof using Type.
  clear WE PV MS WC. intros [Hs|[Hw (s & Hs & Hp)]] Hi Hd E Hj Hsi; [left; congruence|right].
  rewrite E, Hd, at_idx_insert by (rewrite w_length_vec_data; apply Hi).
  destruct (decide (i = current_synchronous_message_idx m)) as [Ei|Ei].
  - destruct (Hsi ltac:(congruence)). rewrite <- Ei. eauto.
  - eauto.
Qed.

(** The bundle handed out by a cancellation. *)
Definition canceled_bundle s : bundle :=
  set_flags (msgbundle s) (MessageFlags.set (message_flags (msgbundle s)) MessageFlags.Canceled).

Lemma wf_not_sync m ord wr ca i s :
  wf m ord wr ca -> in_vec (message_vec m) i -> at_idx (vec_data m) i = Some s ->
  serializer_ptr s = None -> current_synchronous_message_idx m <> i.
Proof using Type.
  clear WE PV MS WC. intros Hwf Hv Hs Hp E.
  destruct (wf_sync _ _ _ _ Hwf) as [Hsy|[_ (s' & Hs' & Hp')]].
  - apply (in_vec_not_nil (message_vec m) i); [apply Hwf|done|]. rewrite <- E, Hsy. done.
  - rewrite E in Hs'. assert (s' = s) as -> by congruence. rewrite Hp in Hp'. by destruct Hp'.
Qed.

(** A message being written whose serializer is there stays in the write list, canceled. *)
Lemma doCancel_started m xs i ys wr ca s p :
  wf m (xs ++ i :: ys) wr ca -> at_idx (vec_data m) i = Some s -> serializer_ptr s = Some p ->
  exists m', doCancel m i = Done (m', Some (canceled_bundle s, pool_msg_id s)) /\ wf m' (xs ++ ys) wr ca
    /\ forall j, j <> i -> at_idx (vec_data m') j = at_idx (vec_data m) j.
Proof using Type.
  intros Hwf Hs Hp. pose proof (wf_reps _ _ _ _ Hwf) as Hr. pose proof (w_data_in_vec _ _ _ Hs) as Hv.
  destruct (nodup_remove xs ys i (repr_nodup _ _ _ _ (r_ord _ _ _ _ Hr))) as [Hni Hne].
  destruct (wf_phase _ _ _ _ Hwf i s Hs) as [| H1 H2 H3 H4 H5| |H1]; [by congruence| |congruence|].
  2:{ destruct H1. set_solver. }
  unfold doCancel. rewrite w_stub_at_eq, Hs. cbn [of_option res_bind].
  unfold isCanceled in H4. rewrite H4. fold (canceled_bundle s).
  set (s1 := set_bundle (MessageBundle_moved (canceled_bundle s)) s).
  destruct (w_upd_stub_spec m _ _ _ i s1 Hr Hv) as (m1 & -> & Hr1 & Hd1 & Hy1). cbn [res_bind].
  destruct (w_order_erase_spec m1 _ _ _ _ _ Hr1) as (m2 & -> & Hr2 & Hd2 & Hy2). cbn [res_bind].
  assert (in_vec (message_vec m2) i) as Hv2.
  { unfold in_vec. rewrite <- w_length_vec_data, Hd2, Hd1, length_insert, w_length_vec_data. apply Hv. }
  change (serializer_ptr s1) with (serializer_ptr s). rewrite Hp.
  set (s2 := set_serializer (Some (ser_clear p)) s1).
  destruct (w_upd_stub_spec m2 _ _ _ i s2 Hr2 Hv2) as (m3 & -> & Hr3 & Hd3 & Hy3). cbn [res_bind].
  assert (Hd : vec_data m3 = <[Z.to_nat i := s2]> (vec_data m)).
  { by rewrite Hd3, Hd2, Hd1, list_insert_insert_eq. }
  assert (Hy : current_synchronous_message_idx m3 = current_synchronous_message_idx m) by congruence.
  exists m3. split; [done|]. split.
  - eapply wf_change; [exact Hwf|exact Hv|exact Hr3|exact Hd| | |].
    + intros j Hj. by rewrite Hne.
    + apply phase_canceled; [done|done|done| |done|done].
      unfold isCanceled. cbn. unfold MessageFlags.Canceled. by MessageFlags.flags.
    + by eapply sync_ok_change; [apply Hwf|exact Hv|exact Hd|exact Hy|..].
  - intros j Hj. rewrite (at_idx_changed _ _ _ _ _ _ Hs Hd). by rewrite decide_False by congruence.
Qed.

(** A stub that leaves the order list and the write list is cleared and goes to the cache. *)
Lemma release_stub m m1 xs i ys wr wr' ca s s1 :
  wf m (xs ++ i :: ys) wr ca -> at_idx (vec_data m) i = Some s ->
  reps m1 (xs ++ ys) wr' ca -> vec_data m1 = <[Z.to_nat i := s1]> (vec_data m) ->
  sync_ok m1 wr' -> current_synchronous_message_idx m1 <> i ->
  (i ∉ wr') -> (i ∉ ca) -> (forall j, j <> i -> j ∈ wr' <-> j ∈ wr) ->
  exists m', doUnprepareMessageStub m1 i = Done m' /\ wf m' (xs ++ ys) wr' (i :: ca)
    /\ current_synchronous_message_idx m' = current_synchronous_message_idx m1
    /\ forall j, j <> i -> at_idx (vec_data m') j = at_idx (vec_data m) j.
Proof using Type.
  clear WE PV MS WC. intros Hwf Hs Hr1 Hd1 Hsy Hsn Hnw Hnc Hjw. pose proof (w_data_in_vec _ _ _ Hs) as Hv.
  destruct (nodup_remove xs ys i (repr_nodup _ _ _ _ (r_ord _ _ _ _ (wf_reps _ _ _ _ Hwf)))) as [Hni Hne].
  assert (Hs1 : at_idx (vec_data m1) i = Some s1).
  { rewrite (at_idx_changed _ _ _ _ _ _ Hs Hd1). by rewrite decide_True. }
  destruct (doUnprepare_spec m1 _ _ _ i s1 Hr1 Hs1 Hnw Hnc) as (m2 & -> & Hr2 & Hd2 & Hy2).
  assert (Hd : vec_data m2 = <[Z.to_nat i := StubData_clear s1]> (vec_data m)).
  { by rewrite Hd2, Hd1, list_insert_insert_eq. }
  exists m2. split; [done|]. split; [|split; [done|]].
  - eapply wf_change; [exact Hwf|exact Hv|exact Hr2|exact Hd| | |].
    + intros j Hj. rewrite Hne, Hjw, elem_of_cons by done. tauto.
    + apply phase_cleared; [done|done|left].
    + eapply sync_ok_change; [exact Hsy|by eapply w_data_in_vec|exact Hd2|exact Hy2|done|done].
  - intros j Hj. rewrite (at_idx_changed _ _ _ _ _ _ Hs Hd). by rewrite decide_False by congruence.
Qed.

(** A message without a serializer: waiting for its response, or not started. *)
Lemma doCancel_unstarted m xs i ys wr ca s :
  wf m (xs ++ i :: ys) wr ca -> at_idx (vec_data m) i = Some s -> serializer_ptr s = None ->
  (MessageFlags.is_waiting_response (message_flags (msgbundle s)) = true -> i ∉ wr) ->
  exists m' wr', doCancel m i = Done (m', Some (canceled_bundle s, pool_msg_id s))
    /\ wf m' (xs ++ ys) wr' (i :: ca)
    /\ (forall j, j <> i -> at_idx (vec_data m') j = at_idx (vec_data m) j)
    /\ forall j, j <> i -> j ∈ wr' <-> j ∈ wr.
Proof using Type.
  intros Hwf Hs Hp Hw. pose proof (wf_reps _ _ _ _ Hwf) as Hr. pose proof (w_data_in_vec _ _ _ Hs) as Hv.
  assert (isCanceled s = false /\ (i ∉ ca)
          /\ (i ∈ wr \/ MessageFlags.is_waiting_response (message_flags (msgbundle s)) = true))
    as (H4 & Hnc & Hcase).
  { destruct (wf_phase _ _ _ _ Hwf i s Hs) as [H1| | |H1]; [destruct H1; set_solver|tauto|tauto|].
    destruct H1; set_solver. }
  unfold doCancel. rewrite w_stub_at_eq, Hs. cbn [of_option res_bind].
  unfold isCanceled in H4. rewrite H4. fold (canceled_bundle s).
  set (s1 := set_bundle (MessageBundle_moved (canceled_bundle s)) s).
  destruct (w_upd_stub_spec m _ _ _ i s1 Hr Hv) as (m1 & -> & Hr1 & Hd1 & Hy1). cbn [res_bind].
  destruct (w_order_erase_spec m1 _ _ _ _ _ Hr1) as (m2 & -> & Hr2 & Hd2 & Hy2). cbn [res_bind].
  change (serializer_ptr s1) with (serializer_ptr s). rewrite Hp.
  assert (Hfl : MessageFlags.is_waiting_response (message_flags (msgbundle s1))
              = MessageFlags.is_waiting_response (message_flags (msgbundle s))).
  { cbn. by MessageFlags.flags. }
  rewrite Hfl.
  pose proof (wf_not_sync _ _ _ _ i s Hwf Hv Hs Hp) as Hns.
  assert (Hrel : forall m3 wr', reps m3 (xs ++ ys) wr' ca -> vec_data m3 = vec_data m2 ->
            current_synchronous_message_idx m3 = current_synchronous_message_idx m ->
            (i ∉ wr') -> (forall j, j <> i -> j ∈ wr' <-> j ∈ wr) ->
            exists m', doUnprepareMessageStub m3 i = Done m' /\ wf m' (xs ++ ys) wr' (i :: ca)
              /\ forall j, j <> i -> at_idx (vec_data m') j = at_idx (vec_data m) j).
  { intros m3 wr' Hr3 Hd3 Hy3 Hnw Hjw. rewrite Hd2, Hd1 in Hd3.
    destruct (release_stub m m3 xs i ys wr wr' ca s s1) as (m' & E & Hwf' & _ & Hj);
      [done|done|done|done| |congruence|done|done|done|by exists m'].
    eapply sync_ok_change; [apply Hwf|exact Hv|exact Hd3|exact Hy3|intros; by apply Hjw|done]. }
  destruct (MessageFlags.is_waiting_response (message_flags (msgbundle s))).
  - destruct (Hrel m2 wr) as (m' & -> & Hwf' & Hj); [done|done|congruence|by apply Hw|done|].
    by exists m', wr.
  - destruct Hcase as [Hi|Hi]; [|done]. apply list_elem_of_split in Hi as (zs & ws & ->).
    destruct (nodup_remove zs ws i (repr_nodup _ _ _ _ (r_wr _ _ _ _ Hr))) as [Hniw Hnew].
    destruct (write_erase_spec m2 _ _ _ _ _ Hr2) as (m3 & -> & Hr3 & Hd3 & Hy3). cbn [res_bind].
    destruct (Hrel m3 (zs ++ ws)) as (m' & -> & Hwf' & Hj); [done|done|congruence|done|done|].
    by exists m', (zs ++ ws).
Qed.

(** No request waits in the write list unstarted. *)
Definition no_unstarted_request m ord wr : Prop :=
  forall i s, i ∈ ord -> at_idx (vec_data m) i = Some s -> serializer_ptr s = None ->
    MessageFlags.is_waiting_response (message_flags (msgbundle s)) = true -> i ∉ wr.

(** [cancelOldest] hands out the oldest open message. *)
Lemma cancelOldest_spec m i ord wr ca s :
  wf m (i :: ord) wr ca -> no_unstarted_request m (i :: ord) wr -> at_idx (vec_data m) i = Some s ->
  exists m' wr' ca', cancelOldest m = Done (m', Some (canceled_bundle s, pool_msg_id s))
    /\ wf m' ord wr' ca' /\ no_unstarted_request m' ord wr'
    /\ forall j, j <> i -> at_idx (vec_data m') j = at_idx (vec_data m) j.
Proof using Type.
  intros Hwf Hu Hs. pose proof (r_ord _ _ _ _ (wf_reps _ _ _ _ Hwf)) as Hr.
  pose proof (repr_nodup _ _ _ _ Hr) as [Hni _]%NoDup_cons.
  unfold cancelOldest, size, frontIndex. rewrite (repr_size _ _ _ _ Hr), (repr_front _ _ _ _ Hr).
  cbn [length hd]. decide_Z. cbn [negb].
  assert (Hkeep : forall m' wr', (forall j, j <> i -> at_idx (vec_data m') j = at_idx (vec_data m) j) ->
    (forall j, j <> i -> j ∈ wr' <-> j ∈ wr) -> no_unstarted_request m' ord wr').
  { intros m' wr' Hj Hw j sj Hjo. assert (j <> i) as Hne by (by intros ->). rewrite (Hj j Hne), (Hw j Hne).
    apply Hu. by right. }
  destruct (serializer_ptr s) as [p|] eqn:Hp.
  - destruct (doCancel_started m [] i ord wr ca s p Hwf Hs Hp) as (m' & -> & Hwf' & Hj).
    exists m', wr, ca. split_and!; try done. by apply Hkeep.
  - destruct (doCancel_unstarted m [] i ord wr ca s Hwf Hs Hp) as (m' & wr' & -> & Hwf' & Hj & Hw).
    { intros Hwait. eapply Hu; [left|done|done|done]. }
    exists m', wr', (i :: ca). split_and!; try done. by apply Hkeep.
Qed.

(** C33: canceling by the id of a stub in the order list that is not a request queued but not yet
    started. When the id is stale, nothing is canceled; otherwise the message is taken out of the
    order list and handed back marked canceled, the invariant is kept, and the other stubs are left
    as they were; after that the same id fetches nothing any more. (Canceling a request that is
    queued and not started damages the lists: [cancel_queued_request_undefined].) *)
Theorem cancel_correct m ord wr ca (id : MessageId) s :
  wf m ord wr ca -> at_idx (vec_data m) (index id) = Some s -> index id ∈ ord ->
  (serializer_ptr s = None ->
   MessageFlags.is_waiting_response (message_flags (msgbundle s)) = true -> index id ∉ wr) ->
  if unique_ id =? unique s then
    exists m' xs ys wr' ca', ord = xs ++ index id :: ys
      /\ cancel m id = Done (m', Some (canceled_bundle s, pool_msg_id s))
      /\ wf m' (xs ++ ys) wr' ca' /\ (index id ∉ xs ++ ys)
      /\ (forall j, j <> index id -> at_idx (vec_data m') j = at_idx (vec_data m) j)
      /\ fetchRequest m' id = Done None
  else cancel m id = Done (m, None).
Proof using Type.
  intros Hwf Hs Hi Hu. pose proof (w_data_in_vec _ _ _ Hs) as Hv. unfold cancel.
  rewrite (proj2 (Z.ltb_lt _ _)) by apply Hv. rewrite w_stub_at_eq, Hs. cbn [of_option res_bind].
  destruct (Z.eqb_spec (unique_ id) (unique s)) as [E|E]; [|done].
  apply list_elem_of_split in Hi as (xs & ys & ->).
  assert (Hd : exists m' wr' ca', doCancel m (index id) = Done (m', Some (canceled_bundle s, pool_msg_id s))
            /\ wf m' (xs ++ ys) wr' ca'
            /\ forall j, j <> index id -> at_idx (vec_data m') j = at_idx (vec_data m) j).
  { destruct (serializer_ptr s) as [p|] eqn:Hp.
    - destruct (doCancel_started m xs _ ys wr ca s p Hwf Hs Hp) as (m' & ? & ? & ?). eauto 10.
    - destruct (doCancel_unstarted m xs _ ys wr ca s Hwf Hs Hp) as (m' & wr' & ? & ? & ? & _); [auto|].
      eauto 10. }
  destruct Hd as (m' & wr' & ca' & Ed & Hwf' & Hj).
  destruct (nodup_remove xs ys (index id)) as [Hni _]; [apply Hwf|].
  exists m', xs, ys, wr', ca'. split_and!; try done.
  rewrite fetchRequest_eq by apply Hv. f_equal.
  destruct (at_idx (vec_data m') (index id)) as [s'|] eqn:Hs'; [|done].
  assert (message_ptr (msgbundle s') = None) as ->; [|by case_match].
  by destruct (wf_phase _ _ _ _ Hwf' _ _ Hs').
Qed.

(** ** Completing a message *)

(** What identifies a message: its type, itself, its completion function and its pool id. *)
Definition content s : msg_content :=
  (message_type_id (msgbundle s), message_ptr (msgbundle s), complete_fnc (msgbundle s), pool_msg_id s).

Definition contents m ord : list (option msg_content) :=
  (fun i => content <$> at_idx (vec_data m) i) <$> ord.

Definition completed (c : bundle * MessageId) : option msg_content :=
  Some (message_type_id c.1, message_ptr c.1, complete_fnc c.1, c.2).

Lemma contents_ext m m' ord :
  (forall j, j ∈ ord -> content <$> at_idx (vec_data m') j = content <$> at_idx (vec_data m) j) ->
  contents m' ord = contents m ord.
Proof using Type.
  clear WE PV MS WC. intros H. unfold contents. apply list_fmap_ext. intros k j Hj. apply H.
  by eapply list_elem_of_lookup_2.
Qed.

Lemma contents_split m xs i ys s :
  at_idx (vec_data m) i = Some s -> contents m (xs ++ i :: ys) ≡ₚ contents m (xs ++ ys) ++ [Some (content s)].
Proof using Type.
  clear WE PV MS WC. intros Hs. unfold contents. rewrite !fmap_app, fmap_cons, Hs. cbn.
  rewrite <- Permutation_middle, Permutation_cons_append. done.
Qed.

(** Changing a stub without changing its content. *)
Lemma contents_change m m' ord i s s' :
  at_idx (vec_data m) i = Some s -> vec_data m' = <[Z.to_nat i := s']> (vec_data m) ->
  content s' = content s -> contents m' ord = contents m ord.
Proof using Type.
  clear WE PV MS WC. intros Hs Hd Hc. apply contents_ext. intros j _.
  rewrite (at_idx_changed _ _ _ _ _ _ Hs Hd). destruct (decide (i = j)) as [<-|]; [|done].
  rewrite Hs. cbn. by rewrite Hc.
Qed.

(** The messages a callback enqueues while it runs. *)
Inductive enqueues : Writer -> list msg_content -> Writer -> Prop :=
  | enqueues_nil m : enqueues m [] m
  | enqueues_cons m b pid m1 r new m' :
      is_Some (message_ptr b) -> MessageFlags.is_canceled (message_flags b) = false ->
      Z.of_nat (length (message_vec m)) + 1 < nil_idx -> enqueue m b pid = Done (m1, Some r) ->
      enqueues m1 new m' ->
      enqueues m ((message_type_id b, message_ptr b, complete_fnc b, pid) :: new) m'.

Lemma contents_app m xs ys : contents m (xs ++ ys) = contents m xs ++ contents m ys.
Proof using Type. clear WE PV MS WC. apply fmap_app. Qed.

Lemma enqueues_spec m new m' :
  enqueues m new m' -> forall ord wr ca, wf m ord wr ca ->
  exists idxs ca', wf m' (ord ++ idxs) (wr ++ idxs) ca' /\ length idxs = length new
    /\ contents m' (ord ++ idxs) = contents m ord ++ (Some <$> new)
    /\ (forall j s', at_idx (vec_data m') j = Some s' ->
         serializer_ptr s' = None \/ at_idx (vec_data m) j = Some s')
    /\ (length (wr ++ idxs) <= Nat.max (length wr) (Z.to_nat max_message_count_multiplex))%nat.
Proof using Type.
  induction 1 as [m|m b pid m1 r new m' Hb Hc Hg E _ IH]; intros ord wr ca Hwf.
  { exists [], ca. rewrite !app_nil_r. split_and!; try done; [|lia]. auto. }
  destruct (refused wr ord b) eqn:Hrf.
  { rewrite (enqueue_refuses m ord wr ca b pid Hwf Hrf) in E. done. }
  destruct (enqueue_accepts m ord wr ca b pid Hwf Hb Hc Hg Hrf)
    as (m2 & idx & s & ca' & E' & Hwf' & Hn & Hs' & Hj & _ & Hp).
  assert (m2 = m1) as -> by congruence. destruct (IH _ _ _ Hwf') as (idxs & ca2 & Hwf2 & Hl & Hct & Hser & Hlen).
  rewrite <- !app_assoc in *. exists (idx :: idxs), ca2. split_and!; try done; [by cbn; rewrite Hl| | |].
  - cbn [app] in Hct. rewrite Hct, contents_app, (contents_ext m m1).
    + cbn. rewrite Hs', <- app_assoc. done.
    + intros j Hjo. rewrite Hj; [done|]. by intros ->.
  - intros j sj Hsj. destruct (Hser j sj Hsj) as [?|Hsj']; [by left|].
    destruct (decide (j = idx)) as [->|Hne]; [|right; by rewrite <- Hj].
    left. rewrite Hs' in Hsj'. by injection Hsj' as <-.
  - unfold refused in Hrf. apply orb_false_iff in Hrf as [Hf%Z.leb_gt _].
    rewrite !length_app in *. cbn [length] in *. lia.
Qed.

Section Callback.
Context (pending : World -> list msg_content).

Definition pend (w : World) : list (option msg_content) := Some <$> pending w.

(** The contract of the callback: it completes a message and may enqueue messages that are
    [pending] outside the writer; serializers do not touch those. *)
Record callback_contract : Prop := {
  cb_run ctx w p n w' p' rv bs : ser_run ctx w p n = (w', p', rv, bs) -> pending w' = pending w;
  cb_complete w m b id ord wr ca : wf m ord wr ca ->
    exists w' m' e new, on_complete w m b id = Done (w', m', e) /\ enqueues m new m'
      /\ pending w ≡ₚ new ++ pending w'
}.

Lemma reps_set_sync m ord wr ca k : reps m ord wr ca -> reps (set_sync m k) ord wr ca.
Proof using Type. clear WE PV MS WC. intros []. by constructor. Qed.

(** The front of the write list leaves it, and stops being the synchronous message. *)
Lemma leave_write m ord i wr ca s s1 :
  wf m ord (i :: wr) ca -> at_idx (vec_data m) i = Some s ->
  exists m1 m2, upd_stub m i s1 = Done m1 /\ write_popFront m1 = Done m2
    /\ let m3 := if current_synchronous_message_idx m2 =? i then set_sync m2 (InvalidIndex 64) else m2 in
       sync_ok m3 wr /\ vec_data m3 = <[Z.to_nat i := s1]> (vec_data m)
       /\ reps m3 ord wr ca /\ current_synchronous_message_idx m3 <> i.
Proof using Type.
  clear WE PV MS WC. intros Hwf Hs. pose proof (wf_reps _ _ _ _ Hwf) as Hr. pose proof (w_data_in_vec _ _ _ Hs) as Hv.
  assert (Hni : i <> InvalidIndex 64) by (eapply in_vec_not_nil; [apply Hr|done]).
  destruct (w_upd_stub_spec m _ _ _ i s1 Hr Hv) as (m1 & E1 & Hr1 & Hd1 & Hy1).
  destruct (write_popFront_spec m1 _ _ _ _ Hr1) as (m2 & E2 & Hr2 & Hd2 & Hy2).
  exists m1, m2. split; [done|]. split; [done|]. cbn zeta. rewrite Hy2, Hy1.
  destruct (wf_sync _ _ _ _ Hwf) as [Hsy|[Hsw (s0 & Hs0 & Hp0)]].
  - rewrite Hsy, (proj2 (Z.eqb_neq _ _)) by congruence.
    split; [left; congruence|]. split; [congruence|]. split; [done|congruence].
  - destruct (Z.eqb_spec (current_synchronous_message_idx m) i) as [E|E].
    + split; [by left|]. split; [unfold vec_data in *; cbn; congruence|].
      split; [by apply reps_set_sync|]. cbn. congruence.
    + split; [|split; [congruence|split; [done|congruence]]].
      apply elem_of_cons in Hsw as [Hsw|Hsw]; [congruence|]. right. rewrite Hy2, Hy1.
      split; [done|]. exists s0. split; [|done]. rewrite Hd2.
      rewrite (at_idx_changed _ _ _ _ _ _ Hs Hd1). by rewrite decide_False by congruence.
Qed.

(** The message is done: it leaves the write list and, if no response is awaited, completes. *)
Lemma tryComplete_done w m ord i wr ca s p tmp err :
  callback_contract -> wf m ord (i :: wr) ca -> at_idx (vec_data m) i = Some s -> i ∈ ord ->
  serializer_ptr s = Some p -> ser_empty p = true ->
  exists w' m' ord' wr' ca' tmp' err' log,
    doTryCompleteMessageAfterSerialization w m i tmp err = Done (w', m', tmp', err', log)
    /\ wf m' ord' wr' ca'
    /\ contents m ord ++ pend w ≡ₚ contents m' ord' ++ pend w' ++ (completed <$> log)
    /\ tmp' = Some p
    /\ (forall j s', at_idx (vec_data m') j = Some s' ->
         serializer_ptr s' = None \/ (j <> i /\ at_idx (vec_data m) j = Some s'))
    /\ (length wr' + length (pending w') <= length wr + length (pending w))%nat
    /\ (length wr' <= Nat.max (length wr) (Z.to_nat max_message_count_multiplex))%nat.
Proof using Type.
  intros Hcb Hwf Hs Hi Hp He. pose proof (wf_reps _ _ _ _ Hwf) as Hr. pose proof (w_data_in_vec _ _ _ Hs) as Hv.
  pose proof (repr_nodup _ _ _ _ (r_wr _ _ _ _ Hr)) as [Hnw _]%NoDup_cons.
  assert (Hnc : i ∉ ca) by (eapply r_disj; [exact Hr|left]).
  assert (isCanceled s = false /\ is_Some (message_ptr (msgbundle s))) as [Hcan Hm].
  { by destruct (wf_phase _ _ _ _ Hwf i s Hs). }
  unfold doTryCompleteMessageAfterSerialization. rewrite w_stub_at_eq, Hs. cbn [of_option res_bind].
  rewrite Hp. cbn [of_option res_bind]. rewrite He.
  set (s1 := set_serializer None s).
  destruct (leave_write m ord i wr ca s s1 Hwf Hs) as (m1 & m2 & -> & Hpop & Hm3). cbn [res_bind].
  rewrite Hpop. cbn [res_bind]. cbn zeta in Hm3.
  set (m3 := if current_synchronous_message_idx m2 =? i then _ else _) in *.
  destruct Hm3 as (Hsy3 & Hd3 & Hr3 & Hn3). clearbody m3.
  set (fl := MessageFlags.set _ _).
  assert (in_vec (message_vec m3) i) as Hv3 by (by eapply reps_in_vec_data).
  assert (Hfl : MessageFlags.is_canceled fl = false).
  { unfold fl, isCanceled in *. by MessageFlags.flags. }
  destruct (MessageFlags.is_waiting_response fl) eqn:Hwait; cbn [negb].
  - set (s4 := set_bundle _ s1).
    destruct (w_upd_stub_spec m3 _ _ _ i s4 Hr3 Hv3) as (m4 & -> & Hr4 & Hd4 & Hy4). cbn [res_bind].
    assert (Hd : vec_data m4 = <[Z.to_nat i := s4]> (vec_data m)).
    { by rewrite Hd4, Hd3, list_insert_insert_eq. }
    exists w, m4, ord, wr, ca, (Some p), err, []. split; [done|]. split.
    + eapply wf_change; [exact Hwf|exact Hv|exact Hr4|exact Hd| | |].
      * intros j Hj. rewrite elem_of_cons. tauto.
      * apply phase_wait; [done|done|done| |done| |done];
          unfold isCanceled, s4; cbn; clear -Hfl Hwait; by MessageFlags.flags.
      * eapply sync_ok_change; [exact Hsy3|exact Hv3|exact Hd4|exact Hy4|done|done].
    + rewrite app_nil_r. split; [by rewrite (contents_change m m4 ord i s s4 Hs Hd)|].
      split; [done|]. split; [|split; lia]. intros j sj. rewrite (at_idx_changed _ _ _ _ _ _ Hs Hd).
      destruct (decide (i = j)) as [<-|]; [intros [= <-]; by left|]. intros Hsj. right. by split.
  - set (b := set_flags (msgbundle s) fl). set (s4 := set_bundle (MessageBundle_moved b) s1).
    destruct (w_upd_stub_spec m3 _ _ _ i s4 Hr3 Hv3) as (m4 & -> & Hr4 & Hd4 & Hy4). cbn [res_bind].
    apply list_elem_of_split in Hi as (xs & ys & ->).
    destruct (w_order_erase_spec m4 _ _ _ _ _ Hr4) as (m5 & -> & Hr5 & Hd5 & Hy5). cbn [res_bind].
    destruct (nodup_remove xs ys i (repr_nodup _ _ _ _ (r_ord _ _ _ _ Hr))) as [Hnx _].
    destruct (release_stub m m5 xs i ys (i :: wr) wr ca s s4) as (m6 & -> & Hwf6 & _ & Hj6);
      [done|done|done|by rewrite Hd5, Hd4, Hd3, list_insert_insert_eq| |congruence|done|done| |].
    { eapply (sync_ok_change m3 m5); [exact Hsy3|exact Hv3|by rewrite Hd5|congruence|done|done]. }
    { intros j Hj. rewrite elem_of_cons. tauto. }
    cbn [res_bind].
    destruct (cb_complete Hcb w m6 b (pool_msg_id s) _ _ _ Hwf6) as (w' & m7 & e & new & -> & Henq & Hpend).
    destruct (enqueues_spec _ _ _ Henq _ _ _ Hwf6) as (idxs & ca7 & Hwf7 & Hl7 & Hc7 & Hs7 & Hn7).
    cbn [res_bind]. exists w', m7, ((xs ++ ys) ++ idxs), (wr ++ idxs), ca7, (Some p), e, [(b, pool_msg_id s)].
    split; [done|]. split; [done|]. split; [|split; [done|split; [|split; [|done]]]].
    + rewrite (contents_split m xs i ys s Hs), Hc7. unfold pend. rewrite Hpend, fmap_app.
      rewrite (contents_ext m m6); [solve_Permutation|]. intros j Hj. rewrite Hj6; [done|]. by intros ->.
    + intros j sj Hsj. destruct (Hs7 j sj Hsj) as [?|Hs6]; [by left|].
      destruct (decide (j = i)) as [->|Hne]; [left|right; split; [done|]; by rewrite <- Hj6].
      pose proof (wf_phase _ _ _ _ Hwf6 i sj Hs6) as Hph. by destruct Hph as [| |H1 H2 H3|H1 H2 H3].
    + rewrite length_app, Hl7. apply Permutation_length in Hpend. rewrite length_app in Hpend. lia.
Qed.

(** Moving the front of the write list to its back. *)
Lemma rotate m ord i wr ca :
  reps m ord (i :: wr) ca ->
  exists m1 m2, write_popFront m = Done m1 /\ write_pushBack m1 i = Done m2
    /\ reps m2 ord (wr ++ [i]) ca /\ same_stubs m m2.
Proof using Type.
  clear WE PV MS WC. intros Hr.
  assert (in_vec (message_vec m) i) as Hv by (apply (repr_in_vec _ _ _ _ _ (r_wr _ _ _ _ Hr)); left).
  pose proof (repr_nodup _ _ _ _ (r_wr _ _ _ _ Hr)) as [Hnw _]%NoDup_cons.
  assert (Hnc : i ∉ ca) by (eapply r_disj; [exact Hr|left]).
  destruct (write_popFront_spec m _ _ _ _ Hr) as (m1 & E1 & Hr1 & Hd1 & Hy1).
  destruct (write_pushBack_spec m1 _ _ _ i Hr1) as (m2 & E2 & Hr2 & Hd2 & Hy2); [|done|done|].
  { unfold in_vec in *. by rewrite <- w_length_vec_data, Hd1, w_length_vec_data. }
  exists m1, m2. split; [done|]. split; [done|]. split; [done|]. split; congruence.
Qed.

(** The lists change their order only. *)
Lemma wf_reorder m m' ord wr wr' ca :
  wf m ord wr ca -> reps m' ord wr' ca -> same_stubs m m' -> (forall j, j ∈ wr' <-> j ∈ wr) ->
  wf m' ord wr' ca.
Proof using Type.
  clear WE PV MS WC. intros Hwf Hr [Hd Hy] Hj. constructor; [done| |].
  - intros i s. rewrite Hd. intros Hp%(wf_phase _ _ _ _ Hwf). eapply phase_ok_iff; [..|exact Hp]; by rewrite ?Hj.
  - unfold sync_ok. rewrite Hd, Hy, Hj. apply Hwf.
Qed.

(** The message is not done: it stays in the write list, at its front or at its back. *)
Lemma tryComplete_more w m ord i wr ca s p tmp err :
  wf m ord (i :: wr) ca -> at_idx (vec_data m) i = Some s -> i ∈ ord ->
  serializer_ptr s = Some p -> ser_empty p = false ->
  exists m' wr' n,
    doTryCompleteMessageAfterSerialization w m i tmp err = Done (w, m', tmp, err, [])
    /\ wf m' ord wr' ca /\ contents m ord = contents m' ord /\ length wr' = S (length wr)
    /\ vec_data m' = <[Z.to_nat i := set_count n s]> (vec_data m).
Proof using Type.
  clear pending. intros Hwf Hs Hi Hp He. pose proof (wf_reps _ _ _ _ Hwf) as Hr. pose proof (w_data_in_vec _ _ _ Hs) as Hv.
  unfold doTryCompleteMessageAfterSerialization. rewrite w_stub_at_eq, Hs. cbn [of_option res_bind].
  rewrite Hp. cbn [of_option res_bind]. rewrite He.
  assert (Hupd : forall n, exists m1, upd_stub m i (set_count n s) = Done m1 /\ wf m1 ord (i :: wr) ca
            /\ contents m ord = contents m1 ord /\ vec_data m1 = <[Z.to_nat i := set_count n s]> (vec_data m)).
  { intros n. destruct (w_upd_stub_spec m _ _ _ i (set_count n s) Hr Hv) as (m1 & E & Hr1 & Hd1 & Hy1).
    exists m1. split; [done|]. split; [|split; [by rewrite (contents_change m m1 ord i s _ Hs Hd1)|done]].
    eapply wf_change; [exact Hwf|exact Hv|exact Hr1|exact Hd1|done| |].
    - destruct (wf_phase _ _ _ _ Hwf i s Hs); [congruence| |congruence|congruence || done].
      by apply phase_write.
    - eapply sync_ok_change; [apply Hwf|exact Hv|exact Hd1|done|done|]. intros _. split; [left|].
      by exists p. }
  destruct (max_message_continuous_packet_count <=? wrap 64 (packet_count s + 1)).
  - destruct (Hupd 0) as (m1 & -> & Hwf1 & Hc1 & Hd1). cbn [res_bind].
    destruct (rotate m1 _ _ _ _ (wf_reps _ _ _ _ Hwf1)) as (m2 & m3 & -> & E3 & Hr3 & Hs3).
    cbn [res_bind]. rewrite E3. cbn [res_bind].
    exists m3, (wr ++ [i]), 0. split; [done|]. split; [|split; [|split]].
    + eapply wf_reorder; [exact Hwf1|done|done|]. set_solver.
    + rewrite Hc1. symmetry. apply contents_ext. intros j _. by rewrite (proj1 Hs3).
    + rewrite length_app. cbn. lia.
    + by rewrite (proj1 Hs3).
  - destruct (Hupd (wrap 64 (packet_count s + 1))) as (m1 & -> & Hwf1 & Hc1 & Hd1). cbn [res_bind].
    exists m1, (i :: wr), (wrap 64 (packet_count s + 1)). done.
Qed.

(** ** Filling a packet *)

(** A canceled message at the front of the write list is dropped. *)
Lemma drop_canceled m ord i wr ca s :
  wf m ord (i :: wr) ca -> at_idx (vec_data m) i = Some s -> isCanceled s = true ->
  exists m1 m2, write_erase m i = Done m1 /\ doUnprepareMessageStub m1 i = Done m2
    /\ let m3 := if current_synchronous_message_idx m2 =? i then set_sync m2 (InvalidIndex 64) else m2 in
       wf m3 ord wr (i :: ca) /\ (i ∉ ord)
       /\ vec_data m3 = <[Z.to_nat i := StubData_clear s]> (vec_data m).
Proof using Type.
  clear WE PV MS WC. intros Hwf Hs Hc. pose proof (wf_reps _ _ _ _ Hwf) as Hr. pose proof (w_data_in_vec _ _ _ Hs) as Hv.
  pose proof (repr_nodup _ _ _ _ (r_wr _ _ _ _ Hr)) as [Hnw _]%NoDup_cons.
  assert (Hnc : i ∉ ca) by (eapply r_disj; [exact Hr|left]).
  assert (Hno : i ∉ ord) by (destruct (wf_phase _ _ _ _ Hwf i s Hs); congruence || done).
  destruct (write_erase_spec m ord [] i wr ca Hr) as (m1 & E1 & Hr1 & Hd1 & Hy1). cbn [app] in Hr1.
  destruct (doUnprepare_spec m1 ord wr ca i s Hr1) as (m2 & E2 & Hr2 & Hd2 & Hy2); [congruence|done|done|].
  exists m1, m2. split; [done|]. split; [done|]. cbn zeta. rewrite Hd1 in Hd2.
  set (m3 := if current_synchronous_message_idx m2 =? i then set_sync m2 (InvalidIndex 64) else m2).
  assert (Hd3 : vec_data m3 = <[Z.to_nat i := StubData_clear s]> (vec_data m)) by (unfold m3; by case_match).
  assert (Hr3 : reps m3 ord wr (i :: ca)) by (unfold m3; case_match; [by apply reps_set_sync|done]).
  split; [|done]. eapply wf_change; [exact Hwf|exact Hv|exact Hr3|exact Hd3| | |].
  - intros j Hj. rewrite !elem_of_cons. tauto.
  - apply phase_cleared; [done|done|left].
  - unfold sync_ok, m3. destruct (Z.eqb_spec (current_synchronous_message_idx m2) i) as [E|E]; [by left|].
    destruct (wf_sync _ _ _ _ Hwf) as [Hsy|[Hsw (s0 & Hs0 & Hp0)]]; [left; congruence|right].
    rewrite Hy2, Hy1 in *. apply elem_of_cons in Hsw as [Hsw|Hsw]; [congruence|]. split; [done|].
    exists s0. split; [|done]. rewrite (at_idx_changed _ _ _ _ _ _ Hs Hd2). by rewrite decide_False by congruence.
Qed.

(** The contract of serializers: one that holds a message writes something into any room it
    is given, and uses all of the room if the message is not done. *)
Record serializer_contract (ready : Ser -> Prop) : Prop := {
  ready_push p x t : p = createSerializer \/ ser_empty p = true ->
    ready (ser_push (reset_serializer p) (Some x) t);
  ready_run ctx w p n w' p' rv bs : ready p -> 0 < n -> ser_run ctx w p n = (w', p', rv, bs) ->
    0 < rv /\ (ser_empty p' = false -> rv = n /\ ready p')
}.

Context (ready : Ser -> Prop).

Definition all_ready m : Prop :=
  forall i s p, at_idx (vec_data m) i = Some s -> isCanceled s = false -> serializer_ptr s = Some p -> ready p.

Definition tmp_ok (tmp : option Ser) : Prop := forall p, tmp = Some p -> ser_empty p = true.

Lemma all_ready_change m m' i s s' :
  all_ready m -> at_idx (vec_data m) i = Some s -> vec_data m' = <[Z.to_nat i := s']> (vec_data m) ->
  (forall p, isCanceled s' = false -> serializer_ptr s' = Some p -> ready p) -> all_ready m'.
Proof using Type.
  clear WE PV MS WC. intros Ha Hs Hd Hi j sj p. rewrite (at_idx_changed _ _ _ _ _ _ Hs Hd).
  destruct (decide (i = j)) as [<-|]; [intros [= <-]; apply Hi|apply Ha].
Qed.

Lemma set_sync_id m : set_sync m (current_synchronous_message_idx m) = m.
Proof using Type. clear WE PV MS WC. by destruct m. Qed.

(** [doPrepareMessageForSending], called with the message possibly just made the synchronous
    one: afterwards its serializer is there. *)
Lemma prepare_spec m ord wr ca i s tmp k :
  serializer_contract ready ->
  wf m ord wr ca -> all_ready m -> tmp_ok tmp -> i ∈ wr -> at_idx (vec_data m) i = Some s ->
  k = current_synchronous_message_idx m \/ k = i ->
  exists m' tmp' sw s', doPrepareMessageForSending (set_sync m k) i tmp = Done (m', tmp', sw)
    /\ wf m' ord wr ca /\ all_ready m' /\ tmp_ok tmp'
    /\ at_idx (vec_data m') i = Some s' /\ is_Some (serializer_ptr s')
    /\ content s' = content s /\ isCanceled s' = isCanceled s
    /\ contents m' ord = contents m ord
    /\ current_synchronous_message_idx m' = k /\ write_inner_list m' = write_inner_list m.
Proof using Type.
  intros Hcon Hwf Ha Ht Hi Hs Hk. pose proof (wf_reps _ _ _ _ Hwf) as Hr. pose proof (w_data_in_vec _ _ _ Hs) as Hv.
  assert (Hwfk : forall m', reps m' ord wr ca -> forall s', vec_data m' = <[Z.to_nat i := s']> (vec_data m) ->
            current_synchronous_message_idx m' = k -> is_Some (serializer_ptr s') ->
            phase_ok (i ∈ ord) (i ∈ wr) (i ∈ ca) s' -> wf m' ord wr ca).
  { intros m' Hr' s' Hd' Hy' Hp' Hph. eapply wf_change; [exact Hwf|exact Hv|exact Hr'|exact Hd'|done|done|].
    assert (Hs' : at_idx (vec_data m') i = Some s').
    { rewrite (at_idx_changed _ _ _ _ _ _ Hs Hd'). by rewrite decide_True. }
    destruct Hk as [Hk|Hk]; [|right; rewrite Hy', Hk; eauto].
    eapply sync_ok_change; [apply Hwf|exact Hv|exact Hd'|congruence|done|done]. }
  unfold doPrepareMessageForSending. rewrite w_stub_at_eq. change (vec_data (set_sync m k)) with (vec_data m).
  rewrite Hs. cbn [of_option res_bind]. destruct (serializer_ptr s) as [p|] eqn:Hp.
  - do 3 eexists. exists s. split; [done|]. split; [|split_and!; try done; by exists p].
    apply (Hwfk (set_sync m k) (reps_set_sync _ _ _ _ _ Hr) s); [|done|by exists p|by apply (wf_phase _ _ _ _ Hwf)].
    cbn. symmetry. apply list_insert_id. by apply at_idx_Some in Hs as [_ Hs].
  - assert (isCanceled s = false /\ (i ∈ ord) /\ exists x, message_ptr (msgbundle s) = Some x)
      as (Hcan & Ho & x & Hx).
    { destruct (wf_phase _ _ _ _ Hwf i s Hs) as [| ????[x Hx]| |????[? Hq]?]; try done; [|congruence]. eauto. }
    set (p0 := match tmp with Some t => t | None => createSerializer end).
    assert (Hp0 : p0 = createSerializer \/ ser_empty p0 = true).
    { unfold p0. destruct tmp as [t|]; [right; by apply Ht|by left]. }
    assert ((match tmp with Some t => (t, None) | None => (createSerializer, None) end) = (p0, @None Ser)) as ->
      by (by destruct tmp).
    set (b := set_flags (msgbundle s) _). set (p1 := ser_push _ _ _).
    set (s' := set_serializer (Some p1) (set_bundle b s)).
    destruct (w_upd_stub_spec (set_sync m k) ord wr ca i s' (reps_set_sync _ _ _ _ _ Hr) Hv) as (m1 & E1 & Hr1 & Hd1 & Hy1).
    assert (Hcs : isCanceled s' = false).
    { unfold isCanceled in *. cbn. clear -Hcan. by MessageFlags.flags. }
    rewrite E1. cbn [res_bind]. exists m1, None, PacketHeader.SwitchToNewMessageTypeE, s'. split; [done|].
    split; [|split; [|split; [|split; [|split; [|split; [|split; [|split; [|split]]]]]]]].
    + apply (Hwfk m1 Hr1 s'); [done|done|by exists p1|]. apply phase_write; [done|done| |done|by exists x].
      by eapply r_disj.
    + eapply all_ready_change; [exact Ha|exact Hs|exact Hd1|]. intros p _ [= <-].
      unfold p1. cbn. rewrite Hx. by apply Hcon.
    + by intros ? ?.
    + rewrite (at_idx_changed m m1 _ _ _ _ Hs Hd1). by rewrite decide_True.
    + by exists p1.
    + done.
    + congruence.
    + by apply (contents_change m m1 ord i s s' Hs Hd1).
    + done.
    + unfold upd_stub in E1. apply res_bind_done in E1 as (a & _ & [= <-]). done.
Qed.

(** The loop invariant of [doFillPacket]. The room the loop believes in is too large by the
    number of switch bytes, so the messages to write or pending, with those already in the
    packet, must not be more than [n0]. *)
Record fill_ok (cap n0 : Z) (f : filling) ord wr ca : Prop := {
  fo_wf : wf (f_writer f) ord wr ca;
  fo_ready : all_ready (f_writer f);
  fo_tmp : tmp_ok (f_tmp f);
  fo_len : Z.of_nat (length (f_out f)) + f_freesz f = cap + Z.max 0 (f_count f - 1);
  fo_cap : Z.of_nat (length (f_out f)) <= cap;
  fo_free : 0 <= f_freesz f < 2 ^ 32;
  fo_count : 0 <= f_count f;
  fo_room : f_count f + Z.of_nat (length wr) + Z.of_nat (length (pending (f_world f))) <= n0
    \/ f_freesz f < minimumFreePacketDataSize
}.

(** Nothing is lost between [f] and [f']: what was open or pending is open or pending, or has
    been completed. *)
Definition conserved (f f' : filling) ord ord' : Prop :=
  exists log, f_log f' = f_log f ++ log
    /\ contents (f_writer f) ord ++ pend (f_world f)
       ≡ₚ contents (f_writer f') ord' ++ pend (f_world f') ++ (completed <$> log).

Definition stopped_ok (cap : Z) (f f' : filling) ord wr : Prop :=
  exists ord' wr' ca', wf (f_writer f') ord' wr' ca' /\ all_ready (f_writer f')
    /\ Z.of_nat (length (f_out f')) <= cap /\ conserved f f' ord ord'
    /\ (length wr' + length (pending (f_world f')) <= length wr + length (pending (f_world f)))%nat.

(** A turn that goes on has written something or shortened the write list. *)
Definition turn_ok (cap n0 : Z) (f : filling) ord wr (st : step) : Prop :=
  match st with
  | FillContinue f' => exists ord' wr' ca', fill_ok cap n0 f' ord' wr' ca' /\ conserved f f' ord ord'
      /\ (length wr' + length (pending (f_world f')) <= length wr + length (pending (f_world f)))%nat
      /\ (length wr' <= Nat.max (length wr) (Z.to_nat max_message_count_multiplex))%nat
      /\ (f_freesz f' < f_freesz f \/ f_freesz f' = f_freesz f /\ (length wr' < length wr)%nat)
  | FillBreak f' => stopped_ok cap f f' ord wr
  | FillNull _ => False
  end.

Lemma conserved_refl f f' ord :
  f_log f' = f_log f -> f_world f' = f_world f -> contents (f_writer f') ord = contents (f_writer f) ord ->
  conserved f f' ord ord.
Proof using Type.
  clear WE PV MS WC. intros Hl Hw Hc. exists []. by rewrite !app_nil_r, Hc, Hw.
Qed.

Lemma conserved_trans f1 f2 f3 o1 o2 o3 : conserved f1 f2 o1 o2 -> conserved f2 f3 o2 o3 -> conserved f1 f3 o1 o3.
Proof using Type.
  clear WE PV MS WC. intros (l1 & E1 & P1) (l2 & E2 & P2). exists (l1 ++ l2). split.
  - by rewrite E2, E1, app_assoc.
  - rewrite P1, app_assoc, P2, fmap_app. solve_Permutation.
Qed.

(** The run of the serializer and what follows it. *)
Lemma run_message_spec m ord i wr ca s p w' p' ctx w n rv bs tmp err :
  serializer_contract ready -> callback_contract -> wf m ord (i :: wr) ca -> all_ready m -> tmp_ok tmp ->
  at_idx (vec_data m) i = Some s -> isCanceled s = false -> serializer_ptr s = Some p ->
  0 < n -> ser_run ctx w p n = (w', p', rv, bs) ->
  0 < rv /\ exists m1, upd_stub m i (set_serializer (Some p') s) = Done m1
    /\ exists w2 m2 tmp2 err2 log ord2 wr2 ca2,
      doTryCompleteMessageAfterSerialization w' m1 i tmp err = Done (w2, m2, tmp2, err2, log)
      /\ wf m2 ord2 wr2 ca2 /\ all_ready m2 /\ tmp_ok tmp2
      /\ contents m ord ++ pend w ≡ₚ contents m2 ord2 ++ pend w2 ++ (completed <$> log)
      /\ ((length wr2 + length (pending w2) <= length wr + length (pending w))%nat
           /\ (length wr2 <= Nat.max (length wr) (Z.to_nat max_message_count_multiplex))%nat
          \/ (length wr2 = S (length wr) /\ rv = n /\ pending w2 = pending w)).
Proof using Type.
  intros Hcon Hcb Hwf Ha Ht Hs Hcan Hp Hn Hrun. pose proof (wf_reps _ _ _ _ Hwf) as Hr.
  pose proof (w_data_in_vec _ _ _ Hs) as Hv.
  destruct (ready_run _ Hcon _ _ _ _ _ _ _ _ (Ha i s p Hs Hcan Hp) Hn Hrun) as [Hrv Hmore].
  pose proof (cb_run Hcb _ _ _ _ _ _ _ _ Hrun) as Hpd.
  split; [done|]. set (s1 := set_serializer (Some p') s).
  destruct (w_upd_stub_spec m _ _ _ i s1 Hr Hv) as (m1 & E1 & Hr1 & Hd1 & Hy1). exists m1. split; [done|].
  assert (Ho : i ∈ ord) by (destruct (wf_phase _ _ _ _ Hwf i s Hs) as [| | |]; try done; [destruct H0; left|congruence]).
  assert (Hs1 : at_idx (vec_data m1) i = Some s1).
  { rewrite (at_idx_changed _ _ _ _ _ _ Hs Hd1). by rewrite decide_True. }
  assert (Hwf1 : wf m1 ord (i :: wr) ca).
  { eapply wf_change; [exact Hwf|exact Hv|exact Hr1|exact Hd1|done| |].
    - destruct (wf_phase _ _ _ _ Hwf i s Hs); [congruence| |congruence|congruence]. by apply phase_write.
    - eapply sync_ok_change; [apply Hwf|exact Hv|exact Hd1|done|done|]. intros _. split; [left|by exists p']. }
  assert (Hc1 : contents m1 ord = contents m ord) by (by apply (contents_change m m1 ord i s s1)).
  destruct (ser_empty p') eqn:He.
  - destruct (tryComplete_done w' m1 ord i wr ca s1 p' tmp err)
      as (w2 & m2 & ord2 & wr2 & ca2 & tmp2 & err2 & log & E2 & Hwf2 & Hc2 & Ht2 & Hj & Hl2 & Hn2); [done..|].
    exists w2, m2, tmp2, err2, log, ord2, wr2, ca2. unfold pend in *. rewrite <- Hc1, <- Hpd.
    split_and!; try done; [| |by left].
    + intros j sj q Hsj Hcj Hq. destruct (Hj j sj Hsj) as [?|[Hne Hsj1]]; [congruence|].
      apply (Ha j sj q); [|done|done]. rewrite <- Hsj1.
      rewrite (at_idx_changed _ _ _ _ _ _ Hs Hd1). by rewrite decide_False by congruence.
    + rewrite Ht2. by intros ? [= <-].
  - destruct (Hmore eq_refl) as [Hrn Hrd].
    destruct (tryComplete_more w' m1 ord i wr ca s1 p' tmp err) as (m2 & wr2 & k & E2 & Hwf2 & Hc2 & Hl2 & Hd2); [done..|].
    exists w', m2, tmp, err, [], ord, wr2, ca. unfold pend. rewrite <- Hc1, Hc2, Hpd, app_nil_r.
    split_and!; try done; [|by right].
    rewrite Hd1, list_insert_insert_eq in Hd2.
    eapply all_ready_change; [exact Ha|exact Hs|exact Hd2|]. by intros q _ [= <-].
Qed.

Lemma length_wr m ord wr ca : reps m ord wr ca -> size (write_inner_list m) = Z.of_nat (length wr).
Proof using Type. clear WE PV MS WC. intros Hr. apply (repr_size _ _ _ _ (r_wr _ _ _ _ Hr)). Qed.

(** Preparing the message and storing its switch type: room is left for the message. *)
Lemma fill_switch_spec cap n0 f ord i wr ca s k :
  serializer_contract ready -> fill_ok cap n0 f ord (i :: wr) ca ->
  minimumFreePacketDataSize <= f_freesz f -> n0 <= minimumFreePacketDataSize -> n0 < 2 ^ 32 ->
  at_idx (vec_data (f_writer f)) i = Some s ->
  k = current_synchronous_message_idx (f_writer f) \/ k = i ->
  exists f' s', fill_switch cap (f_set_writer f (set_sync (f_writer f) k)) i = Done f'
    /\ wf (f_writer f') ord (i :: wr) ca /\ all_ready (f_writer f') /\ tmp_ok (f_tmp f')
    /\ at_idx (vec_data (f_writer f')) i = Some s' /\ is_Some (serializer_ptr s')
    /\ isCanceled s' = isCanceled s /\ conserved f f' ord ord
    /\ Z.of_nat (length (f_out f')) + f_freesz f' = cap + (f_count f' - 1)
    /\ Z.of_nat (length (f_out f')) < cap /\ f_freesz f' = f_freesz f
    /\ f_count f' = f_count f + 1 /\ f_world f' = f_world f
    /\ f_count f' + Z.of_nat (length wr) + Z.of_nat (length (pending (f_world f'))) <= n0
    /\ write_inner_list (f_writer f') = write_inner_list (f_writer f).
Proof using Type.
  intros Hcon [Hwf Ha Ht Hlen Hcap Hfree Hcnt Hroom] Hmin Hn0 Hn1 Hs Hk.
  destruct Hroom as [Hroom|?]; [|lia]. cbn [length] in Hroom.
  destruct (prepare_spec (f_writer f) ord (i :: wr) ca i s (f_tmp f) k)
    as (m' & tmp' & sw & s' & E & Hwf' & Ha' & Ht' & Hs' & Hp' & Hcs & Hcc & Hct & Hy' & Hw');
    [done..|left|done|done|].
  unfold fill_switch. cbn [f_writer f_set_writer f_tmp]. rewrite E. cbn [res_bind].
  cbn [f_count f_out f_freesz f_type f_world f_ctx f_err f_log f_set_writer].
  assert (Ew : wrap 64 (f_count f + 1) = f_count f + 1) by (apply wrap_small; unfold in_range; lia).
  destruct (Z.eqb_spec (f_count f) 0) as [E0|E0]; cbn [res_bind].
  - eexists _, s'. split; [done|]. cbn [f_writer f_tmp f_out f_freesz f_count f_world]. rewrite Ew.
    split_and!; try done; try lia. by apply conserved_refl.
  - rewrite length_app, length_storeValue8. rewrite (proj2 (Z.ltb_ge _ _)) by lia. cbn [res_bind].
    eexists _, s'. split; [done|]. cbn [f_writer f_tmp f_out f_freesz f_count f_world].
    rewrite Ew, length_app, length_storeValue8. split_and!; try done; try lia. by apply conserved_refl.
Qed.

(** Dropping or serializing the message at the front of the write list. *)
Lemma fill_message_spec cap n0 f ord i wr ca s :
  serializer_contract ready -> callback_contract -> wf (f_writer f) ord (i :: wr) ca -> all_ready (f_writer f) ->
  tmp_ok (f_tmp f) -> at_idx (vec_data (f_writer f)) i = Some s -> is_Some (serializer_ptr s) ->
  Z.of_nat (length (f_out f)) + f_freesz f = cap + (f_count f - 1) ->
  Z.of_nat (length (f_out f)) < cap -> 0 <= f_freesz f < 2 ^ 32 -> 1 <= f_count f ->
  f_count f + Z.of_nat (length wr) + Z.of_nat (length (pending (f_world f))) <= n0 ->
  n0 <= minimumFreePacketDataSize -> exists st, fill_message cap f i = Done st /\ turn_ok cap n0 f ord (i :: wr) st.
Proof using Type.
  intros Hcon Hcb Hwf Ha Ht Hs [p Hp] Hlen Hcap Hfree Hcnt Hroom Hn0.
  unfold fill_message. rewrite w_stub_at_eq, Hs. cbn [of_option res_bind].
  destruct (isCanceled s) eqn:Hcan.
  - destruct (drop_canceled _ ord i wr ca s Hwf Hs Hcan) as (m1 & m2 & -> & E2 & Hwf3 & Hno & Hd3).
    cbn [res_bind]. rewrite E2. cbn [res_bind]. eexists. split; [done|]. cbn [turn_ok].
    exists ord, wr, (i :: ca). split; [|split; [|cbn; lia]].
    + constructor; cbn [f_writer f_set_writer f_tmp f_out f_freesz f_count f_world]; try done; try lia.
      eapply all_ready_change; [exact Ha|exact Hs|exact Hd3|done].
    + apply conserved_refl; [done|done|]. apply contents_ext. intros j Hj. cbn [f_writer f_set_writer].
      rewrite (at_idx_changed _ _ _ _ _ _ Hs Hd3). rewrite decide_False; [done|]. by intros ->.
  - assert (exists x, message_ptr (msgbundle s) = Some x) as [x Hx].
    { destruct (wf_phase _ _ _ _ Hwf i s Hs) as [H1 H2| ????[x Hx]|H1 H2|]; [destruct H2; left|eauto|destruct H2; left|congruence]. }
    rewrite Hx, Hp. cbn [of_option res_bind].
    destruct (ser_run _ (f_world f) p _) as [[[w' p'] rv] bs] eqn:Hrun.
    assert (Hn : 0 < cap - Z.of_nat (length (f_out f))) by lia.
    destruct (run_message_spec _ ord i wr ca s p w' p' _ _ _ rv bs (f_tmp f) (f_err f) Hcon Hcb Hwf Ha Ht Hs Hcan Hp
      Hn Hrun) as (Hrv & m1 & -> & w2 & m2 & tmp2 & err2 & log & ord2 & wr2 & ca2 & E & Hwf2 & Ha2 & Ht2 & Hc2 & Hw2).
    cbn [res_bind]. rewrite (proj2 (Z.ltb_lt 0 rv)) by done. rewrite E. cbn [res_bind].
    destruct (ser_run_bounds _ _ _ _ _ _ _ _ Hrun Hrv) as [Hbs Hle].
    assert (Ewr : wrap 32 (f_freesz f - rv) = f_freesz f - rv) by (apply wrap_small; unfold in_range; lia).
    assert (Hl2 : (length wr2 + length (pending w2) <= S (length wr) + length (pending (f_world f)))%nat)
      by (destruct Hw2 as [[? _]|(-> & _ & ->)]; lia).
    assert (Hn2 : (length wr2 <= Nat.max (S (length wr)) (Z.to_nat max_message_count_multiplex))%nat)
      by (destruct Hw2 as [[_ ?]|(-> & _)]; lia).
    rewrite Ewr. set (f' := mkFilling _ _ _ _ _ _ _ _ _ _).
    assert (Hcv : conserved f f' ord ord2) by (by exists log).
    destruct err2 as [e|]; eexists; (split; [done|]); cbn [turn_ok].
    + exists ord2, wr2, ca2. split; [done|]. split; [done|]. split; [|split; [done|]].
      * cbn [f_out f']. rewrite length_app. lia.
      * cbn [length f_world f']. lia.
    + exists ord2, wr2, ca2. split; [|split; [done|cbn [length f_freesz f_world f']; lia]].
      constructor; cbn [f_writer f_tmp f_out f_freesz f_count f_world f']; try done; try lia; rewrite ?length_app; try lia.
Qed.

(** One turn: it makes progress, or takes a synchronous message out of the way of the
    current one. *)
Lemma fill_turn_spec cap n0 f ord i wr ca :
  serializer_contract ready -> callback_contract -> fill_ok cap n0 f ord (i :: wr) ca ->
  minimumFreePacketDataSize <= f_freesz f -> n0 <= minimumFreePacketDataSize -> n0 < 2 ^ 32 ->
  exists st, fill_turn cap f = Done st
    /\ (turn_ok cap n0 f ord (i :: wr) st
        \/ exists f', st = FillContinue f' /\ fill_ok cap n0 f' ord (wr ++ [i]) ca /\ conserved f f' ord ord
            /\ f_freesz f' = f_freesz f /\ f_world f' = f_world f
            /\ current_synchronous_message_idx (f_writer f') = current_synchronous_message_idx (f_writer f)
            /\ current_synchronous_message_idx (f_writer f) ∈ wr
            /\ current_synchronous_message_idx (f_writer f) <> i).
Proof using Type.
  intros Hcon Hcb Hok Hmin Hn0 Hn1. pose proof (fo_wf _ _ _ _ _ _ Hok) as Hwf.
  pose proof (wf_reps _ _ _ _ Hwf) as Hr.
  assert (Hv : in_vec (message_vec (f_writer f)) i) by (apply (repr_in_vec _ _ _ _ _ (r_wr _ _ _ _ Hr)); left).
  destruct (w_in_vec_data _ i Hv) as [s Hs].
  unfold fill_turn. assert (frontIndex (write_inner_list (f_writer f)) = i) as ->.
  { apply (repr_front _ _ _ _ (r_wr _ _ _ _ Hr)). }
  rewrite w_stub_at_eq, Hs. cbn [of_option res_bind].
  set (mine := _ || _). destruct (MessageFlags.is_synchronous _ && negb mine) eqn:Hrot.
  - apply andb_true_iff in Hrot as [_ Hmine]. unfold mine in Hmine. rewrite negb_orb in Hmine.
    apply andb_true_iff in Hmine as [H1 H2]. apply negb_true_iff, Z.eqb_neq in H1, H2.
    destruct (rotate _ _ _ _ _ Hr) as (m1 & m2 & -> & E2 & Hr2 & Hst). cbn [res_bind]. rewrite E2. cbn [res_bind].
    eexists. split; [done|]. right. eexists. split; [done|].
    assert (Hwf2 : wf m2 ord (wr ++ [i]) ca) by (eapply wf_reorder; [exact Hwf|done|done|set_solver]).
    destruct Hok as [_ Ha Ht Hlen Hcap Hfree Hcnt Hroom]. split; [|split; [|split; [done|split; [done|split; [apply Hst|split; [|done]]]]]].
    + constructor; cbn [f_writer f_set_writer f_tmp f_out f_freesz f_count f_world]; try done.
      * intros j sj q. rewrite (proj1 Hst). apply Ha.
      * rewrite length_app. cbn in *. lia.
    + apply conserved_refl; [done|done|]. apply contents_ext. intros j _. cbn. by rewrite (proj1 Hst).
    + destruct (wf_sync _ _ _ _ Hwf) as [?|[Hw _]]; [done|]. by apply elem_of_cons in Hw as [?|?].
  - set (k := if MessageFlags.is_synchronous (message_flags (msgbundle s)) then i
              else current_synchronous_message_idx (f_writer f)).
    assert ((if MessageFlags.is_synchronous (message_flags (msgbundle s))
             then f_set_writer f (set_sync (f_writer f) i) else f)
            = f_set_writer f (set_sync (f_writer f) k)) as ->.
    { unfold k. case_match; [done|]. rewrite set_sync_id. by destruct f. }
    destruct (fill_switch_spec cap n0 f ord i wr ca s k Hcon Hok Hmin Hn0 Hn1 Hs)
      as (f' & s' & -> & Hwf' & Ha' & Ht' & Hs' & Hp' & Hcc & Hcv & Hl' & Hc' & Hf' & Hcnt' & Hw' & Hroom' & _).
    { unfold k. case_match; auto. }
    cbn [res_bind]. pose proof (fo_count _ _ _ _ _ _ Hok). pose proof (fo_free _ _ _ _ _ _ Hok).
    destruct (fill_message_spec cap n0 f' ord i wr ca s') as (st & E & Hturn); [done..|lia|lia|done|done|].
    exists st. split; [done|]. left. destruct st as [f2|f2|f2]; cbn [turn_ok] in *; [| |done].
    + destruct Hturn as (ord2 & wr2 & ca2 & H1 & H2 & H3 & H4 & H5). exists ord2, wr2, ca2.
      rewrite Hw' in H3. split_and!; try done; [by apply (conserved_trans f f' f2 ord ord ord2)|lia].
    + destruct Hturn as (ord2 & wr2 & ca2 & H1 & H2 & H3 & H4 & H5). exists ord2, wr2, ca2.
      rewrite Hw' in H5. split_and!; try done. by apply (conserved_trans f f' f2 ord ord ord2).
Qed.

(** The distance of a message from the front. *)
Fixpoint pos (k : Z) (wr : list Z) : nat :=
  match wr with
  | [] => 0
  | x :: wr => if decide (x = k) then 0 else S (pos k wr)
  end.

Lemma pos_le k wr : (pos k wr <= length wr)%nat.
Proof using Type. clear WE PV MS WC. induction wr as [|x wr IH]; cbn; [lia|]. case_decide; lia. Qed.

Lemma pos_snoc k wr i : k ∈ wr -> pos k (wr ++ [i]) = pos k wr.
Proof using Type.
  clear WE PV MS WC. induction wr as [|x wr IH]; cbn; [by intros ?%not_elem_of_nil|].
  intros Hk. destruct (decide (x = k)) as [|Hne]; [done|]. f_equal. apply IH.
  by apply elem_of_cons in Hk as [->|Hk].
Qed.

(** The lexicographic measure of the loop. *)
Lemma lex_less (a a' k x x' : nat) : (a' < a)%nat -> (x' < k)%nat -> (a' * k + x' < a * k + x)%nat.
Proof using Type.
  clear WE PV MS WC. intros Ha Hx. pose proof (Nat.mul_le_mono_r (S a') a k Ha). cbn in *. lia.
Qed.

Lemma fill_loop_spec fuel cap n0 N f ord wr ca :
  serializer_contract ready -> callback_contract -> n0 <= minimumFreePacketDataSize -> n0 < 2 ^ 32 ->
  fill_ok cap n0 f ord wr ca -> (length wr <= N)%nat -> (Z.to_nat max_message_count_multiplex <= N)%nat ->
  ((Z.to_nat (f_freesz f) * S N + length wr) * S N
   + pos (current_synchronous_message_idx (f_writer f)) wr < fuel)%nat ->
  exists f', fill_loop fuel cap f = Done (f', false) /\ stopped_ok cap f f' ord wr.
Proof using Type.
  intros Hcon Hcb Hn0 Hn1. revert f ord wr ca. induction fuel as [|fuel IH]; intros f ord wr ca Hok HN HM Hfuel; [lia|].
  cbn [fill_loop]. pose proof (fo_wf _ _ _ _ _ _ Hok) as Hwf. pose proof (wf_reps _ _ _ _ Hwf) as Hr.
  rewrite (length_wr _ _ _ _ Hr).
  destruct (negb (Z.of_nat (length wr) =? 0) && (minimumFreePacketDataSize <=? f_freesz f)) eqn:Hgo.
  2:{ exists f. split; [done|]. exists ord, wr, ca. destruct Hok. split_and!; try done. by apply conserved_refl. }
  apply andb_true_iff in Hgo as [Hne Hmin]. apply Z.leb_le in Hmin.
  destruct wr as [|i wr]; [done|]. pose proof (fo_free _ _ _ _ _ _ Hok) as Hfree.
  destruct (fill_turn_spec cap n0 f ord i wr ca Hcon Hcb Hok Hmin Hn0 Hn1) as (st & -> & Hst). cbn [res_bind].
  assert (Hnext : forall f1 ord1 wr1 ca1, fill_ok cap n0 f1 ord1 wr1 ca1 -> conserved f f1 ord ord1 ->
            (length wr1 + length (pending (f_world f1)) <= length (i :: wr) + length (pending (f_world f)))%nat ->
            (length wr1 <= N)%nat -> ((Z.to_nat (f_freesz f1) * S N + length wr1) * S N
             + pos (current_synchronous_message_idx (f_writer f1)) wr1 < fuel)%nat ->
            exists f', fill_loop fuel cap f1 = Done (f', false) /\ stopped_ok cap f f' ord (i :: wr)).
  { intros f1 ord1 wr1 ca1 Hok1 Hcv1 Hl1 HN1 Hf1.
    destruct (IH f1 ord1 wr1 ca1) as (f' & E & ord2 & wr2 & ca2 & H1 & H2 & H3 & H4 & H5); [done|lia|done|done|].
    exists f'. split; [done|]. exists ord2, wr2, ca2. split_and!; try done; [by apply (conserved_trans f f1 f' ord ord1 ord2)|lia]. }
  destruct Hst as [Hst|(f1 & -> & Hok1 & Hcv1 & Hfr & Hfw & Hsy & Hk & Hki)].
  - destruct st as [f1|f1|f1]; cbn [turn_ok] in Hst; [|by exists f1|done].
    destruct Hst as (ord1 & wr1 & ca1 & Hok1 & Hcv1 & Hl1 & Hm1 & Hlt).
    apply (Hnext f1 ord1 wr1 ca1); try done; [lia|].
    pose proof (pos_le (current_synchronous_message_idx (f_writer f1)) wr1).
    pose proof (fo_free _ _ _ _ _ _ Hok1).
    assert (Z.to_nat (f_freesz f1) * S N + length wr1 < Z.to_nat (f_freesz f) * S N + length (i :: wr))%nat as Hless.
    { destruct Hlt as [Hlt|[-> Hlt]]; [|lia]. apply lex_less; lia. }
    pose proof (lex_less _ _ (S N) (pos (current_synchronous_message_idx (f_writer f)) (i :: wr))
      (pos (current_synchronous_message_idx (f_writer f1)) wr1) Hless ltac:(lia)). lia.
  - apply (Hnext f1 ord (wr ++ [i]) ca); try done; [rewrite length_app, Hfw; cbn; lia|rewrite length_app; cbn in *; lia|].
    rewrite Hfr, Hsy, pos_snoc, length_app by done. cbn [pos] in Hfuel.
    rewrite decide_False in Hfuel by congruence. cbn [length] in *. lia.
Qed.

(** ** Writing *)

(** Compression works in place: it does not make the data longer. *)
Definition compression_contract : Prop :=
  forall d c buf e, inplace_compress_fnc d = (c, buf, e) ->
    0 <= c <= Z.of_nat (length d) /\ length buf = length d.

Abbreviation writing := (@Writing World Ser Msg Fn Err).

(** The loop invariant of [write], from the world [w] and the writer [m] with the open
    messages [ord] on. *)
Record write_ok (_bufsz n0 : Z) w m ord (st : writing) ord' wr' ca' : Prop := {
  wo_wf : wf (w_writer st) ord' wr' ca';
  wo_ready : all_ready (w_writer st);
  wo_wr : Z.of_nat (length wr') + Z.of_nat (length (pending (w_world st))) <= n0;
  wo_out : Z.of_nat (length (w_out st)) <= _bufsz;
  wo_free : w_freesz st = _bufsz - Z.of_nat (length (w_out st));
  wo_cons : contents m ord ++ pend w
    ≡ₚ contents (w_writer st) ord' ++ pend (w_world st) ++ (completed <$> w_log st)
}.

(** [doFillPacket] on a well-formed writer with few enough messages to write. *)
Lemma doFillPacket_spec cap n0 w m ctx ty err ord wr ca :
  serializer_contract ready -> callback_contract -> n0 <= minimumFreePacketDataSize -> n0 < 2 ^ 32 ->
  wf m ord wr ca -> all_ready m -> Z.of_nat (length wr) + Z.of_nat (length (pending w)) <= n0 ->
  0 <= cap < 2 ^ 32 ->
  exists f ord' wr' ca', doFillPacket cap w m ctx ty err = Done (f, false)
    /\ wf (f_writer f) ord' wr' ca' /\ all_ready (f_writer f)
    /\ (length wr' + length (pending (f_world f)) <= length wr + length (pending w))%nat
    /\ Z.of_nat (length (f_out f)) <= cap
    /\ contents m ord ++ pend w ≡ₚ contents (f_writer f) ord' ++ pend (f_world f) ++ (completed <$> f_log f).
Proof using Type.
  intros Hcon Hcb Hn0 Hn1 Hwf Ha Hl Hcap. pose proof (wf_reps _ _ _ _ Hwf) as Hr.
  unfold doFillPacket. set (f0 := mkFilling w m ctx None [] (wrap 32 cap) 0 ty err []).
  assert (Ewr : wrap 32 cap = cap) by (by apply wrap_small).
  destruct (fill_loop_spec (fill_fuel cap m) cap n0
    (Nat.max (length wr) (Z.to_nat max_message_count_multiplex)) f0 ord wr ca)
    as (f & E & ord' & wr' & ca' & H1 & H2 & H3 & (log & E4 & P4) & H5); [done..| |lia|lia| |].
  - constructor; cbn [f_writer f_tmp f_out f_freesz f_count f_world length f0]; rewrite ?Ewr; try done; lia || (left; lia).
  - cbn [f_freesz f_writer f0]. rewrite Ewr. unfold fill_fuel.
    rewrite (length_wr _ _ _ _ Hr), Nat2Z.id.
    pose proof (pos_le (current_synchronous_message_idx m) wr). lia.
  - exists f, ord', wr', ca'. cbn [f_log app f0] in E4. rewrite E4. split_and!; try done.
Qed.

(** A packet goes into the room that is left. *)
Lemma write_packet_spec _bufsz n0 w m ord (st : writing) f ord' wr' ca' :
  compression_contract -> 0 <= _bufsz < 2 ^ 32 ->
  Z.of_nat (length (w_out st)) <= _bufsz -> w_freesz st = _bufsz - Z.of_nat (length (w_out st)) ->
  wf (f_writer f) ord' wr' ca' -> all_ready (f_writer f) ->
  Z.of_nat (length wr') + Z.of_nat (length (pending (f_world f))) <= n0 ->
  Z.of_nat (length (w_out st)) + 4 + Z.of_nat (length (f_out f)) <= _bufsz ->
  contents m ord ++ pend w
    ≡ₚ contents (f_writer f) ord' ++ pend (f_world f) ++ (completed <$> (w_log st ++ f_log f)) ->
  let st' := write_packet f st _bufsz in
  write_ok _bufsz n0 w m ord st' ord' wr' ca'
  /\ ((length (w_out st) < length (w_out st'))%nat \/ (w_more st' = false /\ w_out st' = w_out st)).
Proof using Type.
  intros Hz Hb Hout Hfree Hwf Ha Hl Hroom Hcons. cbn zeta. unfold write_packet.
  destruct (inplace_compress_fnc (f_out f)) as [[c buf] e] eqn:Ec.
  destruct (Hz _ _ _ _ Ec) as [Hc Hbuf].
  assert (Hemit : forall h (d : list Z) more err log, (length d <= length (f_out f))%nat -> log = w_log st ++ f_log f ->
            write_ok _bufsz n0 w m ord
              (mkWriting (f_world f) (f_writer f) (f_ctx f) (w_out st ++ PacketHeader.store h ++ d)
                 (wrap 32 (_bufsz - Z.of_nat (length (w_out st ++ PacketHeader.store h ++ d)))) more err log)
              ord' wr' ca'
            /\ (length (w_out st) < length (w_out st ++ PacketHeader.store h ++ d))%nat).
  { intros h d more err log Hd ->. rewrite !length_app, PacketHeader.length_store. split; [|lia].
    constructor; cbn [w_writer w_out w_freesz w_log w_world]; rewrite ?length_app, ?PacketHeader.length_store; try done; [lia|].
    apply wrap_small. unfold in_range. lia. }
  destruct (c =? 0); cbn [negb]; [destruct e as [e|]|].
  { split; [|right; by split]. by constructor. }
  all: match goal with |- write_ok _ _ _ _ _ (mkWriting _ _ _ (_ ++ PacketHeader.store ?h ++ ?d) _ ?mo ?er ?lg) _ _ _ /\ _ =>
      destruct (Hemit h d mo er lg) as [H1 H2]; [rewrite length_take; lia|done|] end.
  all: split; [exact H1|left; exact H2].
Qed.

Lemma write_loop_spec fuel _bufsz n0 w m ord (st : writing) ord' wr' ca' :
  serializer_contract ready -> callback_contract -> compression_contract ->
  n0 <= minimumFreePacketDataSize -> n0 < 2 ^ 32 -> 0 <= minimumFreePacketDataSize -> 0 <= _bufsz < 2 ^ 32 ->
  write_ok _bufsz n0 w m ord st ord' wr' ca' ->
  (Z.to_nat _bufsz - length (w_out st) + (if w_more st then 1 else 0) < fuel)%nat ->
  exists st' ord2 wr2 ca2, write_loop fuel _bufsz st = Done st' /\ write_ok _bufsz n0 w m ord st' ord2 wr2 ca2.
Proof using Type.
  intros Hcon Hcb Hz Hn0 Hn1 Hmin Hb. revert st ord' wr' ca'.
  induction fuel as [|fuel IH]; intros st ord' wr' ca' [Hwf Ha Hl Hout Hfree Hcons] Hfuel; [lia|].
  cbn [write_loop]. unfold PacketHeader.SizeOfE.
  destruct (Z.leb_spec (4 + minimumFreePacketDataSize) (w_freesz st)) as [Hge|Hge]; cbn [andb]; [|by eauto 10 using Build_write_ok].
  destruct (w_more st) eqn:Hmore; [|by eauto 10 using Build_write_ok].
  set (cap := _bufsz - Z.of_nat (length (w_out st)) - 4).
  destruct (doFillPacket_spec cap n0 (w_world st) (w_writer st) (w_ctx st) PacketHeader.SwitchToNewMessageTypeE
    (w_err st) ord' wr' ca') as (f & ord2 & wr2 & ca2 & -> & Hwf2 & Ha2 & Hl2 & Hcap & Hcons2);
    [done..|unfold cap; lia|]. cbn [res_bind].
  assert (Hc : contents m ord ++ pend w
    ≡ₚ contents (f_writer f) ord2 ++ pend (f_world f) ++ (completed <$> (w_log st ++ f_log f))).
  { rewrite Hcons, app_assoc, Hcons2, fmap_app. solve_Permutation. }
  destruct (f_out f) as [|x data] eqn:Ef.
  - eapply IH; [constructor; cbn [w_writer w_out w_freesz w_log w_world]; try done; lia|]. cbn [w_out w_more]. lia.
  - destruct (write_packet_spec _bufsz n0 w m ord st f ord2 wr2 ca2) as [Hok Hprog]; try done; [lia|rewrite Ef; unfold cap in *; lia|].
    eapply IH; [exact Hok|]. pose proof (wo_out _ _ _ _ _ _ _ _ _ Hok).
    destruct Hprog as [Hp|[-> ->]]; [case_match; lia|lia].
Qed.

(** C4: writing is safe and loses nothing, as long as not more messages are queued for
    writing or pending behind the callback than [minimumFreePacketDataSize] bytes: with
    serializers, a completion callback (which may enqueue pending messages) and a compression
    that keep their contracts, [write] terminates without an access outside the buffer or
    through a null pointer, puts at most [_bufsz] bytes in it, and keeps the invariant of the
    lists; every message that was open or pending is still open or pending, or has been handed
    to the completion callback exactly once. *)
Theorem write_correct (w : World) m (ctx : Context) (_bufsz : Z) (_keep_alive : bool)
    (_rerror : option Err) ord wr ca :
  serializer_contract ready -> callback_contract -> compression_contract -> wf m ord wr ca -> all_ready m ->
  Z.of_nat (length wr) + Z.of_nat (length (pending w)) <= minimumFreePacketDataSize < 2 ^ 32 ->
  0 <= _bufsz < 2 ^ 32 -> (_keep_alive = true -> 4 <= _bufsz) ->
  exists st ord' wr' ca', write w m ctx _bufsz _keep_alive _rerror = Done st
    /\ Z.of_nat (length (w_out st)) <= _bufsz
    /\ wf (w_writer st) ord' wr' ca' /\ all_ready (w_writer st)
    /\ contents m ord ++ pend w
       ≡ₚ contents (w_writer st) ord' ++ pend (w_world st) ++ (completed <$> w_log st).
Proof using Type.
  intros Hcon Hcb Hz Hwf Ha Hl Hb Hk. unfold write.
  destruct (write_loop_spec (Z.to_nat _bufsz + 2) _bufsz (Z.of_nat (length wr) + Z.of_nat (length (pending w))) w m ord
    (mkWriting w m ctx [] (wrap 32 _bufsz) true _rerror []) ord wr ca)
    as (st & ord2 & wr2 & ca2 & -> & Hok); [done|done|done|lia..| |cbn; lia|].
  { constructor; cbn [w_writer w_out w_freesz w_log w_world length]; try done; try lia.
    - rewrite wrap_small by done. lia.
    - by rewrite app_nil_r. }
  cbn [res_bind]. destruct Hok as [Hwf2 Ha2 _ Hout _ Hcons].
  destruct (w_err st); [by eauto 10|]. destruct (_ && _keep_alive) eqn:Eka; [|by eauto 10].
  apply andb_true_iff in Eka as [_ Eka]. specialize (Hk Eka). unfold PacketHeader.SizeOfE.
  rewrite (proj2 (Z.ltb_ge _ _)) by lia. eexists _, ord2, wr2, ca2. split; [done|].
  cbn [w_out w_writer w_log w_world]. rewrite PacketHeader.length_store. split_and!; [lia|done..].
Qed.

End Callback.

(** ** Visiting *)

Lemma upd_stub_same m i s : at_idx (vec_data m) i = Some s -> upd_stub m i s = Done m.
Proof using Type.
  clear WE PV MS WC. intros Hs. unfold upd_stub. destruct (in_vec_at _ _ (w_data_in_vec _ _ _ Hs)) as [a Ha].
  rewrite Ha. cbn [of_option res_bind]. apply at_idx_Some in Ha as [_ Ha], Hs as [_ Hs].
  unfold vec_data in Hs. rewrite list_lookup_fmap, Ha in Hs. injection Hs as <-.
  assert (mkStub (inner_link a) (data a) = a) as -> by (by destruct a).
  rewrite list_insert_id by done. by destruct m.
Qed.

(** The visits of the messages with the given indexes, in this order. *)
Fixpoint visits (visit : World -> bundle -> MessageId -> World * bundle) m (w : World) (idxs : list Z) : World :=
  match idxs with
  | [] => w
  | i :: idxs =>
      match at_idx (vec_data m) i with
      | Some s => visits visit m (visit w (msgbundle s) (pool_msg_id s)).1 idxs
      | None => w
      end
  end.

Lemma forEvery_loop_spec (visit : World -> bundle -> MessageId -> World * bundle) fuel w m xs ys wr ca :
  (forall w b id, (visit w b id).2 = b) -> wf m (xs ++ ys) wr ca -> (length ys < fuel)%nat ->
  forEvery_loop visit fuel w m (hd nil_idx ys) = Done (visits visit m w ys, m, true).
Proof using Type.
  clear WE PV MS WC. intros Hv Hwf. revert w xs ys Hwf. induction fuel as [|fuel IH]; intros w xs ys Hwf Hf; [lia|].
  pose proof (wf_reps _ _ _ _ Hwf) as Hr. cbn [forEvery_loop]. change (InvalidIndex 64) with nil_idx.
  destruct ys as [|y ys]; cbn [hd]; [by rewrite Z.eqb_refl|].
  assert (Hin : y ∈ xs ++ y :: ys) by set_solver.
  rewrite (repr_neqb _ _ _ _ y (r_small _ _ _ _ Hr) (r_ord _ _ _ _ Hr) Hin).
  destruct (w_in_vec_data m y) as [s Hs]; [by apply (repr_in_vec _ _ _ _ _ (r_ord _ _ _ _ Hr))|].
  assert (exists x, message_ptr (msgbundle s) = Some x) as [x Hx].
  { by destruct (wf_phase _ _ _ _ Hwf y s Hs) as [|????[??]|????[??]|]; eauto. }
  rewrite w_stub_at_eq, Hs. cbn [of_option res_bind visits]. rewrite Hs, Hx.
  pose proof (Hv w (msgbundle s) (pool_msg_id s)) as Eb.
  destruct (visit w (msgbundle s) (pool_msg_id s)) as [w' b']. cbn [snd fst] in *. subst b'.
  assert (set_bundle (msgbundle s) s = s) as -> by (by destruct s).
  rewrite (upd_stub_same m y s Hs). cbn [res_bind]. rewrite Hx. unfold previousIndex.
  pose proof (repr_chain _ _ _ _ (r_ord _ _ _ _ Hr)) as [_ [-> _]]%chain_app.
  cbn [fmap option_fmap option_map of_option res_bind prev].
  apply (IH w' (xs ++ [y]) ys); [by rewrite <- app_assoc|cbn in Hf; lia].
Qed.

(** [forEveryMessagesNewerToOlder] visits every open message exactly once, and in the
    order in which the messages were enqueued, the oldest first, unlike its name says; with a
    visitor that takes no message away it leaves the writer as it was. *)
Theorem forEvery_visits (visit : World -> bundle -> MessageId -> World * bundle) (w : World) m ord wr ca :
  (forall w b id, (visit w b id).2 = b) -> wf m ord wr ca ->
  forEveryMessagesNewerToOlder visit w m = Done (visits visit m w ord, m, true).
Proof using Type.
  clear WE PV MS WC. intros Hv Hwf. pose proof (r_ord _ _ _ _ (wf_reps _ _ _ _ Hwf)) as Hr.
  unfold forEveryMessagesNewerToOlder, frontIndex. rewrite (repr_front _ _ _ _ Hr).
  apply (forEvery_loop_spec visit _ w m [] ord wr ca); [done|done|].
  assert (length ord <= length (message_vec m))%nat; [|lia].
  apply nodup_length; [apply Hr|by intros; eapply repr_in_vec].
Qed.

(** *** A visitor that takes messages away *)

(** The stub [i] holds a message; it is in the write list exactly when it waits for no response. *)
Definition takeable m wr ca i s : Prop :=
  at_idx (vec_data m) i = Some s /\ is_Some (message_ptr (msgbundle s)) /\ (i ∉ ca)
  /\ (if MessageFlags.is_waiting_response (message_flags (msgbundle s)) then i ∉ wr else i ∈ wr).

(** No request is still in the write list. *)
Definition no_queued_request m ord wr : Prop :=
  forall i s, i ∈ ord -> at_idx (vec_data m) i = Some s -> MessageFlags.is_waiting_response (message_flags (msgbundle s)) = true -> i ∉ wr.

Lemma wf_takeable m ord wr ca i s :
  wf m ord wr ca -> no_queued_request m ord wr -> i ∈ ord -> at_idx (vec_data m) i = Some s -> takeable m wr ca i s.
Proof using Type.
  clear WE PV MS WC. intros Hwf Hq Hi Hs. specialize (Hq i s Hi Hs). split; [done|].
  destruct (wf_phase _ _ _ _ Hwf i s Hs) as [| |????? E|]; try done; [|by rewrite E].
  split_and!; try done. destruct (MessageFlags.is_waiting_response _); [by apply Hq|done].
Qed.

(** A message that was taken away leaves the lists. *)
Lemma taken_stub m xs y ys wr ca s b :
  reps m (xs ++ y :: ys) wr ca -> takeable m wr ca y s ->
  exists m1 m2 m3 m4 wr', upd_stub m y (set_bundle b s) = Done m1
    /\ (if negb (MessageFlags.is_waiting_response (message_flags (msgbundle s))) then write_erase m1 y else Done m1) = Done m2
    /\ previousIndex InnerLinkOrder (message_vec m2) y = Some (hd nil_idx ys)
    /\ order_erase m2 y = Done m3 /\ doUnprepareMessageStub m3 y = Done m4
    /\ reps m4 (xs ++ ys) wr' (y :: ca)
    /\ forall j sj, j <> y -> takeable m wr ca j sj -> takeable m4 wr' (y :: ca) j sj.
Proof using Type.
  clear WE PV MS WC. intros Hr (Hs & _ & Hnc & Hw). pose proof (w_data_in_vec _ _ _ Hs) as Hv.
  destruct (w_upd_stub_spec m _ _ _ y (set_bundle b s) Hr Hv) as (m1 & E1 & Hr1 & Hd1 & _).
  assert (exists m2 wr', (if negb (MessageFlags.is_waiting_response (message_flags (msgbundle s))) then write_erase m1 y else Done m1) = Done m2
    /\ reps m2 (xs ++ y :: ys) wr' ca /\ vec_data m2 = vec_data m1 /\ (y ∉ wr') /\ forall j, j <> y -> j ∈ wr' <-> j ∈ wr)
    as (m2 & wr' & E2 & Hr2 & Hd2 & Hnw & Hjw).
  { destruct (MessageFlags.is_waiting_response _); cbn [negb]; [by exists m1, wr|].
    apply list_elem_of_split in Hw as (zs & ws & ->).
    destruct (nodup_remove zs ws y (repr_nodup _ _ _ _ (r_wr _ _ _ _ Hr))) as [Hni Hne].
    destruct (write_erase_spec m1 _ _ _ _ _ Hr1) as (m2 & -> & Hr2 & Hd2 & _). by exists m2, (zs ++ ws). }
  destruct (w_order_erase_spec m2 _ _ _ _ _ Hr2) as (m3 & E3 & Hr3 & Hd3 & _).
  assert (Hs3 : at_idx (vec_data m3) y = Some (set_bundle b s)).
  { rewrite Hd3, Hd2, (at_idx_changed _ _ _ _ _ _ Hs Hd1). by rewrite decide_True. }
  destruct (doUnprepare_spec m3 _ _ _ y _ Hr3 Hs3 Hnw Hnc) as (m4 & E4 & Hr4 & Hd4 & _).
  exists m1, m2, m3, m4, wr'. split_and!; try done.
  - unfold previousIndex. pose proof (repr_chain _ _ _ _ (r_ord _ _ _ _ Hr2)) as [_ [-> _]]%chain_app. done.
  - intros j sj Hj (Hsj & Hpj & Hcj & Hwj). split; [|split; [done|split; [by rewrite elem_of_cons; intros [|]|]]].
    + rewrite (at_idx_changed m3 m4 y j (set_bundle b s) (StubData_clear (set_bundle b s)) Hs3 Hd4), decide_False by congruence.
      rewrite Hd3, Hd2, (at_idx_changed m m1 y j s (set_bundle b s) Hs Hd1), decide_False by congruence. done.
    + by destruct (MessageFlags.is_waiting_response (message_flags (msgbundle sj))); rewrite (Hjw j Hj).
Qed.

(** [I] is kept by every visit, which leaves the bundle or takes the message out of it: the loop
    ends, and has visited every message once, in the order of the list. *)
Lemma forEvery_takes (visit : World -> bundle -> MessageId -> World * bundle) (I : World -> list stubdata -> Prop) fuel :
  (forall w s l, I w (s :: l) -> is_Some (message_ptr (msgbundle s)) -> let '(w', b) := visit w (msgbundle s) (pool_msg_id s) in
    I w' l /\ (b = msgbundle s \/ message_ptr b = None)) ->
  forall w m xs ys l wr ca, reps m (xs ++ ys) wr ca -> Forall2 (takeable m wr ca) ys l -> (length ys < fuel)%nat -> I w l ->
  exists w' m', forEvery_loop visit fuel w m (hd nil_idx ys) = Done (w', m', true) /\ I w' [].
Proof using Type.
  clear WE PV MS WC. intros Hv. induction fuel as [|fuel IH]; intros w m xs ys l wr ca Hr Hl Hf HI; [lia|].
  cbn [forEvery_loop]. change (InvalidIndex 64) with nil_idx.
  destruct Hl as [|y s ys l Hy Hl]; cbn [hd]; [rewrite Z.eqb_refl; eauto|].
  rewrite (repr_neqb _ _ _ _ y (r_small _ _ _ _ Hr) (r_ord _ _ _ _ Hr)) by set_solver.
  pose proof Hy as (Hs & Hp & Hnc & Hw). rewrite w_stub_at_eq, Hs. cbn [of_option res_bind].
  specialize (Hv w s l HI Hp) as Hvis. destruct Hp as [x Hp]. rewrite Hp.
  destruct (visit w (msgbundle s) (pool_msg_id s)) as [w' b]. destruct Hvis as [HI' Hb]. cbn [length] in Hf.
  destruct (message_ptr b) as [z|] eqn:Eb.
  - destruct Hb as [->|?]; [|done]. assert (set_bundle (msgbundle s) s = s) as -> by (by destruct s).
    rewrite (upd_stub_same m y s Hs). cbn [res_bind]. unfold previousIndex.
    pose proof (repr_chain _ _ _ _ (r_ord _ _ _ _ Hr)) as [_ [-> _]]%chain_app. cbn [fmap option_fmap option_map of_option res_bind prev].
    apply (IH w' m (xs ++ [y]) ys l wr ca); [by rewrite <- app_assoc|done|lia|done].
  - destruct (taken_stub m xs y ys wr ca s b Hr Hy) as (m1 & m2 & m3 & m4 & wr' & -> & E2 & E3 & E4 & E5 & Hr4 & Hk).
    cbn [res_bind]. rewrite E2. cbn [res_bind]. rewrite E3. cbn [of_option res_bind]. rewrite E4. cbn [res_bind]. rewrite E5. cbn [res_bind].
    apply (IH w' m4 xs ys l wr' (y :: ca)); [done| |lia|done].
    destruct (nodup_remove xs ys y (repr_nodup _ _ _ _ (r_ord _ _ _ _ Hr))) as [Hni _].
    apply Forall2_same_length_lookup. apply Forall2_same_length_lookup in Hl as [Hlen Hl]. split; [done|]. intros n j sj Ej Esj.
    apply Hk; [|by apply (Hl n)]. intros ->. destruct Hni. apply elem_of_app. right. by eapply list_elem_of_lookup_2.
Qed.

(** ** Where the writer goes wrong *)

(** A failing turn: the first turn of the first packet ends in an invalid access. *)
Lemma write_first_turn w m ctx _bufsz ka err :
  4 + minimumFreePacketDataSize <= _bufsz < 2 ^ 32 -> 0 <= minimumFreePacketDataSize ->
  size (write_inner_list m) <> 0 ->
  (match fill_turn (_bufsz - 4) (mkFilling w m ctx None [] (_bufsz - 4) 0 1 err []) with
   | Undef | Done (FillNull _) => True
   | _ => False
   end) ->
  write w m ctx _bufsz ka err = Undef.
Proof using Type.
  intros Hb Hmin Hsz Hturn. unfold write. rewrite Nat.add_comm. cbn [Nat.add write_loop w_freesz w_more w_out].
  rewrite wrap_small by (unfold in_range; lia). unfold PacketHeader.SizeOfE.
  rewrite (proj2 (Z.leb_le _ _)) by lia. cbn [andb length].
  replace (_bufsz - Z.of_nat 0 - 4) with (_bufsz - 4) by lia. unfold doFillPacket, fill_fuel.
  cbn [fill_loop w_world w_writer w_ctx w_err f_writer f_freesz].
  rewrite wrap_small by (unfold in_range; lia).
  rewrite (proj2 (Z.eqb_neq _ 0)) by done. rewrite (proj2 (Z.leb_le _ _)) by lia. cbn [negb andb].
  change PacketHeader.SwitchToNewMessageTypeE with 1.
  by destruct (fill_turn _ _) as [[f|f|f]| |].
Qed.

(** A serializer that reports an error brings the whole writer down: [doFillPacket]
    returns a null pointer, and [write], which does not look at the error, goes on to compress
    and send the bytes up to that pointer. *)
Theorem serializer_error_undefined (w : World) m (ctx : Context) (_bufsz : Z) (ka : bool)
    (err : option Err) ord i wr ca s p :
  wf m ord (i :: wr) ca -> at_idx (vec_data m) i = Some s -> isCanceled s = false ->
  MessageFlags.is_synchronous (message_flags (msgbundle s)) = false ->
  serializer_ptr s = Some p -> (forall ctx w n, (ser_run ctx w p n).1.2 <= 0) ->
  0 <= minimumFreePacketDataSize -> 4 + minimumFreePacketDataSize <= _bufsz < 2 ^ 32 ->
  write w m ctx _bufsz ka err = Undef.
Proof using Type.
  intros Hwf Hs Hc Hsy Hp Hrun Hmin Hb. pose proof (r_wr _ _ _ _ (wf_reps _ _ _ _ Hwf)) as Hr.
  assert (exists x, message_ptr (msgbundle s) = Some x) as [x Hx].
  { destruct (wf_phase _ _ _ _ Hwf i s Hs) as [? []|????[??]|? []|]; [left|eauto|left|congruence]. }
  apply write_first_turn; [done|done| |].
  { unfold size. rewrite (repr_size _ _ _ _ Hr). cbn [length]. lia. }
  unfold fill_turn, frontIndex. cbn [f_writer]. rewrite (repr_front _ _ _ _ Hr). cbn [hd].
  rewrite w_stub_at_eq, Hs. cbn [of_option res_bind]. rewrite Hsy. cbn [andb].
  unfold fill_switch, doPrepareMessageForSending. cbn [f_writer]. rewrite w_stub_at_eq, Hs.
  cbn [of_option res_bind]. rewrite Hp. cbn [res_bind f_count Z.eqb].
  unfold fill_message. cbn [f_writer]. rewrite w_stub_at_eq, Hs. cbn [of_option res_bind]. rewrite Hc, Hx, Hp.
  cbn [of_option res_bind f_world f_out].
  match goal with |- context [ser_run ?c ?w0 p ?n] => pose proof (Hrun c w0 n) as Hrv;
    destruct (ser_run c w0 p n) as [[[w' p'] rv] bs] end. cbn [fst snd] in Hrv.
  destruct (upd_stub m i (set_serializer (Some p') s)) eqn:E; cbn [res_bind]; [|done|].
  - by rewrite (proj2 (Z.ltb_ge 0 rv)) by done.
  - unfold upd_stub in E. by destruct (at_idx (message_vec m) i).
Qed.

(** The list records of the writer after [upd_stub], [order_erase] and [doUnprepareMessageStub]. *)
Lemma upd_stub_write m i s m' : upd_stub m i s = Done m' -> write_inner_list m' = write_inner_list m.
Proof using Type. clear WE PV MS WC. unfold upd_stub. by intros (a & _ & [= <-])%res_bind_done. Qed.

Lemma order_erase_write m i m' : order_erase m i = Done m' -> write_inner_list m' = write_inner_list m.
Proof using Type. clear WE PV MS WC. unfold order_erase. by intros (a & _ & [= <-])%res_bind_done. Qed.

Lemma cache_pushFront_spec_weak m ord wr ca i :
  reps m ord wr ca -> in_vec (message_vec m) i -> i ∉ ca ->
  exists m', cache_pushFront m i = Done m' /\ vec_data m' = vec_data m
    /\ write_inner_list m' = write_inner_list m.
Proof using Type.
  clear WE PV MS WC. intros [Ho Hw Hc Hs Hd _] Hi Hn.
  destruct (pushFront_spec InnerLinkStatus _ _ _ i Hs Hc Hi Hn) as (v' & l' & E & _ & Hsm & _).
  unfold cache_pushFront. rewrite E. cbn [of_option res_bind]. eexists. split; [done|].
  split; [by apply data_same, (same_but_links_nodes InnerLinkStatus)|done].
Qed.

(** A released stub at the front of the write list. *)
Lemma write_cleared_front w m ctx _bufsz ka err i s :
  4 + minimumFreePacketDataSize <= _bufsz < 2 ^ 32 -> 0 <= minimumFreePacketDataSize ->
  size (write_inner_list m) <> 0 -> frontIndex (write_inner_list m) = i ->
  at_idx (vec_data m) i = Some (StubData_clear s) -> write w m ctx _bufsz ka err = Undef.
Proof using Type.
  intros Hb Hmin Hsz Hf Hs. apply write_first_turn; [done|done|done|].
  unfold fill_turn. cbn [f_writer]. rewrite Hf, w_stub_at_eq, Hs. cbn [of_option res_bind].
  change (MessageFlags.is_synchronous _) with false. cbn [andb].
  unfold fill_switch, doPrepareMessageForSending. cbn [f_writer f_tmp]. rewrite w_stub_at_eq, Hs.
  cbn [of_option res_bind StubData_clear serializer_ptr].
  unfold upd_stub. destruct (in_vec_at _ _ (w_data_in_vec _ _ _ Hs)) as [a Ha]. rewrite Ha.
  cbn [of_option res_bind f_count Z.eqb]. unfold fill_message. cbn [f_writer].
  unfold stub_at. cbn [message_vec with_vec]. apply at_idx_Some in Ha as [Hi0 Ha]. unfold at_idx.
  rewrite decide_True by done. by rewrite list_lookup_insert_eq by (by eapply lookup_lt_Some).
Qed.

(** Canceling a request that is queued for writing but not started takes it for one that
    waits for its response: the stub is released while it stays in the write list, and the
    next [write] that reaches it goes through a null message pointer. *)
Theorem cancel_queued_request_undefined (w : World) m (ctx : Context) (_bufsz : Z) (ka : bool)
    (err : option Err) ord i wr ca s :
  wf m ord (i :: wr) ca -> at_idx (vec_data m) i = Some s -> serializer_ptr s = None ->
  MessageFlags.is_waiting_response (message_flags (msgbundle s)) = true ->
  0 <= minimumFreePacketDataSize -> 4 + minimumFreePacketDataSize <= _bufsz < 2 ^ 32 ->
  exists m', doCancel m i = Done (m', Some (canceled_bundle s, pool_msg_id s))
    /\ write w m' ctx _bufsz ka err = Undef.
Proof using Type.
  intros Hwf Hs Hp Hwait Hmin Hb. pose proof (wf_reps _ _ _ _ Hwf) as Hr. pose proof (w_data_in_vec _ _ _ Hs) as Hv.
  assert (isCanceled s = false /\ (i ∉ ca) /\ i ∈ ord) as (Hcan & Hnc & Ho).
  { destruct (wf_phase _ _ _ _ Hwf i s Hs) as [? []| |? []|????[? Hq]]; [left|done|left|congruence]. }
  apply list_elem_of_split in Ho as (xs & ys & ->).
  unfold doCancel. rewrite w_stub_at_eq, Hs. cbn [of_option res_bind].
  unfold isCanceled in Hcan. rewrite Hcan. fold (canceled_bundle s).
  set (s1 := set_bundle (MessageBundle_moved (canceled_bundle s)) s).
  destruct (w_upd_stub_spec m _ _ _ i s1 Hr Hv) as (m1 & E1 & Hr1 & Hd1 & Hy1). rewrite E1. cbn [res_bind].
  destruct (w_order_erase_spec m1 _ _ _ _ _ Hr1) as (m2 & E2 & Hr2 & Hd2 & Hy2). rewrite E2. cbn [res_bind].
  change (serializer_ptr s1) with (serializer_ptr s). rewrite Hp.
  assert (MessageFlags.is_waiting_response (message_flags (msgbundle s1)) = true) as ->.
  { cbn. clear -Hwait. by MessageFlags.flags. }
  assert (Hs2 : at_idx (vec_data m2) i = Some s1).
  { rewrite Hd2, (at_idx_changed _ _ _ _ _ _ Hs Hd1). by rewrite decide_True. }
  unfold doUnprepareMessageStub. rewrite w_stub_at_eq, Hs2. cbn [of_option res_bind].
  destruct (w_upd_stub_spec m2 _ _ _ i (StubData_clear s1) Hr2 (w_data_in_vec _ _ _ Hs2)) as (m3 & E3 & Hr3 & Hd3 & Hy3).
  rewrite E3. cbn [res_bind].
  destruct (cache_pushFront_spec_weak m3 _ _ _ i Hr3 (reps_in_vec_data _ _ _ _ _ Hs2 Hd3) Hnc) as (m4 & E4 & Hd4 & Hw4).
  rewrite E4. cbn [res_bind]. eexists. split; [done|].
  assert (Hs4 : at_idx (vec_data m4) i = Some (StubData_clear s1)).
  { rewrite Hd4, (at_idx_changed _ _ _ _ _ _ Hs2 Hd3). by rewrite decide_True. }
  assert (Hw : write_inner_list m4 = write_inner_list m).
  { rewrite Hw4, (upd_stub_write _ _ _ _ E3), (order_erase_write _ _ _ E2). by apply upd_stub_write in E1. }
  pose proof (r_wr _ _ _ _ Hr) as Hrw.
  apply (write_cleared_front _ _ _ _ _ _ i s1); [done|done| | |done].
  - unfold size. rewrite Hw, (repr_size _ _ _ _ Hrw). cbn [length]. lia.
  - unfold frontIndex. by rewrite Hw, (repr_front _ _ _ _ Hrw).
Qed.

End Proofs.

(** ** A concrete environment

    A message is a list of bytes, sent as a length byte and the bytes; a serializer holds the
    bytes still to be written. The world is a list of messages waiting outside the writer, of
    which the completion callback enqueues the first. *)
Section Witness.

Abbreviation toy_world := (list (list Z)).
Abbreviation toy_bundle := (fun x fl => mkBundle 1 fl (Some x) None : MessageBundle (list Z) unit).

Definition toy_ser_run (ctx : Context) (w : toy_world) (p : list Z) (n : Z) : toy_world * list Z * Z * list Z :=
  let k := Z.max 0 (Z.min n (Z.of_nat (length p))) in
  (w, drop (Z.to_nat k) p, k, take (Z.to_nat k) p).

Abbreviation toy_callback_type := (toy_world -> MessageWriter (list Z) (list Z) unit ->
  MessageBundle (list Z) unit -> MessageId -> res (toy_world * MessageWriter (list Z) (list Z) unit * option unit)).

#[local] Instance toy_configuration : WriterConfiguration := {|
  max_message_count_multiplex := 64;
  max_message_count_response_wait := 128;
  max_message_continuous_packet_count := 4
|}.

#[local] Instance toy_message_state : MessageState (list Z) := {|
  msg_state := fun _ => 0;
  msg_requestId := fun _ => mkRequestId 0 0
|}.

Abbreviation toy_new := (MessageWriter_new : MessageWriter (list Z) (list Z) unit).

(** Enqueues the first waiting message, if the writer takes it. *)
Definition toy_callback : toy_callback_type := fun w m _ _ =>
  match w with
  | [] => Done (w, m, None)
  | x :: w' =>
      if Z.of_nat (length (message_vec m)) + 1 <? nil_idx then
        match enqueue m (toy_bundle x 0) MessageId_clear with
        | Done (m', Some _) => Done (w', m', None)
        | _ => Done (w, m, None)
        end
      else Done (w, m, None)
  end.

#[local, refine] Instance toy_writer_env : WriterEnv toy_world (list Z) (list Z) unit unit := {|
  createSerializer := [];
  reset_serializer := fun p => p;
  ser_push := fun _ m _ => match m with Some x => Z.of_nat (length x) :: x | None => [] end;
  ser_run := toy_ser_run;
  ser_empty := fun p => (length p =? 0)%nat;
  ser_clear := fun _ => [];
  ser_error := fun _ => None;
  minimumFreePacketDataSize := 16;
  inplace_compress_fnc := fun d => (0, d, None);
  on_complete := toy_callback
|}.
Proof.
  unfold toy_ser_run. intros ctx w s n w' s' rv bs [= <- <- <- <-] Hrv. rewrite length_take. lia.
Defined.

Definition toy_pending (w : toy_world) : list (Z * option (list Z) * option unit * MessageId) :=
  (fun x => (1, Some x, None, MessageId_clear)) <$> w.

Lemma toy_callback_contract : callback_contract toy_pending.
Proof.
  split; [by intros ctx w p n w' p' rv bs [= <- <- <- <-]|].
  intros w m b id ord wr ca Hwf. cbn [on_complete toy_writer_env]. unfold toy_callback.
  assert (H0 : exists w' m' e new, @Done (toy_world * MessageWriter (list Z) (list Z) unit * option unit) (w, m, None)
    = Done (w', m', e) /\ enqueues m new m' /\ toy_pending w ≡ₚ new ++ toy_pending w').
  { exists w, m, None, []. split; [done|]. split; [constructor|done]. }
  destruct w as [|x w']; [done|]. case_Z; [|done].
  destruct (enqueue _ _ _) as [[m' [r|]]| |] eqn:E; try done.
  exists w', m', None, [(1, Some x, None, MessageId_clear)]. split; [done|]. split; [|done].
  by apply (enqueues_cons m (toy_bundle x 0) MessageId_clear m' r [] m'); [by exists x|..|constructor].
Qed.

Definition toy_ready (p : list Z) : Prop := p <> [].

Lemma toy_contract : serializer_contract toy_ready.
Proof.
  split; [done|]. intros ctx w p n w' p' rv bs Hp Hn [= <- <- <- <-].
  assert (0 < length p)%nat by (destruct p; [done|cbn; lia]).
  split; [lia|]. cbn. rewrite length_drop. intros He. apply Nat.eqb_neq in He. split; [lia|].
  intros E. apply (f_equal length) in E. rewrite length_drop in E. cbn in E. lia.
Qed.

Lemma toy_compression : compression_contract (WE := toy_writer_env).
Proof. intros d c buf e [= <- <- <-]. split; [lia|done]. Qed.

(** Enqueues the messages one after the other. *)
Fixpoint enqueue_all (m : MessageWriter (list Z) (list Z) unit) (bs : list (MessageBundle (list Z) unit))
  : res (MessageWriter (list Z) (list Z) unit) :=
  match bs with
  | [] => Done m
  | b :: bs => let! x := enqueue m b MessageId_clear in enqueue_all x.1 bs
  end.

Lemma w_wf_new : wf toy_new [] [] [].
Proof.
  constructor; [constructor; try by apply repr_empty|..].
  - done.
  - by intros ? ?%not_elem_of_nil.
  - intros i [? Hi]. cbn in Hi. lia.
  - intros i s. unfold at_idx. cbn. by case_decide.
  - by left.
Qed.

(** A writer with one message. *)
Lemma one_message (b : MessageBundle (list Z) unit) :
  is_Some (message_ptr b) -> MessageFlags.is_canceled (message_flags b) = false ->
  exists m idx s ca,
    enqueue toy_new b MessageId_clear
    = Done (m, Some (mkMessageId idx (unique s), MessageBundle_moved (enqueued b)))
    /\ wf m [idx] [idx] ca /\ serializer_ptr s = None
    /\ at_idx (vec_data m) idx = Some (set_pool_id MessageId_clear (set_bundle (enqueued b) s))
    /\ all_ready toy_ready m.
Proof.
  intros Hm Hc.
  destruct (enqueue_accepts toy_new [] [] [] b MessageId_clear w_wf_new Hm Hc)
    as (m & idx & s & ca & E & Hwf & _ & Hs & Hj & _ & Hp); [done| |].
  { unfold refused. cbn. by rewrite andb_false_r. }
  exists m, idx, s, ca. split_and!; try done. intros i si p Hi _ Hpi.
  destruct (decide (i = idx)) as [->|Hne].
  - rewrite Hs in Hi. injection Hi as <-. cbn in Hpi. congruence.
  - rewrite Hj in Hi by done. unfold at_idx in Hi. cbn in Hi. by case_decide.
Qed.

Lemma enqueue_correct_witness :
  exists m id b', enqueue toy_new (toy_bundle [7; 8] 1) MessageId_clear = Done (m, Some (id, b'))
    /\ fetchRequest m id = Done (Some [7; 8]).
Proof.
  destruct (enqueue_correct toy_new [] [] [] (toy_bundle [7; 8] 1) MessageId_clear w_wf_new)
    as (m & id & b' & ca' & E & _ & _ & _ & F & _).
  - by exists [7; 8].
  - reflexivity.
  - reflexivity.
  - by exists m, id, b'.
Defined.

Lemma cancel_correct_witness :
  exists m id b' m' r, enqueue toy_new (toy_bundle [7; 8] 0) MessageId_clear = Done (m, Some (id, b'))
    /\ cancel m id = Done (m', Some r) /\ fetchRequest m' id = Done None.
Proof.
  destruct (one_message (toy_bundle [7; 8] 0)) as (m & idx & s & ca & E & Hwf & Hp & Hs & _).
  { by exists [7; 8]. }
  { reflexivity. }
  pose proof (cancel_correct m [idx] [idx] ca (mkMessageId idx (unique s)) _ Hwf Hs) as H.
  cbn [index unique_ unique set_pool_id set_bundle] in H. rewrite Z.eqb_refl in H.
  destruct H as (m' & xs & ys & wr' & ca' & _ & Hc & _ & _ & _ & Hf).
  - left.
  - intros _ Hw. exfalso. revert Hw. cbn. vm_compute. congruence.
  - by exists m, (mkMessageId idx (unique s)), (MessageBundle_moved (enqueued (toy_bundle [7; 8] 0))), m', (canceled_bundle (set_pool_id MessageId_clear (set_bundle (enqueued (toy_bundle [7; 8] 0)) s)), MessageId_clear).
Defined.

Lemma write_correct_witness :
  exists m x st, enqueue toy_new (toy_bundle [7; 8] 0) MessageId_clear = Done (m, x)
    /\ write [[9]] m (mkContext (mkRequestId 0 0) 0) 100 true None = Done st
    /\ Z.of_nat (length (w_out st)) <= 100.
Proof.
  destruct (one_message (toy_bundle [7; 8] 0)) as (m & idx & s & ca & E & Hwf & Hp & Hs & Hr).
  { by exists [7; 8]. }
  { reflexivity. }
  destruct (write_correct toy_pending toy_ready [[9]] m (mkContext (mkRequestId 0 0) 0) 100 true None [idx] [idx] ca
    toy_contract toy_callback_contract toy_compression Hwf Hr) as (st & ord' & wr' & ca' & Ew & Hl & _).
  - cbn. lia.
  - lia.
  - lia.
  - by eexists m, _, st.
Defined.

Lemma forEvery_visits_witness :
  exists m x, enqueue toy_new (toy_bundle [7; 8] 0) MessageId_clear = Done (m, x)
    /\ exists k, forEveryMessagesNewerToOlder (fun w b _ => (w + 1, b)) 0 m = Done (k, m, true).
Proof.
  destruct (one_message (toy_bundle [7; 8] 0)) as (m & idx & s & ca & E & Hwf & _).
  { by exists [7; 8]. }
  { reflexivity. }
  eexists m, _. split; [exact E|]. eexists.
  refine (forEvery_visits (fun w b _ => (w + 1, b)) 0 m [idx] [idx] ca _ Hwf). done.
Defined.

Lemma cancel_queued_request_undefined_witness :
  exists m x idx m' r, enqueue toy_new (toy_bundle [7; 8] 1) MessageId_clear = Done (m, x)
    /\ doCancel m idx = Done (m', Some r)
    /\ write [[9]] m' (mkContext (mkRequestId 0 0) 0) 100 true None = Undef.
Proof.
  destruct (one_message (toy_bundle [7; 8] 1)) as (m & idx & s & ca & E & Hwf & Hp & Hs & Hr).
  { by exists [7; 8]. }
  { reflexivity. }
  destruct (cancel_queued_request_undefined [[9]] m (mkContext (mkRequestId 0 0) 0) 100 true None [idx] idx [] ca _ Hwf Hs)
    as (m' & Ec & Ew).
  - exact Hp.
  - reflexivity.
  - cbn. lia.
  - cbn. lia.
  - by eexists m, _, idx, m', _.
Defined.

Lemma serializer_error_undefined_witness :
  exists m : MessageWriter (list Z) (list Z) unit, write [[9]] m (mkContext (mkRequestId 0 0) 0) 100 true None = Undef.
Proof.
  destruct (one_message (toy_bundle [7; 8] 0)) as (m & idx & s & ca & E & Hwf & Hp & Hs & Hr).
  { by exists [7; 8]. }
  { reflexivity. }
  pose proof (w_data_in_vec _ _ _ Hs) as Hv. set (s0 := set_pool_id _ _) in Hs.
  destruct (w_upd_stub_spec m _ _ _ idx (set_serializer (Some []) s0) (wf_reps _ _ _ _ Hwf) Hv)
    as (m1 & E1 & Hr1 & Hd1 & Hy1).
  exists m1.
  refine (serializer_error_undefined [[9]] m1 (mkContext (mkRequestId 0 0) 0) 100 true None [idx] idx [] ca
    (set_serializer (Some []) s0) [] _ _ _ _ _ _ _ _).
  - eapply wf_change; [exact Hwf|exact Hv|exact Hr1|exact Hd1|done| |].
    + apply phase_write; [left|left| |reflexivity|by exists [7; 8]]. eapply r_disj; [apply Hwf|left].
    + eapply sync_ok_change; [apply Hwf|exact Hv|exact Hd1|exact Hy1|done|]. intros _. split; [left|by exists []].
  - rewrite (at_idx_changed _ _ _ _ _ _ Hs Hd1). by rewrite decide_True.
  - reflexivity.
  - reflexivity.
  - reflexivity.
  - intros ctx w n. cbn. lia.
  - cbn. lia.
  - cbn. lia.
Defined.

(** A packet with many small messages overruns its buffer: the byte of a switch type is
    not taken off the free size, so seventeen messages of two bytes fill a 54-byte buffer while
    the loop still sees sixteen free bytes, and stores the switch type of the eighteenth behind
    the end. The default configuration lets 64 messages be written at a time. *)
Theorem small_messages_overrun :
  exists m, enqueue_all toy_new (replicate 18 (toy_bundle [7] 0)) = Done m
    /\ write [] m (mkContext (mkRequestId 0 0) 0) 54 false None = Undef.
Proof.
  assert (H : match enqueue_all toy_new (replicate 18 (toy_bundle [7] 0)) with
              | Done m => match write [] m (mkContext (mkRequestId 0 0) 0) 54 false None with
                          | Undef => true | _ => false end
              | _ => false
              end = true) by (vm_compute; reflexivity).
  destruct (enqueue_all _ _) as [m| |]; [|discriminate H|discriminate H]. exists m. split; [done|].
  by destruct (write _ _ _ _ _ _) as [st| |].
Qed.

End Witness.

End WriterProofs.
