(* ===== verification/Pool.v ===== *)
(** * The connection pools of a service

    solid/frame/mpipc/src/mpipcservice.cpp: [MessageStub] and [ConnectionPoolStub], the
    messages a service holds for one recipient until a connection takes them. Every message
    has a stub in a vector; three intrusive lists (InnerList.v) run through the stubs: the
    queued messages in order, the free stubs (with the same link), and the queued messages
    that any connection of the pool may send. A stub in none of them belongs to a message that
    a connection holds or is about to fetch.

    Assertions are disabled, as in a release build. *)

From stdpp Require Import strings.
From S2P Require Import Prelude FrameCommon InnerList TriList Packet MessageWriter.
Import InnerList TriList.
Import MessageWriter(MessageId, mkMessageId, index, unique_, MessageId_clear, MessageId_isInvalid, MessageId_isValid,
  MessageBundle, mkBundle, message_type_id, message_flags, message_ptr, complete_fnc,
  MessageBundle_new, MessageBundle_clear, MessageBundle_moved, set_flags).
#[local] Open Scope res_scope.
#[local] Set Warnings "-clear-no-such-hyp".

Module Pool.

Export FrameCommon.

Section Pool.
Context {Msg Fn Addr : Type}.

Abbreviation bundle := (MessageBundle Msg Fn).

(** ** [MessageStub] *)

Definition InnerLinkOrder : nat := 0.
Definition InnerLinkAsync : nat := 1.

(** The members of [MessageStub] other than the links. *)
Record StubData := mkData {
  msgbundle : bundle;
  msgid : MessageId;
  objid : UniqueId;
  unique : Z;
  flags : Z
}.

Record MessageStub := mkStub { inner_link : links_node; data : StubData }.

#[export] Instance MessageStub_InnerNode : InnerNode MessageStub.
Proof.
  refine {| node_link L s := node_link L (inner_link s);
            set_node_link L x s := mkStub (set_node_link L x (inner_link s)) (data s) |}.
  - intros L x s. apply node_link_set.
  - intros L L' x s HL. by apply node_link_set_ne.
Defined.

Definition CancelableFlag : Z := 1.

Definition StubData_new : StubData := mkData MessageBundle_new MessageId_clear ObjectId_new 0 0.

Definition MessageStub_new : MessageStub := mkStub (fun _ => InnerLink_clear) StubData_new.

Definition isCancelable (s : StubData) : bool := negb (Z.land (flags s) CancelableFlag =? 0).

Definition makeCancelable (s : StubData) : StubData :=
  mkData (msgbundle s) (msgid s) (objid s) (unique s) (Z.lor (flags s) CancelableFlag).

(** [MessageStub::clear] *)
Definition StubData_clear (s : StubData) : StubData :=
  mkData MessageBundle_clear MessageId_clear ObjectId_new (wrap 32 (unique s + 1)) 0.

Definition set_bundle (b : bundle) (s : StubData) : StubData :=
  mkData b (msgid s) (objid s) (unique s) (flags s).

Definition set_msgid (i : MessageId) (s : StubData) : StubData :=
  mkData (msgbundle s) i (objid s) (unique s) (flags s).

Definition set_objid (o : UniqueId) (s : StubData) : StubData :=
  mkData (msgbundle s) (msgid s) o (unique s) (flags s).

(** ** [ConnectionPoolStub] *)

Definition ClosingFlag : Z := 1.
Definition FastClosingFlag : Z := 2.
Definition MainConnectionStoppingFlag : Z := 4.
Definition CleanOneShotMessagesFlag : Z := 8.
Definition CleanAllMessagesFlag : Z := 16.
Definition RestartFlag : Z := 32.
Definition MainConnectionActiveFlag : Z := 64.

Record ConnectionPoolStub := mkPool {
  pool_unique : Z;
  pending_connection_count : Z;
  active_connection_count : Z;
  stopping_connection_count : Z;
  name : string;
  main_connection_id : UniqueId;
  msgvec : list MessageStub;
  msgorder_inner_list : InnerList;
  msgcache_inner_list : InnerList;
  msgasync_inner_list : InnerList;
  conn_waitingq : list UniqueId;
  pool_flags : Z;
  retry_connect_count : Z;
  connect_addr_vec : list Addr
}.

Definition ConnectionPoolStub_new : ConnectionPoolStub :=
  mkPool 0 0 0 0 EmptyString ObjectId_new [] InnerList_new InnerList_new InnerList_new [] 0 0 [].

(** Assignments to single members. *)
Definition with_msgs (p : ConnectionPoolStub) (v : list MessageStub) (lo lc la : InnerList)
  : ConnectionPoolStub :=
  mkPool (pool_unique p) (pending_connection_count p) (active_connection_count p)
    (stopping_connection_count p) (name p) (main_connection_id p) v lo lc la
    (conn_waitingq p) (pool_flags p) (retry_connect_count p) (connect_addr_vec p).

Definition with_counts (p : ConnectionPoolStub) (pending active stopping : Z) : ConnectionPoolStub :=
  mkPool (pool_unique p) (wrap 16 pending) (wrap 16 active) (wrap 16 stopping) (name p)
    (main_connection_id p) (msgvec p) (msgorder_inner_list p) (msgcache_inner_list p)
    (msgasync_inner_list p) (conn_waitingq p) (pool_flags p) (retry_connect_count p)
    (connect_addr_vec p).

Definition with_name (p : ConnectionPoolStub) (n : string) : ConnectionPoolStub :=
  mkPool (pool_unique p) (pending_connection_count p) (active_connection_count p)
    (stopping_connection_count p) n (main_connection_id p) (msgvec p) (msgorder_inner_list p)
    (msgcache_inner_list p) (msgasync_inner_list p) (conn_waitingq p) (pool_flags p)
    (retry_connect_count p) (connect_addr_vec p).

Definition with_main (p : ConnectionPoolStub) (o : UniqueId) : ConnectionPoolStub :=
  mkPool (pool_unique p) (pending_connection_count p) (active_connection_count p)
    (stopping_connection_count p) (name p) o (msgvec p) (msgorder_inner_list p)
    (msgcache_inner_list p) (msgasync_inner_list p) (conn_waitingq p) (pool_flags p)
    (retry_connect_count p) (connect_addr_vec p).

Definition with_waitingq (p : ConnectionPoolStub) (q : list UniqueId) : ConnectionPoolStub :=
  mkPool (pool_unique p) (pending_connection_count p) (active_connection_count p)
    (stopping_connection_count p) (name p) (main_connection_id p) (msgvec p)
    (msgorder_inner_list p) (msgcache_inner_list p) (msgasync_inner_list p) q (pool_flags p)
    (retry_connect_count p) (connect_addr_vec p).

Definition with_flags (p : ConnectionPoolStub) (f : Z) : ConnectionPoolStub :=
  mkPool (pool_unique p) (pending_connection_count p) (active_connection_count p)
    (stopping_connection_count p) (name p) (main_connection_id p) (msgvec p)
    (msgorder_inner_list p) (msgcache_inner_list p) (msgasync_inner_list p) (conn_waitingq p) f
    (retry_connect_count p) (connect_addr_vec p).

Definition with_retry (p : ConnectionPoolStub) (n : Z) : ConnectionPoolStub :=
  mkPool (pool_unique p) (pending_connection_count p) (active_connection_count p)
    (stopping_connection_count p) (name p) (main_connection_id p) (msgvec p)
    (msgorder_inner_list p) (msgcache_inner_list p) (msgasync_inner_list p) (conn_waitingq p)
    (pool_flags p) (wrap 8 n) (connect_addr_vec p).

Definition with_addrs (p : ConnectionPoolStub) (l : list Addr) : ConnectionPoolStub :=
  mkPool (pool_unique p) (pending_connection_count p) (active_connection_count p)
    (stopping_connection_count p) (name p) (main_connection_id p) (msgvec p)
    (msgorder_inner_list p) (msgcache_inner_list p) (msgasync_inner_list p) (conn_waitingq p)
    (pool_flags p) (retry_connect_count p) l.

(** [msgvec[i]], read and changed. *)
Definition stub_at (p : ConnectionPoolStub) (i : Z) : res StubData :=
  of_option (data <$> at_idx (msgvec p) i).

Definition upd_stub (p : ConnectionPoolStub) (i : Z) (s : StubData) : res ConnectionPoolStub :=
  let! a := of_option (at_idx (msgvec p) i) in
  Done (with_msgs p (<[Z.to_nat i := mkStub (inner_link a) s]> (msgvec p))
          (msgorder_inner_list p) (msgcache_inner_list p) (msgasync_inner_list p)).

(** The list operations the pool uses. *)
Definition order_pushBack (p : ConnectionPoolStub) (i : Z) : res ConnectionPoolStub :=
  let! x := of_option (pushBack InnerLinkOrder (msgvec p) (msgorder_inner_list p) i) in
  Done (with_msgs p x.1 x.2 (msgcache_inner_list p) (msgasync_inner_list p)).

Definition order_pushFront (p : ConnectionPoolStub) (i : Z) : res ConnectionPoolStub :=
  let! x := of_option (pushFront InnerLinkOrder (msgvec p) (msgorder_inner_list p) i) in
  Done (with_msgs p x.1 x.2 (msgcache_inner_list p) (msgasync_inner_list p)).

Definition order_erase (p : ConnectionPoolStub) (i : Z) : res ConnectionPoolStub :=
  let! x := of_option (erase InnerLinkOrder (msgvec p) (msgorder_inner_list p) i) in
  Done (with_msgs p x.1 x.2 (msgcache_inner_list p) (msgasync_inner_list p)).

Definition order_popFront (p : ConnectionPoolStub) : res (ConnectionPoolStub * Z) :=
  let! x := of_option (popFront InnerLinkOrder (msgvec p) (msgorder_inner_list p)) in
  Done (with_msgs p x.1.1 x.1.2 (msgcache_inner_list p) (msgasync_inner_list p), x.2).

Definition async_pushBack (p : ConnectionPoolStub) (i : Z) : res ConnectionPoolStub :=
  let! x := of_option (pushBack InnerLinkAsync (msgvec p) (msgasync_inner_list p) i) in
  Done (with_msgs p x.1 (msgorder_inner_list p) (msgcache_inner_list p) x.2).

Definition async_pushFront (p : ConnectionPoolStub) (i : Z) : res ConnectionPoolStub :=
  let! x := of_option (pushFront InnerLinkAsync (msgvec p) (msgasync_inner_list p) i) in
  Done (with_msgs p x.1 (msgorder_inner_list p) (msgcache_inner_list p) x.2).

Definition async_erase (p : ConnectionPoolStub) (i : Z) : res ConnectionPoolStub :=
  let! x := of_option (erase InnerLinkAsync (msgvec p) (msgasync_inner_list p) i) in
  Done (with_msgs p x.1 (msgorder_inner_list p) (msgcache_inner_list p) x.2).

Definition cache_pushBack (p : ConnectionPoolStub) (i : Z) : res ConnectionPoolStub :=
  let! x := of_option (pushBack InnerLinkOrder (msgvec p) (msgcache_inner_list p) i) in
  Done (with_msgs p x.1 (msgorder_inner_list p) x.2 (msgasync_inner_list p)).

Definition cache_popFront (p : ConnectionPoolStub) : res (ConnectionPoolStub * Z) :=
  let! x := of_option (popFront InnerLinkOrder (msgvec p) (msgcache_inner_list p)) in
  Done (with_msgs p x.1.1 (msgorder_inner_list p) x.1.2 (msgasync_inner_list p), x.2).

(** *** Operations *)

(** [ConnectionPoolStub::clear] *)
Definition pool_clear (p : ConnectionPoolStub) : res ConnectionPoolStub :=
  let! x := of_option (clear InnerLinkOrder (msgvec p) (msgcache_inner_list p)) in
  let '(v, lc) := x in
  let! x := of_option (clear InnerLinkOrder v (msgorder_inner_list p)) in
  let '(v, lo) := x in
  let! x := of_option (clear InnerLinkAsync v (msgasync_inner_list p)) in
  let '(v, la) := x in
  Done (mkPool (wrap 32 (pool_unique p + 1)) 0 0 0 EmptyString ObjectId_new [] lo lc la [] 0 0 []).

Definition insertMessage (p : ConnectionPoolStub) (_rmsgptr : option Msg) (_msg_type_idx : Z)
    (_rcomplete_fnc : option Fn) (_flags : Z) : res (ConnectionPoolStub * MessageId) :=
  let! pi :=
    (if negb (size (msgcache_inner_list p) =? 0) then
       let idx := frontIndex (msgcache_inner_list p) in
       let! x := cache_popFront p in
       Done (x.1, idx)
     else
       Done (with_msgs p (msgvec p ++ [MessageStub_new]) (msgorder_inner_list p)
               (msgcache_inner_list p) (msgasync_inner_list p),
             Z.of_nat (length (msgvec p)))) in
  let '(p, idx) := pi in
  let! s := stub_at p idx in
  let! p := upd_stub p idx (set_bundle (mkBundle _msg_type_idx _flags _rmsgptr _rcomplete_fnc) s) in
  Done (p, mkMessageId idx (unique s)).

Definition pushBackMessage (p : ConnectionPoolStub) (_rmsgptr : option Msg) (_msg_type_idx : Z)
    (_rcomplete_fnc : option Fn) (_flags : Z) : res (ConnectionPoolStub * MessageId) :=
  let! x := insertMessage p _rmsgptr _msg_type_idx _rcomplete_fnc _flags in
  let '(p, msgid) := x in
  let! p := order_pushBack p (index msgid) in
  let! p := if MessageFlags.is_asynchronous _flags then async_pushBack p (index msgid) else Done p in
  Done (p, msgid).

Definition pushFrontMessage (p : ConnectionPoolStub) (_rmsgptr : option Msg) (_msg_type_idx : Z)
    (_rcomplete_fnc : option Fn) (_flags : Z) : res (ConnectionPoolStub * MessageId) :=
  let! x := insertMessage p _rmsgptr _msg_type_idx _rcomplete_fnc _flags in
  let '(p, msgid) := x in
  let! p := order_pushFront p (index msgid) in
  let! p := if MessageFlags.is_asynchronous _flags then async_pushFront p (index msgid) else Done p in
  Done (p, msgid).

Definition reinsertFrontMessage (p : ConnectionPoolStub) (_rmsgid : MessageId)
    (_rmsgptr : option Msg) (_msg_type_idx : Z) (_rcomplete_fnc : option Fn) (_flags : Z)
  : res (ConnectionPoolStub * MessageId) :=
  let! s := stub_at p (index _rmsgid) in
  let! p := upd_stub p (index _rmsgid)
              (set_bundle (mkBundle _msg_type_idx _flags _rmsgptr _rcomplete_fnc) s) in
  let! p := order_pushFront p (index _rmsgid) in
  let! p := if MessageFlags.is_asynchronous _flags then async_pushFront p (index _rmsgid) else Done p in
  Done (p, _rmsgid).

Definition clearAndCacheMessage (p : ConnectionPoolStub) (_msg_idx : Z) : res ConnectionPoolStub :=
  let! s := stub_at p _msg_idx in
  let! p := upd_stub p _msg_idx (StubData_clear s) in
  cache_pushBack p _msg_idx.

Definition cacheFrontMessage (p : ConnectionPoolStub) : res ConnectionPoolStub :=
  let! x := order_popFront p in
  cache_pushBack x.1 x.2.

Definition popFrontMessage (p : ConnectionPoolStub) : res ConnectionPoolStub :=
  let! x := order_popFront p in
  Done x.1.

Definition eraseMessage (p : ConnectionPoolStub) (_msg_idx : Z) : res ConnectionPoolStub :=
  order_erase p _msg_idx.

Definition clearPopAndCacheMessage (p : ConnectionPoolStub) (_msg_idx : Z) : res ConnectionPoolStub :=
  let! s := stub_at p _msg_idx in
  let! p := order_erase p _msg_idx in
  let! p := if MessageFlags.is_asynchronous (message_flags (msgbundle s)) then async_erase p _msg_idx
            else Done p in
  let! p := cache_pushBack p _msg_idx in
  upd_stub p _msg_idx (StubData_clear s).

Definition cacheMessageId (p : ConnectionPoolStub) (_rmsgid : MessageId) : res ConnectionPoolStub :=
  if index _rmsgid <? Z.of_nat (length (msgvec p)) then
    let! s := stub_at p (index _rmsgid) in
    if unique s =? unique_ _rmsgid then
      let! p := upd_stub p (index _rmsgid) (StubData_clear s) in
      cache_pushBack p (index _rmsgid)
    else Done p
  else Done p.

(** *** Flags *)

Definition has_flag (p : ConnectionPoolStub) (f : Z) : bool := negb (Z.land (pool_flags p) f =? 0).
Definition set_flag (p : ConnectionPoolStub) (f : Z) : ConnectionPoolStub :=
  with_flags p (Z.lor (pool_flags p) f).
Definition reset_flag (p : ConnectionPoolStub) (f : Z) : ConnectionPoolStub :=
  with_flags p (Z.land (pool_flags p) (Z.lxor (Z.ones 8) f)).

Definition isMainConnectionStopping p := has_flag p MainConnectionStoppingFlag.
Definition setMainConnectionStopping p := set_flag p MainConnectionStoppingFlag.
Definition resetMainConnectionStopping p := reset_flag p MainConnectionStoppingFlag.
Definition isMainConnectionActive p := has_flag p MainConnectionActiveFlag.
Definition setMainConnectionActive p := set_flag p MainConnectionActiveFlag.
Definition resetMainConnectionActive p := reset_flag p MainConnectionActiveFlag.
Definition isClosing p := has_flag p ClosingFlag.
Definition setClosing p := set_flag p ClosingFlag.
Definition isFastClosing p := has_flag p FastClosingFlag.
Definition setFastClosing p := set_flag p FastClosingFlag.
Definition isCleaningOneShotMessages p := has_flag p CleanOneShotMessagesFlag.
Definition setCleaningOneShotMessages p := set_flag p CleanOneShotMessagesFlag.
Definition resetCleaningOneShotMessages p := reset_flag p CleanOneShotMessagesFlag.
Definition isCleaningAllMessages p := has_flag p CleanAllMessagesFlag.
Definition setCleaningAllMessages p := set_flag p CleanAllMessagesFlag.
Definition resetCleaningAllMessages p := reset_flag p CleanAllMessagesFlag.
Definition isRestarting p := has_flag p RestartFlag.
Definition setRestarting p := set_flag p RestartFlag.
Definition resetRestarting p := reset_flag p RestartFlag.

(** *** Observers *)

Definition hasNoConnection (p : ConnectionPoolStub) : bool :=
  (pending_connection_count p =? 0) && (active_connection_count p =? 0)
  && (stopping_connection_count p =? 0).

Definition isServerSide (p : ConnectionPoolStub) : bool := bool_decide (name p = EmptyString).

Definition hasNoMessage (p : ConnectionPoolStub) : res bool :=
  if InnerList.empty (msgorder_inner_list p) then Done true
  else
    let! a := of_option (front (msgvec p) (msgorder_inner_list p)) in
    Done (bool_decide (message_ptr (msgbundle (data a)) = None)).

Definition hasAnyMessage (p : ConnectionPoolStub) : res bool :=
  let! b := hasNoMessage p in
  Done (negb b).

Definition isMainConnection (p : ConnectionPoolStub) (_robjuid : UniqueId) : bool :=
  UniqueId_eqb (main_connection_id p) _robjuid.

Definition isLastConnection (p : ConnectionPoolStub) : bool :=
  wrap 64 (pending_connection_count p + active_connection_count p) =? 1.

Definition isFull (p : ConnectionPoolStub) (_max_message_queue_size : Z) : bool :=
  InnerList.empty (msgcache_inner_list p) && (_max_message_queue_size <=? Z.of_nat (length (msgvec p))).

Definition shouldClose (p : ConnectionPoolStub) : res bool :=
  if isClosing p then hasNoMessage p else Done false.

End Pool.
Arguments ConnectionPoolStub : clear implicits.
Arguments StubData : clear implicits.

End Pool.
