(* ===== verification/PoolProofs.v ===== *)
(** * Correctness of a connection pool

    [wf] is the invariant of the pools of Pool.v: the order, cache and asynchronous lists
    represent lists of indexes, the asynchronous list is the order list without the
    synchronous messages, and the stubs in the cache are cleared. Every operation is specified
    against it; [pool_refines_queue] says what a pool is for its users. *)

From stdpp Require Import strings.
From S2P Require Import Prelude InnerList TriList Packet MessageWriter Pool.
Import InnerList TriList Pool.
Import MessageWriter(MessageId, mkMessageId, index, unique_, MessageId_clear,
  MessageBundle, mkBundle, message_type_id, message_flags, message_ptr, complete_fnc,
  MessageBundle_new, MessageBundle_clear, MessageBundle_moved, set_flags).
#[local] Open Scope res_scope.
#[local] Set Warnings "-clear-no-such-hyp".

Module PoolProofs.

(** Computes flags of a pool whose flags were set and reset one by one. *)
Ltac pool_flags :=
  repeat match goal with
  | |- context [Z.testbit (pool_flags (set_flag _ _)) _] => cbn [pool_flags set_flag with_flags]
  | |- context [Z.testbit (pool_flags (reset_flag _ _)) _] => cbn [pool_flags reset_flag with_flags]
  | |- context [Z.testbit (Z.lor _ _) _] => rewrite Z.lor_spec
  | |- context [Z.testbit (Z.land _ ?c) ?k] =>
      rewrite Z.land_spec; let b := eval vm_compute in (Z.testbit c k) in change (Z.testbit c k) with b
  end; cbn; rewrite ?orb_false_r, ?andb_true_r, ?orb_true_r, ?andb_false_r.

Section Proofs.
Context {Msg Fn Addr : Type}.

Abbreviation pool := (ConnectionPoolStub Msg Fn Addr).
Abbreviation stub := (StubData Msg Fn).
Abbreviation bundle := (MessageBundle Msg Fn).
Implicit Types (p : pool) (s x : stub) (b : bundle) (ord ca asy xs ys : list Z) (i j : Z).

(** ** The invariant *)

Definition vec_data p : list stub := data <$> msgvec p.

Definition lists p ord ca asy : Prop :=
  tri InnerLinkOrder InnerLinkAsync (msgvec p) (msgorder_inner_list p) (msgcache_inner_list p)
    (msgasync_inner_list p) ord ca asy.

Definition is_async s : bool := MessageFlags.is_asynchronous (message_flags (msgbundle s)).

(** The stub [i] holds an asynchronous message. *)
Definition async_at p i : bool :=
  match at_idx (vec_data p) i with Some s => is_async s | None => false end.

Definition asyncs p ord : list Z := filter (fun i => async_at p i = true) ord.

Definition stub_free s : Prop :=
  msgbundle s = MessageBundle_clear /\ msgid s = MessageId_clear /\ objid s = ObjectId_new /\ flags s = 0.

Record wf p ord ca : Prop := {
  wf_lists : lists p ord ca (asyncs p ord);
  wf_free i s : i ∈ ca -> at_idx (vec_data p) i = Some s -> stub_free s
}.

(** The members of a pool other than its messages. *)
Definition rest p : pool := with_msgs p [] InnerList_new InnerList_new InnerList_new.

(** [p'] is [p] with the stub [i] set to [x], up to links and lists. *)
Record stub_set p p' i x : Prop := {
  ss_at : at_idx (vec_data p') i = Some x;
  ss_other j : j <> i -> at_idx (vec_data p') j = at_idx (vec_data p) j;
  ss_rest : rest p' = rest p
}.

(** [p'] is [p] up to links and lists. *)
Definition same_pool p p' : Prop := vec_data p' = vec_data p /\ rest p' = rest p.

Lemma links_differ : InnerLinkOrder <> InnerLinkAsync.
Proof using Type. done. Qed.

Lemma length_vec_data p : length (vec_data p) = length (msgvec p).
Proof using Type. apply length_fmap. Qed.

Lemma stub_at_eq p i : stub_at p i = of_option (at_idx (vec_data p) i).
Proof using Type.
  unfold stub_at, at_idx, vec_data. case_decide; [|done]. by rewrite list_lookup_fmap.
Qed.

Lemma in_vec_data p i : in_vec (msgvec p) i -> exists s, at_idx (vec_data p) i = Some s.
Proof using Type. intros Hi. apply in_vec_at. unfold in_vec in *. by rewrite length_vec_data. Qed.

Lemma data_in_vec p i s : at_idx (vec_data p) i = Some s -> in_vec (msgvec p) i.
Proof using Type. intros H%at_idx_range. by rewrite length_vec_data in H. Qed.

Lemma wf_in_vec p ord ca i : wf p ord ca -> i ∈ ord -> in_vec (msgvec p) i.
Proof using Type. intros Hw Hi. eapply repr_in_vec; [apply Hw|done]. Qed.

Lemma wf_nodup p ord ca : wf p ord ca -> NoDup ord.
Proof using Type. intros Hw. eapply repr_nodup, Hw. Qed.

(** *** Changes of one stub *)

Lemma stub_set_trans p p1 p2 i x y : stub_set p p1 i x -> stub_set p1 p2 i y -> stub_set p p2 i y.
Proof using Type.
  intros [A1 O1 R1] [A2 O2 R2]. constructor; [done| |congruence].
  intros j Hj. by rewrite O2, O1.
Qed.

Lemma stub_set_same p p1 p2 i x : stub_set p p1 i x -> same_pool p1 p2 -> stub_set p p2 i x.
Proof using Type. intros [A O R] [Hd Hr]. constructor; rewrite ?Hd; try done. by rewrite Hr. Qed.

Lemma same_stub_set p p1 p2 i x : same_pool p p1 -> stub_set p1 p2 i x -> stub_set p p2 i x.
Proof using Type.
  intros [Hd Hr] [A O R]. constructor; [done| |by rewrite R].
  intros j Hj. by rewrite O, Hd.
Qed.

Lemma same_pool_trans p p1 p2 : same_pool p p1 -> same_pool p1 p2 -> same_pool p p2.
Proof using Type. intros [] []. split; congruence. Qed.

Lemma async_set p p' i x : stub_set p p' i x -> async_at p' i = is_async x.
Proof using Type. intros [A _ _]. unfold async_at. by rewrite A. Qed.

Lemma async_other p p' i x j : stub_set p p' i x -> j <> i -> async_at p' j = async_at p j.
Proof using Type. intros [_ O _] Hj. unfold async_at. by rewrite O. Qed.

Lemma filter_ext_in (P Q : Z -> bool) xs :
  (forall i, i ∈ xs -> P i = Q i) -> filter (fun i => P i = true) xs = filter (fun i => Q i = true) xs.
Proof using Type.
  induction xs as [|i xs IH]; intros H; [done|]. rewrite !filter_cons, (H i) by left.
  rewrite IH; [done|]. intros j Hj. apply H. by right.
Qed.

Lemma asyncs_set p p' i x xs : stub_set p p' i x -> i ∉ xs -> asyncs p' xs = asyncs p xs.
Proof using Type.
  intros Hs Hi. apply filter_ext_in. intros j Hj. eapply async_other; [exact Hs|]. by intros ->.
Qed.

Lemma asyncs_same p p' xs : same_pool p p' -> asyncs p' xs = asyncs p xs.
Proof using Type. intros [Hd _]. unfold asyncs, async_at. by rewrite Hd. Qed.

Lemma asyncs_cons p i s ord :
  at_idx (vec_data p) i = Some s ->
  asyncs p (i :: ord) = if is_async s then i :: asyncs p ord else asyncs p ord.
Proof using Type.
  intros Hs. assert (E : async_at p i = is_async s) by (unfold async_at; by rewrite Hs).
  unfold asyncs. rewrite filter_cons. rewrite <- E.
  destruct (async_at p i); [by rewrite decide_True|by rewrite decide_False].
Qed.

Lemma asyncs_app p xs ys : asyncs p (xs ++ ys) = asyncs p xs ++ asyncs p ys.
Proof using Type. apply filter_app. Qed.

Lemma asyncs_in p ord i : i ∈ asyncs p ord -> i ∈ ord.
Proof using Type. unfold asyncs. by intros [_ ?]%list_elem_of_filter. Qed.

(** *** List operations *)

(** The operation of the pool from the operation [spec] on the three lists. *)
Ltac list_op op spec :=
  unfold lists; intros Hr; intros; edestruct spec as (? & ? & E & Ht & Hn);
  [exact links_differ|exact Hr|done..|]; try destruct Hn as [Hn _];
  unfold op; rewrite E; cbn [of_option res_bind]; eexists; split; [done|];
  split; [exact Ht|split; [by apply Hn|done]].

Lemma order_pushBack_spec p ord ca asy i :
  lists p ord ca asy -> in_vec (msgvec p) i -> i ∉ ord -> i ∉ ca ->
  exists p', order_pushBack p i = Done p' /\ lists p' (ord ++ [i]) ca asy /\ same_pool p p'.
Proof using Type. list_op @order_pushBack @own_pushBack. Qed.

Lemma order_pushFront_spec p ord ca asy i :
  lists p ord ca asy -> in_vec (msgvec p) i -> i ∉ ord -> i ∉ ca ->
  exists p', order_pushFront p i = Done p' /\ lists p' (i :: ord) ca asy /\ same_pool p p'.
Proof using Type. list_op @order_pushFront @own_pushFront. Qed.

Lemma order_erase_spec p xs i ys ca asy :
  lists p (xs ++ i :: ys) ca asy ->
  exists p', order_erase p i = Done p' /\ lists p' (xs ++ ys) ca asy /\ same_pool p p'.
Proof using Type. list_op @order_erase @own_erase. Qed.

Lemma order_popFront_spec p i ord ca asy :
  lists p (i :: ord) ca asy ->
  exists p', order_popFront p = Done (p', i) /\ lists p' ord ca asy /\ same_pool p p'.
Proof using Type. list_op @order_popFront @own_popFront. Qed.

Lemma async_pushBack_spec p ord ca asy i :
  lists p ord ca asy -> in_vec (msgvec p) i -> i ∉ asy ->
  exists p', async_pushBack p i = Done p' /\ lists p' ord ca (asy ++ [i]) /\ same_pool p p'.
Proof using Type. list_op @async_pushBack @other_pushBack. Qed.

Lemma async_pushFront_spec p ord ca asy i :
  lists p ord ca asy -> in_vec (msgvec p) i -> i ∉ asy ->
  exists p', async_pushFront p i = Done p' /\ lists p' ord ca (i :: asy) /\ same_pool p p'.
Proof using Type. list_op @async_pushFront @other_pushFront. Qed.

Lemma async_erase_spec p ord ca xs i ys :
  lists p ord ca (xs ++ i :: ys) ->
  exists p', async_erase p i = Done p' /\ lists p' ord ca (xs ++ ys) /\ same_pool p p'.
Proof using Type. list_op @async_erase @other_erase. Qed.

Lemma cache_pushBack_spec p ord ca asy i :
  lists p ord ca asy -> in_vec (msgvec p) i -> i ∉ ord -> i ∉ ca ->
  exists p', cache_pushBack p i = Done p' /\ lists p' ord (ca ++ [i]) asy /\ same_pool p p'.
Proof using Type. list_op @cache_pushBack @free_pushBack. Qed.

Lemma cache_popFront_spec p ord i ca asy :
  lists p ord (i :: ca) asy ->
  exists p', cache_popFront p = Done (p', i) /\ lists p' ord ca asy /\ same_pool p p'.
Proof using Type. list_op @cache_popFront @free_popFront. Qed.

Lemma upd_stub_spec p ord ca asy i x :
  lists p ord ca asy -> in_vec (msgvec p) i ->
  exists p', upd_stub p i x = Done p' /\ lists p' ord ca asy /\ stub_set p p' i x
    /\ length (msgvec p') = length (msgvec p).
Proof using Type.
  intros Hl Hi. destruct (in_vec_at _ _ Hi) as [a Ha]. unfold upd_stub. rewrite Ha.
  cbn [of_option res_bind]. eexists. split; [done|].
  assert (Hd : forall j, at_idx (vec_data (with_msgs p (<[Z.to_nat i:=mkStub (inner_link a) x]> (msgvec p))
      (msgorder_inner_list p) (msgcache_inner_list p) (msgasync_inner_list p))) j
      = if decide (i = j) then Some x else at_idx (vec_data p) j).
  { intros j. unfold vec_data. cbn [msgvec with_msgs]. rewrite list_fmap_insert. apply at_idx_insert.
    by rewrite length_fmap. }
  split; [|split; [constructor; [|intros j Hj|done]; rewrite Hd|]].
  - unfold lists. by apply (tri_update InnerLinkOrder InnerLinkAsync _ _ _ _ _ _ _ i a).
  - by rewrite decide_True.
  - by rewrite decide_False by congruence.
  - cbn [msgvec with_msgs]. apply length_insert.
Qed.

(** ** Operations *)

Lemma same_in p p' i : same_pool p p' -> in_vec (msgvec p) i -> in_vec (msgvec p') i.
Proof using Type. intros [Hd _]. unfold in_vec. by rewrite <- !length_vec_data, Hd. Qed.

Lemma same_length_vec p p' : same_pool p p' -> length (msgvec p') = length (msgvec p).
Proof using Type. intros [Hd _]. by rewrite <- !length_vec_data, Hd. Qed.

Lemma set_in p p' i x : stub_set p p' i x -> in_vec (msgvec p') i.
Proof using Type. intros Hs. eapply data_in_vec, Hs. Qed.

(** The stub [insertMessage] takes: the first free one, or a new one. *)
Definition fresh_stub p ca i s ca' : Prop :=
  (ca = i :: ca' /\ at_idx (vec_data p) i = Some s)
  \/ (ca = [] /\ ca' = [] /\ i = Z.of_nat (length (msgvec p)) /\ s = StubData_new).

Lemma set_in_iff p p' i x j : stub_set p p' i x -> in_vec (msgvec p') j <-> j = i \/ in_vec (msgvec p) j.
Proof using Type.
  intros Hs. split.
  - intros [s E]%in_vec_data. destruct (decide (j = i)) as [->|Hj]; [by left|right].
    rewrite (ss_other _ _ _ _ Hs j Hj) in E. by eapply data_in_vec.
  - intros [->|[s E]%in_vec_data]; [by eapply set_in|]. destruct (decide (j = i)) as [->|Hj]; [by eapply set_in|].
    rewrite <- (ss_other _ _ _ _ Hs j Hj) in E. by eapply data_in_vec.
Qed.

Lemma stub_set_length p p' i x :
  stub_set p p' i x -> in_vec (msgvec p) i -> length (msgvec p') = length (msgvec p).
Proof using Type.
  intros Hs Hi. pose proof (fun j => set_in_iff p p' i x j Hs) as H. unfold in_vec in *.
  pose proof (H (Z.of_nat (length (msgvec p)))). pose proof (H (Z.of_nat (length (msgvec p')))). lia.
Qed.

(** The vector grows by at most the new stub. *)
Lemma fresh_set_length p ord ca i s ca' p' x :
  wf p ord ca -> fresh_stub p ca i s ca' -> stub_set p p' i x ->
  (length (msgvec p') <= S (length (msgvec p)))%nat.
Proof using Type.
  intros Hw Hf Hs. destruct (decide (in_vec (msgvec p) i)) as [Hi|Hi].
  - rewrite (stub_set_length _ _ _ _ Hs Hi). lia.
  - destruct Hf as [[_ ?%data_in_vec]|(_ & _ & -> & _)]; [done|].
    pose proof (set_in_iff p p' _ x (Z.of_nat (length (msgvec p')) - 1) Hs) as H. unfold in_vec in H. lia.
Qed.

(** There is room for one more stub. *)
Definition room p ca : Prop := ca <> [] \/ Z.of_nat (length (msgvec p)) + 1 < nil_idx.

Lemma fresh_free p ord ca i s ca' : wf p ord ca -> fresh_stub p ca i s ca' -> stub_free s.
Proof using Type.
  intros Hw [[-> Hs]|(_ & _ & _ & ->)]; [|done]. eapply wf_free; [done|left|done].
Qed.

Lemma fresh_not_in p ord ca i s ca' : wf p ord ca -> fresh_stub p ca i s ca' -> (i ∉ ord) /\ i ∉ ca'.
Proof using Type.
  intros Hw [[-> Hs]|(-> & -> & -> & ->)].
  - pose proof (wf_lists _ _ _ Hw) as Hl. split.
    + intros Hi. apply (tri_disj _ _ _ _ _ _ _ _ _ Hl i Hi). left.
    + pose proof (repr_nodup _ _ _ _ (tri_free _ _ _ _ _ _ _ _ _ Hl)) as [? _]%NoDup_cons. done.
  - split; [|apply not_elem_of_nil]. intros Hi%(wf_in_vec _ _ _ _ Hw). unfold in_vec in Hi. lia.
Qed.

Lemma fresh_tail p ca i s ca' j : fresh_stub p ca i s ca' -> j ∈ ca' -> j ∈ ca.
Proof using Type. intros [[-> _]|(-> & -> & _)]; [by right|done]. Qed.

Lemma fresh_length p ca i s ca' : fresh_stub p ca i s ca' -> (length ca' <= length ca)%nat.
Proof using Type. intros [[-> _]|(-> & -> & _)]; cbn; lia. Qed.

Lemma at_idx_snoc {D : Type} (v : list D) (d : D) i :
  at_idx (v ++ [d]) i = if decide (i = Z.of_nat (length v)) then Some d else at_idx v i.
Proof using Type.
  unfold at_idx. destruct (decide (i = _)) as [->|Hi].
  - rewrite decide_True by lia. rewrite Nat2Z.id. by rewrite lookup_app_r, Nat.sub_diag by lia.
  - case_decide; [|done]. destruct (decide (i < Z.of_nat (length v))) as [?|?].
    + by rewrite lookup_app_l by lia.
    + rewrite lookup_app_r by lia. rewrite !lookup_ge_None_2; [done|lia|cbn; lia].
Qed.

Lemma insertMessage_spec p ord ca m ty fnc fl :
  wf p ord ca -> room p ca ->
  exists p' i s ca', insertMessage p m ty fnc fl = Done (p', mkMessageId i (unique s))
    /\ fresh_stub p ca i s ca' /\ lists p' ord ca' (asyncs p ord)
    /\ stub_set p p' i (set_bundle (mkBundle ty fl m fnc) s).
Proof using Type.
  intros Hw Hroom. pose proof (wf_lists _ _ _ Hw) as Hl. unfold insertMessage.
  pose proof (tri_free _ _ _ _ _ _ _ _ _ Hl) as Hf. unfold size, frontIndex.
  rewrite (repr_size _ _ _ _ Hf), (repr_front _ _ _ _ Hf). destruct ca as [|i ca].
  - cbn [length]. decide_Z. cbn [negb res_bind].
    set (p1 := with_msgs p (msgvec p ++ [MessageStub_new]) _ _ _).
    assert (Hl1 : lists p1 ord [] (asyncs p ord)).
    { apply tri_grow; [done| |done]. by destruct Hroom as [?|?]. }
    assert (Hd1 : forall j, at_idx (vec_data p1) j
      = if decide (j = Z.of_nat (length (msgvec p))) then Some StubData_new else at_idx (vec_data p) j).
    { intros j. unfold vec_data. cbn [p1 msgvec with_msgs]. rewrite fmap_app. cbn [fmap list_fmap].
      rewrite at_idx_snoc. by rewrite length_fmap. }
    assert (Hs : at_idx (vec_data p1) (Z.of_nat (length (msgvec p))) = Some StubData_new).
    { by rewrite Hd1, decide_True. }
    rewrite stub_at_eq, Hs. cbn [of_option res_bind].
    destruct (upd_stub_spec p1 ord [] _ _ (set_bundle (mkBundle ty fl m fnc) StubData_new) Hl1
      (data_in_vec _ _ _ Hs)) as (p2 & -> & Hl2 & [A O R] & _).
    cbn [res_bind]. eexists _, _, StubData_new, []. split; [done|]. split; [right; done|]. split; [done|].
    constructor; [done| |done]. intros j Hj. rewrite O by done. by rewrite Hd1, decide_False.
  - cbn [length hd]. decide_Z. cbn [negb].
    destruct (cache_popFront_spec p ord i ca _ Hl) as (p1 & -> & Hl1 & Hs1). cbn [res_bind fst].
    destruct (in_vec_data p i) as [s Hs]; [eapply repr_in_vec; [exact Hf|left]|].
    rewrite stub_at_eq, (proj1 Hs1), Hs. cbn [of_option res_bind].
    destruct (upd_stub_spec p1 ord ca _ i (set_bundle (mkBundle ty fl m fnc) s) Hl1)
      as (p2 & -> & Hl2 & Hs2 & _).
    { eapply same_in; [done|]. by eapply data_in_vec. }
    cbn [res_bind]. eexists _, _, s, ca. split; [done|]. split; [by left|]. split; [done|].
    by eapply same_stub_set.
Qed.

(** A wf pool from its lists, when only the stub [i] has changed and it is not free. *)
Lemma wf_of_lists p p' ord ca ord' ca' i x :
  wf p ord ca -> stub_set p p' i x -> lists p' ord' ca' (asyncs p' ord') ->
  (forall j, j ∈ ca' -> j ∈ ca /\ j <> i \/ j = i /\ stub_free x) -> wf p' ord' ca'.
Proof using Type.
  intros Hw Hs Hl Hca. constructor; [done|]. intros j s Hj E.
  destruct (Hca j Hj) as [[Hj' Hne]|[-> Hfree]].
  - rewrite (ss_other _ _ _ _ Hs j Hne) in E. by eapply wf_free.
  - rewrite (ss_at _ _ _ _ Hs) in E. by injection E as <-.
Qed.

Lemma fresh_ca p ord ca i s ca' x :
  wf p ord ca -> fresh_stub p ca i s ca' ->
  forall j, j ∈ ca' -> j ∈ ca /\ j <> i \/ j = i /\ stub_free x.
Proof using Type.
  intros Hw Hf j Hj. left. split; [by eapply fresh_tail|]. intros ->.
  by apply (proj2 (fresh_not_in _ _ _ _ _ _ Hw Hf)).
Qed.

Lemma pushBackMessage_spec p ord ca m ty fnc fl :
  wf p ord ca -> room p ca ->
  exists p' i s ca', pushBackMessage p m ty fnc fl = Done (p', mkMessageId i (unique s))
    /\ fresh_stub p ca i s ca' /\ wf p' (ord ++ [i]) ca'
    /\ stub_set p p' i (set_bundle (mkBundle ty fl m fnc) s).
Proof using Type.
  intros Hw Hroom. unfold pushBackMessage.
  destruct (insertMessage_spec p ord ca m ty fnc fl Hw Hroom) as (p1 & i & s & ca' & -> & Hf & Hl1 & Hs1).
  destruct (fresh_not_in _ _ _ _ _ _ Hw Hf) as [Hno Hnc]. cbn [res_bind index].
  destruct (order_pushBack_spec p1 ord ca' _ i Hl1 (set_in _ _ _ _ Hs1) Hno Hnc) as (p2 & -> & Hl2 & Hs2).
  cbn [res_bind]. pose proof (stub_set_same _ _ _ _ _ Hs1 Hs2) as Hs2'.
  assert (Hwf : forall p', stub_set p p' i (set_bundle (mkBundle ty fl m fnc) s) ->
    lists p' (ord ++ [i]) ca' (asyncs p ord ++ if MessageFlags.is_asynchronous fl then [i] else []) ->
    wf p' (ord ++ [i]) ca').
  { intros p' Hs' Hl'. eapply wf_of_lists; [done|done| |by eapply fresh_ca].
    rewrite asyncs_app, (asyncs_set _ _ _ _ _ Hs' Hno), (asyncs_cons _ _ _ _ (ss_at _ _ _ _ Hs')).
    unfold is_async. cbn [msgbundle set_bundle message_flags]. by destruct (MessageFlags.is_asynchronous fl). }
  destruct (MessageFlags.is_asynchronous fl).
  - destruct (async_pushBack_spec p2 (ord ++ [i]) ca' (asyncs p ord) i Hl2) as (p3 & -> & Hl3 & Hs3).
    { by eapply set_in. }
    { by intros ?%asyncs_in. }
    cbn [res_bind]. pose proof (stub_set_same _ _ _ _ _ Hs2' Hs3) as Hs3'. eauto 10.
  - cbn [res_bind]. exists p2, i, s, ca'. split_and!; try done. apply Hwf; [done|].
    by rewrite app_nil_r.
Qed.

(** Queues a stub at the front, which is what [pushFrontMessage] and [reinsertFrontMessage] end with. *)
Lemma push_front_spec p p1 ord ca ca' i x (id : MessageId) :
  wf p ord ca -> stub_set p p1 i x -> lists p1 ord ca' (asyncs p ord) -> i ∉ ord -> i ∉ ca' ->
  (forall j, j ∈ ca' -> j ∈ ca) ->
  exists p', (let! p1 := order_pushFront p1 i in
              let! p1 := if is_async x then async_pushFront p1 i else Done p1 in
              Done (p1, id)) = Done (p', id)
    /\ wf p' (i :: ord) ca' /\ stub_set p p' i x.
Proof using Type.
  intros Hw Hs1 Hl1 Hno Hnc Hca.
  destruct (order_pushFront_spec p1 ord ca' _ i Hl1 (set_in _ _ _ _ Hs1) Hno Hnc) as (p2 & -> & Hl2 & Hs2).
  cbn [res_bind]. pose proof (stub_set_same _ _ _ _ _ Hs1 Hs2) as Hs2'.
  assert (Hwf : forall p', stub_set p p' i x ->
    lists p' (i :: ord) ca' (if is_async x then i :: asyncs p ord else asyncs p ord) -> wf p' (i :: ord) ca').
  { intros p' Hs' Hl'. eapply wf_of_lists; [done|done| |].
    - by rewrite (asyncs_cons _ _ _ _ (ss_at _ _ _ _ Hs')), (asyncs_set _ _ _ _ _ Hs' Hno).
    - intros j Hj. left. split; [by apply Hca|]. by intros ->. }
  destruct (is_async x).
  - destruct (async_pushFront_spec p2 (i :: ord) ca' (asyncs p ord) i Hl2) as (p3 & -> & Hl3 & Hs3).
    { by eapply set_in. }
    { by intros ?%asyncs_in. }
    cbn [res_bind]. pose proof (stub_set_same _ _ _ _ _ Hs2' Hs3) as Hs3'. eauto 10.
  - cbn [res_bind]. eauto 10.
Qed.

Lemma pushFrontMessage_spec p ord ca m ty fnc fl :
  wf p ord ca -> room p ca ->
  exists p' i s ca', pushFrontMessage p m ty fnc fl = Done (p', mkMessageId i (unique s))
    /\ fresh_stub p ca i s ca' /\ wf p' (i :: ord) ca'
    /\ stub_set p p' i (set_bundle (mkBundle ty fl m fnc) s).
Proof using Type.
  intros Hw Hroom. unfold pushFrontMessage.
  destruct (insertMessage_spec p ord ca m ty fnc fl Hw Hroom) as (p1 & i & s & ca' & -> & Hf & Hl1 & Hs1).
  destruct (fresh_not_in _ _ _ _ _ _ Hw Hf) as [Hno Hnc]. cbn [res_bind index].
  destruct (push_front_spec p p1 ord ca ca' i _ (mkMessageId i (unique s)) Hw Hs1 Hl1 Hno Hnc) as (p' & E & Hw' & Hs').
  { intros j. by apply (fresh_tail _ _ _ _ _ _ Hf). }
  exists p', i, s, ca'. by split_and!.
Qed.

Lemma reinsertFrontMessage_spec p ord ca i s (id : MessageId) m ty fnc fl :
  wf p ord ca -> index id = i -> at_idx (vec_data p) i = Some s -> i ∉ ord -> i ∉ ca ->
  exists p', reinsertFrontMessage p id m ty fnc fl = Done (p', id) /\ wf p' (i :: ord) ca
    /\ stub_set p p' i (set_bundle (mkBundle ty fl m fnc) s).
Proof using Type.
  intros Hw <- Hs Hno Hnc. unfold reinsertFrontMessage. rewrite stub_at_eq, Hs. cbn [of_option res_bind].
  destruct (upd_stub_spec p ord ca _ (index id) (set_bundle (mkBundle ty fl m fnc) s) (wf_lists _ _ _ Hw)
    (data_in_vec _ _ _ Hs)) as (p1 & -> & Hl1 & Hs1 & _). cbn [res_bind].
  by destruct (push_front_spec p p1 ord ca ca (index id) _ id Hw Hs1 Hl1 Hno Hnc) as (p' & E & Hw' & Hs'); eauto.
Qed.

(** *** Taking messages out *)

(** Unlinks a queued stub, whose other members are [x] by then. *)
Lemma unlink_spec p p1 xs i ys ca s x :
  wf p (xs ++ i :: ys) ca -> at_idx (vec_data p) i = Some s -> stub_set p p1 i x ->
  lists p1 (xs ++ i :: ys) ca (asyncs p (xs ++ i :: ys)) ->
  exists p2 p3, order_erase p1 i = Done p2
    /\ (if is_async s then async_erase p2 i else Done p2) = Done p3
    /\ lists p3 (xs ++ ys) ca (asyncs p3 (xs ++ ys)) /\ stub_set p p3 i x /\ same_pool p1 p3.
Proof using Type.
  intros Hw Hs Hs1 Hl1. destruct (nodup_remove xs ys i (wf_nodup _ _ _ Hw)) as [Hni _].
  destruct (order_erase_spec p1 xs i ys ca _ Hl1) as (p2 & E2 & Hl2 & Hs2). exists p2. rewrite E2.
  rewrite asyncs_app, (asyncs_cons _ _ _ _ Hs) in Hl2.
  assert (Hfin : forall p3, same_pool p1 p3 -> lists p3 (xs ++ ys) ca (asyncs p (xs ++ ys)) ->
    lists p3 (xs ++ ys) ca (asyncs p3 (xs ++ ys)) /\ stub_set p p3 i x /\ same_pool p1 p3).
  { intros p3 Hs3 Hl3. pose proof (stub_set_same _ _ _ _ _ Hs1 Hs3) as Hs3'.
    by rewrite (asyncs_set _ _ _ _ _ Hs3' Hni). }
  destruct (is_async s).
  - destruct (async_erase_spec p2 _ _ _ i _ Hl2) as (p3 & E3 & Hl3 & Hs3). exists p3.
    split; [done|]. split; [done|]. apply Hfin; [by eapply same_pool_trans|]. by rewrite asyncs_app.
  - exists p2. split; [done|]. split; [done|]. apply Hfin; [done|]. by rewrite asyncs_app.
Qed.

Lemma stub_set_refl p i s : at_idx (vec_data p) i = Some s -> stub_set p p i s.
Proof using Type. by constructor. Qed.

Lemma stub_free_clear s : stub_free (StubData_clear s).
Proof using Type. done. Qed.

(** Puts a stub that is in no list into the cache: clearing it first, or last. *)
Lemma clear_cache_spec p ord ca asy i s :
  lists p ord ca asy -> at_idx (vec_data p) i = Some s -> i ∉ ord -> i ∉ ca ->
  exists p1 p2, upd_stub p i (StubData_clear s) = Done p1 /\ cache_pushBack p1 i = Done p2
    /\ lists p2 ord (ca ++ [i]) asy /\ stub_set p p2 i (StubData_clear s).
Proof using Type.
  intros Hl Hs Hno Hnc.
  destruct (upd_stub_spec p ord ca asy i (StubData_clear s) Hl (data_in_vec _ _ _ Hs)) as (p1 & E1 & Hl1 & Hs1 & _).
  destruct (cache_pushBack_spec p1 ord ca asy i Hl1 (set_in _ _ _ _ Hs1) Hno Hnc) as (p2 & E2 & Hl2 & Hs2).
  exists p1, p2. split_and!; try done. by eapply stub_set_same.
Qed.

Lemma cache_clear_spec p ord ca asy i s :
  lists p ord ca asy -> in_vec (msgvec p) i -> i ∉ ord -> i ∉ ca ->
  exists p1 p2, cache_pushBack p i = Done p1 /\ upd_stub p1 i (StubData_clear s) = Done p2
    /\ lists p2 ord (ca ++ [i]) asy /\ stub_set p p2 i (StubData_clear s).
Proof using Type.
  intros Hl Hi Hno Hnc.
  destruct (cache_pushBack_spec p ord ca asy i Hl Hi Hno Hnc) as (p1 & E1 & Hl1 & Hs1).
  destruct (upd_stub_spec p1 ord (ca ++ [i]) asy i (StubData_clear s) Hl1 (same_in _ _ _ Hs1 Hi)) as (p2 & E2 & Hl2 & Hs2 & _).
  exists p1, p2. split_and!; try done. by eapply same_stub_set.
Qed.

Lemma cached_ca ca i (s : stub) :
  i ∉ ca -> forall j, j ∈ ca ++ [i] -> j ∈ ca /\ j <> i \/ j = i /\ stub_free (StubData_clear s).
Proof using Type.
  intros Hi j [Hj| ->%list_elem_of_singleton]%elem_of_app; [left|by right].
  split; [done|]. by intros ->.
Qed.

Lemma clearAndCacheMessage_spec p ord ca i s :
  wf p ord ca -> at_idx (vec_data p) i = Some s -> i ∉ ord -> i ∉ ca ->
  exists p', clearAndCacheMessage p i = Done p' /\ wf p' ord (ca ++ [i]) /\ stub_set p p' i (StubData_clear s).
Proof using Type.
  intros Hw Hs Hno Hnc. unfold clearAndCacheMessage. rewrite stub_at_eq, Hs. cbn [of_option res_bind].
  destruct (clear_cache_spec p ord ca _ i s (wf_lists _ _ _ Hw) Hs Hno Hnc) as (p1 & p2 & -> & E2 & Hl & Hs2).
  cbn [res_bind]. rewrite E2. exists p2. split; [done|]. split; [|done].
  eapply wf_of_lists; [done|done| |by apply cached_ca]. by rewrite (asyncs_set _ _ _ _ _ Hs2).
Qed.

(** [cacheMessageId] frees the stub of the message it names, and does nothing for a message
    whose stub has been freed since. *)
Lemma cacheMessageId_spec p ord ca (id : MessageId) :
  wf p ord ca -> 0 <= index id ->
  (forall s, at_idx (vec_data p) (index id) = Some s -> unique s = unique_ id ->
    (index id ∉ ord) /\ index id ∉ ca) ->
  exists p' ca', cacheMessageId p id = Done p' /\ wf p' ord ca' /\ rest p' = rest p
    /\ match at_idx (vec_data p) (index id) with
       | Some s => if unique s =? unique_ id
                   then ca' = ca ++ [index id] /\ stub_set p p' (index id) (StubData_clear s)
                   else p' = p /\ ca' = ca
       | None => p' = p /\ ca' = ca
       end.
Proof using Type.
  intros Hw Hi Hdet. unfold cacheMessageId. case_Z.
  - destruct (in_vec_data p (index id)) as [s Hs]; [done|]. rewrite stub_at_eq, Hs.
    cbn [of_option res_bind]. destruct (Z.eqb_spec (unique s) (unique_ id)) as [Hu|Hu].
    + destruct (Hdet s Hs Hu) as [Hno Hnc].
      destruct (clear_cache_spec p ord ca _ _ s (wf_lists _ _ _ Hw) Hs Hno Hnc) as (p1 & p2 & -> & E2 & Hl & Hs2).
      cbn [res_bind]. rewrite E2. exists p2, (ca ++ [index id]). split; [done|].
      split; [|split; [apply Hs2|done]].
      eapply wf_of_lists; [done|done| |by apply cached_ca]. by rewrite (asyncs_set _ _ _ _ _ Hs2).
    + by exists p, ca.
  - exists p, ca. split; [done|]. split; [done|]. split; [done|].
    destruct (at_idx (vec_data p) (index id)) eqn:E; [|done].
    apply data_in_vec in E as [_ ?]. lia.
Qed.

Lemma clearPopAndCacheMessage_spec p xs i ys ca s :
  wf p (xs ++ i :: ys) ca -> at_idx (vec_data p) i = Some s ->
  exists p', clearPopAndCacheMessage p i = Done p' /\ wf p' (xs ++ ys) (ca ++ [i])
    /\ stub_set p p' i (StubData_clear s).
Proof using Type.
  intros Hw Hs. unfold clearPopAndCacheMessage. rewrite stub_at_eq, Hs. cbn [of_option res_bind].
  destruct (unlink_spec p p xs i ys ca s s Hw Hs (stub_set_refl _ _ _ Hs) (wf_lists _ _ _ Hw))
    as (p2 & p3 & -> & E3 & Hl3 & Hs3 & _).
  cbn [res_bind]. fold (is_async s). rewrite E3. cbn [res_bind].
  destruct (nodup_remove xs ys i (wf_nodup _ _ _ Hw)) as [Hni _].
  assert (Hnc : i ∉ ca) by (eapply tri_disj; [apply Hw|set_solver]).
  destruct (cache_clear_spec p3 (xs ++ ys) ca _ i s Hl3 (set_in _ _ _ _ Hs3) Hni Hnc) as (p4 & p5 & -> & E5 & Hl5 & Hs5).
  cbn [res_bind]. exists p5. split; [done|].
  pose proof (stub_set_trans _ _ _ _ _ _ Hs3 Hs5) as Hs5'. split; [|done].
  eapply wf_of_lists; [done|done| |by apply cached_ca]. by rewrite (asyncs_set _ _ _ _ _ Hs5).
Qed.

(** A change of a stub that keeps the lists: the message stays where it is queued. *)
Lemma wf_upd p ord ca i s x :
  wf p ord ca -> at_idx (vec_data p) i = Some s -> is_async x = is_async s -> i ∉ ca ->
  exists p', upd_stub p i x = Done p' /\ wf p' ord ca /\ stub_set p p' i x
    /\ length (msgvec p') = length (msgvec p).
Proof using Type.
  intros Hw Hs Ha Hnc.
  destruct (upd_stub_spec p ord ca _ i x (wf_lists _ _ _ Hw) (data_in_vec _ _ _ Hs)) as (p' & E & Hl & Hs' & Hlen).
  exists p'. split_and!; try done. eapply wf_of_lists; [done|done| |].
  - assert (asyncs p' ord = asyncs p ord) as ->; [|done]. apply filter_ext_in.
    intros j _. destruct (decide (j = i)) as [->|Hj]; [|by apply (async_other _ _ _ _ _ Hs')].
    rewrite (async_set _ _ _ _ Hs'), Ha. unfold async_at. by rewrite Hs.
  - intros j Hj. left. split; [done|]. by intros ->.
Qed.

(** *** Clearing a pool *)

Definition cleared p : pool :=
  mkPool (wrap 32 (pool_unique p + 1)) 0 0 0 EmptyString ObjectId_new [] InnerList_new InnerList_new
    InnerList_new [] 0 0 [].

Lemma pool_clear_spec p ord ca asy : lists p ord ca asy -> pool_clear p = Done (cleared p).
Proof using Type.
  intros Hl. unfold pool_clear.
  destruct (free_clear _ _ links_differ _ _ _ _ _ _ _ Hl) as (v1 & -> & Hl1 & _). cbn [of_option res_bind].
  destruct (own_clear _ _ links_differ _ _ _ _ _ _ _ Hl1) as (v2 & -> & Hl2 & _). cbn [of_option res_bind].
  by destruct (other_clear _ _ links_differ _ _ _ _ _ _ _ Hl2) as (v3 & -> & Hl3 & _).
Qed.

Lemma wf_empty p :
  msgvec p = [] -> msgorder_inner_list p = InnerList_new -> msgcache_inner_list p = InnerList_new ->
  msgasync_inner_list p = InnerList_new -> wf p [] [].
Proof using Type.
  intros E1 E2 E3 E4. constructor; [|by intros i s ?%not_elem_of_nil].
  unfold lists. rewrite E1, E2, E3, E4.
  constructor; [apply repr_new|apply repr_new|apply repr_new|done|by intros i ?%not_elem_of_nil|].
  intros i [? Hi]. cbn in Hi. lia.
Qed.

Lemma wf_new : wf (ConnectionPoolStub_new : pool) [] [].
Proof using Type. by apply wf_empty. Qed.

Lemma wf_cleared p : wf (cleared p) [] [].
Proof using Type. by apply wf_empty. Qed.

(** The invariant is about the messages only. *)
Lemma wf_msgs p p' ord ca :
  msgvec p' = msgvec p -> msgorder_inner_list p' = msgorder_inner_list p ->
  msgcache_inner_list p' = msgcache_inner_list p -> msgasync_inner_list p' = msgasync_inner_list p ->
  wf p ord ca -> wf p' ord ca.
Proof using Type.
  intros E1 E2 E3 E4 [Hl Hf]. unfold lists, asyncs, async_at, vec_data in *.
  constructor; [unfold lists, asyncs, async_at, vec_data; by rewrite E1, E2, E3, E4|].
  intros i s. unfold vec_data. rewrite E1. apply Hf.
Qed.

(** *** Observers *)

Lemma order_size p ord ca : wf p ord ca -> size (msgorder_inner_list p) = Z.of_nat (length ord).
Proof using Type. intros Hw. eapply repr_size, Hw. Qed.

Lemma order_front p ord ca : wf p ord ca -> frontIndex (msgorder_inner_list p) = hd nil_idx ord.
Proof using Type. intros Hw. eapply repr_front, Hw. Qed.

Lemma async_size p ord ca : wf p ord ca -> size (msgasync_inner_list p) = Z.of_nat (length (asyncs p ord)).
Proof using Type. intros Hw. eapply repr_size, Hw. Qed.

Lemma async_front p ord ca : wf p ord ca -> frontIndex (msgasync_inner_list p) = hd nil_idx (asyncs p ord).
Proof using Type. intros Hw. eapply repr_front, Hw. Qed.

(** The pool has no message to send when the queue is empty or starts with a null message. *)
Definition no_message p ord : bool :=
  match ord with
  | [] => true
  | i :: _ => match at_idx (vec_data p) i with
              | Some s => bool_decide (message_ptr (msgbundle s) = None)
              | None => false
              end
  end.

Lemma hasNoMessage_spec p ord ca : wf p ord ca -> hasNoMessage p = Done (no_message p ord).
Proof using Type.
  intros Hw. unfold hasNoMessage, InnerList.empty.
  change (size_ (msgorder_inner_list p)) with (size (msgorder_inner_list p)).
  rewrite (order_size _ _ _ Hw). destruct ord as [|i ord]; cbn [length]; decide_Z; [done|].
  unfold front. change (front_ (msgorder_inner_list p)) with (frontIndex (msgorder_inner_list p)).
  rewrite (order_front _ _ _ Hw). cbn [hd no_message].
  destruct (in_vec_at _ _ (wf_in_vec _ _ _ i Hw ltac:(left))) as [a Ha]. rewrite Ha.
  cbn [of_option res_bind]. unfold vec_data, at_idx in *. case_decide; [|done].
  rewrite list_lookup_fmap, Ha. done.
Qed.

Lemma isFull_spec p ord ca n :
  wf p ord ca -> isFull p n = bool_decide (ca = []) && (n <=? Z.of_nat (length (msgvec p))).
Proof using Type.
  intros Hw. unfold isFull, InnerList.empty. f_equal.
  rewrite (repr_size _ _ _ _ (tri_free _ _ _ _ _ _ _ _ _ (wf_lists _ _ _ Hw))).
  destruct ca; cbn [length]; decide_Z; [by rewrite bool_decide_eq_true_2|by rewrite bool_decide_eq_false_2].
Qed.

(** *** Flags *)

Lemma has_flag_testbit p k : 0 <= k -> has_flag p (2 ^ k) = Z.testbit (pool_flags p) k.
Proof using Type. intros Hk. unfold has_flag. by apply land_pow2_testbit. Qed.

Lemma flag_closing p : isClosing p = Z.testbit (pool_flags p) 0.
Proof using Type. by apply (has_flag_testbit p 0). Qed.
Lemma flag_fast_closing p : isFastClosing p = Z.testbit (pool_flags p) 1.
Proof using Type. by apply (has_flag_testbit p 1). Qed.
Lemma flag_main_stopping p : isMainConnectionStopping p = Z.testbit (pool_flags p) 2.
Proof using Type. by apply (has_flag_testbit p 2). Qed.
Lemma flag_clean_one_shot p : isCleaningOneShotMessages p = Z.testbit (pool_flags p) 3.
Proof using Type. by apply (has_flag_testbit p 3). Qed.
Lemma flag_clean_all p : isCleaningAllMessages p = Z.testbit (pool_flags p) 4.
Proof using Type. by apply (has_flag_testbit p 4). Qed.
Lemma flag_restart p : isRestarting p = Z.testbit (pool_flags p) 5.
Proof using Type. by apply (has_flag_testbit p 5). Qed.
Lemma flag_main_active p : isMainConnectionActive p = Z.testbit (pool_flags p) 6.
Proof using Type. by apply (has_flag_testbit p 6). Qed.

(** ** A pool is a queue

    Seen from outside, a pool is a queue of bundles: messages are queued at either end, and
    taken in order or, by a connection that may not send synchronous messages, from the first
    asynchronous one on. *)

Inductive pool_op : Type :=
  | PushBack (b : bundle)
  | PushFront (b : bundle)
  | TakeFirst
  | TakeFirstAsync.

(** The stub at the front of a list, freed. *)
Definition take_run p (l : InnerList) : res (pool * option bundle) :=
  if negb (size l =? 0) then
    let! s := stub_at p (frontIndex l) in
    let! p := clearPopAndCacheMessage p (frontIndex l) in
    Done (p, Some (msgbundle s))
  else Done (p, None).

Definition pool_run p (o : pool_op) : res (pool * option bundle) :=
  match o with
  | PushBack b =>
      let! r := pushBackMessage p (message_ptr b) (message_type_id b) (complete_fnc b) (message_flags b) in
      Done (r.1, None)
  | PushFront b =>
      let! r := pushFrontMessage p (message_ptr b) (message_type_id b) (complete_fnc b) (message_flags b) in
      Done (r.1, None)
  | TakeFirst => take_run p (msgorder_inner_list p)
  | TakeFirstAsync => take_run p (msgasync_inner_list p)
  end.

Fixpoint pool_runs p (os : list pool_op) : res (pool * list (option bundle)) :=
  match os with
  | [] => Done (p, [])
  | o :: os =>
      let! r := pool_run p o in
      let! rs := pool_runs r.1 os in
      Done (rs.1, r.2 :: rs.2)
  end.

Definition async_bundle b : bool := MessageFlags.is_asynchronous (message_flags b).

(** Takes the first bundle that satisfies [f]. *)
Fixpoint take_first (f : bundle -> bool) (q : list bundle) : option bundle * list bundle :=
  match q with
  | [] => (None, [])
  | b :: q => if f b then (Some b, q) else let r := take_first f q in (r.1, b :: r.2)
  end.

Definition queue_run (q : list bundle) (o : pool_op) : option bundle * list bundle :=
  match o with
  | PushBack b => (None, q ++ [b])
  | PushFront b => (None, b :: q)
  | TakeFirst => take_first (fun _ => true) q
  | TakeFirstAsync => take_first async_bundle q
  end.

Fixpoint queue_runs (q : list bundle) (os : list pool_op) : list (option bundle) * list bundle :=
  match os with
  | [] => ([], q)
  | o :: os => let r := queue_run q o in let rs := queue_runs r.2 os in (r.1 :: rs.1, rs.2)
  end.

(** The bundles of the queued messages, in order. *)
Definition queue_of p ord : list bundle := omap (fun i => msgbundle <$> at_idx (vec_data p) i) ord.

Lemma queue_of_app p xs ys : queue_of p (xs ++ ys) = queue_of p xs ++ queue_of p ys.
Proof using Type. apply omap_app. Qed.

Lemma queue_of_cons p i s ord :
  at_idx (vec_data p) i = Some s -> queue_of p (i :: ord) = msgbundle s :: queue_of p ord.
Proof using Type. intros Hs. unfold queue_of. cbn [omap list_omap]. by rewrite Hs. Qed.

Lemma queue_of_set p p' i x ord : stub_set p p' i x -> i ∉ ord -> queue_of p' ord = queue_of p ord.
Proof using Type.
  intros Hs. induction ord as [|j ord IH]; intros Hi; [done|]. unfold queue_of in *. cbn [omap list_omap].
  rewrite (ss_other _ _ _ _ Hs j) by set_solver. by rewrite IH by set_solver.
Qed.

(** A change of a stub that keeps its bundle. *)
Lemma queue_of_keep p p' i s x ord :
  stub_set p p' i x -> at_idx (vec_data p) i = Some s -> msgbundle x = msgbundle s ->
  queue_of p' ord = queue_of p ord.
Proof using Type.
  intros Hs Hi Hb. unfold queue_of. induction ord as [|j ord IH]; [done|]. cbn [omap list_omap]. rewrite IH.
  destruct (decide (j = i)) as [->|Hj]; [|by rewrite (ss_other _ _ _ _ Hs j Hj)].
  rewrite (ss_at _ _ _ _ Hs), Hi. cbn. by rewrite Hb.
Qed.

(** What [take_first] does on the queue, on the indexes. *)
Lemma take_first_split p ord (f : bundle -> bool) (g : Z -> bool) :
  (forall i, i ∈ ord -> exists s, at_idx (vec_data p) i = Some s /\ g i = f (msgbundle s)) ->
  match filter (fun i => g i = true) ord with
  | [] => take_first f (queue_of p ord) = (None, queue_of p ord)
  | i :: _ => exists xs ys s, ord = xs ++ i :: ys /\ at_idx (vec_data p) i = Some s
      /\ take_first f (queue_of p ord) = (Some (msgbundle s), queue_of p (xs ++ ys))
  end.
Proof using Type.
  induction ord as [|j ord IH]; intros Hin; [done|].
  destruct (Hin j ltac:(left)) as (s & Hs & Hg). rewrite filter_cons.
  rewrite (queue_of_cons _ _ _ _ Hs). cbn [take_first]. rewrite <- Hg. destruct (g j) eqn:Ej.
  - rewrite decide_True by done. by exists [], ord, s.
  - rewrite decide_False by congruence. assert (IH' := IH ltac:(intros i Hi; apply Hin; by right)).
    destruct (filter _ ord) as [|i zs]; [by rewrite IH'|].
    destruct IH' as (xs & ys & s' & -> & Hs' & ->). exists (j :: xs), ys, s'.
    split; [done|]. split; [done|]. cbn [fst snd app]. by rewrite (queue_of_cons _ _ _ _ Hs).
Qed.

Lemma filter_true (xs : list Z) : filter (fun _ => true = true) xs = xs.
Proof using Type. induction xs as [|i xs IH]; [done|]. by rewrite filter_cons, decide_True, IH. Qed.

Lemma take_run_spec p ord ca l (f : bundle -> bool) (g : Z -> bool) :
  wf p ord ca -> size l = Z.of_nat (length (filter (fun i => g i = true) ord)) ->
  frontIndex l = hd nil_idx (filter (fun i => g i = true) ord) ->
  (forall i, i ∈ ord -> exists s, at_idx (vec_data p) i = Some s /\ g i = f (msgbundle s)) ->
  exists p' ord' ca', take_run p l = Done (p', (take_first f (queue_of p ord)).1) /\ wf p' ord' ca'
    /\ queue_of p' ord' = (take_first f (queue_of p ord)).2 /\ length (msgvec p') = length (msgvec p).
Proof using Type.
  intros Hw Hsz Hfr Hin. pose proof (take_first_split p ord f g Hin) as Ht. unfold take_run.
  rewrite Hsz, Hfr. destruct (filter _ ord) as [|i zs]; cbn [length hd]; decide_Z; cbn [negb].
  - exists p, ord, ca. by rewrite Ht.
  - destruct Ht as (xs & ys & s & -> & Hs & ->). rewrite stub_at_eq, Hs. cbn [of_option res_bind].
    destruct (clearPopAndCacheMessage_spec p xs i ys ca s Hw Hs) as (p' & -> & Hw' & Hs').
    cbn [res_bind fst snd]. exists p', (xs ++ ys), (ca ++ [i]). split; [done|]. split; [done|].
    destruct (nodup_remove xs ys i (wf_nodup _ _ _ Hw)) as [Hni _].
    split; [by eapply queue_of_set|]. eapply stub_set_length; [done|]. by eapply data_in_vec.
Qed.

Lemma pool_run_spec p ord ca (o : pool_op) :
  wf p ord ca -> room p ca ->
  exists p' ord' ca', pool_run p o = Done (p', (queue_run (queue_of p ord) o).1) /\ wf p' ord' ca'
    /\ queue_of p' ord' = (queue_run (queue_of p ord) o).2
    /\ (length (msgvec p') <= S (length (msgvec p)))%nat.
Proof using Type.
  intros Hw Hroom.
  assert (Hin : forall i, i ∈ ord -> exists s, at_idx (vec_data p) i = Some s).
  { intros i Hi. by eapply in_vec_data, wf_in_vec. }
  destruct o as [b|b| |]; cbn [pool_run queue_run fst snd].
  - destruct (pushBackMessage_spec p ord ca (message_ptr b) (message_type_id b) (complete_fnc b)
      (message_flags b) Hw Hroom) as (p' & i & s & ca' & -> & Hf & Hw' & Hs').
    destruct (fresh_not_in _ _ _ _ _ _ Hw Hf) as [Hno _].
    cbn [res_bind fst]. exists p', (ord ++ [i]), ca'. split; [done|]. split; [done|].
    split; [|by eapply fresh_set_length].
    rewrite queue_of_app, (queue_of_set _ _ _ _ _ Hs' Hno), (queue_of_cons _ _ _ _ (ss_at _ _ _ _ Hs')).
    by destruct b.
  - destruct (pushFrontMessage_spec p ord ca (message_ptr b) (message_type_id b) (complete_fnc b)
      (message_flags b) Hw Hroom) as (p' & i & s & ca' & -> & Hf & Hw' & Hs').
    destruct (fresh_not_in _ _ _ _ _ _ Hw Hf) as [Hno _].
    cbn [res_bind fst]. exists p', (i :: ord), ca'. split; [done|]. split; [done|].
    split; [|by eapply fresh_set_length].
    rewrite (queue_of_cons _ _ _ _ (ss_at _ _ _ _ Hs')), (queue_of_set _ _ _ _ _ Hs' Hno). by destruct b.
  - destruct (take_run_spec p ord ca (msgorder_inner_list p) (fun _ => true) (fun _ => true) Hw)
      as (p' & ord' & ca' & E & Hw' & Hq & Hlen).
    + by rewrite (order_size _ _ _ Hw), filter_true.
    + by rewrite (order_front _ _ _ Hw), filter_true.
    + intros i Hi. destruct (Hin i Hi) as [s Hs]. eauto.
    + exists p', ord', ca'. split_and!; try done. lia.
  - destruct (take_run_spec p ord ca (msgasync_inner_list p) async_bundle (async_at p) Hw)
      as (p' & ord' & ca' & E & Hw' & Hq & Hlen).
    + apply (async_size _ _ _ Hw).
    + apply (async_front _ _ _ Hw).
    + intros i Hi. destruct (Hin i Hi) as [s Hs]. exists s. split; [done|]. unfold async_at. by rewrite Hs.
    + exists p', ord', ca'. split_and!; try done. lia.
Qed.

Lemma pool_runs_spec p ord ca (os : list pool_op) :
  wf p ord ca -> Z.of_nat (length (msgvec p)) + Z.of_nat (length os) < nil_idx ->
  exists p' ord' ca', pool_runs p os = Done (p', (queue_runs (queue_of p ord) os).1) /\ wf p' ord' ca'
    /\ queue_of p' ord' = (queue_runs (queue_of p ord) os).2.
Proof using Type.
  revert p ord ca. induction os as [|o os IH]; intros p ord ca Hw Hlen.
  { by exists p, ord, ca. }
  cbn [length] in Hlen. cbn [pool_runs queue_runs fst snd].
  destruct (pool_run_spec p ord ca o Hw) as (p1 & ord1 & ca1 & -> & Hw1 & Hq1 & Hl1); [right; lia|].
  cbn [res_bind fst snd]. rewrite <- Hq1.
  destruct (IH p1 ord1 ca1 Hw1) as (p2 & ord2 & ca2 & -> & Hw2 & Hq2); [lia|].
  cbn [res_bind fst snd]. by exists p2, ord2, ca2.
Qed.

(** C31: a pool refines a queue of bundles: any sequence of messages queued at either end and of
    messages taken in order or from the first asynchronous one runs without touching memory it
    must not touch, hands out the bundles the queue hands out, and leaves the pool with the
    messages the queue has, its lists intact. *)
Theorem pool_refines_queue (os : list pool_op) :
  Z.of_nat (length os) < nil_idx ->
  exists p' ord' ca',
    pool_runs ConnectionPoolStub_new os = Done (p', (queue_runs [] os).1)
    /\ wf p' ord' ca' /\ queue_of p' ord' = (queue_runs [] os).2.
Proof using Type. intros Hlen. by apply (pool_runs_spec ConnectionPoolStub_new [] []); [apply wf_new|]. Qed.

End Proofs.

(** ** Witness *)

(** A synchronous and two asynchronous messages; the first asynchronous one is taken before the
    synchronous one. *)
Definition sample_ops : list (@pool_op Z unit) :=
  [PushBack (mkBundle 1 MessageFlags.Synchronous (Some 10) None); PushBack (mkBundle 1 0 (Some 11) None);
   TakeFirstAsync; PushFront (mkBundle 1 0 (Some 12) None); TakeFirst; TakeFirst; TakeFirst].

Lemma pool_refines_queue_witness :
  Z.of_nat (length sample_ops) < nil_idx
  /\ exists (p' : ConnectionPoolStub Z unit Z) ord' ca',
      pool_runs ConnectionPoolStub_new sample_ops = Done (p', (queue_runs [] sample_ops).1)
      /\ wf p' ord' ca' /\ queue_of p' ord' = [].
Proof. split; [done|]. apply (pool_refines_queue sample_ops). done. Defined.

End PoolProofs.
