(* ===== verification/Connection.v ===== *)
(** * A connection, as its service sees it

    solid/frame/mpipc/src/mpipcconnection.hpp and mpipcconnection.cpp: the members of
    [Connection] that the pool operations of the service read and change, with the methods the
    service calls, and the events a connection is notified with. *)

From stdpp Require Import strings.
From S2P Require Import Prelude FrameCommon InnerList Packet MessageWriter Pool.
Import FrameCommon(UniqueId, mkUniqueId).
#[local] Open Scope res_scope.

Module Connection.

(** [Flags] of mpipcconnection.cpp *)
Module Flags.
Definition Active : Z := 0x0001.
Definition Server : Z := 0x0002.
Definition Keepalive : Z := 0x0004.
Definition WaitKeepAliveTimer : Z := 0x0008.
Definition StopPeer : Z := 0x0010.
Definition HasActivity : Z := 0x0020.
Definition PollPool : Z := 0x0040.
Definition Stopping : Z := 0x0080.
Definition DelayedStopping : Z := 0x0100.
Definition Secure : Z := 0x0200.
Definition Raw : Z := 0x0400.
Definition InPoolWaitQueue : Z := 0x0800.
Definition Connected : Z := 0x1000.
End Flags.

(** The events of [Connection], with what their [any] holds: [ConnectionEvents] and the
    functions [eventResolve], [eventNewMessage], ... that build them; [GenericStart] and
    [GenericKill] are the two generic events the service sends. [Addr] is an address, [Cb] a
    completion function. *)
Inductive Event (Addr Cb : Type) : Type :=
  | GenericStart
  | GenericKill
  | Resolve (addrvec : option (list Addr))
  | NewPoolMessage
  | NewConnMessage (_rmsgid : MessageWriter.MessageId)
  | CancelConnMessage (_rmsgid : MessageWriter.MessageId)
  | CancelPoolMessage (_rmsgid : MessageWriter.MessageId)
  | EnterActive (_ucomplete_fnc : Cb) (_send_buffer_capacity : Z)
  | EnterPassive (_ucomplete_fnc : Cb)
  | StartSecure (_ucomplete_fnc : Cb)
  | SendRaw (_ucomplete_fnc : Cb) (_udata : list Z) (offset : Z)
  | RecvRaw (_ucomplete_fnc : Cb)
  | StoppingEvent.
Arguments GenericStart {Addr Cb}.
Arguments GenericKill {Addr Cb}.
Arguments Resolve {Addr Cb}.
Arguments NewPoolMessage {Addr Cb}.
Arguments NewConnMessage {Addr Cb}.
Arguments CancelConnMessage {Addr Cb}.
Arguments CancelPoolMessage {Addr Cb}.
Arguments EnterActive {Addr Cb}.
Arguments EnterPassive {Addr Cb}.
Arguments StartSecure {Addr Cb}.
Arguments SendRaw {Addr Cb}.
Arguments RecvRaw {Addr Cb}.
Arguments StoppingEvent {Addr Cb}.

Section Events.
Context {Addr Cb : Type}.

Definition eventResolve : Event Addr Cb := Resolve None.
Definition eventNewMessage : Event Addr Cb := NewPoolMessage.
Definition eventNewMessage_id (_rmsgid : MessageWriter.MessageId) : Event Addr Cb := NewConnMessage _rmsgid.
Definition eventCancelConnMessage (_rmsgid : MessageWriter.MessageId) : Event Addr Cb := CancelConnMessage _rmsgid.
Definition eventCancelPoolMessage (_rmsgid : MessageWriter.MessageId) : Event Addr Cb := CancelPoolMessage _rmsgid.
Definition eventStopping : Event Addr Cb := StoppingEvent.
Definition eventEnterActive (_ucomplete_fnc : Cb) (_send_buffer_capacity : Z) : Event Addr Cb :=
  EnterActive _ucomplete_fnc _send_buffer_capacity.
Definition eventEnterPassive (_ucomplete_fnc : Cb) : Event Addr Cb := EnterPassive _ucomplete_fnc.
Definition eventStartSecure (_ucomplete_fnc : Cb) : Event Addr Cb := StartSecure _ucomplete_fnc.
Definition eventSendRaw (_ucomplete_fnc : Cb) (_udata : list Z) : Event Addr Cb :=
  SendRaw _ucomplete_fnc _udata 0.
Definition eventRecvRaw (_ucomplete_fnc : Cb) : Event Addr Cb := RecvRaw _ucomplete_fnc.

End Events.

Section Connection.
Context {Ser Msg Fn : Type} {WC : MessageWriter.WriterConfiguration}.

Record Connection := mkConnection {
  pool_id : UniqueId;
  con_flags : Z;
  pending_message_vec : list MessageWriter.MessageId;
  msg_writer : MessageWriter.MessageWriter Ser Msg Fn
}.

Definition Connection_new (_rpool_id : UniqueId) : Connection :=
  mkConnection _rpool_id 0 [] MessageWriter.MessageWriter_new.

Definition has_flag (c : Connection) (f : Z) : bool := negb (Z.land (con_flags c) f =? 0).

Definition with_flags (c : Connection) (f : Z) : Connection :=
  mkConnection (pool_id c) f (pending_message_vec c) (msg_writer c).

(** [flags |= f] and [flags &= ~f] on an [uint16_t]. *)
Definition set_flag (c : Connection) (f : Z) : Connection := with_flags c (Z.lor (con_flags c) f).
Definition reset_flag (c : Connection) (f : Z) : Connection :=
  with_flags c (Z.land (con_flags c) (Z.lxor (Z.ones 16) f)).

Definition with_writer (c : Connection) (m : MessageWriter.MessageWriter Ser Msg Fn) : Connection :=
  mkConnection (pool_id c) (con_flags c) (pending_message_vec c) m.

Definition with_pending (c : Connection) (l : list MessageWriter.MessageId) : Connection :=
  mkConnection (pool_id c) (con_flags c) l (msg_writer c).

Definition isFull (c : Connection) : bool := MessageWriter.full (msg_writer c).
Definition isWriterEmpty (c : Connection) : bool := MessageWriter.empty (msg_writer c).

Definition isInPoolWaitingQueue (c : Connection) : bool := has_flag c Flags.InPoolWaitQueue.
Definition setInPoolWaitingQueue (c : Connection) : Connection := set_flag c Flags.InPoolWaitQueue.

Definition isActiveState (c : Connection) : bool := has_flag c Flags.Active.
Definition isRawState (c : Connection) : bool := has_flag c Flags.Raw.
Definition isStopping (c : Connection) : bool := has_flag c Flags.Stopping.
Definition isDelayedStopping (c : Connection) : bool := has_flag c Flags.DelayedStopping.
Definition isServer (c : Connection) : bool := has_flag c Flags.Server.
Definition isConnected (c : Connection) : bool := has_flag c Flags.Connected.
Definition isSecured (c : Connection) : bool := false.
Definition shouldSendKeepalive (c : Connection) : bool := has_flag c Flags.Keepalive.
Definition shouldPollPool (c : Connection) : bool := has_flag c Flags.PollPool.
Definition isWaitingKeepAliveTimer (c : Connection) : bool := has_flag c Flags.WaitKeepAliveTimer.
Definition isStopPeer (c : Connection) : bool := has_flag c Flags.StopPeer.

(** [pending_message_vec.erase(begin, begin + _count)] *)
Definition pendingMessageVectorEraseFirst (c : Connection) (_count : nat) : Connection :=
  with_pending c (drop _count (pending_message_vec c)).

(** [tryPushMessage]: when the writer takes the message, its id on the connection and what is
    left of the bundle. *)
Definition tryPushMessage (c : Connection) (_rmsgbundle : MessageWriter.MessageBundle Msg Fn)
    (_rpool_msg_id : MessageWriter.MessageId)
  : res (Connection * option (MessageWriter.MessageId * MessageWriter.MessageBundle Msg Fn)) :=
  let! r := MessageWriter.enqueue (msg_writer c) _rmsgbundle _rpool_msg_id in
  Done (with_writer c r.1, r.2).

End Connection.
Arguments Connection : clear implicits.

End Connection.
