(* ===== verification/Service.v ===== *)
(** * The service

    solid/frame/mpipc/src/mpipcservice.cpp: the pools of a service, the map from recipient
    names to pools, and every operation on them: sending, moving messages from a pool to a
    connection, canceling, closing, and the life of the connections of a pool.

    The manager (which delivers events to objects), the scheduler (which starts objects), the
    name resolver, the protocol and the configuration are parameters. Every operation runs
    under the mutex of the service or of its pool and is one atomic step. Assertions are
    disabled, as in a release build.

    The keys of [namemap] are pointers into the names of the pools they lead to. A key must not
    change while it is in the map, so giving a new name to a pool that the map leads to is
    undefined behaviour. *)

From stdpp Require Import strings gmap.
From S2P Require Import Prelude InnerList Packet MessageWriter Pool Connection.
Import InnerList Pool.
Import MessageWriter(MessageId, mkMessageId, index, unique_, MessageId_clear, MessageId_isInvalid, MessageId_isValid,
  MessageBundle, mkBundle, message_type_id, message_flags, message_ptr, complete_fnc,
  MessageBundle_new, MessageBundle_clear, MessageBundle_moved, set_flags, WriterConfiguration, MessageState, isOnPeer).
Import Connection(Event, GenericStart, GenericKill, Resolve).
#[local] Open Scope res_scope.

Module Service.

(** The error conditions of mpipcerror.hpp the service and its connections return or compare
    with; [error_other] stands for the others. *)
Inductive Error : Type :=
  | error_service_stopping
  | error_service_message_null
  | error_service_message_state
  | error_service_message_flags
  | error_service_message_unknown_type
  | error_service_server_only
  | error_service_unknown_recipient
  | error_service_unknown_pool
  | error_service_pool_stopping
  | error_service_pool_full
  | error_service_unknown_connection
  | error_service_too_many_active_connections
  | error_service_message_already_canceled
  | error_service_unknown_message
  | error_connection_resolve
  | error_connection_stopping
  | error_connection_killed
  | error_connection_inactivity_timeout
  | error_connection_too_many_keepalive_packets_received
  | error_message_connection
  | error_message_canceled
  | error_other (code : Z).

#[export] Instance Error_eq_dec : EqDecision Error.
Proof. solve_decision. Defined.

(** [RecipientId] of mpipccontext.hpp *)
Record RecipientId := mkRecipientId { poolid : UniqueId; connectionid : UniqueId }.

Definition isValidConnection (r : RecipientId) : bool := isValid (connectionid r).
Definition isValidPool (r : RecipientId) : bool := isValid (poolid r).

(** The arguments of [new_connection]. *)
Record NewConnection (Sock : Type) := mkNewConnection {
  nc_socket : option Sock;
  nc_pool_id : UniqueId;
  nc_pool_name : string
}.
Arguments mkNewConnection {Sock}.

(** What the service calls. [notify] returns whether the event was delivered to the object,
    [startObject] the id of the started object and the error. *)
Class ServiceEnv (World Msg Addr Cb Sock : Type) := {
  isRunning : World -> bool;
  notify : World -> UniqueId -> Event Addr Cb -> World * bool;
  startObject : World -> NewConnection Sock -> Event Addr Cb -> World * UniqueId * option Error;
  name_resolve_fnc : World -> string -> UniqueId -> World;
  typeIndex : Msg -> Z;
  isServerOnly : bool;
  pool_max_active_connection_count : Z;
  pool_max_pending_connection_count : Z;
  pool_max_message_queue_size : Z;
  mtxsarrcp : Z;
  connection_reconnect_timeout_seconds : Z
}.

Section Service.
Context {World Ser Msg Fn Addr Cb Sock : Type} {WC : WriterConfiguration} {MS : MessageState Msg}
  {SE : ServiceEnv World Msg Addr Cb Sock}.

Abbreviation pool := (ConnectionPoolStub Msg Fn Addr).
Abbreviation bundle := (MessageBundle Msg Fn).
Abbreviation Connection := (Connection.Connection Ser Msg Fn).

(** [Service::Data] *)
Record Data := mkService {
  namemap : gmap string Z;
  pooldq : list pool;
  conpoolcachestk : list Z
}.

Definition Data_new : Data := mkService ∅ [] [].

Definition with_namemap (d : Data) (m : gmap string Z) : Data := mkService m (pooldq d) (conpoolcachestk d).
Definition with_pooldq (d : Data) (l : list pool) : Data := mkService (namemap d) l (conpoolcachestk d).
Definition with_stack (d : Data) (l : list Z) : Data := mkService (namemap d) (pooldq d) l.

(** [pooldq[i]], read and changed. *)
Definition pool_at (d : Data) (i : Z) : res pool := of_option (at_idx (pooldq d) i).

Definition upd_pool (d : Data) (i : Z) (p : pool) : res Data :=
  let! _ := pool_at d i in
  Done (with_pooldq d (<[Z.to_nat i := p]> (pooldq d))).

(** A key of the map points into the name of the pool [i]. *)
Definition name_is_key (d : Data) (i : Z) : bool :=
  existsb (fun kv => kv.2 =? i) (map_to_list (namemap d)).

(** ** Configuration (mpipcconfiguration.cpp) *)

Definition connectionReconnectTimeoutSeconds (_retry_count : Z) (_failed_create_connection_object
    _last_connection_was_connected _last_connection_was_active _last_connection_was_secured : bool) : Z :=
  if _failed_create_connection_object then connection_reconnect_timeout_seconds / 2
  else if _last_connection_was_active || _last_connection_was_connected then 0
  else
    let retry_count := _retry_count / 2 in
    let sleep_seconds := retry_count in
    if connection_reconnect_timeout_seconds <? sleep_seconds then connection_reconnect_timeout_seconds
    else sleep_seconds.

(** ** Pools of the service *)

(** The loop of [doPushNewConnectionPool]; the pushed index is computed in [size_t]. *)
Fixpoint push_pools (n : nat) (d : Data) : Data :=
  match n with
  | O => d
  | S n =>
      let idx := Z.of_nat (length (pooldq d)) in
      push_pools n
        (mkService (namemap d) (pooldq d ++ [ConnectionPoolStub_new])
           (wrap 64 (mtxsarrcp - idx - 1) :: conpoolcachestk d))
  end.

Definition pop_stack (d : Data) : res (Data * Z) :=
  match conpoolcachestk d with
  | [] => Undef
  | i :: l => Done (with_stack d l, i)
  end.

Definition doPushNewConnectionPool (d : Data) : res (Data * Z) :=
  pop_stack (push_pools (Z.to_nat mtxsarrcp) d).

(** A pool from the stack, or a new one: what [doSendMessageToNewPool] and
    [acceptIncomingConnection] start with. *)
Definition take_pool (d : Data) : res (Data * Z) :=
  match conpoolcachestk d with
  | [] => doPushNewConnectionPool d
  | _ :: _ => pop_stack d
  end.

(** [rpool.clear()] on the pool [i], which changes its name. *)
Definition clear_pool (d : Data) (i : Z) : res Data :=
  if name_is_key d i then Undef
  else
    let! p := pool_at d i in
    let! p := pool_clear p in
    upd_pool d i p.

(** [OnRelsolveF::operator()] *)
Definition onResolve (w : World) (objuid : UniqueId) (_raddrvec : list Addr) : World * bool :=
  notify w objuid (Resolve (Some _raddrvec)).

(** [doTryCreateNewConnectionForPool]: whether it has created one, and [_rerror]. *)
Definition doTryCreateNewConnectionForPool (w : World) (d : Data) (_pool_index : Z)
  : res (World * Data * bool * option Error) :=
  let! p := pool_at d _pool_index in
  let! create :=
    (if (active_connection_count p <? pool_max_active_connection_count) && (pending_connection_count p =? 0) then
       let! any := hasAnyMessage p in
       Done (any && (Z.of_nat (length (conn_waitingq p)) <? size (msgorder_inner_list p)) && isRunning w)
     else Done false) in
  if (create : bool) then
    let '(w, conuid, err) :=
      startObject w (mkNewConnection None (mkUniqueId _pool_index (pool_unique p)) (name p)) GenericStart in
    match err with
    | Some _ => Done (w, d, false, err)
    | None =>
        let p := with_counts p (pending_connection_count p + 1) (active_connection_count p)
                   (stopping_connection_count p) in
        let p := if isInvalid (main_connection_id p) then with_main p conuid else p in
        match connect_addr_vec p with
        | [] =>
            let w := name_resolve_fnc w (name p) conuid in
            let! d := upd_pool d _pool_index p in
            Done (w, d, true, None)
        | _ :: _ =>
            let '(w, _) := notify w conuid (Resolve (Some (connect_addr_vec p))) in
            let! d := upd_pool d _pool_index (with_addrs p []) in
            Done (w, d, true, None)
        end
    end
  else Done (w, d, false, None).

(** The loop of [doTryNotifyPoolWaitingConnection]. *)
Fixpoint notify_waiting (w : World) (q : list UniqueId) : World * list UniqueId * bool :=
  match q with
  | [] => (w, [], false)
  | objuid :: q =>
      let '(w, success) := notify w objuid Connection.eventNewMessage in
      if (success : bool) then (w, q, true) else notify_waiting w q
  end.

Definition doTryNotifyPoolWaitingConnection (w : World) (d : Data) (_pool_index : Z)
  : res (World * Data * bool) :=
  let! p := pool_at d _pool_index in
  let '(w, q, success) := notify_waiting w (conn_waitingq p) in
  let! d := upd_pool d _pool_index (with_waitingq p q) in
  Done (w, d, success).

(** ** Sending *)

(** What a send returns: the error, [*_precipient_id_out] and [*_pmsgid_out]. *)
Record SendResult := mkSendResult {
  sr_error : option Error;
  sr_poolid : option UniqueId;
  sr_msgid : option MessageId
}.

Definition send_failed (e : Error) : SendResult := mkSendResult (Some e) None None.

(** [rmsgstub.makeCancelable()] *)
Definition make_cancelable (p : pool) (i : Z) : res pool :=
  let! s := stub_at p i in
  upd_stub p i (makeCancelable s).

Definition doSendMessageToConnection (w : World) (d : Data) (_rrecipient_id_in : RecipientId)
    (_rmsgptr : option Msg) (_msg_type_idx : Z) (_rcomplete_fnc : option Fn) (_pmsgid_out : bool)
    (_flags : Z) : res (World * Data * SendResult) :=
  if negb (isValidPool _rrecipient_id_in) then Done (w, d, send_failed error_service_unknown_connection)
  else
    let pool_idx := uid_index (poolid _rrecipient_id_in) in
    if Z.of_nat (length (pooldq d)) <=? pool_idx then
      Done (w, d, send_failed error_service_unknown_connection)
    else
      let! p := pool_at d pool_idx in
      if negb (pool_unique p =? uid_unique (poolid _rrecipient_id_in)) then
        Done (w, d, send_failed error_service_unknown_connection)
      else
        let is_server_side_pool := isServerSide p in
        let fl := MessageFlags.set _flags MessageFlags.OneShotSend in
        let! x := (if is_server_side_pool then pushBackMessage p _rmsgptr _msg_type_idx _rcomplete_fnc fl
                   else insertMessage p _rmsgptr _msg_type_idx _rcomplete_fnc fl) in
        let '(p, msgid) := x in
        let '(w, success) :=
          notify w (connectionid _rrecipient_id_in)
            (if is_server_side_pool then Connection.eventNewMessage else Connection.eventNewMessage_id msgid) in
        if (success : bool) then
          if _pmsgid_out then
            let! p := make_cancelable p (index msgid) in
            let! d := upd_pool d pool_idx p in
            Done (w, d, mkSendResult None None (Some msgid))
          else
            let! d := upd_pool d pool_idx p in
            Done (w, d, mkSendResult None None None)
        else
          let! p := (if is_server_side_pool then clearPopAndCacheMessage p (index msgid)
                     else clearAndCacheMessage p (index msgid)) in
          let! d := upd_pool d pool_idx p in
          Done (w, d, send_failed error_service_unknown_connection).

Definition doSendMessageToNewPool (w : World) (d : Data) (_recipient_name : string)
    (_rmsgptr : option Msg) (_msg_type_idx : Z) (_rcomplete_fnc : option Fn)
    (_precipient_id_out _pmsgid_out : bool) (_flags : Z) : res (World * Data * SendResult) :=
  let! x := take_pool d in
  let '(d, pool_idx) := x in
  let! p := pool_at d pool_idx in
  if name_is_key d pool_idx then Undef
  else
    let p := with_name p _recipient_name in
    let! x := pushBackMessage p _rmsgptr _msg_type_idx _rcomplete_fnc _flags in
    let '(p, msgid) := x in
    let! d := upd_pool d pool_idx p in
    let! x := doTryCreateNewConnectionForPool w d pool_idx in
    let '(w, d, success, error) := x in
    if negb success then
      let! p := pool_at d pool_idx in
      let! p := popFrontMessage p in
      let! d := upd_pool d pool_idx p in
      let! d := clear_pool d pool_idx in
      Done (w, with_stack d (pool_idx :: conpoolcachestk d), mkSendResult error None None)
    else
      let! p := pool_at d pool_idx in
      let d := with_namemap d (<[name p := pool_idx]> (namemap d)) in
      let id := if _precipient_id_out then Some (mkUniqueId pool_idx (pool_unique p)) else None in
      if _pmsgid_out then
        let! s := stub_at p (index msgid) in
        let! p := make_cancelable p (index msgid) in
        let! d := upd_pool d pool_idx p in
        Done (w, d, mkSendResult error id (Some (mkMessageId (index msgid) (unique s))))
      else Done (w, d, mkSendResult error id None).

(** The end of [doSendMessage], on a pool that is found. *)
Definition send_to_pool (w : World) (d : Data) (pool_idx : Z) (_rmsgptr : option Msg) (msg_type_idx : Z)
    (_rcomplete_fnc : option Fn) (_precipient_id_out _pmsgid_out : bool) (_flags : Z)
  : res (World * Data * SendResult) :=
  let! p := pool_at d pool_idx in
  if isClosing p then Done (w, d, send_failed error_service_pool_stopping)
  else if isFull p pool_max_message_queue_size then Done (w, d, send_failed error_service_pool_full)
  else
    let id := if _precipient_id_out then Some (mkUniqueId pool_idx (pool_unique p)) else None in
    let! x := pushBackMessage p _rmsgptr msg_type_idx _rcomplete_fnc _flags in
    let '(p, msgid) := x in
    let! p := if _pmsgid_out then make_cancelable p (index msgid) else Done p in
    let! d := upd_pool d pool_idx p in
    let '(w, success) :=
      if isCleaningOneShotMessages p && MessageFlags.is_one_shot _flags then
        notify w (main_connection_id p) (Connection.eventNewMessage_id msgid)
      else (w, false) in
    let '(w, success) :=
      if negb success && MessageFlags.is_synchronous _flags && isMainConnectionActive p then
        notify w (main_connection_id p) Connection.eventNewMessage
      else (w, success) in
    let! x := (if negb success && negb (MessageFlags.is_synchronous _flags) then
                 doTryNotifyPoolWaitingConnection w d pool_idx
               else Done (w, d, success)) in
    let '(w, d, success) := x in
    let! x := (if negb success then
                 let! y := doTryCreateNewConnectionForPool w d pool_idx in
                 let '(w, d, _, _) := y in Done (w, d)
               else Done (w, d)) in
    let '(w, d) := x in
    Done (w, d, mkSendResult None id (if _pmsgid_out then Some msgid else None)).

Definition doSendMessage (w : World) (d : Data) (_recipient_name : option string)
    (_rrecipient_id_in : RecipientId) (_rmsgptr : option Msg) (_rcomplete_fnc : option Fn)
    (_precipient_id_out _pmsgid_out : bool) (_flags : Z) : res (World * Data * SendResult) :=
  if negb (isRunning w) then Done (w, d, send_failed error_service_stopping)
  else
    match _rmsgptr with
    | None => Done (w, d, send_failed error_service_message_null)
    | Some msg =>
        let bad :=
          if MessageFlags.is_response _flags then
            if negb (isOnPeer msg) then Some error_service_message_state
            else if MessageFlags.is_request _flags then Some error_service_message_flags else None
          else if isOnPeer msg then Some error_service_message_state else None in
        match bad with
        | Some e => Done (w, d, send_failed e)
        | None =>
            let msg_type_idx := typeIndex msg in
            if msg_type_idx =? 0 then Done (w, d, send_failed error_service_message_unknown_type)
            else if isValidConnection _rrecipient_id_in then
              doSendMessageToConnection w d _rrecipient_id_in _rmsgptr msg_type_idx _rcomplete_fnc
                _pmsgid_out _flags
            else
              match _recipient_name with
              | Some nm =>
                  match namemap d !! nm with
                  | Some pool_idx =>
                      send_to_pool w d pool_idx _rmsgptr msg_type_idx _rcomplete_fnc
                        _precipient_id_out _pmsgid_out _flags
                  | None =>
                      if isServerOnly then Done (w, d, send_failed error_service_server_only)
                      else doSendMessageToNewPool w d nm _rmsgptr msg_type_idx _rcomplete_fnc
                             _precipient_id_out _pmsgid_out _flags
                  end
              | None =>
                  let pool_idx := uid_index (poolid _rrecipient_id_in) in
                  if pool_idx <? Z.of_nat (length (pooldq d)) then
                    let! p := pool_at d pool_idx in
                    if negb (pool_unique p =? uid_unique (poolid _rrecipient_id_in)) then
                      Done (w, d, send_failed error_service_unknown_pool)
                    else
                      send_to_pool w d pool_idx _rmsgptr msg_type_idx _rcomplete_fnc
                        _precipient_id_out _pmsgid_out _flags
                  else Done (w, d, send_failed error_service_unknown_recipient)
              end
        end
    end.

(** ** From a pool to a connection *)

(** [doTryPushMessageToConnection] of a message by its index in the pool. *)
Definition doTryPushMessageToConnection (p : pool) (_rcon : Connection) (_robjuid : UniqueId) (_msg_idx : Z)
  : res (pool * Connection * bool) :=
  let! s := stub_at p _msg_idx in
  let message_is_asynchronous := MessageFlags.is_asynchronous (message_flags (msgbundle s)) in
  match message_ptr (msgbundle s) with
  | None => Done (p, _rcon, false)
  | Some _ =>
      if isCancelable s then
        let! x := Connection.tryPushMessage _rcon (msgbundle s) (mkMessageId _msg_idx (unique s)) in
        let '(c, r) := x in
        match r with
        | None => Done (p, c, false)
        | Some (conn_msg_id, b) =>
            let! p := upd_stub p _msg_idx (set_objid _robjuid (set_msgid conn_msg_id (set_bundle b s))) in
            let! p := order_erase p _msg_idx in
            let! p := if message_is_asynchronous then async_erase p _msg_idx else Done p in
            Done (p, c, true)
        end
      else
        let! x := Connection.tryPushMessage _rcon (msgbundle s) MessageId_clear in
        let '(c, r) := x in
        match r with
        | None => Done (p, c, false)
        | Some (conn_msg_id, b) =>
            let s := set_msgid conn_msg_id (set_bundle b s) in
            let! p := upd_stub p _msg_idx s in
            let! p := order_erase p _msg_idx in
            let! p := if message_is_asynchronous then async_erase p _msg_idx else Done p in
            let! p := cache_pushBack p _msg_idx in
            let! p := upd_stub p _msg_idx (StubData_clear s) in
            Done (p, c, true)
        end
  end.

(** [doTryPushMessageToConnection] of a message sent to this connection, by its id. *)
Definition doTryPushMessageToConnection_id (p : pool) (_rcon : Connection) (_robjuid : UniqueId)
    (_rmsg_id : MessageId) : res (pool * Connection * bool) :=
  let! s := stub_at p (index _rmsg_id) in
  if isCancelable s then
    let! x := Connection.tryPushMessage _rcon (msgbundle s) _rmsg_id in
    let '(c, r) := x in
    match r with
    | None => Done (p, c, false)
    | Some (conn_msg_id, b) =>
        let! p := upd_stub p (index _rmsg_id) (set_objid _robjuid (set_msgid conn_msg_id (set_bundle b s))) in
        Done (p, c, true)
    end
  else
    let! x := Connection.tryPushMessage _rcon (msgbundle s) MessageId_clear in
    let '(c, r) := x in
    match r with
    | None => Done (p, c, false)
    | Some (conn_msg_id, b) =>
        let s := set_msgid conn_msg_id (set_bundle b s) in
        let! p := upd_stub p (index _rmsg_id) s in
        let! p := cache_pushBack p (index _rmsg_id) in
        let! p := upd_stub p (index _rmsg_id) (StubData_clear s) in
        Done (p, c, true)
    end.

(** The loop of [pollPoolForUpdates] over the pending messages of the connection; also returns
    [count] and [connection_may_handle_more_messages]. *)
Fixpoint poll_pending (p : pool) (c : Connection) (_robjuid : UniqueId) (ids : list MessageId)
    (count : nat) (more : bool) : res (pool * Connection * nat * bool) :=
  match ids with
  | [] => Done (p, c, count, more)
  | rmsgid :: ids =>
      let valid := (index rmsgid <? Z.of_nat (length (msgvec p))) in
      if negb valid then poll_pending p c _robjuid ids (S count) more
      else
        let! s := stub_at p (index rmsgid) in
        if unique_ rmsgid =? unique s then
          let! x := doTryPushMessageToConnection_id p c _robjuid rmsgid in
          let '(p, c, more) := x in
          if (more : bool) then poll_pending p c _robjuid ids (S count) more
          else Done (p, c, count, more)
        else poll_pending p c _robjuid ids (S count) more
  end.

(** The loop over the order list, or over the asynchronous list: [lst] is the one of the two. *)
Fixpoint poll_loop (lst : pool -> InnerList) (fuel : nat) (p : pool) (c : Connection) (_robjuid : UniqueId)
    (more : bool) : res (pool * Connection) :=
  match fuel with
  | O => NoFuel
  | S fuel =>
      if negb (size (lst p) =? 0) && more then
        let! x := doTryPushMessageToConnection p c _robjuid (frontIndex (lst p)) in
        let '(p, c, more) := x in
        poll_loop lst fuel p c _robjuid more
      else Done (p, c)
  end.

Definition pollPoolForUpdates (w : World) (d : Data) (_rconnection : Connection) (_robjuid : UniqueId)
    (_rcompleted_msgid : MessageId) : res (World * Data * Connection * option Error) :=
  let c := _rconnection in
  let pool_idx := uid_index (Connection.pool_id c) in
  let! p := pool_at d pool_idx in
  if negb (pool_unique p =? uid_unique (Connection.pool_id c)) then
    Done (w, d, c, Some error_service_unknown_pool)
  else
    let '(w, p) :=
      if isMainConnectionStopping p && negb (UniqueId_eqb (main_connection_id p) _robjuid) then
        let '(w, _) := notify w (main_connection_id p) Connection.eventStopping in
        (w, setMainConnectionActive (resetMainConnectionStopping (with_main p _robjuid)))
      else (w, p) in
    let! p := if MessageId_isValid _rcompleted_msgid then cacheMessageId p _rcompleted_msgid else Done p in
    if isFastClosing p then
      let! d := upd_pool d pool_idx p in
      Done (w, d, c, Some error_service_pool_stopping)
    else
      let! sc := (if Connection.isWriterEmpty c then shouldClose p else Done false) in
      if (sc : bool) then
        let! d := upd_pool d pool_idx p in
        Done (w, d, c, Some error_service_pool_stopping)
      else
        let more := negb (Connection.isFull c) in
        let connection_can_handle_synchronous_messages := UniqueId_eqb _robjuid (main_connection_id p) in
        let! x := poll_pending p c _robjuid (Connection.pending_message_vec c) 0 more in
        let '(p, c, count, more) := x in
        let c := Connection.pendingMessageVectorEraseFirst c count in
        let! x := poll_loop (if connection_can_handle_synchronous_messages then msgorder_inner_list
                             else msgasync_inner_list)
                    (S (S (length (msgvec p)))) p c _robjuid more in
        let '(p, c) := x in
        let '(p, c) :=
          if negb (Connection.isInPoolWaitingQueue c) then
            (with_waitingq p (conn_waitingq p ++ [_robjuid]), Connection.setInPoolWaitingQueue c)
          else (p, c) in
        let! d := upd_pool d pool_idx p in
        Done (w, d, c, None).

Definition rejectNewPoolMessage (w : World) (d : Data) (_rconnection : Connection) : res (World * Data) :=
  let pool_idx := uid_index (Connection.pool_id _rconnection) in
  let! p := pool_at d pool_idx in
  if negb (pool_unique p =? uid_unique (Connection.pool_id _rconnection)) then Done (w, d)
  else
    let! x := doTryNotifyPoolWaitingConnection w d pool_idx in
    Done x.1.

Definition fetchMessage (d : Data) (_rcon : Connection) (_robjuid : UniqueId) (_rmsg_id : MessageId)
  : res (Data * Connection * bool) :=
  let pool_index := uid_index (Connection.pool_id _rcon) in
  let! p := pool_at d pool_index in
  if negb (index _rmsg_id <? Z.of_nat (length (msgvec p))) then Done (d, _rcon, false)
  else
    let! s := stub_at p (index _rmsg_id) in
    if unique s =? unique_ _rmsg_id then
      let! x := doTryPushMessageToConnection p _rcon _robjuid (index _rmsg_id) in
      let '(p, c, success) := x in
      let! d := upd_pool d pool_index p in
      Done (d, c, success)
    else Done (d, _rcon, false).

Definition fetchCanceledMessage (d : Data) (_rcon : Connection) (_rmsg_id : MessageId)
  : res (Data * option bundle) :=
  let pool_index := uid_index (Connection.pool_id _rcon) in
  let! p := pool_at d pool_index in
  if negb (index _rmsg_id <? Z.of_nat (length (msgvec p))) then Done (d, None)
  else
    let! s := stub_at p (index _rmsg_id) in
    if unique s =? unique_ _rmsg_id then
      let b := msgbundle s in
      let! p := upd_stub p (index _rmsg_id) (StubData_clear (set_bundle (MessageBundle_moved b) s)) in
      let! p := cache_pushBack p (index _rmsg_id) in
      let! d := upd_pool d pool_index p in
      Done (d, Some b)
    else Done (d, None).

(** ** Closing and canceling *)

(** The loop that notifies all waiting connections. *)
Fixpoint notify_all (w : World) (q : list UniqueId) : World :=
  match q with
  | [] => w
  | objuid :: q => notify_all (notify w objuid Connection.eventNewMessage).1 q
  end.

Definition doDelayCloseConnectionPool (w : World) (d : Data) (_rrecipient_id : RecipientId)
    (_rcomplete_fnc : option Fn) : res (World * Data * option Error) :=
  let pool_idx := uid_index (poolid _rrecipient_id) in
  let! p := pool_at d pool_idx in
  if negb (pool_unique p =? uid_unique (poolid _rrecipient_id)) then
    Done (w, d, Some error_service_unknown_connection)
  else
    let p := setClosing p in
    let d := if negb (isServerSide p) then with_namemap d (delete (name p) (namemap d)) else d in
    let! x := pushBackMessage p None 0 _rcomplete_fnc 0 in
    let '(p, _) := x in
    let w := notify_all w (conn_waitingq p) in
    let! d := upd_pool d pool_idx (with_waitingq p []) in
    Done (w, d, None).

Definition doForceCloseConnectionPool (w : World) (d : Data) (_rrecipient_id : RecipientId)
    (_rcomplete_fnc : option Fn) : res (World * Data * option Error) :=
  let pool_idx := uid_index (poolid _rrecipient_id) in
  let! p := pool_at d pool_idx in
  if negb (pool_unique p =? uid_unique (poolid _rrecipient_id)) then
    Done (w, d, Some error_service_unknown_connection)
  else
    let p := setFastClosing (setClosing p) in
    let d := if negb (isServerSide p) then with_namemap d (delete (name p) (namemap d)) else d in
    let! x := pushBackMessage p None 0 _rcomplete_fnc (MessageFlags.set 0 MessageFlags.Synchronous) in
    let '(p, _) := x in
    let w := notify_all w (conn_waitingq p) in
    let! d := upd_pool d pool_idx (with_waitingq p []) in
    Done (w, d, None).

(** How [cancelMessage] ends. *)
Inductive outcome : Type :=
  | Returned (e : option Error)
  | Thrown (what : string).

Definition set_canceled (s : StubData Msg Fn) : StubData Msg Fn :=
  set_bundle (set_flags (msgbundle s) (MessageFlags.set (message_flags (msgbundle s)) MessageFlags.Canceled)) s.

(** The part of [cancelMessage] for a message that no connection holds. *)
Definition cancel_in_pool (w : World) (p : pool) (_rmsg_id : MessageId) (s : StubData Msg Fn)
  : res (World * pool * outcome) :=
  match message_ptr (msgbundle s) with
  | None => Done (w, p, Returned None)
  | Some _ =>
      let s := set_canceled s in
      let! p := upd_stub p (index _rmsg_id) s in
      let '(w, success) := notify w (main_connection_id p) (Connection.eventCancelPoolMessage _rmsg_id) in
      if (success : bool) then
        let! linked := of_option (contains InnerLinkOrder (msgvec p) (msgorder_inner_list p) (index _rmsg_id)) in
        if (linked : bool) then
          let! p := order_erase p (index _rmsg_id) in
          let! p := if MessageFlags.is_asynchronous (message_flags (msgbundle s)) then
                      async_erase p (index _rmsg_id) else Done p in
          Done (w, p, Returned None)
        else Done (w, p, Returned None)
      else Done (w, p, Thrown "Message Cancel connection not available"%string)
  end.

Definition cancelMessage (w : World) (d : Data) (_rrecipient_id : RecipientId) (_rmsg_id : MessageId)
  : res (World * Data * outcome) :=
  let pool_idx := uid_index (poolid _rrecipient_id) in
  let! p := pool_at d pool_idx in
  if negb (pool_unique p =? uid_unique (poolid _rrecipient_id)) then
    Done (w, d, Returned (Some error_service_unknown_connection))
  else if negb (index _rmsg_id <? Z.of_nat (length (msgvec p))) then
    Done (w, d, Returned (Some error_service_unknown_message))
  else
    let! s := stub_at p (index _rmsg_id) in
    if negb (unique s =? unique_ _rmsg_id) then
      Done (w, d, Returned (Some error_service_unknown_message))
    else if MessageFlags.is_canceled (message_flags (msgbundle s)) then
      Done (w, d, Returned (Some error_service_message_already_canceled))
    else if isValid (objid s) then
      let s := set_canceled s in
      let! p := upd_stub p (index _rmsg_id) s in
      let '(w, success) := notify w (objid s) (Connection.eventCancelConnMessage (msgid s)) in
      if (success : bool) then
        let s := StubData_clear s in
        let! p := upd_stub p (index _rmsg_id) s in
        let! p := cache_pushBack p (index _rmsg_id) in
        let! x := cancel_in_pool w p _rmsg_id s in
        let '(w, p, o) := x in
        let! d := upd_pool d pool_idx p in
        Done (w, d, o)
      else
        let! p := upd_stub p (index _rmsg_id) (set_objid ObjectId_new (set_msgid MessageId_clear s)) in
        let! d := upd_pool d pool_idx p in
        Done (w, d, Thrown "Lost message"%string)
    else
      let! x := cancel_in_pool w p _rmsg_id s in
      let '(w, p, o) := x in
      let! d := upd_pool d pool_idx p in
      Done (w, d, o).

(** ** Requests to one connection *)

(** What the five [doConnectionNotify...] functions do with the event they build. *)
Definition notify_connection (w : World) (_rrecipient_id : RecipientId) (e : Event Addr Cb) : World * option Error :=
  let '(w, success) := notify w (connectionid _rrecipient_id) e in
  (w, if (success : bool) then None else Some error_service_unknown_connection).

Definition doConnectionNotifyEnterActiveState w _rrecipient_id _ucomplete_fnc _send_buffer_capacity :=
  notify_connection w _rrecipient_id (Connection.eventEnterActive _ucomplete_fnc _send_buffer_capacity).
Definition doConnectionNotifyStartSecureHandshake w _rrecipient_id _ucomplete_fnc :=
  notify_connection w _rrecipient_id (Connection.eventStartSecure _ucomplete_fnc).
Definition doConnectionNotifyEnterPassiveState w _rrecipient_id _ucomplete_fnc :=
  notify_connection w _rrecipient_id (Connection.eventEnterPassive _ucomplete_fnc).
Definition doConnectionNotifySendRawData w _rrecipient_id _ucomplete_fnc _rdata :=
  notify_connection w _rrecipient_id (Connection.eventSendRaw _ucomplete_fnc _rdata).
Definition doConnectionNotifyRecvRawData w _rrecipient_id _ucomplete_fnc :=
  notify_connection w _rrecipient_id (Connection.eventRecvRaw _ucomplete_fnc).

Definition closeConnection (w : World) (_rrecipient_id : RecipientId) : World * bool :=
  notify w (connectionid _rrecipient_id) GenericKill.

(** ** The end of a connection *)

(** What [connectionStopping] returns: whether the connection can stop, and what it stores in
    [_rseconds_to_wait], [_rmsg_id], [_rmsg_bundle] and in the [size_t] of [_revent_context]. *)
Record StopResult := mkStopResult {
  can_stop : bool;
  seconds_to_wait : Z;
  stop_msg_id : MessageId;
  stop_bundle : bundle;
  event_context : option Z
}.

Definition stop_result (can : bool) (ctx : option Z) : StopResult :=
  mkStopResult can 0 MessageId_clear MessageBundle_clear ctx.

(** [doPushFrontMessageToPool] on the pool; what is left of the bundle. *)
Definition doPushFrontMessageToPool (p : pool) (_rmsgbundle : bundle) (_rmsgid : MessageId)
  : res (pool * bundle) :=
  let b := _rmsgbundle in
  if MessageFlags.is_idempotent (message_flags b)
     || (negb (MessageFlags.is_started_send (message_flags b)) && negb (MessageFlags.is_done_send (message_flags b))) then
    let b := set_flags b (MessageFlags.unset (message_flags b)
                            (Z.lor MessageFlags.DoneSend MessageFlags.StartedSend)) in
    let! x := (if MessageId_isInvalid _rmsgid then
                 pushFrontMessage p (message_ptr b) (message_type_id b) (complete_fnc b) (message_flags b)
               else
                 reinsertFrontMessage p _rmsgid (message_ptr b) (message_type_id b) (complete_fnc b) (message_flags b)) in
    Done (x.1, MessageBundle_moved b)
  else Done (p, b).

(** The visit of [doFetchResendableMessagesFromConnection], on the outcome so far. *)
Definition resend_visit (x : res pool) (_rmsgbundle : bundle) (_rmsgid : MessageId) : res pool * bundle :=
  match x with
  | Done p =>
      match doPushFrontMessageToPool p _rmsgbundle _rmsgid with
      | Done (p, b) => (Done p, b)
      | Undef => (Undef, _rmsgbundle)
      | NoFuel => (NoFuel, _rmsgbundle)
      end
  | _ => (x, _rmsgbundle)
  end.

(** [doFetchResendableMessagesFromConnection]: [None] says that the visit has thrown. *)
Definition doFetchResendableMessagesFromConnection (p : pool) (_rcon : Connection)
  : res (pool * Connection * bool) :=
  let! x := MessageWriter.forEveryMessagesNewerToOlder resend_visit (Done p) (Connection.msg_writer _rcon) in
  let '(rp, m, ok) := x in
  let! p := rp in
  Done (p, Connection.with_writer _rcon m, ok).

(** A connection that is active or pending becomes a stopping one. *)
Definition count_stopping (p : pool) (_rcon : Connection) : pool :=
  if Connection.isActiveState _rcon then
    with_counts p (pending_connection_count p) (active_connection_count p - 1) (stopping_connection_count p + 1)
  else
    with_counts p (pending_connection_count p - 1) (active_connection_count p) (stopping_connection_count p + 1).

(** The handlers end by a return or by the exception of the visit. *)
Inductive stopping : Type :=
  | Stop (w : World) (d : Data) (c : Connection) (r : StopResult)
  | StopThrown (w : World) (d : Data) (c : Connection).

Definition doNonMainConnectionStopping (w : World) (d : Data) (_rcon : Connection) (ctx : option Z) : res stopping :=
  let pool_index := uid_index (Connection.pool_id _rcon) in
  let! p := pool_at d pool_index in
  let p := count_stopping p _rcon in
  let w := if isLastConnection p && isMainConnectionStopping p then
             (notify w (main_connection_id p) Connection.eventStopping).1 else w in
  if negb (isFastClosing p) then
    let! x := doFetchResendableMessagesFromConnection p _rcon in
    let '(p, c, ok) := x in
    let! d := upd_pool d pool_index p in
    if negb ok then Done (StopThrown w d c)
    else
      let! x := doTryCreateNewConnectionForPool w d pool_index in
      let '(w, d, _, _) := x in
      Done (Stop w d c (stop_result true ctx))
  else
    let! d := upd_pool d pool_index p in
    Done (Stop w d _rcon (stop_result true ctx)).

Definition doMainConnectionStoppingNotLast (w : World) (d : Data) (_rcon : Connection) (ctx : option Z)
  : res stopping :=
  let pool_index := uid_index (Connection.pool_id _rcon) in
  let! p := pool_at d pool_index in
  let p := resetMainConnectionActive (setMainConnectionStopping p) in
  let r := mkStopResult false 10 MessageId_clear MessageBundle_clear ctx in
  if negb (isFastClosing p) then
    let! x := doFetchResendableMessagesFromConnection p _rcon in
    let '(p, c, ok) := x in
    let! d := upd_pool d pool_index p in
    Done (if (ok : bool) then Stop w d c r else StopThrown w d c)
  else
    let! d := upd_pool d pool_index p in
    Done (Stop w d _rcon r).

Definition doMainConnectionStoppingCleanOneShot (w : World) (d : Data) (_rcon : Connection) (ctx : option Z)
  : res stopping :=
  let pool_index := uid_index (Connection.pool_id _rcon) in
  let! p := pool_at d pool_index in
  let! crtmsgidx := of_option ctx in
  if negb (crtmsgidx =? InvalidIndex 64) then
    let! s := stub_at p crtmsgidx in
    let! prv := of_option (previousIndex InnerLinkOrder (msgvec p) crtmsgidx) in
    let take :=
      match message_ptr (msgbundle s) with
      | Some _ => MessageFlags.is_one_shot (message_flags (msgbundle s))
      | None => size (msgorder_inner_list p) =? 1
      end in
    if take then
      let! p := upd_stub p crtmsgidx (set_bundle (MessageBundle_moved (msgbundle s)) s) in
      let! p := clearPopAndCacheMessage p crtmsgidx in
      let! d := upd_pool d pool_index p in
      Done (Stop w d _rcon
              (mkStopResult false 0 (mkMessageId crtmsgidx (unique s)) (msgbundle s) (Some prv)))
    else Done (Stop w d _rcon (stop_result false (Some prv)))
  else
    let p := setRestarting (resetCleaningOneShotMessages p) in
    let! d := upd_pool d pool_index p in
    let secs :=
      match connect_addr_vec p with
      | [] => connectionReconnectTimeoutSeconds (retry_connect_count p) false (Connection.isConnected _rcon)
                (Connection.isActiveState _rcon) (Connection.isSecured _rcon)
      | _ :: _ => 0
      end in
    Done (Stop w d _rcon (mkStopResult false secs MessageId_clear MessageBundle_clear ctx)).

Definition doMainConnectionStoppingCleanAll (w : World) (d : Data) (_rcon : Connection) (ctx : option Z)
  : res stopping :=
  let pool_index := uid_index (Connection.pool_id _rcon) in
  let! p := pool_at d pool_index in
  if negb (size (msgorder_inner_list p) =? 0) then
    let msgidx := frontIndex (msgorder_inner_list p) in
    let! s := stub_at p msgidx in
    let! p := upd_stub p msgidx (set_bundle (MessageBundle_moved (msgbundle s)) s) in
    let! p := clearPopAndCacheMessage p msgidx in
    let! d := upd_pool d pool_index p in
    Done (Stop w d _rcon (mkStopResult false 0 (mkMessageId msgidx (unique s)) (msgbundle s) ctx))
  else
    let p := resetCleaningAllMessages (count_stopping p _rcon) in
    let! d := upd_pool d pool_index p in
    Done (Stop w d _rcon (stop_result true ctx)).

Definition doMainConnectionStoppingPrepareCleanOneShot (w : World) (d : Data) (_rcon : Connection)
    (ctx : option Z) : res stopping :=
  let pool_index := uid_index (Connection.pool_id _rcon) in
  let! p := pool_at d pool_index in
  let! x := doFetchResendableMessagesFromConnection p _rcon in
  let '(p, c, ok) := x in
  if negb ok then
    let! d := upd_pool d pool_index p in
    Done (StopThrown w d c)
  else
    let p := resetMainConnectionActive p in
    if negb (size (msgorder_inner_list p) =? 0) then
      let p := setCleaningOneShotMessages p in
      let! d := upd_pool d pool_index p in
      Done (Stop w d c (stop_result false (Some (frontIndex (msgorder_inner_list p)))))
    else
      let! d := upd_pool d pool_index (count_stopping p c) in
      Done (Stop w d c (stop_result true ctx)).

Definition doMainConnectionStoppingPrepareCleanAll (w : World) (d : Data) (_rcon : Connection) (ctx : option Z)
  : res stopping :=
  let pool_index := uid_index (Connection.pool_id _rcon) in
  let! p := pool_at d pool_index in
  let p := setClosing (setFastClosing (resetMainConnectionActive (setCleaningAllMessages p))) in
  let! d := upd_pool d pool_index p in
  Done (Stop w d _rcon (stop_result false ctx)).

(** The reverse of [count_stopping], when no new connection could be created. *)
Definition uncount_stopping (p : pool) (_rcon : Connection) : pool :=
  if Connection.isActiveState _rcon then
    with_counts p (pending_connection_count p) (active_connection_count p + 1) (stopping_connection_count p - 1)
  else
    with_counts p (pending_connection_count p + 1) (active_connection_count p) (stopping_connection_count p - 1).

Definition doMainConnectionRestarting (w : World) (d : Data) (_rcon : Connection) (_robjuid : UniqueId)
    (ctx : option Z) : res stopping :=
  let pool_index := uid_index (Connection.pool_id _rcon) in
  let! p := pool_at d pool_index in
  let p := with_main (count_stopping p _rcon) ObjectId_new in
  let p := if Connection.isConnected _rcon then with_retry p 0 else p in
  let! any := hasAnyMessage p in
  if (any : bool) then
    let p := with_waitingq p [] in
    let! d := upd_pool d pool_index p in
    let tried := Z.land (retry_connect_count p) 1 =? 0 in
    let! x := (if tried then
                 let! y := doTryCreateNewConnectionForPool w d pool_index in
                 let '(w, d, success, _) := y in Done (w, d, success)
               else Done (w, d, false)) in
    let '(w, d, success) := x in
    let! p := pool_at d pool_index in
    let p := with_retry p (retry_connect_count p + 1) in
    if negb success then
      let p := with_main (uncount_stopping p _rcon) _robjuid in
      let! d := upd_pool d pool_index p in
      Done (Stop w d _rcon
              (mkStopResult false
                 (connectionReconnectTimeoutSeconds (retry_connect_count p) tried (Connection.isConnected _rcon)
                    (Connection.isActiveState _rcon) (Connection.isSecured _rcon))
                 MessageId_clear MessageBundle_clear ctx))
    else
      let! d := upd_pool d pool_index p in
      Done (Stop w d _rcon (stop_result true ctx))
  else
    let! d := upd_pool d pool_index p in
    Done (Stop w d _rcon (stop_result true ctx)).

Definition connectionStopping (w : World) (d : Data) (_rcon : Connection) (_robjuid : UniqueId)
    (ctx : option Z) (_rerror : option Error) : res stopping :=
  let pool_index := uid_index (Connection.pool_id _rcon) in
  let! p := pool_at d pool_index in
  if negb (pool_unique p =? uid_unique (Connection.pool_id _rcon)) then
    Done (Stop w d _rcon (stop_result false ctx))
  else if negb (isMainConnection p _robjuid) then doNonMainConnectionStopping w d _rcon ctx
  else if negb (isLastConnection p) then doMainConnectionStoppingNotLast w d _rcon ctx
  else if isCleaningOneShotMessages p then doMainConnectionStoppingCleanOneShot w d _rcon ctx
  else if isCleaningAllMessages p then doMainConnectionStoppingCleanAll w d _rcon ctx
  else if isRestarting p && isRunning w then doMainConnectionRestarting w d _rcon _robjuid ctx
  else if negb (isFastClosing p) && negb (isServerSide p) && isRunning w
          && negb (bool_decide (_rerror = Some error_connection_resolve)) then
    doMainConnectionStoppingPrepareCleanOneShot w d _rcon ctx
  else doMainConnectionStoppingPrepareCleanAll w d _rcon ctx.

(** The counts are [uint16_t]: [with_counts] wraps them. *)
Definition connectionStop (d : Data) (_rcon : Connection) : res Data :=
  let pool_index := uid_index (Connection.pool_id _rcon) in
  let! p := pool_at d pool_index in
  if negb (pool_unique p =? uid_unique (Connection.pool_id _rcon)) then Done d
  else
    let p := with_counts p (pending_connection_count p) (active_connection_count p) (stopping_connection_count p - 1) in
    let p := resetRestarting p in
    let! d := upd_pool d pool_index p in
    if hasNoConnection p then
      let d := with_stack d (pool_index :: conpoolcachestk d) in
      let d := if negb (isServerSide p) && negb (isClosing p) then with_namemap d (delete (name p) (namemap d)) else d in
      clear_pool d pool_index
    else Done d.

(** ** The life of a connection *)

(** [forwardResolveMessage], given the addresses of the event. *)
Definition forwardResolveMessage (w : World) (d : Data) (_rpoolid : UniqueId) (addrvec : list Addr)
  : res (World * Data) :=
  match addrvec with
  | _ :: _ =>
      let! p := pool_at d (uid_index _rpoolid) in
      if pending_connection_count p <? pool_max_pending_connection_count then
        let '(w, _, error) := startObject w (mkNewConnection None _rpoolid (name p)) (Resolve (Some addrvec)) in
        match error with
        | None =>
            let! d := upd_pool d (uid_index _rpoolid)
                        (with_counts p (pending_connection_count p + 1) (active_connection_count p)
                           (stopping_connection_count p)) in
            Done (w, d)
        | Some _ => Done (w, d)
        end
      else
        let! d := upd_pool d (uid_index _rpoolid) (with_addrs p (removelast addrvec)) in
        Done (w, d)
  | [] =>
      let! x := doTryCreateNewConnectionForPool w d (uid_index _rpoolid) in
      let '(w, d, _, _) := x in
      Done (w, d)
  end.

Definition activateConnection (w : World) (d : Data) (_rconnection : Connection) (_robjuid : UniqueId)
  : res (World * Data * option Error) :=
  let pool_index := uid_index (Connection.pool_id _rconnection) in
  let! p := pool_at d pool_index in
  if negb (pool_unique p =? uid_unique (Connection.pool_id _rconnection)) then
    Done (w, d, Some error_service_unknown_pool)
  else if isMainConnectionStopping p then
    let w := (notify w (main_connection_id p) Connection.eventStopping).1 in
    let p := with_counts p (pending_connection_count p - 1) (active_connection_count p + 1)
               (stopping_connection_count p) in
    let p := setMainConnectionActive (resetMainConnectionStopping (with_main p _robjuid)) in
    let! d := upd_pool d pool_index p in
    Done (w, d, None)
  else
    let new_active_connection_count := active_connection_count p + 1 in
    if pool_max_active_connection_count <? new_active_connection_count then
      Done (w, d, Some error_service_too_many_active_connections)
    else
      let p := with_counts p (pending_connection_count p - 1) (active_connection_count p + 1)
                 (stopping_connection_count p) in
      let! d := upd_pool d pool_index p in
      let! x := doTryCreateNewConnectionForPool w d pool_index in
      let '(w, d, _, _) := x in
      Done (w, d, None).

Definition acceptIncomingConnection (w : World) (d : Data) (_rsd : Sock) : res (World * Data) :=
  let! x := take_pool d in
  let '(d, pool_idx) := x in
  let! p := pool_at d pool_idx in
  let '(w, con_id, error) :=
    startObject w (mkNewConnection (Some _rsd) (mkUniqueId pool_idx (pool_unique p)) (name p)) GenericStart in
  match error with
  | Some _ =>
      let! d := clear_pool d pool_idx in
      Done (w, with_stack d (pool_idx :: conpoolcachestk d))
  | None =>
      let p := with_main (with_counts p (pending_connection_count p + 1) (active_connection_count p)
                            (stopping_connection_count p)) con_id in
      let! d := upd_pool d pool_idx p in
      Done (w, d)
  end.

End Service.
Arguments Data : clear implicits.

End Service.
