(* ===== verification/ServiceProofs.v ===== *)
(** * Correctness of the service

    The operations of Service.v on pools that satisfy the invariant of PoolProofs.v: what a
    send does, in every case; how polling moves messages from a pool to the writer of a
    connection; how the messages of a closing pool are handed out; how pools are recycled. *)

From stdpp Require Import strings gmap.
From S2P Require Import Prelude InnerList TriList Packet MessageWriter MessageWriterProofs Pool PoolProofs Connection Service.
Import InnerList TriList Pool PoolProofs Service.
Import MessageWriter(MessageId, mkMessageId, index, unique_, MessageId_clear, MessageId_isInvalid, MessageId_isValid,
  MessageBundle, mkBundle, message_type_id, message_flags, message_ptr, complete_fnc,
  MessageBundle_new, MessageBundle_clear, MessageBundle_moved, set_flags, WriterConfiguration, MessageState, isOnPeer).
Import Connection(Event, GenericStart, GenericKill, Resolve).
#[local] Open Scope res_scope.
#[local] Set Warnings "-clear-no-such-hyp".

Module ServiceProofs.

Section Proofs.
Context {World Ser Msg Fn Addr Cb Sock : Type} {WC : WriterConfiguration} {MS : MessageState Msg}
  {SE : ServiceEnv World Msg Addr Cb Sock}.

Abbreviation pool := (ConnectionPoolStub Msg Fn Addr).
Abbreviation bundle := (MessageBundle Msg Fn).
Abbreviation data := (Data Msg Fn Addr).
Abbreviation con := (Connection.Connection Ser Msg Fn).
Implicit Types (p : pool) (d : data) (c : con) (b : bundle) (w : World) (i j : Z) (ord ca : list Z).

(** ** Pools of the service *)

(** [d] with the pool [i] replaced. *)
Definition set_pool d i p : data := with_pooldq d (<[Z.to_nat i := p]> (pooldq d)).

Definition pool_is d i p : Prop := at_idx (pooldq d) i = Some p.

Lemma pool_at_is d i p : pool_is d i p -> pool_at d i = Done p.
Proof using Type. clear SE MS WC. unfold pool_at. by intros ->. Qed.

Lemma pool_is_range d i p : pool_is d i p -> 0 <= i < Z.of_nat (length (pooldq d)).
Proof using Type. clear SE MS WC. apply at_idx_range. Qed.

Lemma upd_pool_is d i p p' : pool_is d i p -> upd_pool d i p' = Done (set_pool d i p').
Proof using Type. clear SE MS WC. intros H. unfold upd_pool. by rewrite (pool_at_is _ _ _ H). Qed.

Lemma pool_is_set d i p p' : pool_is d i p -> pool_is (set_pool d i p') i p'.
Proof using Type.
  clear SE MS WC. intros H%pool_is_range. unfold pool_is, set_pool. cbn [pooldq with_pooldq].
  rewrite at_idx_insert by done. by rewrite decide_True.
Qed.

Lemma pool_is_other d i p' j : 0 <= i -> j <> i -> at_idx (pooldq (set_pool d i p')) j = at_idx (pooldq d) j.
Proof using Type.
  clear SE MS WC. intros Hi Hj. unfold set_pool, at_idx. cbn [pooldq with_pooldq]. case_decide; [|done].
  apply list_lookup_insert_ne. lia.
Qed.

Lemma set_pool_id d i p : pool_is d i p -> set_pool d i p = d.
Proof using Type.
  clear SE MS WC. intros [_ H]%at_idx_Some. unfold set_pool. rewrite list_insert_id by done. by destruct d.
Qed.

Lemma set_pool_twice d i p p' : set_pool (set_pool d i p) i p' = set_pool d i p'.
Proof using Type. clear SE MS WC. unfold set_pool, with_pooldq. cbn. by rewrite list_insert_insert_eq. Qed.

(** The messages of the pools, and what else only the operations on messages change. *)
Record same_msgs p p' : Prop := {
  sm_vec : msgvec p' = msgvec p;
  sm_order : msgorder_inner_list p' = msgorder_inner_list p;
  sm_cache : msgcache_inner_list p' = msgcache_inner_list p;
  sm_async : msgasync_inner_list p' = msgasync_inner_list p;
  sm_name : name p' = name p;
  sm_unique : pool_unique p' = pool_unique p
}.

Lemma same_msgs_wf p p' ord ca : same_msgs p p' -> wf p ord ca -> wf p' ord ca.
Proof using Type. clear SE MS WC. intros []. by apply wf_msgs. Qed.

Lemma same_msgs_refl p : same_msgs p p.
Proof using Type. clear SE MS WC. by constructor. Qed.

Lemma same_msgs_trans p1 p2 p3 : same_msgs p1 p2 -> same_msgs p2 p3 -> same_msgs p1 p3.
Proof using Type. clear SE MS WC. intros [] []. constructor; congruence. Qed.

Lemma same_msgs_queue p p' ord : same_msgs p p' -> queue_of p' ord = queue_of p ord.
Proof using Type. clear SE MS WC. intros []. unfold queue_of, vec_data. by rewrite sm_vec0. Qed.

(** Closes [same_msgs] for pools that differ in other members. *)
Ltac same_msgs := repeat case_match; by constructor.

Lemma create_spec w d i p ord ca :
  pool_is d i p -> wf p ord ca ->
  exists w' p' ok err, doTryCreateNewConnectionForPool w d i = Done (w', set_pool d i p', ok, err)
    /\ same_msgs p p' /\ pool_flags p' = pool_flags p /\ (ok = false -> p' = p) /\ (ok = true -> err = None).
Proof using Type.
  intros Hp Hw. unfold doTryCreateNewConnectionForPool. rewrite (pool_at_is _ _ _ Hp). cbn [res_bind].
  assert (H0 : forall w' (err : option Error), exists w1 p' ok err', Done (w', d, false, err) = Done (w1, set_pool d i p', ok, err')
    /\ same_msgs p p' /\ pool_flags p' = pool_flags p /\ (ok = false -> p' = p) /\ (ok = true -> err' = None)).
  { intros w' err. exists w', p, false, err. by rewrite (set_pool_id _ _ _ Hp). }
  assert (exists g, (if (active_connection_count p <? pool_max_active_connection_count) && (pending_connection_count p =? 0)
    then let! any := hasAnyMessage p in
         Done (any && (Z.of_nat (length (conn_waitingq p)) <? size (msgorder_inner_list p)) && isRunning w)
    else Done false) = Done g) as [g ->].
  { case_match; [|by eexists]. unfold hasAnyMessage. rewrite (hasNoMessage_spec _ _ _ Hw). by eexists. }
  cbn [res_bind]. destruct g; [|apply H0].
  destruct (startObject _ _ _) as [[w1 conuid] [e|]]; [apply H0|].
  set (p1 := with_counts _ _ _ _). set (p2 := if isInvalid _ then _ else _).
  assert (Hs : same_msgs p p2 /\ pool_flags p2 = pool_flags p) by (unfold p2; case_match; by repeat constructor).
  destruct Hs as [Hs Hf]. destruct (connect_addr_vec p2).
  - rewrite (upd_pool_is _ _ _ _ Hp). cbn [res_bind]. by exists (name_resolve_fnc w1 (name p2) conuid), p2, true, None.
  - destruct (notify _ _ _) as [w2 ?]. rewrite (upd_pool_is _ _ _ _ Hp). cbn [res_bind].
    exists w2, (with_addrs p2 []), true, None. split_and!; try done. by destruct Hs; constructor.
Qed.

Lemma notify_waiting_spec w d i p :
  pool_is d i p ->
  exists w' p' ok, doTryNotifyPoolWaitingConnection w d i = Done (w', set_pool d i p', ok)
    /\ same_msgs p p' /\ pool_flags p' = pool_flags p.
Proof using Type.
  intros Hp. unfold doTryNotifyPoolWaitingConnection. rewrite (pool_at_is _ _ _ Hp). cbn [res_bind].
  destruct (notify_waiting _ _) as [[w' q] ok]. rewrite (upd_pool_is _ _ _ _ Hp). cbn [res_bind].
  exists w', (with_waitingq p q), ok. split_and!; try done.
Qed.

(** ** Sending *)

(** Every pool is well-formed, and names lead to pools. *)
Record svc_ok d : Prop := {
  so_pools i p : pool_is d i p -> exists ord ca, wf p ord ca;
  so_names k i : namemap d !! k = Some i -> exists p, pool_is d i p
}.

Lemma svc_ok_set d i p p' ord ca : svc_ok d -> pool_is d i p -> wf p' ord ca -> svc_ok (set_pool d i p').
Proof using Type.
  clear SE MS WC. intros [Hp Hn] Hi Hw. pose proof (pool_is_range _ _ _ Hi) as Hr. constructor.
  - intros j q Hj. destruct (decide (j = i)) as [->|Hne].
    + pose proof (pool_is_set d i p p' Hi) as H. unfold pool_is in *. rewrite Hj in H. injection H as ->. eauto.
    + unfold pool_is in Hj. rewrite pool_is_other in Hj by lia. by eapply Hp.
  - intros k j Hk. destruct (Hn k j Hk) as [q Hq]. destruct (decide (j = i)) as [->|Hne].
    + exists p'. by eapply pool_is_set.
    + exists q. unfold pool_is. by rewrite pool_is_other by lia.
Qed.

Lemma not_full_room p ord ca :
  wf p ord ca -> isFull p pool_max_message_queue_size = false -> pool_max_message_queue_size < nil_idx ->
  room p ca.
Proof using Type.
  intros Hw Hf Hm. rewrite (isFull_spec _ _ _ _ Hw) in Hf. apply andb_false_iff in Hf as [Hf|Hf].
  - left. by apply bool_decide_eq_false in Hf.
  - right. apply Z.leb_gt in Hf. lia.
Qed.

(** What a send asks for. *)
Record request := mkRequest {
  rq_msg : option Msg;
  rq_type : Z;
  rq_fnc : option Fn;
  rq_flags : Z;
  rq_want_pool : bool;
  rq_want_id : bool
}.

(** The pool [p'] is [p] with the requested message at the end of its queue, under the id
    [idx], [u], and cancelable if the id was asked for. *)
Record queued (rq : request) p ord p' idx (u : Z) : Prop := {
  q_wf : exists ca', wf p' (ord ++ [idx]) ca';
  q_queue : queue_of p' (ord ++ [idx])
    = queue_of p ord ++ [mkBundle (rq_type rq) (rq_flags rq) (rq_msg rq) (rq_fnc rq)];
  q_stub : exists s, at_idx (vec_data p') idx = Some s /\ unique s = u /\ isCancelable s = rq_want_id rq
    /\ objid s = ObjectId_new;
  q_name : name p' = name p;
  q_unique : pool_unique p' = pool_unique p;
  q_bound : Z.of_nat (length (msgvec p')) <= Z.max (Z.of_nat (length (msgvec p))) pool_max_message_queue_size
}.

Lemma queued_same rq p ord p1 p2 idx u : queued rq p ord p1 idx u -> same_msgs p1 p2 -> queued rq p ord p2 idx u.
Proof using Type.
  intros [[ca Hw] Hq Hs Hn Hu Hb] Hm. pose proof Hm as [E1 _ _ _ E5 E6]. constructor; try congruence.
  - exists ca. by eapply same_msgs_wf.
  - by rewrite (same_msgs_queue _ _ _ Hm).
  - unfold vec_data in *. by rewrite E1.
Qed.

Lemma rest_name p p' : rest p' = rest p -> name p' = name p /\ pool_unique p' = pool_unique p /\ pool_flags p' = pool_flags p.
Proof using Type. clear SE MS WC. unfold rest, with_msgs. intros [=]. done. Qed.

(** Queues the message and marks it as cancelable. *)
Lemma push_request rq p ord ca :
  wf p ord ca -> room p ca ->
  isFull p pool_max_message_queue_size = false ->
  exists p1 idx u p2,
    pushBackMessage p (rq_msg rq) (rq_type rq) (rq_fnc rq) (rq_flags rq) = Done (p1, mkMessageId idx u)
    /\ (if rq_want_id rq then make_cancelable p1 idx else Done p1) = Done p2
    /\ queued rq p ord p2 idx u /\ pool_flags p2 = pool_flags p.
Proof using Type.
  intros Hw Hroom Hfull.
  destruct (pushBackMessage_spec p ord ca (rq_msg rq) (rq_type rq) (rq_fnc rq) (rq_flags rq) Hw Hroom)
    as (p1 & idx & s & ca' & E1 & Hf & Hw1 & Hs1).
  destruct (fresh_not_in _ _ _ _ _ _ Hw Hf) as [Hno Hnc].
  destruct (fresh_free _ _ _ _ _ _ Hw Hf) as (_ & _ & Hobj & Hfl).
  set (b := mkBundle (rq_type rq) (rq_flags rq) (rq_msg rq) (rq_fnc rq)) in *.
  assert (Hq1 : queue_of p1 (ord ++ [idx]) = queue_of p ord ++ [b]).
  { by rewrite queue_of_app, (queue_of_set _ _ _ _ _ Hs1 Hno), (queue_of_cons _ _ _ _ (ss_at _ _ _ _ Hs1)). }
  assert (Hb : Z.of_nat (length (msgvec p1)) <= Z.max (Z.of_nat (length (msgvec p))) pool_max_message_queue_size).
  { rewrite (isFull_spec _ _ _ _ Hw) in Hfull. pose proof (fresh_set_length _ _ _ _ _ _ _ _ Hw Hf Hs1).
    destruct Hf as [[-> Hs]|(-> & _)].
    - rewrite (stub_set_length _ _ _ _ Hs1); [lia|]. by eapply data_in_vec.
    - rewrite bool_decide_eq_true_2 in Hfull by done. cbn in Hfull. apply Z.leb_gt in Hfull. lia. }
  destruct (rest_name _ _ (ss_rest _ _ _ _ Hs1)) as (Hn1 & Hu1 & Hf1).
  exists p1, idx, (unique s). destruct (rq_want_id rq) eqn:Hid.
  - unfold make_cancelable. rewrite stub_at_eq, (ss_at _ _ _ _ Hs1). cbn [of_option res_bind].
    destruct (wf_upd p1 _ _ idx _ (makeCancelable (set_bundle b s)) Hw1 (ss_at _ _ _ _ Hs1)) as (p2 & E2 & Hw2 & Hs2 & Hl2);
      [done|done|].
    destruct (rest_name _ _ (ss_rest _ _ _ _ Hs2)) as (Hn2 & Hu2 & Hf2).
    exists p2. split; [done|]. split; [done|]. split; [|congruence]. constructor; [by exists ca'| | |congruence..|lia].
    + by rewrite (queue_of_keep _ _ _ _ _ _ Hs2 (ss_at _ _ _ _ Hs1)).
    + exists (makeCancelable (set_bundle b s)). split; [apply Hs2|]. split; [done|]. split; [|done].
      unfold isCancelable. cbn. by rewrite Hfl, Hid.
  - exists p1. split; [done|]. split; [done|]. split; [|congruence]. constructor; [by exists ca'|done| |done|done|done].
    exists (set_bundle b s). split; [apply Hs1|]. split; [done|]. split; [|done].
    unfold isCancelable. cbn. by rewrite Hfl, Hid.
Qed.

Lemma send_to_pool_spec w d i p ord ca rq :
  pool_is d i p -> wf p ord ca -> pool_max_message_queue_size < nil_idx ->
  isClosing p = false -> isFull p pool_max_message_queue_size = false ->
  exists w' p' idx u,
    send_to_pool w d i (rq_msg rq) (rq_type rq) (rq_fnc rq) (rq_want_pool rq) (rq_want_id rq) (rq_flags rq)
    = Done (w', set_pool d i p',
            mkSendResult None (if rq_want_pool rq then Some (mkUniqueId i (pool_unique p)) else None)
              (if rq_want_id rq then Some (mkMessageId idx u) else None))
    /\ queued rq p ord p' idx u.
Proof using Type.
  intros Hp Hw Hm Hc Hf. unfold send_to_pool. rewrite (pool_at_is _ _ _ Hp). cbn [res_bind]. rewrite Hc, Hf.
  destruct (push_request rq p ord ca Hw (not_full_room _ _ _ Hw Hf Hm) Hf) as (p1 & idx & u & p2 & -> & E2 & Hq & Hfl).
  cbn [res_bind index]. rewrite E2. cbn [res_bind]. rewrite (upd_pool_is _ _ _ _ Hp). cbn [res_bind].
  destruct (if isCleaningOneShotMessages p2 && MessageFlags.is_one_shot (rq_flags rq) then _ else _) as [w1 s1].
  destruct (if negb s1 && MessageFlags.is_synchronous (rq_flags rq) && isMainConnectionActive p2 then _ else _) as [w2 s2].
  pose proof (pool_is_set d i p p2 Hp) as Hp2.
  assert (exists w3 p3 s3, (if negb s2 && negb (MessageFlags.is_synchronous (rq_flags rq)) then
      doTryNotifyPoolWaitingConnection w2 (set_pool d i p2) i else Done (w2, set_pool d i p2, s2))
      = Done (w3, set_pool d i p3, s3) /\ queued rq p ord p3 idx u) as (w3 & p3 & s3 & -> & Hq3).
  { destruct (negb s2 && _); [|by exists w2, p2, s2].
    destruct (notify_waiting_spec w2 _ i p2 Hp2) as (w3 & p3 & s3 & -> & Hs3 & _).
    exists w3, p3, s3. rewrite set_pool_twice. split; [done|]. by eapply queued_same. }
  cbn [res_bind]. pose proof (pool_is_set d i p p3 Hp) as Hp3.
  assert (exists w4 p4, (if negb s3 then
      let! y := doTryCreateNewConnectionForPool w3 (set_pool d i p3) i in
      let '(w, d, _, _) := y in Done (w, d) else Done (w3, set_pool d i p3))
      = Done (w4, set_pool d i p4) /\ queued rq p ord p4 idx u) as (w4 & p4 & -> & Hq4).
  { destruct (negb s3); [|by exists w3, p3]. destruct (q_wf _ _ _ _ _ _ Hq3) as [ca3 Hw3].
    destruct (create_spec w3 _ i p3 _ _ Hp3 Hw3) as (w4 & p4 & ok & err & -> & Hs4 & _).
    exists w4, p4. cbn [res_bind]. rewrite set_pool_twice. split; [done|]. by eapply queued_same. }
  cbn [res_bind]. by exists w4, p4, idx, u.
Qed.

(** The guards of a send, in the order in which the first one that holds decides. *)
Fixpoint first_error (gs : list (bool * Error)) : option Error :=
  match gs with
  | [] => None
  | (g, e) :: gs => if g then Some e else first_error gs
  end.

Definition on_peer (m : option Msg) : bool := match m with Some x => isOnPeer x | None => false end.
Definition type_of (m : option Msg) : Z := match m with Some x => typeIndex x | None => 0 end.

Definition message_guards w (m : option Msg) (fl : Z) : list (bool * Error) :=
  [ (negb (isRunning w), error_service_stopping);
    (bool_decide (m = None), error_service_message_null);
    (MessageFlags.is_response fl && negb (on_peer m), error_service_message_state);
    (MessageFlags.is_response fl && MessageFlags.is_request fl, error_service_message_flags);
    (negb (MessageFlags.is_response fl) && on_peer m, error_service_message_state);
    (type_of m =? 0, error_service_message_unknown_type) ].

Definition pool_guards p : list (bool * Error) :=
  [ (isClosing p, error_service_pool_stopping);
    (isFull p pool_max_message_queue_size, error_service_pool_full) ].

(** The pool a send is for: the one the name leads to, or the one with this very id. *)
Definition target d (nm : option string) (rid : RecipientId) : Z + Error :=
  match nm with
  | Some n => from_option inl (inr error_service_server_only) (namemap d !! n)
  | None =>
      match at_idx (pooldq d) (uid_index (poolid rid)) with
      | Some p => if pool_unique p =? uid_unique (poolid rid) then inl (uid_index (poolid rid))
                  else inr error_service_unknown_pool
      | None => inr error_service_unknown_recipient
      end
  end.

Lemma message_guards_pass w m fl :
  first_error (message_guards w m fl) = None ->
  exists x, m = Some x /\ isRunning w = true /\ (typeIndex x =? 0) = false
    /\ (if MessageFlags.is_response fl then
          if negb (isOnPeer x) then Some error_service_message_state
          else if MessageFlags.is_request fl then Some error_service_message_flags else None
        else if isOnPeer x then Some error_service_message_state else None) = None.
Proof using Type.
  unfold message_guards. cbn [first_error]. destruct (isRunning w); [cbn [negb]|done].
  destruct m as [x|]; [rewrite bool_decide_eq_false_2 by done|by rewrite bool_decide_eq_true_2].
  cbn [on_peer type_of]. intros H. exists x. revert H.
  by destruct (MessageFlags.is_response fl), (isOnPeer x), (MessageFlags.is_request fl), (typeIndex x =? 0).
Qed.

Lemma doSendMessage_guarded w d nm rid m fnc rp ri fl e :
  first_error (message_guards w m fl) = Some e ->
  doSendMessage w d nm rid m fnc rp ri fl = Done (w, d, send_failed e).
Proof using Type.
  unfold message_guards, doSendMessage. cbn [first_error]. destruct (isRunning w); cbn [negb]; [|congruence].
  destruct m as [x|]; [rewrite bool_decide_eq_false_2 by done|rewrite bool_decide_eq_true_2 by done; congruence].
  cbn [on_peer type_of]. destruct (MessageFlags.is_response fl), (isOnPeer x), (MessageFlags.is_request fl), (typeIndex x =? 0);
    cbn; congruence.
Qed.

(** C22: a send to a pool (by its name, or by its id) does what its guards say, in their order.
    When one fails, nothing changes and its error is returned: no message, a message in the
    wrong state or of an unknown type, an unknown or outdated pool, a pool that closes or is
    full. Otherwise the message goes to the end of the queue of that pool and of no other, under
    the id that is returned, cancelable exactly if its id was asked for; the pool keeps its
    invariant and grows over [pool_max_message_queue_size] by no send. *)
Theorem doSendMessage_correct w d (nm : option string) (rid : RecipientId) (m : option Msg) (fnc : option Fn)
    (rp ri : bool) (fl : Z) :
  svc_ok d -> isValidConnection rid = false -> 0 <= uid_index (poolid rid) ->
  pool_max_message_queue_size < nil_idx -> (forall n, nm = Some n -> is_Some (namemap d !! n)) ->
  let result := doSendMessage w d nm rid m fnc rp ri fl in
  match first_error (message_guards w m fl) with
  | Some e => result = Done (w, d, send_failed e)
  | None =>
      match target d nm rid with
      | inr e => result = Done (w, d, send_failed e)
      | inl i => exists p ord ca, pool_is d i p /\ wf p ord ca /\
          match first_error (pool_guards p) with
          | Some e => result = Done (w, d, send_failed e)
          | None => exists w' p' idx u,
              result = Done (w', set_pool d i p',
                mkSendResult None (if rp then Some (mkUniqueId i (pool_unique p)) else None)
                  (if ri then Some (mkMessageId idx u) else None))
              /\ queued (mkRequest m (type_of m) fnc fl rp ri) p ord p' idx u /\ svc_ok (set_pool d i p')
          end
      end
  end.
Proof using Type.
  intros Hok Hcon Hrid Hmax Hnm. cbn zeta. destruct (first_error (message_guards w m fl)) as [e|] eqn:Hg.
  { by apply doSendMessage_guarded. }
  destruct (message_guards_pass _ _ _ Hg) as (x & -> & Hrun & Hty & Hbad).
  unfold doSendMessage. rewrite Hrun. cbn [negb]. rewrite Hbad, Hty, Hcon. cbn [type_of].
  assert (Hpool : forall i p, pool_is d i p -> exists p ord ca, pool_is d i p /\ wf p ord ca /\
      match first_error (pool_guards p) with
      | Some e => send_to_pool w d i (Some x) (typeIndex x) fnc rp ri fl = Done (w, d, send_failed e)
      | None => exists w' p' idx u,
          send_to_pool w d i (Some x) (typeIndex x) fnc rp ri fl = Done (w', set_pool d i p',
            mkSendResult None (if rp then Some (mkUniqueId i (pool_unique p)) else None)
              (if ri then Some (mkMessageId idx u) else None))
          /\ queued (mkRequest (Some x) (typeIndex x) fnc fl rp ri) p ord p' idx u /\ svc_ok (set_pool d i p')
      end).
  { intros i p Hp. destruct (so_pools _ Hok i p Hp) as (ord & ca & Hw). exists p, ord, ca. split; [done|]. split; [done|].
    unfold pool_guards. cbn [first_error]. destruct (isClosing p) eqn:Hc.
    { unfold send_to_pool. rewrite (pool_at_is _ _ _ Hp). cbn [res_bind]. by rewrite Hc. }
    destruct (isFull p pool_max_message_queue_size) eqn:Hf.
    { unfold send_to_pool. rewrite (pool_at_is _ _ _ Hp). cbn [res_bind]. by rewrite Hc, Hf. }
    destruct (send_to_pool_spec w d i p ord ca (mkRequest (Some x) (typeIndex x) fnc fl rp ri) Hp Hw Hmax Hc Hf)
      as (w' & p' & idx & u & E & Hq).
    destruct (q_wf _ _ _ _ _ _ Hq) as [ca' Hw']. exists w', p', idx, u. split; [done|]. split; [done|].
    by eapply svc_ok_set. }
  destruct nm as [n|]; cbn [target].
  - destruct (Hnm n eq_refl) as [i Hi]. rewrite Hi. cbn [from_option].
    destruct (so_names _ Hok n i Hi) as [p Hp]. by eapply Hpool.
  - destruct (at_idx (pooldq d) (uid_index (poolid rid))) as [p|] eqn:Hp.
    + pose proof (pool_is_range _ _ _ Hp). rewrite (proj2 (Z.ltb_lt _ _)) by lia.
      rewrite (pool_at_is _ _ _ Hp). cbn [res_bind]. destruct (pool_unique p =? uid_unique (poolid rid)); [|done].
      cbn [negb]. by eapply Hpool.
    + rewrite (proj2 (Z.ltb_ge _ _)); [done|]. unfold at_idx in Hp. rewrite decide_True in Hp by done.
      apply lookup_ge_None in Hp. lia.
Qed.

(** ** Polling *)

Abbreviation writer := (MessageWriter.MessageWriter Ser Msg Fn).
Abbreviation wwf := WriterProofs.wf.

(** The id under which a connection knows a message of the pool. *)
Definition pool_id_of i (s : StubData Msg Fn) : MessageId :=
  if isCancelable s then mkMessageId i (unique s) else MessageId_clear.

Definition content_at p i : list (Z * option Msg * option Fn * MessageId) :=
  match at_idx (vec_data p) i with
  | Some s => [(message_type_id (msgbundle s), message_ptr (msgbundle s), complete_fnc (msgbundle s), pool_id_of i s)]
  | None => []
  end.

Lemma enqueue_grows (m m' : writer) idx s :
  at_idx (WriterProofs.vec_data m') idx = Some s ->
  (forall j, j <> idx -> at_idx (WriterProofs.vec_data m') j = at_idx (WriterProofs.vec_data m) j) ->
  (length (MessageWriter.message_vec m') <= S (length (MessageWriter.message_vec m)))%nat.
Proof using Type.
  clear SE MS WC. intros Hs Hj. rewrite <- !WriterProofs.w_length_vec_data.
  set (v := WriterProofs.vec_data m) in *. set (v' := WriterProofs.vec_data m') in *. clearbody v v'.
  assert (Hv : forall j, 0 <= j < Z.of_nat (length v') -> j <> idx -> j < Z.of_nat (length v)).
  { intros j Hj' Hne. specialize (Hj j Hne). unfold at_idx in Hj. rewrite !decide_True in Hj by lia.
    destruct (decide (j < Z.of_nat (length v))) as [?|?]; [done|].
    rewrite (lookup_ge_None_2 v) in Hj by lia. apply lookup_ge_None in Hj. lia. }
  pose proof (at_idx_range _ _ _ Hs). pose proof (Hv (Z.of_nat (length v') - 1)). pose proof (Hv (Z.of_nat (length v') - 2)). lia.
Qed.

(** A try to push a queued message: it fails when there is no message or the writer refuses it,
    and then changes nothing; otherwise the message leaves the pool and goes to the end of the
    writer. *)
Lemma push_step p xs i ys ca s c (o : UniqueId) word wwr wca :
  wf p (xs ++ i :: ys) ca -> at_idx (vec_data p) i = Some s ->
  MessageFlags.is_canceled (message_flags (msgbundle s)) = false ->
  wwf (Connection.msg_writer c) word wwr wca ->
  Z.of_nat (length (MessageWriter.message_vec (Connection.msg_writer c))) + 1 < nil_idx ->
  ((message_ptr (msgbundle s) = None \/ WriterProofs.refused wwr word (msgbundle s) = true)
   /\ doTryPushMessageToConnection p c o i = Done (p, c, false))
  \/ (is_Some (message_ptr (msgbundle s)) /\ exists p' m' r x ca' idx wca',
      doTryPushMessageToConnection p c o i = Done (p', Connection.with_writer c m', true)
      /\ wf p' (xs ++ ys) ca' /\ stub_set p p' i x
      /\ MessageWriter.enqueue (Connection.msg_writer c) (msgbundle s) (pool_id_of i s) = Done (m', Some r)
      /\ wwf m' (word ++ [idx]) (wwr ++ [idx]) wca'
      /\ (length (MessageWriter.message_vec m') <= S (length (MessageWriter.message_vec (Connection.msg_writer c))))%nat).
Proof using Type.
  intros Hw Hs Hcan Hww Hg. unfold doTryPushMessageToConnection. rewrite stub_at_eq, Hs. cbn [of_option res_bind].
  destruct (message_ptr (msgbundle s)) as [x|] eqn:Hx; [|left; auto].
  assert (Hb : is_Some (message_ptr (msgbundle s))) by (by exists x).
  unfold Connection.tryPushMessage. fold (is_async s).
  assert (Hwc : Connection.with_writer c (Connection.msg_writer c) = c) by (by destruct c).
  destruct (WriterProofs.refused wwr word (msgbundle s)) eqn:Hrf.
  { left. split; [auto|]. destruct (isCancelable s); rewrite (WriterProofs.enqueue_refuses _ _ _ _ _ _ Hww Hrf);
      cbn [res_bind fst snd]; by rewrite Hwc. }
  right. split; [by exists x|]. unfold pool_id_of.
  destruct (WriterProofs.enqueue_accepts _ _ _ _ _ (if isCancelable s then mkMessageId i (unique s) else MessageId_clear)
    Hww Hb Hcan Hg Hrf) as (m' & idx & s0 & wca' & E & Hww' & _ & Hs0 & Hj0 & _).
  pose proof (enqueue_grows _ _ _ _ Hs0 Hj0) as Hlen.
  set (b' := MessageBundle_moved _) in E. set (mid := mkMessageId idx _) in E.
  destruct (nodup_remove xs ys i (wf_nodup _ _ _ Hw)) as [Hni _].
  assert (Hnc : i ∉ ca) by (eapply tri_disj; [apply Hw|set_solver]).
  pose proof (wf_lists _ _ _ Hw) as Hl. pose proof (data_in_vec _ _ _ Hs) as Hv.
  destruct (isCancelable s); rewrite E; cbn [res_bind fst snd].
  - destruct (upd_stub_spec p _ _ _ i (set_objid o (set_msgid mid (set_bundle b' s))) Hl Hv) as (p1 & -> & Hl1 & Hs1 & _).
    cbn [res_bind]. destruct (unlink_spec p p1 xs i ys ca s _ Hw Hs Hs1 Hl1) as (p2 & p3 & -> & E3 & Hl3 & Hs3 & _).
    cbn [res_bind]. rewrite E3. cbn [res_bind]. do 3 eexists. exists (set_objid o (set_msgid mid (set_bundle b' s))), ca, idx, wca'.
    split_and!; try done. eapply wf_of_lists; [done|done|done|]. intros j Hj. left. split; [done|]. by intros ->.
  - destruct (upd_stub_spec p _ _ _ i (set_msgid mid (set_bundle b' s)) Hl Hv) as (p1 & -> & Hl1 & Hs1 & _).
    cbn [res_bind]. destruct (unlink_spec p p1 xs i ys ca s _ Hw Hs Hs1 Hl1) as (p2 & p3 & -> & E3 & Hl3 & Hs3 & _).
    cbn [res_bind]. rewrite E3. cbn [res_bind].
    destruct (cache_clear_spec p3 (xs ++ ys) ca _ i (set_msgid mid (set_bundle b' s)) Hl3 (set_in _ _ _ _ Hs3) Hni Hnc)
      as (p4 & p5 & -> & E5 & Hl5 & Hs5).
    cbn [res_bind]. rewrite E5. cbn [res_bind]. pose proof (stub_set_trans _ _ _ _ _ _ Hs3 Hs5) as Hs5'.
    do 3 eexists. exists (StubData_clear (set_msgid mid (set_bundle b' s))), (ca ++ [i]), idx, wca'.
    split_and!; try done. eapply wf_of_lists; [done|done| |by apply cached_ca].
    by rewrite (asyncs_set _ _ _ _ _ Hs5).
Qed.

(** The messages of the stubs [js], as a connection gets them. *)
Definition contents_at p (js : list Z) : list (Z * option Msg * option Fn * MessageId) := flat_map (content_at p) js.

Lemma contents_at_ext p p' js :
  (forall j, j ∈ js -> at_idx (vec_data p') j = at_idx (vec_data p) j) -> contents_at p' js = contents_at p js.
Proof using Type.
  clear SE MS WC. induction js as [|j js IH]; intros H; [done|]. cbn. unfold content_at at 1 3.
  rewrite (H j) by left. fold (contents_at p' js). rewrite IH; [done|]. intros j' Hj'. apply H. by right.
Qed.

(** The messages a connection may take: all, if it is the main connection, or the asynchronous ones. *)
Definition sel (main : bool) p ord : list Z := if main then ord else asyncs p ord.
Definition sel_list (main : bool) : pool -> InnerList := if main then msgorder_inner_list else msgasync_inner_list.

Definition without (taken ord : list Z) : list Z := filter (fun i => i ∉ taken) ord.

(** No queued message is canceled. *)
Definition none_canceled p ord : Prop :=
  forall i s, i ∈ ord -> at_idx (vec_data p) i = Some s -> MessageFlags.is_canceled (message_flags (msgbundle s)) = false.

Lemma without_nil ord : without [] ord = ord.
Proof using Type.
  clear SE MS WC. unfold without. induction ord as [|i ord IH]; [done|].
  rewrite filter_cons, decide_True by apply not_elem_of_nil. by rewrite IH.
Qed.

Lemma without_id taken ord : (forall i, i ∈ ord -> i ∉ taken) -> without taken ord = ord.
Proof using Type.
  clear SE MS WC. unfold without. induction ord as [|i ord IH]; intros H; [done|].
  rewrite filter_cons, decide_True by (apply H; left). rewrite IH; [done|]. intros j Hj. apply H. by right.
Qed.

Lemma without_app taken xs ys : without taken (xs ++ ys) = without taken xs ++ without taken ys.
Proof using Type. clear SE MS WC. apply filter_app. Qed.

Lemma without_cons_ne i taken xs : i ∉ xs -> without (i :: taken) xs = without taken xs.
Proof using Type.
  clear SE MS WC. unfold without. induction xs as [|j xs IH]; intros Hi; [done|].
  rewrite !filter_cons, IH by set_solver. destruct (decide (j ∉ taken)) as [Hj|Hj].
  - rewrite decide_True; [done|]. set_solver.
  - rewrite decide_False; [done|]. set_solver.
Qed.

Lemma without_remove taken xs i ys :
  NoDup (xs ++ i :: ys) -> without (i :: taken) (xs ++ i :: ys) = without taken (xs ++ ys).
Proof using Type.
  clear SE MS WC. intros Hnd. destruct (nodup_remove xs ys i Hnd) as [Hni _].
  rewrite !without_app. assert ((i ∉ xs) /\ (i ∉ ys)) as [Hx Hy] by set_solver.
  rewrite (without_cons_ne i taken xs Hx). f_equal. unfold without at 1. rewrite filter_cons.
  rewrite decide_False by (intros H; apply H; left). by apply without_cons_ne.
Qed.

Lemma sel_size main p ord ca : wf p ord ca -> size (sel_list main p) = Z.of_nat (length (sel main p ord)).
Proof using Type. clear SE MS WC. destruct main; [apply order_size|apply async_size]. Qed.

Lemma sel_front main p ord ca : wf p ord ca -> frontIndex (sel_list main p) = hd nil_idx (sel main p ord).
Proof using Type. clear SE MS WC. destruct main; [apply order_front|apply async_front]. Qed.

Lemma sel_in main p ord i : i ∈ sel main p ord -> i ∈ ord.
Proof using Type. clear SE MS WC. destruct main; [done|apply asyncs_in]. Qed.

Lemma app_cons_inv (xs xs' ys ys' : list Z) i :
  NoDup (xs ++ i :: ys) -> xs ++ i :: ys = xs' ++ i :: ys' -> xs' = xs /\ ys' = ys.
Proof using Type.
  clear SE MS WC. revert xs'. induction xs as [|x xs IH]; intros [|x' xs'] Hnd E; cbn in *.
  - injection E as ->. done.
  - injection E as -> E. apply NoDup_cons in Hnd as [Hni _]. rewrite E in Hni. set_solver.
  - injection E as -> E. apply NoDup_cons in Hnd as [Hni _]. set_solver.
  - injection E as -> E. apply NoDup_cons in Hnd as [_ Hnd]. destruct (IH xs' Hnd E) as [-> ->]. done.
Qed.

(** Removing the first message that may be taken. *)
Lemma sel_remove main p p' ord i js x :
  NoDup ord -> sel main p ord = i :: js ->
  exists xs ys, ord = xs ++ i :: ys /\ (stub_set p p' i x -> sel main p' (xs ++ ys) = js).
Proof using Type.
  clear SE MS WC. intros Hnd Hsel. destruct main; cbn [sel] in *.
  { exists [], js. split; [done|]. done. }
  assert (Hi : i ∈ ord) by (apply (asyncs_in p); rewrite Hsel; left).
  apply list_elem_of_split in Hi as (xs & ys & ->). exists xs, ys. split; [done|]. intros Hs.
  destruct (nodup_remove xs ys i Hnd) as [Hni _]. rewrite (asyncs_set _ _ _ _ _ Hs Hni).
  rewrite asyncs_app in *. assert (Hx : i ∉ asyncs p xs) by (intros Hx%asyncs_in; set_solver).
  destruct (asyncs p xs) as [|j zs] eqn:Ex.
  - cbn [app] in *. assert (async_at p i = true) as Ha.
    { assert (i ∈ asyncs p (i :: ys)) as Hin by (rewrite Hsel; left). unfold asyncs in Hin.
      by apply list_elem_of_filter in Hin as [? _]. }
    unfold asyncs in Hsel |- *. rewrite filter_cons, decide_True in Hsel by done. by injection Hsel as <-.
  - cbn in Hsel. injection Hsel as -> _. set_solver.
Qed.

(** What a poll does with the messages that may be taken: a prefix of them goes to the end of
    the writer, the others stay. *)
Record polled (main more : bool) p ord c (word wwr : list Z) p' (m' : writer) (taken left : list Z) : Prop := {
  po_split : sel main p ord = taken ++ left;
  po_wf : exists ca', wf p' (without taken ord) ca';
  po_rest : rest p' = rest p;
  po_other j : j ∉ taken -> at_idx (vec_data p') j = at_idx (vec_data p) j;
  po_enqueues : WriterProofs.enqueues (Connection.msg_writer c) (contents_at p taken) m';
  po_writer : exists idxs wca', wwf m' (word ++ idxs) (wwr ++ idxs) wca'
    /\ (more = true -> forall i js, left = i :: js -> exists s, at_idx (vec_data p) i = Some s
         /\ (message_ptr (msgbundle s) = None
             \/ WriterProofs.refused (wwr ++ idxs) (word ++ idxs) (msgbundle s) = true));
  po_more : more = false -> taken = []
}.

Lemma polled_none (main more : bool) p ord ca c word wwr wca :
  wf p ord ca -> wwf (Connection.msg_writer c) word wwr wca ->
  (more = true -> forall i js, sel main p ord = i :: js -> exists s, at_idx (vec_data p) i = Some s
    /\ (message_ptr (msgbundle s) = None \/ WriterProofs.refused wwr word (msgbundle s) = true)) ->
  polled main more p ord c word wwr p (Connection.msg_writer c) [] (sel main p ord).
Proof using Type.
  intros Hw Hww Hstop. constructor; try done.
  - exists ca. by rewrite without_nil.
  - constructor.
  - exists [], wca. by rewrite !app_nil_r.
Qed.

Lemma poll_loop_spec (main : bool) fuel p ord ca c (o : UniqueId) word wwr wca (more : bool) :
  wf p ord ca -> none_canceled p ord -> wwf (Connection.msg_writer c) word wwr wca ->
  Z.of_nat (length (MessageWriter.message_vec (Connection.msg_writer c))) + Z.of_nat (length ord) + 1 < nil_idx ->
  (S (length ord) < fuel)%nat ->
  exists p' m' taken left, poll_loop (sel_list main) fuel p c o more = Done (p', Connection.with_writer c m')
    /\ polled main more p ord c word wwr p' m' taken left.
Proof using Type.
  revert p ord ca c word wwr wca more. induction fuel as [|fuel IH]; intros p ord ca c word wwr wca more Hw Hnc Hww Hg Hfuel; [lia|].
  assert (Hwc : Connection.with_writer c (Connection.msg_writer c) = c) by (by destruct c).
  cbn [poll_loop]. rewrite (sel_size main p ord ca Hw). destruct more; cycle 1.
  { rewrite andb_false_r. exists p, (Connection.msg_writer c), [], (sel main p ord). rewrite Hwc. split; [done|].
    eapply polled_none; done. }
  rewrite andb_true_r. destruct (sel main p ord) as [|i js] eqn:Hsel; cbn [length]; decide_Z; cbn [negb].
  { exists p, (Connection.msg_writer c), [], (sel main p ord). rewrite Hwc. split; [done|].
    eapply polled_none; [done|done|]. intros _ i js. by rewrite Hsel. }
  rewrite (sel_front main p ord ca Hw), Hsel. cbn [hd].
  assert (Hi : i ∈ ord) by (apply (sel_in main p); rewrite Hsel; left).
  destruct (in_vec_data p i (wf_in_vec _ _ _ _ Hw Hi)) as [s Hs].
  pose proof (wf_nodup _ _ _ Hw) as Hnd.
  destruct (sel_remove main p p ord i js s Hnd Hsel) as (xs & ys & Hord & _).
  rewrite Hord in Hw.
  destruct (push_step p xs i ys ca s c o word wwr wca Hw Hs (Hnc i s Hi Hs) Hww ltac:(lia))
    as [[Hstop ->]|(Hptr & p1 & m1 & r & x & ca1 & idx & wca1 & -> & Hw1 & Hs1 & Henq & Hww1 & Hlen1)]; cbn [res_bind].
  - destruct fuel as [|fuel]; [cbn in *; lia|]. cbn [poll_loop]. rewrite andb_false_r.
    exists p, (Connection.msg_writer c), [], (sel main p ord). rewrite Hwc. split; [done|].
    rewrite <- Hord in Hw. eapply polled_none; [done|done|]. intros _ i' js'. rewrite Hsel. intros [= <- <-]. eauto.
  - assert (Hsel1 : sel main p1 (xs ++ ys) = js).
    { destruct (sel_remove main p p1 ord i js x Hnd Hsel) as (xs' & ys' & Hord' & H).
      assert (xs' = xs /\ ys' = ys) as [-> ->]; [|by apply H].
      rewrite Hord in Hord', Hnd. by apply (app_cons_inv xs xs' ys ys' i). }
    assert (Hin1 : forall j, j ∈ xs ++ ys -> j <> i /\ j ∈ ord).
    { intros j Hj. rewrite Hord. rewrite Hord in Hnd. destruct (nodup_remove xs ys i Hnd) as [Hni _].
      split; [by intros ->|set_solver]. }
    assert (Hlen : length ord = S (length (xs ++ ys))) by (rewrite Hord, !length_app; cbn; lia).
    destruct (IH p1 (xs ++ ys) ca1 (Connection.with_writer c m1) (word ++ [idx]) (wwr ++ [idx]) wca1 true)
      as (p' & m' & taken & left & -> & [Psplit [ca' Pwf] Prest Pother Penq (idxs & wca' & Pww & Pstop) _]);
      [done| |done|cbn; lia|lia|].
    { intros j sj Hj Hsj. destruct (Hin1 j Hj) as [Hne Hj']. rewrite (ss_other _ _ _ _ Hs1 j Hne) in Hsj. by eapply Hnc. }
    rewrite Hsel1 in Psplit. exists p', m', (i :: taken), left. split; [done|].
    assert (Htk : forall j, j ∈ js -> j <> i).
    { intros j Hj. rewrite <- Hsel1 in Hj. by apply sel_in, Hin1 in Hj as [? _]. }
    constructor; [by rewrite Hsel, Psplit| | | | | |done].
    + exists ca'. rewrite Hord in Hnd |- *. by rewrite without_remove.
    + rewrite Prest. apply Hs1.
    + intros j Hj. rewrite Pother by set_solver. apply (ss_other _ _ _ _ Hs1). set_solver.
    + cbn [contents_at flat_map]. fold (contents_at p taken). unfold content_at. rewrite Hs. cbn [app].
      rewrite <- (contents_at_ext p p1 taken).
      * eapply WriterProofs.enqueues_cons; [done|by eapply Hnc|lia|exact Henq|exact Penq].
      * intros j Hj. apply (ss_other _ _ _ _ Hs1), Htk. rewrite Psplit. set_solver.
    + exists (idx :: idxs), wca'. rewrite <- !app_assoc in Pww. split; [exact Pww|]. intros _ j js' Hj.
      rewrite <- !app_assoc in Pstop. destruct (Pstop eq_refl j js' Hj) as (sj & Hsj & Hr). exists sj. split; [|done].
      rewrite <- Hsj. symmetry. apply (ss_other _ _ _ _ Hs1), Htk. rewrite Psplit, Hj. set_solver.
Qed.

(** *** The messages sent to the connection itself *)

(** The place in the pool of a message sent to this connection, if it is still there *)
Definition live p (id : MessageId) : option Z :=
  match at_idx (vec_data p) (index id) with
  | Some s => if unique_ id =? unique s then Some (index id) else None
  | None => None
  end.

(** The messages sent to a connection that has not taken them: those still there are not canceled
    and in no list of the pool, each is there once. *)
Fixpoint own p ord ca (ids : list MessageId) : Prop :=
  match ids with
  | [] => True
  | id :: ids => 0 <= index id
      /\ (forall s, at_idx (vec_data p) (index id) = Some s -> unique_ id = unique s ->
            is_Some (message_ptr (msgbundle s)) /\ MessageFlags.is_canceled (message_flags (msgbundle s)) = false
            /\ (index id ∉ ord) /\ (index id ∉ ca) /\ index id ∉ index <$> ids)
      /\ own p ord ca ids
  end.

Lemma own_ext p p' ord ca ca' i ids :
  (forall j, j <> i -> at_idx (vec_data p') j = at_idx (vec_data p) j) -> (forall j, j ∈ ca' -> j ∈ ca \/ j = i) ->
  i ∉ index <$> ids -> own p ord ca ids -> own p' ord ca' ids.
Proof using Type.
  clear SE MS WC. intros Hj Hca. induction ids as [|id ids IH]; intros Hi; [done|]. cbn in Hi. intros (H0 & H1 & H2).
  split; [done|]. split; [|apply IH; [set_solver|done]]. intros s. rewrite Hj by set_solver. intros Hs Hu.
  destruct (H1 s Hs Hu) as (? & ? & ? & Hc & ?). split_and!; try done. intros [?|?]%Hca; set_solver.
Qed.

Lemma live_ext p p' (ids : list MessageId) : (forall id, id ∈ ids -> at_idx (vec_data p') (index id) = at_idx (vec_data p) (index id)) ->
  omap (live p') ids = omap (live p) ids.
Proof using Type.
  clear SE MS WC. induction ids as [|id ids IH]; intros H; [done|]. cbn. rewrite IH by (intros id' Hid; apply H; by right). unfold live at 1 3. by rewrite (H id) by left.
Qed.

Lemma live_in p (ids : list MessageId) j : j ∈ omap (live p) ids -> exists id, id ∈ ids /\ index id = j.
Proof using Type.
  clear SE MS WC. intros (id & Hid & E)%list_elem_of_omap. exists id. split; [done|]. unfold live in E.
  destruct (at_idx _ _); [|done]. destruct (_ =? _); [|done]. by injection E.
Qed.

Lemma own_live p ord ca (ids : list MessageId) j : own p ord ca ids -> j ∈ omap (live p) ids -> j ∉ ord.
Proof using Type.
  clear SE MS WC. induction ids as [|id ids IH]; [by intros _ ?%elem_of_nil|]. intros (_ & H1 & H2). cbn. unfold live at 1.
  destruct (at_idx (vec_data p) (index id)) as [s|]; [|by apply IH]. destruct (Z.eqb_spec (unique_ id) (unique s)) as [Hu|]; [|by apply IH].
  intros [->|Hj]%elem_of_cons; [by apply (H1 s)|by apply IH].
Qed.

Lemma enqueues_app (m1 m2 m3 : writer) l1 l2 :
  WriterProofs.enqueues m1 l1 m2 -> WriterProofs.enqueues m2 l2 m3 -> WriterProofs.enqueues m1 (l1 ++ l2) m3.
Proof using Type. clear SE. intros H H2. induction H; [done|]. cbn [app]. by eapply WriterProofs.enqueues_cons; eauto. Qed.

Lemma push_id_step p ord ca (id : MessageId) s c (o : UniqueId) word wwr wca :
  wf p ord ca -> at_idx (vec_data p) (index id) = Some s -> unique_ id = unique s -> is_Some (message_ptr (msgbundle s)) ->
  MessageFlags.is_canceled (message_flags (msgbundle s)) = false -> (index id ∉ ord) -> (index id ∉ ca) ->
  wwf (Connection.msg_writer c) word wwr wca ->
  Z.of_nat (length (MessageWriter.message_vec (Connection.msg_writer c))) + 1 < nil_idx ->
  (WriterProofs.refused wwr word (msgbundle s) = true /\ doTryPushMessageToConnection_id p c o id = Done (p, c, false))
  \/ exists p' m' r x ca' idx wca',
      doTryPushMessageToConnection_id p c o id = Done (p', Connection.with_writer c m', true)
      /\ wf p' ord ca' /\ stub_set p p' (index id) x /\ (forall j, j ∈ ca' -> j ∈ ca \/ j = index id)
      /\ MessageWriter.enqueue (Connection.msg_writer c) (msgbundle s) (pool_id_of (index id) s) = Done (m', Some r)
      /\ wwf m' (word ++ [idx]) (wwr ++ [idx]) wca'
      /\ (length (MessageWriter.message_vec m') <= S (length (MessageWriter.message_vec (Connection.msg_writer c))))%nat.
Proof using Type.
  intros Hw Hs Hu Hb Hcan Hno Hnc Hww Hg. unfold doTryPushMessageToConnection_id. rewrite stub_at_eq, Hs. cbn [of_option res_bind].
  unfold Connection.tryPushMessage. assert (Hwc : Connection.with_writer c (Connection.msg_writer c) = c) by (by destruct c).
  destruct (WriterProofs.refused wwr word (msgbundle s)) eqn:Hrf.
  { left. split; [done|]. destruct (isCancelable s); rewrite (WriterProofs.enqueue_refuses _ _ _ _ _ _ Hww Hrf); cbn [res_bind fst snd]; by rewrite Hwc. }
  right. assert (id = mkMessageId (index id) (unique s)) as Eid by (rewrite <- Hu; by destruct id). unfold pool_id_of.
  destruct (WriterProofs.enqueue_accepts _ _ _ _ _ (if isCancelable s then mkMessageId (index id) (unique s) else MessageId_clear)
    Hww Hb Hcan Hg Hrf) as (m' & idx & s0 & wca' & E & Hww' & _ & Hs0 & Hj0 & _).
  pose proof (enqueue_grows _ _ _ _ Hs0 Hj0) as Hlen. pose proof E as Henq.
  set (b' := MessageBundle_moved _) in E. set (mid := mkMessageId idx _) in E.
  pose proof (wf_lists _ _ _ Hw) as Hl. pose proof (data_in_vec _ _ _ Hs) as Hv.
  destruct (isCancelable s); [rewrite <- Eid in E|]; rewrite E; cbn [res_bind fst snd].
  - destruct (upd_stub_spec p _ _ _ (index id) (set_objid o (set_msgid mid (set_bundle b' s))) Hl Hv) as (p1 & -> & Hl1 & Hs1 & _). cbn [res_bind].
    exists p1, m', (mid, b'). eexists _, ca, idx, wca'. split; [done|]. split_and!; [|exact Hs1|by left|done|done|done].
    eapply wf_of_lists; [done|exact Hs1|by rewrite (asyncs_set _ _ _ _ _ Hs1)|]. intros j Hj. left. split; [done|]. by intros ->.
  - destruct (upd_stub_spec p _ _ _ (index id) (set_msgid mid (set_bundle b' s)) Hl Hv) as (p1 & -> & Hl1 & Hs1 & _). cbn [res_bind].
    destruct (cache_clear_spec p1 ord ca _ (index id) (set_msgid mid (set_bundle b' s)) Hl1 (set_in _ _ _ _ Hs1) Hno Hnc) as (p4 & p5 & -> & E5 & Hl5 & Hs5).
    cbn [res_bind]. rewrite E5. cbn [res_bind]. pose proof (stub_set_trans _ _ _ _ _ _ Hs1 Hs5) as Hs5'.
    exists p5, m', (mid, b'). eexists _, (ca ++ [index id]), idx, wca'. split; [done|]. split_and!; [|exact Hs5'| |done|done|done].
    + eapply wf_of_lists; [done|exact Hs5'|by rewrite (asyncs_set _ _ _ _ _ Hs5')|by apply cached_ca].
    + intros j [?|?%list_elem_of_singleton]%elem_of_app; auto.
Qed.

(** What the loop over these messages does: it goes over those that are [given] to the writer or
    no longer there, up to the first one that the writer refuses. *)
Record pended p ord c (word wwr : list Z) (ids : list MessageId) (more : bool) p' (m' : writer) (given later : list MessageId) (more' : bool) : Prop := {
  pe_split : ids = given ++ later;
  pe_wf : exists ca', wf p' ord ca';
  pe_rest : rest p' = rest p;
  pe_other j : (j ∉ omap (live p) given) -> at_idx (vec_data p') j = at_idx (vec_data p) j;
  pe_length : length (msgvec p') = length (msgvec p);
  pe_enqueues : WriterProofs.enqueues (Connection.msg_writer c) (contents_at p (omap (live p) given)) m';
  pe_grows : (length (MessageWriter.message_vec m') <= length (MessageWriter.message_vec (Connection.msg_writer c)) + length given)%nat;
  pe_writer : exists idxs wca', wwf m' (word ++ idxs) (wwr ++ idxs) wca'
    /\ match later with
       | [] => more' = true \/ more' = more /\ idxs = []
       | id :: _ => more' = false /\ exists s, at_idx (vec_data p) (index id) = Some s /\ unique_ id = unique s
           /\ WriterProofs.refused (wwr ++ idxs) (word ++ idxs) (msgbundle s) = true
       end
}.

(** A message that is no longer there is passed over. *)
Lemma pended_skip p ord c word wwr id ids more p' m' given later more' : live p id = None ->
  pended p ord c word wwr ids more p' m' given later more' -> pended p ord c word wwr (id :: ids) more p' m' (id :: given) later more'.
Proof using Type.
  clear SE. intros Hl [-> P2 P3 P4 P5 P6 P7 P8]. constructor; try done.
  - intros j. cbn. rewrite Hl. apply P4.
  - cbn. by rewrite Hl.
  - cbn. lia.
Qed.

Lemma poll_pending_spec ord (o : UniqueId) ids : forall p ca c word wwr wca n more,
  wf p ord ca -> own p ord ca ids -> wwf (Connection.msg_writer c) word wwr wca ->
  Z.of_nat (length (MessageWriter.message_vec (Connection.msg_writer c))) + Z.of_nat (length ids) < nil_idx ->
  exists p' m' given later more', poll_pending p c o ids n more = Done (p', Connection.with_writer c m', (n + length given)%nat, more')
    /\ pended p ord c word wwr ids more p' m' given later more'.
Proof using Type.
  induction ids as [|id ids IH]; intros p ca c word wwr wca n more Hw Ho Hww Hg;
    assert (Hwc : Connection.with_writer c (Connection.msg_writer c) = c) by (by destruct c); cbn [poll_pending].
  { exists p, (Connection.msg_writer c), [], [], more. rewrite Hwc, Nat.add_0_r. split; [done|]. constructor; try done; [by exists ca|constructor|lia|].
    exists [], wca. rewrite !app_nil_r. auto. }
  destruct Ho as (H0 & H1 & H2). cbn [length] in Hg.
  assert (Hskip : live p id = None -> exists p' m' given later more',
    poll_pending p c o ids (S n) more = Done (p', Connection.with_writer c m', (n + length given)%nat, more')
    /\ pended p ord c word wwr (id :: ids) more p' m' given later more').
  { intros Hl. destruct (IH p ca c word wwr wca (S n) more Hw H2 Hww ltac:(lia)) as (p' & m' & given & later & more' & E & Hp).
    exists p', m', (id :: given), later, more'. split; [rewrite E; cbn [length]; do 3 f_equal; lia|]. by apply pended_skip. }
  destruct (at_idx (vec_data p) (index id)) as [s|] eqn:Hs.
  2:{ destruct (Z.ltb_spec (index id) (Z.of_nat (length (msgvec p)))) as [Hlt|]; cbn [negb]; [|apply Hskip; unfold live; by rewrite Hs].
      destruct (in_vec_data p (index id)) as [x Hx]; [done|congruence]. }
  pose proof (data_in_vec _ _ _ Hs) as Hv. rewrite (proj2 (Z.ltb_lt _ _)) by apply Hv. cbn [negb]. rewrite stub_at_eq, Hs. cbn [of_option res_bind].
  destruct (Z.eqb_spec (unique_ id) (unique s)) as [Hu|Hu]; [|apply Hskip; unfold live; rewrite Hs; by rewrite (proj2 (Z.eqb_neq _ _))].
  destruct (H1 s eq_refl Hu) as (Hb & Hcan & Hno & Hnc & Hni).
  destruct (push_id_step p ord ca id s c o word wwr wca Hw Hs Hu Hb Hcan Hno Hnc Hww ltac:(lia))
    as [[Hrf ->]|(p1 & m1 & r & x & ca1 & idx & wca1 & -> & Hw1 & Hs1 & Hca1 & Henq & Hww1 & Hlen1)]; cbn [res_bind].
  { exists p, (Connection.msg_writer c), [], (id :: ids), false. rewrite Hwc, Nat.add_0_r. split; [done|]. constructor; try done; [by exists ca|constructor|lia|].
    exists [], wca. rewrite !app_nil_r. split; [done|]. split; [done|]. by exists s. }
  destruct (IH p1 ca1 (Connection.with_writer c m1) (word ++ [idx]) (wwr ++ [idx]) wca1 (S n) true Hw1) as (p' & m' & given & later & more' & E & Hp);
    [by apply (own_ext p p1 ord ca ca1 (index id) ids (ss_other _ _ _ _ Hs1))|done|cbn; lia|].
  exists p', m', (id :: given), later, more'. split; [rewrite E; cbn [length]; do 3 f_equal; lia|].
  assert (Hids : forall id', id' ∈ ids -> index id' <> index id) by (intros id' Hid' E'; apply Hni; rewrite <- E'; by apply list_elem_of_fmap_2).
  destruct Hp as [-> P2 P3 P4 P5 P6 P7 (idxs & wca' & Pww & Pst)].
  assert (Hsame : forall id', id' ∈ given ++ later -> at_idx (vec_data p1) (index id') = at_idx (vec_data p) (index id'))
    by (intros id' Hid'; by apply (ss_other _ _ _ _ Hs1), Hids).
  constructor; try done.
  - rewrite P3. apply Hs1.
  - intros j Hj. rewrite P4, (ss_other _ _ _ _ Hs1); [done| |]; [intros ->; apply Hj|intros Hin; apply Hj]; cbn; unfold live at 1; rewrite Hs, Hu, Z.eqb_refl; [left|right].
    by rewrite (live_ext p p1) in Hin by (intros id' Hid'; apply Hsame, elem_of_app; by left).
  - rewrite P5. by eapply stub_set_length.
  - cbn. unfold live at 1. rewrite Hs, Hu, Z.eqb_refl. cbn [contents_at flat_map]. unfold content_at at 1. rewrite Hs. cbn [app].
    fold (contents_at p (omap (live p) given)). eapply WriterProofs.enqueues_cons; [done|done|lia|exact Henq|].
    rewrite (live_ext p p1) in P6 by (intros id' Hid'; apply Hsame, elem_of_app; by left).
    rewrite (contents_at_ext p p1) in P6; [exact P6|]. intros j (id' & Hid' & <-)%live_in. apply Hsame, elem_of_app. by left.
  - cbn in P7 |- *. lia.
  - exists (idx :: idxs), wca'. rewrite <- !app_assoc in Pww, Pst. split; [done|]. destruct later as [|id' later]; [left; naive_solver|].
    rewrite <- (Hsame id') by set_solver. done.
Qed.

(** The main connection of the pool, once a connection has polled: a stopping main connection
    is replaced. *)
Definition polls_as_main p (o : UniqueId) : bool :=
  isMainConnectionStopping p || UniqueId_eqb o (main_connection_id p).

Lemma switch_main_spec w p (o : UniqueId) ord ca :
  wf p ord ca ->
  exists w1 p1,
    (if isMainConnectionStopping p && negb (UniqueId_eqb (main_connection_id p) o) then
       let '(w, _) := notify w (main_connection_id p) Connection.eventStopping in
       (w, setMainConnectionActive (resetMainConnectionStopping (with_main p o)))
     else (w, p)) = (w1, p1)
    /\ same_msgs p p1 /\ isFastClosing p1 = isFastClosing p /\ isClosing p1 = isClosing p
    /\ UniqueId_eqb o (main_connection_id p1) = polls_as_main p o.
Proof using Type.
  intros Hw. unfold polls_as_main. destruct (isMainConnectionStopping p) eqn:Hst; cbn [andb orb].
  - destruct (UniqueId_eqb_spec (main_connection_id p) o) as [E|E]; cbn [negb].
    + exists w, p. split_and!; try done. rewrite E. by destruct (UniqueId_eqb_spec o o).
    + destruct (notify w _ _) as [w1 ?]. eexists _, _. split; [done|]. split; [by constructor|].
      rewrite !flag_fast_closing, !flag_closing. unfold setMainConnectionActive, resetMainConnectionStopping.
      split_and!; [by pool_flags|by pool_flags|]. cbn. by destruct (UniqueId_eqb_spec o o).
  - by exists w, p.
Qed.

Lemma same_msgs_data p p' : same_msgs p p' -> vec_data p' = vec_data p.
Proof using Type. clear SE MS WC. intros []. unfold vec_data. by rewrite sm_vec0. Qed.

Lemma no_message_ext p p' ord :
  (forall j, j ∈ ord -> at_idx (vec_data p') j = at_idx (vec_data p) j) -> no_message p' ord = no_message p ord.
Proof using Type. clear SE MS WC. intros H. destruct ord as [|i ord]; [done|]. cbn. by rewrite H by left. Qed.

Lemma asyncs_ext p p' ord :
  (forall j, j ∈ ord -> at_idx (vec_data p') j = at_idx (vec_data p) j) -> asyncs p' ord = asyncs p ord.
Proof using Type. clear SE MS WC. intros H. apply filter_ext_in. intros j Hj. unfold async_at. by rewrite H. Qed.

Lemma queue_of_ext p p' ord :
  (forall j, j ∈ ord -> at_idx (vec_data p') j = at_idx (vec_data p) j) -> queue_of p' ord = queue_of p ord.
Proof using Type.
  clear SE MS WC. unfold queue_of. induction ord as [|i ord IH]; intros H; [done|]. cbn [omap list_omap].
  rewrite (H i) by left. rewrite IH; [done|]. intros j Hj. apply H. by right.
Qed.

(** Freeing the stub of the message the connection has completed. *)
Lemma complete_spec p ord ca (id : MessageId) :
  wf p ord ca -> 0 <= index id ->
  (forall s, at_idx (vec_data p) (index id) = Some s -> unique s = unique_ id -> (index id ∉ ord) /\ index id ∉ ca) ->
  exists p1 ca1, (if MessageId_isValid id then cacheMessageId p id else Done p) = Done p1 /\ wf p1 ord ca1
    /\ rest p1 = rest p /\ (forall j, j ∈ ord -> at_idx (vec_data p1) j = at_idx (vec_data p) j)
    /\ (forall j, j <> index id -> at_idx (vec_data p1) j = at_idx (vec_data p) j)
    /\ forall j, j ∈ ca1 -> j ∈ ca \/ j = index id.
Proof using Type.
  clear SE MS WC. intros Hw Hi Hdet. destruct (MessageId_isValid id); [|exists p, ca; naive_solver].
  destruct (cacheMessageId_spec p ord ca id Hw Hi Hdet) as (p1 & ca1 & E & Hw1 & Hr1 & Hcase).
  exists p1, ca1. destruct (at_idx (vec_data p) (index id)) as [s|] eqn:Hs; [|destruct Hcase as [-> ->]; naive_solver].
  destruct (Z.eqb_spec (unique s) (unique_ id)) as [Hu|]; [|destruct Hcase as [-> ->]; naive_solver].
  destruct Hcase as [-> Hss]. split_and!; try done.
  - intros j Hj. apply (ss_other _ _ _ _ Hss). intros ->. by destruct (Hdet s eq_refl Hu).
  - apply (ss_other _ _ _ _ Hss).
  - intros j [?|?%list_elem_of_singleton]%elem_of_app; auto.
Qed.

(** A poll, in all cases. *)
Lemma poll_spec w d i p c (o : UniqueId) (id : MessageId) ord ca word wwr wca :
  pool_is d i p -> Connection.pool_id c = mkUniqueId i (pool_unique p) ->
  wf p ord ca -> none_canceled p ord -> own p ord ca (Connection.pending_message_vec c) ->
  wwf (Connection.msg_writer c) word wwr wca ->
  Z.of_nat (length (MessageWriter.message_vec (Connection.msg_writer c)))
    + Z.of_nat (length (Connection.pending_message_vec c)) + Z.of_nat (length ord) + 1 < nil_idx ->
  0 <= index id -> (index id ∉ index <$> Connection.pending_message_vec c) ->
  (forall s, at_idx (vec_data p) (index id) = Some s -> unique s = unique_ id -> (index id ∉ ord) /\ index id ∉ ca) ->
  exists w' p' c' given later taken left ca' idxs wca',
    let stop := isFastClosing p || (bool_decide (word = []) && isClosing p && no_message p ord) in
    let refuses (j : Z) (null : bool) := exists s, at_idx (vec_data p) j = Some s
      /\ (null = true /\ message_ptr (msgbundle s) = None \/ WriterProofs.refused (wwr ++ idxs) (word ++ idxs) (msgbundle s) = true) in
    pollPoolForUpdates w d c o id
    = Done (w', set_pool d i p', c', if stop then Some error_service_pool_stopping else None)
    /\ Connection.pending_message_vec c = given ++ later /\ Connection.pending_message_vec c' = later
    /\ sel (polls_as_main p o) p ord = taken ++ left
    /\ (stop = true -> given = [] /\ taken = [])
    /\ wf p' (without taken ord) ca' /\ queue_of p' (without taken ord) = queue_of p (without taken ord)
    /\ WriterProofs.enqueues (Connection.msg_writer c) (contents_at p (omap (live p) given ++ taken)) (Connection.msg_writer c')
    /\ wwf (Connection.msg_writer c') (word ++ idxs) (wwr ++ idxs) wca'
    /\ (stop = false -> match later with
        | [] => forall j js, left = j :: js -> refuses j true
        | m :: _ => taken = [] /\ live p m = Some (index m) /\ refuses (index m) false
        end)
    /\ name p' = name p.
Proof using Type.
  intros Hp Hpid Hw Hnc Hown Hww Hg Hid Hidp Hdet. cbn zeta. unfold pollPoolForUpdates. rewrite Hpid. cbn [uid_index uid_unique].
  rewrite (pool_at_is _ _ _ Hp). cbn [res_bind]. rewrite Z.eqb_refl. cbn [negb].
  destruct (switch_main_spec w p o ord ca Hw) as (w1 & p1 & -> & Hs1 & Hfc1 & Hcl1 & Hmain).
  pose proof (same_msgs_wf _ _ _ _ Hs1 Hw) as Hw1. pose proof (same_msgs_data _ _ Hs1) as Hd1.
  destruct (complete_spec p1 ord ca id Hw1 Hid) as (p2 & ca2 & -> & Hw2 & Hr2 & Hj2 & Hjo2 & Hca2).
  { intros s. rewrite Hd1. apply Hdet. }
  cbn [res_bind].
  assert (Hj : forall j, j ∈ ord -> at_idx (vec_data p2) j = at_idx (vec_data p) j).
  { intros j Hj. by rewrite Hj2, Hd1. }
  assert (Hn2 : name p2 = name p) by (destruct (rest_name _ _ Hr2) as [-> _]; apply Hs1).
  assert (pool_flags p2 = pool_flags p1 /\ main_connection_id p2 = main_connection_id p1) as [Hfl2 Hm2].
  { unfold rest, with_msgs in Hr2. by injection Hr2. }
  assert (isFastClosing p2 = isFastClosing p) as ->.
  { rewrite <- Hfc1, !flag_fast_closing. by rewrite Hfl2. }
  assert (Hstop : forall (refuses : list Z -> Z -> bool -> Prop), exists w' p'' c' given later taken left ca' idxs wca',
    Done (w1, set_pool d i p2, c, Some error_service_pool_stopping) = Done (w', set_pool d i p'', c', Some error_service_pool_stopping)
    /\ Connection.pending_message_vec c = given ++ later /\ Connection.pending_message_vec c' = later
    /\ sel (polls_as_main p o) p ord = taken ++ left /\ (true = true -> given = [] /\ taken = [])
    /\ wf p'' (without taken ord) ca' /\ queue_of p'' (without taken ord) = queue_of p (without taken ord)
    /\ WriterProofs.enqueues (Connection.msg_writer c) (contents_at p (omap (live p) given ++ taken)) (Connection.msg_writer c')
    /\ wwf (Connection.msg_writer c') (word ++ idxs) (wwr ++ idxs) wca'
    /\ (true = false -> match later with
        | [] => forall j js, left = j :: js -> refuses idxs j true
        | m :: _ => taken = [] /\ live p m = Some (index m) /\ refuses idxs (index m) false
        end)
    /\ name p'' = name p).
  { intros refuses. exists w1, p2, c, [], (Connection.pending_message_vec c), [], (sel (polls_as_main p o) p ord), ca2, [], wca.
    rewrite without_nil, !app_nil_r. split_and!; try done; [by apply queue_of_ext|constructor]. }
  destruct (isFastClosing p); cbn [orb].
  { rewrite (upd_pool_is _ _ _ _ Hp). cbn [res_bind]. apply (Hstop (fun idxs j (null : bool) => exists s, at_idx (vec_data p) j = Some s
      /\ (null = true /\ message_ptr (msgbundle s) = None \/ WriterProofs.refused (wwr ++ idxs) (word ++ idxs) (msgbundle s) = true))). }
  assert (Hsc : (if Connection.isWriterEmpty c then shouldClose p2 else Done false)
    = Done (bool_decide (word = []) && isClosing p && no_message p ord)).
  { unfold Connection.isWriterEmpty, MessageWriter.empty, InnerList.empty.
    rewrite (repr_size _ _ _ _ (WriterProofs.r_ord _ _ _ _ (WriterProofs.wf_reps _ _ _ _ Hww))).
    unfold shouldClose. rewrite flag_closing, Hfl2, <- flag_closing, Hcl1, (hasNoMessage_spec _ _ _ Hw2).
    rewrite (no_message_ext _ _ _ Hj). destruct word; cbn [length]; decide_Z;
      [rewrite bool_decide_eq_true_2 by done|rewrite bool_decide_eq_false_2 by done; done]. by destruct (isClosing p). }
  rewrite Hsc. cbn [res_bind]. destruct (bool_decide (word = []) && isClosing p && no_message p ord).
  { rewrite (upd_pool_is _ _ _ _ Hp). cbn [res_bind]. apply (Hstop (fun idxs j (null : bool) => exists s, at_idx (vec_data p) j = Some s
      /\ (null = true /\ message_ptr (msgbundle s) = None \/ WriterProofs.refused (wwr ++ idxs) (word ++ idxs) (msgbundle s) = true))). }
  assert (Hpj : forall m, m ∈ Connection.pending_message_vec c -> at_idx (vec_data p2) (index m) = at_idx (vec_data p) (index m)).
  { intros m Hm. rewrite Hjo2, Hd1; [done|]. intros E. apply Hidp. rewrite <- E. by apply list_elem_of_fmap_2. }
  assert (Hown2 : own p2 ord ca2 (Connection.pending_message_vec c)).
  { apply (own_ext p p2 ord ca ca2 (index id)); [|done|done|done]. intros j Hne. by rewrite Hjo2, Hd1. }
  destruct (poll_pending_spec ord o (Connection.pending_message_vec c) p2 ca2 c word wwr wca 0 (negb (Connection.isFull c)) Hw2 Hown2 Hww ltac:(lia))
    as (p3 & m3 & given & later & more & E3 & [Qsplit [ca3 Hw3] Qrest Qother Qlen Qenq Qgrow (idx3 & wca3 & Hww3 & Qst)]).
  rewrite E3. cbn [res_bind Nat.add]. rewrite Hm2, Hmain. set (c3 := Connection.pendingMessageVectorEraseFirst _ _).
  assert (Hc3 : Connection.msg_writer c3 = m3) by done.
  assert (Hc3p : Connection.pending_message_vec c3 = later).
  { unfold c3, Connection.pendingMessageVectorEraseFirst. cbn. rewrite Qsplit. by rewrite drop_app_length. }
  assert (Hord3 : forall j, j ∈ ord -> at_idx (vec_data p3) j = at_idx (vec_data p2) j).
  { intros j Hjo. apply Qother. intros Hjl. apply (own_live p2 ord ca2 (Connection.pending_message_vec c) j); [done| |done].
    rewrite Qsplit, omap_app. apply elem_of_app. by left. }
  assert (Hnc3 : none_canceled p3 ord).
  { intros j s Hj' Hs. rewrite (Hord3 j Hj'), (Hj j Hj') in Hs. by eapply Hnc. }
  change (if polls_as_main p o then msgorder_inner_list else msgasync_inner_list) with (@sel_list (polls_as_main p o)).
  destruct (poll_loop_spec (polls_as_main p o) (S (S (length (msgvec p3)))) p3 ord ca3 c3 o (word ++ idx3) (wwr ++ idx3) wca3 more)
    as (p4 & m4 & taken & left & -> & [Psplit [ca4 Pwf] Prest Pother Penq (idxs & wca4 & Pww & Pstop) Pmore]); [done|done|done| | |].
  { rewrite Hc3. pose proof (f_equal length Qsplit) as El. rewrite length_app in El. lia. }
  { pose proof (nodup_length (msgvec p3) ord (wf_nodup _ _ _ Hw3) (fun j => wf_in_vec _ _ _ j Hw3)). lia. }
  cbn [res_bind]. set (c4 := Connection.with_writer c3 m4).
  set (pc := if negb (Connection.isInPoolWaitingQueue c4) then _ else _).
  assert (exists p5 c5, pc = (p5, c5) /\ same_msgs p4 p5 /\ Connection.msg_writer c5 = m4 /\ Connection.pending_message_vec c5 = later) as (p5 & c5 & -> & Hs5 & Hc5 & Hcp5).
  { unfold pc. destruct (negb (Connection.isInPoolWaitingQueue c4)); eexists _, _; (split; [reflexivity|]); by repeat constructor. }
  rewrite (upd_pool_is _ _ _ _ Hp). cbn [res_bind].
  assert (Hsub : forall j, j ∈ taken -> j ∈ ord).
  { intros j Hjt. apply (sel_in (polls_as_main p o) p3). rewrite Psplit. set_solver. }
  assert (Hall : forall j, j ∈ ord -> at_idx (vec_data p3) j = at_idx (vec_data p) j) by (intros j Hjo; by rewrite Hord3, Hj).
  assert (Hgl : omap (live p2) given = omap (live p) given) by (apply live_ext; intros m Hm; apply Hpj; rewrite Qsplit; apply elem_of_app; by left).
  exists w1, p5, c5, given, later, taken, left, ca4, (idx3 ++ idxs), wca4. rewrite Hc5, !app_assoc. split; [done|]. split; [done|]. split; [done|]. split.
  { rewrite <- Psplit. unfold sel. destruct (polls_as_main p o); [done|]. symmetry. by apply asyncs_ext. }
  split; [done|]. split; [by eapply same_msgs_wf|]. split.
  { rewrite (same_msgs_queue _ _ _ Hs5). apply queue_of_ext. intros j Hjw. unfold without in Hjw.
    apply list_elem_of_filter in Hjw as [Hjt Hjo]. by rewrite Pother, Hall. }
  split.
  { unfold contents_at. rewrite flat_map_app. fold (contents_at p (omap (live p) given)) (contents_at p taken). eapply enqueues_app.
    - rewrite Hgl, (contents_at_ext p p2) in Qenq; [exact Qenq|]. intros j (m & Hm & <-)%live_in. apply Hpj. rewrite Qsplit. apply elem_of_app. by left.
    - rewrite <- (contents_at_ext p p3) by (intros j Hjt; by apply Hall, Hsub). exact Penq. }
  split; [done|]. split; [|by rewrite (sm_name _ _ Hs5), (proj1 (rest_name _ _ Prest)), (proj1 (rest_name _ _ Qrest))].
  intros _. destruct later as [|m later].
  - intros j js Hjl. assert (Hjo : j ∈ ord) by (apply (sel_in (polls_as_main p o) p3); rewrite Psplit, Hjl; set_solver).
    destruct more; [destruct (Pstop eq_refl j js Hjl) as (s & Hs & Hr); exists s; split; [by rewrite <- Hall|naive_solver]|].
    destruct Qst as [?|[Hfull ->]]; [done|]. destruct (in_vec_data p j (wf_in_vec _ _ _ _ Hw Hjo)) as [s Hs]. exists s. split; [done|]. right.
    symmetry in Hfull. apply negb_false_iff in Hfull. unfold Connection.isFull, MessageWriter.full in Hfull. unfold WriterProofs.refused. apply orb_true_iff. left.
    rewrite (WriterProofs.length_wr _ _ _ _ (WriterProofs.wf_reps _ _ _ _ Hww)) in Hfull.
    apply Z.leb_le in Hfull. apply Z.leb_le. rewrite !length_app. lia.
  - destruct Qst as [-> (s & Hs & Hu & Hr)]. rewrite (Pmore eq_refl) in *. split; [done|].
    assert (Hm : m ∈ Connection.pending_message_vec c) by (rewrite Qsplit; set_solver). rewrite Hpj in Hs by done.
    split; [unfold live; rewrite Hs, Hu; by rewrite Z.eqb_refl|]. exists s. split; [done|]. right.
    assert (idxs = []) as ->; [|by rewrite !app_nil_r].
    change (contents_at p3 []) with (@nil (Z * option Msg * option Fn * MessageId)) in Penq. rewrite Hc3 in Penq. assert (m4 = m3) as -> by (clear -Penq; by inversion Penq).
    pose proof (repr_size _ _ _ _ (WriterProofs.r_ord _ _ _ _ (WriterProofs.wf_reps _ _ _ _ Hww3))) as L1.
    rewrite (repr_size _ _ _ _ (WriterProofs.r_ord _ _ _ _ (WriterProofs.wf_reps _ _ _ _ Pww))) in L1. rewrite !length_app in L1.
    destruct idxs; [done|cbn in L1; lia].
Qed.


End Proofs.

(** ** Witnesses *)

(** A service whose events are all delivered; its world records them. *)
Abbreviation toy_events := (list (UniqueId * Event Z unit)).

#[export] Instance toy_configuration : WriterConfiguration := {|
  MessageWriter.max_message_count_multiplex := 4;
  MessageWriter.max_message_count_response_wait := 4;
  MessageWriter.max_message_continuous_packet_count := 4
|}.

#[export] Instance toy_message_state : MessageState (list Z) := {|
  MessageWriter.msg_state _ := 0;
  MessageWriter.msg_requestId _ := MessageWriter.mkRequestId 0 0
|}.

#[export] Instance toy_service_env : ServiceEnv toy_events (list Z) Z unit unit := {|
  isRunning _ := true;
  notify w o e := (w ++ [(o, e)], true);
  startObject w _ e := (w ++ [(mkUniqueId 5 0, e)], mkUniqueId 5 0, None);
  name_resolve_fnc w _ _ := w;
  typeIndex _ := 1;
  isServerOnly := false;
  pool_max_active_connection_count := 1;
  pool_max_pending_connection_count := 1;
  pool_max_message_queue_size := 2;
  mtxsarrcp := 2;
  connection_reconnect_timeout_seconds := 10
|}.

Abbreviation toy_pool := (ConnectionPoolStub (list Z) unit Z).

Definition of_res {A : Type} (a : A) (x : res A) : A := match x with Done y => y | _ => a end.

(** A pool named "peer" with one message. *)
Definition peer_pool : toy_pool :=
  with_name (of_res (ConnectionPoolStub_new, MessageId_clear)
    (pushBackMessage ConnectionPoolStub_new (Some [7; 8]) 1 None 0)).1 "peer".

Definition peer_data : Data (list Z) unit Z := mkService {[ "peer" := 0 ]} [peer_pool] [].

Lemma wf_peer_pool : exists ca, wf peer_pool [0] ca.
Proof.
  destruct (pushBackMessage_spec (ConnectionPoolStub_new : toy_pool) [] [] (Some [7; 8]) 1 None 0)
    as (p & i & s & ca & E & Hf & Hw & _); [apply wf_new|by right|].
  exists ca. assert (i = 0) as ->.
  { by destruct Hf as [[? _]|(_ & _ & -> & _)]. }
  unfold peer_pool. rewrite E. cbn [of_res fst]. by apply (wf_msgs p).
Qed.

Lemma peer_data_is i p : pool_is peer_data i p -> i = 0 /\ p = peer_pool.
Proof.
  intros H. pose proof (pool_is_range _ _ _ H) as Hr. cbn in Hr. assert (i = 0) as -> by lia.
  split; [done|]. unfold pool_is in H. change (Some peer_pool = Some p) in H. congruence.
Qed.

Lemma svc_ok_peer : svc_ok peer_data.
Proof.
  constructor.
  - intros i p [-> ->]%peer_data_is. destruct wf_peer_pool as [ca Hw]. eauto.
  - intros k i Hk. change (({[ "peer" := 0 ]} : gmap string Z) !! k = Some i) in Hk. apply lookup_singleton_Some in Hk as [_ <-]. by exists peer_pool.
Qed.

Lemma doSendMessage_correct_witness :
  exists w' p' idx u, doSendMessage [] peer_data (Some "peer") (mkRecipientId ObjectId_new ObjectId_new)
      (Some [9]) None true true 0
    = Done (w', set_pool peer_data 0 p',
        mkSendResult None (Some (mkUniqueId 0 (pool_unique peer_pool))) (Some (mkMessageId idx u)))
    /\ svc_ok (set_pool peer_data 0 p').
Proof.
  destruct (doSendMessage_correct [] peer_data (Some "peer") (mkRecipientId ObjectId_new ObjectId_new)
    (Some [9]) None true true 0 svc_ok_peer eq_refl ltac:(done) ltac:(done) ltac:(by intros ? [= <-]; eexists))
    as (p & ord & ca & Hp & Hw & H).
  apply peer_data_is in Hp as [_ ->]. destruct H as (w' & p' & idx & u & E & _ & Hok). eauto 6.
Defined.

Definition peer_con : Connection.Connection (list Z) (list Z) unit := Connection.Connection_new (mkUniqueId 0 0).

(** The pool "peer" with a message queued in the place 0, and one in the place 1 that was sent to
    the connection. *)
Definition own_pool : toy_pool := (of_res (peer_pool, MessageId_clear) (insertMessage peer_pool (Some [9]) 1 None 0)).1.
Definition own_data : Data (list Z) unit Z := mkService {[ "peer" := 0 ]} [own_pool] [].
Definition own_con : Connection.Connection (list Z) (list Z) unit := Connection.with_pending peer_con [mkMessageId 7 3; mkMessageId 1 0].

Lemma wf_own_pool : exists ca, wf own_pool [0] ca /\ 1 ∉ ca.
Proof.
  destruct wf_peer_pool as [ca Hw].
  destruct (insertMessage_spec peer_pool [0] ca (Some [9]) 1 None 0 Hw ltac:(by right)) as (p & i & s & ca' & E & Hf & Hl & Hs).
  destruct (fresh_not_in _ _ _ _ _ _ Hw Hf) as [Hno Hnc]. exists ca'. unfold own_pool. pose proof E as E'. rewrite E. cbn [of_res fst].
  assert (i = 1) as -> by (vm_compute in E'; by injection E').
  split; [|done]. eapply wf_of_lists; [exact Hw|exact Hs|by rewrite (asyncs_set _ _ _ _ _ Hs)|by eapply fresh_ca].
Qed.


End ServiceProofs.
