(* ===== verification/ServiceLife.v ===== *)
(** * Pools over their life

    The operations of Service.v that create, close and recycle pools: where new pools come
    from, what closing a pool does, how the messages of a closing pool are handed out when its
    last connection stops, and what is left of the pool afterwards. *)

From stdpp Require Import strings gmap.
From S2P Require Import Prelude InnerList TriList Packet MessageWriter MessageWriterProofs Pool PoolProofs Connection Service ServiceProofs.
Import InnerList TriList Pool PoolProofs Service ServiceProofs.
Import MessageWriter(MessageId, mkMessageId, index, unique_, MessageId_clear, MessageId_isInvalid, MessageId_isValid,
  MessageBundle, mkBundle, message_type_id, message_flags, message_ptr, complete_fnc,
  MessageBundle_new, MessageBundle_clear, MessageBundle_moved, set_flags, WriterConfiguration, MessageState, isOnPeer).
Import Connection(Event, GenericStart, GenericKill, Resolve).
#[local] Open Scope res_scope.
#[local] Set Warnings "-clear-no-such-hyp".

Module ServiceLife.

Section Life.
Context {World Ser Msg Fn Addr Cb Sock : Type} {WC : WriterConfiguration} {MS : MessageState Msg}
  {SE : ServiceEnv World Msg Addr Cb Sock}.

Abbreviation pool := (ConnectionPoolStub Msg Fn Addr).
Abbreviation bundle := (MessageBundle Msg Fn).
Abbreviation data := (Data Msg Fn Addr).
Abbreviation con := (Connection.Connection Ser Msg Fn).
Implicit Types (p : pool) (d : data) (c : con) (b : bundle) (w : World) (i j : Z) (ord ca : list Z).

(** ** New pools *)

(** The indices the loop pushes, last first. *)
Definition pushed (k n : nat) : list Z :=
  reverse ((fun x => wrap 64 (mtxsarrcp - Z.of_nat x - 1)) <$> seq k n).

Lemma push_pools_eq (n : nat) d :
  push_pools n d = mkService (namemap d) (pooldq d ++ replicate n ConnectionPoolStub_new)
                     (pushed (length (pooldq d)) n ++ conpoolcachestk d).
Proof using Type.
  revert d. induction n as [|n IH]; intros d; cbn [push_pools replicate].
  { rewrite app_nil_r. by destruct d. }
  rewrite IH. cbn [namemap pooldq conpoolcachestk]. rewrite <- app_assoc. cbn [app]. f_equal.
  unfold pushed. cbn [seq fmap list_fmap]. rewrite reverse_cons, <- app_assoc, length_app.
  cbn [length app]. by rewrite Nat.add_1_r.
Qed.

Lemma fmap_descend (n k : nat) :
  reverse ((fun x => Z.of_nat n - Z.of_nat x - 1) <$> seq 0 k) = (fun x => Z.of_nat n - Z.of_nat k + Z.of_nat x) <$> seq 0 k.
Proof using Type.
  clear SE MS WC. induction k as [|k IH]; [done|]. change (seq 0 (S k)) with (0%nat :: seq 1 k) at 2.
  rewrite seq_S, fmap_app, reverse_app, IH. cbn [fmap list_fmap reverse rev_append app]. rewrite <- fmap_S_seq. f_equal; [lia|].
  rewrite <- list_fmap_compose. apply list_fmap_ext. intros j x _. cbn. lia.
Qed.

(** The stack after the first batch: all new pools, lowest first. *)
Lemma pushed_first (n : nat) :
  Z.of_nat n = mtxsarrcp -> Z.of_nat n < 2 ^ 64 -> pushed 0 n = Z.of_nat <$> seq 0 n.
Proof using Type.
  intros Hn Hb. unfold pushed. transitivity (reverse ((fun x => Z.of_nat n - Z.of_nat x - 1) <$> seq 0 n)).
  - f_equal. apply list_fmap_ext. intros j x [Hx Hj]%lookup_seq. subst x. rewrite <- Hn. apply wrap_small. split; lia.
  - rewrite fmap_descend. apply list_fmap_ext. intros j x _. lia.
Qed.

Lemma first_batch d (n : nat) :
  Z.of_nat n = mtxsarrcp -> (0 < n)%nat -> Z.of_nat n < 2 ^ 64 -> pooldq d = [] -> conpoolcachestk d = [] ->
  doPushNewConnectionPool d
  = Done (mkService (namemap d) (replicate n ConnectionPoolStub_new) (Z.of_nat <$> seq 1 (n - 1)), 0).
Proof using Type.
  intros Hn Hpos Hb Hq Hst. unfold doPushNewConnectionPool. rewrite push_pools_eq, <- Hn, Nat2Z.id, Hq, Hst.
  cbn [app length]. rewrite app_nil_r, pushed_first by done. destruct n as [|n]; [lia|].
  cbn [seq fmap list_fmap pop_stack conpoolcachestk with_stack namemap pooldq]. by rewrite Nat.sub_1_r.
Qed.

Lemma second_batch d (n : nat) :
  Z.of_nat n = mtxsarrcp -> (0 < n)%nat -> Z.of_nat n < 2 ^ 62 -> length (pooldq d) = n -> conpoolcachestk d = [] ->
  exists d', take_pool d = Done (d', 2 ^ 64 - Z.of_nat n) /\ pool_at d' (2 ^ 64 - Z.of_nat n) = Undef.
Proof using Type.
  intros Hn Hpos Hb Hq Hst. unfold take_pool. rewrite Hst. unfold doPushNewConnectionPool.
  rewrite push_pools_eq, <- Hn, Nat2Z.id, Hst, Hq, app_nil_r.
  assert (exists l, pushed n n = (2 ^ 64 - Z.of_nat n) :: l) as [l ->].
  { destruct n as [|k]; [lia|]. unfold pushed. rewrite seq_S, fmap_app, reverse_app. cbn [fmap list_fmap reverse rev_append app].
    eexists. f_equal. rewrite <- Hn. unfold wrap.
    replace (Z.of_nat (S k) - Z.of_nat (S k + k) - 1) with (2 ^ 64 - Z.of_nat (S k) + (-1) * 2 ^ 64) by lia.
    rewrite Z.mod_add by done. apply Z.mod_small. lia. }
  cbn [pop_stack conpoolcachestk with_stack]. eexists. split; [reflexivity|].
  unfold pool_at, at_idx. cbn [pooldq with_stack]. rewrite decide_True by lia.
  rewrite lookup_ge_None_2; [done|]. rewrite length_app, length_replicate. lia.
Qed.

(** The service has [n] pools, as many as it has mutexes, and all are in use. *)
Definition all_pools_used d (n : nat) : Prop :=
  Z.of_nat n = mtxsarrcp /\ (0 < n)%nat /\ Z.of_nat n < 2 ^ 62 /\ length (pooldq d) = n /\ conpoolcachestk d = [].

(** The first [mtxsarrcp] pools are all a service can have. Once they are in use, the next
    batch of pools gets wrong indices ([mtxsarrcp - idx - 1] wraps around, where [idx] alone
    counts on): accepting a connection, or sending to a new recipient, then reaches a pool that
    does not exist. *)
Theorem second_pool_batch_undefined w d (n : nat) (sd : Sock) (nm : string) (m : option Msg) (ty : Z) (fnc : option Fn)
    (rp ri : bool) (fl : Z) :
  all_pools_used d n ->
  acceptIncomingConnection w d sd = Undef /\ doSendMessageToNewPool w d nm m ty fnc rp ri fl = Undef.
Proof using Type.
  intros (Hn & Hpos & Hb & Hq & Hst). destruct (second_batch d n Hn Hpos Hb Hq Hst) as (d' & E1 & E2).
  unfold acceptIncomingConnection, doSendMessageToNewPool. rewrite E1. cbn [res_bind]. by rewrite E2.
Qed.

(** ** Closing a pool *)

(** The two ways to close a pool. *)
Definition closeConnectionPool (fast : bool) w d (rid : RecipientId) (fnc : option Fn) : res (World * data * option Error) :=
  if fast then doForceCloseConnectionPool w d rid fnc else doDelayCloseConnectionPool w d rid fnc.

Definition close_flags (fast : bool) : Z := if fast then MessageFlags.set 0 MessageFlags.Synchronous else 0.

(** The pool [p'] is [p], closing, with the last message queued and nobody waiting. *)
Record closing (fast : bool) p ord (fnc : option Fn) p' : Prop := {
  cg_closing : isClosing p' = true;
  cg_fast : isFastClosing p' = fast || isFastClosing p;
  cg_queue : exists idx ca', wf p' (ord ++ [idx]) ca'
    /\ queue_of p' (ord ++ [idx]) = queue_of p ord ++ [mkBundle 0 (close_flags fast) None fnc];
  cg_waiting : conn_waitingq p' = [];
  cg_unique : pool_unique p' = pool_unique p;
  cg_name : name p' = name p
}.

Lemma close_push (fast : bool) p ord ca (fnc : option Fn) :
  wf p ord ca -> room p ca ->
  exists p1 id, pushBackMessage (if fast then setFastClosing (setClosing p) else setClosing p) None 0 fnc (close_flags fast)
      = Done (p1, id)
    /\ conn_waitingq p1 = conn_waitingq p /\ closing fast p ord fnc (with_waitingq p1 []).
Proof using Type.
  intros Hw Hroom. set (p0 := if fast then _ else _).
  assert (Hs0 : same_msgs p p0) by (unfold p0; destruct fast; by constructor).
  destruct (pushBackMessage_spec p0 ord ca None 0 fnc (close_flags fast)) as (p1 & idx & s & ca' & E & Hf & Hw1 & Hs1).
  { by apply (same_msgs_wf p). }
  { unfold room. by rewrite (sm_vec _ _ Hs0). }
  destruct (fresh_not_in _ _ _ _ _ _ (same_msgs_wf _ _ _ _ Hs0 Hw) Hf) as [Hno _].
  pose proof (ss_rest _ _ _ _ Hs1) as Hr. destruct (rest_name _ _ Hr) as (Hn1 & Hu1 & Hf1).
  exists p1, (mkMessageId idx (unique s)). split; [done|].
  assert (conn_waitingq p1 = conn_waitingq p) as Hq.
  { unfold rest, with_msgs in Hr. injection Hr as _ _ _ _ _ _ -> _ _ _. unfold p0. by destruct fast. }
  split; [done|]. constructor; [| | |done|..]; cbn [conn_waitingq with_waitingq pool_unique name].
  - rewrite flag_closing. cbn [with_waitingq pool_flags]. rewrite Hf1. unfold p0, setFastClosing, setClosing. destruct fast; by pool_flags.
  - rewrite !flag_fast_closing. cbn [with_waitingq pool_flags]. rewrite Hf1. unfold p0, setFastClosing, setClosing. destruct fast; by pool_flags.
  - exists idx, ca'. split; [by apply (wf_msgs p1)|]. rewrite <- (same_msgs_queue p p0 ord Hs0).
    change (queue_of (with_waitingq p1 []) (ord ++ [idx])) with (queue_of p1 (ord ++ [idx])).
    by rewrite queue_of_app, (queue_of_set _ _ _ _ _ Hs1 Hno), (queue_of_cons _ _ _ _ (ss_at _ _ _ _ Hs1)).
  - rewrite Hu1. apply (sm_unique _ _ Hs0).
  - rewrite Hn1. apply (sm_name _ _ Hs0).
Qed.

(** The names without the one of the pool. *)
Definition unregistered d p : gmap string Z :=
  if isServerSide p then namemap d else delete (name p) (namemap d).

Lemma close_spec (fast : bool) w d i p (rid : RecipientId) (fnc : option Fn) ord ca :
  pool_is d i p -> poolid rid = mkUniqueId i (pool_unique p) -> wf p ord ca -> room p ca ->
  exists p', closeConnectionPool fast w d rid fnc
      = Done (notify_all w (conn_waitingq p), with_namemap (set_pool d i p') (unregistered d p), None)
    /\ closing fast p ord fnc p'.
Proof using Type.
  intros Hp Hid Hw Hroom. destruct (close_push fast p ord ca fnc Hw Hroom) as (p1 & id & E & Hq & Hc).
  exists (with_waitingq p1 []). split; [|done]. unfold closeConnectionPool, close_flags, unregistered in *.
  destruct fast; [unfold doForceCloseConnectionPool|unfold doDelayCloseConnectionPool]; rewrite Hid; cbn [uid_index uid_unique];
    rewrite (pool_at_is _ _ _ Hp); cbn [res_bind]; rewrite Z.eqb_refl; cbn [negb]; rewrite E; cbn [res_bind]; rewrite Hq;
    (rewrite (upd_pool_is _ i p); [|by destruct (negb _)]); cbn [res_bind];
    change (isServerSide (setFastClosing (setClosing p))) with (isServerSide p);
    change (isServerSide (setClosing p)) with (isServerSide p); by destruct d, (isServerSide p).
Qed.

(** C32: closing a pool, at once or after its messages. The pool refuses from then on what is
    sent to it by its id, and its name does not lead to it any more, so that a send to the name
    opens a new pool; the messages it has stay queued in order, followed by the null message
    that completes when they have gone; all connections that wait for messages are notified,
    and nobody is left waiting. An outdated id changes nothing and is reported. *)
Theorem close_correct (fast : bool) w d i p (rid : RecipientId) (fnc : option Fn) ord ca :
  pool_is d i p -> uid_index (poolid rid) = i -> wf p ord ca -> room p ca ->
  if pool_unique p =? uid_unique (poolid rid) then
    exists p' d', closeConnectionPool fast w d rid fnc = Done (notify_all w (conn_waitingq p), d', None)
      /\ closing fast p ord fnc p' /\ pool_is d' i p'
      /\ (forall j, j <> i -> at_idx (pooldq d') j = at_idx (pooldq d) j)
      /\ (isServerSide p = false -> namemap d' !! name p = None)
      /\ (forall w' (m : option Msg) (f : option Fn) (rp ri : bool) (fl : Z),
            first_error (message_guards w' m fl) = None ->
            doSendMessage w' d' None (mkRecipientId (poolid rid) ObjectId_new) m f rp ri fl
            = Done (w', d', send_failed error_service_pool_stopping))
  else closeConnectionPool fast w d rid fnc = Done (w, d, Some error_service_unknown_connection).
Proof using Type.
  intros Hp Hid Hw Hroom. destruct (Z.eqb_spec (pool_unique p) (uid_unique (poolid rid))) as [Hu|Hu].
  - assert (Hrid : poolid rid = mkUniqueId i (pool_unique p)).
    { rewrite Hu, <- Hid. by destruct (poolid rid). }
    destruct (close_spec fast w d i p rid fnc ord ca Hp Hrid Hw Hroom) as (p' & E & Hc).
    pose proof (pool_is_range _ _ _ Hp) as Hr. pose proof (pool_is_set d i p p' Hp) as Hp'.
    eexists p', _. split; [exact E|]. split; [done|]. split; [done|]. split; [intros j Hj; by apply (pool_is_other d i p'); [lia|]|].
    split.
    { unfold unregistered. cbn [namemap with_namemap]. intros ->. apply lookup_delete_eq. }
    intros w' m f rp ri fl Hg. destruct (message_guards_pass _ _ _ Hg) as (x & -> & Hrun & Hty & Hbad).
    unfold doSendMessage. rewrite Hrun. cbn [negb]. rewrite Hbad, Hty. cbn [isValidConnection connectionid poolid].
    rewrite Hrid. cbn [uid_index uid_unique]. change (isValid ObjectId_new) with false. cbn match.
    set (d' := with_namemap _ _). assert (Hp2 : pool_is d' i p') by done.
    pose proof (pool_is_range _ _ _ Hp2). rewrite (proj2 (Z.ltb_lt _ _)) by lia.
    unfold send_to_pool. rewrite (pool_at_is _ _ _ Hp2). cbn [res_bind].
    rewrite (cg_unique _ _ _ _ _ Hc), Z.eqb_refl. cbn [negb].
    by rewrite (cg_closing _ _ _ _ _ Hc).
  - unfold closeConnectionPool, doForceCloseConnectionPool, doDelayCloseConnectionPool.
    rewrite Hid, (pool_at_is _ _ _ Hp). cbn [res_bind]. rewrite (proj2 (Z.eqb_neq _ _) Hu). by destruct fast.
Qed.

(** ** The last connection of a pool stops *)

(** [c], with the id [o], is the only connection of the pool [p]. *)
Record last_con p c (o : UniqueId) : Prop := {
  lc_main : isMainConnection p o = true;
  lc_active : active_connection_count p = if Connection.isActiveState c then 1 else 0;
  lc_pending : pending_connection_count p = if Connection.isActiveState c then 0 else 1;
  lc_stopping : stopping_connection_count p = 0
}.

Lemma last_con_is_last p c o : last_con p c o -> isLastConnection p = true.
Proof using Type.
  clear SE MS WC. intros [_ Ha Hp _]. unfold isLastConnection. rewrite Ha, Hp. by destruct (Connection.isActiveState c).
Qed.

Lemma last_con_rest p p' c o : rest p' = rest p -> last_con p c o -> last_con p' c o.
Proof using Type.
  clear SE MS WC. unfold rest, with_msgs. intros [=] []. unfold isMainConnection in *. constructor; unfold isMainConnection; congruence.
Qed.

(** The pool hands out its messages one by one. *)
Definition cleaning p : Prop := isCleaningOneShotMessages p = false /\ isCleaningAllMessages p = true.

Lemma cleaning_rest p p' : rest p' = rest p -> cleaning p -> cleaning p'.
Proof using Type.
  clear SE MS WC. intros (_ & _ & E)%rest_name. unfold cleaning. rewrite !flag_clean_one_shot, !flag_clean_all. by rewrite E.
Qed.

(** The pool that [c] stops in is the one of its id. *)
Definition con_pool d i p c : Prop := pool_is d i p /\ Connection.pool_id c = mkUniqueId i (pool_unique p).

(** A reason to hand out all messages instead of connecting again. *)
Definition gives_up w p (err : option Error) : bool :=
  isFastClosing p || isServerSide p || negb (isRunning w) || bool_decide (err = Some error_connection_resolve).

Lemma stopping_prepare w d i p c o ctx err :
  con_pool d i p c -> last_con p c o ->
  isCleaningOneShotMessages p = false -> isCleaningAllMessages p = false -> isRestarting p = false ->
  gives_up w p err = true ->
  exists p', connectionStopping w d c o ctx err = Done (Stop w (set_pool d i p') c (stop_result false ctx))
    /\ same_msgs p p' /\ last_con p' c o /\ cleaning p' /\ isClosing p' = true.
Proof using Type.
  intros [Hp Hid] Hl H1 H2 H3 Hg. unfold connectionStopping. rewrite Hid. cbn [uid_index uid_unique].
  rewrite (pool_at_is _ _ _ Hp). cbn [res_bind]. rewrite Z.eqb_refl. cbn [negb].
  rewrite (lc_main _ _ _ Hl), (last_con_is_last _ _ _ Hl), H1, H2, H3. cbn [negb andb].
  assert (negb (isFastClosing p) && negb (isServerSide p) && isRunning w
    && negb (bool_decide (err = Some error_connection_resolve)) = false) as ->.
  { unfold gives_up in Hg. by destruct (isFastClosing p), (isServerSide p), (isRunning w), (bool_decide _). }
  unfold doMainConnectionStoppingPrepareCleanAll. rewrite Hid. cbn [uid_index].
  rewrite (pool_at_is _ _ _ Hp). cbn [res_bind]. rewrite (upd_pool_is _ _ _ _ Hp). cbn [res_bind].
  eexists. split; [reflexivity|]. split; [by constructor|]. split; [by destruct Hl; constructor|].
  unfold cleaning. rewrite flag_clean_one_shot in H1 |- *. rewrite flag_clean_all, flag_closing.
  unfold setClosing, setFastClosing, resetMainConnectionActive, setCleaningAllMessages.
  split_and!; by pool_flags.
Qed.

(** The handler of a pool that is being cleaned. *)
Lemma stopping_cleaning w d i p c o ctx err :
  con_pool d i p c -> last_con p c o -> cleaning p ->
  connectionStopping w d c o ctx err = doMainConnectionStoppingCleanAll w d c ctx.
Proof using Type.
  intros [Hp Hid] Hl [H1 H2]. unfold connectionStopping. rewrite Hid. cbn [uid_index uid_unique].
  rewrite (pool_at_is _ _ _ Hp). cbn [res_bind]. rewrite Z.eqb_refl. cbn [negb].
  by rewrite (lc_main _ _ _ Hl), (last_con_is_last _ _ _ Hl), H1, H2.
Qed.

Lemma clean_all_message w d i p c o ctx err j ord ca s :
  con_pool d i p c -> last_con p c o -> cleaning p -> wf p (j :: ord) ca -> at_idx (vec_data p) j = Some s ->
  exists p' x, connectionStopping w d c o ctx err
      = Done (Stop w (set_pool d i p') c (mkStopResult false 0 (mkMessageId j (unique s)) (msgbundle s) ctx))
    /\ wf p' ord (ca ++ [j]) /\ stub_set p p' j x.
Proof using Type.
  intros Hc Hl Hcl Hw Hs. rewrite (stopping_cleaning _ _ _ _ _ _ _ _ Hc Hl Hcl). destruct Hc as [Hp Hid].
  unfold doMainConnectionStoppingCleanAll. rewrite Hid. cbn [uid_index]. rewrite (pool_at_is _ _ _ Hp). cbn [res_bind].
  rewrite (order_size _ _ _ Hw). cbn [length]. decide_Z. cbn [negb]. rewrite (order_front _ _ _ Hw). cbn [hd].
  rewrite stub_at_eq, Hs. cbn [of_option res_bind].
  assert (Hnc : j ∉ ca) by (eapply tri_disj; [apply Hw|left]).
  destruct (wf_upd p _ _ j s (set_bundle (MessageBundle_moved (msgbundle s)) s) Hw Hs eq_refl Hnc) as (p1 & -> & Hw1 & Hs1 & _).
  cbn [res_bind]. destruct (clearPopAndCacheMessage_spec p1 [] j ord ca _ Hw1 (ss_at _ _ _ _ Hs1)) as (p2 & -> & Hw2 & Hs2).
  cbn [res_bind]. rewrite (upd_pool_is _ _ _ _ Hp). cbn [res_bind]. eexists p2, _. split; [reflexivity|]. split; [done|].
  by eapply stub_set_trans.
Qed.

Lemma clean_all_end w d i p c o ctx err ca :
  con_pool d i p c -> last_con p c o -> cleaning p -> wf p [] ca ->
  exists p', connectionStopping w d c o ctx err = Done (Stop w (set_pool d i p') c (stop_result true ctx))
    /\ same_msgs p p' /\ isClosing p' = isClosing p
    /\ active_connection_count p' = 0 /\ pending_connection_count p' = 0 /\ stopping_connection_count p' = 1.
Proof using Type.
  intros Hc Hl Hcl Hw. rewrite (stopping_cleaning _ _ _ _ _ _ _ _ Hc Hl Hcl). destruct Hc as [Hp Hid].
  unfold doMainConnectionStoppingCleanAll. rewrite Hid. cbn [uid_index]. rewrite (pool_at_is _ _ _ Hp). cbn [res_bind].
  rewrite (order_size _ _ _ Hw). cbn [length]. decide_Z. cbn [negb]. rewrite (upd_pool_is _ _ _ _ Hp). cbn [res_bind].
  eexists. split; [reflexivity|]. destruct Hl as [_ Ha Hpe Hst]. unfold count_stopping. rewrite !flag_closing.
  unfold resetCleaningAllMessages. rewrite Ha, Hpe, Hst.
  destruct (Connection.isActiveState c); (split; [by constructor|]); (split; [by pool_flags|]); by split_and!.
Qed.

(** The last connection has stopped: the pool is recycled, unless its name is still a key. *)
Lemma connectionStop_last d i p c ord ca :
  con_pool d i p c -> wf p ord ca -> isClosing p = true ->
  active_connection_count p = 0 -> pending_connection_count p = 0 -> stopping_connection_count p = 1 ->
  connectionStop d c
  = if name_is_key d i then Undef
    else Done (mkService (namemap d) (<[Z.to_nat i := cleared p]> (pooldq d)) (i :: conpoolcachestk d)).
Proof using Type.
  intros [Hp Hid] Hw Hcl Ha Hpe Hst. unfold connectionStop. rewrite Hid. cbn [uid_index uid_unique].
  rewrite (pool_at_is _ _ _ Hp). cbn [res_bind]. rewrite Z.eqb_refl. cbn [negb].
  set (p1 := with_counts _ _ _ _). rewrite (upd_pool_is _ _ _ _ Hp). cbn [res_bind].
  assert (hasNoConnection (resetRestarting p1) = true) as ->.
  { unfold hasNoConnection, p1. cbn. by rewrite Ha, Hpe, Hst. }
  assert (isClosing (resetRestarting p1) = true) as ->.
  { rewrite flag_closing in Hcl |- *. unfold resetRestarting. pool_flags. unfold p1. exact Hcl. }
  rewrite andb_false_r. unfold clear_pool, name_is_key. cbn [namemap with_stack set_pool with_pooldq].
  destruct (existsb _ _); [done|]. pose proof (pool_is_set d i p (resetRestarting p1) Hp) as Hp1.
  assert (pool_is (with_stack (set_pool d i (resetRestarting p1)) (i :: conpoolcachestk (set_pool d i (resetRestarting p1)))) i
    (resetRestarting p1)) as Hp2 by done.
  rewrite (pool_at_is _ _ _ Hp2). cbn [res_bind]. rewrite (pool_clear_spec (resetRestarting p1) ord ca (asyncs p ord)).
  - cbn [res_bind]. rewrite (upd_pool_is _ _ _ _ Hp2). f_equal. unfold set_pool, with_stack, with_pooldq. cbn.
    by rewrite list_insert_insert_eq.
  - exact (wf_lists _ _ _ Hw).
Qed.

End Life.

(** ** Witnesses *)

(** As many pools as the service has mutexes, all in use. *)
Definition full_data : Data (list Z) unit Z := mkService ∅ [peer_pool; peer_pool] [].

Lemma second_pool_batch_undefined_witness :
  acceptIncomingConnection [] full_data tt = Undef
  /\ doSendMessageToNewPool [] full_data "other" (Some [7]) 1 None true true 0 = Undef.
Proof. apply (second_pool_batch_undefined [] full_data 2 tt "other" (Some [7]) 1 None true true 0). split_and!; first [reflexivity|lia]. Defined.

Lemma close_correct_witness :
  exists p' d', closeConnectionPool true [] peer_data (mkRecipientId (mkUniqueId 0 0) ObjectId_new) None = Done ([], d', None)
    /\ closing true peer_pool [0] None p' /\ pool_is d' 0 p' /\ namemap d' !! "peer" = None.
Proof.
  destruct wf_peer_pool as [ca Hw].
  pose proof (close_correct true [] peer_data 0 peer_pool (mkRecipientId (mkUniqueId 0 0) ObjectId_new) None [0] ca
    eq_refl eq_refl Hw ltac:(by right)) as H. cbn [uid_unique poolid] in H. replace (pool_unique peer_pool =? 0) with true in H by reflexivity.
  destruct H as (p' & d' & E & Hc & Hp & _ & Hn & _). exists p', d'. split_and!; [exact E|done|done|by apply Hn].
Defined.

(** ** Messages that a connection gives back

    A service with an empty pool "peer" of two connections; its main connection has the id
    [main_id]. *)

Definition main_id : UniqueId := mkUniqueId 5 0.

Definition pair_pool : toy_pool :=
  with_main (with_counts (with_name ConnectionPoolStub_new "peer") 1 1 0) main_id.

Definition pair_data : Data (list Z) unit Z := mkService {[ "peer" := 0 ]} [pair_pool] [].

Definition peer_recipient : RecipientId := mkRecipientId (mkUniqueId 0 0) ObjectId_new.

(** Sends the messages, then the main connection takes them. *)
Fixpoint send_all (w : toy_events) (d : Data (list Z) unit Z) (msgs : list (list Z))
  : res (toy_events * Data (list Z) unit Z * list (option MessageId)) :=
  match msgs with
  | [] => Done (w, d, [])
  | m :: msgs =>
      let! x := doSendMessage w d (Some "peer"%string) peer_recipient (Some m) None false true MessageFlags.Synchronous in
      let '(w, d, r) := x in
      let! x := send_all w d msgs in
      let '(w, d, ids) := x in
      Done (w, d, sr_msgid r :: ids)
  end.

(** ... and stops before it has sent any of them. *)
Definition taken_and_given_back (msgs : list (list Z)) : res (toy_events * Data (list Z) unit Z * list (option MessageId)) :=
  let! x := send_all [] pair_data msgs in
  let '(w, d, ids) := x in
  let! x := pollPoolForUpdates w d peer_con main_id MessageId_clear in
  let '(w, d, c, _) := x in
  let! x := connectionStopping w d c main_id None (Some error_connection_killed) in
  match x with
  | Stop w d _ _ => Done (w, d, ids)
  | StopThrown _ _ _ => Undef
  end.

(** The messages a pool hands out next. *)
Definition next_messages (n : nat) (d : Data (list Z) unit Z) : res (list (option (list Z))) :=
  let! p := pool_at d 0 in
  let! x := pool_runs p (replicate n TakeFirst) in
  Done ((fun b => b ≫= message_ptr) <$> x.2).

(** The messages a stopping connection gives back to its pool come out in the reverse
    order: sent as 1, 2, taken by the connection and given back, the pool hands them out as
    2, 1, although they are synchronous. (The comment in the code says that the front message
    should be the oldest one.) *)
Theorem resend_reverses_order :
  (let! x := send_all [] pair_data [[1]; [2]] in next_messages 2 x.1.2) = Done [Some [1]; Some [2]]
  /\ (let! x := taken_and_given_back [[1]; [2]] in next_messages 2 x.1.2) = Done [Some [2]; Some [1]].
Proof. split; vm_compute; reflexivity. Qed.

(** Cancels the first message after it was given back. *)
Definition cancel_given_back : res (toy_events * toy_pool * outcome) :=
  let! x := taken_and_given_back [[1]] in
  let '(w, d, ids) := x in
  let! id := of_option (mjoin (head ids)) in
  let! x := cancelMessage w d peer_recipient id in
  let '(w, d, o) := x in
  let! p := pool_at d 0 in
  Done (w, p, o).

(** Canceling a message that a stopping connection has given back to the pool loses the
    message and damages the pool: the stub still names the old connection, so it is cleared and
    put among the free stubs, while it stays in the queue. [cancelMessage] reports success, the
    message is in no queue and was handed to nobody, and the same stub is at the front of the
    queue and of the free stubs. *)
Theorem cancel_given_back_corrupts :
  exists w p, cancel_given_back = Done (w, p, Returned None)
    /\ size (msgorder_inner_list p) = 1 /\ size (msgcache_inner_list p) = 1
    /\ frontIndex (msgorder_inner_list p) = frontIndex (msgcache_inner_list p)
    /\ hasNoMessage p = Done true /\ Forall (fun s => message_ptr (msgbundle (Pool.data s)) = None) (msgvec p)
    /\ forall ord ca, ~ wf p ord ca.
Proof.
  destruct cancel_given_back as [[[w p] o]| |] eqn:E; [|by vm_compute in E..].
  exists w, p. assert (o = Returned None) as ->.
  { vm_compute in E. by injection E as _ _ <-. }
  split; [done|].
  assert (size (msgorder_inner_list p) = 1 /\ size (msgcache_inner_list p) = 1
    /\ frontIndex (msgorder_inner_list p) = frontIndex (msgcache_inner_list p)
    /\ hasNoMessage p = Done true /\ Forall (fun s => message_ptr (msgbundle (Pool.data s)) = None) (msgvec p))
    as (H1 & H2 & H3 & H4 & H5).
  { vm_compute in E. injection E as _ <-. split_and!; try reflexivity. by repeat constructor. }
  clear E. repeat (split; [assumption|]). intros ord ca Hw. rewrite (order_size _ _ _ Hw) in H1. rewrite (order_front _ _ _ Hw) in H3.
  destruct ord as [|j [|]]; cbn in H1; try lia. cbn in H3.
  pose proof (wf_lists _ _ _ Hw) as Hl. destruct ca as [|k ca].
  - pose proof (repr_size _ _ _ _ (tri_free _ _ _ _ _ _ _ _ _ Hl)) as Hs. unfold size in H2. rewrite Hs in H2. done.
  - pose proof (repr_front _ _ _ _ (tri_free _ _ _ _ _ _ _ _ _ Hl)) as Hf. unfold frontIndex in H3. rewrite Hf in H3. cbn in H3.
    subst k. by apply (tri_disj _ _ _ _ _ _ _ _ _ Hl j); left.
Qed.

End ServiceLife.
