(* ===== verification/ServiceGiveBack.v ===== *)
(** * A stopping connection gives its messages back to its pool

    [doFetchResendableMessagesFromConnection] visits the messages of the connection's writer and
    puts those that can be sent again at the front of the queue of the pool, while the writer takes
    them out of its lists. *)

From stdpp Require Import strings gmap.
From S2P Require Import Prelude InnerList TriList Packet MessageWriter MessageWriterProofs Pool PoolProofs Connection Service ServiceProofs.
Import InnerList TriList Pool PoolProofs Service ServiceProofs.
Import MessageWriter(MessageId, mkMessageId, index, unique_, MessageId_isInvalid,
  MessageBundle, mkBundle, message_type_id, message_flags, message_ptr, complete_fnc, MessageBundle_moved, set_flags).
#[local] Open Scope res_scope.
#[local] Set Warnings "-clear-no-such-hyp".

Module ServiceGiveBack.

Section GiveBack.
Context {Ser Msg Fn Addr : Type}.

Abbreviation pool := (ConnectionPoolStub Msg Fn Addr).
Abbreviation con := (Connection.Connection Ser Msg Fn).
Abbreviation sent := (MessageWriter.StubData Ser Msg Fn).
Implicit Types (p : pool) (c : con) (s : sent) (l : list sent) (ord ca : list Z).

(** The place of a message of the connection in its pool, if it has one *)
Definition place_of s : option Z :=
  if MessageId_isInvalid (MessageWriter.pool_msg_id s) then None else Some (index (MessageWriter.pool_msg_id s)).

(** The messages [l] of a connection can be given back to its pool: each has a place of its own,
    which is in none of the lists of the pool, or none, and there is room for them. *)
Record giveable p ord ca l : Prop := {
  ga_place s i : s ∈ l -> place_of s = Some i -> in_vec (msgvec p) i /\ (i ∉ ord) /\ i ∉ ca;
  ga_once : NoDup (omap place_of l);
  ga_room : Z.of_nat (length (msgvec p)) + Z.of_nat (length l) < nil_idx
}.

(** A message stays with the connection. *)
Lemma giveable_keep p ord ca s l : giveable p ord ca (s :: l) -> giveable p ord ca l.
Proof using Type.
  intros [Hp Hn Hr]. cbn [length] in Hr. split; [intros s' i Hs'; apply Hp; by right| |lia].
  cbn [omap list_omap] in Hn. destruct (place_of s); [by apply NoDup_cons in Hn as [_ Hn]|done].
Qed.

(** A message goes to the front of the queue, in the place [i]. *)
Lemma giveable_push p ord ca s l p' ca' i x :
  giveable p ord ca (s :: l) -> stub_set p p' i x -> (length (msgvec p') <= S (length (msgvec p)))%nat ->
  (forall j, j ∈ ca' -> j ∈ ca) -> (forall s' j, s' ∈ l -> place_of s' = Some j -> j <> i) ->
  giveable p' (i :: ord) ca' l.
Proof using Type.
  intros Hg Hs Hlen Hca Hi. pose proof (giveable_keep _ _ _ _ _ Hg) as [_ Hn _]. destruct Hg as [Hp _ Hr]. cbn [length] in Hr.
  split; [|done|lia]. intros s' j Hs' Ej. destruct (Hp s' j) as (H1 & H2 & H3); [by right|done|]. specialize (Hi s' j Hs' Ej).
  split_and!; [rewrite (set_in_iff _ _ _ _ j Hs); by right|by rewrite elem_of_cons; intros [|]|by intros ?%Hca].
Qed.

(** One message; its bundle is left alone or is empty then. *)
Lemma push_front_message p ord ca s l :
  wf p ord ca -> giveable p ord ca (s :: l) ->
  exists p' b ord' ca', doPushFrontMessageToPool p (MessageWriter.msgbundle s) (MessageWriter.pool_msg_id s) = Done (p', b)
    /\ wf p' ord' ca' /\ rest p' = rest p /\ giveable p' ord' ca' l /\ (b = MessageWriter.msgbundle s \/ message_ptr b = None).
Proof using Type.
  intros Hw Hg. unfold doPushFrontMessageToPool. destruct (_ || _).
  2:{ eexists p, _, ord, ca. split_and!; [done|done|done|by eapply giveable_keep|by left]. }
  assert (Hpl : place_of s = if MessageId_isInvalid (MessageWriter.pool_msg_id s) then None else Some (index (MessageWriter.pool_msg_id s))) by done.
  destruct (MessageId_isInvalid (MessageWriter.pool_msg_id s)).
  - edestruct (pushFrontMessage_spec p ord ca) as (p' & i & x & ca' & -> & Hf & Hw' & Hs); [done|right; pose proof (ga_room _ _ _ _ Hg) as Hr; cbn [length] in Hr; lia|].
    cbn [res_bind fst]. eexists p', _, _, ca'. split; [done|]. split; [done|]. split; [apply Hs|]. split; [|by right].
    apply (giveable_push _ _ _ _ _ _ _ _ _ Hg Hs); [by eapply fresh_set_length|by intros j; apply (fresh_tail _ _ _ _ _ _ Hf)|].
    intros s' j Hs' Ej ->. destruct (ga_place _ _ _ _ Hg s' i) as (H1 & _ & H3); [by right|done|].
    destruct Hf as [[-> _]|(_ & _ & -> & _)]; [by destruct H3; left|unfold in_vec in H1; lia].
  - destruct (ga_place _ _ _ _ Hg s _ ltac:(left) Hpl) as (H1 & H2 & H3). destruct (in_vec_data _ _ H1) as [x Hx].
    edestruct (reinsertFrontMessage_spec p ord ca) as (p' & -> & Hw' & Hs); [done|reflexivity|exact Hx|done|done|].
    cbn [res_bind fst]. eexists p', _, _, ca. split; [done|]. split; [done|]. split; [apply Hs|]. split; [|by right].
    apply (giveable_push _ _ _ _ _ _ _ _ _ Hg Hs); [rewrite (stub_set_length _ _ _ _ Hs H1); lia|done|].
    intros s' j Hs' Ej ->. pose proof (ga_once _ _ _ _ Hg) as Hn. cbn [omap list_omap] in Hn. rewrite Hpl in Hn. apply NoDup_cons in Hn as [Hn _].
    destruct Hn. apply list_elem_of_omap. by exists s'.
Qed.

(** What a connection needs to give its messages back: its writer is as it should be, no request
    is in its write list any more, and its messages know their places. *)
Definition can_give_back p c ord ca : Prop :=
  exists word wwr wca l, WriterProofs.wf (Connection.msg_writer c) word wwr wca
    /\ WriterProofs.no_queued_request (Connection.msg_writer c) word wwr
    /\ Forall2 (fun i s => at_idx (WriterProofs.vec_data (Connection.msg_writer c)) i = Some s) word l
    /\ giveable p ord ca l.

Lemma fetch_resendable_spec p c ord ca :
  wf p ord ca -> can_give_back p c ord ca ->
  exists p' c' ord' ca', doFetchResendableMessagesFromConnection p c = Done (p', c', true) /\ wf p' ord' ca' /\ rest p' = rest p
    /\ Connection.pool_id c' = Connection.pool_id c /\ Connection.isActiveState c' = Connection.isActiveState c.
Proof using Type.
  intros Hw (word & wwr & wca & l & Hww & Hq & Hl & Hg). unfold doFetchResendableMessagesFromConnection, MessageWriter.forEveryMessagesNewerToOlder, frontIndex.
  pose proof (WriterProofs.r_ord _ _ _ _ (WriterProofs.wf_reps _ _ _ _ Hww)) as Hr. rewrite (repr_front _ _ _ _ Hr).
  destruct (WriterProofs.forEvery_takes resend_visit
    (fun x l => exists p' ord' ca', x = Done p' /\ wf p' ord' ca' /\ rest p' = rest p /\ giveable p' ord' ca' l)
    (S (length (MessageWriter.message_vec (Connection.msg_writer c))))) with (w := Done p) (m := Connection.msg_writer c) (xs := @nil Z) (ys := word) (l := l) (wr := wwr) (ca := wca)
    as (x & m' & -> & p' & ord' & ca' & -> & Hw' & Hr' & _).
  - intros x s l' (p1 & ord1 & ca1 & -> & Hw1 & Hr1 & Hg1) _. cbn [resend_visit].
    destruct (push_front_message p1 ord1 ca1 s l' Hw1 Hg1) as (p2 & b & ord2 & ca2 & -> & Hw2 & Hr2 & Hg2 & Hb). split; [|done].
    exists p2, ord2, ca2. split_and!; try done. congruence.
  - by apply WriterProofs.wf_reps.
  - apply Forall2_same_length_lookup. apply Forall2_same_length_lookup in Hl as [Hlen Hl]. split; [done|]. intros n i s Ei Es.
    eapply WriterProofs.wf_takeable; [done|done|by eapply list_elem_of_lookup_2|by eapply Hl].
  - assert (length word <= length (MessageWriter.message_vec (Connection.msg_writer c)))%nat; [|lia].
    apply nodup_length; [apply Hr|by intros; eapply repr_in_vec].
  - by exists p, ord, ca.
  - cbn [res_bind]. eexists p', _, ord', ca'. split; [done|]. split; [done|]. split; [done|]. by destruct c.
Qed.

End GiveBack.
End ServiceGiveBack.
