(* ===== verification/ServiceInvariant.v ===== *)
(** * The service as a state machine

    Every state that the operations of Service.v (without [cancelMessage], [forwardResolveMessage]
    and the fetches of single messages) reach from the empty service satisfies the invariant
    [svc_inv], and there every operation that is called as intended ([enabled]) runs to its end. *)

From stdpp Require Import strings gmap.
From S2P Require Import Prelude InnerList TriList Packet MessageWriter MessageWriterProofs Pool PoolProofs Connection Service ServiceProofs ServiceLife ServiceGiveBack.
Import InnerList TriList Pool PoolProofs Service ServiceProofs ServiceLife ServiceGiveBack.
Import MessageWriter(MessageId, mkMessageId, index, unique_, MessageId_clear,
  MessageBundle, mkBundle, message_type_id, message_flags, message_ptr, complete_fnc,
  MessageBundle_moved, set_flags, WriterConfiguration, MessageState, isOnPeer).
Import Connection(GenericStart).
#[local] Open Scope res_scope.
#[local] Set Warnings "-clear-no-such-hyp".

Module ServiceInvariant.

Section Invariant.
Context {World Ser Msg Fn Addr Cb Sock : Type} {WC : WriterConfiguration} {MS : MessageState Msg}
  {SE : ServiceEnv World Msg Addr Cb Sock}.

Abbreviation pool := (ConnectionPoolStub Msg Fn Addr).
Abbreviation data := (Data Msg Fn Addr).
Abbreviation con := (Connection.Connection Ser Msg Fn).
Implicit Types (p : pool) (d : data) (c : con) (w : World) (i j : Z) (ord ca : list Z).

(** A pool that is not in use. *)
Definition blank (u : Z) : pool :=
  mkPool u 0 0 0 EmptyString ObjectId_new [] InnerList_new InnerList_new InnerList_new [] 0 0 [].

(** The invariant: all pools are well-formed; the pools on the stack are there once, and are not
    in use; a name leads to the pool that has this name. *)
Record svc_inv d : Prop := {
  si_pools i p : pool_is d i p -> exists ord ca, wf p ord ca;
  si_stack : NoDup (conpoolcachestk d);
  si_free i : i ∈ conpoolcachestk d -> exists u, pool_is d i (blank u);
  si_names k i : namemap d !! k = Some i -> k <> EmptyString /\ exists p, pool_is d i p /\ name p = k
}.

Lemma svc_inv_new : svc_inv Data_new.
Proof using Type.
  clear SE MS WC. constructor; cbn.
  - intros i p H%pool_is_range. cbn in H. lia.
  - constructor.
  - by intros i ?%not_elem_of_nil.
  - intros k i H. by rewrite lookup_empty in H.
Qed.

Lemma wf_blank u : wf (blank u) [] [].
Proof using Type. by apply wf_empty. Qed.

Lemma key_name d i : svc_inv d -> name_is_key d i = true -> exists p, pool_is d i p /\ name p <> EmptyString
  /\ namemap d !! name p = Some i.
Proof using Type.
  clear SE MS WC. intros Hinv H. unfold name_is_key in H. apply existsb_exists in H as ((k & j) & Hin & E).
  apply Z.eqb_eq in E as <-. apply list_elem_of_In, elem_of_map_to_list in Hin. cbn [fst snd].
  destruct (si_names _ Hinv k j Hin) as (Hne & p & Hp & Hn). exists p. rewrite Hn. done.
Qed.

Lemma named_in_use d k i : svc_inv d -> namemap d !! k = Some i -> i ∉ conpoolcachestk d.
Proof using Type.
  clear SE MS WC. intros Hinv Hk Hi. destruct (si_names _ Hinv k i Hk) as (Hne & p & Hp & Hn).
  destruct (si_free _ Hinv i Hi) as (u & Hb). unfold pool_is in *. rewrite Hp in Hb. by injection Hb as ->.
Qed.

Lemma free_not_key d i u : svc_inv d -> pool_is d i (blank u) -> name_is_key d i = false.
Proof using Type.
  clear SE MS WC. intros Hinv Hb. apply not_true_is_false. intros (p & Hp & Hn & _)%key_name; [|done].
  unfold pool_is in *. rewrite Hp in Hb. by injection Hb as ->.
Qed.

(** A pool in use changes. *)
Lemma svc_inv_set d i p p' ord ca :
  svc_inv d -> pool_is d i p -> i ∉ conpoolcachestk d -> wf p' ord ca -> name p' = name p -> svc_inv (set_pool d i p').
Proof using Type.
  clear SE MS WC. intros [Hp Hs Hf Hn] Hi Hni Hw Hnm. pose proof (pool_is_range _ _ _ Hi) as Hr.
  pose proof (pool_is_set d i p p' Hi) as Hset.
  assert (Ho : forall j q, j <> i -> pool_is (set_pool d i p') j q <-> pool_is d j q).
  { intros j q Hj. unfold pool_is. by rewrite pool_is_other by lia. }
  constructor; [|done|..].
  - intros j q Hj. destruct (decide (j = i)) as [->|Hne]; [|by apply (Hp j q), Ho].
    unfold pool_is in *. rewrite Hset in Hj. injection Hj as <-. eauto.
  - intros j Hj. destruct (Hf j Hj) as [u Hu]. exists u. apply Ho; [|done]. by intros ->.
  - intros k j Hk. destruct (Hn k j Hk) as (Hne & q & Hq & Hqn). split; [done|].
    destruct (decide (j = i)) as [->|Hne']; [|exists q; by rewrite Ho].
    exists p'. split; [done|]. unfold pool_is in *. rewrite Hi in Hq. injection Hq as <-. congruence.
Qed.

Lemma svc_inv_names d (nm : gmap string Z) :
  svc_inv d -> (forall k i, nm !! k = Some i -> namemap d !! k = Some i) -> svc_inv (with_namemap d nm).
Proof using Type. clear SE MS WC. intros [] H. constructor; try done. intros k i Hk. apply si_names0. by apply H. Qed.

(** A pool goes back to the stack. *)
Lemma svc_inv_recycle d i p u :
  svc_inv d -> pool_is d i p -> (i ∉ conpoolcachestk d) -> name_is_key d i = false ->
  svc_inv (mkService (namemap d) (<[Z.to_nat i := blank u]> (pooldq d)) (i :: conpoolcachestk d)).
Proof using Type.
  clear SE MS WC. intros Hinv Hi Hni Hkey. pose proof (pool_is_range _ _ _ Hi) as Hr. destruct Hinv as [Hp Hs Hf Hn].
  set (d' := mkService _ _ _). assert (Hset : pool_is d' i (blank u)) by (by apply (pool_is_set d i p)).
  assert (Ho : forall j q, j <> i -> pool_is d' j q <-> pool_is d j q).
  { intros j q Hj. change (pool_is d' j q) with (pool_is (set_pool d i (blank u)) j q). unfold pool_is.
    by rewrite pool_is_other by lia. }
  constructor; cbn [conpoolcachestk namemap].
  - intros j q Hj. destruct (decide (j = i)) as [->|Hne]; [|by apply (Hp j q), Ho].
    unfold pool_is in *. rewrite Hset in Hj. injection Hj as <-. exists [], []. apply wf_blank.
  - by apply NoDup_cons.
  - intros j Hj. destruct (decide (j = i)) as [->|Hne]; [by exists u|]. apply elem_of_cons in Hj as [?|Hj]; [done|].
    destruct (Hf j Hj) as [v Hv]. exists v. by apply Ho.
  - intros k j Hk. destruct (Hn k j Hk) as (Hne & q & Hq & Hqn). split; [done|].
    exists q. split; [|done]. apply Ho; [|done]. intros ->. unfold name_is_key in Hkey.
    assert (existsb (fun kv => kv.2 =? i) (map_to_list (namemap d)) = true) as E; [|congruence].
    apply existsb_exists. exists (k, i). split; [|apply Z.eqb_refl]. by apply list_elem_of_In, elem_of_map_to_list.
Qed.

(** ** Taking a pool *)

(** There is a pool to take. *)
Definition available d : Prop :=
  conpoolcachestk d <> [] \/ (pooldq d = [] /\ 0 < mtxsarrcp < 2 ^ 64).

Lemma take_pool_spec d :
  svc_inv d -> available d ->
  exists d1 i u, take_pool d = Done (d1, i) /\ svc_inv d1 /\ pool_is d1 i (blank u) /\ (i ∉ conpoolcachestk d1)
    /\ namemap d1 = namemap d.
Proof using Type.
  intros Hinv Hav. unfold take_pool. destruct (conpoolcachestk d) as [|i l] eqn:Hst.
  - destruct Hav as [?|[Hq Hm]]; [done|]. set (n := Z.to_nat mtxsarrcp).
    rewrite (first_batch d n) by (unfold n; done || lia). set (d1 := mkService _ _ _).
    assert (Hp : forall j, 0 <= j < Z.of_nat n -> pool_is d1 j (blank 0)).
    { intros j Hj. unfold pool_is, at_idx. cbn [pooldq d1]. rewrite decide_True by lia.
      apply lookup_replicate. split; [done|lia]. }
    exists d1, 0, 0. split; [done|]. split_and!; [|apply Hp; lia| |done].
    + constructor; cbn [conpoolcachestk namemap d1].
      * intros j q Hj. pose proof (pool_is_range _ _ _ Hj) as Hr. cbn [pooldq d1] in Hr. rewrite length_replicate in Hr.
        specialize (Hp j Hr). unfold pool_is in *. rewrite Hj in Hp. injection Hp as ->. exists [], []. apply wf_blank.
      * apply NoDup_fmap_2; [apply _|apply NoDup_seq].
      * intros j (x & -> & [Hx1 Hx2]%elem_of_seq)%list_elem_of_fmap. exists 0. apply Hp. lia.
      * intros k j Hk. destruct (si_names _ Hinv k j Hk) as (_ & q & Hpq & _). apply pool_is_range in Hpq. rewrite Hq in Hpq. cbn in Hpq. lia.
    + cbn [conpoolcachestk d1]. intros (x & Hx & [Hx1 Hx2]%elem_of_seq)%list_elem_of_fmap. lia.
  - unfold pop_stack. rewrite Hst. destruct (si_free _ Hinv i) as [u Hu]; [rewrite Hst; left|].
    exists (with_stack d l), i, u. split; [done|]. destruct Hinv as [Hp Hs Hf Hn]. rewrite Hst in Hs, Hf.
    apply NoDup_cons in Hs as [Hni Hs]. split_and!; [|done|done|done]. constructor; try done.
    intros j Hj. apply Hf. by right.
Qed.

(** ** The operations keep the invariant *)

(** The call returns, in a state that satisfies the invariant. *)
Definition keeps {R : Type} (x : res (World * data * R)) : Prop :=
  exists w' d' r, x = Done (w', d', r) /\ svc_inv d'.

Lemma keeps_done {R : Type} w d (r : R) : svc_inv d -> keeps (Done (w, d, r)).
Proof using Type. intros H. by exists w, d, r. Qed.

Lemma send_to_pool_keeps w d i p m ty fnc (rp ri : bool) fl :
  svc_inv d -> pool_is d i p -> (i ∉ conpoolcachestk d) -> pool_max_message_queue_size < nil_idx ->
  keeps (send_to_pool w d i m ty fnc rp ri fl).
Proof using Type.
  intros Hinv Hp Hni Hmax. destruct (si_pools _ Hinv i p Hp) as (ord & ca & Hw).
  destruct (isClosing p) eqn:Hc; [|destruct (isFull p pool_max_message_queue_size) eqn:Hf].
  1,2: unfold send_to_pool; rewrite (pool_at_is _ _ _ Hp); cbn [res_bind]; rewrite Hc, ?Hf; by apply keeps_done.
  destruct (send_to_pool_spec w d i p ord ca (mkRequest m ty fnc fl rp ri) Hp Hw Hmax Hc Hf) as (w' & p' & idx & u & E & [[ca' Hw'] _ _ Hn _ _]).
  cbn [rq_msg rq_type rq_fnc rq_flags rq_want_pool rq_want_id] in E. rewrite E. apply keeps_done. by eapply svc_inv_set.
Qed.

(** The pool can take one more message. *)
Definition roomy p : Prop := Z.of_nat (length (msgvec p)) + 1 < nil_idx.

Lemma make_cancelable_spec p ord ca idx s :
  wf p ord ca -> at_idx (vec_data p) idx = Some s -> (idx ∉ ca) ->
  exists p', make_cancelable p idx = Done p' /\ wf p' ord ca /\ rest p' = rest p.
Proof using Type.
  clear SE MS WC. intros Hw Hs Hnc. unfold make_cancelable. rewrite stub_at_eq, Hs. cbn [of_option res_bind].
  destruct (wf_upd p ord ca idx s (makeCancelable s) Hw Hs eq_refl Hnc) as (p' & E & Hw' & Hs' & _).
  exists p'. split_and!; try done. apply Hs'.
Qed.

(** The message of a send to a connection: queued in the pool of an accepted connection, or put
    aside for the connection. *)
Lemma connection_message_spec p ord ca m ty fnc fl :
  wf p ord ca -> roomy p ->
  exists p1 idx u ca1 xs ys, (if isServerSide p then pushBackMessage p m ty fnc fl else insertMessage p m ty fnc fl)
      = Done (p1, mkMessageId idx u)
    /\ wf p1 (xs ++ ys) ca1 /\ rest p1 = rest p /\ (idx ∉ ca1) /\ (exists s1, at_idx (vec_data p1) idx = Some s1)
    /\ exists p2 ord2 ca2, (if isServerSide p then clearPopAndCacheMessage p1 idx else clearAndCacheMessage p1 idx) = Done p2
        /\ wf p2 ord2 ca2 /\ rest p2 = rest p.
Proof using Type.
  clear SE MS WC. intros Hw Hroom. destruct (isServerSide p).
  - destruct (pushBackMessage_spec p ord ca m ty fnc fl Hw ltac:(by right)) as (p1 & idx & s & ca1 & E & Hf & Hw1 & Hs1).
    destruct (fresh_not_in _ _ _ _ _ _ Hw Hf) as [Hno Hnc]. exists p1, idx, (unique s), ca1, ord, [idx].
    split_and!; try done; [apply Hs1|eexists; apply Hs1|].
    destruct (clearPopAndCacheMessage_spec p1 ord idx [] ca1 _ Hw1 (ss_at _ _ _ _ Hs1)) as (p2 & E2 & Hw2 & Hs2).
    exists p2, (ord ++ []), (ca1 ++ [idx]). split_and!; try done. rewrite (ss_rest _ _ _ _ Hs2). apply Hs1.
  - destruct (insertMessage_spec p ord ca m ty fnc fl Hw ltac:(by right)) as (p1 & idx & s & ca1 & E & Hf & Hl1 & Hs1).
    destruct (fresh_not_in _ _ _ _ _ _ Hw Hf) as [Hno Hnc].
    assert (Hw1 : wf p1 ord ca1).
    { eapply wf_of_lists; [exact Hw|exact Hs1| |].
      - by rewrite (asyncs_set _ _ _ _ _ Hs1).
      - by eapply fresh_ca. }
    exists p1, idx, (unique s), ca1, ord, []. rewrite app_nil_r. split_and!; try done; [apply Hs1|eexists; apply Hs1|].
    destruct (clearAndCacheMessage_spec p1 ord ca1 idx _ Hw1 (ss_at _ _ _ _ Hs1) Hno Hnc) as (p2 & E2 & Hw2 & Hs2).
    exists p2, ord, (ca1 ++ [idx]). split_and!; try done. rewrite (ss_rest _ _ _ _ Hs2). apply Hs1.
Qed.

(** The id is outdated, or its pool is in use and can take one more message. *)
Definition in_use d (id : UniqueId) : Prop :=
  forall p, pool_is d (uid_index id) p -> pool_unique p = uid_unique id ->
    (uid_index id ∉ conpoolcachestk d) /\ roomy p.

Lemma send_to_connection_keeps w d rid m ty fnc (ri : bool) fl :
  svc_inv d -> 0 <= uid_index (poolid rid) -> in_use d (poolid rid) ->
  keeps (doSendMessageToConnection w d rid m ty fnc ri fl).
Proof using Type.
  intros Hinv H0 Huse. unfold doSendMessageToConnection. destruct (isValidPool rid); cbn [negb]; [|by apply keeps_done].
  set (i := uid_index (poolid rid)) in *. destruct (Z.leb_spec (Z.of_nat (length (pooldq d))) i); [by apply keeps_done|].
  destruct (at_idx (pooldq d) i) as [p|] eqn:Hp.
  2:{ unfold at_idx in Hp. rewrite decide_True in Hp by done. apply lookup_ge_None in Hp. lia. }
  rewrite (pool_at_is _ _ _ Hp). cbn [res_bind]. destruct (Z.eqb_spec (pool_unique p) (uid_unique (poolid rid))) as [Hu|Hu]; cbn [negb];
    [|by apply keeps_done].
  destruct (Huse p Hp Hu) as [Hni Hroom]. destruct (si_pools _ Hinv i p Hp) as (ord & ca & Hw).
  destruct (connection_message_spec p ord ca m ty fnc (MessageFlags.set fl MessageFlags.OneShotSend) Hw Hroom)
    as (p1 & idx & u & ca1 & xs & ys & -> & Hw1 & Hr1 & Hnc & [s1 Hs1] & p2 & ord2 & ca2 & E2 & Hw2 & Hr2).
  cbn [res_bind index]. destruct (notify w _ _) as [w' [|]].
  - destruct ri.
    + destruct (make_cancelable_spec p1 _ _ idx s1 Hw1 Hs1 Hnc) as (p3 & -> & Hw3 & Hr3). cbn [res_bind].
      rewrite (upd_pool_is _ _ _ _ Hp). cbn [res_bind]. apply keeps_done.
      eapply svc_inv_set; [done|done|done|done|]. apply (rest_name p p3). congruence.
    + rewrite (upd_pool_is _ _ _ _ Hp). cbn [res_bind]. apply keeps_done. eapply svc_inv_set; [done|done|done|done|]. by apply rest_name.
  - rewrite E2. cbn [res_bind]. rewrite (upd_pool_is _ _ _ _ Hp). cbn [res_bind]. apply keeps_done.
    eapply svc_inv_set; [done|done|done|done|]. by apply rest_name.
Qed.

(** A name starts to lead to a pool. *)
Lemma svc_inv_register d i p :
  svc_inv d -> pool_is d i p -> name p <> EmptyString -> svc_inv (with_namemap d (<[name p := i]> (namemap d))).
Proof using Type.
  clear SE MS WC. intros Hinv Hp Hne. destruct Hinv as [H1 H2 H3 H4]. constructor; try done.
  intros k j Hk. cbn [namemap with_namemap] in Hk. apply lookup_insert_Some in Hk as [[<- <-]|[_ Hk]]; [by eauto|by apply H4].
Qed.

Lemma send_to_new_pool_keeps w d nm m ty fnc (rp ri : bool) fl :
  svc_inv d -> available d -> nm <> EmptyString -> keeps (doSendMessageToNewPool w d nm m ty fnc rp ri fl).
Proof using Type.
  intros Hinv Hav Hnm. unfold doSendMessageToNewPool.
  destruct (take_pool_spec d Hinv Hav) as (d1 & i & u & -> & Hinv1 & Hb & Hni & _). cbn [res_bind].
  rewrite (pool_at_is _ _ _ Hb). cbn [res_bind]. rewrite (free_not_key _ _ _ Hinv1 Hb).
  set (p0 := with_name (blank u) nm). assert (Hw0 : wf p0 [] []) by (by apply wf_empty).
  destruct (pushBackMessage_spec p0 [] [] m ty fnc fl Hw0 ltac:(by right)) as (p1 & idx & s & ca1 & -> & Hf & Hw1 & Hs1).
  destruct (fresh_not_in _ _ _ _ _ _ Hw0 Hf) as [_ Hnc]. destruct (rest_name _ _ (ss_rest _ _ _ _ Hs1)) as (Hn1 & Hu1 & _).
  cbn [res_bind]. rewrite (upd_pool_is _ _ _ _ Hb). cbn [res_bind]. pose proof (pool_is_set d1 i _ p1 Hb) as Hp1.
  assert (Hkey : forall q, name_is_key (set_pool d1 i q) i = false) by (intros q; apply (free_not_key _ _ _ Hinv1 Hb)).
  destruct (create_spec w _ i p1 _ _ Hp1 Hw1) as (w' & p2 & ok & err & -> & Hs2 & _ & Hok & _). cbn [res_bind].
  rewrite set_pool_twice. pose proof (pool_is_set d1 i _ p2 Hb) as Hp2. pose proof (same_msgs_wf _ _ _ _ Hs2 Hw1) as Hw2.
  rewrite (pool_at_is _ _ _ Hp2). destruct ok; cbn [negb res_bind].
  - assert (Hn2 : name p2 = nm) by (by rewrite (sm_name _ _ Hs2), Hn1).
    assert (Hpn : svc_inv (with_namemap (set_pool d1 i p2) (<[name p2 := i]> (namemap (set_pool d1 i p2))))).
    { apply svc_inv_register; [|done|congruence]. destruct Hinv1 as [H1 H2 H3 H4]. pose proof (pool_is_range _ _ _ Hb) as Hr.
      assert (Ho : forall j q, j <> i -> pool_is (set_pool d1 i p2) j q <-> pool_is d1 j q).
      { intros j q Hj. unfold pool_is. by rewrite pool_is_other by lia. }
      constructor; [|done|..].
      - intros j q Hj. destruct (decide (j = i)) as [->|Hne]; [|by apply (H1 j q), Ho].
        unfold pool_is in *. rewrite Hp2 in Hj. injection Hj as <-. eauto.
      - intros j Hj. destruct (H3 j Hj) as [v Hv]. exists v. apply Ho; [|done]. by intros ->.
      - intros k j Hk. destruct (H4 k j Hk) as (Hne & q & Hq & Hqn). split; [done|].
        destruct (decide (j = i)) as [->|Hne']; [|exists q; by rewrite Ho]. unfold pool_is in *. rewrite Hb in Hq. injection Hq as <-. done. }
    destruct ri; [|by apply keeps_done]. unfold make_cancelable.
    assert (Hs1' : at_idx (vec_data p2) idx = Some (set_bundle (mkBundle ty fl m fnc) s)).
    { rewrite (same_msgs_data _ _ Hs2). apply Hs1. }
    cbn [index]. rewrite stub_at_eq, Hs1'. cbn [of_option res_bind].
    destruct (make_cancelable_spec p2 _ _ idx _ Hw2 Hs1' Hnc) as (p3 & E3 & Hw3 & Hr3).
    unfold make_cancelable in E3. rewrite stub_at_eq, Hs1' in E3. cbn [of_option res_bind] in E3. rewrite E3. cbn [res_bind].
    set (d2 := with_namemap _ _) in *. assert (Hp2' : pool_is d2 i p2) by done. rewrite (upd_pool_is _ _ _ _ Hp2'). cbn [res_bind].
    apply keeps_done. eapply svc_inv_set; [done|exact Hp2'|done|done|]. by apply rest_name.
  - rewrite (Hok eq_refl) in *. unfold popFrontMessage.
    destruct (order_popFront_spec p1 idx [] ca1 _ (wf_lists _ _ _ Hw1)) as (p3 & -> & Hl3 & [_ Hr3]). cbn [res_bind fst].
    rewrite (upd_pool_is _ _ _ _ Hp2). cbn [res_bind]. rewrite set_pool_twice. unfold clear_pool. rewrite Hkey.
    pose proof (pool_is_set d1 i _ p3 Hb) as Hp3. rewrite (pool_at_is _ _ _ Hp3). cbn [res_bind].
    rewrite (pool_clear_spec _ _ _ _ Hl3). cbn [res_bind]. rewrite (upd_pool_is _ _ _ _ Hp3). cbn [res_bind].
    apply keeps_done. rewrite set_pool_twice. by apply (svc_inv_recycle d1 i (blank u)); [done|done|done|apply (Hkey (blank u))].
Qed.

Lemma in_use_not_free d id p : in_use d id -> pool_is d (uid_index id) p -> pool_unique p = uid_unique id ->
  uid_index id ∉ conpoolcachestk d.
Proof using Type. clear SE MS WC. intros H Hp Hu. by destruct (H p Hp Hu). Qed.

Lemma doSendMessage_keeps w d (nm : option string) (rid : RecipientId) (m : option Msg) (fnc : option Fn) (rp ri : bool) fl :
  svc_inv d -> pool_max_message_queue_size < nil_idx -> 0 <= uid_index (poolid rid) -> in_use d (poolid rid) ->
  (forall n, nm = Some n -> namemap d !! n = None -> n <> EmptyString /\ available d) ->
  keeps (doSendMessage w d nm rid m fnc rp ri fl).
Proof using Type.
  intros Hinv Hmax H0 Huse Hnew. destruct (first_error (message_guards w m fl)) as [e|] eqn:Hg.
  { rewrite (doSendMessage_guarded _ _ _ _ _ _ _ _ _ _ Hg). by apply keeps_done. }
  destruct (message_guards_pass _ _ _ Hg) as (x & -> & Hrun & Hty & Hbad).
  unfold doSendMessage. rewrite Hrun. cbn [negb]. rewrite Hbad, Hty.
  destruct (isValidConnection rid); [by apply send_to_connection_keeps|]. destruct nm as [n|].
  - destruct (namemap d !! n) as [i|] eqn:Hn.
    + destruct (si_names _ Hinv n i Hn) as (_ & p & Hp & _). by eapply send_to_pool_keeps; [|exact Hp|eapply named_in_use|].
    + destruct isServerOnly; [by apply keeps_done|]. destruct (Hnew n eq_refl Hn). by apply send_to_new_pool_keeps.
  - case_Z; [|by apply keeps_done]. destruct (at_idx (pooldq d) (uid_index (poolid rid))) as [p|] eqn:Hp.
    2:{ unfold at_idx in Hp. rewrite decide_True in Hp by done. apply lookup_ge_None in Hp. lia. }
    rewrite (pool_at_is _ _ _ Hp). cbn [res_bind].
    destruct (Z.eqb_spec (pool_unique p) (uid_unique (poolid rid))) as [Hu|Hu]; cbn [negb]; [|by apply keeps_done].
    by eapply send_to_pool_keeps; [|exact Hp|eapply in_use_not_free|].
Qed.

(** The result of a call that returns nothing. *)
Definition void (x : res (World * data)) : res (World * data * unit) := let! r := x in Done (r, tt).

Lemma accept_keeps w d (sd : Sock) : svc_inv d -> available d -> keeps (void (acceptIncomingConnection w d sd)).
Proof using Type.
  intros Hinv Hav. unfold acceptIncomingConnection.
  destruct (take_pool_spec d Hinv Hav) as (d1 & i & u & -> & Hinv1 & Hb & Hni & _). cbn [res_bind].
  rewrite (pool_at_is _ _ _ Hb). cbn [res_bind]. destruct (startObject _ _ _) as [[w' o] [e|]].
  - unfold clear_pool. rewrite (free_not_key _ _ _ Hinv1 Hb), (pool_at_is _ _ _ Hb). cbn [res_bind].
    rewrite (pool_clear_spec _ _ _ _ (wf_lists _ _ _ (wf_blank u))). cbn [res_bind]. rewrite (upd_pool_is _ _ _ _ Hb).
    cbn [res_bind void]. apply keeps_done. by apply (svc_inv_recycle d1 i (blank u)); [..|eapply free_not_key].
  - rewrite (upd_pool_is _ _ _ _ Hb). cbn [res_bind void]. apply keeps_done.
    by apply (svc_inv_set d1 i (blank u) _ [] []); [| | |apply wf_empty|].
Qed.

(** The pool of the id exists. *)
Definition known d (id : UniqueId) : Prop := exists p, pool_is d (uid_index id) p.

(** A change that keeps the messages of a pool in use. *)
Lemma same_msgs_keeps {R : Type} w d i p p' (r : R) :
  svc_inv d -> pool_is d i p -> (i ∉ conpoolcachestk d) -> same_msgs p p' ->
  keeps (let! d := upd_pool d i p' in Done (w, d, r)).
Proof using Type.
  intros Hinv Hp Hni Hs. rewrite (upd_pool_is _ _ _ _ Hp). cbn [res_bind]. apply keeps_done.
  destruct (si_pools _ Hinv i p Hp) as (ord & ca & Hw). eapply svc_inv_set; [done|done|done|by apply (same_msgs_wf p)|].
  apply Hs.
Qed.

Lemma activate_keeps w d c (o : UniqueId) :
  svc_inv d -> known d (Connection.pool_id c) -> in_use d (Connection.pool_id c) -> keeps (activateConnection w d c o).
Proof using Type.
  intros Hinv [p Hp] Huse. unfold activateConnection. rewrite (pool_at_is _ _ _ Hp). cbn [res_bind].
  destruct (Z.eqb_spec (pool_unique p) (uid_unique (Connection.pool_id c))) as [Hu|Hu]; cbn [negb]; [|by apply keeps_done].
  pose proof (in_use_not_free _ _ _ Huse Hp Hu) as Hni. destruct (isMainConnectionStopping p).
  { by apply (same_msgs_keeps _ d _ p). }
  case_Z; [by apply keeps_done|]. set (p1 := with_counts _ _ _ _). rewrite (upd_pool_is _ _ _ _ Hp). cbn [res_bind].
  destruct (si_pools _ Hinv _ p Hp) as (ord & ca & Hw). pose proof (pool_is_set d _ p p1 Hp) as Hp1.
  destruct (create_spec w _ _ p1 ord ca Hp1) as (w' & p2 & ok & err & -> & Hs2 & _); [by apply (wf_msgs p)|].
  cbn [res_bind]. rewrite set_pool_twice. apply keeps_done. eapply svc_inv_set; [done|done|done| |].
  - apply (same_msgs_wf p1); [done|]. by apply (wf_msgs p).
  - apply (sm_name _ _ Hs2).
Qed.

Lemma reject_keeps w d c :
  svc_inv d -> known d (Connection.pool_id c) -> in_use d (Connection.pool_id c) -> keeps (void (rejectNewPoolMessage w d c)).
Proof using Type.
  intros Hinv [p Hp] Huse. unfold rejectNewPoolMessage. rewrite (pool_at_is _ _ _ Hp). cbn [res_bind].
  destruct (Z.eqb_spec (pool_unique p) (uid_unique (Connection.pool_id c))) as [Hu|Hu]; cbn [negb]; [|by apply keeps_done].
  pose proof (in_use_not_free _ _ _ Huse Hp Hu) as Hni. destruct (si_pools _ Hinv _ p Hp) as (ord & ca & Hw).
  destruct (notify_waiting_spec w d _ p Hp) as (w' & p' & ok & -> & Hs & _). cbn [res_bind void fst]. apply keeps_done.
  eapply svc_inv_set; [done|done|done|by apply (same_msgs_wf p)|]. apply Hs.
Qed.

Lemma close_keeps (fast : bool) w d (rid : RecipientId) (fnc : option Fn) :
  svc_inv d -> known d (poolid rid) -> in_use d (poolid rid) -> keeps (closeConnectionPool fast w d rid fnc).
Proof using Type.
  intros Hinv [p Hp] Huse. destruct (si_pools _ Hinv _ p Hp) as (ord & ca & Hw).
  destruct (decide (pool_unique p = uid_unique (poolid rid))) as [Hu|Hu].
  - destruct (Huse p Hp Hu) as [Hni Hroom].
    destruct (close_spec fast w d _ p rid fnc ord ca Hp) as (p' & -> & Hc); [rewrite Hu; by destruct (poolid rid)|done|by right|].
    apply keeps_done. destruct (cg_queue _ _ _ _ _ Hc) as (idx & ca' & Hw' & _). apply svc_inv_names.
    + eapply svc_inv_set; [done|done|done|done|]. apply Hc.
    + intros k j. unfold unregistered. destruct (isServerSide p); [done|]. by intros [_ ?]%lookup_delete_Some.
  - unfold closeConnectionPool, doForceCloseConnectionPool, doDelayCloseConnectionPool.
    rewrite (pool_at_is _ _ _ Hp). cbn [res_bind]. rewrite (proj2 (Z.eqb_neq _ _) Hu). destruct fast; by apply keeps_done.
Qed.

(** A connection leaves its pool; a pool that closes has no name any more. *)
Lemma stop_keeps w d c :
  svc_inv d -> known d (Connection.pool_id c) -> in_use d (Connection.pool_id c) ->
  (forall p, pool_is d (uid_index (Connection.pool_id c)) p -> isClosing p = true ->
    name_is_key d (uid_index (Connection.pool_id c)) = false) ->
  keeps (void (let! d := connectionStop d c in Done (w, d))).
Proof using Type.
  intros Hinv [p Hp] Huse Hcl. unfold connectionStop. rewrite (pool_at_is _ _ _ Hp). cbn [res_bind].
  destruct (Z.eqb_spec (pool_unique p) (uid_unique (Connection.pool_id c))) as [Hu|Hu]; cbn [negb]; [|by apply keeps_done].
  pose proof (in_use_not_free _ _ _ Huse Hp Hu) as Hni. destruct (si_pools _ Hinv _ p Hp) as (ord & ca & Hw).
  set (i := uid_index (Connection.pool_id c)) in *. set (p1 := resetRestarting _). rewrite (upd_pool_is _ _ _ _ Hp). cbn [res_bind].
  assert (Hw1 : wf p1 ord ca) by (by apply (wf_msgs p)).
  destruct (hasNoConnection p1).
  2:{ cbn [res_bind void]. apply keeps_done. by eapply svc_inv_set. }
  assert (isClosing p1 = isClosing p) as Hclo.
  { rewrite !flag_closing. unfold p1, resetRestarting. by pool_flags. }
  set (names := if negb (isServerSide p1) && negb (isClosing p1) then delete (name p1) (namemap d) else namemap d).
  set (d1 := if negb (isServerSide p1) && negb (isClosing p1) then _ else _).
  assert (d1 = with_stack (with_namemap (set_pool d i p1) names) (i :: conpoolcachestk d)) as ->.
  { unfold d1, names. by destruct (negb (isServerSide p1) && negb (isClosing p1)). }
  assert (Hkey : name_is_key (with_namemap d names) i = false).
  { destruct (isClosing p) eqn:E.
    - unfold names. rewrite Hclo, andb_false_r. by apply (Hcl p).
    - apply not_true_is_false. intros H.
      assert (Hsub : svc_inv (with_namemap d names)).
      { apply svc_inv_names; [done|]. intros k j. unfold names. destruct (_ && _); [|done]. by intros [_ ?]%lookup_delete_Some. }
      apply key_name in H as (q & Hq & Hne & Hk); [|done]. unfold pool_is in *. cbn [pooldq with_namemap namemap] in *.
      rewrite Hp in Hq. injection Hq as <-. unfold names in Hk. rewrite Hclo in Hk.
      assert (isServerSide p1 = false) as Hss by (by apply bool_decide_eq_false).
      rewrite Hss in Hk. cbn [negb andb] in Hk. change (name p1) with (name p) in Hk. by rewrite lookup_delete_eq in Hk. }
  unfold clear_pool. change (name_is_key (with_stack _ _) i) with (name_is_key (with_namemap d names) i). rewrite Hkey.
  set (d2 := with_stack _ _). assert (Hp2 : pool_is d2 i p1) by (by apply (pool_is_set d i p)).
  rewrite (pool_at_is _ _ _ Hp2). cbn [res_bind]. rewrite (pool_clear_spec _ _ _ _ (wf_lists _ _ _ Hw1)). cbn [res_bind].
  rewrite (upd_pool_is _ _ _ _ Hp2). cbn [res_bind void]. apply keeps_done.
  assert (set_pool d2 i (cleared p1) = mkService names (<[Z.to_nat i := blank (wrap 32 (pool_unique p1 + 1))]> (pooldq d)) (i :: conpoolcachestk d))
    as ->.
  { unfold set_pool, d2, with_pooldq, with_stack, with_namemap. cbn. by rewrite list_insert_insert_eq. }
  apply (svc_inv_recycle (with_namemap d names) i p); [|done|done|done].
  apply svc_inv_names; [done|]. intros k j. unfold names. destruct (_ && _); [|done]. by intros [_ ?]%lookup_delete_Some.
Qed.

(** *** A connection that stops *)

(** The result of [connectionStopping], without the connection and what it is told. *)
Definition stopped (x : res (@stopping World Ser Msg Fn Addr)) : res (World * data) :=
  let! y := x in Done (match y with Stop w d _ _ | StopThrown w d _ => (w, d) end).

(** What the handlers rely on: unless the pool is closed fast, the connection can give its messages
    back; while the pool hands out its one shot messages, the context of the event is the index
    of a message of the queue, or none. *)
Definition can_stopping d c (ctx : option Z) : Prop :=
  forall p ord ca, pool_is d (uid_index (Connection.pool_id c)) p -> pool_unique p = uid_unique (Connection.pool_id c) -> wf p ord ca ->
    (isFastClosing p = false -> can_give_back p c ord ca)
    /\ (isCleaningOneShotMessages p = true -> exists k, ctx = Some k /\ (k = InvalidIndex 64 \/ k ∈ ord)).

Lemma can_give_back_msgs p p' c ord ca : msgvec p' = msgvec p -> can_give_back p c ord ca -> can_give_back p' c ord ca.
Proof using Type.
  clear SE MS WC. intros E (word & wwr & wca & l & ? & ? & ? & [H1 H2 H3]). exists word, wwr, wca, l. split_and!; try done. by split; rewrite ?E.
Qed.

Lemma stopping_set w d c c' i p p' ord ca (r : StopResult) :
  svc_inv d -> pool_is d i p -> (i ∉ conpoolcachestk d) -> wf p' ord ca -> name p' = name p ->
  keeps (void (stopped (let! d := upd_pool d i p' in Done (Stop w d c' r)))).
Proof using Type.
  intros Hinv Hp Hni Hw Hn. rewrite (upd_pool_is _ _ _ _ Hp). cbn [res_bind stopped void]. apply keeps_done. by eapply svc_inv_set.
Qed.

Lemma count_msgs p c : same_msgs p (count_stopping p c).
Proof using Type. clear SE MS WC. unfold count_stopping. destruct (Connection.isActiveState c); by constructor. Qed.

Lemma count_flags p c : pool_flags (count_stopping p c) = pool_flags p.
Proof using Type. clear SE MS WC. unfold count_stopping. by destruct (Connection.isActiveState c). Qed.

(** A pool whose messages and name were kept, after an attempt to create a connection. *)
Lemma create_keeps w d i p p1 ord ca :
  svc_inv d -> pool_is d i p -> (i ∉ conpoolcachestk d) -> wf p1 ord ca -> name p1 = name p ->
  exists w' p2 ok err, doTryCreateNewConnectionForPool w (set_pool d i p1) i = Done (w', set_pool d i p2, ok, err)
    /\ same_msgs p1 p2 /\ wf p2 ord ca /\ name p2 = name p /\ svc_inv (set_pool d i p2).
Proof using Type.
  intros Hinv Hp Hni Hw1 Hn1. pose proof (pool_is_set d i p p1 Hp) as Hp1.
  destruct (create_spec w _ i p1 ord ca Hp1 Hw1) as (w' & p2 & ok & err & E & Hs2 & _). rewrite set_pool_twice in E.
  exists w', p2, ok, err. pose proof (same_msgs_wf _ _ _ _ Hs2 Hw1) as Hw2. assert (name p2 = name p) as Hn2 by (rewrite (sm_name _ _ Hs2); done).
  split_and!; try done. by eapply svc_inv_set.
Qed.

Section Stopping.
Context w d c (o : UniqueId) (ctx : option Z) p ord ca.
Abbreviation i := (uid_index (Connection.pool_id c)).
Hypothesis Hinv : svc_inv d.
Hypothesis Hp : pool_is d i p.
Hypothesis Hni : i ∉ conpoolcachestk d.
Hypothesis Hw : wf p ord ca.

Lemma not_main_keeps : (isFastClosing p = false -> can_give_back p c ord ca) -> keeps (void (stopped (doNonMainConnectionStopping w d c ctx))).
Proof using Hinv Hp Hni Hw.
  intros Hg. unfold doNonMainConnectionStopping. rewrite (pool_at_is _ _ _ Hp). cbn [res_bind]. set (p1 := count_stopping p c).
  pose proof (count_msgs p c) as Hs1. fold p1 in Hs1. pose proof (same_msgs_wf _ _ _ _ Hs1 Hw) as Hw1.
  assert (isFastClosing p1 = isFastClosing p) as -> by (rewrite !flag_fast_closing; unfold p1; by rewrite count_flags).
  destruct (isFastClosing p); cbn [negb]; [by apply (stopping_set _ _ c _ _ p _ ord ca); [..|apply Hs1]|].
  destruct (fetch_resendable_spec p1 c ord ca Hw1) as (p2 & c' & ord2 & ca2 & -> & Hw2 & Hr2 & _); [by apply (can_give_back_msgs p); [apply Hs1|auto]|].
  cbn [res_bind]. rewrite (upd_pool_is _ _ _ _ Hp). cbn [res_bind negb].
  destruct (create_keeps (if isLastConnection p1 && isMainConnectionStopping p1 then (notify w (main_connection_id p1) Connection.eventStopping).1 else w)
    d _ p p2 ord2 ca2 Hinv Hp Hni Hw2) as (w' & p3 & ok & err & -> & _ & _ & _ & H3).
  - destruct (rest_name _ _ Hr2) as (-> & _). apply Hs1.
  - cbn [res_bind stopped void]. by apply keeps_done.
Qed.

Lemma not_last_keeps : (isFastClosing p = false -> can_give_back p c ord ca) -> keeps (void (stopped (doMainConnectionStoppingNotLast w d c ctx))).
Proof using Hinv Hp Hni Hw.
  intros Hg. unfold doMainConnectionStoppingNotLast. rewrite (pool_at_is _ _ _ Hp). cbn [res_bind]. set (p1 := resetMainConnectionActive _).
  assert (Hw1 : wf p1 ord ca) by (by apply (wf_msgs p)).
  assert (isFastClosing p1 = isFastClosing p) as -> by (rewrite !flag_fast_closing; unfold p1, resetMainConnectionActive, setMainConnectionStopping; by pool_flags).
  destruct (isFastClosing p); cbn [negb]; [by apply (stopping_set _ _ c _ _ p _ ord ca)|].
  destruct (fetch_resendable_spec p1 c ord ca Hw1) as (p2 & c' & ord2 & ca2 & -> & Hw2 & Hr2 & _); [by apply (can_give_back_msgs p); [|auto]|].
  cbn [res_bind]. apply (stopping_set _ _ c _ _ p _ ord2 ca2); try done. by destruct (rest_name _ _ Hr2) as (-> & _).
Qed.

(** A message leaves the queue of the pool. *)
Lemma hand_out j s (r : StopResult) : j ∈ ord -> at_idx (vec_data p) j = Some s ->
  keeps (void (stopped (let! p := upd_stub p j (set_bundle (MessageBundle_moved (msgbundle s)) s) in
    let! p := clearPopAndCacheMessage p j in let! d := upd_pool d i p in Done (Stop w d c r)))).
Proof using Hinv Hp Hni Hw.
  intros Hj Hs. assert (Hnc : j ∉ ca) by (eapply tri_disj; [apply Hw|done]).
  destruct (wf_upd p _ _ j s (set_bundle (MessageBundle_moved (msgbundle s)) s) Hw Hs eq_refl Hnc) as (p1 & -> & Hw1 & Hs1 & _). cbn [res_bind].
  apply list_elem_of_split in Hj as (xs & ys & ->).
  destruct (clearPopAndCacheMessage_spec p1 xs j ys ca _ Hw1 (ss_at _ _ _ _ Hs1)) as (p2 & -> & Hw2 & Hs2). cbn [res_bind].
  apply (stopping_set _ _ c _ _ p _ (xs ++ ys) (ca ++ [j])); try done.
  destruct (rest_name _ _ (ss_rest _ _ _ _ Hs2)) as (-> & _). by destruct (rest_name _ _ (ss_rest _ _ _ _ Hs1)) as (-> & _).
Qed.

Lemma one_shot_keeps k : ctx = Some k -> (k = InvalidIndex 64 \/ k ∈ ord) -> keeps (void (stopped (doMainConnectionStoppingCleanOneShot w d c ctx))).
Proof using Hinv Hp Hni Hw.
  intros -> Hk. unfold doMainConnectionStoppingCleanOneShot. rewrite (pool_at_is _ _ _ Hp). cbn [res_bind of_option].
  destruct (Z.eqb_spec k (InvalidIndex 64)) as [_|Hne]; cbn [negb]; [by apply (stopping_set _ _ c _ _ p _ ord ca); [..|apply (wf_msgs p)|]|].
  destruct Hk as [|Hk]; [done|]. pose proof (wf_in_vec _ _ _ _ Hw Hk) as Hv. destruct (in_vec_data _ _ Hv) as [s Hs]. rewrite stub_at_eq, Hs. cbn [of_option res_bind].
  unfold previousIndex. assert (exists x, link InnerLinkOrder (msgvec p) k = Some x) as [x ->] by (unfold link; destruct (in_vec_at _ _ Hv) as [a ->]; by eexists). cbn [fmap option_fmap option_map of_option res_bind].
  destruct (match _ with Some _ => _ | None => _ end); [by apply hand_out|]. cbn [stopped res_bind void]. by apply keeps_done.
Qed.

Lemma clean_all_keeps : keeps (void (stopped (doMainConnectionStoppingCleanAll w d c ctx))).
Proof using Hinv Hp Hni Hw.
  unfold doMainConnectionStoppingCleanAll. rewrite (pool_at_is _ _ _ Hp). cbn [res_bind]. rewrite (order_size _ _ _ Hw), (order_front _ _ _ Hw).
  destruct (Z.eqb_spec (Z.of_nat (length ord)) 0) as [H0|H0]; cbn [negb].
  - apply (stopping_set _ _ c _ _ p _ ord ca); try done; [apply (wf_msgs (count_stopping p c)); try done; by apply (same_msgs_wf p); [apply count_msgs|]|].
    apply (sm_name _ _ (count_msgs p c)).
  - assert (exists j, hd nil_idx ord = j /\ j ∈ ord) as (j & -> & Hj) by (clear -H0; destruct ord as [|j l]; [done|]; exists j; split; [done|left]).
    pose proof (wf_in_vec _ _ _ _ Hw Hj) as Hv. destruct (in_vec_data _ _ Hv) as [s Hs]. rewrite stub_at_eq, Hs. cbn [of_option res_bind].
    by apply hand_out.
Qed.

Lemma prepare_one_shot_keeps : can_give_back p c ord ca -> keeps (void (stopped (doMainConnectionStoppingPrepareCleanOneShot w d c ctx))).
Proof using Hinv Hp Hni Hw.
  intros Hg. unfold doMainConnectionStoppingPrepareCleanOneShot. rewrite (pool_at_is _ _ _ Hp). cbn [res_bind].
  destruct (fetch_resendable_spec p c ord ca Hw Hg) as (p2 & c' & ord2 & ca2 & -> & Hw2 & Hr2 & _). cbn [res_bind negb].
  assert (Hn2 : name p2 = name p) by (by destruct (rest_name _ _ Hr2)).
  destruct (_ =? 0); cbn [negb].
  - apply (stopping_set _ _ c _ _ p _ ord2 ca2); try done; [apply (same_msgs_wf (resetMainConnectionActive p2)); [apply count_msgs|by apply (wf_msgs p2)]|].
    by rewrite (sm_name _ _ (count_msgs _ _)).
  - by apply (stopping_set _ _ c _ _ p _ ord2 ca2); [..|apply (wf_msgs p2)|].
Qed.

Lemma prepare_all_keeps : keeps (void (stopped (doMainConnectionStoppingPrepareCleanAll w d c ctx))).
Proof using Hinv Hp Hni Hw.
  unfold doMainConnectionStoppingPrepareCleanAll. rewrite (pool_at_is _ _ _ Hp). cbn [res_bind]. by apply (stopping_set _ _ c _ _ p _ ord ca); [..|apply (wf_msgs p)|].
Qed.

Lemma restarting_keeps : keeps (void (stopped (doMainConnectionRestarting w d c o ctx))).
Proof using Hinv Hp Hni Hw.
  unfold doMainConnectionRestarting. rewrite (pool_at_is _ _ _ Hp). cbn [res_bind]. set (p1 := if Connection.isConnected c then _ else _).
  assert (Hs1 : same_msgs p p1).
  { pose proof (count_msgs p c) as []. unfold p1. destruct (Connection.isConnected c); by constructor. }
  pose proof (same_msgs_wf _ _ _ _ Hs1 Hw) as Hw1. unfold hasAnyMessage. rewrite (hasNoMessage_spec _ _ _ Hw1). cbn [res_bind].
  destruct (negb _); [|by apply (stopping_set _ _ c _ _ p _ ord ca); [..|apply Hs1]].
  set (p2 := with_waitingq p1 []). assert (Hw2 : wf p2 ord ca) by (by apply (wf_msgs p1)).
  assert (Hn2 : name p2 = name p) by apply Hs1. rewrite (upd_pool_is _ _ _ _ Hp). cbn [res_bind].
  assert (exists w' p3 ok, (if Z.land (retry_connect_count p2) 1 =? 0
      then let! y := doTryCreateNewConnectionForPool w (set_pool d i p2) i in let '(w, d, success, _) := y in Done (w, d, success)
      else Done (w, set_pool d i p2, false)) = Done (w', set_pool d i p3, ok) /\ wf p3 ord ca /\ name p3 = name p) as (w' & p3 & ok & -> & Hw3 & Hn3).
  { destruct (_ =? 0); [|by exists w, p2, false]. destruct (create_keeps w d _ p p2 ord ca Hinv Hp Hni Hw2 Hn2) as (w' & p3 & ok & err & -> & _ & Hw3 & Hn3 & _).
    by exists w', p3, ok. }
  cbn [res_bind]. pose proof (pool_is_set d i p p3 Hp) as Hp3. rewrite (pool_at_is _ _ _ Hp3). cbn [res_bind].
  assert (Hinv3 : svc_inv (set_pool d i p3)) by (by eapply svc_inv_set).
  destruct ok; cbn [negb]; [by apply (stopping_set _ _ c _ _ p3 _ ord ca); [..|apply (wf_msgs p3)|]|].
  apply (stopping_set _ _ c _ _ p3 _ ord ca); try done; unfold uncount_stopping; destruct (Connection.isActiveState c); try done; by apply (wf_msgs p3).
Qed.

End Stopping.

(** A connection is about to stop: it hands its messages to its pool, the last one hands out those
    of the pool or starts another connection. *)
Lemma stopping_keeps w d c (o : UniqueId) (ctx : option Z) (err : option Error) :
  svc_inv d -> known d (Connection.pool_id c) -> in_use d (Connection.pool_id c) -> can_stopping d c ctx ->
  keeps (void (stopped (connectionStopping w d c o ctx err))).
Proof using Type.
  intros Hinv [p Hp] Huse Hcan. unfold connectionStopping. rewrite (pool_at_is _ _ _ Hp). cbn [res_bind].
  destruct (Z.eqb_spec (pool_unique p) (uid_unique (Connection.pool_id c))) as [Hu|Hu]; cbn [negb]; [|by apply keeps_done].
  pose proof (in_use_not_free _ _ _ Huse Hp Hu) as Hni. destruct (si_pools _ Hinv _ p Hp) as (ord & ca & Hw).
  destruct (Hcan p ord ca Hp Hu Hw) as [Hg Hk].
  destruct (isMainConnection p o); cbn [negb]; [|by apply (not_main_keeps w d c ctx p ord ca)].
  destruct (isLastConnection p); cbn [negb]; [|by apply (not_last_keeps w d c ctx p ord ca)].
  destruct (isCleaningOneShotMessages p); [destruct (Hk eq_refl) as (k & Ek & Hk'); by apply (one_shot_keeps w d c ctx p ord ca Hinv Hp Hni Hw k)|].
  destruct (isCleaningAllMessages p); [by apply (clean_all_keeps w d c ctx p ord ca)|].
  destruct (isRestarting p && isRunning w); [by apply (restarting_keeps w d c o ctx p ord ca)|].
  destruct (isFastClosing p); cbn [negb andb]; [by apply (prepare_all_keeps w d c ctx p ord ca)|].
  destruct (_ && _); [apply (prepare_one_shot_keeps w d c ctx p ord ca); auto|by apply (prepare_all_keeps w d c ctx p ord ca)].
Qed.

(** What a poll relies on: nothing in the pool is canceled, the messages sent to this very
    connection that are still there are in no list of the pool, its writer satisfies its
    invariant, and the message it has completed is none of them and, if it is still known to the
    pool, is in none of its lists. *)
Record can_poll d c (id : MessageId) : Prop := {
  cp_index : 0 <= index id;
  cp_pending : index id ∉ index <$> Connection.pending_message_vec c;
  cp_pool p : pool_is d (uid_index (Connection.pool_id c)) p -> pool_unique p = uid_unique (Connection.pool_id c) ->
    exists ord ca word wwr wca, wf p ord ca /\ none_canceled p ord /\ own p ord ca (Connection.pending_message_vec c)
      /\ WriterProofs.wf (Connection.msg_writer c) word wwr wca
      /\ Z.of_nat (length (MessageWriter.message_vec (Connection.msg_writer c)))
           + Z.of_nat (length (Connection.pending_message_vec c)) + Z.of_nat (length ord) + 1 < nil_idx
      /\ forall s, at_idx (vec_data p) (index id) = Some s -> unique s = unique_ id -> (index id ∉ ord) /\ index id ∉ ca
}.

(** The result of a poll, without the connection. *)
Definition poll_result w d c (o : UniqueId) (id : MessageId) : res (World * data * option Error) :=
  let! x := pollPoolForUpdates w d c o id in
  let '(w, d, _, e) := x in Done (w, d, e).

Lemma poll_keeps w d c (o : UniqueId) (id : MessageId) :
  svc_inv d -> known d (Connection.pool_id c) -> in_use d (Connection.pool_id c) -> can_poll d c id ->
  keeps (poll_result w d c o id).
Proof using Type.
  intros Hinv [p Hp] Huse [Hid Hpend Hpool]. unfold poll_result.
  destruct (decide (pool_unique p = uid_unique (Connection.pool_id c))) as [Hu|Hu].
  - destruct (Hpool p Hp Hu) as (ord & ca & word & wwr & wca & Hw & Hnc & Hown & Hww & Hb & Hdet).
    destruct (poll_spec w d _ p c o id ord ca word wwr wca Hp) as
      (w' & p' & c' & given & later & taken & left & ca' & idxs & wca' & -> & _ & _ & _ & _ & Hw' & _ & _ & _ & _ & Hn); try done.
    { rewrite Hu. by destruct (Connection.pool_id c). }
    cbn [res_bind]. apply keeps_done. eapply svc_inv_set; [done|done|by eapply in_use_not_free|done|done].
  - unfold pollPoolForUpdates. rewrite (pool_at_is _ _ _ Hp). cbn [res_bind].
    rewrite (proj2 (Z.eqb_neq _ _) Hu). cbn [negb res_bind]. by apply keeps_done.
Qed.

(** ** The state machine *)

Inductive op : Type :=
  | OpSend (nm : option string) (rid : RecipientId) (m : option Msg) (fnc : option Fn) (rp ri : bool) (fl : Z)
  | OpClose (fast : bool) (rid : RecipientId) (fnc : option Fn)
  | OpAccept (sd : Sock)
  | OpActivate (c : con) (o : UniqueId)
  | OpReject (c : con)
  | OpPoll (c : con) (o : UniqueId) (id : MessageId)
  | OpStopping (c : con) (o : UniqueId) (ctx : option Z) (err : option Error)
  | OpStop (c : con).

Definition forget {R : Type} (x : res (World * data * R)) : res (World * data) := let! r := x in Done r.1.

Definition run_op w d (o : op) : res (World * data) :=
  match o with
  | OpSend nm rid m fnc rp ri fl => forget (doSendMessage w d nm rid m fnc rp ri fl)
  | OpClose fast rid fnc => forget (closeConnectionPool fast w d rid fnc)
  | OpAccept sd => acceptIncomingConnection w d sd
  | OpActivate c o => forget (activateConnection w d c o)
  | OpReject c => rejectNewPoolMessage w d c
  | OpPoll c o id => forget (poll_result w d c o id)
  | OpStopping c o ctx err => stopped (connectionStopping w d c o ctx err)
  | OpStop c => let! d := connectionStop d c in Done (w, d)
  end.

(** How the operations are meant to be called: ids are outdated or those of pools in use; a new
    pool is asked for while there is one; a connection leaves its pool after it was counted among
    those that stop; a closing pool has lost its name before its last connection leaves it. *)
Definition enabled d (o : op) : Prop :=
  match o with
  | OpSend nm rid _ _ _ _ _ => 0 <= uid_index (poolid rid) /\ in_use d (poolid rid)
      /\ forall n, nm = Some n -> namemap d !! n = None -> n <> EmptyString /\ available d
  | OpClose _ rid _ => known d (poolid rid) /\ in_use d (poolid rid)
  | OpAccept _ => available d
  | OpActivate c _ | OpReject c => known d (Connection.pool_id c) /\ in_use d (Connection.pool_id c)
  | OpPoll c _ id => known d (Connection.pool_id c) /\ in_use d (Connection.pool_id c) /\ can_poll d c id
  | OpStopping c _ ctx _ => known d (Connection.pool_id c) /\ in_use d (Connection.pool_id c) /\ can_stopping d c ctx
  | OpStop c => known d (Connection.pool_id c) /\ in_use d (Connection.pool_id c)
      /\ forall p, pool_is d (uid_index (Connection.pool_id c)) p ->
           (pool_unique p = uid_unique (Connection.pool_id c) -> 0 < stopping_connection_count p)
           /\ (isClosing p = true -> name_is_key d (uid_index (Connection.pool_id c)) = false)
  end.

(** The states the service reaches. *)
Inductive reachable : World -> data -> Prop :=
  | reachable_new w : reachable w Data_new
  | reachable_step w d o w' d' : reachable w d -> enabled d o -> run_op w d o = Done (w', d') -> reachable w' d'
  | reachable_env w d w' : reachable w d -> reachable w' d.

Lemma keeps_forget {R : Type} (x : res (World * data * R)) :
  keeps x -> exists w' d', forget x = Done (w', d') /\ svc_inv d'.
Proof using Type. intros (w' & d' & r & -> & H). by exists w', d'. Qed.

Lemma keeps_void (x : res (World * data)) : keeps (void x) -> exists w' d', x = Done (w', d') /\ svc_inv d'.
Proof using Type. intros (w' & d' & r & E & H). destruct x as [[w1 d1]| |]; [|done..]. injection E as <- <- <-. by exists w1, d1. Qed.

Lemma run_op_keeps w d (o : op) :
  pool_max_message_queue_size < nil_idx -> svc_inv d -> enabled d o ->
  exists w' d', run_op w d o = Done (w', d') /\ svc_inv d'.
Proof using Type.
  intros Hmax Hinv Hen. destruct o; cbn [run_op enabled] in *.
  - destruct Hen as (H0 & Hu & Hn). by apply keeps_forget, doSendMessage_keeps.
  - destruct Hen. by apply keeps_forget, close_keeps.
  - by apply keeps_void, accept_keeps.
  - destruct Hen. by apply keeps_forget, activate_keeps.
  - destruct Hen. by apply keeps_void, reject_keeps.
  - destruct Hen as (? & ? & ?). by apply keeps_forget, poll_keeps.
  - destruct Hen as (? & ? & ?). by apply keeps_void, stopping_keeps.
  - destruct Hen as (? & ? & Hs). apply keeps_void, stop_keeps; [done..|]. intros p Hp. by apply Hs.
Qed.

(** C13: in every state the service reaches from the empty one by sends (to names, pools and
    connections, old or new), closing pools, accepting, activating and refusing connections,
    polls, and connections that stop ([connectionStopping], in all its branches) and then leave
    their pool ([connectionStop]), in any order and with any behaviour of the manager, scheduler
    and resolver, as long as they are called as [enabled] says: all pools are well-formed; the free
    pools are blank, each once on the stack; a name leads to the pool of this name. And in every
    such state each of these operations, called so, returns without undefined behaviour. Canceling
    is not among them. *)
Theorem service_invariant w d (o : op) :
  pool_max_message_queue_size < nil_idx -> reachable w d ->
  svc_inv d /\ (enabled d o -> exists w' d', run_op w d o = Done (w', d') /\ reachable w' d' /\ svc_inv d').
Proof using Type.
  intros Hmax Hr. assert (Hinv : svc_inv d).
  { induction Hr as [w|w d o' w' d' Hr IH Hen E|w d w' Hr IH]; [apply svc_inv_new| |done].
    destruct (run_op_keeps w d o' Hmax IH Hen) as (w1 & d1 & E1 & H1). rewrite E in E1. by injection E1 as -> ->. }
  split; [done|]. intros Hen. destruct (run_op_keeps w d o Hmax Hinv Hen) as (w' & d' & E & H).
  exists w', d'. split; [done|]. split; [|done]. by eapply reachable_step.
Qed.

End Invariant.

(** ** Witness

    A connection is accepted, stops in two steps and leaves its pool, which goes back to the
    stack. *)

Abbreviation srv_op := (@op (list Z) (list Z) unit unit).

Definition srv_next (x : toy_events * Data (list Z) unit Z) (o : srv_op) : toy_events * Data (list Z) unit Z :=
  of_res x (run_op x.1 x.2 o).

Definition srv_stopping : srv_op := OpStopping peer_con main_id None None.
Definition srv_accepted := srv_next ([], Data_new) (OpAccept tt).
Definition srv_cleaning := srv_next srv_accepted srv_stopping.
Definition srv_stopped := srv_next srv_cleaning srv_stopping.

(** The only pool that was taken has the index 0. *)
Lemma srv_steps x : x = srv_accepted \/ x = srv_cleaning -> enabled x.2 srv_stopping /\ run_op x.1 x.2 srv_stopping = Done (srv_next x srv_stopping).
Proof.
  intros Hx. split; [|destruct Hx as [-> | ->]; vm_compute; reflexivity]. split_and!.
  - destruct Hx as [-> | ->]; vm_compute; eauto.
  - intros p Hp _. split; [destruct Hx as [-> | ->]; vm_compute; set_solver|]. destruct Hx as [-> | ->]; vm_compute in Hp; injection Hp as <-; done.
  - intros p ord ca Hp _ Hw. split; [|destruct Hx as [-> | ->]; vm_compute in Hp; injection Hp as <-; done]. intros _. exists [], [], [], [].
    split_and!; [apply WriterProofs.w_wf_new|by intros i s Hi%elem_of_nil|constructor|].
    split; [by intros s i Hs%elem_of_nil|constructor|]. destruct Hx as [-> | ->]; vm_compute in Hp; injection Hp as <-; done.
Qed.

Lemma srv_reachable : reachable (Ser := list Z) (Sock := unit) srv_stopped.1 srv_stopped.2.
Proof.
  assert (H1 : reachable (Ser := list Z) (Sock := unit) srv_accepted.1 srv_accepted.2).
  { eapply (reachable_step [] Data_new (OpAccept tt)); [constructor|right; split; [done|cbn; lia]|vm_compute; reflexivity]. }
  destruct (srv_steps srv_accepted) as [E1 R1]; [by left|]. destruct (srv_steps srv_cleaning) as [E2 R2]; [by right|].
  eapply reachable_step; [eapply reachable_step; [exact H1|exact E1|exact R1]|exact E2|exact R2].
Qed.

Lemma service_invariant_witness : conpoolcachestk srv_stopped.2 = [1] /\
  exists w' d', run_op srv_stopped.1 srv_stopped.2 (OpStop peer_con : srv_op) = Done (w', d') /\ conpoolcachestk d' = [0; 1] /\ svc_inv d'.
Proof.
  split; [reflexivity|]. destruct (service_invariant (Ser := list Z) srv_stopped.1 srv_stopped.2 (OpStop peer_con)) as [_ H]; [done|exact srv_reachable|].
  destruct H as (w' & d' & E & _ & Hinv).
  - split_and!; [vm_compute; eauto| |].
    + intros p Hp _. split; [vm_compute; set_solver|]. vm_compute in Hp. injection Hp as <-. done.
    + intros p Hp. vm_compute in Hp. injection Hp as <-. done.
  - exists w', d'. split; [exact E|]. split; [|done]. vm_compute in E. injection E as <- <-. reflexivity.
Defined.

End ServiceInvariant.
