(* ===== verification/ConnectionStop.v ===== *)
(** * A connection that stops

    solid/frame/mpipc/src/mpipcconnection.cpp: how a connection stops. [doStop] asks the
    service whether it may ([Service.connectionStopping]); then the connection completes the
    messages its writer still has and the ones sent to it, one per turn of the reactor
    ([doCompleteAllMessages]), asks the service again until it may stop, completing the
    messages the service hands out ([doContinueStopping]), and at last leaves its pool
    ([onStopped]). Also the handlers of the events that cancel messages, and of the keep-alive
    packets and timers.

    What a handler posts to the reactor, or waits for with its timer, is a [task], which it
    returns. The completion functions are parameters; they change the world, and do not call
    the service or the connection. *)

From stdpp Require Import strings gmap.
From S2P Require Import Prelude InnerList Packet MessageWriter Pool Connection Service.
Import Pool Service.
Import MessageWriter(MessageId, mkMessageId, index, unique_, MessageId_clear,
  MessageBundle, mkBundle, message_type_id, message_flags, message_ptr, complete_fnc,
  MessageBundle_clear, set_flags, WriterConfiguration, MessageState, WriterEnv).
Import Connection(Flags.HasActivity, Flags.Keepalive, Flags.WaitKeepAliveTimer).
#[local] Open Scope res_scope.

Module ConnectionStop.

(** What the completion functions get of the context of the connection. *)
Record CompleteContext := mkCompleteContext { ctx_flags : Z; ctx_message_id : MessageId }.

(** [run_complete_fnc] calls the completion function of a bundle, [run_protocol_fnc] the one
    registered for a message type; they get the message sent and the one received.
    [on_connection_stop] is [connection_stop_fnc] of the configuration. *)
Class ConnectionEnv (World Msg Fn : Type) := {
  run_complete_fnc : World -> Fn -> CompleteContext -> option Msg -> option Msg -> option Error -> World;
  run_protocol_fnc : World -> Z -> CompleteContext -> option Msg -> option Msg -> option Error -> World;
  on_connection_stop : World -> World;
  connection_inactivity_timeout_seconds : Z;
  connection_keepalive_timeout_seconds : Z;
  connection_inactivity_keepalive_count : Z
}.

Section ConnectionStop.
Context {World Ser Msg Fn Err Addr Cb Sock : Type} {WC : WriterConfiguration} {MS : MessageState Msg}
  {SE : ServiceEnv World Msg Addr Cb Sock} {WE : WriterEnv World Ser Msg Fn Err}
  {CE : ConnectionEnv World Msg Fn}.

Abbreviation bundle := (MessageBundle Msg Fn).
Abbreviation Connection := (Connection.Connection Ser Msg Fn).

(** The object the reactor runs: the connection with its error and its count of keep-alive
    packets, in the world and the service it runs in. *)
Record State := mkState {
  st_world : World;
  st_data : Data Msg Fn Addr;
  st_con : Connection;
  st_err : option Error;
  recv_keepalive_count : Z
}.

Definition with_st (s : State) (w : World) (d : Data Msg Fn Addr) (c : Connection) : State :=
  mkState w d c (st_err s) (recv_keepalive_count s).

Definition with_world (s : State) (w : World) : State := with_st s w (st_data s) (st_con s).
Definition with_con (s : State) (c : Connection) : State := with_st s (st_world s) (st_data s) c.

Definition with_err (s : State) (e : option Error) : State :=
  mkState (st_world s) (st_data s) (st_con s) e (recv_keepalive_count s).

Definition with_count (s : State) (n : Z) : State :=
  mkState (st_world s) (st_data s) (st_con s) (st_err s) n.

(** What is posted to the reactor, or waits for the timer. *)
Inductive task : Type :=
  | CompleteAllMessages (_offset : nat) (_can_stop : bool) (_seconds_to_wait : Z) (_rerr : Error) (_revent : option Z)
  | ContinueStopping (_revent : option Z)
  | WaitContinueStopping (seconds_to_wait : Z) (_revent : option Z)
  | PostStop
  | PostSend
  | PostStopError (_rerr : Error)
  | WaitInactivity (seconds : Z)
  | WaitKeepalive (seconds : Z).

(** How a handler ends. *)
Inductive handled : Type :=
  | Handled (s : State) (ts : list task)
  | HandlerThrown (s : State).

(** [doCompleteMessage] of a message that was sent, or could not be. *)
Definition doCompleteMessage (w : World) (_rpool_msg_id : MessageId) (_rmsg_bundle : bundle) (_rerror : option Error)
  : World :=
  let conctx := mkCompleteContext (message_flags _rmsg_bundle) _rpool_msg_id in
  match complete_fnc _rmsg_bundle with
  | Some f => run_complete_fnc w f conctx (message_ptr _rmsg_bundle) None _rerror
  | None => run_protocol_fnc w (message_type_id _rmsg_bundle) conctx (message_ptr _rmsg_bundle) None _rerror
  end.

(** The test before the completion of what [connectionStopping] has handed out. *)
Definition has_content (b : bundle) : bool :=
  negb (bool_decide (message_ptr b = None)) || negb (bool_decide (complete_fnc b = None)).

Definition complete_stopping (w : World) (r : @StopResult Msg Fn) : World :=
  if has_content (stop_bundle r) then
    doCompleteMessage w (stop_msg_id r) (stop_bundle r) (Some error_message_connection)
  else w.

(** ** Stopping *)

Definition doStop (s : State) (uid : UniqueId) (_rerr : Error) : res handled :=
  let c := st_con s in
  if Connection.isStopping c then Done (Handled s [])
  else
    let s := with_err s (Some _rerr) in
    let c := Connection.set_flag c Connection.Flags.Stopping in
    let! x := connectionStopping (st_world s) (st_data s) c uid None (st_err s) in
    match x with
    | StopThrown w d c => Done (HandlerThrown (with_st s w d c))
    | Stop w d c r =>
        let s := with_st s (complete_stopping w r) d c in
        let has_no_message :=
          bool_decide (Connection.pending_message_vec c = []) && MessageWriter.empty (Connection.msg_writer c) in
        Done (Handled s
          (if can_stop r && has_no_message then [PostStop]
           else if has_no_message then
             if negb (seconds_to_wait r =? 0) then [WaitContinueStopping (seconds_to_wait r) (event_context r)]
             else [ContinueStopping (event_context r)]
           else [CompleteAllMessages 0 (can_stop r) (seconds_to_wait r) error_message_connection (event_context r)]))
    end.

(** The end of [doCompleteAllMessages]. *)
Definition after_messages (_can_stop : bool) (_seconds_to_wait : Z) (_revent : option Z) : task :=
  if _can_stop then PostStop
  else if negb (_seconds_to_wait =? 0) then WaitContinueStopping _seconds_to_wait _revent
  else ContinueStopping _revent.

Definition doCompleteAllMessages (s : State) (_offset : nat) (_can_stop : bool) (_seconds_to_wait : Z)
    (_rerr : Error) (_revent : option Z) : res handled :=
  let c := st_con s in
  let again n := [CompleteAllMessages n _can_stop _seconds_to_wait _rerr _revent] in
  let last := [after_messages _can_stop _seconds_to_wait _revent] in
  if negb (MessageWriter.empty (Connection.msg_writer c)) then
    let! x := MessageWriter.cancelOldest (Connection.msg_writer c) in
    let '(m, r) := x in
    let c := Connection.with_writer c m in
    let w := match r with
             | Some (msg_bundle, pool_msg_id) => doCompleteMessage (st_world s) pool_msg_id msg_bundle (Some _rerr)
             | None => st_world s
             end in
    let has_any_message :=
      negb (MessageWriter.empty m) || negb (bool_decide (Connection.pending_message_vec c = [])) in
    Done (Handled (with_st s w (st_data s) c) (if has_any_message then again _offset else last))
  else
    match Connection.pending_message_vec c !! _offset with
    | Some id =>
        let! x := fetchCanceledMessage (st_data s) c id in
        let '(d, r) := x in
        let w := match r with
                 | Some msg_bundle => doCompleteMessage (st_world s) id msg_bundle (Some _rerr)
                 | None => st_world s
                 end in
        if (S _offset =? length (Connection.pending_message_vec c))%nat then
          Done (Handled (with_st s w d (Connection.with_pending c [])) last)
        else Done (Handled (with_st s w d c) (again (S _offset)))
    | None => Done (Handled s last)
    end.

Definition doContinueStopping (s : State) (uid : UniqueId) (_revent : option Z) : res handled :=
  let! x := connectionStopping (st_world s) (st_data s) (st_con s) uid _revent (st_err s) in
  match x with
  | StopThrown w d c => Done (HandlerThrown (with_st s w d c))
  | Stop w d c r =>
      let s := with_st s (complete_stopping w r) d c in
      Done (Handled s
        (if can_stop r then [PostStop]
         else if negb (seconds_to_wait r =? 0) then [WaitContinueStopping (seconds_to_wait r) _revent]
         else [ContinueStopping (event_context r)]))
  end.

Definition onStopped (s : State) : res State :=
  let! d := connectionStop (st_data s) (st_con s) in
  Done (with_st s (on_connection_stop (st_world s)) d (st_con s)).

(** ** Events *)

(** [doHandleEventKill] *)
Definition doHandleEventKill (s : State) (uid : UniqueId) : res handled := doStop s uid error_connection_killed.

Definition doHandleEventCancelConnMessage (s : State) (pmsgid : MessageId) : res handled :=
  let! x := MessageWriter.cancel (Connection.msg_writer (st_con s)) pmsgid in
  let '(m, r) := x in
  let s := with_con s (Connection.with_writer (st_con s) m) in
  Done (Handled
    match r with
    | Some (msg_bundle, pool_msg_id) =>
        with_world s (doCompleteMessage (st_world s) pool_msg_id msg_bundle (Some error_message_canceled))
    | None => s
    end []).

Definition doHandleEventCancelPoolMessage (s : State) (pmsgid : MessageId) : res handled :=
  let! x := fetchCanceledMessage (st_data s) (st_con s) pmsgid in
  let '(d, r) := x in
  Done (Handled
    (with_st s
       match r with
       | Some msg_bundle => doCompleteMessage (st_world s) pmsgid msg_bundle (Some error_message_canceled)
       | None => st_world s
       end d (st_con s)) []).

(** The branch of [doHandleEventNewConnMessage] for a connection that stops. *)
Definition new_message_while_stopping (s : State) (pmsgid : MessageId) : res handled :=
  let! x := fetchCanceledMessage (st_data s) (st_con s) pmsgid in
  let '(d, r) := x in
  Done (Handled
    (with_st s
       match r with
       | Some msg_bundle => doCompleteMessage (st_world s) pmsgid msg_bundle (Some error_connection_stopping)
       | None => st_world s
       end d (st_con s)) []).

(** ** Timers and keep-alive packets *)

Definition doResetTimerStart (s : State) : State * list task :=
  let c := st_con s in
  if Connection.isServer c then
    if negb (connection_inactivity_timeout_seconds =? 0) then
      (with_count (with_con s (Connection.reset_flag c Connection.Flags.HasActivity)) 0,
       [WaitInactivity connection_inactivity_timeout_seconds])
    else (s, [])
  else if negb (connection_keepalive_timeout_seconds =? 0) then
    (with_con s (Connection.set_flag c Connection.Flags.WaitKeepAliveTimer),
     [WaitKeepalive connection_keepalive_timeout_seconds])
  else (s, []).

Definition doResetTimerSend (s : State) : State * list task :=
  let c := st_con s in
  if Connection.isServer c then
    if negb (connection_inactivity_timeout_seconds =? 0) then
      (with_con s (Connection.set_flag c Connection.Flags.HasActivity), [])
    else (s, [])
  else if negb (connection_keepalive_timeout_seconds =? 0) && Connection.isWaitingKeepAliveTimer c then
    (s, [WaitKeepalive connection_keepalive_timeout_seconds])
  else (s, []).

Definition doResetTimerRecv (s : State) : State * list task :=
  let c := st_con s in
  if Connection.isServer c then
    if negb (connection_inactivity_timeout_seconds =? 0) then
      (with_con s (Connection.set_flag c Connection.Flags.HasActivity), [])
    else (s, [])
  else if negb (connection_keepalive_timeout_seconds =? 0) && negb (Connection.isWaitingKeepAliveTimer c) then
    (with_con s (Connection.set_flag c Connection.Flags.WaitKeepAliveTimer),
     [WaitKeepalive connection_keepalive_timeout_seconds])
  else (s, []).

Definition onTimerInactivity (s : State) (uid : UniqueId) : res handled :=
  let c := st_con s in
  if Connection.has_flag c Connection.Flags.HasActivity then
    Done (Handled (with_count (with_con s (Connection.reset_flag c Connection.Flags.HasActivity)) 0)
            [WaitInactivity connection_inactivity_timeout_seconds])
  else doStop s uid error_connection_inactivity_timeout.

Definition onTimerKeepalive (s : State) : State * list task :=
  let c := Connection.set_flag (st_con s) Connection.Flags.Keepalive in
  (with_con s (Connection.reset_flag c Connection.Flags.WaitKeepAliveTimer), [PostSend]).

(** [doCompleteKeepalive]; [recv_keepalive_count] is an [uint32_t]. *)
Definition doCompleteKeepalive (s : State) : State * list task :=
  let c := st_con s in
  if Connection.isServer c then
    let n := wrap 32 (recv_keepalive_count s + 1) in
    if n <? connection_inactivity_keepalive_count then
      (with_count (with_con s (Connection.set_flag c Connection.Flags.Keepalive)) n, [PostSend])
    else (with_count s 0, [PostStopError error_connection_too_many_keepalive_packets_received])
  else (s, []).

(** ** The reactor

    Runs the task that is posted until the connection has stopped; a timer that is waited for
    runs out, or is canceled, and then runs its task too. *)
Definition run_task (s : State) (uid : UniqueId) (t : task) : res (State * option task) :=
  let next x :=
    let! r := x in
    match r with
    | Handled s ts => Done (s, head ts)
    | HandlerThrown _ => Undef
    end in
  match t with
  | CompleteAllMessages off can secs err ev => next (doCompleteAllMessages s off can secs err ev)
  | ContinueStopping ev => next (doContinueStopping s uid ev)
  | WaitContinueStopping _ ev => next (doContinueStopping s uid ev)
  | PostStop => let! s := onStopped s in Done (s, None)
  | _ => Done (s, None)
  end.

Fixpoint run_tasks (fuel : nat) (s : State) (uid : UniqueId) (t : option task) : res State :=
  match t with
  | None => Done s
  | Some t =>
      match fuel with
      | O => NoFuel
      | S fuel => let! x := run_task s uid t in run_tasks fuel x.1 uid x.2
      end
  end.

End ConnectionStop.

End ConnectionStop.
