(* ===== verification/ConnectionStopProofs.v ===== *)
(** * Stopping connections complete every message

    What happens when the last connection of a pool stops for good (ConnectionStop.v with
    Service.v): every message the connection still has, every message sent to it, and every
    message of the pool is completed exactly once; then the pool is recycled. *)

From stdpp Require Import strings gmap.
From S2P Require Import Prelude InnerList TriList Packet MessageWriter MessageWriterProofs Pool PoolProofs Connection Service ServiceProofs ServiceLife ConnectionStop.
Import InnerList TriList Pool PoolProofs Service ServiceProofs ServiceLife ConnectionStop.
Import MessageWriter(MessageId, mkMessageId, index, unique_, MessageId_clear,
  MessageBundle, mkBundle, message_type_id, message_flags, message_ptr, complete_fnc,
  MessageBundle_moved, set_flags, WriterConfiguration, MessageState, WriterEnv).
#[local] Open Scope res_scope.
#[local] Set Warnings "-clear-no-such-hyp".

Module ConnectionStopProofs.

Section Proofs.
Context {World Ser Msg Fn Err Addr Cb Sock : Type} {WC : WriterConfiguration} {MS : MessageState Msg}
  {SE : ServiceEnv World Msg Addr Cb Sock} {WE : WriterEnv World Ser Msg Fn Err}
  {CE : ConnectionEnv World Msg Fn}.

Abbreviation pool := (ConnectionPoolStub Msg Fn Addr).
Abbreviation bundle := (MessageBundle Msg Fn).
Abbreviation data := (Data Msg Fn Addr).
Abbreviation con := (Connection.Connection Ser Msg Fn).
Abbreviation writer := (MessageWriter.MessageWriter Ser Msg Fn).
Abbreviation wwf := WriterProofs.wf.
Abbreviation item := (MessageId * bundle)%type.
Implicit Types (p : pool) (d : data) (c : con) (m : writer) (b : bundle) (w : World) (i j : Z) (ord ca : list Z).

(** The completions of a list of messages, in this order. *)
Definition completes w (l : list item) : World :=
  fold_left (fun w x => doCompleteMessage w x.1 x.2 (Some error_message_connection)) l w.

Lemma completes_app w l l' : completes w (l ++ l') = completes (completes w l) l'.
Proof using Type. apply fold_left_app. Qed.

(** The messages to complete: of the writer, of those sent to the connection, of the pool. *)
Definition writer_items m (word : list Z) : list item :=
  omap (fun i => (fun s => (MessageWriter.pool_msg_id s, WriterProofs.canceled_bundle s))
                 <$> at_idx (WriterProofs.vec_data m) i) word.

Definition sent_items p (ids : list MessageId) : list item :=
  omap (fun id => (fun s => (id, msgbundle s)) <$> at_idx (vec_data p) (index id)) ids.

Definition pool_items p ord : list item :=
  filter (fun x => has_content x.2 = true)
    (omap (fun i => (fun s => (mkMessageId i (unique s), msgbundle s)) <$> at_idx (vec_data p) i) ord).

Lemma omap_ext_in {A B : Type} (f g : A -> option B) (l : list A) :
  (forall x, x ∈ l -> f x = g x) -> omap f l = omap g l.
Proof using Type.
  clear. induction l as [|x l IH]; intros H; [done|]. cbn. rewrite (H x) by left.
  rewrite IH; [done|]. intros y Hy. apply H. by right.
Qed.

Lemma pool_items_ext p p' ord :
  (forall j, j ∈ ord -> at_idx (vec_data p') j = at_idx (vec_data p) j) -> pool_items p' ord = pool_items p ord.
Proof using Type. intros H. unfold pool_items. f_equal. apply omap_ext_in. intros j Hj. by rewrite H. Qed.

Lemma sent_items_ext p p' (ids : list MessageId) :
  (forall id, id ∈ ids -> at_idx (vec_data p') (index id) = at_idx (vec_data p) (index id)) ->
  sent_items p' ids = sent_items p ids.
Proof using Type. intros H. apply omap_ext_in. intros id Hid. by rewrite H. Qed.

(** ** The pool *)

(** The service after the pool [i] was recycled. *)
Definition recycled d i p : data :=
  mkService (namemap d) (<[Z.to_nat i := cleared p]> (pooldq d)) (i :: conpoolcachestk d).

Lemma recycled_set d i p p' : pool_unique p' = pool_unique p -> recycled (set_pool d i p') i p' = recycled d i p.
Proof using Type.
  intros E. unfold recycled, set_pool, with_pooldq. cbn. rewrite list_insert_insert_eq. unfold cleared. by rewrite E.
Qed.

Lemma con_pool_set d i p p' c : con_pool d i p c -> pool_unique p' = pool_unique p -> con_pool (set_pool d i p') i p' c.
Proof using Type. intros [Hp Hid] E. split; [by eapply pool_is_set|]. by rewrite E. Qed.

(** The pool hands out its messages, then the connection leaves it. *)
Lemma drain_spec (uid : UniqueId) c (err : option Error) (n : Z) i ord fuel :
  forall p ca d w, con_pool d i p c -> last_con p c uid -> cleaning p -> isClosing p = true -> wf p ord ca ->
  (length ord + 2 <= fuel)%nat ->
  run_tasks fuel (mkState w d c err n) uid (Some (ContinueStopping None))
  = if name_is_key d i then Undef
    else Done (mkState (on_connection_stop (completes w (pool_items p ord))) (recycled d i p) c err n).
Proof using Type.
  revert ord. induction fuel as [|fuel IH]; intros ord p ca d w Hc Hl Hcl Hclo Hw Hf; [lia|].
  cbn [run_tasks run_task]. unfold doContinueStopping. cbn [st_world st_data st_con st_err].
  destruct ord as [|j ord].
  - destruct (clean_all_end w d i p c uid None err ca Hc Hl Hcl Hw) as (p' & -> & Hs & Hclo' & Ha & Hpe & Hst).
    cbn [res_bind can_stop stop_result head fst snd]. destruct fuel as [|fuel]; [cbn in Hf; lia|]. cbn [run_tasks run_task].
    pose proof (sm_unique _ _ Hs) as Hu. unfold onStopped, complete_stopping, with_st. cbn [stop_bundle stop_result].
    change (has_content MessageWriter.MessageBundle_clear) with false. cbn [st_world st_data st_con st_err recv_keepalive_count].
    rewrite (connectionStop_last (set_pool d i p') i p' c [] ca);
      [|by apply (con_pool_set d i p)|by apply (same_msgs_wf p)|congruence|done..].
    change (name_is_key (set_pool d i p') i) with (name_is_key d i). destruct (name_is_key d i); [done|].
    cbn [res_bind]. fold (recycled (set_pool d i p') i p'). rewrite (recycled_set d i p p' Hu). by destruct fuel.
  - destruct (in_vec_data p j (wf_in_vec _ _ _ _ Hw ltac:(left))) as [s Hs].
    destruct (clean_all_message w d i p c uid None err j ord ca s Hc Hl Hcl Hw Hs) as (p' & x & -> & Hw' & Hset).
    cbn [res_bind can_stop head fst snd seconds_to_wait Z.eqb negb event_context].
    unfold with_st. cbn [st_err recv_keepalive_count].
    pose proof (ss_rest _ _ _ _ Hset) as Hr. destruct (rest_name _ _ Hr) as (_ & Hu & Hfl).
    rewrite (IH ord p' (ca ++ [j])); [|by apply (con_pool_set d i p)|by apply (last_con_rest p)|by apply (cleaning_rest p)| |done|cbn in Hf; lia].
    2:{ rewrite flag_closing in Hclo |- *. by rewrite Hfl. }
    change (name_is_key (set_pool d i p') i) with (name_is_key d i). destruct (name_is_key d i); [done|].
    rewrite (recycled_set d i p p' Hu). do 3 f_equal.
    assert (pool_items p' ord = pool_items p ord) as ->.
    { apply pool_items_ext. intros k Hk. apply (ss_other _ _ _ _ Hset). intros ->.
      pose proof (wf_nodup _ _ _ Hw) as [Hn _]%NoDup_cons. done. }
    unfold pool_items. cbn [omap list_omap]. rewrite Hs. cbn [fmap option_fmap option_map]. rewrite filter_cons.
    unfold complete_stopping. cbn [stop_bundle stop_msg_id snd].
    destruct (has_content (msgbundle s)); [rewrite decide_True by done|rewrite decide_False by done]; done.
Qed.

(** ** The messages sent to the connection *)

(** The messages with these ids are in the pool, in none of its lists. *)
Record held p ord ca (ids : list MessageId) : Prop := {
  h_nodup : NoDup (index <$> ids);
  h_stub id : id ∈ ids -> exists s, at_idx (vec_data p) (index id) = Some s /\ unique s = unique_ id
    /\ (index id ∉ ord) /\ index id ∉ ca
}.

Lemma fetchCanceled_spec d i p c ord ca (id : MessageId) s :
  con_pool d i p c -> wf p ord ca -> at_idx (vec_data p) (index id) = Some s -> unique s = unique_ id ->
  (index id ∉ ord) -> (index id ∉ ca) ->
  exists p' x, fetchCanceledMessage d c id = Done (set_pool d i p', Some (msgbundle s))
    /\ wf p' ord (ca ++ [index id]) /\ stub_set p p' (index id) x.
Proof using Type.
  intros [Hp Hid] Hw Hs Hu Hno Hnc. unfold fetchCanceledMessage. rewrite Hid. cbn [uid_index].
  rewrite (pool_at_is _ _ _ Hp). cbn [res_bind]. destruct (data_in_vec _ _ _ Hs) as [_ Hlt].
  rewrite (proj2 (Z.ltb_lt _ _) Hlt). cbn [negb]. rewrite stub_at_eq, Hs. cbn [of_option res_bind].
  rewrite (proj2 (Z.eqb_eq _ _) Hu). set (x := StubData_clear _).
  destruct (upd_stub_spec p ord ca _ (index id) x (wf_lists _ _ _ Hw) (data_in_vec _ _ _ Hs)) as (p1 & -> & Hl1 & Hs1 & _).
  cbn [res_bind]. destruct (cache_pushBack_spec p1 ord ca _ (index id) Hl1 (set_in _ _ _ _ Hs1) Hno Hnc) as (p2 & -> & Hl2 & Hs2).
  cbn [res_bind]. rewrite (upd_pool_is _ _ _ _ Hp). cbn [res_bind]. pose proof (stub_set_same _ _ _ _ _ Hs1 Hs2) as Hs2'.
  exists p2, x. split; [done|]. split; [|done].
  eapply wf_of_lists; [done|exact Hs2'| |by apply cached_ca]. by rewrite (asyncs_set _ _ _ _ _ Hs2').
Qed.

Lemma held_tail p p' ord ca (id : MessageId) ids x :
  held p ord ca (id :: ids) -> stub_set p p' (index id) x -> held p' ord (ca ++ [index id]) ids.
Proof using Type.
  intros [Hnd Hst] Hs. apply NoDup_cons in Hnd as [Hni Hnd]. constructor; [done|].
  intros id' Hid'. destruct (Hst id') as (s & Hs' & Hu & Hno & Hnc); [by right|].
  assert (index id' <> index id) as Hne.
  { intros E. apply Hni. rewrite <- E. apply list_elem_of_fmap. eauto. }
  exists s. rewrite (ss_other _ _ _ _ Hs) by done. split_and!; try done. set_solver.
Qed.

Lemma last_con_same p c c' uid : Connection.con_flags c' = Connection.con_flags c -> last_con p c uid -> last_con p c' uid.
Proof using Type.
  intros E []. unfold Connection.isActiveState, Connection.has_flag in *. constructor; try done;
    unfold Connection.isActiveState, Connection.has_flag; by rewrite E.
Qed.

(** What the pool is while its last connection completes its messages. *)
Record draining d i p c uid ord ca : Prop := {
  dr_pool : con_pool d i p c;
  dr_last : last_con p c uid;
  dr_cleaning : cleaning p;
  dr_closing : isClosing p = true;
  dr_wf : wf p ord ca
}.

Lemma draining_con d i p c c' uid ord ca :
  Connection.con_flags c' = Connection.con_flags c -> Connection.pool_id c' = Connection.pool_id c ->
  draining d i p c uid ord ca -> draining d i p c' uid ord ca.
Proof using Type.
  intros Ef Ei [[Hp Hid] Hl Hcl Hclo Hw]. constructor; try done; [split; [done|congruence]|by eapply last_con_same].
Qed.

Lemma draining_set d i p p' c uid ord ca ca' j x :
  draining d i p c uid ord ca -> stub_set p p' j x -> wf p' ord ca' -> draining (set_pool d i p') i p' c uid ord ca'.
Proof using Type.
  intros [Hc Hl Hcl Hclo Hw] Hs Hw'. pose proof (ss_rest _ _ _ _ Hs) as Hr. destruct (rest_name _ _ Hr) as (_ & Hu & Hfl).
  constructor; [by apply (con_pool_set d i p)|by apply (last_con_rest p)|by apply (cleaning_rest p)| |done].
  rewrite flag_closing in Hclo |- *. by rewrite Hfl.
Qed.

(** How the run ends. *)
Definition ends d i p w (err : option Error) (n : Z) (r : res (@State World Ser Msg Fn Addr)) : Prop :=
  if name_is_key d i then r = Undef
  else exists c', r = Done (mkState (on_connection_stop w) (recycled d i p) c' err n).

Lemma ends_set d i p p' w err n r :
  pool_unique p' = pool_unique p -> ends (set_pool d i p') i p' w err n r -> ends d i p w err n r.
Proof using Type.
  intros Hu. unfold ends. change (name_is_key (set_pool d i p') i) with (name_is_key d i). by rewrite (recycled_set d i p p' Hu).
Qed.

Lemma drain_ends uid c err n i p ord ca d w fuel :
  draining d i p c uid ord ca -> (length ord + 2 <= fuel)%nat ->
  ends d i p (completes w (pool_items p ord)) err n
    (run_tasks fuel (mkState w d c err n) uid (Some (ContinueStopping None))).
Proof using Type.
  intros [Hc Hl Hcl Hclo Hw] Hf. unfold ends. rewrite (drain_spec uid c err n i ord fuel p ca d w) by done.
  destruct (name_is_key d i); [done|]. by exists c.
Qed.

Lemma sent_spec uid c err n i ord fuel :
  forall ids k p ca d w, drop k (Connection.pending_message_vec c) = ids -> ids <> [] ->
  MessageWriter.empty (Connection.msg_writer c) = true ->
  draining d i p c uid ord ca -> held p ord ca ids -> (length ids + length ord + 2 <= fuel)%nat ->
  ends d i p (completes w (sent_items p ids ++ pool_items p ord)) err n
    (run_tasks fuel (mkState w d c err n) uid (Some (CompleteAllMessages k false 0 error_message_connection None))).
Proof using Type.
  induction fuel as [|fuel IH]; intros ids k p ca d w Hids Hne He Hdr Hh Hf; [lia|].
  destruct ids as [|id ids]; [done|]. clear Hne. cbn [run_tasks run_task]. unfold doCompleteAllMessages.
  cbn [st_world st_data st_con]. rewrite He. cbn [negb].
  assert (Hk : Connection.pending_message_vec c !! k = Some id).
  { rewrite <- (Nat.add_0_r k), <- lookup_drop, Hids. done. }
  assert (Hdrop : drop (S k) (Connection.pending_message_vec c) = ids).
  { rewrite <- Nat.add_1_r, <- drop_drop, Hids. done. }
  assert (Hlen : length (Connection.pending_message_vec c) = (S k + length ids)%nat).
  { pose proof (f_equal length Hids) as E. rewrite length_drop in E. apply lookup_lt_Some in Hk. cbn in E. lia. }
  rewrite Hk. destruct (h_stub _ _ _ _ Hh id) as (s & Hs & Hu & Hno & Hnc); [left|].
  destruct (fetchCanceled_spec d i p c ord ca id s (dr_pool _ _ _ _ _ _ _ Hdr) (dr_wf _ _ _ _ _ _ _ Hdr) Hs Hu Hno Hnc)
    as (p' & x & -> & Hw' & Hset).
  cbn [res_bind]. set (w1 := doCompleteMessage w id (msgbundle s) _).
  pose proof (draining_set _ _ _ _ _ _ _ _ _ _ _ Hdr Hset Hw') as Hdr'.
  destruct (rest_name _ _ (ss_rest _ _ _ _ Hset)) as (_ & Hu' & _).
  assert (Hitems : completes w (sent_items p (id :: ids) ++ pool_items p ord)
                 = completes w1 (sent_items p' ids ++ pool_items p' ord)).
  { rewrite (pool_items_ext p p' ord) by (intros j Hj; apply (ss_other _ _ _ _ Hset); by intros ->).
    rewrite (sent_items_ext p p' ids).
    - unfold sent_items at 1. cbn [omap list_omap]. rewrite Hs. done.
    - intros id' Hid'. apply (ss_other _ _ _ _ Hset). intros E. pose proof (h_nodup _ _ _ _ Hh) as Hnd.
      apply NoDup_cons in Hnd as [Hni _]. apply Hni. rewrite <- E. apply list_elem_of_fmap. eauto. }
  rewrite Hitems, Hlen. apply (ends_set d i p p' _ _ _ _ Hu'). destruct ids as [|id' ids].
  - rewrite (proj2 (Nat.eqb_eq _ _)) by (cbn; lia). cbn [res_bind head fst snd].
    cbn [sent_items omap list_omap app after_messages Z.eqb negb].
    apply drain_ends with (ca := ca ++ [index id]); [|cbn in Hf; lia]. by apply (draining_con _ _ _ c).
  - rewrite (proj2 (Nat.eqb_neq _ _)) by (cbn; lia). cbn [res_bind head fst snd].
    apply (IH (id' :: ids) (S k) p' (ca ++ [index id])); [done|done|done|done|by eapply held_tail|cbn in *; lia].
Qed.

(** ** The messages of the writer *)

Lemma writer_empty m word wwr wca : wwf m word wwr wca -> MessageWriter.empty m = bool_decide (word = []).
Proof using Type.
  intros Hww. unfold MessageWriter.empty, InnerList.empty.
  rewrite (repr_size _ _ _ _ (WriterProofs.r_ord _ _ _ _ (WriterProofs.wf_reps _ _ _ _ Hww))).
  by destruct word.
Qed.

Lemma writer_items_ext m m' word :
  (forall j, j ∈ word -> at_idx (WriterProofs.vec_data m') j = at_idx (WriterProofs.vec_data m) j) ->
  writer_items m' word = writer_items m word.
Proof using Type. intros H. apply omap_ext_in. intros j Hj. by rewrite H. Qed.

Lemma messages_spec uid err n i ord fuel :
  forall c word wwr wca p ca d w, word <> [] -> wwf (Connection.msg_writer c) word wwr wca ->
  WriterProofs.no_unstarted_request (Connection.msg_writer c) word wwr ->
  draining d i p c uid ord ca -> held p ord ca (Connection.pending_message_vec c) ->
  (length word + length (Connection.pending_message_vec c) + length ord + 2 <= fuel)%nat ->
  ends d i p (completes w (writer_items (Connection.msg_writer c) word
                           ++ sent_items p (Connection.pending_message_vec c) ++ pool_items p ord)) err n
    (run_tasks fuel (mkState w d c err n) uid (Some (CompleteAllMessages 0 false 0 error_message_connection None))).
Proof using Type.
  induction fuel as [|fuel IH]; intros c word wwr wca p ca d w Hne Hww Hu Hdr Hh Hf; [lia|].
  destruct word as [|j word]; [done|]. clear Hne. cbn [run_tasks run_task]. unfold doCompleteAllMessages.
  cbn [st_world st_data st_con]. rewrite (writer_empty _ _ _ _ Hww), bool_decide_eq_false_2 by done. cbn [negb].
  pose proof (repr_nodup _ _ _ _ (WriterProofs.r_ord _ _ _ _ (WriterProofs.wf_reps _ _ _ _ Hww))) as [Hnj _]%NoDup_cons.
  assert (exists s, at_idx (WriterProofs.vec_data (Connection.msg_writer c)) j = Some s) as [s Hs].
  { apply WriterProofs.w_in_vec_data. eapply repr_in_vec; [apply Hww|left]. }
  destruct (WriterProofs.cancelOldest_spec _ j word wwr wca s Hww Hu Hs) as (m' & wwr' & wca' & -> & Hww' & Hu' & Hj).
  cbn [res_bind]. set (c' := Connection.with_writer c m'). rewrite (writer_empty _ _ _ _ Hww').
  set (w1 := doCompleteMessage w _ _ _).
  assert (Hitems : forall l, completes w (writer_items (Connection.msg_writer c) (j :: word) ++ l)
                 = completes w1 (writer_items m' word ++ l)).
  { intros l. rewrite (writer_items_ext (Connection.msg_writer c) m' word) by (intros k Hk; apply Hj; by intros ->).
    unfold writer_items at 1. cbn [omap list_omap]. rewrite Hs. done. }
  rewrite Hitems. assert (Hdr' : draining d i p c' uid ord ca) by (by apply (draining_con _ _ _ c)).
  change (Connection.pending_message_vec c') with (Connection.pending_message_vec c).
  destruct word as [|k word].
  - rewrite bool_decide_eq_true_2 by done. cbn [negb orb writer_items omap list_omap app].
    destruct (Connection.pending_message_vec c) as [|id ids] eqn:Hp.
    + rewrite bool_decide_eq_true_2 by done. cbn [negb head fst snd after_messages Z.eqb sent_items omap list_omap app].
      by apply drain_ends with (ca := ca); [|cbn in Hf; lia].
    + rewrite bool_decide_eq_false_2 by done. cbn [negb head fst snd].
      apply (sent_spec uid c' err n i ord fuel (id :: ids) 0 p ca); try done; [|cbn in *; lia].
      cbn. by rewrite (writer_empty _ _ _ _ Hww').
  - rewrite bool_decide_eq_false_2 by done. cbn [negb orb head fst snd].
    apply (IH c' (k :: word) wwr' wca' p ca); try done. cbn in *; lia.
Qed.

(** ** Stopping for good *)

Lemma stop_run s uid (e : Error) i p ord ca word wwr wca :
  let c := st_con s in
  con_pool (st_data s) i p c -> last_con p c uid -> Connection.isStopping c = false ->
  isCleaningOneShotMessages p = false -> isCleaningAllMessages p = false -> isRestarting p = false ->
  gives_up (st_world s) p (Some e) = true ->
  wf p ord ca -> wwf (Connection.msg_writer c) word wwr wca ->
  WriterProofs.no_unstarted_request (Connection.msg_writer c) word wwr ->
  held p ord ca (Connection.pending_message_vec c) ->
  exists s' t, doStop s uid e = Done (Handled s' [t]) /\
    forall fuel, (length word + length (Connection.pending_message_vec c) + length ord + 2 <= fuel)%nat ->
    ends (st_data s) i p
      (completes (st_world s) (writer_items (Connection.msg_writer c) word
         ++ sent_items p (Connection.pending_message_vec c) ++ pool_items p ord))
      (Some e) (recv_keepalive_count s) (run_tasks fuel s' uid (Some t)).
Proof using Type.
  intros c [Hp Hid] Hl Hns H1 H2 H3 Hg Hw Hww Hu Hh. unfold doStop. fold c. rewrite Hns.
  set (c1 := Connection.set_flag c _). cbn [with_err st_world st_data st_err].
  assert (Hact : Connection.isActiveState c1 = Connection.isActiveState c).
  { unfold c1, Connection.isActiveState, Connection.has_flag, Connection.set_flag. cbn [Connection.con_flags Connection.with_flags].
    rewrite Z.land_lor_distr_l. change (Z.land Connection.Flags.Stopping Connection.Flags.Active) with 0. by rewrite Z.lor_0_r. }
  assert (Hl1 : last_con p c1 uid) by (destruct Hl; constructor; by rewrite ?Hact).
  destruct (stopping_prepare (st_world s) (st_data s) i p c1 uid None (Some e)) as (p1 & -> & Hs1 & Hl2 & Hcl & Hclo); try done.
  pose proof (sm_unique _ _ Hs1) as Hun. pose proof (same_msgs_data _ _ Hs1) as Hda.
  cbn [res_bind]. unfold complete_stopping. cbn [stop_bundle stop_result can_stop seconds_to_wait event_context Z.eqb negb andb].
  change (has_content MessageWriter.MessageBundle_clear) with false. cbn match.
  unfold with_st. cbn [st_err recv_keepalive_count]. change (Connection.pending_message_vec c1) with (Connection.pending_message_vec c).
  change (Connection.msg_writer c1) with (Connection.msg_writer c). rewrite (writer_empty _ _ _ _ Hww).
  assert (Hdr : draining (set_pool (st_data s) i p1) i p1 c1 uid ord ca).
  { constructor; [by apply (con_pool_set _ _ p)|done|done|done|by apply (same_msgs_wf p)]. }
  assert (Hh1 : held p1 ord ca (Connection.pending_message_vec c)).
  { destruct Hh as [Hnd Hst]. constructor; [done|]. by rewrite Hda. }
  assert (Hpi : pool_items p1 ord = pool_items p ord) by (unfold pool_items; by rewrite Hda).
  assert (Hsi : sent_items p1 (Connection.pending_message_vec c) = sent_items p (Connection.pending_message_vec c))
    by (unfold sent_items; by rewrite Hda).
  eexists _, (if bool_decide (Connection.pending_message_vec c = []) && bool_decide (word = []) then ContinueStopping None
              else CompleteAllMessages 0 false 0 error_message_connection None).
  split; [by destruct (_ && _)|]. intros fuel Hf. apply (ends_set _ i p p1 _ _ _ _ Hun). rewrite <- Hpi, <- Hsi.
  destruct word as [|k word].
  - rewrite (bool_decide_eq_true_2 ([] = [])), andb_true_r by done. cbn [writer_items omap list_omap app].
    destruct (Connection.pending_message_vec c) as [|id ids] eqn:Hpend.
    + cbn [sent_items omap list_omap app]. rewrite bool_decide_eq_true_2 by done.
      apply drain_ends with (ca := ca); [done|cbn in Hf; lia].
    + rewrite bool_decide_eq_false_2 by done.
      apply (sent_spec uid c1 (Some e) _ i ord fuel (id :: ids) 0 p1 ca); try done.
      cbn. by rewrite (writer_empty _ _ _ _ Hww).
  - rewrite (bool_decide_eq_false_2 (k :: word = [])), andb_false_r by done.
    by apply (messages_spec uid (Some e) _ i ord fuel c1 (k :: word) wwr wca p1 ca).
Qed.

Lemma name_is_key_lookup d (k : string) i : namemap d !! k = Some i -> name_is_key d i = true.
Proof using Type.
  intros H. unfold name_is_key. apply existsb_exists. exists (k, i). split; [|apply Z.eqb_refl].
  apply list_elem_of_In. by apply elem_of_map_to_list.
Qed.

Lemma cleared_unique p : in_range 32 (pool_unique p) -> pool_unique (cleared p) <> pool_unique p.
Proof using Type.
  clear. intros [H0 H1]. cbn. unfold wrap. destruct (decide (pool_unique p + 1 = 2 ^ 32)) as [E|Hne].
  - rewrite E, Z.mod_same by done. lia.
  - rewrite Z.mod_small by lia. lia.
Qed.

(** C6: when the last connection of a pool stops for good (the pool closes at once or belongs
    to an accepted connection, the service stops, or the name could not be resolved), and the name
    of the pool leads to it no more (it was closed before, or has none), and its writer holds no
    request that is queued but not started: every message is completed exactly once with
    [error_message_connection], each by its own completion function or the one of its type: first
    the open messages of its writer, from the oldest on, then the messages sent to this connection,
    then those of the pool, in their order. It takes one turn of the reactor per message and two
    more. After that the pool is empty and free for another recipient, and its old id is not its id
    any more. (What happens otherwise: [resolve_failure_keeps_name] and, for the writer,
    [cancel_queued_request_undefined].) *)
Theorem stop_completes_all s uid (e : Error) i p ord ca word wwr wca :
  let c := st_con s in
  con_pool (st_data s) i p c -> last_con p c uid -> Connection.isStopping c = false ->
  isCleaningOneShotMessages p = false -> isCleaningAllMessages p = false -> isRestarting p = false ->
  gives_up (st_world s) p (Some e) = true ->
  wf p ord ca -> wwf (Connection.msg_writer c) word wwr wca ->
  WriterProofs.no_unstarted_request (Connection.msg_writer c) word wwr ->
  held p ord ca (Connection.pending_message_vec c) ->
  name_is_key (st_data s) i = false -> in_range 32 (pool_unique p) ->
  exists s' t, doStop s uid e = Done (Handled s' [t]) /\
    forall fuel, (length word + length (Connection.pending_message_vec c) + length ord + 2 <= fuel)%nat ->
    exists s2, run_tasks fuel s' uid (Some t) = Done s2
      /\ st_world s2 = on_connection_stop (completes (st_world s)
           (writer_items (Connection.msg_writer c) word ++ sent_items p (Connection.pending_message_vec c) ++ pool_items p ord))
      /\ st_data s2 = recycled (st_data s) i p
      /\ pool_is (st_data s2) i (cleared p) /\ pool_unique (cleared p) <> pool_unique p /\ wf (cleared p) [] [].
Proof using Type.
  intros c Hc Hl Hns H1 H2 H3 Hg Hw Hww Hu Hh Hkey Hr.
  destruct (stop_run s uid e i p ord ca word wwr wca Hc Hl Hns H1 H2 H3 Hg Hw Hww Hu Hh) as (s' & t & E & Hrun).
  exists s', t. split; [done|]. intros fuel Hf. specialize (Hrun fuel Hf). unfold ends in Hrun. rewrite Hkey in Hrun.
  destruct Hrun as [c' ->]. eexists. split; [reflexivity|]. cbn [st_world st_data]. split_and!; try done.
  - destruct Hc as [Hp _]. by apply (pool_is_set _ _ p).
  - by apply cleared_unique.
  - apply wf_cleared.
Qed.

(** When the name of a recipient cannot be resolved, its pool is closed while its name
    still leads to it: the last connection completes its messages, and then clears a pool whose
    name is a key of the map of names. *)
Theorem resolve_failure_keeps_name s uid i p ord ca word wwr wca :
  let c := st_con s in
  con_pool (st_data s) i p c -> last_con p c uid -> Connection.isStopping c = false ->
  isCleaningOneShotMessages p = false -> isCleaningAllMessages p = false -> isRestarting p = false ->
  wf p ord ca -> wwf (Connection.msg_writer c) word wwr wca ->
  WriterProofs.no_unstarted_request (Connection.msg_writer c) word wwr ->
  held p ord ca (Connection.pending_message_vec c) ->
  namemap (st_data s) !! name p = Some i ->
  exists s' t, doStop s uid error_connection_resolve = Done (Handled s' [t]) /\
    forall fuel, (length word + length (Connection.pending_message_vec c) + length ord + 2 <= fuel)%nat ->
    run_tasks fuel s' uid (Some t) = Undef.
Proof using Type.
  intros c Hc Hl Hns H1 H2 H3 Hw Hww Hu Hh Hkey.
  destruct (stop_run s uid error_connection_resolve i p ord ca word wwr wca Hc Hl Hns H1 H2 H3) as (s' & t & E & Hrun); try done.
  { unfold gives_up. rewrite (bool_decide_eq_true_2 (_ = _)) by done. apply orb_true_r. }
  exists s', t. split; [done|]. intros fuel Hf. specialize (Hrun fuel Hf). unfold ends in Hrun.
  by rewrite (name_is_key_lookup _ _ _ Hkey) in Hrun.
Qed.

End Proofs.

(** ** Witnesses *)

Definition silent_ser_run (ctx : MessageWriter.Context) (w : toy_events) (p : list Z) (n : Z) : toy_events * list Z * Z * list Z :=
  (w, drop (Z.to_nat n) p, Z.of_nat (length (take (Z.to_nat n) p)), take (Z.to_nat n) p).

#[local, refine] Instance silent_writer_env : WriterEnv toy_events (list Z) (list Z) unit Error := {|
  MessageWriter.createSerializer := [];
  MessageWriter.reset_serializer p := p;
  MessageWriter.ser_push _ m _ := match m with Some x => x | None => [] end;
  MessageWriter.ser_run := silent_ser_run;
  MessageWriter.ser_empty p := (length p =? 0)%nat;
  MessageWriter.ser_clear _ := [];
  MessageWriter.ser_error _ := None;
  MessageWriter.minimumFreePacketDataSize := 16;
  MessageWriter.inplace_compress_fnc d := (0, d, None);
  MessageWriter.on_complete w m _ _ := Done (w, m, None)
|}.
Proof.
  unfold silent_ser_run. intros ctx w s n w' s' rv bs [= <- <- <- <-] Hrv. rewrite length_take in *. lia.
Defined.

#[local] Instance silent_connection_env : ConnectionEnv toy_events (list Z) unit := {|
  run_complete_fnc w _ _ _ _ _ := w;
  run_protocol_fnc w _ _ _ _ _ := w;
  on_connection_stop w := w;
  connection_inactivity_timeout_seconds := 0;
  connection_keepalive_timeout_seconds := 0;
  connection_inactivity_keepalive_count := 0
|}.

(** The pool of a connection that is not active yet. *)
Definition pending_pool : toy_pool := with_main (with_counts peer_pool 1 0 0) (mkUniqueId 5 0).

Definition stop_state (names : gmap string Z) (fl : Z) : @State toy_events (list Z) (list Z) unit Z :=
  mkState [] (mkService names [with_flags pending_pool fl] []) peer_con None 0.

Lemma stop_state_ok (names : gmap string Z) (fl : Z) :
  con_pool (st_data (stop_state names fl)) 0 (with_flags pending_pool fl) peer_con
  /\ last_con (with_flags pending_pool fl) peer_con (mkUniqueId 5 0)
  /\ (exists ca, wf (with_flags pending_pool fl) [0] ca /\ held (with_flags pending_pool fl) [0] ca [])
  /\ WriterProofs.wf (Connection.msg_writer peer_con) [] [] []
  /\ WriterProofs.no_unstarted_request (Connection.msg_writer peer_con) [] [].
Proof.
  split; [by split|]. split; [by constructor|]. split.
  - destruct wf_peer_pool as [ca Hw]. exists ca. split; [by apply (wf_msgs peer_pool)|].
    constructor; [constructor|]. by intros id ?%not_elem_of_nil.
  - split; [apply WriterProofs.w_wf_new|]. by intros i s ?%not_elem_of_nil.
Qed.

Lemma stop_completes_all_witness :
  exists s' t s2, doStop (stop_state ∅ FastClosingFlag) (mkUniqueId 5 0) error_connection_killed = Done (Handled s' [t])
    /\ run_tasks 3 s' (mkUniqueId 5 0) (Some t) = Done s2
    /\ pool_is (st_data s2) 0 (cleared (with_flags pending_pool FastClosingFlag)).
Proof.
  destruct (stop_state_ok ∅ FastClosingFlag) as (Hc & Hl & (ca & Hw & Hh) & Hww & Hu).
  destruct (stop_completes_all (stop_state ∅ FastClosingFlag) (mkUniqueId 5 0) error_connection_killed 0 (with_flags pending_pool FastClosingFlag) [0] ca [] [] [])
    as (s' & t & E & Hrun); try done.
  destruct (Hrun 3%nat ltac:(cbn; lia)) as (s2 & E2 & _ & _ & Hp & _). by exists s', t, s2.
Defined.

Lemma resolve_failure_keeps_name_witness :
  exists s' t, doStop (stop_state {[ "peer" := 0 ]} 0) (mkUniqueId 5 0) error_connection_resolve = Done (Handled s' [t])
    /\ run_tasks 3 s' (mkUniqueId 5 0) (Some t) = Undef.
Proof.
  destruct (stop_state_ok {[ "peer" := 0 ]} 0) as (Hc & Hl & (ca & Hw & Hh) & Hww & Hu).
  destruct (resolve_failure_keeps_name (stop_state {[ "peer" := 0 ]} 0) (mkUniqueId 5 0) 0 (with_flags pending_pool 0) [0] ca [] [] [])
    as (s' & t & E & Hrun); try done.
  exists s', t. split; [exact E|]. apply Hrun. cbn. lia.
Defined.

End ConnectionStopProofs.
